(* ===== verification/_CoqProject ===== *)
-Q . S2P
Prelude.v
Float.v
Lww.v
RoutingTable.v
Capability.v
CellState.v
ZoneState.v
Error.v
Router.v
Maintenance.v
Policy.v
Command.v
CommandRouting.v
TimeoutManager.v
Coordinator.v
EventQueue.v
Qos.v
SyncQueue.v
Flow.v
Operator.v
Node.v
Messaging.v
Election.v
Transmitter.v
Aggregator.v
Query.v
Formation.v
Bytes.v
Membership.v
AuthState.v
Authorization.v
Authenticator.v
UserAuth.v
AuditLog.v
Recovery.v
Json.v
Conversion.v
StateAggregation.v
Deltas.v
SummaryStorage.v
CommandStore.v
Domain.v
Composition.v
Geohash.v
Geo.v
CellStore.v
AutomergeBackend.v
Discovery.v
Validation.v
DeviceValidation.v
ProductValidation.v
Documents.v
TypeRegistry.v
PendingOrigins.v
Distribution.v
