(* ===== verification/Prelude.v ===== *)
(** * A verification library for the Peat coordination protocol

    Peat (crate peat-protocol) organises nodes into cells and cells into zones,
    replicates this hierarchy between peers as last-write-wins registers and grow-only
    sets, routes messages along it, rebalances it, elects cell leaders, disseminates
    commands down it, aggregates events up it, schedules events and documents by
    priority, and authenticates the devices and people that take part. The crate
    peat-schema holds the messages they exchange and validates them. This library
    models that core logic as executable functions and proves what it guarantees and
    what it does not.

    ** Files and sources (paths under src/peat-protocol/src unless said otherwise)

    Shared:
    - [Prelude.v]: results and their bind notation, machine integers with their
      wrap-around and checked forms, push-if-absent vectors, stable sorting,
      minimum search, the hint database [peat] and the tactic [bool_arith].
    - [Float.v]: order, rounding and range lemmas of the executable IEEE formats.
    - [Lww.v]: last-write-wins entries and maps, shared by the replicated tables.
    - [Bytes.v]: machine-width encodings, UTF-8, the errors of the security layer and
      the class [DeviceCrypto] of key pairs and signatures with its laws.

    The hierarchy:
    - [RoutingTable.v]: hierarchy/routing_table.rs. The state is the three maps
      node to cell, cell to zone and cell to leader, each value with a timestamp.
    - [Capability.v]: models/capability.rs and the messages of
      peat-schema/proto/common.proto and capability.proto.
    - [CellState.v], [ZoneState.v]: models/cell/mod.rs and models/zone.rs, one
      function per method of the extension traits; the clock is an argument.
    - [Operator.v], [Node.v]: models/operator.rs, models/node.rs, models/role.rs and
      the policies of cell/election_policy.rs.
    - [Error.v]: error.rs.
    - [Router.v]: hierarchy/router.rs over a routing table, with the flow controller
      behind the class [FlowControl].
    - [Flow.v]: hierarchy/flow_control.rs, token buckets on binary64. It discharges
      [FlowControl]; the delays of the machine are the parameter [World].
    - [Maintenance.v]: hierarchy/maintenance.rs and the query of valid cells of
      storage/cell_store.rs. A rebalancing pass changes the routing table through
      [RoutingTable.merge_cells] and [RoutingTable.split_cell].

    The cell:
    - [Messaging.v]: cell/messaging.rs, the message bus of a cell.
    - [Election.v]: cell/leader_election.rs, one node and a cell of nodes that
      exchange announcements and heartbeats over a lossy, repeating network.
    - [Formation.v]: cell/capability_aggregation.rs, cell/coordinator.rs and
      hierarchy/zone_coordinator.rs. The order of a
      hash map and the text of rejections are the classes [HashOrder] and [Render].

    Commands:
    - [Policy.v]: policy/conflictable.rs, policies.rs and resolver.rs, with the trait
      [Conflictable] as a class.
    - [Command.v]: the schema of peat-schema/proto/command.proto,
      command/policy_impl.rs (the instance of [Conflictable]) and
      command/conflict_resolver.rs.
    - [CommandRouting.v], [TimeoutManager.v]: command/routing.rs and
      command/timeout_manager.rs.
    - [Coordinator.v]: command/coordinator.rs, composed of the three parts above and
      of a storage behind the class [CommandStorage] (command/storage_trait.rs), in a
      monad of shared state, errors and panics.

    Events and quality of service:
    - [EventQueue.v], [Transmitter.v]: event/priority_queue.rs and transmitter.rs.
    - [Aggregator.v]: event/emitter.rs, summary.rs and aggregator.rs; the
      serialisation of summaries is the class [SummaryCodec].
    - [Query.v]: event/query.rs against the class [EventStore].
    - [Qos.v]: qos/classification.rs, context.rs, context_manager.rs, registry.rs and
      the conversions of mod.rs. The types of the peat-mesh crate are behind the
      class [MeshQoS] with the documented laws [MeshQoSLaws].
    - [SyncQueue.v]: qos/sync_queue.rs against [MeshQoS].
    - [Recovery.v]: qos/recovery.rs; the order of the classes, which peat-mesh
      defines, is the class [PriorityOrder].

    Summaries and composition:
    - [Domain.v], [Composition.v]: models/domain.rs and composition/*.rs, the engine,
      its context and every rule of the library. JSON values and the serde parser
      are [Json.v] with the class [SerdeJson].
    - [StateAggregation.v]: hierarchy/state_aggregation.rs, the four tiers of
      summaries. The trigonometry of the C library is the class [LibM], the order
      of a hash map [ValueOrder].
    - [Deltas.v]: hierarchy/deltas.rs and the application of deltas of
      storage/automerge_summary_storage.rs.
    - [Conversion.v]: storage/automerge_conversion.rs, messages as documents; the
      documents of Automerge are the class [AutomergeDoc], the serialisation of a
      message type the class [Serde].
    - [SummaryStorage.v]: the rest of automerge_summary_storage.rs,
      hierarchy/storage_trait.rs and aggregation_coordinator.rs, over [Conversion]
      and the store of peat-mesh, [AutomergeStore].
    - [CommandStore.v]: storage/automerge_command_storage.rs, the command storage of
      [Coordinator] over the same store, and its observers.

    Places, discovery and distribution:
    - [Geohash.v]: geohash.rs on the bits of binary64.
    - [Geo.v]: discovery/geo.rs and geographic.rs.
    - [CellStore.v]: storage/cell_store.rs over the class [DocumentStore], the trait
      of the synchronisation backends.
    - [AutomergeBackend.v]: the documents of sync/automerge.rs, an instance of
      [DocumentStore] with its laws for the documents it can hold.
    - [Discovery.v]: discovery/capability_query.rs, coordinator.rs and directed.rs,
      the last against the store of cells.
    - [PendingOrigins.v]: sync/pending_origins.rs; the order in which the hash map is
      searched is the class [QueueOrder].
    - [Distribution.v]: distribution/*.rs and the advertisement of cot/types.rs.

    The schema (src/peat-schema/src):
    - [Validation.v]: validation/mod.rs, core.rs, capability.rs, command.rs and
      track.rs. [DeviceValidation.v]: effector.rs, sensor.rs and actuator.rs, a
      Module each. [ProductValidation.v]: model.rs, product.rs and tasking.rs. The
      text of a float in a message is the class [FloatText].
    - [Documents.v]: the JSON validators of type_registry.rs with their panics.
    - [TypeRegistry.v]: the registry and its built-in descriptors; the serde
      encoding of the messages is the class [ProtoJson].

    Security (security/):
    - [Membership.v]: membership.rs, certificates, their wire format and registry.
    - [AuthState.v]: auth_state.rs, the lifetime of a certificate and its monitor.
    - [Authorization.v]: authorization.rs, roles and the policy.
    - [Authenticator.v]: authenticator.rs, the challenge-response handshake over
      [DeviceCrypto].
    - [UserAuth.v]: user_auth.rs, accounts over the class [UserStore] (with the local
      store as instance) and [PasswordCrypto], TOTP, base 32 and sessions.
    - [AuditLog.v]: audit.rs, the three loggers; dates and JSON are [LogFormat].

    ** What the theorems show

    - Replication. Routing-table merges are associative and idempotent, do not depend
      on the iteration order of hash maps, and commute when a timestamp identifies a
      write; the same writes converge in any order, and so does gossip of whole
      tables in which a timestamp identifies a write. Cell merges are associative and
      idempotent, and commute up to the order of vectors (the equivalence
      [cell_equiv]) for replicas of one cell that were changed at different times and
      describe each capability alike. The limits are proved too: ties diverge, a
      capability described in two ways stays so, removals without tombstones are
      undone, a merge can exceed a cell's capacity.
    - Hierarchy. Reachable cells and zones are well formed; accepted routes are the
      intra-cell ones, those of leaders to zones they know and those of leaders to
      names the table does not know, and the enumerated targets agree with the check; token buckets stay within their capacity and grant what fits
      them after a bounded number of tries; candidate search, splits and the
      rebalancing pass are specified on every branch, including when a split loses
      members and why undersized cells are not merged.
    - The cell. A message is delivered at most once however deliveries interleave, and
      in the order of its sender as long as deliveries do not overlap, which is shown
      to be needed; retransmissions are bounded; followers never form a cycle whatever the network does; a silent
      leader is given up exactly after its timeout; scores and readiness stay in
      [0,1] on floats; a formation completes exactly when its criteria are met.
    - Commands. The resolver is total and its winner is characterised for every
      policy; it refines the generic engine and agrees with its policies. A command in
      conflict is accepted exactly when its policy compares and it outranks what it
      conflicts with, and what acceptance
      leaves behind is stated for every answer of the storage. Target resolution is
      equivalent to the meaning of a scope; expiry loses no command; acknowledgments
      complete exactly when all expected nodes answered, provided only they answer.
      Invariants over all reachable coordinators show that a command is never stored
      as completed and never counts as acknowledged by another node.
    - Scheduling. The event queue is a stable sort by priority; weighted pops respect
      their shares; critical events are never displaced. Aggregators account for
      every event and keep private ones home; merged query answers are the newest.
      The byte counters of the sync queue and of the recovery queue are exact in
      every reachable state; their loops terminate and lose nothing; a recovery hands
      out what is not obsolete by priority. Context changes are logged as a path;
      policy adjustments are monotone.
    - Security. Certificates survive the wire exactly when their fields fit, decoding
      is total and accepts exactly encodings, up to permission flags it does not know,
      and signed bytes determine every field; a peer counts as verified only after a
      response of its own, signed and addressed to this device, was accepted and not
      forgotten since; the access matrix of devices; wrong passwords lock an account
      after the configured attempts, wrong one-time codes do not; expiry is
      reported once; base 32 agrees with RFC 4648; concurrent logging loses nothing.

    - Summaries. A summary of any tier describes exactly the operational nodes below
      it; a delta recreates the summary it was made from; messages whose JSON a document
      can hold (finite floats, signed 64-bit integers, arrays of strings or objects)
      survive it, the storage of summaries refines a map in which a summary is created
      only when absent and changed by deltas only, and the command storage is three
      tables whose observers call once per command. The composition
      engine answers without failing when confidences are numbers; chains are
      optimal or bounded by their parts, and a strike chain demands a human.
    - Places and discovery. Decoding a geohash gives the cell of the leading bits of the
      encoded point, and hashes nest; among nodes seen in one place each, one
      node of a cell initiates its formation; the store of cells refines a map over any
      backend that obeys the laws of [CellStore], which are proved of the in-memory one;
      a discovery ends and keeps its outcome; a directed assignment joins one cell; queries
      rank matches. Origins of the writes of a key are handed out in the order of
      the writes, to remote changes too, and the map stays bounded; the
      capability matcher decides its filter and identifier targeting is sound.
    - Schema. Each validator reports its first error; validity is preserved by the
      operations of cells and of task control; commands accepted to arm are
      authorized; actuator states are within their limits; JSON validators never
      panic and accepted attachments stay in their directory; the built-in registry
      is closed and the default documents of its types are readable.

    ** Conventions, bounds and fuel

    A 64-bit integer is a [Z]; where the source can overflow, the operation is
    [checked] ([None] is the panic of a build with overflow checks) or, for atomic
    counters and [as] casts, reduced modulo the width. The wall clock is an argument
    of the operations that read it, never before the Unix epoch unless said so.
    Floats are the Standard Library's executable IEEE formats ([SpecFloat]).
    [HashMap] is [gmap], and a function that iterates one is proved independent of the
    order, takes the order as a parameter, or documents the order of [map_to_list].
    Locks and atomics: handlers run one after the other, as steps of the reachability
    relations; [AuditLog] and the delivery of [Messaging] also interleave the critical
    sections inside a call.
    Logging is left out.
    Fuel: [SyncQueue.rounds] is the number of queued items plus one, and each round
    removes an item, so the fuel is never used up; [EventQueue.pop_all] and
    [Recovery.drain] are references with as much fuel as elements; [Flow.consume]
    carries a number of tries, 129 of which are proved to suffice when the cost fits
    the bucket; [UserAuth.emit_symbols] has fuel 2, as its register never holds more
    than 12 bits. The theorems state what is returned, not only what is returned if
    the fuel suffices.

    ** Not modelled

    - The other sync and storage backends (the rest of sync/automerge.rs,
      ble_translation.rs, storage/automerge_backend.rs, node_store.rs and the like): asynchronous input/output against
      external CRDT libraries and radios. What the modelled code needs of them is in
      the classes above.
    - peat-ffi, peat-transport, peat-persistence and the examples: bindings, servers
      and device firmware around the components above.
    - The Cursor-on-Target bridge (cot/): XML for an external protocol, apart from the
      advertisement of cot/types.rs.
    - discovery/peer.rs and security/transport.rs: sockets; security/keypair.rs,
      device_id.rs, encryption.rs, formation_key.rs and callsign.rs: re-exports of the
      crate peat-mesh, which is not part of the repository.
    - peat-schema/src/ontology.rs, a static vocabulary; the with_ builders and preset
      manifests of distribution/manifest.rs; display names and role descriptions; the
      election policy read from environment variables.
    - Interleavings of concurrent callers, other than those of [AuditLog] and of the
      delivery of [Messaging]: handlers are steps, also where the source releases a lock
      inside a call, as the retry loop of [Flow.consume] does between its tries. *)

From stdpp Require Export base gmap strings list fin_maps sorting.
From Stdlib Require Export ZArith Lia.

Open Scope Z_scope.

(** ** Results

    [Result<T, E>] of the Rust code. [?] is the [let?] notation: the error is
    returned unchanged to the caller. *)

Inductive result (E A : Type) : Type :=
| Ok (a : A)
| Err (e : E).

Arguments Ok {E A} a.
Arguments Err {E A} e.

Declare Scope peat_scope.
Delimit Scope peat_scope with peat.

Notation "'let?' x := c 'in' k" :=
  (match c with Ok x => k | Err e => Err e end)
  (at level 10, x pattern, c at level 100, k at level 200) : peat_scope.

Open Scope peat_scope.

Definition is_ok {E A} (r : result E A) : bool :=
  match r with Ok _ => true | Err _ => false end.

(** ** Machine integers

    [u64], [u32], [i64] and [usize] values are [Z]; the code runs on 64-bit
    targets, so [usize] is 64 bits wide. Arithmetic that can leave the range is
    written with [checked]: [None] is the panic of a debug build, and every use
    comes with a bound that excludes it or is stated on both cases. *)

Definition u32_modulus : Z := 2 ^ 32.
Definition u64_modulus : Z := 2 ^ 64.

Definition is_u64 (z : Z) : Prop := 0 <= z < u64_modulus.

Definition is_u32 (z : Z) : Prop := 0 <= z < u32_modulus.

#[export] Instance is_u64_dec z : Decision (is_u64 z).
Proof. unfold is_u64. apply _. Defined.

#[export] Instance is_u32_dec z : Decision (is_u32 z).
Proof. unfold is_u32. apply _. Defined.

(** Value of an unsigned operation on 64 bits that panics on overflow. *)
Definition checked (z : Z) : option Z :=
  if decide (is_u64 z) then Some z else None.

(** The same on 32 bits *)
Definition checked_u32 (z : Z) : option Z := if decide (is_u32 z) then Some z else None.

(** [x as u32] *)
Definition as_u32 (z : Z) : Z := z mod u32_modulus.

(** [x as u64] of a signed value *)
Definition as_u64 (z : Z) : Z := z mod u64_modulus.

(** [x as i64] of an unsigned 64-bit value *)
Definition as_i64 (z : Z) : Z :=
  let r := z mod u64_modulus in if r <? 2 ^ 63 then r else r - u64_modulus.

(** [a.saturating_sub(b)] on unsigned values *)
Definition saturating_sub (a b : Z) : Z := Z.max 0 (a - b).

(** [v.len()] *)
Definition len {A} (l : list A) : Z := Z.of_nat (length l).

Lemma checked_Some z : is_u64 z -> checked z = Some z.
Proof. unfold checked. by case_decide. Qed.

Lemma checked_inv z y : checked z = Some y -> y = z.
Proof. unfold checked. case_decide; intros; by simplify_eq. Qed.

Lemma checked_range z y : checked z = Some y -> is_u64 z.
Proof. unfold checked. by case_decide. Qed.

Lemma as_u32_small z : is_u32 z -> as_u32 z = z.
Proof. unfold as_u32, is_u32, u32_modulus. intros. by apply Z.mod_small. Qed.

Lemma as_u32_range z : is_u32 (as_u32 z).
Proof. unfold as_u32, is_u32, u32_modulus. apply Z.mod_pos_bound. lia. Qed.

Lemma len_nonneg {A} (l : list A) : 0 <= len l.
Proof. unfold len. lia. Qed.

Lemma len_app {A} (l k : list A) : len (l ++ k) = len l + len k.
Proof. unfold len. rewrite length_app. lia. Qed.

Lemma len_nil_iff {A} (l : list A) : len l = 0 <-> l = [].
Proof. unfold len. destruct l; simpl; split; intros; try done; lia. Qed.

(** ** Lists used as sets

    [if !v.contains(&x) { v.push(x) }], with membership up to a key. *)

Section PushAbsent.
Context {A K : Type} `{EqDecision K} (key : A -> K).

Definition has_key (l : list A) (k : K) : bool :=
  existsb (fun y => bool_decide (key y = k)) l.

Definition push_absent (l : list A) (x : A) : list A :=
  if has_key l (key x) then l else l ++ [x].

Definition union_by (l k : list A) : list A := fold_left push_absent k l.

Lemma has_key_spec l k : has_key l k = true <-> k ∈ (key <$> l).
Proof.
  unfold has_key. rewrite existsb_exists, list_elem_of_fmap.
  split.
  - intros (y & Hy & Hk). apply bool_decide_eq_true in Hk.
    exists y. split; [done|]. by apply list_elem_of_In.
  - intros (y & -> & Hy). exists y. split; [by apply list_elem_of_In|].
    by apply bool_decide_eq_true.
Qed.

Lemma has_key_false l k : has_key l k = false <-> k ∉ (key <$> l).
Proof. rewrite <- has_key_spec. by destruct (has_key l k). Qed.

Lemma push_absent_keys l x :
  key <$> push_absent l x =
  if bool_decide (key x ∈ (key <$> l)) then key <$> l else (key <$> l) ++ [key x].
Proof.
  unfold push_absent. destruct (has_key l (key x)) eqn:E.
  - apply has_key_spec in E. by rewrite bool_decide_eq_true_2.
  - apply has_key_false in E. rewrite bool_decide_eq_false_2 by done.
    by rewrite fmap_app.
Qed.

Lemma elem_of_push_absent_key l x k :
  k ∈ (key <$> push_absent l x) <-> k ∈ (key <$> l) \/ k = key x.
Proof.
  rewrite push_absent_keys. case_bool_decide; [naive_solver|].
  rewrite elem_of_app, list_elem_of_singleton. tauto.
Qed.

Lemma NoDup_push_absent l x :
  NoDup (key <$> l) -> NoDup (key <$> push_absent l x).
Proof.
  intros Hl. rewrite push_absent_keys. case_bool_decide; [done|].
  apply NoDup_app. split_and!; [done| |apply NoDup_singleton].
  by intros y Hy ->%list_elem_of_singleton.
Qed.

Lemma elem_of_push_absent l x y :
  y ∈ push_absent l x <-> y ∈ l \/ (y = x /\ key x ∉ (key <$> l)).
Proof.
  unfold push_absent. destruct (has_key l (key x)) eqn:E.
  - apply has_key_spec in E. naive_solver.
  - apply has_key_false in E. rewrite elem_of_app, list_elem_of_singleton. tauto.
Qed.

Lemma union_by_nil l : union_by l [] = l.
Proof. done. Qed.

Lemma union_by_cons l x k : union_by l (x :: k) = union_by (push_absent l x) k.
Proof. done. Qed.

Lemma union_by_app l k1 k2 : union_by l (k1 ++ k2) = union_by (union_by l k1) k2.
Proof. apply fold_left_app. Qed.

Lemma elem_of_union_by_key l k z :
  z ∈ (key <$> union_by l k) <-> z ∈ (key <$> l) \/ z ∈ (key <$> k).
Proof.
  revert l; induction k as [|x k IH]; intros l.
  - rewrite union_by_nil. set_solver.
  - rewrite union_by_cons, IH, elem_of_push_absent_key, fmap_cons, elem_of_cons. tauto.
Qed.

Lemma NoDup_union_by l k : NoDup (key <$> l) -> NoDup (key <$> union_by l k).
Proof.
  revert l; induction k as [|x k IH]; intros l H; [done|].
  rewrite union_by_cons. apply IH. by apply NoDup_push_absent.
Qed.

(** Union never drops or reorders what the receiver already had. *)
Lemma union_by_prefix l k : exists m, union_by l k = l ++ m /\ (m ⊆ k).
Proof.
  revert l; induction k as [|x k IH]; intros l.
  - exists []. rewrite app_nil_r. split; [done|set_solver].
  - rewrite union_by_cons. destruct (IH (push_absent l x)) as (m & -> & Hm).
    unfold push_absent. destruct (has_key l (key x)).
    + exists m. split; [done|set_solver].
    + exists (x :: m). rewrite <- app_assoc. split; [done|set_solver].
Qed.

Lemma length_union_by l k : (length (union_by l k) <= length l + length k)%nat.
Proof.
  revert l; induction k as [|x k IH]; intros l; [rewrite union_by_nil; lia|].
  rewrite union_by_cons. etrans; [apply IH|]. unfold push_absent.
  destruct (has_key l (key x)); rewrite ?length_app; simpl; lia.
Qed.

Lemma union_by_absorb l k :
  (forall z, z ∈ (key <$> k) -> z ∈ (key <$> l)) -> union_by l k = l.
Proof.
  revert l; induction k as [|x k IH]; intros l H; [done|].
  rewrite union_by_cons. unfold push_absent.
  rewrite (proj2 (has_key_spec l (key x))); [|set_solver]. apply IH. set_solver.
Qed.

Lemma union_by_assoc l k m : union_by l (union_by k m) = union_by (union_by l k) m.
Proof.
  revert k; induction m as [|x m IH]; intros k; [done|]. rewrite !union_by_cons, IH. f_equal.
  unfold push_absent at 1. destruct (has_key k (key x)) eqn:E; [|by rewrite union_by_app].
  unfold push_absent. rewrite (proj2 (has_key_spec (union_by l k) (key x))); [done|].
  apply elem_of_union_by_key. right. by apply has_key_spec.
Qed.

(** Where equal keys mean equal elements nothing is lost. *)
Lemma elem_of_union_by l k x :
  (forall x y, x ∈ l ++ k -> y ∈ l ++ k -> key x = key y -> x = y) -> x ∈ union_by l k <-> x ∈ l \/ x ∈ k.
Proof.
  intros Hk. destruct (union_by_prefix l k) as (m & E & Hm).
  assert (forall y, y ∈ union_by l k -> y ∈ l ++ k) as Hsub by (intros y; rewrite E, !elem_of_app; set_solver).
  split; [rewrite <- elem_of_app; apply Hsub|]. intros Hx.
  assert (key x ∈ (key <$> union_by l k)) as (y & Hy & Hin)%list_elem_of_fmap.
  { apply elem_of_union_by_key. destruct Hx; [left|right]; apply list_elem_of_fmap; eauto. }
  rewrite (Hk x y); [done|by apply elem_of_app|by apply Hsub|done].
Qed.

End PushAbsent.

(** The same with the elements themselves as keys. *)
Section PushAbsentId.
Context `{EqDecision A}.
Implicit Types (l k : list A).

Lemma fmap_self l : (fun x => x) <$> l = l.
Proof. induction l; simpl; by f_equal. Qed.

Lemma has_key_id l x : has_key (fun x => x) l x = bool_decide (x ∈ l).
Proof.
  apply eq_true_iff_eq. rewrite has_key_spec, bool_decide_eq_true.
  by rewrite fmap_self.
Qed.

Lemma elem_of_union_id l k x : x ∈ union_by (fun x => x) l k <-> x ∈ l \/ x ∈ k.
Proof.
  pose proof (elem_of_union_by_key (fun x => x) l k x) as H.
  by rewrite !fmap_self in H.
Qed.

Lemma NoDup_union_id l k : NoDup l -> NoDup (union_by (fun x => x) l k).
Proof.
  pose proof (NoDup_union_by (fun x => x) l k) as H.
  by rewrite !fmap_self in H.
Qed.

Lemma NoDup_snoc l x : NoDup l -> x ∉ l -> NoDup (l ++ [x]).
Proof.
  intros Hl Hx. apply NoDup_app. split_and!; [done| |apply NoDup_singleton].
  by intros y Hy ->%list_elem_of_singleton.
Qed.

End PushAbsentId.

#[global] Arguments union_by : simpl never.
#[global] Arguments push_absent : simpl never.

(** ** Removing the first occurrence

    [if let Some(pos) = v.iter().position(|y| y == x) { v.remove(pos) }] *)

Fixpoint remove_first `{EqDecision A} (x : A) (l : list A) : list A :=
  match l with
  | [] => []
  | y :: l => if decide (y = x) then l else y :: remove_first x l
  end.

Section RemoveFirst.
Context `{EqDecision A}.

Lemma remove_first_sublist (x : A) l : remove_first x l `sublist_of` l.
Proof.
  induction l as [|y l IH]; simpl; [done|]. case_decide.
  - by apply sublist_cons.
  - by apply sublist_skip.
Qed.

Lemma NoDup_remove_first (x : A) l : NoDup l -> NoDup (remove_first x l).
Proof. intros H. eapply sublist_NoDup; [done|apply remove_first_sublist]. Qed.

Lemma elem_of_remove_first (x y : A) l :
  NoDup l -> y ∈ remove_first x l <-> y ∈ l /\ y <> x.
Proof.
  induction l as [|z l IH]; simpl; intros Hnd; [set_solver|].
  apply NoDup_cons in Hnd as [Hz Hnd]. case_decide; subst.
  - rewrite elem_of_cons. split; [|naive_solver].
    intros Hy. split; [by right|]. by intros ->.
  - rewrite !elem_of_cons, IH by done. split; [|tauto].
    intros [->|[? ?]]; [|tauto]. split; [by left|done].
Qed.

Lemma length_remove_first (x : A) l :
  x ∈ l -> length l = S (length (remove_first x l)).
Proof.
  induction l as [|z l IH]; simpl; intros Hx; [by apply not_elem_of_nil in Hx|].
  case_decide; [done|]. simpl. rewrite IH; [done|].
  apply elem_of_cons in Hx as [->|?]; done.
Qed.

End RemoveFirst.

(** ** Stable sorting

    [slice::sort_by] is a stable sort. [sort_by] inserts from the right and
    leaves equal elements in their order, so it is that sort whenever the
    comparison is a total preorder on the elements; the code then takes the
    first element. [sort_by_first] says which one that is: the leftmost among
    the least. *)

Fixpoint insert_by {A} (cmp : A -> A -> comparison) (x : A) (l : list A) : list A :=
  match l with
  | [] => [x]
  | y :: t => match cmp x y with Gt => y :: insert_by cmp x t | _ => x :: y :: t end
  end.

Definition sort_by {A} (cmp : A -> A -> comparison) (l : list A) : list A :=
  foldr (insert_by cmp) [] l.

(** A comparison that is a total preorder on the elements satisfying [P]. *)
Record cmp_ok {A} (P : A -> Prop) (cmp : A -> A -> comparison) : Prop := {
  cmp_anti : forall x y, P x -> P y -> cmp y x = CompOpp (cmp x y);
  cmp_trans : forall x y z, P x -> P y -> P z ->
    cmp x y <> Gt -> cmp y z <> Gt -> cmp x z <> Gt
}.

Section SortBy.
Context {A : Type} (P : A -> Prop) (cmp : A -> A -> comparison) (Hcmp : cmp_ok P cmp).

Lemma insert_by_perm x l : insert_by cmp x l ≡ₚ x :: l.
Proof.
  induction l as [|y l IH]; simpl; [done|].
  destruct (cmp x y); try done. rewrite IH. apply Permutation_swap.
Qed.

Lemma sort_by_perm l : sort_by cmp l ≡ₚ l.
Proof.
  induction l as [|x l IH]; simpl; [done|]. by rewrite insert_by_perm, IH.
Qed.

Lemma cmp_ok_refl x : P x -> cmp x x = Eq.
Proof. intros Hx. pose proof (cmp_anti _ _ Hcmp x x Hx Hx). by destruct (cmp x x). Qed.

Lemma sort_by_first l x t :
  Forall P l -> sort_by cmp l = x :: t ->
  exists l1 l2, l = l1 ++ x :: l2 /\
    (forall y, y ∈ l1 -> cmp x y = Lt) /\ (forall y, y ∈ l2 -> cmp x y <> Gt).
Proof.
  revert x t; induction l as [|a l IH]; intros x t HP Hs; simpl in Hs; [done|].
  apply Forall_cons in HP as [Ha HP].
  destruct (sort_by cmp l) as [|y s] eqn:E.
  - pose proof (sort_by_perm l) as Hp. rewrite E in Hp.
    apply Permutation_nil_l in Hp. subst l. simplify_eq/=.
    exists [], []. split_and!; [done| |]; intros y Hy; by apply not_elem_of_nil in Hy.
  - destruct (IH y s HP eq_refl) as (l1 & l2 & -> & H1 & H2).
    apply Forall_app in HP as [HP1 HP2]. apply Forall_cons in HP2 as [Hy HP2].
    rewrite Forall_forall in HP1, HP2. simpl in Hs.
    destruct (cmp a y) eqn:C; simplify_eq/=.
    3: { exists (a :: l1), l2. split_and!; [done| |done].
         intros z [->|Hz]%elem_of_cons; [|by apply H1].
         by rewrite (cmp_anti _ _ Hcmp a x), C. }
    all: exists [], (l1 ++ y :: l2); split_and!; [done|set_solver|].
    all: assert (cmp x y <> Gt) as Hxy by congruence.
    all: intros z [Hz|[->|Hz]%elem_of_cons]%elem_of_app; [|done|].
    all: apply (cmp_trans _ _ Hcmp x y z); auto; rewrite ?H1 by done; try done.
    all: by apply H2.
Qed.

Lemma sort_by_sorted l : Forall P l -> StronglySorted (fun a b => cmp a b <> Gt) (sort_by cmp l).
Proof.
  induction 1 as [|x l Hx Hl IH]; simpl; [constructor|].
  assert (Forall P (sort_by cmp l)) as Hs by by rewrite sort_by_perm.
  clear Hl. induction IH as [|y s IH' IHs Hy]; simpl; [repeat constructor|].
  apply Forall_cons in Hs as [Py Ps]. destruct (cmp x y) eqn:E.
  1-2: (constructor; [by constructor|]; constructor; [congruence|]; rewrite Forall_forall in *;
        intros z Hz; apply (cmp_trans _ _ Hcmp x y z); auto; congruence).
  constructor; [by apply IHs|]. rewrite insert_by_perm. constructor; [|done].
  rewrite (cmp_anti _ _ Hcmp x y) by done. by rewrite E.
Qed.

Lemma sort_by_nil_inv l : sort_by cmp l = [] -> l = [].
Proof.
  intros E. pose proof (sort_by_perm l) as Hp. rewrite E in Hp.
  by apply Permutation_nil_l in Hp.
Qed.

Lemma sort_by_head l :
  Forall P l -> l <> [] ->
  exists x l1 l2, head (sort_by cmp l) = Some x /\ l = l1 ++ x :: l2 /\
    (forall y, y ∈ l1 -> cmp x y = Lt) /\ (forall y, y ∈ l2 -> cmp x y <> Gt).
Proof.
  intros HP Hne. destruct (sort_by cmp l) as [|x t] eqn:E; [by apply sort_by_nil_inv in E|].
  destruct (sort_by_first l x t HP E) as (l1 & l2 & H). by exists x, l1, l2.
Qed.

End SortBy.

Lemma sort_by_ext {A} (P : A -> Prop) (cmp cmp' : A -> A -> comparison) l :
  (forall x y, P x -> P y -> cmp x y = cmp' x y) -> Forall P l -> sort_by cmp l = sort_by cmp' l.
Proof.
  intros Hext. induction l as [|x l IH]; intros HP; [done|]. simpl.
  apply Forall_cons in HP as [Hx HP]. rewrite <- IH by done.
  assert (Forall P (sort_by cmp l)) as Hs.
  { by rewrite (sort_by_perm cmp l). }
  clear IH HP. induction Hs as [|y k Hy Hk IHk]; [done|]. simpl.
  rewrite <- Hext by done. by rewrite IHk.
Qed.

(** Sorting by a comparison that tells no two elements apart changes nothing. *)
Lemma sort_by_same {A} (cmp : A -> A -> comparison) l :
  (forall x y, x ∈ l -> y ∈ l -> cmp x y = Eq) -> sort_by cmp l = l.
Proof.
  induction l as [|x l IH]; intros Hl; [done|]. simpl. rewrite IH by set_solver.
  destruct l as [|y l]; [done|]. simpl. by rewrite Hl by set_solver.
Qed.

(** Descending comparison by an integer key: [b.key.cmp(&a.key)]. *)
Definition cmp_desc {A} (key : A -> Z) (a b : A) : comparison := key b ?= key a.

Lemma cmp_desc_ok {A} (key : A -> Z) : cmp_ok (fun _ => True) (cmp_desc key).
Proof.
  split; unfold cmp_desc; intros.
  - apply Z.compare_antisym.
  - rewrite Z.compare_le_iff in *. lia.
Qed.

Lemma cmp_desc_Lt {A} (key : A -> Z) a b : cmp_desc key a b = Lt <-> key b < key a.
Proof. apply Z.compare_lt_iff. Qed.

Lemma cmp_desc_le {A} (key : A -> Z) a b : cmp_desc key a b <> Gt <-> key b <= key a.
Proof. apply Z.compare_le_iff. Qed.

(** ** Order of strings

    [String::cmp] compares bytes lexicographically, as [String.compare] does. *)

Lemma ascii_compare_trans_lt a b c :
  Ascii.compare a b = Lt -> Ascii.compare b c = Lt -> Ascii.compare a c = Lt.
Proof. unfold Ascii.compare. rewrite !N.compare_lt_iff. lia. Qed.

Lemma str_lt_trans a b c :
  String.compare a b = Lt -> String.compare b c = Lt -> String.compare a c = Lt.
Proof.
  revert b c; induction a as [|x a IH]; intros [|y b] [|z c]; simpl; try done.
  destruct (Ascii.compare x y) eqn:E1, (Ascii.compare y z) eqn:E2; try done; intros H1 H2.
  - apply Ascii.compare_eq_iff in E1, E2. subst.
    unfold Ascii.compare. rewrite N.compare_refl. by eapply IH.
  - apply Ascii.compare_eq_iff in E1. subst. by rewrite E2.
  - apply Ascii.compare_eq_iff in E2. subst. by rewrite E1.
  - by rewrite (ascii_compare_trans_lt x y z).
Qed.

Lemma string_prefix_iff p s : String.prefix p s = true <-> exists t, s = p +:+ t.
Proof.
  revert s. induction p as [|c p IH]; intros s; [split; [by exists s|]; by destruct s|].
  destruct s as [|c' s]; [split; [done|by intros [t ?]]|]. cbn [String.prefix].
  destruct (Ascii.ascii_dec c c') as [<-|Hc].
  - rewrite IH. split; intros [t E]; exists t; [by rewrite E|by injection E].
  - split; [done|]. intros [t E]. by injection E as <-.
Qed.

Lemma str_cmp_refl a : String.compare a a = Eq.
Proof.
  induction a as [|x a IH]; [done|]. simpl. unfold Ascii.compare. by rewrite N.compare_refl.
Qed.

Lemma str_lt_irrefl a : String.compare a a <> Lt.
Proof. by rewrite str_cmp_refl. Qed.

Lemma str_gt_lt a b : String.compare a b = Gt <-> String.compare b a = Lt.
Proof. rewrite (String.compare_antisym a b). by destruct (String.compare b a). Qed.

(** ** Scanning for the best element

    [if best.is_none() || score(x) < score(best) { best = Some(x) }] *)

Definition pick_min {A} (score : A -> Z) (best : option A) (x : A) : option A :=
  match best with
  | None => Some x
  | Some b => if score x <? score b then Some x else best
  end.

(** The scan returns the leftmost element of least score. *)
Lemma pick_min_leftmost {A} (score : A -> Z) (l : list A) :
  match fold_left (pick_min score) l None with
  | Some b => exists l1 l2, l = l1 ++ b :: l2 /\
      (forall y, y ∈ l1 -> score b < score y) /\ (forall y, y ∈ l2 -> score b <= score y)
  | None => l = []
  end.
Proof.
  induction l as [|x l IH] using rev_ind; [done|].
  rewrite fold_left_app; simpl.
  destruct (fold_left (pick_min score) l None) as [b|] eqn:E; simpl.
  - destruct IH as (l1 & l2 & -> & H1 & H2). destruct (Z.ltb_spec (score x) (score b)).
    + exists (l1 ++ b :: l2), []. split_and!; [done| |intros y Hy; by apply not_elem_of_nil in Hy].
      intros y [Hy|[->|Hy]%elem_of_cons]%elem_of_app; [|lia|].
      * specialize (H1 y Hy). lia.
      * specialize (H2 y Hy). lia.
    + exists l1, (l2 ++ [x]). rewrite <- app_assoc. split_and!; [done|done|].
      intros y [Hy|Hy%list_elem_of_singleton]%elem_of_app; [by apply H2|by subst].
  - subst l. exists [], []. split_and!; [done|..]; intros y Hy; by apply not_elem_of_nil in Hy.
Qed.

(** [iter().max_by(cmp)]: of equally great elements the last one *)

Definition pick_max {A} (cmp : A -> A -> comparison) (best : option A) (x : A) : option A :=
  match best with
  | None => Some x
  | Some b => match cmp b x with Gt => best | _ => Some x end
  end.

Definition max_by {A} (cmp : A -> A -> comparison) (l : list A) : option A :=
  fold_left (pick_max cmp) l None.

Lemma max_by_last {A} (P : A -> Prop) (cmp : A -> A -> comparison) (l : list A) :
  cmp_ok P cmp -> Forall P l ->
  match max_by cmp l with
  | Some b => exists l1 l2, l = l1 ++ b :: l2 /\
      (forall y, y ∈ l1 -> cmp y b <> Gt) /\ (forall y, y ∈ l2 -> cmp y b = Lt)
  | None => l = []
  end.
Proof.
  intros Hc. unfold max_by. induction l as [|x l IH] using rev_ind; intros HP; [done|].
  apply Forall_app in HP as [HP Hx]. rewrite Forall_singleton in Hx. specialize (IH HP).
  rewrite fold_left_app. simpl. destruct (fold_left (pick_max cmp) l None) as [b|]; simpl.
  - destruct IH as (l1 & l2 & -> & H1 & H2). apply Forall_app in HP as [HP1 HP2].
    apply Forall_cons in HP2 as [Hb HP2]. rewrite Forall_forall in HP1, HP2.
    assert (cmp b x <> Gt -> exists l3 l4, (l1 ++ b :: l2) ++ [x] = l3 ++ x :: l4 /\
      (forall y, y ∈ l3 -> cmp y x <> Gt) /\ (forall y, y ∈ l4 -> cmp y x = Lt)) as Hnew.
    { intros Hle. exists (l1 ++ b :: l2), []. split_and!; [done| |intros y Hy; by apply not_elem_of_nil in Hy].
      intros y [Hy|[->|Hy]%elem_of_cons]%elem_of_app; [|done|].
      + apply (cmp_trans _ _ Hc y b x); auto.
      + apply (cmp_trans _ _ Hc y b x); auto. by rewrite H2. }
    destruct (cmp b x) eqn:C; [by apply Hnew|by apply Hnew|].
    exists l1, (l2 ++ [x]). rewrite <- app_assoc. split_and!; [done|done|].
    intros y [Hy|Hy%list_elem_of_singleton]%elem_of_app; [by apply H2|subst].
    by rewrite (cmp_anti _ _ Hc b x), C.
  - subst l. exists [], []. split_and!; [done|..]; intros y Hy; by apply not_elem_of_nil in Hy.
Qed.

(** ** Filters *)

Lemma list_filter_all {A} (P : A -> Prop) `{!forall x, Decision (P x)} (l : list A) :
  (forall x, x ∈ l -> P x) -> filter P l = l.
Proof.
  induction l as [|x l IH]; intros Hl; [done|].
  rewrite filter_cons_True by (apply Hl; by left). f_equal. apply IH.
  intros y Hy. apply Hl. by right.
Qed.

(** ** Counting with finite sets *)

Lemma size_filter_insert `{Countable A} (P : A -> Prop) `{!forall x, Decision (P x)}
    (x : A) (X : gset A) :
  size (filter P ({[x]} ∪ X)) =
  ((if decide (P x) then 1 else 0) + size (filter P X ∖ {[x]}))%nat.
Proof.
  destruct (decide (P x)) as [D|D].
  - assert (filter P ({[x]} ∪ X) = {[x]} ∪ (filter P X ∖ {[x]})) as ->.
    { apply set_eq; intros y. destruct (decide (y = x)); set_solver. }
    rewrite size_union by set_solver. by rewrite size_singleton.
  - assert (filter P ({[x]} ∪ X) = filter P X ∖ {[x]}) as ->; [|done].
    apply set_eq; intros y. destruct (decide (y = x)); set_solver.
Qed.

(** ** Automation *)

Create HintDb peat discriminated.

#[export] Hint Resolve NoDup_push_absent NoDup_union_by NoDup_remove_first : peat.
#[export] Hint Resolve len_nonneg as_u32_range : peat.

(** Split every boolean comparison on [Z] in sight into its arithmetic meaning. *)
Ltac bool_arith :=
  repeat match goal with
  | H : context [?a <=? ?b] |- _ => destruct (Z.leb_spec a b)
  | H : context [?a <? ?b] |- _ => destruct (Z.ltb_spec a b)
  | |- context [?a <=? ?b] => destruct (Z.leb_spec a b)
  | |- context [?a <? ?b] => destruct (Z.ltb_spec a b)
  end.
