(* ===== verification/Float.v ===== *)
(** * Bounds on IEEE arithmetic

    The Standard Library's [SpecFloat] gives executable binary floating-point
    operations but no facts about them. This file proves the one fact the
    components need of round-to-nearest on non-negative values: rounding does not
    cross a representable number. Values are compared as integers, in multiples of
    2 to the power minus [scale], which is finer than any sum, product or quotient
    the operations form before rounding. *)

From Stdlib Require Import SpecFloat.
From S2P Require Import Prelude.

Section Rounding.
Variables prec emax : Z.
Hypothesis Hprec : 1 < prec.
Hypothesis Hemax : prec < emax.

Local Abbreviation emin := (emin prec emax).
Local Abbreviation fexp := (fexp prec emax).
Local Abbreviation bounded := (bounded prec emax).

(** ** Values *)

Definition scale : Z := 4 * emax.

(** 2 to the power [e], scaled. *)
Definition ulp (e : Z) : Z := 2 ^ (e + scale).

(** The floats that represent a non-negative number, or positive infinity. *)
Definition nonneg (x : spec_float) : Prop :=
  match x with
  | S754_zero s => s = false
  | S754_finite s m e => s = false /\ bounded m e = true
  | S754_infinity s => s = false
  | S754_nan => False
  end.

Definition finite (x : spec_float) : Prop :=
  match x with S754_zero _ | S754_finite _ _ _ => True | _ => False end.

(** Infinity stands for the first power of two beyond the finite numbers. *)
Definition value (x : spec_float) : Z :=
  match x with
  | S754_zero _ => 0
  | S754_finite _ m e => Zpos m * ulp e
  | S754_infinity _ => ulp emax
  | S754_nan => -1
  end.

Lemma emin_eq : emin = 3 - emax - prec.
Proof. reflexivity. Qed.

Lemma fexp_eq e : fexp e = Z.max (e - prec) emin.
Proof. reflexivity. Qed.

Lemma ulp_pos e : - scale <= e -> 0 < ulp e.
Proof. intros. unfold ulp. apply Z.pow_pos_nonneg; lia. Qed.

Lemma ulp_shift e e' : - scale <= e <= e' -> ulp e' = 2 ^ (e' - e) * ulp e.
Proof. intros. unfold ulp. rewrite <- Z.pow_add_r by lia. f_equal. lia. Qed.

Lemma ulp_le e e' : - scale <= e <= e' -> ulp e <= ulp e'.
Proof. intros. unfold ulp. apply Z.pow_le_mono_r; lia. Qed.

Lemma pow2_pos k : 0 <= k -> 0 < 2 ^ k.
Proof. intros. by apply Z.pow_pos_nonneg. Qed.

Lemma emin_scale : - scale <= emin.
Proof. rewrite emin_eq. unfold scale. lia. Qed.

(** ** Digits *)

Lemma digits2_bounds p :
  2 ^ (Zpos (digits2_pos p) - 1) <= Zpos p < 2 ^ Zpos (digits2_pos p).
Proof.
  induction p as [p IH|p IH|]; simpl digits2_pos; [| |simpl; lia].
  all: rewrite Pos2Z.inj_succ.
  all: replace (Z.succ (Zpos (digits2_pos p)) - 1) with (Z.succ (Zpos (digits2_pos p) - 1)) by lia.
  all: rewrite !Z.pow_succ_r by lia; lia.
Qed.

Lemma Zdigits2_upper m : 0 <= m -> m < 2 ^ Zdigits2 m.
Proof. destruct m as [|p|p]; simpl Zdigits2; intros; [done|apply digits2_bounds|lia]. Qed.

Lemma Zdigits2_lower m : 0 < m -> 2 ^ (Zdigits2 m - 1) <= m.
Proof. destruct m as [|p|p]; intros; [lia| |lia]. apply digits2_bounds. Qed.

Lemma Zdigits2_nonneg m : 0 <= Zdigits2 m.
Proof. destruct m; simpl; lia. Qed.

Lemma Zdigits2_ge m d : 2 ^ (d - 1) <= m -> 0 < d -> d <= Zdigits2 m.
Proof.
  intros Hm Hd. pose proof (pow2_pos (d - 1)). pose proof (Zdigits2_upper m).
  destruct (Z.le_gt_cases d (Zdigits2 m)) as [|Hlt]; [done|].
  assert (2 ^ Zdigits2 m <= 2 ^ (d - 1)); [|lia].
  apply Z.pow_le_mono_r; lia.
Qed.

Lemma Zdigits2_le m d : 0 <= m < 2 ^ d -> 0 <= d -> Zdigits2 m <= d.
Proof.
  intros Hm Hd. destruct (decide (m = 0)) as [->|Hnz]; [done|].
  pose proof (Zdigits2_lower m). destruct (Z.le_gt_cases (Zdigits2 m) d) as [|Hlt]; [done|].
  assert (2 ^ d <= 2 ^ (Zdigits2 m - 1)); [|lia]. apply Z.pow_le_mono_r; lia.
Qed.

Lemma Zdigits2_eq m d : 2 ^ (d - 1) <= m < 2 ^ d -> 0 < d -> Zdigits2 m = d.
Proof.
  intros. pose proof (pow2_pos (d - 1)). pose proof (Zdigits2_ge m d). pose proof (Zdigits2_le m d). lia.
Qed.

(** ** Bounded mantissas *)

Lemma bounded_iff m e :
  bounded m e = true <->
  Z.max (Zpos (digits2_pos m) + e - prec) emin = e /\ e <= emax - prec.
Proof.
  unfold SpecFloat.bounded, canonical_mantissa. rewrite andb_true_iff, Z.eqb_eq, Z.leb_le.
  by rewrite fexp_eq.
Qed.

(** A bounded mantissa is below [2^prec]; above the least exponent it is normal. *)
Lemma bounded_facts m e :
  bounded m e = true ->
  emin <= e <= emax - prec /\ Zpos m < 2 ^ prec /\ (emin < e -> 2 ^ (prec - 1) <= Zpos m).
Proof.
  intros [Hc He]%bounded_iff. pose proof (digits2_bounds m) as [Hlo Hhi].
  split_and!; [lia|lia| |].
  - eapply Z.lt_le_trans; [done|]. apply Z.pow_le_mono_r; lia.
  - intros. by replace (prec - 1) with (Zpos (digits2_pos m) - 1) by lia.
Qed.

Lemma bounded_intro m e :
  emin <= e <= emax - prec -> Zpos m < 2 ^ prec ->
  (emin < e -> 2 ^ (prec - 1) <= Zpos m) -> bounded m e = true.
Proof.
  intros He Hm Hn. apply bounded_iff. split; [|lia].
  pose proof (Zdigits2_le (Zpos m) prec) as Hd. simpl Zdigits2 in Hd.
  destruct (decide (e = emin)) as [->|Hne]; [lia|].
  assert (Zdigits2 (Zpos m) = prec) as Heq by (apply Zdigits2_eq; lia).
  simpl in Heq. lia.
Qed.

(** ** Order *)

Lemma finite_value_lt x : nonneg x -> finite x -> 0 <= value x < ulp emax.
Proof.
  destruct x as [| | |s m e]; simpl; try done.
  - intros. split; [done|]. apply ulp_pos. unfold scale. lia.
  - intros [-> Hb] _. apply bounded_facts in Hb as (He & Hm & _).
    pose proof emin_scale. pose proof (ulp_pos e ltac:(lia)) as Hu.
    split; [lia|]. rewrite (ulp_shift e emax) by (unfold scale in *; lia).
    assert (2 ^ prec <= 2 ^ (emax - e)) by (apply Z.pow_le_mono_r; lia). nia.
Qed.

Lemma value_nonneg x : nonneg x -> 0 <= value x.
Proof.
  intros Hx. destruct x as [| | |s m e] eqn:E; try done; rewrite <- E in *.
  - subst. simpl. apply Z.pow_nonneg. lia.
  - apply finite_value_lt; [done|by subst].
Qed.

Lemma finite_exp_lt m e m' e' :
  bounded m e = true -> bounded m' e' = true -> e < e' -> Zpos m * ulp e < Zpos m' * ulp e'.
Proof.
  intros H H' Hlt. apply bounded_facts in H as (He & Hm & _), H' as (He' & _ & Hn').
  pose proof emin_scale. pose proof (ulp_pos e ltac:(lia)).
  rewrite (ulp_shift e e') by lia. specialize (Hn' ltac:(lia)).
  rewrite Z.mul_assoc. apply Z.mul_lt_mono_pos_r; [done|].
  eapply Z.lt_le_trans; [done|]. transitivity (2 ^ (prec - 1) * 2 ^ (e' - e)).
  - rewrite <- Z.pow_add_r by lia. apply Z.pow_le_mono_r; lia.
  - apply Z.mul_le_mono_nonneg_r; [|done]. pose proof (pow2_pos (e' - e)). lia.
Qed.

Lemma finite_value_pos m e : bounded m e = true -> 0 < Zpos m * ulp e < ulp emax.
Proof.
  intros Hb. pose proof (finite_value_lt (S754_finite false m e) (conj eq_refl Hb) I) as Hv.
  apply bounded_facts in Hb as (He & _). pose proof emin_scale.
  pose proof (ulp_pos e ltac:(lia)). simpl in Hv. lia.
Qed.

Lemma nonneg_cases x :
  nonneg x ->
  x = S754_zero false \/ x = S754_infinity false \/
  exists m e, x = S754_finite false m e /\ bounded m e = true /\ 0 < Zpos m * ulp e < ulp emax.
Proof.
  destruct x as [s|s| |s m e]; simpl; intros Hx; try done; subst; eauto.
  destruct Hx as [-> Hb]. right; right. exists m, e. auto using finite_value_pos.
Qed.

Lemma SFcompare_value x y :
  nonneg x -> nonneg y -> SFcompare x y = Some (value x ?= value y).
Proof.
  assert (0 < ulp emax) by (apply ulp_pos; unfold scale; lia).
  assert (forall a b, a < b -> Lt = (a ?= b)) as HL by (intros; symmetry; by apply Z.compare_lt_iff).
  assert (forall a b, b < a -> Gt = (a ?= b)) as HG by (intros; symmetry; by apply Z.compare_gt_iff).
  intros [->|[->|(m & e & -> & Hb & Hv)]]%nonneg_cases [->|[->|(m' & e' & -> & Hb' & Hv')]]%nonneg_cases.
  all: simpl SFcompare; simpl value; f_equal; try (apply HL; lia); try (apply HG; lia).
  { by rewrite Z.compare_refl. }
  destruct (Z.compare_spec e e') as [->|Hlt|Hgt].
  - change (Pos.compare_cont Eq m m') with (Zpos m ?= Zpos m').
    destruct (Z.compare_spec (Zpos m) (Zpos m')) as [->| |];
      [by rewrite Z.compare_refl|apply HL|apply HG]; nia.
  - by apply HL, finite_exp_lt.
  - by apply HG, finite_exp_lt.
Qed.

Lemma SFleb_value x y : nonneg x -> nonneg y -> SFleb x y = (value x <=? value y).
Proof. intros. unfold SFleb. rewrite SFcompare_value by done. unfold Z.leb. by destruct (_ ?= _). Qed.

Lemma SFltb_value x y : nonneg x -> nonneg y -> SFltb x y = (value x <? value y).
Proof. intros. unfold SFltb. rewrite SFcompare_value by done. unfold Z.ltb. by destruct (_ ?= _). Qed.

(** A number has one representation. *)
Lemma value_inj x y : nonneg x -> nonneg y -> value x = value y -> x = y.
Proof.
  assert (0 < ulp emax) by (apply ulp_pos; unfold scale; lia).
  intros [->|[->|(m & e & -> & Hb & Hv)]]%nonneg_cases [->|[->|(m' & e' & -> & Hb' & Hv')]]%nonneg_cases;
    cbn [value]; intros Heq; try done; try lia.
  destruct (Z.lt_trichotomy e e') as [Hlt|[->|Hgt]].
  - pose proof (finite_exp_lt m e m' e' Hb Hb' Hlt). lia.
  - f_equal. apply bounded_facts in Hb as (He & _). pose proof emin_scale.
    pose proof (ulp_pos e' ltac:(lia)). apply Z.mul_reg_r in Heq; [by simplify_eq|lia].
  - pose proof (finite_exp_lt m' e' m e Hb' Hb Hgt). lia.
Qed.

(** ** Shifting right *)

Lemma iter_pos_nat {A} (f : A -> A) n x : SpecFloat.iter_pos f n x = Nat.iter (Pos.to_nat n) f x.
Proof.
  revert x; induction n as [n IH|n IH|]; intros x; cbn [SpecFloat.iter_pos]; [| |done].
  - rewrite !IH, Pos2Nat.inj_xI, Nat.iter_succ_r, <- Nat.iter_add. f_equal. lia.
  - rewrite !IH, Pos2Nat.inj_xO, <- Nat.iter_add. f_equal. lia.
Qed.

(** One shift halves the mantissa and remembers whether anything was lost. *)
Lemma shr_1_spec m r s :
  0 <= m -> exists r', shr_1 (Build_shr_record m r s) = Build_shr_record (m / 2) r' (r || s) /\
  (r' = false <-> m mod 2 = 0).
Proof.
  intros Hm. pose proof (Z.div_mod m 2 ltac:(lia)) as Hdm.
  destruct m as [|[p|p|]|p]; [| | | |lia]; simpl shr_1; eexists; (split; [f_equal|]).
  all: rewrite ?(Pos2Z.inj_xI p), ?(Pos2Z.inj_xO p) in *; try done.
  all: try (apply Z.div_unique with 1; lia); try (apply Z.div_unique with 0; lia).
  - rewrite Z.add_comm, Z.mul_comm, Z.mod_add by lia. done.
  - rewrite Z.mul_comm, Z.mod_mul by lia. done.
Qed.

(** Where a number lies between the multiples of [2^n] around it *)
Definition location_of (rem half2 : Z) : location :=
  if rem =? 0 then loc_Exact else loc_Inexact (2 * rem ?= half2).

Lemma shr_iter_spec n m r s :
  0 <= m ->
  let mrs := Nat.iter n shr_1 (Build_shr_record m r s) in
  shr_m mrs = m / 2 ^ Z.of_nat n /\
  (r = false -> s = false ->
   loc_of_shr_record mrs = location_of (m mod 2 ^ Z.of_nat n) (2 ^ Z.of_nat n)).
Proof.
  intros Hm. induction n as [|n IH].
  { simpl. split; [by rewrite Z.div_1_r|]. intros -> ->. by rewrite Z.mod_1_r. }
  cbv zeta in *. rewrite Nat.iter_succ. destruct (Nat.iter n shr_1 _) as [m' r' s'] eqn:E.
  simpl shr_m in IH. destruct IH as [-> IH].
  destruct (shr_1_spec (m / 2 ^ Z.of_nat n) r' s') as (r'' & -> & Hr'').
  { apply Z.div_pos; [done|]. apply pow2_pos. lia. }
  simpl shr_m. rewrite Nat2Z.inj_succ, Z.pow_succ_r by lia.
  pose proof (pow2_pos (Z.of_nat n) ltac:(lia)) as Hpos. set (P := 2 ^ Z.of_nat n) in *. split.
  { rewrite Z.mul_comm, Z.div_div by lia. done. }
  intros -> ->. specialize (IH eq_refl eq_refl).
  pose proof (Z.div_mod m P ltac:(lia)) as Hdm. pose proof (Z.mod_pos_bound m P Hpos) as Hmb.
  pose proof (Z.div_mod (m / P) 2 ltac:(lia)) as Hdm2. pose proof (Z.mod_pos_bound (m / P) 2 ltac:(lia)) as Hmb2.
  assert (m mod (2 * P) = P * ((m / P) mod 2) + m mod P) as Hrem.
  { symmetry. apply (Z.mod_unique_pos _ _ (m / P / 2)); nia. }
  assert (r' || s' = negb (m mod P =? 0)) as ->.
  { unfold location_of in IH. destruct (m mod P =? 0), r', s'; simpl in *; try done; congruence. }
  rewrite Hrem. unfold location_of. set (q2 := (m / P) mod 2) in *. set (rem := m mod P) in *.
  destruct r''.
  - assert (q2 = 1) as -> by (destruct (decide (q2 = 0)) as [H0|]; [by apply Hr'' in H0|lia]).
    rewrite (proj2 (Z.eqb_neq (P * 1 + rem) 0)) by lia. destruct (Z.eqb_spec rem 0) as [Hz|]; simpl; do 2 f_equal; symmetry.
    + apply Z.compare_eq_iff. lia.
    + apply Z.compare_gt_iff. lia.
  - assert (q2 = 0) as -> by (by apply Hr''). rewrite Z.mul_0_r, Z.add_0_l.
    destruct (Z.eqb_spec rem 0) as [Hz|]; simpl; [done|]. do 2 f_equal. symmetry. apply Z.compare_lt_iff. lia.
Qed.

Lemma shr_spec m l e n :
  0 <= m -> 0 <= n ->
  exists mrs, shr (shr_record_of_loc m l) e n = (mrs, e + n) /\ shr_m mrs = m / 2 ^ n /\
  (l = loc_Exact -> loc_of_shr_record mrs = location_of (m mod 2 ^ n) (2 ^ n)).
Proof.
  intros Hm Hn. destruct n as [|p|p]; [| |lia]; simpl shr.
  - eexists. split; [by rewrite Z.add_0_r|]. split; [|intros ->; by rewrite Z.mod_1_r].
    rewrite Z.div_1_r. by destruct l as [|[| |]].
  - rewrite iter_pos_nat. eexists; split; [done|].
    assert (exists r s, shr_record_of_loc m l = Build_shr_record m r s /\
      (l = loc_Exact -> r = false /\ s = false)) as (r & s & -> & Hrs).
    { by destruct l as [|[| |]]; do 2 eexists. }
    pose proof (shr_iter_spec (Pos.to_nat p) m r s Hm) as [H1 H2].
    rewrite positive_nat_Z in H1, H2. split; [done|].
    intros Hl. destruct (Hrs Hl) as [-> ->]. by apply H2.
Qed.

(** Rounding to the nearest integer multiple *)
Lemma round_nearest_even_spec m P :
  0 < P ->
  let r := round_nearest_even (m / P) (location_of (m mod P) P) in
  2 * Z.abs (r * P - m) <= P.
Proof.
  intros HP. cbv zeta. unfold location_of.
  pose proof (Z.div_mod m P ltac:(lia)) as Hdm. pose proof (Z.mod_pos_bound m P HP) as Hmb.
  destruct (Z.eqb_spec (m mod P) 0) as [H0|H0]; simpl; [nia|].
  destruct (Z.compare_spec (2 * (m mod P)) P) as [Heq|Hlt|Hgt]; [destruct (Z.even (m / P))| |]; nia.
Qed.

(** ** Rounding *)

(** The second normalisation of [binary_round_aux]: a mantissa of at most [prec]
    bits, or the next power of two after a carry. *)
Lemma renormalize_spec r e1 :
  0 <= r <= 2 ^ prec -> emin <= e1 -> (emin < e1 -> 2 ^ (prec - 1) <= r) ->
  let '(mrs, e2) := shr_fexp prec emax r e1 loc_Exact in
  let z := match shr_m mrs with
    | Z0 => S754_zero false
    | Zpos m => if e2 <=? emax - prec then S754_finite false m e2 else S754_infinity false
    | _ => S754_nan
    end in
  nonneg z /\ value z = Z.min (r * ulp e1) (ulp emax).
Proof.
  intros Hr He Hn. pose proof emin_scale as Hsc. unfold shr_fexp. rewrite fexp_eq.
  pose proof (ulp_pos e1 ltac:(lia)) as Hu1. pose proof (pow2_pos (prec - 1)) as Hp1.
  destruct (decide (r = 2 ^ prec)) as [->|Hne].
  - assert (Zdigits2 (2 ^ prec) = prec + 1) as ->.
    { apply Zdigits2_eq; [|lia]. replace (prec + 1 - 1) with prec by lia.
      rewrite Z.pow_add_r by lia. lia. }
    replace (Z.max (prec + 1 + e1 - prec) emin - e1) with 1 by lia.
    destruct (shr_spec (2 ^ prec) loc_Exact e1 1) as (mrs & -> & Hm & _); [lia..|].
    assert (2 ^ prec = 2 ^ (prec - 1) * 2) as Hdbl.
    { rewrite Z.mul_comm, <- Z.pow_succ_r by lia. f_equal. lia. }
    rewrite Hdbl, Z.pow_1_r, Z.div_mul in Hm by lia. rewrite Hm.
    destruct (2 ^ (prec - 1)) as [|p|p] eqn:Ep; [lia| |lia].
    destruct (Z.leb_spec (e1 + 1) (emax - prec)).
    + assert (bounded p (e1 + 1) = true) as Hb by (apply bounded_intro; lia).
      split; [done|]. apply finite_value_pos in Hb as Hv. cbn [value].
      rewrite (ulp_shift e1 (e1 + 1)), Z.add_simpl_l, Z.pow_1_r in * by lia. nia.
    + split; [done|]. cbn [value]. rewrite Z.min_r; [done|].
      unfold ulp. rewrite <- Z.pow_add_r by (unfold scale in *; lia).
      apply Z.pow_le_mono_r; [lia|]. unfold scale in *. lia.
  - assert (Zdigits2 r <= prec) by (apply Zdigits2_le; lia).
    assert (Z.max (Zdigits2 r + e1 - prec) emin - e1 <= 0) as Hk by lia.
    assert (shr (shr_record_of_loc r loc_Exact) e1 (Z.max (Zdigits2 r + e1 - prec) emin - e1)
            = (Build_shr_record r false false, e1)) as ->.
    { by destruct (Z.max _ _ - e1) eqn:E; [| |]; try done; lia. }
    simpl shr_m. destruct r as [|p|p]; [| |lia].
    + split; [done|]. simpl. pose proof (ulp_pos emax ltac:(unfold scale in *; lia)). lia.
    + destruct (Z.leb_spec e1 (emax - prec)).
      * assert (bounded p e1 = true) as Hb by (apply bounded_intro; lia).
        split; [done|]. apply finite_value_pos in Hb as Hv. cbn [value]. lia.
      * split; [done|]. cbn [value]. rewrite Z.min_r; [done|].
        specialize (Hn ltac:(rewrite emin_eq in *; lia)).
        transitivity (2 ^ (prec - 1) * ulp e1); [|nia].
        unfold ulp. rewrite <- Z.pow_add_r by (unfold scale in *; lia).
        apply Z.pow_le_mono_r; [lia|]. unfold scale in *. lia.
Qed.

(** What [binary_round_aux] returns: the quotient at the exponent of the format, or
    its successor, the quotient itself if nothing is lost; infinity beyond the range. *)
Lemma round_aux_value m e l :
  0 <= m -> - scale <= e <= fexp (Zdigits2 m + e) ->
  exists r, let e1 := fexp (Zdigits2 m + e) in let q := m / 2 ^ (e1 - e) in
    q <= r <= q + 1 /\ (l = loc_Exact -> 2 * Z.abs (r * 2 ^ (e1 - e) - m) <= 2 ^ (e1 - e)) /\
    (emin < e1 -> 2 ^ (prec - 1) <= q) /\
    nonneg (binary_round_aux prec emax false m e l) /\
    value (binary_round_aux prec emax false m e l) = Z.min (r * ulp e1) (ulp emax).
Proof.
  intros Hm He. set (e1 := fexp (Zdigits2 m + e)) in *.
  destruct (shr_spec m l e (e1 - e)) as (mrs & Hs & Hq & Hex); [lia..|].
  replace (e + (e1 - e)) with e1 in Hs by lia.
  set (r := round_nearest_even (shr_m mrs) (loc_of_shr_record mrs)).
  assert (shr_m mrs <= r <= shr_m mrs + 1) as Hr.
  { unfold r, round_nearest_even. destruct (loc_of_shr_record mrs) as [|[| |]]; try lia.
    destruct (Z.even (shr_m mrs)); lia. }
  assert (0 <= shr_m mrs < 2 ^ prec) as Hq2.
  { rewrite Hq. pose proof (pow2_pos (e1 - e)). split; [apply Z.div_pos; lia|].
    apply Z.div_lt_upper_bound; [lia|]. rewrite <- Z.pow_add_r by lia.
    eapply Z.lt_le_trans; [by apply Zdigits2_upper|].
    apply Z.pow_le_mono_r; [lia|]. unfold e1. rewrite fexp_eq. lia. }
  assert (emin < e1 -> 2 ^ (prec - 1) <= shr_m mrs) as Hn.
  { intros Hlt. unfold e1 in Hlt. rewrite fexp_eq in Hlt.
    assert (e1 = Zdigits2 m + e - prec) as He1 by (unfold e1; rewrite fexp_eq; lia).
    pose proof (pow2_pos (e1 - e)). rewrite Hq. apply Z.div_le_lower_bound; [lia|].
    rewrite <- Z.pow_add_r by lia.
    replace (e1 - e + (prec - 1)) with (Zdigits2 m - 1) by lia.
    destruct (decide (m = 0)) as [->|]; [simpl in *; lia|]. apply Zdigits2_lower. lia. }
  exists r. cbv zeta. rewrite <- Hq. split_and!; [lia|lia| |done|..].
  { intros Hl. unfold r. rewrite Hex, Hq by done. apply round_nearest_even_spec, pow2_pos. lia. }
  all: pose proof (renormalize_spec r e1 ltac:(lia)) as Hz; unfold binary_round_aux.
  all: replace (shr_fexp prec emax m e l) with (mrs, e1) by done; fold r.
  all: destruct (shr_fexp prec emax r e1 loc_Exact) as [mrs' e2].
  all: apply Hz; [unfold e1; rewrite fexp_eq; lia|lia].
Qed.

(** A representable number at an exponent below that of the rounding is below it. *)
Lemma finite_below_normal m e e1 q :
  bounded m e = true -> e < e1 -> 2 ^ (prec - 1) <= q -> Zpos m * ulp e < q * ulp e1.
Proof.
  intros Hb Hlt Hq. apply bounded_facts in Hb as (He & Hm & _).
  pose proof emin_scale. pose proof (ulp_pos e ltac:(lia)).
  rewrite (ulp_shift e e1), Z.mul_assoc by lia. apply Z.mul_lt_mono_pos_r; [done|].
  eapply Z.lt_le_trans; [done|]. transitivity (2 ^ (prec - 1) * 2 ^ (e1 - e)).
  - rewrite <- Z.pow_add_r by lia. apply Z.pow_le_mono_r; lia.
  - apply Z.mul_le_mono_nonneg_r; [|done]. pose proof (pow2_pos (e1 - e)). lia.
Qed.

(** [x] is a lower bound of the number [m * 2^e], or of the truncated one when [l]
    is inexact: rounding stays above it. *)
Lemma round_aux_lower m e l x :
  0 <= m -> - scale <= e <= fexp (Zdigits2 m + e) -> nonneg x -> finite x ->
  value x <= m * ulp e -> value x <= value (binary_round_aux prec emax false m e l).
Proof.
  intros Hm He Hx Hfin Hle. pose proof (finite_value_lt x Hx Hfin) as Hbd.
  destruct (round_aux_value m e l Hm He) as (r & Hr & _ & Hn & _ & ->).
  set (e1 := fexp (Zdigits2 m + e)) in *. apply Z.min_glb; [|lia].
  pose proof (pow2_pos (e1 - e)) as Hk. pose proof (ulp_pos e1 ltac:(lia)) as Hu1.
  assert (0 <= m / 2 ^ (e1 - e)) by (apply Z.div_pos; lia).
  destruct (nonneg_cases x Hx) as [->|[->|(mx & ex & -> & Hb & Hv)]]; [simpl; nia|done|].
  cbn [value] in *. destruct (Z.le_gt_cases e1 ex) as [Hge|Hlt].
  - pose proof (ulp_pos e ltac:(lia)) as Hu.
    rewrite (ulp_shift e1 ex), Z.mul_assoc in * by lia.
    apply Z.mul_le_mono_nonneg_r; [lia|]. etrans; [|apply Hr].
    apply Z.div_le_lower_bound; [lia|]. rewrite (ulp_shift e e1), Z.mul_assoc in Hle by lia.
    apply Z.mul_le_mono_pos_r in Hle; [lia|done].
  - apply bounded_facts in Hb as Hb'. specialize (Hn ltac:(lia)).
    pose proof (finite_below_normal mx ex e1 _ Hb Hlt Hn). nia.
Qed.

(** [x] is an upper bound of the number [m * 2^e], or strictly above the truncated
    one when [l] is inexact: rounding stays below it. *)
Lemma round_aux_upper m e l x :
  0 <= m -> - scale <= e <= fexp (Zdigits2 m + e) -> nonneg x ->
  m * ulp e <= value x -> l = loc_Exact \/ m * ulp e < value x ->
  value (binary_round_aux prec emax false m e l) <= value x.
Proof.
  intros Hm He Hx Hle Hl.
  destruct (round_aux_value m e l Hm He) as (r & Hr & Hex & Hn & _ & ->).
  set (e1 := fexp (Zdigits2 m + e)) in *. set (k := e1 - e) in *.
  pose proof (pow2_pos k ltac:(lia)) as Hk. pose proof (ulp_pos e ltac:(lia)) as Hu.
  pose proof (ulp_pos e1 ltac:(lia)) as Hu1.
  pose proof (Z.div_mod m (2 ^ k) ltac:(lia)) as Hdm. pose proof (Z.mod_pos_bound m (2 ^ k) Hk).
  assert (ulp e1 = 2 ^ k * ulp e) as Hsh by (apply ulp_shift; lia).
  assert (l = loc_Exact -> m mod 2 ^ k = 0 -> r = m / 2 ^ k) as Hex0.
  { intros Hl0 Hmod. destruct (decide (r = m / 2 ^ k)) as [|Hne]; [done|].
    specialize (Hex Hl0). assert (r = m / 2 ^ k + 1) as -> by lia.
    replace ((m / 2 ^ k + 1) * 2 ^ k - m) with (2 ^ k) in Hex by lia. lia. }
  destruct (nonneg_cases x Hx) as [->|[->|(mx & ex & -> & Hb & Hv)]]; cbn [value] in *; [|lia|].
  - assert (m = 0) as -> by nia. rewrite Z.div_0_l, Z.mod_0_l in * by lia.
    rewrite Hex0 by (done || (destruct Hl; [done|lia])). lia.
  - apply Z.min_le_iff. left. destruct (Z.le_gt_cases e1 ex) as [Hge|Hlt].
    + rewrite (ulp_shift e1 ex), Z.mul_assoc in * by lia.
      apply Z.mul_le_mono_nonneg_r; [lia|]. rewrite Hsh, Z.mul_assoc in Hle, Hl.
      rewrite <- Z.mul_lt_mono_pos_r in Hl by done. apply Z.mul_le_mono_pos_r in Hle; [|done].
      set (g := Zpos mx * 2 ^ (ex - e1)) in *.
      destruct (decide (m mod 2 ^ k = 0)) as [H0|H0], Hl as [Hl|Hl]; try rewrite Hex0 by done; nia.
    + exfalso. apply bounded_facts in Hb as Hb'. specialize (Hn ltac:(lia)).
      pose proof (finite_below_normal mx ex e1 _ Hb Hlt Hn) as Hc.
      rewrite Hsh, Z.mul_assoc in Hc. nia.
Qed.

(** No representable number is closer. *)
Lemma round_aux_nearest m e x :
  0 <= m -> - scale <= e <= fexp (Zdigits2 m + e) -> nonneg x -> finite x ->
  finite (binary_round_aux prec emax false m e loc_Exact) ->
  Z.abs (value (binary_round_aux prec emax false m e loc_Exact) - m * ulp e) <= Z.abs (value x - m * ulp e).
Proof.
  intros Hm He Hx Fx Fz.
  destruct (round_aux_value m e loc_Exact Hm He) as (r & Hr & Hex & Hn & Hz & Hv). specialize (Hex eq_refl).
  pose proof (finite_value_lt _ Hz Fz) as Hlt. rewrite Hv in Hlt |- *.
  set (e1 := fexp (Zdigits2 m + e)) in *. set (k := e1 - e) in *. rewrite Z.min_l in * by lia.
  pose proof (pow2_pos k ltac:(lia)) as Hk. pose proof (ulp_pos e ltac:(lia)) as Hu.
  pose proof (ulp_pos e1 ltac:(lia)) as Hu1.
  assert (ulp e1 = 2 ^ k * ulp e) as Hsh by (apply ulp_shift; lia).
  pose proof (Z.div_mod m (2 ^ k) ltac:(lia)) as Hdm. pose proof (Z.mod_pos_bound m (2 ^ k) Hk) as Hmb.
  set (P := 2 ^ k) in *. set (q := m / P) in *.
  assert (forall X, X <= q \/ q + 1 <= X -> Z.abs (r * P - m) <= Z.abs (X * P - m)) as Hnear.
  { intros X HX. destruct (decide (r = q)) as [->|]; [destruct HX; nia|].
    assert (r = q + 1) as -> by lia. destruct HX; nia. }
  assert (forall X, Z.abs (r * ulp e1 - m * ulp e) <= Z.abs (X * ulp e1 - m * ulp e)) as Hgrid.
  { intros X. rewrite Hsh, !Z.mul_assoc, <- !Z.mul_sub_distr_r, !Z.abs_mul.
    apply Z.mul_le_mono_nonneg_r; [lia|]. apply Hnear. lia. }
  destruct (nonneg_cases x Hx) as [->|[->|(mx & ex & -> & Hb & Hvx)]]; [apply (Hgrid 0)|done|].
  cbn [value]. destruct (Z.le_gt_cases e1 ex) as [Hge|Hlt'].
  - rewrite (ulp_shift e1 ex), Z.mul_assoc by lia. apply Hgrid.
  - apply bounded_facts in Hb as Hb'. specialize (Hn ltac:(lia)).
    pose proof (finite_below_normal mx ex e1 q Hb Hlt' Hn) as Hbelow. specialize (Hgrid q).
    assert (q * ulp e1 <= m * ulp e) by (rewrite Hsh; nia). lia.
Qed.

(** ** Normalising an integer times a power of two *)

Lemma iter_xO p d : Zpos (Pos.iter xO p d) = Zpos p * 2 ^ Zpos d.
Proof.
  induction d as [|d IH] using Pos.peano_ind; [simpl; lia|].
  rewrite Pos.iter_succ, Pos2Z.inj_xO, IH, Pos2Z.inj_succ, Z.pow_succ_r by lia. lia.
Qed.

Lemma shl_align_spec p e e' :
  exists p', shl_align p e e' = (p', Z.min e e') /\ Zpos p' = Zpos p * 2 ^ (e - Z.min e e').
Proof.
  unfold shl_align. destruct (e' - e) as [|d|d] eqn:E.
  - exists p. rewrite Z.min_l by lia. split; [done|]. rewrite Z.sub_diag. lia.
  - exists p. rewrite Z.min_l by lia. split; [done|]. rewrite Z.sub_diag. lia.
  - exists (Pos.iter xO p d). rewrite Z.min_r by lia. split; [done|].
    rewrite iter_xO. do 2 f_equal. lia.
Qed.

(** Aligning does not change the number and makes it acceptable to the rounding. *)
Lemma align_spec p e :
  - scale <= e ->
  exists p' e', shl_align p e (fexp (Zpos (digits2_pos p) + e)) = (p', e') /\
    Zpos p' * ulp e' = Zpos p * ulp e /\ - scale <= e' <= fexp (Zdigits2 (Zpos p') + e').
Proof.
  intros He. set (f := fexp (Zpos (digits2_pos p) + e)).
  destruct (shl_align_spec p e f) as (p' & Heq & Hp'). exists p', (Z.min e f).
  pose proof emin_scale. assert (emin <= f) by (unfold f; rewrite fexp_eq; lia).
  split; [done|]. split.
  - rewrite Hp'. rewrite (ulp_shift (Z.min e f) e) by lia. lia.
  - split; [lia|]. assert (Zdigits2 (Zpos p') = Zpos (digits2_pos p) + (e - Z.min e f)) as ->.
    { pose proof (digits2_bounds p) as [Hlo Hhi]. apply Zdigits2_eq; [|lia].
      pose proof (pow2_pos (e - Z.min e f) ltac:(lia)). rewrite Hp'.
      replace (Zpos (digits2_pos p) + (e - Z.min e f) - 1)
        with (Zpos (digits2_pos p) - 1 + (e - Z.min e f)) by lia.
      rewrite !Z.pow_add_r by lia. nia. }
    replace (Zpos (digits2_pos p) + (e - Z.min e f) + Z.min e f) with (Zpos (digits2_pos p) + e) by lia.
    fold f. lia.
Qed.

Record rounds (v : Z) (z : spec_float) : Prop := {
  rounds_nonneg : nonneg z;
  rounds_lower : forall x, nonneg x -> finite x -> value x <= v -> value x <= value z;
  rounds_upper : forall x, nonneg x -> v <= value x -> value z <= value x;
  rounds_nearest : finite z -> forall x, nonneg x -> finite x -> Z.abs (value z - v) <= Z.abs (value x - v)
}.

Lemma round_aux_rounds m e :
  0 <= m -> - scale <= e <= fexp (Zdigits2 m + e) ->
  rounds (m * ulp e) (binary_round_aux prec emax false m e loc_Exact).
Proof.
  intros Hm He. split.
  - by destruct (round_aux_value m e loc_Exact Hm He) as (r & _ & _ & _ & ? & _).
  - intros. by apply round_aux_lower.
  - intros. apply round_aux_upper; auto.
  - intros. by apply round_aux_nearest.
Qed.

Lemma rounds_zero : rounds 0 (S754_zero false).
Proof. split; [done|done| |simpl; lia]. intros x Hx _. by apply value_nonneg. Qed.

Lemma binary_normalize_rounds m e :
  0 <= m -> - scale <= e -> rounds (m * ulp e) (binary_normalize prec emax m e false).
Proof.
  intros Hm He. destruct m as [|p|p]; [apply rounds_zero| |lia]. simpl. unfold binary_round.
  destruct (align_spec p e He) as (p' & e' & -> & <- & He'). by apply round_aux_rounds.
Qed.

(** An exactly representable number rounds to itself. *)
Lemma rounds_exact v z x : rounds v z -> nonneg x -> finite x -> value x = v -> value z = v.
Proof.
  intros Hr Hx Hf <-. pose proof (rounds_lower _ _ Hr x Hx Hf ltac:(lia)).
  pose proof (rounds_upper _ _ Hr x Hx ltac:(lia)). lia.
Qed.

Lemma rounds_finite v z x : rounds v z -> nonneg x -> finite x -> v <= value x -> finite z.
Proof.
  intros Hr Hx Hf Hle. pose proof (rounds_upper _ _ Hr x Hx Hle). pose proof (finite_value_lt x Hx Hf).
  destruct (nonneg_cases z (rounds_nonneg _ _ Hr)) as [->|[->|(m & e & -> & _)]]; try done.
  simpl in *. lia.
Qed.

(** ** Operations *)

Lemma rounds_self x : nonneg x -> rounds (value x) x.
Proof. intros Hx. split; [done|done|done|lia]. Qed.

(** The mantissas of two finite numbers at their common exponent. *)
Lemma align_pair m e m' e' :
  bounded m e = true -> bounded m' e' = true ->
  let ez := Z.min e e' in
  - scale <= ez /\
  Zpos (fst (shl_align m e ez)) * ulp ez = Zpos m * ulp e /\
  Zpos (fst (shl_align m' e' ez)) * ulp ez = Zpos m' * ulp e'.
Proof.
  intros Hb Hb'. cbv zeta. apply bounded_facts in Hb as (He & _), Hb' as (He' & _).
  pose proof emin_scale. set (ez := Z.min e e').
  destruct (shl_align_spec m e ez) as (p & -> & Hp), (shl_align_spec m' e' ez) as (p' & -> & Hp').
  rewrite !Z.min_r in * by lia. simpl fst. split_and!; [lia|..].
  - rewrite Hp, (ulp_shift ez e) by lia. lia.
  - rewrite Hp', (ulp_shift ez e') by lia. lia.
Qed.

Lemma rounds_infinity v : ulp emax <= v -> rounds v (S754_infinity false).
Proof.
  intros Hv. split; [done| | |].
  - intros x Hx Fx _. pose proof (finite_value_lt x Hx Fx). simpl. lia.
  - intros x Hx Hle. simpl. lia.
  - done.
Qed.

(** Rounding is monotone. *)
Lemma rounds_mono v1 v2 z1 z2 :
  rounds v1 z1 -> rounds v2 z2 -> finite z1 -> v1 < v2 -> value z1 <= value z2.
Proof.
  intros R1 R2 F1 Hv. pose proof (finite_value_lt z1 (rounds_nonneg _ _ R1) F1) as Hlt.
  destruct (nonneg_cases z2 (rounds_nonneg _ _ R2)) as [E|[->|(m & e & E & _)]]; [|simpl; lia|].
  all: assert (finite z2) as F2 by (by rewrite E).
  all: pose proof (rounds_nearest _ _ R1 F1 z2 (rounds_nonneg _ _ R2) F2).
  all: pose proof (rounds_nearest _ _ R2 F2 z1 (rounds_nonneg _ _ R1) F1).
  all: lia.
Qed.

Lemma SFadd_rounds x y :
  nonneg x -> nonneg y -> rounds (value x + value y) (SFadd prec emax x y).
Proof.
  intros Hx Hy. pose proof (value_nonneg x Hx). pose proof (value_nonneg y Hy).
  destruct (nonneg_cases x Hx) as [->|[->|(m & e & -> & Hb & Hv)]].
  all: destruct (nonneg_cases y Hy) as [->|[->|(m' & e' & -> & Hb' & Hv')]].
  all: try (apply rounds_infinity; simpl in *; lia).
  - apply rounds_zero.
  - apply (rounds_self (S754_finite false m' e') Hy).
  - rewrite Z.add_0_r. apply (rounds_self (S754_finite false m e) Hx).
  - cbn [SFadd cond_Zopp value]. destruct (align_pair m e m' e' Hb Hb') as (Hsc & <- & <-).
    rewrite <- Z.mul_add_distr_r. by apply binary_normalize_rounds.
Qed.

Lemma SFadd_mono x y x' y' :
  nonneg x -> nonneg y -> nonneg x' -> nonneg y' -> finite (SFadd prec emax x y) ->
  value x <= value x' -> value y <= value y' ->
  value (SFadd prec emax x y) <= value (SFadd prec emax x' y').
Proof.
  intros Hx Hy Hx' Hy' Fin Hlx Hly. destruct (Z.eq_dec (value x + value y) (value x' + value y')) as [Heq|Hne].
  - by rewrite (value_inj x x'), (value_inj y y') by (done || lia).
  - apply (rounds_mono (value x + value y) (value x' + value y')); [by apply SFadd_rounds..|done|lia].
Qed.

Lemma SFsub_rounds x y :
  nonneg x -> finite x -> nonneg y -> finite y -> value y <= value x ->
  rounds (value x - value y) (SFsub prec emax x y).
Proof.
  intros Hx Fx Hy Fy Hle.
  destruct (nonneg_cases x Hx) as [->|[->|(m & e & -> & Hb & Hv)]]; [| done |].
  all: destruct (nonneg_cases y Hy) as [->|[->|(m' & e' & -> & Hb' & Hv')]]; try done.
  - apply rounds_zero.
  - simpl in *. lia.
  - rewrite Z.sub_0_r. apply (rounds_self (S754_finite false m e) Hx).
  - cbn [SFsub cond_Zopp value] in *. destruct (align_pair m e m' e' Hb Hb') as (Hsc & Hl & Hr).
    rewrite <- Hl, <- Hr in *. pose proof (ulp_pos _ Hsc).
    rewrite <- Z.mul_sub_distr_r. apply binary_normalize_rounds; [nia|done].
Qed.

Lemma Zdigits2_mul_lower a b :
  0 < a -> 0 < b -> Zdigits2 a + Zdigits2 b - 1 <= Zdigits2 (a * b).
Proof.
  intros Ha Hb. pose proof (Zdigits2_lower a Ha). pose proof (Zdigits2_lower b Hb).
  assert (0 < Zdigits2 a) by (destruct a; simpl; lia).
  assert (0 < Zdigits2 b) by (destruct b; simpl; lia).
  apply Zdigits2_ge; [|lia].
  replace (Zdigits2 a + Zdigits2 b - 1 - 1) with ((Zdigits2 a - 1) + (Zdigits2 b - 1)) by lia.
  rewrite Z.pow_add_r by lia. pose proof (pow2_pos (Zdigits2 a - 1)).
  pose proof (pow2_pos (Zdigits2 b - 1)). nia.
Qed.

Lemma mul_exponent m e m' e' :
  bounded m e = true -> bounded m' e' = true ->
  - scale <= e + e' <= fexp (Zdigits2 (Zpos m * Zpos m') + (e + e')).
Proof.
  intros Hb Hb'. pose proof (Zdigits2_mul_lower (Zpos m) (Zpos m') ltac:(lia) ltac:(lia)) as Hd.
  simpl (Zdigits2 (Zpos m)) in Hd. simpl (Zdigits2 (Zpos m')) in Hd.
  apply bounded_iff in Hb, Hb'. rewrite fexp_eq. rewrite emin_eq in *. unfold scale. lia.
Qed.

Lemma SFmul_rounds x y :
  nonneg x -> finite x -> nonneg y -> finite y ->
  exists v, v * ulp 0 = value x * value y /\ rounds v (SFmul prec emax x y).
Proof.
  intros Hx Fx Hy Fy.
  destruct (nonneg_cases x Hx) as [->|[->|(m & e & -> & Hb & Hv)]]; [| done |].
  all: destruct (nonneg_cases y Hy) as [->|[->|(m' & e' & -> & Hb' & Hv')]]; try done.
  - exists 0. split; [done|]. apply rounds_zero.
  - exists 0. split; [done|]. apply rounds_zero.
  - exists 0. split; [simpl; lia|]. apply rounds_zero.
  - exists (Zpos (m * m') * ulp (e + e')). cbn [SFmul xorb value].
    pose proof (mul_exponent m e m' e' Hb Hb') as Hm. split.
    + rewrite Pos2Z.inj_mul. apply bounded_facts in Hb as (He & _), Hb' as (He' & _).
      pose proof emin_scale. rewrite emin_eq in *. unfold ulp, scale in *.
      transitivity (Zpos m * Zpos m' * 2 ^ (e + e' + 4 * emax + 4 * emax)).
      * rewrite <- !Z.mul_assoc, <- Z.pow_add_r by lia. do 3 f_equal; lia.
      * replace (e + e' + 4 * emax + 4 * emax) with ((e + 4 * emax) + (e' + 4 * emax)) by lia.
        rewrite Z.pow_add_r by lia. lia.
    + apply round_aux_rounds; [lia|]. by rewrite Pos2Z.inj_mul.
Qed.

Lemma SFmul_mono x y x' y' :
  nonneg x -> finite x -> nonneg y -> finite y -> nonneg x' -> finite x' -> nonneg y' -> finite y' ->
  finite (SFmul prec emax x y) -> value x <= value x' -> value y <= value y' ->
  value (SFmul prec emax x y) <= value (SFmul prec emax x' y').
Proof.
  intros Hx Fx Hy Fy Hx' Fx' Hy' Fy' Fin Hlx Hly.
  destruct (SFmul_rounds x y Hx Fx Hy Fy) as (v & Hv & Hr).
  destruct (SFmul_rounds x' y' Hx' Fx' Hy' Fy') as (v' & Hv' & Hr').
  pose proof (ulp_pos 0 ltac:(unfold scale; lia)) as U.
  pose proof (value_nonneg x Hx). pose proof (value_nonneg y Hy).
  assert (v <= v') as Hle.
  { apply (Z.mul_le_mono_pos_r _ _ (ulp 0) U). rewrite Hv, Hv'. by apply Z.mul_le_mono_nonneg. }
  destruct (Z.eq_dec v v') as [<-|Hne]; [|apply (rounds_mono v v'); (done || lia)].
  assert (value x * value y = value x' * value y') as Heq by lia.
  destruct (Z.eq_dec (value x) (value x')) as [Ex|Ex], (Z.eq_dec (value y) (value y')) as [Ey|Ey].
  - by rewrite (value_inj x x'), (value_inj y y').
  - assert (value x = 0) as Hz by nia. pose proof (rounds_upper _ _ Hr (S754_zero false) eq_refl) as H1.
    simpl in H1. pose proof (value_nonneg _ (rounds_nonneg _ _ Hr')). nia.
  - assert (value y = 0) as Hz by nia. pose proof (rounds_upper _ _ Hr (S754_zero false) eq_refl) as H1.
    simpl in H1. pose proof (value_nonneg _ (rounds_nonneg _ _ Hr')). nia.
  - assert (v = 0) as Hz by nia. pose proof (rounds_upper _ _ Hr (S754_zero false) eq_refl) as H1.
    simpl in H1. pose proof (value_nonneg _ (rounds_nonneg _ _ Hr')). lia.
Qed.

(** The quotient of the mantissas, before rounding. *)
Lemma div_core_spec m e m' e' :
  bounded m e = true -> bounded m' e' = true ->
  exists q ez l, SFdiv_core_binary prec emax (Zpos m) e (Zpos m') e' = (q, ez, l) /\
    0 <= q /\ - scale <= ez <= fexp (Zdigits2 q + ez) /\ ez <= e - e' /\
    q = Zpos m * 2 ^ (e - e' - ez) / Zpos m' /\
    (emin < ez -> 2 ^ (prec - 1) <= q) /\
    (l = loc_Exact \/ q * Zpos m' < Zpos m * 2 ^ (e - e' - ez)).
Proof.
  intros Hb Hb'. apply bounded_facts in Hb as (He & _), Hb' as (He' & _).
  unfold SFdiv_core_binary. simpl Zdigits2 at 1 2. set (d := Zpos (digits2_pos m)).
  set (d' := Zpos (digits2_pos m')). set (ez := Z.min _ (e - e')).
  assert (ez = Z.min (Z.max (d + e - (d' + e') - prec) emin) (e - e')) as Hez by done.
  set (s := e - e' - ez).
  assert (match s with 0 => Zpos m | Zpos _ => Z.shiftl (Zpos m) s | Zneg _ => 0 end
          = Zpos m * 2 ^ s) as ->.
  { destruct s eqn:Es; [lia|by rewrite Z.shiftl_mul_pow2 by lia|lia]. }
  pose proof (pow2_pos s ltac:(lia)) as Hs.
  pose proof (Z.div_eucl_eq (Zpos m * 2 ^ s) (Zpos m') ltac:(lia)) as Heq.
  assert (fst (Z.div_eucl (Zpos m * 2 ^ s) (Zpos m')) = Zpos m * 2 ^ s / Zpos m') as Hfst
    by (unfold Z.div; by destruct (Z.div_eucl _ _)).
  assert (snd (Z.div_eucl (Zpos m * 2 ^ s) (Zpos m')) = (Zpos m * 2 ^ s) mod Zpos m') as Hsnd
    by (unfold Z.modulo; by destruct (Z.div_eucl _ _)).
  destruct (Z.div_eucl _ _) as [q r]. simpl in Hfst, Hsnd. subst q. clear Heq.
  set (q := Zpos m * 2 ^ s / Zpos m').
  assert (0 <= q) as Hq by (apply Z.div_pos; lia).
  assert (1 <= d + s - d' -> 2 ^ (d + s - d' - 1) <= q) as Hbig.
  { intros Hge. apply Z.div_le_lower_bound; [lia|].
    pose proof (digits2_bounds m) as [Hm _]. pose proof (digits2_bounds m') as [_ Hm'].
    fold d in Hm. fold d' in Hm'. pose proof (pow2_pos (d + s - d' - 1) ltac:(lia)).
    transitivity (2 ^ d' * 2 ^ (d + s - d' - 1)); [nia|].
    rewrite <- Z.pow_add_r by lia. replace (d' + (d + s - d' - 1)) with ((d - 1) + s) by lia.
    rewrite Z.pow_add_r by lia. nia. }
  assert (d + s - d' <= Zdigits2 q) as Hdq.
  { destruct (Z.le_gt_cases 1 (d + s - d')) as [Hge|]; [|pose proof (Zdigits2_nonneg q); lia].
    apply Zdigits2_ge; [auto|lia]. }
  pose proof emin_eq. exists q, ez, (new_location (Zpos m') r).
  split_and!; [done|done|unfold scale; lia|rewrite fexp_eq; lia|lia|done| |].
  - intros Hlt. etrans; [|apply Hbig; lia]. apply Z.pow_le_mono_r; lia.
  - unfold new_location, new_location_even, new_location_odd. destruct (Z.eqb_spec r 0) as [->|Hr].
    + left. by destruct (Z.even _).
    + right. fold s.
      pose proof (Z.div_mod (Zpos m * 2 ^ s) (Zpos m') ltac:(lia)).
      pose proof (Z.mod_pos_bound (Zpos m * 2 ^ s) (Zpos m') ltac:(lia)). unfold q. lia.
Qed.

(** Quotients: a representable lower bound of the exact quotient stays one. *)
Lemma SFdiv_lower x y w :
  nonneg x -> finite x -> nonneg y -> finite y -> 0 < value x -> 0 < value y ->
  nonneg w -> finite w -> value w * value y <= value x * ulp 0 ->
  nonneg (SFdiv prec emax x y) /\ value w <= value (SFdiv prec emax x y).
Proof.
  intros Hx Fx Hy Fy Px Py Hw Fw Hle.
  destruct (nonneg_cases x Hx) as [->|[->|(m & e & -> & Hb & Hv)]]; [done|done|].
  destruct (nonneg_cases y Hy) as [->|[->|(m' & e' & -> & Hb' & Hv')]]; [done|done|].
  cbn [SFdiv xorb].
  destruct (div_core_spec m e m' e' Hb Hb') as (q & ez & l & -> & Hq & Hez & Hee & Heq & Hn & _).
  split; [by destruct (round_aux_value q ez l Hq Hez) as (r & _ & _ & _ & ? & _)|].
  apply round_aux_lower; [done..|].
  pose proof (ulp_pos ez ltac:(lia)) as Hu. pose proof emin_scale.
  destruct (nonneg_cases w Hw) as [->|[->|(mw & ew & -> & Hbw & Hvw)]]; [simpl; nia|done|].
  destruct (Z.le_gt_cases ez ew) as [Hge|Hlt].
  2: { apply bounded_facts in Hbw as Hbw'. specialize (Hn ltac:(lia)).
       pose proof (finite_below_normal mw ew ez q Hbw Hlt Hn). simpl. lia. }
  apply bounded_facts in Hbw as (Hew & _), Hb as (He & _), Hb' as (He' & _).
  cbn [value] in *. rewrite (ulp_shift ez ew), Z.mul_assoc in * by lia.
  apply Z.mul_le_mono_nonneg_r; [lia|]. rewrite Heq. apply Z.div_le_lower_bound; [lia|].
  set (g := Zpos mw * 2 ^ (ew - ez)) in *.
  assert (ulp ez * ulp e' * 2 ^ (e - e' - ez) = ulp e * ulp 0) as Hexp.
  { unfold ulp. rewrite <- !Z.pow_add_r by (unfold scale in *; lia). f_equal. lia. }
  pose proof (ulp_pos e' ltac:(lia)) as Hu'.
  apply (Z.mul_le_mono_pos_r _ _ (ulp ez * ulp e')); [nia|]. nia.
Qed.

(** Quotients: a representable upper bound of the exact quotient stays one. *)
Lemma SFdiv_upper x y w :
  nonneg x -> finite x -> nonneg y -> finite y -> 0 < value x -> 0 < value y ->
  nonneg w -> finite w -> value x * ulp 0 <= value w * value y ->
  value (SFdiv prec emax x y) <= value w.
Proof.
  intros Hx Fx Hy Fy Px Py Hw Fw Hle.
  destruct (nonneg_cases x Hx) as [->|[->|(m & e & -> & Hb & Hv)]]; [done|done|].
  destruct (nonneg_cases y Hy) as [->|[->|(m' & e' & -> & Hb' & Hv')]]; [done|done|].
  cbn [SFdiv xorb].
  destruct (div_core_spec m e m' e' Hb Hb') as (q & ez & l & -> & Hq & Hez & Hee & Heq & Hn & Hl).
  pose proof (ulp_pos ez ltac:(lia)) as Hu. pose proof emin_scale.
  apply bounded_facts in Hb as (He & _), Hb' as (He' & _). cbn [value] in *.
  assert (ulp ez * ulp e' * 2 ^ (e - e' - ez) = ulp e * ulp 0) as Hexp.
  { unfold ulp. rewrite <- !Z.pow_add_r by (unfold scale in *; lia). f_equal. lia. }
  pose proof (ulp_pos e' ltac:(lia)) as Hu'. set (n := Zpos m * 2 ^ (e - e' - ez)) in *.
  assert (n * ulp ez <= value w * Zpos m') as Hnw.
  { apply (Z.mul_le_mono_pos_r _ _ (ulp e')); [done|]. unfold n. nia. }
  pose proof (Z.mul_div_le n (Zpos m') ltac:(lia)) as Hqn. rewrite <- Heq in Hqn.
  apply round_aux_upper; [done..| |].
  - apply (Z.mul_le_mono_pos_r _ _ (Zpos m')); [lia|]. nia.
  - destruct Hl as [->|Hl]; [by left|right].
    apply (Z.mul_lt_mono_pos_r (Zpos m')); [lia|]. nia.
Qed.

(** ** Representable numbers *)

Lemma representable k e :
  0 <= k < 2 ^ prec -> emin <= e <= emax - 2 * prec ->
  exists x, nonneg x /\ finite x /\ value x = k * ulp e.
Proof.
  intros Hk He. destruct (decide (k = 0)) as [->|Hnz]; [by exists (S754_zero false)|].
  pose proof (Zdigits2_lower k ltac:(lia)) as Hlo. pose proof (Zdigits2_upper k ltac:(lia)) as Hhi.
  pose proof (Zdigits2_le k prec ltac:(lia) ltac:(lia)) as Hd. pose proof emin_scale as Hsc.
  assert (0 < Zdigits2 k) as Hd0 by (destruct k; simpl; lia).
  set (d := Zdigits2 k) in *. set (e' := Z.max (e - (prec - d)) emin).
  pose proof (pow2_pos (e - e') ltac:(lia)) as Hp. pose proof (pow2_pos d ltac:(lia)).
  assert (k * 2 ^ (e - e') < 2 ^ prec) as Hlt.
  { eapply Z.lt_le_trans; [apply Z.mul_lt_mono_pos_r; [done|exact Hhi]|].
    rewrite <- Z.pow_add_r by lia. apply Z.pow_le_mono_r; lia. }
  assert (emin < e' -> 2 ^ (prec - 1) <= k * 2 ^ (e - e')) as Hge.
  { intros Hlt'. replace (prec - 1) with ((d - 1) + (e - e')) by lia.
    rewrite Z.pow_add_r by lia. apply Z.mul_le_mono_nonneg_r; lia. }
  destruct (k * 2 ^ (e - e')) as [|p|p] eqn:E; [nia| |nia].
  exists (S754_finite false p e'). split_and!; [|done|].
  - split; [done|]. apply bounded_intro; [lia|done|done].
  - cbn [value]. rewrite <- E, (ulp_shift e' e) by lia. lia.
Qed.

(** A representable number rounds to itself. *)
Lemma rounds_representable k e z :
  0 <= k < 2 ^ prec -> emin <= e <= emax - 2 * prec -> rounds (k * ulp e) z ->
  nonneg z /\ finite z /\ value z = k * ulp e.
Proof.
  intros Hk He Hr. destruct (representable k e Hk He) as (x & Hx & Fx & Hv).
  split_and!; [apply (rounds_nonneg _ _ Hr)|apply (rounds_finite _ _ x Hr); [done..|lia]|by apply (rounds_exact _ _ x Hr)].
Qed.

Lemma rounds_le_finite v z e : rounds v z -> emin <= e <= emax - 2 * prec -> v <= ulp e -> finite z.
Proof.
  intros Hr He Hv. destruct (representable 1 e) as (x & Hx & Fx & Vx); [|done|].
  - pose proof (pow2_pos prec). assert (2 ^ 1 <= 2 ^ prec) by (apply Z.pow_le_mono_r; lia). lia.
  - apply (rounds_finite _ _ x Hr Hx Fx). lia.
Qed.

(** Bounds on sums and products, given bounds on the operands *)
Lemma SFadd_le x y x' y' e :
  nonneg x -> nonneg y -> nonneg x' -> nonneg y' -> value x <= value x' -> value y <= value y' ->
  emin <= e <= emax - 2 * prec -> value x' + value y' <= ulp e ->
  nonneg (SFadd prec emax x y) /\ finite (SFadd prec emax x y) /\
  value (SFadd prec emax x y) <= value (SFadd prec emax x' y').
Proof.
  intros Hx Hy Hx' Hy' Hlx Hly He Hle. pose proof (SFadd_rounds x y Hx Hy) as Hr.
  assert (finite (SFadd prec emax x y)) by (apply (rounds_le_finite _ _ e Hr He); lia).
  split_and!; [apply (rounds_nonneg _ _ Hr)|done|by apply SFadd_mono].
Qed.

Lemma SFmul_le x y x' e :
  nonneg x -> finite x -> nonneg y -> finite y -> nonneg x' -> finite x' -> value x <= value x' ->
  emin <= e <= emax - 2 * prec -> value x' * value y <= ulp e * ulp 0 ->
  nonneg (SFmul prec emax x y) /\ finite (SFmul prec emax x y) /\
  value (SFmul prec emax x y) <= value (SFmul prec emax x' y).
Proof.
  intros Hx Fx Hy Fy Hx' Fx' Hlx He Hle. destruct (SFmul_rounds x y Hx Fx Hy Fy) as (v & Hv & Hr).
  pose proof (ulp_pos 0 ltac:(unfold scale; lia)) as U. pose proof (value_nonneg y Hy).
  assert (finite (SFmul prec emax x y)).
  { apply (rounds_le_finite _ _ e Hr He). apply (Z.mul_le_mono_pos_r _ _ (ulp 0) U). nia. }
  split_and!; [apply (rounds_nonneg _ _ Hr)|done|by apply SFmul_mono].
Qed.

End Rounding.

(** ** The formats of the code: [f64] and [f32] *)

(** [z as f64] of an integer *)
Definition f64_of_Z (z : Z) : spec_float := binary_normalize 53 1024 z 0 false.

(** [z as f32] of an integer *)
Definition f32_of_Z (z : Z) : spec_float := binary_normalize 24 128 z 0 false.

(** [a.min(b)]: a NaN operand is ignored. *)
Definition float_min (x y : spec_float) : spec_float :=
  match SFcompare x y with
  | Some Gt => y
  | Some _ => x
  | None => match x with S754_nan => y | _ => x end
  end.

Lemma float_min_value prec emax x y :
  1 < prec -> prec < emax -> nonneg prec emax x -> nonneg prec emax y ->
  float_min x y = (if value emax y <? value emax x then y else x).
Proof.
  intros Hp He Hx Hy. unfold float_min. rewrite (SFcompare_value prec emax) by done.
  unfold Z.ltb. rewrite (Z.compare_antisym (value emax x)).
  by destruct (_ ?= _).
Qed.


(** The decimal literal [n / d], correctly rounded *)
Definition f64_lit (n d : Z) : spec_float := SFdiv 53 1024 (f64_of_Z n) (f64_of_Z d).
Definition f32_lit (n d : Z) : spec_float := SFdiv 24 128 (f32_of_Z n) (f32_of_Z d).

(** [x as f64] of a binary32 number, [x as f32] of a binary64 number *)
Definition f32_as_f64 (x : spec_float) : spec_float :=
  match x with
  | S754_finite s m e => binary_normalize 53 1024 (cond_Zopp s (Zpos m)) e false
  | _ => x
  end.

Definition f64_as_f32 (x : spec_float) : spec_float :=
  match x with
  | S754_finite s m e =>
      match binary_normalize 24 128 (cond_Zopp s (Zpos m)) e false with
      | S754_zero _ => S754_zero s
      | y => y
      end
  | _ => x
  end.

(** [a.partial_cmp(&b).unwrap_or(Ordering::Equal)] *)
Definition cmp_float (x y : spec_float) : comparison :=
  match SFcompare x y with Some c => c | None => Eq end.

(** Widening keeps the number. *)
Lemma f32_as_f64_value x :
  nonneg 24 128 x -> finite x ->
  nonneg 53 1024 (f32_as_f64 x) /\ finite (f32_as_f64 x) /\
  value 1024 (f32_as_f64 x) * ulp 128 0 = value 128 x * ulp 1024 0.
Proof.
  intros Hx Fx. destruct (nonneg_cases 24 128 ltac:(lia) ltac:(lia) x Hx) as [->|[->|(m & e & -> & Hb & _)]]; [done|done|].
  pose proof Hb as (He & Hm & _)%bounded_facts; [|lia..].
  assert (- (149) <= e <= 104) as He' by (rewrite emin_eq in He; lia). clear He.
  assert (rounds 53 1024 (Zpos m * ulp 1024 e) (f32_as_f64 (S754_finite false m e))) as Hr
    by (apply binary_normalize_rounds; unfold scale; lia).
  destruct (rounds_representable 53 1024 ltac:(lia) ltac:(lia) (Zpos m) e (f32_as_f64 (S754_finite false m e)))
    as (Hn & Hf & Hv); [lia|rewrite emin_eq; lia|exact Hr|].
  split_and!; [done|done|]. rewrite Hv. cbn [value]. unfold ulp, scale.
  rewrite <- !Z.mul_assoc, <- !Z.pow_add_r by lia. do 2 f_equal. lia.
Qed.

(** Every binary32 number from zero on survives the detour through binary64. *)
Lemma f32_through_f64 m e :
  bounded 24 128 m e = true ->
  f64_as_f32 (f32_as_f64 (S754_finite false m e)) = S754_finite false m e.
Proof.
  intros Hb. pose proof Hb as (He & Hm & _)%bounded_facts; [|lia..].
  assert (- (149) <= e <= 104) as He' by (rewrite emin_eq in He; lia). clear He.
  destruct (f32_as_f64_value (S754_finite false m e) (conj eq_refl Hb) I) as (Hn & Hf & Hv0).
  assert (value 1024 (f32_as_f64 (S754_finite false m e)) = Zpos m * ulp 1024 e) as Hv.
  { cbn [value] in Hv0. pose proof (ulp_pos 128 0 ltac:(unfold scale; lia)).
    apply (Z.mul_reg_r _ _ (ulp 128 0)); [lia|]. rewrite Hv0. unfold ulp, scale.
    rewrite <- !Z.mul_assoc, <- !Z.pow_add_r by lia. do 2 f_equal. lia. }
  destruct (nonneg_cases 53 1024 ltac:(lia) ltac:(lia) _ Hn) as [E|[E|(m' & e' & E & Hb' & _)]]; rewrite E in *.
  - exfalso. simpl value in Hv. pose proof (ulp_pos 1024 e ltac:(unfold scale; lia)). lia.
  - done.
  - pose proof Hb' as (He1 & Hm' & _)%bounded_facts; [|lia..].
    rewrite emin_eq in He1. cbn [value] in Hv.
    assert (-203 <= e') as Hlow.
    { destruct (Z.le_gt_cases (-203) e') as [|Hlt]; [done|]. exfalso.
      rewrite (ulp_shift 1024 e' e) in Hv by (unfold scale; lia). rewrite Z.mul_assoc in Hv.
      pose proof (ulp_pos 1024 e' ltac:(unfold scale; lia)).
      apply Z.mul_reg_r in Hv; [|lia]. assert (2 ^ 53 <= 2 ^ (e - e')) by (apply Z.pow_le_mono_r; lia). nia. }
    assert (Zpos m' * ulp 128 e' = Zpos m * ulp 128 e) as Hv'.
    { rewrite (ulp_shift 1024 (-203) e'), (ulp_shift 1024 (-203) e), !Z.mul_assoc in Hv by (unfold scale; lia).
      pose proof (ulp_pos 1024 (-203) ltac:(unfold scale; lia)). apply Z.mul_reg_r in Hv; [|lia].
      rewrite (ulp_shift 128 (-203) e'), (ulp_shift 128 (-203) e), !Z.mul_assoc by (unfold scale; lia). by rewrite Hv. }
    cbn [f64_as_f32 cond_Zopp].
    assert (rounds 24 128 (Zpos m * ulp 128 e) (binary_normalize 24 128 (Zpos m') e' false)) as Hr2
      by (rewrite <- Hv'; apply binary_normalize_rounds; unfold scale; lia).
    assert (binary_normalize 24 128 (Zpos m') e' false = S754_finite false m e) as ->; [|done].
    apply (value_inj 24 128); [lia|lia|apply Hr2|by split|].
    apply (rounds_exact 24 128 _ _ (S754_finite false m e) Hr2); [by split|done|done].
Qed.

Lemma cmp_float_ok prec emax : 1 < prec -> prec < emax -> cmp_ok (nonneg prec emax) cmp_float.
Proof.
  intros Hp He. split; unfold cmp_float; intros.
  - rewrite !(SFcompare_value prec emax) by done. apply Z.compare_antisym.
  - rewrite (SFcompare_value prec emax) in * by done. rewrite Z.compare_le_iff in *. lia.
Qed.

(** ** The order of all numbers, negative ones included

    Floats compare by sign, exponent and mantissa in this order; [float_key] lists
    them so that the order is lexicographic. *)

Definition float_key (x : spec_float) : Z * Z * Z :=
  match x with
  | S754_infinity true => (-2, 0, 0)
  | S754_finite true m e => (-1, - e, Zneg m)
  | S754_zero _ | S754_nan => (0, 0, 0)
  | S754_finite false m e => (1, e, Zpos m)
  | S754_infinity false => (2, 0, 0)
  end.

Definition key_le (a b : Z * Z * Z) : Prop :=
  a.1.1 < b.1.1 \/ a.1.1 = b.1.1 /\ (a.1.2 < b.1.2 \/ a.1.2 = b.1.2 /\ a.2 <= b.2).

Lemma key_le_trans a b c : key_le a b -> key_le b c -> key_le a c.
Proof. unfold key_le. lia. Qed.

Lemma key_le_total a b : key_le a b \/ key_le b a.
Proof. unfold key_le. lia. Qed.

Lemma key_le_refl a : key_le a a.
Proof. unfold key_le. lia. Qed.

Ltac compare_cases :=
  repeat match goal with
  | H : context [Z.compare ?a ?b] |- _ => destruct (Z.compare_spec a b)
  | |- context [Z.compare ?a ?b] => destruct (Z.compare_spec a b)
  | |- context [Pos.compare_cont Eq ?a ?b] => change (Pos.compare_cont Eq a b) with (Pos.compare a b)
  | |- context [Pos.compare ?a ?b] => destruct (Pos.compare_spec a b)
  end.

Lemma SFleb_key x y :
  x <> S754_nan -> y <> S754_nan -> SFleb x y = true <-> key_le (float_key x) (float_key y).
Proof.
  intros Hx Hy. unfold SFleb, key_le.
  destruct x as [[]|[]| |[] m e], y as [[]|[]| |[] m' e']; try done; simpl; compare_cases; simpl; split; done || lia.
Qed.

Lemma SFleb_not_nan x y : SFleb x y = true -> x <> S754_nan /\ y <> S754_nan.
Proof. destruct x as [[]|[]| |[] m e], y as [[]|[]| |[] m' e']; done. Qed.

Lemma SFleb_trans x y z : SFleb x y = true -> SFleb y z = true -> SFleb x z = true.
Proof.
  intros Hxy Hyz. destruct (SFleb_not_nan _ _ Hxy), (SFleb_not_nan _ _ Hyz).
  rewrite SFleb_key in * by done. by eapply key_le_trans.
Qed.

Lemma SFleb_refl x : x <> S754_nan -> SFleb x x = true.
Proof. intros. rewrite SFleb_key by done. apply key_le_refl. Qed.

(** [a.max(b)]: a NaN operand is ignored. *)
Definition float_max (x y : spec_float) : spec_float :=
  match SFcompare x y with
  | Some Lt => y
  | Some _ => x
  | None => match x with S754_nan => y | _ => x end
  end.

Lemma SFcompare_nan_l x : SFcompare S754_nan x = None.
Proof. by destruct x. Qed.

Lemma SFcompare_nan_r x : SFcompare x S754_nan = None.
Proof. by destruct x. Qed.

Lemma SFcompare_Some x y : x <> S754_nan -> y <> S754_nan -> exists c, SFcompare x y = Some c.
Proof. destruct x as [[]|[]| |[] m e], y as [[]|[]| |[] m' e']; eauto; done. Qed.

Lemma SFcompare_swap x y c : SFcompare x y = Some c -> SFcompare y x = Some (CompOpp c).
Proof.
  destruct x as [[]|[]| |[] m e], y as [[]|[]| |[] m' e']; simpl; try (by intros [= <-]); try done.
  all: intros [= <-]; rewrite (Z.compare_antisym e e');
    change (Pos.compare_cont Eq) with Pos.compare; rewrite (Pos.compare_antisym m m');
    destruct (e ?= e'); try done; by destruct (m ?= m')%positive.
Qed.

Lemma nan_dec x : x = S754_nan \/ x <> S754_nan.
Proof. destruct x; auto. Qed.

Lemma float_min_spec x y :
  x <> S754_nan ->
  let r := float_min x y in
  r <> S754_nan /\ SFleb r x = true /\ (y <> S754_nan -> SFleb r y = true) /\ (r = x \/ r = y).
Proof.
  intros Hx. destruct (nan_dec y) as [->|Hy].
  - unfold float_min. rewrite SFcompare_nan_r. destruct x; try done; (split_and!; [done|by apply SFleb_refl|done|by left]).
  - destruct (SFcompare_Some x y Hx Hy) as [c E]. pose proof (SFcompare_swap _ _ _ E) as E'.
    pose proof (SFleb_refl x Hx) as Rx. pose proof (SFleb_refl y Hy) as Ry.
    unfold float_min, SFleb in *. rewrite E. destruct c; rewrite ?E', ?E; by split_and!; auto.
Qed.

Lemma float_max_spec x y :
  x <> S754_nan ->
  let r := float_max x y in
  r <> S754_nan /\ SFleb x r = true /\ (y <> S754_nan -> SFleb y r = true) /\ (r = x \/ r = y).
Proof.
  intros Hx. destruct (nan_dec y) as [->|Hy].
  - unfold float_max. rewrite SFcompare_nan_r. destruct x; try done; (split_and!; [done|by apply SFleb_refl|done|by left]).
  - destruct (SFcompare_Some x y Hx Hy) as [c E]. pose proof (SFcompare_swap _ _ _ E) as E'.
    pose proof (SFleb_refl x Hx) as Rx. pose proof (SFleb_refl y Hy) as Ry.
    unfold float_max, SFleb in *. rewrite E. destruct c; rewrite ?E', ?E; by split_and!; auto.
Qed.

(** The minimum of a list, started from a number: below all of them, and one of them *)
Lemma fold_min_spec l acc :
  acc <> S754_nan ->
  let r := fold_left float_min l acc in
  r <> S754_nan /\ SFleb r acc = true /\ (forall x, x ∈ l -> x <> S754_nan -> SFleb r x = true) /\ r ∈ acc :: l.
Proof.
  revert acc. induction l as [|x l IH]; intros acc Hacc; cbn [fold_left].
  { split_and!; [done|by apply SFleb_refl|by intros x Hx%not_elem_of_nil|by left]. }
  destruct (float_min_spec acc x Hacc) as (Hn & Ha & Hx & Hor).
  destruct (IH _ Hn) as (Hr & Hra & Hrl & Hin). split_and!; [done|by eapply SFleb_trans| |].
  - intros y [->|Hy]%elem_of_cons Hyn; [|by apply Hrl]. eapply SFleb_trans; [done|by apply Hx].
  - apply elem_of_cons in Hin as [->|Hin]; [destruct Hor as [->| ->]|]; set_solver.
Qed.

Lemma fold_max_spec l acc :
  acc <> S754_nan ->
  let r := fold_left float_max l acc in
  r <> S754_nan /\ SFleb acc r = true /\ (forall x, x ∈ l -> x <> S754_nan -> SFleb x r = true) /\ r ∈ acc :: l.
Proof.
  revert acc. induction l as [|x l IH]; intros acc Hacc; cbn [fold_left].
  { split_and!; [done|by apply SFleb_refl|by intros x Hx%not_elem_of_nil|by left]. }
  destruct (float_max_spec acc x Hacc) as (Hn & Ha & Hx & Hor).
  destruct (IH _ Hn) as (Hr & Hra & Hrl & Hin). split_and!; [done|by eapply SFleb_trans| |].
  - intros y [->|Hy]%elem_of_cons Hyn; [|by apply Hrl]. eapply SFleb_trans; [by apply Hx|done].
  - apply elem_of_cons in Hin as [->|Hin]; [destruct Hor as [->| ->]|]; set_solver.
Qed.
