(* ===== verification/Lww.v ===== *)
(** * Last-write-wins maps

    The lattice behind the LWW-Register maps of the hierarchy: a map from keys
    to (value, timestamp) in which a write is kept when its timestamp is
    strictly greater than the stored one. Shared by the three maps of the
    routing table. *)

From S2P Require Import Prelude.

Section Lww.
Context {V : Type}.
Implicit Types (m : gmap string (V * Z)) (k : string) (v : V) (ts : Z).

(** Abstract register: the newer of two stamped values; the left one on a tie. *)
Definition lww_join (a b : option (V * Z)) : option (V * Z) :=
  match a, b with
  | Some (_, ts), Some (_, ts') => if ts' <=? ts then a else b
  | None, _ => b
  | _, None => a
  end.

Definition lww_put m k v ts : gmap string (V * Z) :=
  match m !! k with
  | Some (_, existing) => if ts <=? existing then m else <[k := (v, ts)]> m
  | None => <[k := (v, ts)]> m
  end.

(** The write is applied exactly when it is newer than what is stored. *)
Definition lww_accepts m k ts : bool :=
  match m !! k with Some (_, existing) => existing <? ts | None => true end.

Definition lww_put_entry m (e : string * (V * Z)) : gmap string (V * Z) :=
  lww_put m e.1 e.2.1 e.2.2.

Definition lww_put_all m (l : list (string * (V * Z))) : gmap string (V * Z) :=
  fold_left lww_put_entry l m.

(** Two sources of writes agree when a timestamp identifies the value written
    to a key. *)
Definition lww_agree (a b : option (V * Z)) : Prop :=
  forall v w ts, a = Some (v, ts) -> b = Some (w, ts) -> v = w.

Definition lww_maps_agree m1 m2 : Prop := forall k, lww_agree (m1 !! k) (m2 !! k).

Definition lww_entries_agree (l : list (string * (V * Z))) : Prop :=
  forall k v w ts, (k, (v, ts)) ∈ l -> (k, (w, ts)) ∈ l -> v = w.

Lemma lww_join_assoc a b c : lww_join a (lww_join b c) = lww_join (lww_join a b) c.
Proof.
  destruct a as [[? ?]|], b as [[? ?]|], c as [[? ?]|]; simpl; try done;
    repeat (progress bool_arith; simpl); done || lia.
Qed.

Lemma lww_join_idem a : lww_join a a = a.
Proof. destruct a as [[? ?]|]; simpl; [|done]. by rewrite Z.leb_refl. Qed.

Lemma lww_join_None_r a : lww_join a None = a.
Proof. by destruct a as [[? ?]|]. Qed.

Lemma lww_join_comm a b : lww_agree a b -> lww_join a b = lww_join b a.
Proof.
  unfold lww_agree. destruct a as [[v ts]|], b as [[w ts']|]; simpl; try done.
  intros H. bool_arith; try done; [|lia].
  assert (ts = ts') as -> by lia. by rewrite (H v w ts').
Qed.

Lemma lww_join_stamp_ge a b v ts :
  a = Some (v, ts) -> exists w ts', lww_join a b = Some (w, ts') /\ ts <= ts'.
Proof.
  intros ->. destruct b as [[w ts']|]; simpl; [|eauto with lia].
  bool_arith; eauto with lia.
Qed.

(** The newest of a sequence of stamped values, folded the way a replica folds
    the tables it receives. *)
Definition lww_joins (a : option (V * Z)) (l : list (option (V * Z))) : option (V * Z) :=
  fold_left lww_join l a.

Lemma lww_join_absorb_keep a b c : lww_join a c = a -> lww_join (lww_join a b) c = lww_join a b.
Proof.
  destruct a as [[? ?]|], b as [[? ?]|], c as [[? ?]|]; simpl; try done; intros H;
    repeat (progress bool_arith; simpl); simplify_eq; done || lia.
Qed.

Lemma lww_joins_absorb_keep l : forall a c,
  lww_join a c = a -> lww_join (lww_joins a l) c = lww_joins a l.
Proof. induction l; intros ???; simpl; [done|]. by apply IHl, lww_join_absorb_keep. Qed.

Lemma lww_joins_absorb l : forall a c, c ∈ a :: l -> lww_join (lww_joins a l) c = lww_joins a l.
Proof.
  induction l as [|b l IH]; intros a c Hc; simpl.
  - apply list_elem_of_singleton in Hc as ->. apply lww_join_idem.
  - rewrite !elem_of_cons in Hc. destruct Hc as [->|[->|Hc]].
    + apply lww_joins_absorb_keep, lww_join_absorb_keep, lww_join_idem.
    + apply lww_joins_absorb_keep. by rewrite <- lww_join_assoc, lww_join_idem.
    + apply IH. by right.
Qed.

Lemma lww_joins_elem l : forall a, lww_joins a l ∈ a :: l.
Proof.
  induction l as [|b l IH]; intros a; simpl; [by left|].
  specialize (IH (lww_join a b)). apply elem_of_cons in IH as [->|IH]; [|set_solver].
  destruct a as [[??]|], b as [[??]|]; simpl; try case_match; set_solver.
Qed.

Lemma lww_joins_absorbed l : forall f a,
  (forall c, c ∈ a :: l -> lww_join f c = f) -> lww_join f (lww_joins a l) = f.
Proof. intros f a H. apply H, lww_joins_elem. Qed.

(** The fold depends on the set of values only, when they agree. *)
Lemma lww_joins_set a l b l' :
  (forall c, c ∈ a :: l <-> c ∈ b :: l') ->
  (forall c d, c ∈ a :: l -> d ∈ a :: l -> lww_agree c d) ->
  lww_joins a l = lww_joins b l'.
Proof.
  intros Heq Ha.
  rewrite <- (lww_joins_absorbed l' (lww_joins a l) b)
    by (intros c Hc; apply lww_joins_absorb; by apply Heq).
  rewrite lww_join_comm by (apply Ha; [apply lww_joins_elem|apply Heq, lww_joins_elem]).
  apply lww_joins_absorbed. intros c Hc. apply lww_joins_absorb. by apply Heq.
Qed.

Lemma lww_joins_fmap_set {T} (f : T -> option (V * Z)) a l b l' :
  (forall t, t ∈ a :: l <-> t ∈ b :: l') ->
  (forall t u, t ∈ a :: l -> u ∈ a :: l -> lww_agree (f t) (f u)) ->
  lww_joins (f a) (f <$> l) = lww_joins (f b) (f <$> l').
Proof.
  intros Heq Ha. apply lww_joins_set.
  - intros c. rewrite <- !fmap_cons, !list_elem_of_fmap. naive_solver.
  - intros c d. rewrite <- !fmap_cons. intros (t & -> & Ht)%list_elem_of_fmap (u & -> & Hu)%list_elem_of_fmap.
    by apply Ha.
Qed.

Lemma lookup_lww_put m k v ts j :
  lww_put m k v ts !! j = if decide (k = j) then lww_join (m !! k) (Some (v, ts)) else m !! j.
Proof.
  unfold lww_put. case_decide; subst.
  - destruct (m !! j) as [[w e]|] eqn:E; simpl; [|by simplify_map_eq].
    bool_arith; by simplify_map_eq.
  - destruct (m !! k) as [[w e]|]; bool_arith; by simplify_map_eq.
Qed.

Lemma lookup_lww_put_all_nodup l : forall m k,
  NoDup l.*1 -> lww_put_all m l !! k = lww_join (m !! k) ((list_to_map l : gmap string (V * Z)) !! k).
Proof.
  induction l as [|[k0 [v ts]] l IH]; intros m k Hnd; simpl.
  - rewrite lookup_empty. by rewrite lww_join_None_r.
  - apply NoDup_cons in Hnd as [Hk Hnd]. rewrite IH by done.
    unfold lww_put_entry; simpl. rewrite lookup_lww_put, lookup_insert.
    case_decide as D; [subst k0|done].
    rewrite (not_elem_of_list_to_map_1 l k) by done.
    apply lww_join_None_r.
Qed.

(** Iterating over the entries of a hash map applies the register join at every
    key, whatever the iteration order. *)
Lemma lookup_lww_put_all_map m m' l k :
  l ≡ₚ map_to_list m' -> lww_put_all m l !! k = lww_join (m !! k) (m' !! k).
Proof.
  intros Hp. assert (NoDup l.*1) as Hnd by (rewrite Hp; apply NoDup_fst_map_to_list).
  rewrite lookup_lww_put_all_nodup by done.
  by rewrite (list_to_map_proper l (map_to_list m') Hnd Hp), list_to_map_to_list.
Qed.

Lemma lww_put_comm m e1 e2 :
  (e1.1 = e2.1 -> e1.2.2 = e2.2.2 -> e1.2.1 = e2.2.1) ->
  lww_put_entry (lww_put_entry m e1) e2 = lww_put_entry (lww_put_entry m e2) e1.
Proof.
  destruct e1 as [k1 [v1 t1]], e2 as [k2 [v2 t2]]; simpl. intros H.
  unfold lww_put_entry; simpl. apply map_eq; intros j. rewrite !lookup_lww_put.
  destruct (decide (k1 = k2)) as [->|Hne].
  - case_decide; [subst|done]. rewrite !decide_True by done.
    rewrite <- !lww_join_assoc. f_equal. apply lww_join_comm.
    intros v w ts [= <- <-] [= <- ->]. auto.
  - repeat case_decide; subst; done || congruence.
Qed.

(** Strong eventual consistency of the write stream: replicas that saw the same
    writes in different orders hold the same map. *)
Lemma lww_put_all_perm l1 l2 m :
  l1 ≡ₚ l2 -> lww_entries_agree l1 -> lww_put_all m l1 = lww_put_all m l2.
Proof.
  intros Hp. revert m. induction Hp as [|x l1 l2 Hp IH|x y l|l1 l2 l3 Hp1 IH1 Hp2 IH2];
    intros m Ha; unfold lww_put_all in *; simpl.
  - done.
  - apply IH. intros k v w ts H1 H2. apply (Ha k v w ts); by right.
  - f_equal. apply lww_put_comm. destruct x as [k1 [v1 t1]], y as [k2 [v2 t2]]; simpl.
    intros -> ->. apply (Ha k1 v2 v1 t1); set_solver.
  - rewrite IH1 by done. apply IH2. intros k v w ts H1 H2.
    rewrite <- Hp1 in H1, H2. eauto.
Qed.

Lemma lww_put_stamp_ge m k v ts j w e :
  m !! j = Some (w, e) -> exists w' e', lww_put m k v ts !! j = Some (w', e') /\ e <= e'.
Proof.
  intros Hj. rewrite lookup_lww_put. case_decide; subst; [|eauto with lia].
  by apply (lww_join_stamp_ge _ _ w).
Qed.

Lemma lww_put_reject m k v ts : lww_accepts m k ts = false -> lww_put m k v ts = m.
Proof.
  unfold lww_accepts, lww_put. destruct (m !! k) as [[w e]|]; [|done].
  bool_arith; done || lia.
Qed.

Lemma lww_put_accept m k v ts :
  lww_accepts m k ts = true -> lww_put m k v ts = <[k := (v, ts)]> m.
Proof.
  unfold lww_accepts, lww_put. destruct (m !! k) as [[w e]|]; [|done].
  bool_arith; done || lia.
Qed.

(** Guarded removal: an entry survives only if it is newer than the removal. *)
Definition lww_del m k ts : gmap string (V * Z) :=
  match m !! k with
  | Some (_, existing) => if ts <? existing then m else delete k m
  | None => delete k m
  end.

Definition lww_keep ts (a : option (V * Z)) : option (V * Z) :=
  match a with Some (v, e) => if ts <? e then Some (v, e) else None | None => None end.

Lemma lww_keep_idem ts a : lww_keep ts (lww_keep ts a) = lww_keep ts a.
Proof. destruct a as [[v e]|]; simpl; [|done]. destruct (ts <? e) eqn:E; simpl; by rewrite ?E. Qed.

Lemma lookup_lww_del m k ts j :
  lww_del m k ts !! j = if decide (k = j) then lww_keep ts (m !! k) else m !! j.
Proof.
  unfold lww_del, lww_keep. case_decide; subst.
  - destruct (m !! j) as [[w e]|] eqn:E; [|by rewrite lookup_delete_eq].
    bool_arith; [done|by rewrite lookup_delete_eq].
  - destruct (m !! k) as [[w e]|]; bool_arith; by simplify_map_eq.
Qed.

Lemma lookup_del_each ks ts : forall m j,
  fold_left (fun m k => lww_del m k ts) ks m !! j =
  if decide (j ∈ ks) then lww_keep ts (m !! j) else m !! j.
Proof.
  induction ks as [|k ks IH]; intros m j; simpl; [done|].
  rewrite IH, lookup_lww_del. destruct (decide (k = j)) as [->|Hne].
  - rewrite (decide_True (P := j ∈ j :: ks)) by set_solver.
    case_decide; by rewrite ?lww_keep_idem.
  - destruct (decide (j ∈ ks)); [by rewrite decide_True by set_solver|].
    by rewrite decide_False by set_solver.
Qed.

End Lww.
