(* ===== verification/RoutingTable.v ===== *)
(** * Routing table of the node -> cell -> zone hierarchy

    Models peat-protocol/src/hierarchy/routing_table.rs: the three LWW maps, the
    guarded writes and removals, the CRDT merge, and the cell merge and split
    that hierarchy maintenance performs on the table. A [&mut self] method
    returns its value paired with the new table. [HashMap] iteration order is
    not part of a [HashMap]: the loops are folds over an entry list, and
    [merge_any_iteration_order] shows the order does not matter. *)

From S2P Require Import Prelude Lww.

Record RoutingTable := mkRoutingTable {
  node_to_cell : gmap string (string * Z);
  cell_to_zone : gmap string (string * Z);
  cell_leaders : gmap string (string * Z)
}.

Definition new : RoutingTable := mkRoutingTable ∅ ∅ ∅.

Definition assign_node (t : RoutingTable) (node_id cell_id : string) (timestamp : Z)
  : bool * RoutingTable :=
  let insert_it :=
    (true, mkRoutingTable (<[node_id := (cell_id, timestamp)]> (node_to_cell t))
             (cell_to_zone t) (cell_leaders t)) in
  match node_to_cell t !! node_id with
  | Some (_, existing_ts) =>
      if timestamp <=? existing_ts then (false, t) else insert_it
  | None => insert_it
  end.

Definition remove_node (t : RoutingTable) (node_id : string) (timestamp : Z)
  : bool * RoutingTable :=
  let delete_it :=
    (true, mkRoutingTable (delete node_id (node_to_cell t))
             (cell_to_zone t) (cell_leaders t)) in
  match node_to_cell t !! node_id with
  | Some (_, existing_ts) =>
      if timestamp <? existing_ts then (false, t) else delete_it
  | None => delete_it
  end.

Definition assign_cell (t : RoutingTable) (cell_id zone_id : string) (timestamp : Z)
  : bool * RoutingTable :=
  let insert_it :=
    (true, mkRoutingTable (node_to_cell t)
             (<[cell_id := (zone_id, timestamp)]> (cell_to_zone t)) (cell_leaders t)) in
  match cell_to_zone t !! cell_id with
  | Some (_, existing_ts) =>
      if timestamp <=? existing_ts then (false, t) else insert_it
  | None => insert_it
  end.

Definition remove_cell (t : RoutingTable) (cell_id : string) (timestamp : Z)
  : bool * RoutingTable :=
  let delete_it :=
    (true, mkRoutingTable (node_to_cell t)
             (delete cell_id (cell_to_zone t)) (cell_leaders t)) in
  match cell_to_zone t !! cell_id with
  | Some (_, existing_ts) =>
      if timestamp <? existing_ts then (false, t) else delete_it
  | None => delete_it
  end.

Definition set_cell_leader (t : RoutingTable) (cell_id leader_node_id : string)
    (timestamp : Z) : bool * RoutingTable :=
  let insert_it :=
    (true, mkRoutingTable (node_to_cell t) (cell_to_zone t)
             (<[cell_id := (leader_node_id, timestamp)]> (cell_leaders t))) in
  match cell_leaders t !! cell_id with
  | Some (_, existing_ts) =>
      if timestamp <=? existing_ts then (false, t) else insert_it
  | None => insert_it
  end.

Definition remove_cell_leader (t : RoutingTable) (cell_id : string) (timestamp : Z)
  : bool * RoutingTable :=
  let delete_it :=
    (true, mkRoutingTable (node_to_cell t) (cell_to_zone t)
             (delete cell_id (cell_leaders t))) in
  match cell_leaders t !! cell_id with
  | Some (_, existing_ts) =>
      if timestamp <? existing_ts then (false, t) else delete_it
  | None => delete_it
  end.

Definition get_node_cell (t : RoutingTable) (node_id : string) : option string :=
  fst <$> node_to_cell t !! node_id.

Definition get_cell_zone (t : RoutingTable) (cell_id : string) : option string :=
  fst <$> cell_to_zone t !! cell_id.

Definition get_node_zone (t : RoutingTable) (node_id : string) : option string :=
  match get_node_cell t node_id with
  | Some cell_id => get_cell_zone t cell_id
  | None => None
  end.

Definition is_cell_leader (t : RoutingTable) (node_id cell_id : string) : bool :=
  match cell_leaders t !! cell_id with
  | Some (leader_id, _) => bool_decide (leader_id = node_id)
  | None => false
  end.

Definition get_cell_leader (t : RoutingTable) (cell_id : string) : option string :=
  fst <$> cell_leaders t !! cell_id.

(** The three loops of [merge], each over the entries of one map. *)
Definition merge_entries (t : RoutingTable)
    (nodes cells leaders : list (string * (string * Z))) : RoutingTable :=
  let t := fold_left (fun t '(node_id, (cell_id, ts)) =>
             snd (assign_node t node_id cell_id ts)) nodes t in
  let t := fold_left (fun t '(cell_id, (zone_id, ts)) =>
             snd (assign_cell t cell_id zone_id ts)) cells t in
  fold_left (fun t '(cell_id, (leader_id, ts)) =>
             snd (set_cell_leader t cell_id leader_id ts)) leaders t.

Definition merge (t other : RoutingTable) : RoutingTable :=
  merge_entries t (map_to_list (node_to_cell other))
    (map_to_list (cell_to_zone other)) (map_to_list (cell_leaders other)).

Record RoutingTableStats := mkRoutingTableStats {
  node_count : Z; cell_count : Z; leader_count : Z
}.

Definition stats (t : RoutingTable) : RoutingTableStats :=
  mkRoutingTableStats (Z.of_nat (size (node_to_cell t)))
    (Z.of_nat (size (cell_to_zone t))) (Z.of_nat (size (cell_leaders t))).

(** Keys whose value is [v], in the map's iteration order. *)
Definition keys_with_value (v : string) (m : gmap string (string * Z)) : list string :=
  fst <$> filter (fun e => e.2.1 = v) (map_to_list m).

Definition get_cell_nodes (t : RoutingTable) (cell_id : string) : list string :=
  keys_with_value cell_id (node_to_cell t).

Definition get_zone_cells (t : RoutingTable) (zone_id : string) : list string :=
  keys_with_value zone_id (cell_to_zone t).

(** [for node_id in nodes { if self.assign_node(..) { count += 1 } }] *)
Definition assign_nodes (t : RoutingTable) (nodes : list string) (cell_id : string)
    (timestamp : Z) : Z * RoutingTable :=
  fold_left (fun '(count, t) node_id =>
    let '(ok, t) := assign_node t node_id cell_id timestamp in
    ((if ok then count + 1 else count), t)) nodes (0, t).

Definition merge_cells (t : RoutingTable) (source_cell_ids : list string)
    (merged_cell_id : string) (zone_id : option string) (timestamp : Z)
  : Z * RoutingTable :=
  let nodes_to_reassign := flat_map (get_cell_nodes t) source_cell_ids in
  let '(reassigned_count, t) := assign_nodes t nodes_to_reassign merged_cell_id timestamp in
  let t := match zone_id with
           | Some zid => snd (assign_cell t merged_cell_id zid timestamp)
           | None => t
           end in
  let t := fold_left (fun t cell_id =>
             let t := snd (remove_cell t cell_id timestamp) in
             snd (remove_cell_leader t cell_id timestamp)) source_cell_ids t in
  (reassigned_count, t).

Definition split_cell (t : RoutingTable) (source_cell_id cell_a_id cell_b_id : string)
    (nodes_for_a nodes_for_b : list string) (zone_id : option string) (timestamp : Z)
  : (Z * Z) * RoutingTable :=
  let '(count_a, t) := assign_nodes t nodes_for_a cell_a_id timestamp in
  let '(count_b, t) := assign_nodes t nodes_for_b cell_b_id timestamp in
  let t := match zone_id with
           | Some zid =>
               let t := snd (assign_cell t cell_a_id zid timestamp) in
               snd (assign_cell t cell_b_id zid timestamp)
           | None => t
           end in
  let t := snd (remove_cell t source_cell_id timestamp) in
  let t := snd (remove_cell_leader t source_cell_id timestamp) in
  ((count_a, count_b), t).

(** ** Each write is an LWW put on its own map *)

Lemma routing_table_eq t1 t2 :
  node_to_cell t1 = node_to_cell t2 -> cell_to_zone t1 = cell_to_zone t2 ->
  cell_leaders t1 = cell_leaders t2 -> t1 = t2.
Proof. destruct t1, t2; simpl; congruence. Qed.

Lemma assign_node_lww t n c ts :
  assign_node t n c ts =
  (lww_accepts (node_to_cell t) n ts,
   mkRoutingTable (lww_put (node_to_cell t) n c ts) (cell_to_zone t) (cell_leaders t)).
Proof.
  unfold assign_node, lww_accepts, lww_put. destruct t as [nc cz cl]; simpl.
  destruct (nc !! n) as [[? e]|]; [|done]. bool_arith; done || lia.
Qed.

Lemma assign_cell_lww t c z ts :
  assign_cell t c z ts =
  (lww_accepts (cell_to_zone t) c ts,
   mkRoutingTable (node_to_cell t) (lww_put (cell_to_zone t) c z ts) (cell_leaders t)).
Proof.
  unfold assign_cell, lww_accepts, lww_put. destruct t as [nc cz cl]; simpl.
  destruct (cz !! c) as [[? e]|]; [|done]. bool_arith; done || lia.
Qed.

Lemma set_cell_leader_lww t c l ts :
  set_cell_leader t c l ts =
  (lww_accepts (cell_leaders t) c ts,
   mkRoutingTable (node_to_cell t) (cell_to_zone t) (lww_put (cell_leaders t) c l ts)).
Proof.
  unfold set_cell_leader, lww_accepts, lww_put. destruct t as [nc cz cl]; simpl.
  destruct (cl !! c) as [[? e]|]; [|done]. bool_arith; done || lia.
Qed.

Lemma merge_entries_lww t ns cs ls :
  merge_entries t ns cs ls =
  mkRoutingTable (lww_put_all (node_to_cell t) ns) (lww_put_all (cell_to_zone t) cs)
    (lww_put_all (cell_leaders t) ls).
Proof.
  unfold merge_entries, lww_put_all.
  assert (forall t, fold_left (fun t '(n, (c, ts)) => snd (assign_node t n c ts)) ns t =
    mkRoutingTable (fold_left lww_put_entry ns (node_to_cell t)) (cell_to_zone t)
      (cell_leaders t)) as ->.
  { clear. induction ns as [|[n [c ts]] ns IH]; intros [nc cz cl]; simpl; [done|].
    by rewrite IH, assign_node_lww. }
  assert (forall t, fold_left (fun t '(n, (c, ts)) => snd (assign_cell t n c ts)) cs t =
    mkRoutingTable (node_to_cell t) (fold_left lww_put_entry cs (cell_to_zone t))
      (cell_leaders t)) as ->.
  { clear. induction cs as [|[n [c ts]] cs IH]; intros [nc cz cl]; simpl; [done|].
    by rewrite IH, assign_cell_lww. }
  simpl. generalize (fold_left lww_put_entry ns (node_to_cell t)) as nc.
  generalize (fold_left lww_put_entry cs (cell_to_zone t)) as cz.
  generalize (cell_leaders t) as cl. clear.
  induction ls as [|[n [c ts]] ls IH]; intros cl cz nc; simpl; [done|].
  rewrite set_cell_leader_lww; simpl. by rewrite IH.
Qed.

Lemma merge_lookup a b k :
  node_to_cell (merge a b) !! k = lww_join (node_to_cell a !! k) (node_to_cell b !! k) /\
  cell_to_zone (merge a b) !! k = lww_join (cell_to_zone a !! k) (cell_to_zone b !! k) /\
  cell_leaders (merge a b) !! k = lww_join (cell_leaders a !! k) (cell_leaders b !! k).
Proof.
  unfold merge. rewrite merge_entries_lww; simpl.
  split_and!; by apply lookup_lww_put_all_map.
Qed.

(** Rewrite the registers of a merged table at a key. *)
Ltac merge_at a b k :=
  let E1 := fresh in let E2 := fresh in let E3 := fresh in
  destruct (merge_lookup a b k) as (E1 & E2 & E3); rewrite ?E1, ?E2, ?E3; clear E1 E2 E3.

Lemma merge_ext a b r :
  (forall k, node_to_cell r !! k = lww_join (node_to_cell a !! k) (node_to_cell b !! k)) ->
  (forall k, cell_to_zone r !! k = lww_join (cell_to_zone a !! k) (cell_to_zone b !! k)) ->
  (forall k, cell_leaders r !! k = lww_join (cell_leaders a !! k) (cell_leaders b !! k)) ->
  r = merge a b.
Proof.
  intros H1 H2 H3. apply routing_table_eq; apply map_eq; intros k;
    merge_at a b k; auto.
Qed.

(** Replicas whose timestamps identify the write at every key. *)
Definition tables_agree (a b : RoutingTable) : Prop :=
  lww_maps_agree (node_to_cell a) (node_to_cell b) /\
  lww_maps_agree (cell_to_zone a) (cell_to_zone b) /\
  lww_maps_agree (cell_leaders a) (cell_leaders b).

Lemma tables_agree_refl t : tables_agree t t.
Proof. split_and!; intros k v w ts H1 H2; congruence. Qed.

Lemma tables_agree_sym t u : tables_agree t u -> tables_agree u t.
Proof. intros (H1 & H2 & H3). split_and!; intros k v w ts E1 E2; symmetry; [eapply H1|eapply H2|eapply H3]; eauto. Qed.

(** ** Replication: [merge] *)

(** [merge] is the pointwise last-write-wins join, for every order in which
    the hash maps of [other] are iterated. *)
Theorem merge_any_iteration_order a b ns cs ls :
  ns ≡ₚ map_to_list (node_to_cell b) -> cs ≡ₚ map_to_list (cell_to_zone b) ->
  ls ≡ₚ map_to_list (cell_leaders b) ->
  merge_entries a ns cs ls = merge a b.
Proof.
  intros Hn Hc Hl. apply merge_ext; intros k; rewrite merge_entries_lww; simpl;
    by apply lookup_lww_put_all_map.
Qed.

(** Merging is associative, whatever the timestamps. *)
Theorem merge_assoc a b c : merge a (merge b c) = merge (merge a b) c.
Proof.
  apply merge_ext; intros k; merge_at a (merge b c) k; merge_at b c k; merge_at a b k;
    apply lww_join_assoc.
Qed.

Theorem merge_idem a : merge a a = a.
Proof. symmetry. apply merge_ext; intros k; by rewrite lww_join_idem. Qed.

(** Merging is commutative when no key holds two values with one timestamp. *)
Theorem merge_comm a b : tables_agree a b -> merge a b = merge b a.
Proof.
  intros (H1 & H2 & H3). apply merge_ext; intros k;
    merge_at a b k; apply lww_join_comm; auto.
Qed.

Lemma merge_fold_lookup l : forall t k,
  node_to_cell (fold_left merge l t) !! k =
    lww_joins (node_to_cell t !! k) ((fun r => node_to_cell r !! k) <$> l) /\
  cell_to_zone (fold_left merge l t) !! k =
    lww_joins (cell_to_zone t !! k) ((fun r => cell_to_zone r !! k) <$> l) /\
  cell_leaders (fold_left merge l t) !! k =
    lww_joins (cell_leaders t !! k) ((fun r => cell_leaders r !! k) <$> l).
Proof.
  induction l as [|r l IH]; intros t k; simpl; [done|].
  destruct (IH (merge t r) k) as (E1 & E2 & E3). rewrite E1, E2, E3. by merge_at t r k.
Qed.

(** C2: gossip converges when a timestamp identifies a write: of any two of the tables
    involved, no key has entries with the same timestamp and different values
    ([tables_agree]; without it ties diverge, [merge_tie_diverges]). Two replicas that
    start from such tables and merge in the tables they hear, in any order, any grouping in
    time and with any repetitions, then hold the same table as soon as they have heard
    the same set of tables. *)
Theorem gossip_converges a l b l' :
  (forall t, t ∈ a :: l <-> t ∈ b :: l') ->
  (forall t u, t ∈ a :: l -> u ∈ a :: l -> tables_agree t u) ->
  fold_left merge l a = fold_left merge l' b.
Proof.
  intros Heq Ha. apply routing_table_eq; apply map_eq; intros k;
    destruct (merge_fold_lookup l a k) as (E1 & E2 & E3),
      (merge_fold_lookup l' b k) as (E4 & E5 & E6).
  - rewrite E1, E4. apply (lww_joins_fmap_set (fun r => node_to_cell r !! k)); [done|].
    intros t u Ht Hu. by apply Ha.
  - rewrite E2, E5. apply (lww_joins_fmap_set (fun r => cell_to_zone r !! k)); [done|].
    intros t u Ht Hu. by apply Ha.
  - rewrite E3, E6. apply (lww_joins_fmap_set (fun r => cell_leaders r !! k)); [done|].
    intros t u Ht Hu. by apply Ha.
Qed.

(** Two replicas that assigned the same node at the same timestamp to different
    cells keep disagreeing after merging both ways. *)
Theorem merge_tie_diverges :
  let a := snd (assign_node new "n1" "cell_a" 5) in
  let b := snd (assign_node new "n1" "cell_b" 5) in
  get_node_cell (merge a b) "n1" = Some "cell_a" /\
  get_node_cell (merge b a) "n1" = Some "cell_b".
Proof. vm_compute. done. Qed.

(** A removal leaves no tombstone: merging a replica that still has the entry
    brings the node back, although the removal carries a later timestamp. *)
Theorem removal_undone_by_merge t n c ts0 ts1 :
  node_to_cell t !! n = Some (c, ts0) -> ts0 < ts1 ->
  fst (remove_node t n ts1) = true /\
  get_node_cell (snd (remove_node t n ts1)) n = None /\
  get_node_cell (merge (snd (remove_node t n ts1)) t) n = Some c.
Proof.
  intros Hn Hlt. unfold remove_node. rewrite Hn.
  destruct (Z.ltb_spec ts1 ts0) as [?|_]; [lia|]. simpl.
  unfold get_node_cell. simpl. rewrite lookup_delete_eq.
  merge_at (mkRoutingTable (delete n (node_to_cell t)) (cell_to_zone t) (cell_leaders t)) t n.
  simpl. by rewrite lookup_delete_eq, Hn.
Qed.

(** ** Convergence of the write stream

    A replica receives assignments one at a time, in an order of its own. *)

Inductive write :=
| WNode (node_id cell_id : string) (timestamp : Z)
| WCell (cell_id zone_id : string) (timestamp : Z)
| WLeader (cell_id leader_id : string) (timestamp : Z).

Definition apply_write (t : RoutingTable) (w : write) : RoutingTable :=
  match w with
  | WNode n c ts => snd (assign_node t n c ts)
  | WCell c z ts => snd (assign_cell t c z ts)
  | WLeader c l ts => snd (set_cell_leader t c l ts)
  end.

Definition apply_writes (t : RoutingTable) (ws : list write) : RoutingTable :=
  fold_left apply_write ws t.

Definition as_node_write (w : write) : option (string * (string * Z)) :=
  match w with WNode n c ts => Some (n, (c, ts)) | _ => None end.

Definition as_cell_write (w : write) : option (string * (string * Z)) :=
  match w with WCell n c ts => Some (n, (c, ts)) | _ => None end.

Definition as_leader_write (w : write) : option (string * (string * Z)) :=
  match w with WLeader n c ts => Some (n, (c, ts)) | _ => None end.

(** No two writes of the stream give one register different values at one time. *)
Definition writes_agree (ws : list write) : Prop :=
  lww_entries_agree (omap as_node_write ws) /\
  lww_entries_agree (omap as_cell_write ws) /\
  lww_entries_agree (omap as_leader_write ws).

Lemma apply_writes_lww ws : forall t,
  apply_writes t ws =
  mkRoutingTable (lww_put_all (node_to_cell t) (omap as_node_write ws))
    (lww_put_all (cell_to_zone t) (omap as_cell_write ws))
    (lww_put_all (cell_leaders t) (omap as_leader_write ws)).
Proof.
  induction ws as [|w ws IH]; intros [nc cz cl]; [done|].
  unfold apply_writes in *. cbn [fold_left]. rewrite IH.
  destruct w; simpl; by rewrite ?assign_node_lww, ?assign_cell_lww, ?set_cell_leader_lww.
Qed.

(** C1: two replicas that receive the same assignments of nodes, cells and leaders, each
    in its own order, end up with the same table, when a timestamp identifies the value
    written to a key. *)
Theorem writes_converge t ws ws' :
  ws ≡ₚ ws' -> writes_agree ws -> apply_writes t ws = apply_writes t ws'.
Proof.
  intros Hp (H1 & H2 & H3). rewrite !apply_writes_lww.
  f_equal; apply lww_put_all_perm; try done; by rewrite Hp.
Qed.

(** ** Reassigning nodes *)

Definition assignable (t : RoutingTable) (ts : Z) (n : string) : Prop :=
  lww_accepts (node_to_cell t) n ts = true.

#[export] Instance assignable_dec t ts n : Decision (assignable t ts n).
Proof. unfold assignable. apply _. Defined.

Lemma lookup_keys_with_value v m k :
  k ∈ keys_with_value v m <-> exists ts, m !! k = Some (v, ts).
Proof.
  unfold keys_with_value. rewrite list_elem_of_fmap. split.
  - intros ([k' [v' ts]] & -> & H). apply list_elem_of_filter in H as [Hv Hin].
    simpl in *; subst. exists ts. by apply elem_of_map_to_list.
  - intros [ts H]. exists (k, (v, ts)). split; [done|].
    apply list_elem_of_filter. split; [done|]. by apply elem_of_map_to_list.
Qed.

Lemma get_cell_nodes_spec t cell n :
  n ∈ get_cell_nodes t cell <-> get_node_cell t n = Some cell.
Proof.
  unfold get_cell_nodes, get_node_cell. rewrite lookup_keys_with_value.
  destruct (node_to_cell t !! n) as [[c ts]|]; simpl; naive_solver.
Qed.

Lemma NoDup_get_cell_nodes t cell : NoDup (get_cell_nodes t cell).
Proof.
  unfold get_cell_nodes, keys_with_value.
  apply (sublist_NoDup _ (map_to_list (node_to_cell t)).*1); [apply NoDup_fst_map_to_list|].
  apply fmap_sublist, sublist_filter.
Qed.

Lemma assignable_after_assign nc cz cl n cell ts (S : gset string) :
  filter (assignable (mkRoutingTable (lww_put nc n cell ts) cz cl) ts) S =
  filter (assignable (mkRoutingTable nc cz cl) ts) S ∖ {[n]}.
Proof.
  apply set_eq; intros x. rewrite elem_of_difference, !elem_of_filter, elem_of_singleton.
  unfold assignable, lww_accepts; simpl. rewrite lookup_lww_put.
  case_decide as D; [subst x|naive_solver].
  destruct (nc !! n) as [[w e]|]; simpl; repeat (progress bool_arith; simpl); naive_solver lia.
Qed.

(** The loop over the nodes, from any starting count. *)
Lemma assign_nodes_loop nodes cell ts : forall count t,
  fold_left (fun '(count, t) node_id =>
    let '(ok, t) := assign_node t node_id cell ts in
    ((if ok then count + 1 else count), t)) nodes (count, t) =
  (count + Z.of_nat (size (filter (assignable t ts) (list_to_set nodes : gset string))),
   mkRoutingTable (fold_left (fun m n => lww_put m n cell ts) nodes (node_to_cell t))
     (cell_to_zone t) (cell_leaders t)).
Proof.
  induction nodes as [|n nodes IH]; intros count [nc cz cl].
  - simpl. rewrite (proj2 (size_empty_iff (filter _ _))) by set_solver. f_equal. lia.
  - cbn [fold_left]. rewrite assign_node_lww; cbn [node_to_cell cell_to_zone cell_leaders].
    rewrite IH; cbn [node_to_cell cell_to_zone cell_leaders]. f_equal.
    rewrite assignable_after_assign.
    change (list_to_set (n :: nodes) : gset string)
      with ({[n]} ∪ list_to_set nodes : gset string).
    rewrite size_filter_insert. case_decide as D; unfold assignable in D; simpl in D.
    + rewrite D. lia.
    + destruct (lww_accepts nc n ts); done || lia.
Qed.

Lemma lookup_put_each nodes cell ts : forall (m : gmap string (string * Z)) k,
  fold_left (fun m n => lww_put m n cell ts) nodes m !! k =
  if decide (k ∈ nodes) then lww_join (m !! k) (Some (cell, ts)) else m !! k.
Proof.
  induction nodes as [|n nodes IH]; intros m k; simpl; [done|].
  rewrite IH, lookup_lww_put.
  destruct (decide (n = k)) as [->|Hne].
  - rewrite (decide_True (P := k ∈ k :: nodes)) by set_solver.
    case_decide; [|done]. by rewrite <- lww_join_assoc, lww_join_idem.
  - destruct (decide (k ∈ nodes)); [rewrite decide_True by set_solver; done|].
    by rewrite decide_False by set_solver.
Qed.

Lemma assign_nodes_spec t nodes cell ts :
  assign_nodes t nodes cell ts =
  (Z.of_nat (size (filter (assignable t ts) (list_to_set nodes : gset string))),
   mkRoutingTable (fold_left (fun m n => lww_put m n cell ts) nodes (node_to_cell t))
     (cell_to_zone t) (cell_leaders t)).
Proof. apply assign_nodes_loop. Qed.

(** ** Cell merge and split *)

Lemma remove_cell_lww t c ts :
  snd (remove_cell t c ts) =
  mkRoutingTable (node_to_cell t) (lww_del (cell_to_zone t) c ts) (cell_leaders t).
Proof.
  unfold remove_cell, lww_del. destruct t as [nc cz cl]; simpl.
  destruct (cz !! c) as [[? e]|]; [|done]. by bool_arith.
Qed.

Lemma remove_cell_leader_lww t c ts :
  snd (remove_cell_leader t c ts) =
  mkRoutingTable (node_to_cell t) (cell_to_zone t) (lww_del (cell_leaders t) c ts).
Proof.
  unfold remove_cell_leader, lww_del. destruct t as [nc cz cl]; simpl.
  destruct (cl !! c) as [[? e]|]; [|done]. by bool_arith.
Qed.

Lemma remove_cells_lww srcs ts : forall t,
  fold_left (fun t cell_id =>
      let t := snd (remove_cell t cell_id ts) in
      snd (remove_cell_leader t cell_id ts)) srcs t =
  mkRoutingTable (node_to_cell t)
    (fold_left (fun m k => lww_del m k ts) srcs (cell_to_zone t))
    (fold_left (fun m k => lww_del m k ts) srcs (cell_leaders t)).
Proof.
  induction srcs as [|c srcs IH]; intros [nc cz cl]; [done|]. cbn [fold_left].
  rewrite IH. cbv zeta. by rewrite remove_cell_leader_lww, remove_cell_lww.
Qed.

Lemma assign_zone_lww t c z ts :
  match z with Some zid => snd (assign_cell t c zid ts) | None => t end =
  mkRoutingTable (node_to_cell t)
    (match z with Some zid => lww_put (cell_to_zone t) c zid ts | None => cell_to_zone t end)
    (cell_leaders t).
Proof. destruct z; [by rewrite assign_cell_lww|by destruct t]. Qed.

(** Nodes that a cell merge moves: those of a source cell whose assignment is
    older than the operation. *)
Definition moved_by_merge (t : RoutingTable) (srcs : list string) (ts : Z)
  : gmap string (string * Z) :=
  filter (fun e => e.2.1 ∈ srcs /\ e.2.2 < ts) (node_to_cell t).

Lemma elem_of_source_nodes t srcs n :
  n ∈ flat_map (get_cell_nodes t) srcs <->
  exists c e, node_to_cell t !! n = Some (c, e) /\ c ∈ srcs.
Proof.
  rewrite list_elem_of_In, in_flat_map. setoid_rewrite <- list_elem_of_In.
  split.
  - intros (c & Hc & Hn). apply lookup_keys_with_value in Hn as [e He]. eauto.
  - intros (c & e & He & Hc). exists c. split; [done|]. apply lookup_keys_with_value. eauto.
Qed.

Lemma moved_by_merge_dom t srcs ts :
  filter (assignable t ts) (list_to_set (flat_map (get_cell_nodes t) srcs) : gset string) =
  dom (moved_by_merge t srcs ts).
Proof.
  apply set_eq; intros n. unfold moved_by_merge.
  rewrite elem_of_filter, elem_of_list_to_set, elem_of_source_nodes, elem_of_dom.
  unfold is_Some. setoid_rewrite map_lookup_filter_Some; simpl.
  unfold assignable, lww_accepts. split.
  - intros (Ha & c & e & He & Hc). rewrite He in Ha. exists (c, e); simpl.
    apply Z.ltb_lt in Ha. auto.
  - intros ([c e] & He & Hc & Hts); simpl in *. rewrite He. split; [by apply Z.ltb_lt|eauto].
Qed.

Theorem merge_cells_spec t srcs merged zone ts :
  let '(count, t') := merge_cells t srcs merged zone ts in
  count = Z.of_nat (size (moved_by_merge t srcs ts)) /\
  (forall n, node_to_cell t' !! n =
     match node_to_cell t !! n with
     | Some (c, e) => if bool_decide (c ∈ srcs /\ e < ts) then Some (merged, ts) else Some (c, e)
     | None => None
     end) /\
  (forall c, c ∉ srcs -> cell_to_zone t' !! c =
     if decide (merged = c)
     then lww_join (cell_to_zone t !! c) ((fun z => (z, ts)) <$> zone)
     else cell_to_zone t !! c) /\
  (forall c, c ∈ srcs -> c <> merged ->
     cell_to_zone t' !! c = lww_keep ts (cell_to_zone t !! c)) /\
  (forall c, cell_leaders t' !! c =
     if decide (c ∈ srcs) then lww_keep ts (cell_leaders t !! c) else cell_leaders t !! c).
Proof.
  unfold merge_cells. rewrite assign_nodes_spec. cbv beta iota zeta.
  rewrite assign_zone_lww, remove_cells_lww; simpl.
  rewrite moved_by_merge_dom, size_dom. split_and!; [done|..].
  - intros n. rewrite lookup_put_each.
    destruct (node_to_cell t !! n) as [[c e]|] eqn:E; simpl.
    + case_decide as D; rewrite elem_of_source_nodes in D; case_bool_decide as B.
      * bool_arith; [lia|done].
      * destruct D as (c' & e' & E' & ?). simplify_eq. bool_arith; [done|tauto].
      * naive_solver.
      * done.
    + rewrite decide_False; [done|]. rewrite elem_of_source_nodes. naive_solver.
  - intros c Hc. rewrite lookup_del_each, decide_False by done.
    destruct zone as [z|]; simpl; [by rewrite lookup_lww_put; case_decide; subst|].
    case_decide; [by rewrite lww_join_None_r|done].
  - intros c Hc Hne. rewrite lookup_del_each, decide_True by done.
    destruct zone as [z|]; [|done]. by rewrite lookup_lww_put, decide_False by done.
  - intros c. apply lookup_del_each.
Qed.

(** C3: with a timestamp newer than every entry it touches, a merge dissolves its
    source cells and loses no node. *)
Theorem merge_cells_dissolves t srcs merged zone ts :
  merged ∉ srcs ->
  (forall n c e, node_to_cell t !! n = Some (c, e) -> c ∈ srcs -> e < ts) ->
  (forall c z e, cell_to_zone t !! c = Some (z, e) -> c ∈ srcs -> e <= ts) ->
  let t' := snd (merge_cells t srcs merged zone ts) in
  (forall c, c ∈ srcs -> get_cell_nodes t' c = [] /\ get_cell_zone t' c = None) /\
  (forall n, n ∈ get_cell_nodes t' merged <->
     n ∈ get_cell_nodes t merged \/ n ∈ flat_map (get_cell_nodes t) srcs) /\
  dom (node_to_cell t') = dom (node_to_cell t).
Proof.
  intros Hm Hn Hz. pose proof (merge_cells_spec t srcs merged zone ts) as Hs.
  destruct (merge_cells t srcs merged zone ts) as [count t']. simpl.
  destruct Hs as (_ & Hnodes & _ & Hzone & _). split_and!.
  - intros c Hc. split.
    + apply elem_of_nil_inv. intros n Hin. apply get_cell_nodes_spec in Hin.
      unfold get_node_cell in Hin. rewrite Hnodes in Hin.
      destruct (node_to_cell t !! n) as [[c0 e]|] eqn:E; [|done].
      case_bool_decide as B; simplify_eq/=; [done|]. apply B. eauto.
    + unfold get_cell_zone. rewrite Hzone by (done || by intros ->).
      destruct (cell_to_zone t !! c) as [[z e]|] eqn:E; [|done]. simpl.
      specialize (Hz c z e E Hc). bool_arith; [lia|done].
  - intros n. rewrite !get_cell_nodes_spec, elem_of_source_nodes.
    unfold get_node_cell. rewrite Hnodes.
    destruct (node_to_cell t !! n) as [[c0 e]|] eqn:E; simpl; [|naive_solver].
    case_bool_decide as B; naive_solver.
  - apply set_eq; intros n. rewrite !elem_of_dom, Hnodes.
    destruct (node_to_cell t !! n) as [[c0 e]|]; [|done].
    case_bool_decide; split; eauto.
Qed.

Lemma lww_join_same_stamp (a : option (string * Z)) v w ts :
  lww_join (lww_join a (Some (v, ts))) (Some (w, ts)) = lww_join a (Some (v, ts)).
Proof.
  destruct a as [[u e]|]; simpl; [|by rewrite Z.leb_refl].
  repeat (progress bool_arith; simpl); done || lia.
Qed.

(** A split sends each listed node to its side unless the stored assignment is
    newer; a node listed on both sides goes to the first one. Only the source
    cell loses its zone and its leader. *)
Theorem split_cell_spec t src a b ns_a ns_b zone ts :
  let '((count_a, count_b), t') := split_cell t src a b ns_a ns_b zone ts in
  count_a = Z.of_nat (size (filter (assignable t ts) (list_to_set ns_a : gset string))) /\
  (ns_a ## ns_b ->
   count_b = Z.of_nat (size (filter (assignable t ts) (list_to_set ns_b : gset string)))) /\
  (forall n, node_to_cell t' !! n =
     if decide (n ∈ ns_a) then lww_join (node_to_cell t !! n) (Some (a, ts))
     else if decide (n ∈ ns_b) then lww_join (node_to_cell t !! n) (Some (b, ts))
     else node_to_cell t !! n) /\
  (forall c, c <> src -> cell_to_zone t' !! c =
     if decide (c = a \/ c = b)
     then lww_join (cell_to_zone t !! c) ((fun z => (z, ts)) <$> zone)
     else cell_to_zone t !! c) /\
  (src <> a -> src <> b -> cell_to_zone t' !! src = lww_keep ts (cell_to_zone t !! src)) /\
  (forall c, cell_leaders t' !! c =
     if decide (src = c) then lww_keep ts (cell_leaders t !! src) else cell_leaders t !! c).
Proof.
  unfold split_cell. rewrite !assign_nodes_spec. cbv beta iota zeta.
  assert (forall tt, (match zone with
           | Some zid => snd (assign_cell (snd (assign_cell tt a zid ts)) b zid ts)
           | None => tt end) =
    mkRoutingTable (node_to_cell tt)
      (match zone with
       | Some zid => lww_put (lww_put (cell_to_zone tt) a zid ts) b zid ts
       | None => cell_to_zone tt end) (cell_leaders tt)) as ->.
  { intros tt. destruct zone; [by rewrite !assign_cell_lww|by destruct tt]. }
  rewrite remove_cell_leader_lww, remove_cell_lww; simpl.
  assert (forall c, (match zone with
       | Some zid => lww_put (lww_put (cell_to_zone t) a zid ts) b zid ts
       | None => cell_to_zone t end) !! c =
     if decide (c = a \/ c = b)
     then lww_join (cell_to_zone t !! c) ((fun z => (z, ts)) <$> zone)
     else cell_to_zone t !! c) as Hz.
  { intros c. destruct zone as [z|]; simpl.
    - rewrite !lookup_lww_put. destruct (decide (c = a \/ c = b)) as [D|D].
      + destruct (decide (b = c)), (decide (a = c)), (decide (a = b)); subst;
          rewrite ?lww_join_same_stamp; done || naive_solver.
      + rewrite !decide_False; naive_solver.
    - by case_decide; rewrite ?lww_join_None_r. }
  split_and!; [done|..].
  - intros Hdisj. f_equal. f_equal. apply set_eq; intros x.
    rewrite !elem_of_filter, elem_of_list_to_set. unfold assignable, lww_accepts; simpl.
    rewrite lookup_put_each. destruct (decide (x ∈ ns_a)) as [Ha|Ha]; [|done].
    split; intros [_ Hb]; by destruct (Hdisj x Ha Hb).
  - intros n. rewrite !lookup_put_each. repeat case_decide; try done.
    by rewrite lww_join_same_stamp.
  - intros c Hc. rewrite lookup_lww_del, decide_False by done. apply Hz.
  - intros Ha Hb. rewrite lookup_lww_del, decide_True, Hz by done.
    by rewrite decide_False by tauto.
  - intros c. rewrite lookup_lww_del. by case_decide; subst.
Qed.

(** ** Concrete instances *)

Lemma writes_converge_witness :
  let w1 := WNode "n1" "c1" 1 in let w2 := WNode "n1" "c2" 2 in
  apply_writes new [w1; w2] = apply_writes new [w2; w1].
Proof.
  apply (writes_converge new [WNode "n1" "c1" 1; WNode "n1" "c2" 2]).
  - apply perm_swap.
  - split_and!; intros k v w ts; simpl; set_solver.
Defined.

Lemma merge_comm_witness :
  let a := snd (assign_node new "n1" "c1" 1) in let b := snd (assign_node new "n1" "c2" 2) in
  merge a b = merge b a.
Proof.
  apply (merge_comm (snd (assign_node new "n1" "c1" 1)) (snd (assign_node new "n1" "c2" 2))).
  split_and!; intros k v w ts; try done.
  change (node_to_cell (snd (assign_node new "n1" "c1" 1))) with
    ({["n1"%string := ("c1"%string, 1)]} : gmap string (string * Z)).
  change (node_to_cell (snd (assign_node new "n1" "c2" 2))) with
    ({["n1"%string := ("c2"%string, 2)]} : gmap string (string * Z)).
  intros [_ [= _ <-]]%lookup_singleton_Some [_ [= _ E]]%lookup_singleton_Some.
Defined.

Lemma gossip_converges_witness :
  let a := snd (assign_node new "n1" "c1" 1) in let b := snd (assign_node new "n2" "c2" 1) in
  fold_left merge [b; b] a = fold_left merge [a] b.
Proof.
  apply (gossip_converges (snd (assign_node new "n1" "c1" 1)) [snd (assign_node new "n2" "c2" 1); _]).
  - intros t. set_solver.
  - assert (tables_agree (snd (assign_node new "n1" "c1" 1)) (snd (assign_node new "n2" "c2" 1))) as H.
    { split_and!; intros k v w ts; try done.
      change (node_to_cell (snd (assign_node new "n1" "c1" 1))) with
        ({["n1"%string := ("c1"%string, 1)]} : gmap string (string * Z)).
      change (node_to_cell (snd (assign_node new "n2" "c2" 1))) with
        ({["n2"%string := ("c2"%string, 1)]} : gmap string (string * Z)).
      intros [<- _]%lookup_singleton_Some [[=] _]%lookup_singleton_Some. }
    intros t u Ht Hu. rewrite !elem_of_cons in Ht, Hu.
    destruct Ht as [->|[->|[->|[]%not_elem_of_nil]]], Hu as [->|[->|[->|[]%not_elem_of_nil]]];
      apply tables_agree_refl || exact H || (apply tables_agree_sym; exact H).
Defined.

Lemma merge_cells_dissolves_witness :
  let t := snd (assign_node (snd (assign_node new "n1" "c1" 1)) "n2" "c2" 2) in
  dom (node_to_cell (snd (merge_cells t ["c1"; "c2"]%string "c3" None 5))) = dom (node_to_cell t).
Proof.
  apply (merge_cells_dissolves (snd (assign_node (snd (assign_node new "n1" "c1" 1)) "n2" "c2" 2))).
  - set_solver.
  - intros n c e Hn _.
    change (node_to_cell _) with (<["n2"%string := ("c2"%string, 2)]>
      (<["n1"%string := ("c1"%string, 1)]> ∅) : gmap string (string * Z)) in Hn.
    apply lookup_insert_Some in Hn as [[_ [= _ <-]]|[_ Hn]]; [lia|].
    apply lookup_insert_Some in Hn as [[_ [= _ <-]]|[_ Hn]]; [lia|]. done.
  - intros c z e Hc. done.
Defined.

Lemma removal_undone_by_merge_witness :
  let t := snd (assign_node new "n1" "c1" 1) in
  get_node_cell (merge (snd (remove_node t "n1" 2)) t) "n1" = Some "c1"%string.
Proof.
  apply (removal_undone_by_merge (snd (assign_node new "n1" "c1" 1)) "n1" "c1" 1 2).
  - reflexivity.
  - lia.
Defined.
