(* ===== verification/Capability.v ===== *)
(** * Timestamps and capabilities

    Models the messages [Timestamp] (peat-schema/proto/common.proto) and
    [Capability] (peat-schema/proto/capability.proto) and the extension trait of
    peat-protocol/src/models/capability.rs. A protobuf enum field is an [i32];
    [try_from] is the decoding that rejects unknown numbers. A [float] is an IEEE
    binary32 value of the standard library's executable specification. *)

From S2P Require Import Prelude.
From Stdlib Require Import SpecFloat.

Record Timestamp := mkTimestamp { seconds : Z; nanos : Z }.

#[export] Instance Timestamp_eq_dec : EqDecision Timestamp.
Proof. solve_decision. Defined.

(** [Some(Timestamp { seconds: now, nanos: 0 })] *)
Definition timestamp_now (now : Z) : option Timestamp := Some (mkTimestamp now 0).

(** [timestamp.as_ref().map(|t| t.seconds).unwrap_or(0)] *)
Definition seconds_or_zero (t : option Timestamp) : Z :=
  match t with Some t => seconds t | None => 0 end.

Inductive CapabilityType :=
| Unspecified | Sensor | Compute | Communication | Mobility | Payload | Emergent.

#[export] Instance CapabilityType_eq_dec : EqDecision CapabilityType.
Proof. solve_decision. Defined.

Definition capability_type_to_i32 (ty : CapabilityType) : Z :=
  match ty with
  | Unspecified => 0 | Sensor => 1 | Compute => 2 | Communication => 3
  | Mobility => 4 | Payload => 5 | Emergent => 6
  end.

Definition capability_type_try_from (z : Z) : option CapabilityType :=
  match z with
  | 0 => Some Unspecified | 1 => Some Sensor | 2 => Some Compute
  | 3 => Some Communication | 4 => Some Mobility | 5 => Some Payload
  | 6 => Some Emergent | _ => None
  end.

#[export] Instance spec_float_eq_dec : EqDecision spec_float.
Proof. solve_decision. Defined.

Record Capability := mkCapability {
  id : string;
  name : string;
  capability_type : Z;
  confidence : spec_float;
  metadata_json : string;
  registered_at : option Timestamp
}.

#[export] Instance Capability_eq_dec : EqDecision Capability.
Proof. solve_decision. Defined.

(** binary32 constants 0.0 and 1.0 *)
Definition f32_zero : spec_float := S754_zero false.
Definition f32_one : spec_float := S754_finite false 8388608 (-23).

(** [x.clamp(lo, hi)]: a NaN is returned as it is. *)
Definition f32_clamp (x lo hi : spec_float) : spec_float :=
  let x := if SFltb x lo then lo else x in
  if SFltb hi x then hi else x.

Definition capability_new (id name : string) (ty : CapabilityType) (conf : spec_float)
  : Capability :=
  mkCapability id name (capability_type_to_i32 ty) (f32_clamp conf f32_zero f32_one)
    EmptyString None.

Definition get_capability_type (c : Capability) : CapabilityType :=
  match capability_type_try_from (capability_type c) with
  | Some ty => ty
  | None => Unspecified
  end.

Definition set_capability_type (c : Capability) (ty : CapabilityType) : Capability :=
  mkCapability (id c) (name c) (capability_type_to_i32 ty) (confidence c)
    (metadata_json c) (registered_at c).

(** [self.confidence >= threshold] *)
Definition capability_is_valid (c : Capability) (threshold : spec_float) : bool :=
  SFleb threshold (confidence c).

Lemma capability_type_decode_encode ty :
  capability_type_try_from (capability_type_to_i32 ty) = Some ty.
Proof. by destruct ty. Qed.

(** The type of a capability survives the protobuf encoding, and a number the
    enum does not have reads back as [Unspecified]. *)
Theorem capability_type_roundtrip c ty :
  get_capability_type (set_capability_type c ty) = ty /\
  (capability_type_try_from (capability_type c) = None -> get_capability_type c = Unspecified).
Proof.
  unfold get_capability_type, set_capability_type; simpl.
  rewrite capability_type_decode_encode. split; [done|]. by intros ->.
Qed.

(** A capability built by [new] never stores a confidence below 0 or above 1. *)
Theorem capability_new_confidence_bounds i n ty conf :
  SFltb (confidence (capability_new i n ty conf)) f32_zero = false /\
  SFltb f32_one (confidence (capability_new i n ty conf)) = false.
Proof.
  simpl. unfold f32_clamp.
  destruct (SFltb conf f32_zero) eqn:E0; [done|].
  destruct (SFltb f32_one conf) eqn:E1; done.
Qed.
