(* ===== verification/CellState.v ===== *)
(** * Cell state

    Models the messages [CellConfig] and [CellState]
    (peat-schema/proto/cell.proto) and the extension traits of
    peat-protocol/src/models/cell/mod.rs. The wall clock read by
    [update_timestamp] is the argument [now], in seconds; a generated UUID is an
    argument. A [&mut self] method returns the new state, after its value when it
    has one. *)

From S2P Require Import Prelude Capability.

Record CellConfig := mkCellConfig {
  cfg_id : string;
  max_size : Z;
  min_size : Z;
  created_at : option Timestamp
}.

#[export] Instance CellConfig_eq_dec : EqDecision CellConfig.
Proof. solve_decision. Defined.

Record CellState := mkCellState {
  config : option CellConfig;
  leader_id : option string;
  members : list string;
  capabilities : list Capability;
  cohort_id : option string;
  timestamp : option Timestamp
}.

#[export] Instance CellState_eq_dec : EqDecision CellState.
Proof. solve_decision. Defined.

Definition config_new (uuid : string) (now : Z) (max : Z) : CellConfig :=
  mkCellConfig uuid max 2 (timestamp_now now).

Definition config_with_id (now : Z) (id : string) (max : Z) : CellConfig :=
  mkCellConfig id max 2 (timestamp_now now).

Definition cell_new (now : Z) (cfg : CellConfig) : CellState :=
  mkCellState (Some cfg) None [] [] None (timestamp_now now).

Definition update_timestamp (now : Z) (c : CellState) : CellState :=
  mkCellState (config c) (leader_id c) (members c) (capabilities c) (cohort_id c)
    (timestamp_now now).

Definition cell_is_full (c : CellState) : bool :=
  match config c with
  | Some cfg => max_size cfg <=? len (members c)
  | None => false
  end.

Definition cell_is_valid (c : CellState) : bool :=
  match config c with
  | Some cfg => min_size cfg <=? len (members c)
  | None => false
  end.

Definition set_members (c : CellState) (ms : list string) : CellState :=
  mkCellState (config c) (leader_id c) ms (capabilities c) (cohort_id c) (timestamp c).

Definition set_leader_id (c : CellState) (l : option string) : CellState :=
  mkCellState (config c) l (members c) (capabilities c) (cohort_id c) (timestamp c).

Definition add_member (now : Z) (c : CellState) (node_id : string) : bool * CellState :=
  if cell_is_full c then (false, c)
  else if bool_decide (node_id ∈ members c) then (false, c)
  else (true, update_timestamp now (set_members c (members c ++ [node_id]))).

Definition remove_member (now : Z) (c : CellState) (node_id : string) : bool * CellState :=
  if bool_decide (node_id ∈ members c) then
    let c := update_timestamp now (set_members c (remove_first node_id (members c))) in
    if bool_decide (leader_id c = Some node_id) then (true, set_leader_id c None)
    else (true, c)
  else (false, c).

Definition set_leader (now : Z) (c : CellState) (node_id : string)
  : result string unit * CellState :=
  if bool_decide (node_id ∈ members c) then
    (Ok tt, update_timestamp now (set_leader_id c (Some node_id)))
  else (Err "Leader must be a cell member"%string, c).

Definition clear_leader (now : Z) (c : CellState) : CellState :=
  update_timestamp now (set_leader_id c None).

Definition add_capability (now : Z) (c : CellState) (cap : Capability) : CellState :=
  if has_key id (capabilities c) (id cap) then c
  else update_timestamp now
    (mkCellState (config c) (leader_id c) (members c) (capabilities c ++ [cap])
       (cohort_id c) (timestamp c)).

Definition get_capabilities_by_type (c : CellState) (ty : CapabilityType)
  : list Capability :=
  filter (fun cap => get_capability_type cap = ty) (capabilities c).

Definition has_capability_type (c : CellState) (ty : CapabilityType) : bool :=
  existsb (fun cap => bool_decide (get_capability_type cap = ty)) (capabilities c).

Definition assign_cohort (now : Z) (c : CellState) (cohort : string) : CellState :=
  update_timestamp now
    (mkCellState (config c) (leader_id c) (members c) (capabilities c) (Some cohort)
       (timestamp c)).

Definition leave_cohort (now : Z) (c : CellState) : CellState :=
  update_timestamp now
    (mkCellState (config c) (leader_id c) (members c) (capabilities c) None (timestamp c)).

Definition cell_merge (c other : CellState) : CellState :=
  let ms := fold_left (fun ms m => if bool_decide (m ∈ ms) then ms else ms ++ [m])
              (members other) (members c) in
  let caps := fold_left (fun caps cap =>
                if has_key id caps (id cap) then caps else caps ++ [cap])
                (capabilities other) (capabilities c) in
  let self_ts := seconds_or_zero (timestamp c) in
  let other_ts := seconds_or_zero (timestamp other) in
  if self_ts <? other_ts then
    mkCellState (config c) (leader_id other) ms caps (cohort_id other) (timestamp other)
  else mkCellState (config c) (leader_id c) ms caps (cohort_id c) (timestamp c).

Definition member_count (c : CellState) : Z := len (members c).

Definition is_member (c : CellState) (node_id : string) : bool :=
  existsb (fun m => bool_decide (m = node_id)) (members c).

Definition is_leader (c : CellState) (node_id : string) : bool :=
  bool_decide (leader_id c = Some node_id).

Definition get_id (c : CellState) : option string := cfg_id <$> config c.

(** ** Well-formed cells *)

Definition leader_ok (c : CellState) : Prop :=
  match leader_id c with Some l => l ∈ members c | None => True end.

Record cell_wf (c : CellState) : Prop := {
  wf_members : NoDup (members c);
  wf_capabilities : NoDup (id <$> capabilities c);
  wf_leader : leader_ok c
}.

(** Everything a replica does to a cell: a local operation at some time, or a
    merge of a state received from a replica that is itself well formed. *)
Inductive cell_step : CellState -> CellState -> Prop :=
| step_add_member now c n : cell_step c (snd (add_member now c n))
| step_remove_member now c n : cell_step c (snd (remove_member now c n))
| step_set_leader now c n : cell_step c (snd (set_leader now c n))
| step_clear_leader now c : cell_step c (clear_leader now c)
| step_add_capability now c cap : cell_step c (add_capability now c cap)
| step_assign_cohort now c h : cell_step c (assign_cohort now c h)
| step_leave_cohort now c : cell_step c (leave_cohort now c)
| step_merge c other : cell_wf other -> cell_step c (cell_merge c other).

Lemma merge_members_union_by (l k : list string) :
  fold_left (fun ms m => if bool_decide (m ∈ ms) then ms else ms ++ [m]) k l =
  union_by (fun x => x) l k.
Proof.
  revert l; induction k as [|x k IH]; intros l; simpl; [done|].
  rewrite IH, union_by_cons. f_equal. unfold push_absent. by rewrite has_key_id.
Qed.

Lemma cell_merge_members a b :
  members (cell_merge a b) = union_by (fun x => x) (members a) (members b).
Proof. unfold cell_merge. case_match; simpl; apply merge_members_union_by. Qed.

Lemma cell_merge_capabilities a b :
  capabilities (cell_merge a b) = union_by id (capabilities a) (capabilities b).
Proof. unfold cell_merge. by case_match. Qed.

Lemma elem_of_merge_members a b x :
  x ∈ members (cell_merge a b) <-> x ∈ members a \/ x ∈ members b.
Proof. rewrite cell_merge_members. apply elem_of_union_id. Qed.

Lemma NoDup_merge_members a b :
  NoDup (members a) -> NoDup (members (cell_merge a b)).
Proof. rewrite cell_merge_members. apply NoDup_union_id. Qed.

Lemma cell_wf_new now cfg : cell_wf (cell_new now cfg).
Proof. split; [constructor|constructor|done]. Qed.

Lemma cell_wf_add_member now c n : cell_wf c -> cell_wf (snd (add_member now c n)).
Proof.
  intros [Hm Hc Hl]. unfold add_member. destruct (cell_is_full c); [done|].
  case_bool_decide; [done|]. split; simpl; [|done|].
  - by apply NoDup_snoc.
  - unfold leader_ok in *; simpl. destruct (leader_id c); [set_solver|done].
Qed.

Lemma cell_wf_remove_member now c n : cell_wf c -> cell_wf (snd (remove_member now c n)).
Proof.
  intros [Hm Hc Hl]. unfold remove_member. case_bool_decide; [|done].
  case_bool_decide as Hn; simpl in *;
    (split; simpl; [by apply NoDup_remove_first|done|]); [done|].
  unfold leader_ok in *; simpl. destruct (leader_id c); [|done].
  apply elem_of_remove_first; [done|]. split; [done|congruence].
Qed.

Lemma cell_wf_set_leader now c n : cell_wf c -> cell_wf (snd (set_leader now c n)).
Proof.
  intros [Hm Hc Hl]. unfold set_leader. case_bool_decide; [|done]. by split.
Qed.

Lemma cell_wf_add_capability now c cap : cell_wf c -> cell_wf (add_capability now c cap).
Proof.
  intros [Hm Hc Hl]. unfold add_capability.
  destruct (has_key id (capabilities c) (id cap)) eqn:E; [done|].
  split; simpl; [done| |done]. apply has_key_false in E.
  rewrite fmap_app. by apply NoDup_snoc.
Qed.

Lemma cell_wf_merge a b : cell_wf a -> cell_wf b -> cell_wf (cell_merge a b).
Proof.
  intros [Hm Hc Hl] [Hm' Hc' Hl']. split.
  - by apply NoDup_merge_members.
  - rewrite cell_merge_capabilities. by apply NoDup_union_by.
  - unfold leader_ok in *.
    destruct (leader_id (cell_merge a b)) as [l|] eqn:El; [|done].
    apply elem_of_merge_members. unfold cell_merge in El.
    destruct (_ <? _); simpl in El; [rewrite El in Hl'|rewrite El in Hl]; auto.
Qed.

#[export] Hint Resolve cell_wf_new cell_wf_add_member cell_wf_remove_member
  cell_wf_set_leader cell_wf_add_capability cell_wf_merge : peat.

Lemma cell_step_wf c c' : cell_step c c' -> cell_wf c -> cell_wf c'.
Proof.
  destruct 1; auto with peat; intros [Hm Hc Hl]; by split.
Qed.

(** C4: every cell a replica can reach lists each member and each capability
    once, and its leader, if any, is a member. *)
Theorem cell_reachable_wf now cfg c : rtc cell_step (cell_new now cfg) c -> cell_wf c.
Proof.
  intros H. assert (cell_wf (cell_new now cfg)) as Hwf by apply cell_wf_new.
  induction H; eauto using cell_step_wf.
Qed.

(** ** Capacity *)

Definition within_capacity (c : CellState) : Prop :=
  match config c with Some cfg => len (members c) <= Z.max 0 (max_size cfg) | None => True end.

(** Operations a replica performs on its own copy: all steps but the merge. *)
Inductive local_step : CellState -> CellState -> Prop :=
| local_add_member now c n : local_step c (snd (add_member now c n))
| local_remove_member now c n : local_step c (snd (remove_member now c n))
| local_set_leader now c n : local_step c (snd (set_leader now c n))
| local_clear_leader now c : local_step c (clear_leader now c)
| local_add_capability now c cap : local_step c (add_capability now c cap)
| local_assign_cohort now c h : local_step c (assign_cohort now c h)
| local_leave_cohort now c : local_step c (leave_cohort now c).

Lemma remove_member_members now c n :
  members (snd (remove_member now c n)) =
  if bool_decide (n ∈ members c) then remove_first n (members c) else members c.
Proof. unfold remove_member. case_bool_decide; [|done]. by case_bool_decide. Qed.

Lemma remove_member_config now c n : config (snd (remove_member now c n)) = config c.
Proof. unfold remove_member. case_bool_decide; [|done]. by case_bool_decide. Qed.

Lemma local_step_capacity c c' : local_step c c' -> within_capacity c -> within_capacity c'.
Proof.
  destruct 1; unfold within_capacity; try done.
  - unfold add_member, cell_is_full.
    destruct (config c) as [cfg|] eqn:E; [|by case_bool_decide; simpl; rewrite ?E].
    bool_arith; [by simpl; rewrite E|]. case_bool_decide; simpl; rewrite E; [done|].
    rewrite len_app. change (len [n]) with 1. lia.
  - rewrite remove_member_config, remove_member_members.
    destruct (config c); [|done]. case_bool_decide as Hn; [|done].
    pose proof (length_remove_first n (members c) Hn). unfold len. lia.
  - unfold set_leader. by case_bool_decide.
  - unfold add_capability. by destruct (has_key id (capabilities c) (id cap)).
Qed.

(** As long as a cell is only changed by local operations it never holds more
    members than its configured maximum. *)
Theorem cell_local_capacity now cfg c :
  rtc local_step (cell_new now cfg) c -> within_capacity c.
Proof.
  intros H. assert (within_capacity (cell_new now cfg)) as Hc.
  { unfold within_capacity; simpl. unfold len. simpl. lia. }
  induction H; eauto using local_step_capacity.
Qed.

(** A merge is not bounded by the capacity: two replicas of a cell for one
    member, each holding a member of its own, merge into a cell with two. *)
Theorem cell_merge_exceeds_capacity :
  let c := cell_new 0 (config_with_id 0 "cell-1" 1) in
  let a := snd (add_member 1 c "n1") in
  let b := snd (add_member 2 c "n2") in
  within_capacity a /\ within_capacity b /\ ~ within_capacity (cell_merge a b).
Proof. vm_compute. by split_and!. Qed.

(** ** The merge as a join *)

(** Equal cells up to the order of the two vectors *)
Record cell_equiv (a b : CellState) : Prop := {
  eqv_config : config a = config b;
  eqv_members : members a ≡ₚ members b;
  eqv_capabilities : capabilities a ≡ₚ capabilities b;
  eqv_leader : leader_id a = leader_id b;
  eqv_cohort : cohort_id a = cohort_id b;
  eqv_timestamp : timestamp a = timestamp b
}.

#[export] Instance cell_equiv_equivalence : Equivalence cell_equiv.
Proof.
  split.
  - intros a. by split.
  - intros a b []. split; by symmetry.
  - intros a b c [] []. split; by etrans.
Qed.

(** What readers ask of a cell does not depend on the order. *)
#[export] Instance is_member_proper : Proper (cell_equiv ==> eq ==> eq) is_member.
Proof.
  intros a b Hab n ? <-. pose proof (eqv_members _ _ Hab) as Hm.
  change (has_key (fun x => x) (members a) n = has_key (fun x => x) (members b) n). rewrite !has_key_id.
  apply bool_decide_ext. by rewrite Hm.
Qed.

#[export] Instance member_count_proper : Proper (cell_equiv ==> eq) member_count.
Proof. intros a b Hab. unfold member_count, len. by rewrite (eqv_members _ _ Hab). Qed.

(** The fields decided by the newer timestamp, left-biased on ties. *)
Definition newer (a b : CellState) : CellState :=
  if seconds_or_zero (timestamp a) <? seconds_or_zero (timestamp b) then b else a.

Lemma cell_merge_registers a b :
  leader_id (cell_merge a b) = leader_id (newer a b) /\
  cohort_id (cell_merge a b) = cohort_id (newer a b) /\
  timestamp (cell_merge a b) = timestamp (newer a b).
Proof. unfold cell_merge, newer. by destruct (_ <? _). Qed.

Lemma cell_merge_config a b : config (cell_merge a b) = config a.
Proof. unfold cell_merge. by destruct (_ <? _). Qed.

(** Merging a cell with itself changes nothing. *)
Theorem cell_merge_idem c : cell_merge c c = c.
Proof.
  assert (members (cell_merge c c) = members c) as Hm.
  { rewrite cell_merge_members. apply union_by_absorb. by rewrite list_fmap_id. }
  assert (capabilities (cell_merge c c) = capabilities c) as Hc.
  { rewrite cell_merge_capabilities. by apply union_by_absorb. }
  destruct (cell_merge_registers c c) as (Hl & Hh & Ht).
  assert (config (cell_merge c c) = config c) as Hg.
  { unfold cell_merge. by destruct (_ <? _). }
  revert Hm Hc Hl Hh Ht Hg. unfold newer. rewrite Z.ltb_irrefl.
  destruct (cell_merge c c), c; simpl; congruence.
Qed.

(** The merge is associative, the order of the vectors included. *)
Theorem cell_merge_assoc a b c : cell_merge a (cell_merge b c) = cell_merge (cell_merge a b) c.
Proof.
  destruct (cell_merge_registers a (cell_merge b c)) as (E1 & E2 & E3).
  destruct (cell_merge_registers (cell_merge a b) c) as (E4 & E5 & E6).
  destruct (cell_merge_registers b c) as (E7 & E8 & E9), (cell_merge_registers a b) as (E10 & E11 & E12).
  assert (members (cell_merge a (cell_merge b c)) = members (cell_merge (cell_merge a b) c)) as Hm
    by by rewrite !cell_merge_members, union_by_assoc.
  assert (capabilities (cell_merge a (cell_merge b c)) = capabilities (cell_merge (cell_merge a b) c)) as Hc
    by by rewrite !cell_merge_capabilities, union_by_assoc.
  assert (leader_id (cell_merge a (cell_merge b c)) = leader_id (cell_merge (cell_merge a b) c) /\
          cohort_id (cell_merge a (cell_merge b c)) = cohort_id (cell_merge (cell_merge a b) c) /\
          timestamp (cell_merge a (cell_merge b c)) = timestamp (cell_merge (cell_merge a b) c)) as (Hl & Hh & Ht).
  { rewrite E1, E2, E3, E4, E5, E6. unfold newer in *. rewrite E9, E12. split_and!; bool_arith; try lia; congruence. }
  assert (config (cell_merge a (cell_merge b c)) = config (cell_merge (cell_merge a b) c)) as Hg by by rewrite !cell_merge_config.
  destruct (cell_merge a (cell_merge b c)), (cell_merge (cell_merge a b) c); simpl in *; congruence.
Qed.

(** Replicas of one cell: they have its configuration, and a capability identifier stands
    for one capability in both. *)
Record same_cell (a b : CellState) : Prop := {
  same_config : config a = config b;
  same_capabilities : forall x y, x ∈ capabilities a ++ capabilities b -> y ∈ capabilities a ++ capabilities b ->
    id x = id y -> x = y
}.

(** Two well-formed replicas with different update times are equal after merging, whichever
    merges first. *)
Theorem cell_merge_comm a b :
  cell_wf a -> cell_wf b -> same_cell a b -> seconds_or_zero (timestamp a) <> seconds_or_zero (timestamp b) ->
  cell_equiv (cell_merge a b) (cell_merge b a).
Proof.
  intros [Hma Hca _] [Hmb Hcb _] [Hg Hs] Hne.
  destruct (cell_merge_registers a b) as (E1 & E2 & E3), (cell_merge_registers b a) as (E4 & E5 & E6).
  split; [by rewrite !cell_merge_config| | |rewrite E1, E4|rewrite E2, E5|rewrite E3, E6];
    try (unfold newer; bool_arith; done || lia).
  - rewrite !cell_merge_members. apply NoDup_Permutation; [by apply NoDup_union_id..|].
    intros x. rewrite !elem_of_union_id. tauto.
  - rewrite !cell_merge_capabilities. apply NoDup_Permutation; [by eapply NoDup_fmap_1, NoDup_union_by..|].
    assert (forall x y, x ∈ capabilities b ++ capabilities a -> y ∈ capabilities b ++ capabilities a -> id x = id y -> x = y) as Hs'
      by (intros x y; rewrite !(elem_of_app (capabilities b)); intros; apply Hs; rewrite ?elem_of_app; tauto).
    intros x. rewrite !elem_of_union_by by done. tauto.
Qed.

(** C5: the merge of cells is idempotent and associative, and it is commutative up to the
    order of the vectors between well-formed replicas of one cell: they have the same
    configuration, describe every capability they share alike ([same_cell]), and their
    update times differ. *)
Theorem cell_merge_semilattice a b c :
  cell_merge a a = a /\
  cell_merge a (cell_merge b c) = cell_merge (cell_merge a b) c /\
  (cell_wf a -> cell_wf b -> same_cell a b -> seconds_or_zero (timestamp a) <> seconds_or_zero (timestamp b) ->
   cell_equiv (cell_merge a b) (cell_merge b a)).
Proof. split_and!; [apply cell_merge_idem|apply cell_merge_assoc|apply cell_merge_comm]. Qed.

(** A capability that two replicas describe differently is never reconciled: each keeps its
    own description, whatever the update times. *)
Theorem cell_merge_capability_diverges a b x y :
  capabilities a = [x] -> capabilities b = [y] -> id x = id y ->
  capabilities (cell_merge a b) = [x] /\ capabilities (cell_merge b a) = [y].
Proof.
  intros Ha Hb E. rewrite !cell_merge_capabilities, Ha, Hb. split; apply union_by_absorb; intros z; cbn; by rewrite E.
Qed.

(** Updates made in the same second do not converge: each replica keeps its
    own leader. *)
Theorem cell_merge_same_second_diverges :
  let c := snd (add_member 1 (snd (add_member 1 (cell_new 0 (config_with_id 0 "c" 5)) "n1")) "n2") in
  let a := snd (set_leader 7 c "n1") in
  let b := snd (set_leader 7 c "n2") in
  leader_id (cell_merge a b) = Some "n1"%string /\ leader_id (cell_merge b a) = Some "n2"%string.
Proof. vm_compute. done. Qed.

(** A removal does not survive a merge with a replica that has not seen it,
    however much later it happened: the vectors carry no tombstones. *)
Theorem removed_member_returns now c n :
  cell_wf c -> n ∈ members c -> seconds_or_zero (timestamp c) < now ->
  let c' := snd (remove_member now c n) in
  is_member c' n = false /\ is_member (cell_merge c' c) n = true /\
  timestamp (cell_merge c' c) = timestamp_now now.
Proof.
  intros Hwf Hn Hts c'.
  assert (forall d, is_member d n = true <-> n ∈ members d) as His.
  { intros d. change (is_member d n) with (has_key (fun x => x) (members d) n).
    by rewrite has_key_id, bool_decide_eq_true. }
  assert (n ∉ members c') as Hn'.
  { unfold c'. rewrite remove_member_members, bool_decide_eq_true_2 by done.
    rewrite elem_of_remove_first by apply Hwf. naive_solver. }
  assert (timestamp c' = timestamp_now now) as Ht.
  { unfold c', remove_member. rewrite bool_decide_eq_true_2 by done. by case_bool_decide. }
  split_and!.
  - destruct (is_member c' n) eqn:E; [|done]. by apply His in E.
  - apply His, elem_of_merge_members. by right.
  - destruct (cell_merge_registers c' c) as (_ & _ & ->). unfold newer.
    rewrite Ht; simpl. by destruct (Z.ltb_spec now (seconds_or_zero (timestamp c))); [lia|].
Qed.

(** ** Concrete instances *)

Lemma cell_reachable_wf_witness :
  let cfg := config_with_id 0 "cell-1" 3 in
  cell_wf (snd (set_leader 2 (snd (add_member 1 (cell_new 0 cfg) "n1")) "n1")).
Proof.
  apply (cell_reachable_wf 0 (config_with_id 0 "cell-1" 3)).
  eapply rtc_l; [apply (step_add_member 1 _ "n1")|].
  eapply rtc_l; [apply (step_set_leader 2 _ "n1")|]. apply rtc_refl.
Defined.

Lemma cell_local_capacity_witness :
  within_capacity (snd (add_member 1 (cell_new 0 (config_with_id 0 "cell-1" 3)) "n1")).
Proof.
  apply (cell_local_capacity 0 (config_with_id 0 "cell-1" 3)).
  eapply rtc_l; [apply (local_add_member 1 _ "n1")|]. apply rtc_refl.
Defined.

Definition replica (now : Z) (node : string) : CellState :=
  snd (add_member now (cell_new 0 (config_with_id 0 "cell-1" 3)) node).

Lemma replica_wf now node : cell_wf (replica now node).
Proof.
  eapply cell_step_wf; [apply step_add_member|apply cell_wf_new].
Qed.

Lemma cell_merge_semilattice_witness :
  cell_equiv (cell_merge (replica 1 "n1") (replica 2 "n2")) (cell_merge (replica 2 "n2") (replica 1 "n1")).
Proof.
  apply (cell_merge_semilattice (replica 1 "n1") (replica 2 "n2") (replica 1 "n1")); [apply replica_wf..| |vm_compute; done].
  split; [done|]. intros x y Hx. by apply not_elem_of_nil in Hx.
Defined.

