(* ===== verification/ZoneState.v ===== *)
(** * Zone state

    Models the messages [ZoneConfig], [ZoneState] and [ZoneStats]
    (peat-schema/proto/zone.proto) and the extension traits of
    peat-protocol/src/models/zone.rs. [now] is the wall clock in seconds. The
    merge asserts that both states are of one zone: [None] is its panic. *)

From S2P Require Import Prelude Capability.

Record ZoneConfig := mkZoneConfig {
  zcfg_id : string;
  max_cells : Z;
  min_cells : Z;
  zcfg_created_at : option Timestamp
}.

Record ZoneState := mkZoneState {
  zone_config : option ZoneConfig;
  coordinator_id : option string;
  cells : list string;
  aggregated_capabilities : list Capability;
  zone_timestamp : option Timestamp
}.

Record ZoneStats := mkZoneStats {
  st_zone_id : string;
  st_cell_count : Z;
  st_total_nodes : Z;
  st_unique_capability_count : Z;
  st_is_valid : bool;
  st_is_full : bool;
  st_calculated_at : option Timestamp
}.

Definition zone_config_new (now : Z) (id : string) (max : Z) : ZoneConfig :=
  mkZoneConfig id max 2 (timestamp_now now).

Definition with_min_cells (cfg : ZoneConfig) (min : Z) : ZoneConfig :=
  mkZoneConfig (zcfg_id cfg) (max_cells cfg) min (zcfg_created_at cfg).

Definition zone_new (now : Z) (cfg : ZoneConfig) : ZoneState :=
  mkZoneState (Some cfg) None [] [] (timestamp_now now).

Definition zone_update_timestamp (now : Z) (z : ZoneState) : ZoneState :=
  mkZoneState (zone_config z) (coordinator_id z) (cells z) (aggregated_capabilities z)
    (timestamp_now now).

Definition zone_is_valid (z : ZoneState) : bool :=
  match zone_config z with
  | Some cfg => min_cells cfg <=? len (cells z)
  | None => false
  end.

Definition zone_is_full (z : ZoneState) : bool :=
  match zone_config z with
  | Some cfg => max_cells cfg <=? len (cells z)
  | None => false
  end.

Definition set_cells (z : ZoneState) (cs : list string) : ZoneState :=
  mkZoneState (zone_config z) (coordinator_id z) cs (aggregated_capabilities z)
    (zone_timestamp z).

Definition add_cell (now : Z) (z : ZoneState) (cell_id : string) : bool * ZoneState :=
  if zone_is_full z then (false, z)
  else if has_key (fun x => x) (cells z) cell_id then (false, z)
  else (true, zone_update_timestamp now (set_cells z (cells z ++ [cell_id]))).

Definition zone_remove_cell (now : Z) (z : ZoneState) (cell_id : string)
  : bool * ZoneState :=
  if bool_decide (cell_id ∈ cells z) then
    (true, zone_update_timestamp now (set_cells z (remove_first cell_id (cells z))))
  else (false, z).

Definition set_coordinator (z : ZoneState) (coordinator : string) (ts : Z)
  : bool * ZoneState :=
  let current_ts := seconds_or_zero (zone_timestamp z) in
  if ts <? current_ts then (false, z)
  else (true, mkZoneState (zone_config z) (Some coordinator) (cells z)
                (aggregated_capabilities z) (Some (mkTimestamp ts 0))).

Definition remove_coordinator (z : ZoneState) (ts : Z) : bool * ZoneState :=
  let current_ts := seconds_or_zero (zone_timestamp z) in
  if ts <? current_ts then (false, z)
  else (true, mkZoneState (zone_config z) None (cells z)
                (aggregated_capabilities z) (Some (mkTimestamp ts 0))).

Definition zone_add_capability (now : Z) (z : ZoneState) (cap : Capability) : ZoneState :=
  if has_key get_capability_type (aggregated_capabilities z) (get_capability_type cap) then z
  else zone_update_timestamp now
    (mkZoneState (zone_config z) (coordinator_id z) (cells z)
       (aggregated_capabilities z ++ [cap]) (zone_timestamp z)).

Definition zone_cell_count (z : ZoneState) : Z := len (cells z).

Definition contains_cell (z : ZoneState) (cell_id : string) : bool :=
  has_key (fun x => x) (cells z) cell_id.

Definition zone_merge (z other : ZoneState) : option ZoneState :=
  if bool_decide (zcfg_id <$> zone_config z = zcfg_id <$> zone_config other) then
    let self_ts := seconds_or_zero (zone_timestamp z) in
    let other_ts := seconds_or_zero (zone_timestamp other) in
    let '(coord, ts) :=
      if self_ts <? other_ts then (coordinator_id other, zone_timestamp other)
      else (coordinator_id z, zone_timestamp z) in
    let cs := fold_left (fun cs c => if has_key (fun x => x) cs c then cs else cs ++ [c])
                (cells other) (cells z) in
    let caps := fold_left (fun caps cap =>
                  if has_key get_capability_type caps (get_capability_type cap)
                  then caps else caps ++ [cap])
                  (aggregated_capabilities other) (aggregated_capabilities z) in
    Some (mkZoneState (zone_config z) coord cs caps ts)
  else None.

Definition zone_stats (now : Z) (z : ZoneState) : ZoneStats :=
  mkZoneStats (match zone_config z with Some cfg => zcfg_id cfg | None => EmptyString end)
    (as_u32 (len (cells z))) 0 (as_u32 (len (aggregated_capabilities z)))
    (zone_is_valid z) (zone_is_full z) (timestamp_now now).

(** ** Well-formed zones *)

Record zone_wf (z : ZoneState) : Prop := {
  zwf_cells : NoDup (cells z);
  zwf_capabilities : NoDup (get_capability_type <$> aggregated_capabilities z)
}.

Inductive zone_step : ZoneState -> ZoneState -> Prop :=
| zstep_add_cell now z c : zone_step z (snd (add_cell now z c))
| zstep_remove_cell now z c : zone_step z (snd (zone_remove_cell now z c))
| zstep_set_coordinator z n ts : zone_step z (snd (set_coordinator z n ts))
| zstep_remove_coordinator z ts : zone_step z (snd (remove_coordinator z ts))
| zstep_add_capability now z cap : zone_step z (zone_add_capability now z cap)
| zstep_merge z other z' : zone_merge z other = Some z' -> zone_step z z'.

Lemma zone_merge_Some z other z' :
  zone_merge z other = Some z' ->
  zone_config z' = zone_config z /\
  cells z' = union_by (fun x => x) (cells z) (cells other) /\
  aggregated_capabilities z' =
    union_by get_capability_type (aggregated_capabilities z) (aggregated_capabilities other) /\
  (coordinator_id z', zone_timestamp z') =
    if seconds_or_zero (zone_timestamp z) <? seconds_or_zero (zone_timestamp other)
    then (coordinator_id other, zone_timestamp other)
    else (coordinator_id z, zone_timestamp z).
Proof.
  unfold zone_merge. case_bool_decide; [|done]. destruct (_ <? _); by intros [= <-].
Qed.

Lemma zone_step_wf z z' : zone_step z z' -> zone_wf z -> zone_wf z'.
Proof.
  destruct 1 as [now z c|now z c|z n ts|z ts|now z cap|z other z' Hm]; intros [Hc Hk].
  - unfold add_cell. destruct (zone_is_full z); [done|].
    rewrite has_key_id. case_bool_decide; [done|].
    split; simpl; [by apply NoDup_snoc|done].
  - unfold zone_remove_cell. case_bool_decide; [|done].
    split; simpl; [by apply NoDup_remove_first|done].
  - unfold set_coordinator. by destruct (_ <? _).
  - unfold remove_coordinator. by destruct (_ <? _).
  - unfold zone_add_capability. case_match eqn:E; [done|]. split; simpl; [done|].
    pose proof (NoDup_push_absent get_capability_type (aggregated_capabilities z) cap Hk) as H.
    unfold push_absent in H. by rewrite E in H.
  - destruct (zone_merge_Some _ _ _ Hm) as (_ & E1 & E2 & _). split.
    + rewrite E1. by apply NoDup_union_id.
    + rewrite E2. by apply NoDup_union_by.
Qed.

(** Every zone state a replica can reach lists each cell once and has one
    capability per type, whatever it merged. *)
Theorem zone_reachable_wf now cfg z : rtc zone_step (zone_new now cfg) z -> zone_wf z.
Proof.
  intros H. assert (zone_wf (zone_new now cfg)) as Hwf by (split; constructor).
  induction H; eauto using zone_step_wf.
Qed.

(** ** Coordinator register *)

(** A coordinator assignment is applied exactly when its timestamp is not
    older than the zone's, and then it is the zone's timestamp. *)
Theorem set_coordinator_spec z n ts :
  let '(ok, z') := set_coordinator z n ts in
  (ok = true <-> seconds_or_zero (zone_timestamp z) <= ts) /\
  (ok = true -> coordinator_id z' = Some n /\ seconds_or_zero (zone_timestamp z') = ts) /\
  (ok = false -> z' = z) /\
  cells z' = cells z /\ aggregated_capabilities z' = aggregated_capabilities z.
Proof.
  unfold set_coordinator. bool_arith; simpl; split_and!; try done; split; done || lia.
Qed.

(** Membership changes overwrite the register's timestamp with the wall
    clock, so an assignment stamped later than the clock loses its protection: an
    older assignment then replaces it. *)
Theorem coordinator_timestamp_regresses :
  let z0 := zone_new 100 (zone_config_new 100 "zone" 5) in
  let z1 := snd (set_coordinator z0 "newer" 1000) in
  let z2 := snd (add_cell 200 z1 "cell") in
  fst (set_coordinator z1 "older" 500) = false /\
  fst (set_coordinator z2 "older" 500) = true /\
  coordinator_id (snd (set_coordinator z2 "older" 500)) = Some "older"%string.
Proof. vm_compute. done. Qed.

(** ** Merge *)

(** The merge panics exactly when the two states are of different zones;
    otherwise it unites the cells and capability types and takes the coordinator
    of the newer state. *)
Theorem zone_merge_spec a b :
  (zone_merge a b = None <-> zcfg_id <$> zone_config a <> zcfg_id <$> zone_config b) /\
  forall z, zone_merge a b = Some z ->
    (forall c, contains_cell z c = contains_cell a c || contains_cell b c) /\
    (forall ty, ty ∈ (get_capability_type <$> aggregated_capabilities z) <->
       ty ∈ (get_capability_type <$> aggregated_capabilities a) \/
       ty ∈ (get_capability_type <$> aggregated_capabilities b)) /\
    seconds_or_zero (zone_timestamp z) =
      Z.max (seconds_or_zero (zone_timestamp a)) (seconds_or_zero (zone_timestamp b)) /\
    (seconds_or_zero (zone_timestamp a) < seconds_or_zero (zone_timestamp b) ->
       coordinator_id z = coordinator_id b) /\
    (seconds_or_zero (zone_timestamp b) <= seconds_or_zero (zone_timestamp a) ->
       coordinator_id z = coordinator_id a).
Proof.
  split.
  { unfold zone_merge. case_bool_decide; [|done].
    destruct (_ <? _); split; intros; congruence. }
  intros z Hz. destruct (zone_merge_Some _ _ _ Hz) as (_ & E1 & E2 & E3). split_and!.
  - intros c. unfold contains_cell. apply eq_true_iff_eq.
    rewrite orb_true_iff, !has_key_id, !bool_decide_eq_true, E1. apply elem_of_union_id.
  - intros ty. rewrite E2. apply elem_of_union_by_key.
  - bool_arith; injection E3 as _ ->; lia.
  - bool_arith; injection E3 as -> _; done || lia.
  - bool_arith; injection E3 as -> _; done || lia.
Qed.

(** The statistics of a zone report its real sizes while they fit 32 bits. *)
Theorem zone_stats_counts now z :
  is_u32 (len (cells z)) -> is_u32 (len (aggregated_capabilities z)) ->
  st_cell_count (zone_stats now z) = zone_cell_count z /\
  st_unique_capability_count (zone_stats now z) = len (aggregated_capabilities z).
Proof. intros. simpl. unfold zone_cell_count. by rewrite !as_u32_small. Qed.

(** ** Concrete instances *)

Lemma zone_reachable_wf_witness :
  zone_wf (snd (add_cell 1 (zone_new 0 (zone_config_new 0 "zone" 5)) "cell-1")).
Proof.
  apply (zone_reachable_wf 0 (zone_config_new 0 "zone" 5)).
  eapply rtc_l; [apply (zstep_add_cell 1 _ "cell-1")|]. apply rtc_refl.
Defined.
