(* ===== verification/Error.v ===== *)
(** * Protocol errors

    Models peat-protocol/src/error.rs. The boxed [source] error of a variant is
    opaque to the code and left out; [Serialization] keeps the message of the
    JSON error it wraps. *)

From S2P Require Import Prelude.

Inductive Error :=
| EDiscovery (message : string)
| ECellFormation (message : string) (cell_id : option string)
| EHierarchicalOp (message operation : string)
| EComposition (message : string) (capability : option string)
| EStorage (message : string) (operation key : option string)
| ENetwork (message : string) (peer_id : option string)
| ESerialization (message : string)
| EInvalidTransition (from to reason : string)
| ENotFound (resource_type id : string)
| EConfiguration (message : string) (config_key : option string)
| ETimeout (operation : string) (duration_ms : Z)
| EDitto (message : string) (operation : option string)
| EInternal (message : string)
| EInvalidInput (message : string)
| EConflictDetected (message : string)
| ESecurity (message : string)
| EEventOp (message operation : string).

#[export] Instance Error_eq_dec : EqDecision Error.
Proof. solve_decision. Defined.

Inductive ErrorSeverity := SevCritical | SevError | SevWarning | SevInfo.

Record ErrorContext := mkErrorContext {
  ctx_key : option string;
  ctx_operation : option string;
  ctx_peer_id : option string;
  ctx_cell_id : option string;
  ctx_capability : option string;
  ctx_duration_ms : option Z
}.

Definition default_context : ErrorContext := mkErrorContext None None None None None None.

Definition is_recoverable (e : Error) : bool :=
  match e with
  | ETimeout _ _ | ENetwork _ _ => true
  | EStorage _ (Some op) _ =>
      bool_decide (op = "query"%string) || bool_decide (op = "retrieve"%string)
  | _ => false
  end.

Definition severity (e : Error) : ErrorSeverity :=
  match e with
  | EInternal _ => SevCritical
  | EConfiguration _ _ => SevCritical
  | EInvalidTransition _ _ _ => SevError
  | ETimeout _ _ => SevWarning
  | ENetwork _ _ => SevWarning
  | ENotFound _ _ => SevInfo
  | _ => SevError
  end.

Definition context (e : Error) : ErrorContext :=
  match e with
  | EStorage _ operation key => mkErrorContext key operation None None None None
  | ENetwork _ peer_id => mkErrorContext None None peer_id None None None
  | ECellFormation _ cell_id => mkErrorContext None None None cell_id None None
  | EComposition _ capability => mkErrorContext None None None None capability None
  | ETimeout operation duration_ms =>
      mkErrorContext None (Some operation) None None None (Some duration_ms)
  | _ => default_context
  end.

Definition storage_error (message operation : string) (key : option string) : Error :=
  EStorage message (Some operation) key.

Definition network_error (message : string) (peer_id : option string) : Error :=
  ENetwork message peer_id.

Definition timeout_error (operation : string) (duration_ms : Z) : Error :=
  ETimeout operation duration_ms.

Definition config_error (message : string) (config_key : option string) : Error :=
  EConfiguration message config_key.

(** The recoverable errors are the timeouts, the network errors and the
    storage errors of reads, and a recoverable error is never critical. *)
Theorem recoverable_errors e :
  (is_recoverable e = true <->
   (exists op d, e = ETimeout op d) \/ (exists m p, e = ENetwork m p) \/
   (exists m op k, e = EStorage m (Some op) k /\
      (op = "query"%string \/ op = "retrieve"%string))) /\
  (is_recoverable e = true -> severity e <> SevCritical).
Proof.
  split; [|by destruct e]. split.
  - destruct e as [| | | |m [op|] k|m p| | | | |op d| | | | | |]; simpl; try done; eauto.
    rewrite orb_true_iff, !bool_decide_eq_true. eauto 10.
  - intros [(op & d & ->)|[(m & p & ->)|(m & op & k & -> & [->| ->])]]; done.
Qed.
