(* ===== verification/Router.v ===== *)
(** * Hierarchical message router

    Models peat-protocol/src/hierarchy/router.rs. The routing table is shared
    behind a lock; every method takes one consistent read of it, so the table is
    an argument. The flow controller is used through the interface
    [FlowControl], so the theorems hold for every implementation; [Flow.v]
    discharges it with the token buckets of hierarchy/flow_control.rs. *)

From S2P Require Import Prelude Error RoutingTable.

(** cell/messaging.rs *)
Inductive MessagePriority := Low | Normal | High | Critical.

#[export] Instance MessagePriority_eq_dec : EqDecision MessagePriority.
Proof. solve_decision. Defined.

(** hierarchy/flow_control.rs *)
Inductive RoutingLevel := LevelCell | LevelZone.

#[export] Instance RoutingLevel_eq_dec : EqDecision RoutingLevel.
Proof. solve_decision. Defined.

(** Interface of the flow controller: a permit request moves the controller to a
    new state and answers a permit (which carries no data) or an error, or it is
    still waiting for tokens ([None]). *)
Class FlowControl (FC : Type) := {
  acquire_permit : FC -> RoutingLevel -> Z -> MessagePriority -> option (result Error unit * FC);
  fc_has_backpressure : FC -> bool
}.

(** Directions of a document synchronisation, from the trait the router serves. *)
Inductive SyncDirection := Broadcast | Lateral | Upward | Downward.

Record RouterStats := mkRouterStats {
  rs_node_id : string;
  rs_cell_id : option string;
  rs_zone_id : option string;
  rs_is_cell_leader : bool;
  rs_cell_peer_count : Z
}.

Section Router.
Context {FC : Type} `{FlowControl FC}.

Record HierarchicalRouter := mkHierarchicalRouter {
  node_id : string;
  flow_controller : option FC
}.

Definition router_new (id : string) : HierarchicalRouter := mkHierarchicalRouter id None.

Definition with_flow_control (id : string) (fc : FC) : HierarchicalRouter :=
  mkHierarchicalRouter id (Some fc).

Definition is_upward_route_valid (table : RoutingTable) (from from_cell to : string) : bool :=
  if negb (is_cell_leader table from from_cell) then false else true.

Definition is_route_valid (table : RoutingTable) (from to : string) : bool :=
  match get_node_cell table from with
  | None => false
  | Some from_cell =>
      match get_node_cell table to with
      | None => is_upward_route_valid table from from_cell to
      | Some to_cell => bool_decide (from_cell = to_cell)
      end
  end.

Definition valid_targets (r : HierarchicalRouter) (table : RoutingTable) : list string :=
  match get_node_cell table (node_id r) with
  | None => []
  | Some my_cell =>
      let targets := filter (fun n => n <> node_id r) (get_cell_nodes table my_cell) in
      if is_cell_leader table (node_id r) my_cell then
        match get_cell_zone table my_cell with
        | Some zone_id => targets ++ ["zone:" +:+ zone_id]
        | None => targets
        end
      else targets
  end.

Definition update_routing_table (table new_table : RoutingTable)
  : result Error unit * RoutingTable := (Ok tt, RoutingTable.merge table new_table).

Definition router_stats (r : HierarchicalRouter) (table : RoutingTable) : RouterStats :=
  let my_cell := get_node_cell table (node_id r) in
  let my_zone := get_node_zone table (node_id r) in
  mkRouterStats (node_id r) my_cell my_zone
    (match my_cell with Some cell => is_cell_leader table (node_id r) cell | None => false end)
    (match my_cell with
     | Some cell => saturating_sub (len (get_cell_nodes table cell)) 1
     | None => 0 end).

Definition get_my_cell (r : HierarchicalRouter) (table : RoutingTable) : option string :=
  get_node_cell table (node_id r).

Definition get_my_zone (r : HierarchicalRouter) (table : RoutingTable) : option string :=
  get_node_zone table (node_id r).

Definition router_is_leader (r : HierarchicalRouter) (table : RoutingTable) : bool :=
  match get_node_cell table (node_id r) with
  | Some cell => is_cell_leader table (node_id r) cell
  | None => false
  end.

Definition route_message (r : HierarchicalRouter) (table : RoutingTable)
    (from to : string) (message_size : Z) (priority : MessagePriority)
  : option (result Error (option unit) * HierarchicalRouter) :=
  if negb (is_route_valid table from to) then Some (Ok None, r)
  else
    match flow_controller r with
    | Some fc =>
        let from_cell := get_node_cell table from in
        let to_cell := get_node_cell table to in
        let level :=
          if bool_decide (from_cell = to_cell) && bool_decide (is_Some from_cell)
          then LevelCell else LevelZone in
        '(res, fc) ← acquire_permit fc level message_size priority;
        Some ((let? permit := res in Ok (Some permit)),
              mkHierarchicalRouter (node_id r) (Some fc))
    | None => Some (Ok None, r)
    end.

Definition has_backpressure (r : HierarchicalRouter) : bool :=
  match flow_controller r with
  | Some fc => fc_has_backpressure fc
  | None => false
  end.

(** [SyncRouter::get_targets]; endpoint identifiers are opaque to the router. *)
Definition get_targets {E : Type} (r : HierarchicalRouter) (table : RoutingTable)
    (direction : SyncDirection) (connected : list E) : list E :=
  match direction with
  | Broadcast => connected
  | Lateral => connected
  | Upward =>
      if router_is_leader r table then
        let has_zone_targets :=
          existsb (String.prefix "zone:") (valid_targets r table) in
        if has_zone_targets then [] else connected
      else connected
  | Downward => if router_is_leader r table then connected else []
  end.

(** ** Routing rules *)

(** C6: a route is valid exactly when both ends are in one cell, or the source leads its
    own cell and the target is not a node of the table, whatever it is: nodes the table
    assigns to two different cells never reach each other, but a leader reaches every name
    the table does not know. *)
Theorem is_route_valid_spec table from to :
  is_route_valid table from to = true <->
  exists c, get_node_cell table from = Some c /\
    (get_node_cell table to = Some c \/
     (get_node_cell table to = None /\ get_cell_leader table c = Some from)).
Proof.
  unfold is_route_valid, is_upward_route_valid, is_cell_leader, get_cell_leader.
  destruct (get_node_cell table from) as [c|]; [|naive_solver].
  destruct (get_node_cell table to) as [c'|].
  - rewrite bool_decide_eq_true. naive_solver.
  - destruct (cell_leaders table !! c) as [[l e]|] eqn:El; simpl.
    + case_bool_decide; simpl; split; try done.
      * intros _. exists c. rewrite El. subst. auto.
      * intros (c' & [= <-] & [?|[_ Hl]]); [done|]. rewrite El in Hl. by simplify_eq/=.
    + split; [done|]. intros (c' & [= <-] & [?|[_ Hl]]); [done|]. by rewrite El in Hl.
Qed.

(** The documented example of the router, with a target in another cell that the table does
    not list: it is documented to be refused, and is accepted because the source leads its
    cell. *)
Theorem unknown_node_reached_by_leader :
  let t1 := snd (assign_node RoutingTable.new "node1" "cell_alpha" 100) in
  let t2 := snd (assign_node t1 "node2" "cell_alpha" 101) in
  let t3 := snd (set_cell_leader t2 "cell_alpha" "node1" 102) in
  is_route_valid t3 "node1" "node2" = true /\ is_route_valid t3 "node1" "node_in_other_cell" = true.
Proof. vm_compute. by split. Qed.

Lemma valid_targets_nodes r table c n :
  get_node_cell table (node_id r) = Some c ->
  n ∈ filter (fun n => n <> node_id r) (get_cell_nodes table c) <->
  n <> node_id r /\ get_node_cell table n = Some c.
Proof. intros _. rewrite list_elem_of_filter, get_cell_nodes_spec. done. Qed.

(** The target list is exactly the valid routes: a node is listed iff it is
    another node this one may message, and the zone entry of a leader is a valid
    route too (as long as no node carries that reserved name). *)
Theorem valid_targets_sound_complete r table :
  (forall n, is_Some (get_node_cell table n) ->
     (forall z, n <> "zone:" +:+ z) ->
     n ∈ valid_targets r table <->
     n <> node_id r /\ is_route_valid table (node_id r) n = true) /\
  (forall t, t ∈ valid_targets r table -> get_node_cell table t = None ->
     is_route_valid table (node_id r) t = true).
Proof.
  unfold valid_targets. split.
  - intros n [cn Hn] Hz. rewrite is_route_valid_spec.
    destruct (get_node_cell table (node_id r)) as [c|] eqn:E;
      [|rewrite elem_of_nil; naive_solver].
    transitivity (n ∈ filter (fun n => n <> node_id r) (get_cell_nodes table c)).
    + destruct (is_cell_leader _ _ _); [|done]. destruct (get_cell_zone table c) as [z|]; [|done].
      rewrite elem_of_app, list_elem_of_singleton. naive_solver.
    + rewrite (valid_targets_nodes r table c n E). naive_solver.
  - intros t Ht Hn. rewrite is_route_valid_spec.
    destruct (get_node_cell table (node_id r)) as [c|] eqn:E;
      [|by apply not_elem_of_nil in Ht].
    exists c. split; [done|]. right. split; [done|].
    assert (t ∉ filter (fun n => n <> node_id r) (get_cell_nodes table c)) as Hnot.
    { rewrite (valid_targets_nodes r table c t E). naive_solver. }
    unfold is_cell_leader, get_cell_leader in *.
    destruct (cell_leaders table !! c) as [[l e]|]; [|done]. simpl.
    case_bool_decide; [by subst|done].
Qed.

(** The peer count of the statistics is the number of nodes the router may
    message. *)
Theorem peer_count_is_target_count r table :
  rs_cell_peer_count (router_stats r table) =
  len (filter (fun n => is_Some (get_node_cell table n) /\
                        is_route_valid table (node_id r) n = true /\ n <> node_id r)
         (match get_my_cell r table with
          | Some c => get_cell_nodes table c | None => [] end)).
Proof.
  unfold router_stats, get_my_cell; simpl.
  destruct (get_node_cell table (node_id r)) as [c|] eqn:E; [|done].
  pose proof (NoDup_get_cell_nodes table c) as Hnd.
  assert (node_id r ∈ get_cell_nodes table c) as Hin by by apply get_cell_nodes_spec.
  assert (forall n, n ∈ get_cell_nodes table c -> get_node_cell table n = Some c) as Hall
    by (intros n; apply get_cell_nodes_spec).
  revert Hnd Hin Hall. generalize (get_cell_nodes table c) as l. intros l Hnd Hin Hall.
  apply list_elem_of_split in Hin as (l1 & l2 & ->).
  apply NoDup_app in Hnd as (Hnd1 & Hdisj & Hnd2). apply NoDup_cons in Hnd2 as [Hni Hnd2].
  rewrite filter_app, filter_cons_False by (intros (_ & _ & ?); done).
  rewrite !list_filter_all.
  - unfold saturating_sub, len. rewrite !length_app. simpl. lia.
  - intros n Hn. rewrite (Hall n), is_route_valid_spec, (Hall n) by set_solver.
    split_and!; [eauto|eauto|by intros ->].
  - intros n Hn. rewrite (Hall n), is_route_valid_spec, (Hall n) by set_solver.
    split_and!; [eauto|eauto|]. intros ->. apply (Hdisj _ Hn). set_solver.
Qed.

(** ** Routing with flow control *)

Lemma route_message_level r table fc from to size prio :
  flow_controller r = Some fc -> is_route_valid table from to = true ->
  let level := match get_node_cell table to with Some _ => LevelCell | None => LevelZone end in
  route_message r table from to size prio =
    match acquire_permit fc level size prio with
    | Some (Ok p, fc') => Some (Ok (Some p), mkHierarchicalRouter (node_id r) (Some fc'))
    | Some (Err e, fc') => Some (Err e, mkHierarchicalRouter (node_id r) (Some fc'))
    | None => None
    end.
Proof.
  intros Hfc Hv. pose proof Hv as (c & Hf & Hto)%is_route_valid_spec.
  unfold route_message. rewrite Hv, Hfc, Hf. cbv zeta.
  assert ((if bool_decide (Some c = get_node_cell table to) && bool_decide (is_Some (Some c))
           then LevelCell else LevelZone) =
          match get_node_cell table to with Some _ => LevelCell | None => LevelZone end) as ->.
  { rewrite (bool_decide_eq_true_2 (is_Some (Some c))) by eauto.
    destruct Hto as [Ht|[Ht _]]; rewrite Ht; by case_bool_decide. }
  simpl. by destruct (acquire_permit _ _ _ _) as [[[] ?]|].
Qed.

(** A message between nodes of one cell is charged to the cell's limits and
    every other valid message to the zone's; the permit is what the flow
    controller answered, and the message waits as long as the controller does. *)
Theorem route_message_charges_level r table fc from to size prio :
  flow_controller r = Some fc -> is_route_valid table from to = true ->
  let level := match get_node_cell table to with Some _ => LevelCell | None => LevelZone end in
  route_message r table from to size prio =
    match acquire_permit fc level size prio with
    | Some (Ok p, fc') => Some (Ok (Some p), mkHierarchicalRouter (node_id r) (Some fc'))
    | Some (Err e, fc') => Some (Err e, mkHierarchicalRouter (node_id r) (Some fc'))
    | None => None
    end.
Proof. apply route_message_level. Qed.

(** Without a flow controller the answer does not tell a permitted message
    from a rejected one: both are [Ok(None)]. *)
Theorem route_message_ambiguous_none r table from to from' to' size prio :
  flow_controller r = None ->
  is_route_valid table from to = true -> is_route_valid table from' to' = false ->
  route_message r table from to size prio = Some (Ok None, r) /\
  route_message r table from' to' size prio = Some (Ok None, r).
Proof. intros Hf H1 H2. unfold route_message. by rewrite H1, H2, Hf. Qed.

(** ** Document synchronisation *)

Lemma prefix_app (p s : string) : String.prefix p (p +:+ s) = true.
Proof.
  induction p as [|a p IH]; simpl; [by destruct s|]. by destruct (Ascii.ascii_dec a a).
Qed.

(** Downward synchronisation reaches the peers of a cell leader only; upward
    synchronisation reaches every peer except from a leader whose cell has a
    zone, which sends to nobody. *)
Theorem get_targets_spec {E : Type} r table (connected : list E)
    (Hplain : forall n, is_Some (get_node_cell table n) -> String.prefix "zone:" n = false) :
  get_targets r table Downward connected =
    (if router_is_leader r table then connected else []) /\
  get_targets r table Upward connected =
    (if router_is_leader r table && bool_decide (is_Some (get_my_zone r table))
     then [] else connected).
Proof.
  split; [done|]. unfold get_targets, get_my_zone, get_node_zone, router_is_leader, valid_targets.
  destruct (get_node_cell table (node_id r)) as [c|] eqn:Hc; [|done].
  destruct (is_cell_leader table (node_id r) c); [|done]. simpl.
  assert (existsb (String.prefix "zone:")
    (filter (fun n => n <> node_id r) (get_cell_nodes table c)) = false) as Hn.
  { apply not_true_is_false. rewrite existsb_exists. intros (n & Hin & Hp).
    apply list_elem_of_In, list_elem_of_filter in Hin as [_ Hin].
    apply get_cell_nodes_spec in Hin. rewrite (Hplain n) in Hp by eauto. done. }
  destruct (get_cell_zone table c) as [z|].
  - rewrite existsb_app, Hn, bool_decide_eq_true_2 by eauto. cbn [existsb orb].
    by rewrite (prefix_app "zone:" z).
  - by rewrite Hn, bool_decide_eq_false_2 by (by intros [? ?]).
Qed.

End Router.

(** ** Concrete instances *)

(** A flow controller that grants every permit and counts the bytes *)
#[local] Instance counting_flow_control : FlowControl Z := {
  acquire_permit used _ size _ := Some (Ok tt, used + size);
  fc_has_backpressure _ := false
}.

Lemma route_message_charges_level_witness :
  let table := snd (assign_node (snd (assign_node new "n1" "c1" 1)) "n2" "c1" 2) in
  route_message (with_flow_control "n1" 0) table "n1" "n2" 10 Normal =
    Some (Ok (Some tt), with_flow_control "n1" 10).
Proof.
  cbv zeta. rewrite (route_message_charges_level (with_flow_control "n1" 0)
    (snd (assign_node (snd (assign_node new "n1" "c1" 1)) "n2" "c1" 2)) 0 "n1" "n2" 10 Normal);
    vm_compute; reflexivity.
Defined.
