(* ===== verification/Maintenance.v ===== *)
(** * Hierarchy maintenance

    Models peat-protocol/src/hierarchy/maintenance.rs: the size thresholds, the
    merge and split of cells, the choice of a merge candidate, and the
    rebalancing pass over the cells of the store. Generated UUIDs are arguments
    (the pass draws them from a supply [fresh]); [now] is the wall clock in
    seconds. The pass reads the cells the store calls valid: [get_valid_cells] of
    peat-protocol/src/storage/cell_store.rs, applied to the decoded documents. *)

From S2P Require Import Prelude Error Capability CellState ZoneState RoutingTable.

Inductive RebalanceAction := NoAction | Merge | Split.

#[export] Instance RebalanceAction_eq_dec : EqDecision RebalanceAction.
Proof. solve_decision. Defined.

Record MaintenanceMetrics := mkMaintenanceMetrics {
  merge_count : Z;
  split_count : Z;
  rebalance_disruptions : Z
}.

Record HierarchyMaintainer := mkHierarchyMaintainer {
  min_cell_size : Z;
  max_cell_size : Z;
  min_zone_cells : Z;
  max_zone_cells : Z;
  metrics : MaintenanceMetrics
}.

(** The asserts of the constructor: [None] is the panic. *)
Definition maintainer_new (min_c max_c min_z max_z : Z) : option HierarchyMaintainer :=
  if negb (0 <? min_c) then None
  else if negb (min_c <? max_c) then None
  else if negb (0 <? min_z) then None
  else if negb (min_z <=? max_z) then None
  else Some (mkHierarchyMaintainer min_c max_c min_z max_z (mkMaintenanceMetrics 0 0 0)).

Definition needs_rebalance (m : HierarchyMaintainer) (cell : CellState) : RebalanceAction :=
  let size := len (members cell) in
  if size <? min_cell_size m then Merge
  else if max_cell_size m <? size then Split
  else NoAction.

(** [fetch_add(1)] wraps around. *)
Definition count_merge (m : HierarchyMaintainer) : HierarchyMaintainer :=
  let x := metrics m in
  mkHierarchyMaintainer (min_cell_size m) (max_cell_size m) (min_zone_cells m) (max_zone_cells m)
    (mkMaintenanceMetrics (as_u64 (merge_count x + 1)) (split_count x)
       (as_u64 (rebalance_disruptions x + 1))).

Definition count_split (m : HierarchyMaintainer) : HierarchyMaintainer :=
  let x := metrics m in
  mkHierarchyMaintainer (min_cell_size m) (max_cell_size m) (min_zone_cells m) (max_zone_cells m)
    (mkMaintenanceMetrics (merge_count x) (as_u64 (split_count x + 1))
       (as_u64 (rebalance_disruptions x + 1))).

Definition add_members (now : Z) (c : CellState) (ms : list string) : CellState :=
  fold_left (fun c m => snd (add_member now c m)) ms c.

(** [CellConfig::new(max_size)] with the identifier and minimum overwritten *)
Definition maintained_config (m : HierarchyMaintainer) (now : Z) (uuid : string) (max : Z)
  : CellConfig :=
  let cfg := config_new uuid now max in
  mkCellConfig uuid (max_size cfg) (as_u32 (min_cell_size m)) (created_at cfg).

(** Capabilities of both cells, each identifier once: the [HashSet] of the loop is
    the first component. *)
Definition combine_capabilities (caps : list Capability) : list Capability :=
  snd (fold_left (fun '(seen, out) cap =>
         if bool_decide (id cap ∈ (seen : gset string)) then (seen, out)
         else ({[id cap]} ∪ seen, out ++ [cap])) caps (∅, [])).

Definition merge_cells (m : HierarchyMaintainer) (now : Z) (uuid : string)
    (cell1 cell2 : CellState) : result Error CellState * HierarchyMaintainer :=
  let total_members := len (members cell1) + len (members cell2) in
  let max := Z.max (as_u32 (max_cell_size m)) (as_u32 total_members) in
  let merged := cell_new now (maintained_config m now uuid max) in
  let merged := add_members now merged (members cell1 ++ members cell2) in
  let caps := combine_capabilities (capabilities cell1 ++ capabilities cell2) in
  let ts :=
    if seconds_or_zero (timestamp cell1) <? seconds_or_zero (timestamp cell2)
    then timestamp cell2 else timestamp cell1 in
  let cohort := match cohort_id cell1 with Some h => Some h | None => cohort_id cell2 end in
  (Ok (mkCellState (config merged) None (members merged) caps cohort ts), count_merge m).

Definition split_cell (m : HierarchyMaintainer) (now : Z) (uuid_a uuid_b : string)
    (cell : CellState) : result Error (CellState * CellState) * HierarchyMaintainer :=
  let member_count := len (members cell) in
  if member_count <? 2 then (Err (EInternal "Cell too small to split"), m)
  else
    let split_point := member_count / 2 in
    let cell_a := cell_new now (maintained_config m now uuid_a (as_u32 (max_cell_size m))) in
    let cell_b := cell_new now (maintained_config m now uuid_b (as_u32 (max_cell_size m))) in
    let '(cell_a, cell_b) :=
      fold_left (fun '(a, b) '(i, member) =>
          if (Z.of_nat i) <? split_point then (snd (add_member now a member), b)
          else (a, snd (add_member now b member)))
        (zip (seq 0 (length (members cell))) (members cell)) (cell_a, cell_b) in
    let finish c :=
      mkCellState (config c) None (members c) (capabilities cell) (cohort_id cell)
        (timestamp cell) in
    (Ok (finish cell_a, finish cell_b), count_split m).

Definition id_or_unknown (c : CellState) : string := default "<unknown>"%string (get_id c).

(** Score of a candidate: its size, less 100 (not below 0) in the same cohort. *)
Definition candidate_score (cell candidate : CellState) : Z :=
  let score := len (members candidate) in
  match cohort_id cell, cohort_id candidate with
  | Some h, Some h' => if bool_decide (h = h') then saturating_sub score 100 else score
  | _, _ => score
  end.

Definition candidate_eligible (m : HierarchyMaintainer) (cell candidate : CellState) : bool :=
  negb (bool_decide (id_or_unknown candidate = id_or_unknown cell)) &&
  negb (max_cell_size m <? len (members cell) + len (members candidate)).

Definition find_merge_candidate (m : HierarchyMaintainer) (cell : CellState)
    (candidates : list CellState) : option string :=
  let best := fold_left (fun best candidate =>
      if negb (candidate_eligible m cell candidate) then best
      else
        let score := candidate_score cell candidate in
        match best with
        | None => Some (candidate, score)
        | Some (_, best_score) => if score <? best_score then Some (candidate, score) else best
        end) candidates (None : option (CellState * Z)) in
  (fun p => id_or_unknown (fst p)) <$> best.

Definition needs_zone_rebalance (m : HierarchyMaintainer) (zone : ZoneState) : bool :=
  let cell_count := len (cells zone) in
  if cell_count <? min_zone_cells m then true
  else if max_zone_cells m <? cell_count then true
  else false.

Definition get_metrics (m : HierarchyMaintainer) : MaintenanceMetrics := metrics m.

(** storage/cell_store.rs: documents that decode to a cell meeting its own minimum. *)
Definition get_valid_cells (docs : list (option CellState)) : list CellState :=
  filter (fun c => cell_is_valid c = true) (omap (fun d => d) docs).

(** State of a rebalancing pass. *)
Record pass := mkPass {
  p_maintainer : HierarchyMaintainer;
  p_routing : RoutingTable;
  p_operations : Z;
  p_next_uuid : nat
}.

(** One iteration of the loop of [check_and_rebalance]. *)
Definition rebalance_cell (fresh : nat -> string) (now : Z) (all_cells : list CellState)
    (p : pass) (cell : CellState) : result Error pass :=
  let m := p_maintainer p in
  match needs_rebalance m cell with
  | Merge =>
      match find_merge_candidate m cell all_cells with
      | Some target_id =>
          let merged_id := fresh (p_next_uuid p) in
          let routing := snd (RoutingTable.merge_cells (p_routing p)
            [id_or_unknown cell; target_id] merged_id (cohort_id cell) now) in
          Ok (mkPass m routing (p_operations p + 1) (S (p_next_uuid p)))
      | None => Ok p
      end
  | Split =>
      let uuid_a := fresh (p_next_uuid p) in
      let uuid_b := fresh (S (p_next_uuid p)) in
      let '(res, m) := split_cell m now uuid_a uuid_b cell in
      let? (cell_a, cell_b) := res in
      let routing := snd (RoutingTable.split_cell (p_routing p) (id_or_unknown cell)
        (id_or_unknown cell_a) (id_or_unknown cell_b) (members cell_a) (members cell_b)
        (cohort_id cell) now) in
      Ok (mkPass m routing (p_operations p + 1) (S (S (p_next_uuid p))))
  | NoAction => Ok p
  end.

Fixpoint rebalance_cells (fresh : nat -> string) (now : Z) (all_cells todo : list CellState)
    (p : pass) : result Error pass :=
  match todo with
  | [] => Ok p
  | cell :: todo =>
      let? p := rebalance_cell fresh now all_cells p cell in
      rebalance_cells fresh now all_cells todo p
  end.

(** [docs] is the answer of the document store to the query for all cells. *)
Definition check_and_rebalance (fresh : nat -> string) (now : Z) (m : HierarchyMaintainer)
    (routing : RoutingTable) (docs : result Error (list (option CellState)))
  : result Error pass :=
  let? docs := docs in
  let all_cells := get_valid_cells docs in
  rebalance_cells fresh now all_cells all_cells (mkPass m routing 0 0).

(** ** Thresholds *)

Definition maintainer_ok (m : HierarchyMaintainer) : Prop :=
  0 < min_cell_size m < max_cell_size m /\ 0 < min_zone_cells m <= max_zone_cells m.

Lemma maintainer_new_ok a b c d m : maintainer_new a b c d = Some m -> maintainer_ok m.
Proof.
  unfold maintainer_new. bool_arith; simpl; try done. intros [= <-]. split; simpl; lia.
Qed.

(** ** Filling a new cell *)

Lemma add_member_config now c n : config (snd (add_member now c n)) = config c.
Proof. unfold add_member. destruct (cell_is_full c); [done|]. by case_bool_decide. Qed.

Lemma add_members_config now ms : forall c, config (add_members now c ms) = config c.
Proof.
  induction ms as [|x ms IH]; intros c; [done|]. unfold add_members in *; simpl.
  by rewrite IH, add_member_config.
Qed.

(** Adding distinct newcomers keeps the prefix that fits. *)
Lemma add_members_take now cfg ms : forall c,
  config c = Some cfg -> NoDup (members c ++ ms) ->
  members (add_members now c ms) =
  members c ++ take (Z.to_nat (max_size cfg) - length (members c)) ms.
Proof.
  induction ms as [|x ms IH]; intros c Hc Hnd; [by rewrite take_nil, app_nil_r|].
  change (add_members now c (x :: ms)) with (add_members now (snd (add_member now c x)) ms).
  assert (x ∉ members c) as Hx.
  { intros Hin. apply NoDup_app in Hnd as (_ & Hd & _). apply (Hd x Hin). by left. }
  destruct (cell_is_full c) eqn:Hf.
  - unfold cell_is_full in Hf. rewrite Hc in Hf. apply Z.leb_le in Hf. unfold len in Hf.
    assert (snd (add_member now c x) = c) as ->.
    { unfold add_member, cell_is_full. rewrite Hc. unfold len. bool_arith; done || lia. }
    rewrite IH; [|done|].
    + replace (Z.to_nat (max_size cfg) - length (members c))%nat with 0%nat by lia.
      by rewrite !take_0.
    + apply NoDup_app in Hnd as (H1 & H2 & H3). apply NoDup_cons in H3 as [_ H3].
      apply NoDup_app. split_and!; [done|set_solver|done].
  - assert (members (snd (add_member now c x)) = members c ++ [x]) as Hm.
    { unfold add_member. rewrite Hf. by rewrite bool_decide_eq_false_2. }
    unfold cell_is_full in Hf. rewrite Hc in Hf. apply Z.leb_gt in Hf. unfold len in Hf.
    rewrite IH; [|by rewrite add_member_config|by rewrite Hm, <- app_assoc].
    rewrite Hm, length_app, <- app_assoc. simpl.
    replace (Z.to_nat (max_size cfg) - length (members c))%nat
      with (S (Z.to_nat (max_size cfg) - (length (members c) + 1)))%nat by lia.
    done.
Qed.

(** Where there is room for everyone, adding is the union. *)
Lemma add_members_union now cfg ms : forall c,
  config c = Some cfg -> len (members c) + len ms <= max_size cfg ->
  members (add_members now c ms) = union_by (fun x => x) (members c) ms.
Proof.
  induction ms as [|x ms IH]; intros c Hc Hroom; [done|].
  change (add_members now c (x :: ms)) with (add_members now (snd (add_member now c x)) ms).
  rewrite union_by_cons.
  assert (members (snd (add_member now c x)) = push_absent (fun x => x) (members c) x) as Hm.
  { unfold add_member, cell_is_full, push_absent. rewrite Hc.
    unfold len in Hroom; simpl in Hroom. unfold len. bool_arith; [lia|].
    rewrite has_key_id. by destruct (bool_decide (x ∈ members c)). }
  rewrite IH, Hm; [done|by rewrite add_member_config|].
  rewrite Hm. unfold push_absent. destruct (has_key _ _ _).
  - unfold len in *; simpl in *. lia.
  - rewrite len_app. unfold len in *; simpl in *. lia.
Qed.

Lemma combine_capabilities_loop caps : forall (seen : gset string) out,
  (forall k, k ∈ seen <-> k ∈ (id <$> out)) ->
  snd (fold_left (fun '(seen, out) cap =>
         if bool_decide (id cap ∈ (seen : gset string)) then (seen, out)
         else ({[id cap]} ∪ seen, out ++ [cap])) caps (seen, out)) = union_by id out caps.
Proof.
  induction caps as [|cap caps IH]; intros seen out Hs; [done|].
  cbn [fold_left]. rewrite union_by_cons. unfold push_absent.
  case_bool_decide as B; rewrite Hs in B.
  - rewrite (proj2 (has_key_spec id out (id cap)) B). by apply IH.
  - rewrite (proj2 (has_key_false id out (id cap)) B). apply IH.
    intros k. rewrite elem_of_union, elem_of_singleton, Hs, fmap_app, elem_of_app.
    simpl. rewrite list_elem_of_singleton. tauto.
Qed.

Lemma combine_capabilities_union caps : combine_capabilities caps = union_by id [] caps.
Proof. unfold combine_capabilities. apply combine_capabilities_loop. set_solver. Qed.

Lemma split_loop now k ms : forall s a b,
  fold_left (fun '(a, b) '(i, member) =>
      if (Z.of_nat i) <? Z.of_nat k then (snd (add_member now a member), b)
      else (a, snd (add_member now b member)))
    (zip (seq s (length ms)) ms) (a, b) =
  (add_members now a (take (k - s) ms), add_members now b (drop (k - s) ms)).
Proof.
  induction ms as [|x ms IH]; intros s a b; [by rewrite take_nil, drop_nil|].
  simpl length. cbn [seq zip zip_with fold_left].
  destruct (Z.ltb_spec (Z.of_nat s) (Z.of_nat k)) as [Hlt|Hge].
  - rewrite IH. replace (k - s)%nat with (S (k - S s))%nat by lia. done.
  - rewrite IH. replace (k - S s)%nat with 0%nat by lia.
    by replace (k - s)%nat with 0%nat by lia.
Qed.

(** ** Merge *)

(** Merging two cells keeps every member and every capability identifier of
    both, once each, leaves no leader, and takes the newer timestamp, as long as
    the number of members fits the 32-bit size field. *)
Theorem maintainer_merge_cells_spec m now uuid c1 c2 :
  is_u32 (len (members c1) + len (members c2)) ->
  exists c m', merge_cells m now uuid c1 c2 = (Ok c, m') /\
    (forall x, x ∈ members c <-> x ∈ members c1 \/ x ∈ members c2) /\
    NoDup (members c) /\
    (forall k, k ∈ (id <$> capabilities c) <->
       k ∈ (id <$> capabilities c1) \/ k ∈ (id <$> capabilities c2)) /\
    NoDup (id <$> capabilities c) /\
    within_capacity c /\ leader_id c = None /\ get_id c = Some uuid /\
    seconds_or_zero (timestamp c) =
      Z.max (seconds_or_zero (timestamp c1)) (seconds_or_zero (timestamp c2)) /\
    merge_count (metrics m') = as_u64 (merge_count (metrics m) + 1).
Proof.
  intros Hfit. unfold merge_cells. cbv zeta. do 2 eexists. split; [done|]. simpl.
  set (cfg := maintained_config m now uuid
    (Z.max (as_u32 (max_cell_size m)) (as_u32 (len (members c1) + len (members c2))))).
  assert (members (add_members now (cell_new now cfg) (members c1 ++ members c2)) =
          union_by (fun x => x) [] (members c1 ++ members c2)) as Hms.
  { apply (add_members_union now cfg); [done|]. simpl.
    rewrite len_app, (as_u32_small _ Hfit). change (len (@nil string)) with 0. lia. }
  pose proof (length_union_by (fun x : string => x) [] (members c1 ++ members c2)) as Hle.
  rewrite Hms, combine_capabilities_union.
  split_and!; try done.
  - intros x. rewrite elem_of_union_id, elem_of_app, elem_of_nil. tauto.
  - apply NoDup_union_id, NoDup_nil_2.
  - intros k. rewrite elem_of_union_by_key, fmap_app, elem_of_app. set_solver.
  - apply NoDup_union_by, NoDup_nil_2.
  - unfold within_capacity; simpl. rewrite add_members_config; simpl.
    rewrite (as_u32_small _ Hfit). revert Hle. unfold len. rewrite length_app. simpl. lia.
  - unfold get_id; simpl. by rewrite add_members_config.
  - bool_arith; lia.
Qed.

(** ** Split *)

(** A split deals the members out in order, the first half to one cell and the
    second half to the other, each cut at the maximum cell size. *)
Theorem split_cell_members m now ua ub c :
  NoDup (members c) -> 2 <= len (members c) ->
  exists a b m', split_cell m now ua ub c = (Ok (a, b), m') /\
    (let k := (length (members c) / 2)%nat in
     let cap := Z.to_nat (as_u32 (max_cell_size m)) in
     members a = take cap (take k (members c)) /\
     members b = take cap (drop k (members c))) /\
    capabilities a = capabilities c /\ capabilities b = capabilities c /\
    leader_id a = None /\ leader_id b = None /\
    get_id a = Some ua /\ get_id b = Some ub /\
    split_count (metrics m') = as_u64 (split_count (metrics m) + 1).
Proof.
  intros Hnd Hlen. unfold split_cell.
  destruct (Z.ltb_spec (len (members c)) 2) as [?|_]; [lia|]. cbv zeta.
  assert (len (members c) / 2 = Z.of_nat (length (members c) / 2)) as Hk.
  { unfold len. by rewrite Nat2Z.inj_div. }
  rewrite Hk, split_loop, Nat.sub_0_r. cbv beta iota.
  do 3 eexists. split; [done|]. simpl.
  assert (forall u l, NoDup l ->
    members (add_members now (cell_new now (maintained_config m now u (as_u32 (max_cell_size m)))) l)
    = take (Z.to_nat (as_u32 (max_cell_size m))) l) as Hfill.
  { intros u l Hl.
    rewrite (add_members_take now (maintained_config m now u (as_u32 (max_cell_size m)))) by done.
    simpl. by rewrite Nat.sub_0_r. }
  split_and!; try done.
  - apply Hfill. eapply sublist_NoDup; [done|]. apply sublist_take.
  - apply Hfill. eapply sublist_NoDup; [done|]. apply sublist_drop.
  - unfold get_id. simpl. by rewrite add_members_config.
  - unfold get_id. simpl. by rewrite add_members_config.
Qed.

(** A split loses no member exactly when the larger half fits the maximum
    cell size; beyond twice the maximum some member ends up in neither cell. *)
Theorem split_cell_lossless_iff m now ua ub c a b m' :
  NoDup (members c) -> split_cell m now ua ub c = (Ok (a, b), m') ->
  (members a ++ members b ≡ₚ members c <->
   len (members c) - len (members c) / 2 <= as_u32 (max_cell_size m)).
Proof.
  intros Hnd Hs.
  assert (2 <= len (members c)) as Hlen.
  { unfold split_cell in Hs. destruct (Z.ltb_spec (len (members c)) 2); [done|lia]. }
  destruct (split_cell_members m now ua ub c Hnd Hlen)
    as (a' & b' & m'' & E & (Ha & Hb) & _).
  rewrite E in Hs. injection Hs as -> -> ->. rewrite Ha, Hb. clear Ha Hb E.
  pose proof (as_u32_range (max_cell_size m)) as [Hcap0 _].
  unfold len in *. replace (Z.of_nat (length (members c)) / 2)
    with (Z.of_nat (length (members c) / 2)) by (by rewrite Nat2Z.inj_div).
  set (n := length (members c)) in *. set (k := (n / 2)%nat).
  assert (k <= n - k)%nat as Hk.
  { unfold k. pose proof (Nat.div_mod_eq n 2). lia. }
  split.
  - intros Hp%Permutation_length. rewrite length_app, !length_take, length_drop in Hp.
    fold n in Hp. lia.
  - intros Hfit. rewrite (take_ge (take k _)), (take_ge (drop k _)), take_drop; [done|..];
      rewrite ?length_take, ?length_drop; fold n; lia.
Qed.

(** ** Choice of a merge candidate *)

Lemma find_merge_candidate_scan m cell cands :
  find_merge_candidate m cell cands =
  id_or_unknown <$> fold_left (pick_min (candidate_score cell))
    (filter (fun c => candidate_eligible m cell c = true) cands) None.
Proof.
  unfold find_merge_candidate.
  assert (forall best,
    fold_left (fun best candidate =>
      if negb (candidate_eligible m cell candidate) then best
      else
        let score := candidate_score cell candidate in
        match best with
        | None => Some (candidate, score)
        | Some (_, best_score) => if score <? best_score then Some (candidate, score) else best
        end) cands ((fun c => (c, candidate_score cell c)) <$> best) =
    (fun c => (c, candidate_score cell c)) <$>
      fold_left (pick_min (candidate_score cell))
        (filter (fun c => candidate_eligible m cell c = true) cands) best) as Hscan.
  { induction cands as [|c cands IH]; intros best; [done|]. cbn [fold_left].
    destruct (candidate_eligible m cell c) eqn:E; cbn [negb].
    - rewrite filter_cons_True by done. cbn [fold_left]. rewrite <- IH. f_equal.
      destruct best as [b|]; simpl; [|done]. by destruct (_ <? _).
    - rewrite filter_cons_False by congruence. by rewrite <- IH. }
  specialize (Hscan None). cbn [fmap option_fmap option_map] in Hscan. rewrite Hscan.
  by destruct (fold_left (pick_min (candidate_score cell)) _ None).
Qed.

(** The candidate is a different cell that can take all members within the
    maximum size, has the least score among those, and is the first such; there is
    none only when no cell qualifies. *)
Theorem find_merge_candidate_spec m cell cands :
  match find_merge_candidate m cell cands with
  | Some target => exists c, c ∈ cands /\ id_or_unknown c = target /\
      target <> id_or_unknown cell /\
      len (members cell) + len (members c) <= max_cell_size m /\
      forall c', c' ∈ cands -> candidate_eligible m cell c' = true ->
        candidate_score cell c <= candidate_score cell c'
  | None => forall c, c ∈ cands -> id_or_unknown c <> id_or_unknown cell ->
      max_cell_size m < len (members cell) + len (members c)
  end.
Proof.
  rewrite find_merge_candidate_scan.
  assert (forall c, candidate_eligible m cell c = true <->
    id_or_unknown c <> id_or_unknown cell /\
    len (members cell) + len (members c) <= max_cell_size m) as Hel.
  { intros c. unfold candidate_eligible.
    rewrite andb_true_iff, !negb_true_iff, bool_decide_eq_false, Z.ltb_ge. done. }
  pose proof (pick_min_leftmost (candidate_score cell)
    (filter (fun c => candidate_eligible m cell c = true) cands)) as Hpick.
  destruct (fold_left (pick_min (candidate_score cell)) _ None) as [c|]; simpl.
  - destruct Hpick as (l1 & l2 & Hl & H1 & H2).
    assert (forall c', c' ∈ l1 ++ c :: l2 <-> candidate_eligible m cell c' = true /\ c' ∈ cands)
      as Hin by (intros c'; rewrite <- Hl; by rewrite list_elem_of_filter).
    destruct (proj1 (Hin c)) as [Hc Hcin]; [set_solver|]. apply Hel in Hc as [Hne Hfit].
    exists c. split_and!; try done. intros c' Hc' He'.
    assert (c' ∈ l1 ++ c :: l2) as Hx by by apply Hin.
    apply elem_of_app in Hx as [Hx|[->|Hx]%elem_of_cons]; [|lia|by apply H2].
    specialize (H1 c' Hx). lia.
  - intros c Hc Hne. apply Z.nle_gt. intros Hle.
    assert (c ∈ filter (fun c => candidate_eligible m cell c = true) cands) as Hf.
    { apply list_elem_of_filter. split; [by apply Hel|done]. }
    rewrite Hpick in Hf. by apply not_elem_of_nil in Hf.
Qed.

(** Among cells of its own cohort with at most 100 members the candidate is the
    first that fits, not the smallest: the bonus brings every score to 0. *)
Theorem same_cohort_candidate_is_first m cell cands :
  cohort_id cell <> None ->
  (forall c, c ∈ cands -> cohort_id c = cohort_id cell /\ len (members c) <= 100) ->
  find_merge_candidate m cell cands =
  id_or_unknown <$> head (filter (fun c => candidate_eligible m cell c = true) cands).
Proof.
  intros Hn Hall. rewrite find_merge_candidate_scan. f_equal.
  assert (forall c, c ∈ cands -> candidate_score cell c = 0) as Hzero.
  { intros c Hc. destruct (Hall c Hc) as [Heq Hle]. unfold candidate_score. rewrite Heq.
    destruct (cohort_id cell) as [h|]; [|done]. rewrite bool_decide_eq_true_2 by done.
    unfold saturating_sub. lia. }
  pose proof (pick_min_leftmost (candidate_score cell)
    (filter (fun c => candidate_eligible m cell c = true) cands)) as Hpick.
  destruct (fold_left (pick_min (candidate_score cell)) _ None) as [c|]; [|by rewrite Hpick].
  destruct Hpick as (l1 & l2 & Hl & H1 & _).
  assert (forall c', c' ∈ l1 ++ c :: l2 -> candidate_score cell c' = 0) as Hz.
  { intros c' Hc'. rewrite <- Hl in Hc'. apply list_elem_of_filter in Hc' as [_ ?]. auto. }
  rewrite Hl. destruct l1 as [|y l1]; [done|].
  specialize (H1 y ltac:(by left)). rewrite !Hz in H1 by set_solver. lia.
Qed.

(** ** The rebalancing pass *)

Lemma needs_rebalance_split_len m c :
  maintainer_ok m -> needs_rebalance m c = Split -> 2 <= len (members c).
Proof. intros [? _]. unfold needs_rebalance. bool_arith; try done. lia. Qed.

Lemma split_cell_Ok m now ua ub c :
  2 <= len (members c) ->
  exists a b, split_cell m now ua ub c = (Ok (a, b), count_split m).
Proof.
  intros Hlen. unfold split_cell.
  destruct (Z.ltb_spec (len (members c)) 2) as [?|_]; [lia|]. cbv zeta.
  destruct (fold_left _ _ _) as [a b]. eauto.
Qed.

(** Whether the pass acts on a cell. *)
Definition acts_on (m : HierarchyMaintainer) (all_cells : list CellState) (c : CellState) : bool :=
  match needs_rebalance m c with
  | Merge => match find_merge_candidate m c all_cells with Some _ => true | None => false end
  | Split => true
  | NoAction => false
  end.

Definition same_thresholds (m m' : HierarchyMaintainer) : Prop :=
  min_cell_size m = min_cell_size m' /\ max_cell_size m = max_cell_size m' /\
  min_zone_cells m = min_zone_cells m' /\ max_zone_cells m = max_zone_cells m'.

Lemma needs_rebalance_thresholds m m' c :
  same_thresholds m m' -> needs_rebalance m c = needs_rebalance m' c.
Proof. intros (H1 & H2 & _). unfold needs_rebalance. by rewrite H1, H2. Qed.

Lemma find_merge_candidate_thresholds m m' c cands :
  same_thresholds m m' -> find_merge_candidate m c cands = find_merge_candidate m' c cands.
Proof.
  intros (_ & H2 & _). unfold find_merge_candidate, candidate_eligible. by rewrite H2.
Qed.

Lemma rebalance_cell_spec fresh now all_cells p cell m0 :
  maintainer_ok m0 -> same_thresholds (p_maintainer p) m0 ->
  exists p', rebalance_cell fresh now all_cells p cell = Ok p' /\
    same_thresholds (p_maintainer p') m0 /\
    merge_count (metrics (p_maintainer p')) = merge_count (metrics (p_maintainer p)) /\
    p_operations p' = p_operations p + (if acts_on m0 all_cells cell then 1 else 0) /\
    (acts_on m0 all_cells cell = false -> p' = p).
Proof.
  intros Hok Hth. unfold rebalance_cell, acts_on.
  rewrite (needs_rebalance_thresholds _ _ cell Hth).
  destruct (needs_rebalance m0 cell) eqn:En.
  - exists p. split_and!; try done. lia.
  - rewrite (find_merge_candidate_thresholds _ _ cell all_cells Hth).
    destruct (find_merge_candidate m0 cell all_cells); eexists; split_and!; try done. simpl. lia.
  - destruct (split_cell_Ok (p_maintainer p) now (fresh (p_next_uuid p))
      (fresh (S (p_next_uuid p))) cell) as (a & b & ->).
    { by apply (needs_rebalance_split_len m0). }
    eexists; split_and!; try done.
Qed.

(** A rebalancing pass with thresholds accepted by the constructor always
    completes, performs one operation for each valid cell that is too large or
    too small with a partner, and never touches the merge counter of the metrics. *)
Theorem check_and_rebalance_total fresh now m routing docs a b c d :
  maintainer_new a b c d = Some m ->
  exists p, check_and_rebalance fresh now m routing (Ok docs) = Ok p /\
    p_operations p =
      len (filter (fun x => acts_on m (get_valid_cells docs) x = true) (get_valid_cells docs)) /\
    get_metrics (p_maintainer p) =
      mkMaintenanceMetrics 0 (split_count (get_metrics (p_maintainer p)))
        (rebalance_disruptions (get_metrics (p_maintainer p))).
Proof.
  intros Hnew. pose proof (maintainer_new_ok _ _ _ _ _ Hnew) as Hok.
  assert (merge_count (metrics m) = 0) as Hm0.
  { unfold maintainer_new in Hnew. repeat (case_match; [done|]). by simplify_eq. }
  unfold check_and_rebalance. generalize (get_valid_cells docs) as all. intros all.
  assert (forall todo p, same_thresholds (p_maintainer p) m ->
    exists p', rebalance_cells fresh now all todo p = Ok p' /\
      merge_count (metrics (p_maintainer p')) = merge_count (metrics (p_maintainer p)) /\
      p_operations p' = p_operations p + len (filter (fun x => acts_on m all x = true) todo))
    as Hloop.
  { induction todo as [|x todo IH]; intros p Hth.
    - exists p. split_and!; try done. unfold len; simpl. lia.
    - destruct (rebalance_cell_spec fresh now all p x m Hok Hth)
        as (p1 & E1 & Hth1 & Hmc & Hops & _).
      destruct (IH p1 Hth1) as (p2 & E2 & Hmc2 & Hops2).
      exists p2. simpl. rewrite E1. split_and!; [done|congruence|]. rewrite Hops2, Hops.
      destruct (acts_on m all x) eqn:Ea.
      + rewrite filter_cons_True by done. unfold len; simpl. lia.
      + rewrite filter_cons_False by congruence. lia. }
  destruct (Hloop all (mkPass m routing 0 0)) as (p & E & Hmc & Hops); [done|].
  exists p. split_and!; [done|done|]. simpl in Hmc. rewrite Hm0 in Hmc.
  unfold get_metrics. destruct (metrics (p_maintainer p)); simpl in *. by subst.
Qed.

(** Cells whose own minimum is at least the maintainer's are never merged by the
    pass: the store filters out the undersized ones before they are looked at. *)
Theorem undersized_cells_never_merged m docs c :
  (forall x cfg, Some x ∈ docs -> config x = Some cfg -> min_cell_size m <= min_size cfg) ->
  c ∈ get_valid_cells docs -> needs_rebalance m c <> Merge.
Proof.
  intros Hcfg Hc. unfold get_valid_cells in Hc.
  apply list_elem_of_filter in Hc as [Hv Hin]. apply list_elem_of_omap in Hin as (d & Hd & ->).
  unfold cell_is_valid in Hv. destruct (config c) as [cfg|] eqn:E; [|done].
  apply Z.leb_le in Hv. specialize (Hcfg c cfg Hd E).
  unfold needs_rebalance. bool_arith; done || lia.
Qed.

(** ** Concrete instances *)

Definition example_maintainer : HierarchyMaintainer :=
  mkHierarchyMaintainer 2 4 1 3 (mkMaintenanceMetrics 0 0 0).

Definition example_cell (id : string) (ms : list string) : CellState :=
  mkCellState (Some (mkCellConfig id 10 2 None)) None ms [] None None.

Lemma split_cell_lossless_iff_witness :
  exists a b m', split_cell example_maintainer 0 "a" "b" (example_cell "c" ["n1"; "n2"; "n3"; "n4"; "n5"])
      = (Ok (a, b), m') /\
    (members a ++ members b ≡ₚ ["n1"; "n2"; "n3"; "n4"; "n5"]%string <-> 5 - 5 / 2 <= 4).
Proof.
  do 3 eexists. split; [vm_compute; reflexivity|].
  eapply (split_cell_lossless_iff example_maintainer 0 "a" "b"
    (example_cell "c" ["n1"; "n2"; "n3"; "n4"; "n5"])).
  - apply (bool_decide_unpack _). vm_compute. exact I.
  - vm_compute. reflexivity.
Defined.

Lemma check_and_rebalance_total_witness :
  exists p, check_and_rebalance (fun _ => "u"%string) 0 example_maintainer new
    (Ok [Some (example_cell "c" ["n1"; "n2"; "n3"; "n4"; "n5"])]) = Ok p /\ p_operations p = 1.
Proof.
  destruct (check_and_rebalance_total (fun _ => "u"%string) 0 example_maintainer new
    [Some (example_cell "c" ["n1"; "n2"; "n3"; "n4"; "n5"])] 2 4 1 3) as (p & Hp & Hops & _).
  - reflexivity.
  - exists p. split; [exact Hp|]. rewrite Hops. vm_compute. reflexivity.
Defined.

Lemma undersized_cells_never_merged_witness :
  needs_rebalance example_maintainer (example_cell "c" ["n1"; "n2"]) <> Merge.
Proof.
  apply (undersized_cells_never_merged example_maintainer [Some (example_cell "c" ["n1"; "n2"])]).
  - intros x cfg Hx Hc. apply list_elem_of_singleton in Hx. injection Hx as ->.
    injection Hc as <-. vm_compute. discriminate.
  - apply list_elem_of_filter. split; [reflexivity|]. simpl. apply list_elem_of_singleton. reflexivity.
Defined.
