(* ===== verification/Policy.v ===== *)
(** * Generic policy engine

    Models peat-protocol/src/policy: the [Conflictable] trait as a class, the
    resolution policies (policies.rs) and the generic conflict resolver
    (resolver.rs). An [f64] is an IEEE binary64 value of the standard library's
    executable specification; [partial_cmp] is [SFcompare]. [sort_by] with a
    comparison that is no total preorder (a NaN, or values of different kinds
    rounded together) has no specified result in Rust: the theorems about the
    attribute policies are stated where the comparison is one. *)

From S2P Require Import Prelude Float Error.
From stdpp Require Import pretty.
From Stdlib Require Import SpecFloat.

Open Scope Z_scope.

Inductive AttributeValue :=
| AString (s : string)
| AInt (v : Z)
| AUint (v : Z)
| AFloat (v : spec_float)
| ABool (b : bool)
| ATimestamp (v : Z).

Definition as_int (a : AttributeValue) : Z :=
  match a with AInt v => v | AUint v => as_i64 v | _ => 0 end.

Definition as_uint (a : AttributeValue) : Z :=
  match a with AUint v => v | ATimestamp v => v | AInt v => as_u64 v | _ => 0 end.

Definition as_float (a : AttributeValue) : spec_float :=
  match a with
  | AFloat v => v
  | AInt v => f64_of_Z v
  | AUint v => f64_of_Z v
  | _ => S754_zero false
  end.

Definition as_bool (a : AttributeValue) : bool :=
  match a with ABool v => v | _ => false end.

Definition as_string (a : AttributeValue) : string :=
  match a with AString v => v | _ => EmptyString end.

Inductive ConflictResult (T : Type) :=
| NoConflict
| Conflict (items : list T).

Arguments NoConflict {T}.
Arguments Conflict {T} items.

Definition is_conflict {T} (r : ConflictResult T) : bool :=
  match r with Conflict _ => true | NoConflict => false end.

Definition conflicting_items {T} (r : ConflictResult T) : option (list T) :=
  match r with Conflict items => Some items | NoConflict => None end.

Class Conflictable (T : Type) := {
  item_id : T -> string;
  conflict_keys : T -> list string;
  item_timestamp : T -> option Z;
  attributes : T -> gmap string AttributeValue
}.

(** The comparison shared by the two attribute policies, on the looked-up values,
    in ascending order; a missing attribute comes last. *)
Definition cmp_attr (descending : bool) (a_val b_val : option AttributeValue) : comparison :=
  let dir c := if descending then CompOpp c else c in
  match a_val, b_val with
  | Some (AInt a), Some (AInt b) => dir (a ?= b)
  | Some (AUint a), Some (AUint b) => dir (a ?= b)
  | Some (AFloat a), Some (AFloat b) =>
      if descending then cmp_float b a else cmp_float a b
  | Some a, Some b =>
      if descending then cmp_float (as_float b) (as_float a)
      else cmp_float (as_float a) (as_float b)
  | Some _, None => Lt
  | None, Some _ => Gt
  | None, None => Eq
  end.

Section Engine.
Context {T : Type} `{Conflictable T}.

(** ** Policies *)

Record ResolutionPolicy := mkResolutionPolicy {
  policy_resolve : list T -> result Error T;
  policy_name : string
}.

(** The shape shared by the sorting policies: reject nothing to resolve, return a
    single item, else sort and take the first. A sort keeps the items, so the
    default of [hd] is never taken: the [unwrap] of the code cannot fail. *)
Definition first_sorted (cmp : T -> T -> comparison) (items : list T) : result Error T :=
  match items with
  | [] => Err (EInvalidInput "Cannot resolve empty item list")
  | [x] => Ok x
  | x :: _ => Ok (hd x (sort_by cmp items))
  end.

Definition time_or_zero (x : T) : Z := default 0 (item_timestamp x).

Definition LastWriteWinsPolicy : ResolutionPolicy :=
  mkResolutionPolicy (first_sorted (fun a b => time_or_zero b ?= time_or_zero a))
    "LAST_WRITE_WINS".

Definition HighestAttributeWinsPolicy (attribute_name : string) : ResolutionPolicy :=
  mkResolutionPolicy
    (first_sorted (fun a b =>
       cmp_attr true (attributes a !! attribute_name) (attributes b !! attribute_name)))
    attribute_name.

Definition LowestAttributeWinsPolicy (attribute_name : string) : ResolutionPolicy :=
  mkResolutionPolicy
    (first_sorted (fun a b =>
       cmp_attr false (attributes a !! attribute_name) (attributes b !! attribute_name)))
    attribute_name.

Definition RejectConflictPolicy : ResolutionPolicy :=
  mkResolutionPolicy
    (fun items =>
       if 1 <? len items then
         Err (EConflictDetected ("Conflict detected between " +:+ pretty (len items) +:+
                                 " items (policy: REJECT)"))
       else match items with
            | x :: _ => Ok x
            | [] => Err (EInvalidInput "Empty item list")
            end)
    "REJECT_CONFLICT".

(** ** Resolver *)

Record GenericConflictResolver := mkGenericConflictResolver {
  active_items : gmap string (list T)
}.

Definition resolver_new : GenericConflictResolver := mkGenericConflictResolver ∅.

Definition generic_check_conflict (r : GenericConflictResolver) (item : T) : ConflictResult T :=
  let conflicting :=
    fold_left (fun conflicting key =>
      match active_items r !! key with
      | Some existing =>
          fold_left (fun conflicting existing_item =>
            if has_key item_id conflicting (item_id existing_item) then conflicting
            else conflicting ++ [existing_item]) existing conflicting
      | None => conflicting
      end) (conflict_keys item) [] in
  match conflicting with [] => NoConflict | _ => Conflict conflicting end.

Definition generic_resolve (items : list T) (policy : ResolutionPolicy) : result Error T :=
  policy_resolve policy items.

Definition generic_register (r : GenericConflictResolver) (item : T)
  : result Error unit * GenericConflictResolver :=
  (Ok tt,
   mkGenericConflictResolver
     (fold_left (fun items key => <[key := default [] (items !! key) ++ [item]]> items)
        (conflict_keys item) (active_items r))).

Definition generic_unregister (r : GenericConflictResolver) (target : string)
  : result Error unit * GenericConflictResolver :=
  let items := (fun l => filter (fun x => item_id x <> target) l) <$> active_items r in
  (Ok tt, mkGenericConflictResolver (filter (fun e => e.2 <> []) items)).

Definition get_all_active (r : GenericConflictResolver) : list T :=
  fst (fold_left (fun acc item_list =>
         fold_left (fun '(all_items, seen) item =>
           if bool_decide (item_id item ∈ (seen : gset string)) then (all_items, seen)
           else (all_items ++ [item], {[item_id item]} ∪ seen)) item_list acc)
       (map_to_list (active_items r)).*2 ([], ∅)).

Definition active_count (r : GenericConflictResolver) : Z := len (get_all_active r).

Definition get_by_key (r : GenericConflictResolver) (key : string) : list T :=
  default [] (active_items r !! key).

(** ** What the policies choose *)

(** The winner of a sorting policy is the leftmost of the least items. *)
Lemma first_sorted_spec (P : T -> Prop) cmp items :
  cmp_ok P cmp -> Forall P items ->
  match first_sorted cmp items with
  | Ok w => exists l1 l2, items = l1 ++ w :: l2 /\
      (forall y, y ∈ l1 -> cmp w y = Lt) /\ (forall y, y ∈ l2 -> cmp w y <> Gt)
  | Err e => items = [] /\ e = EInvalidInput "Cannot resolve empty item list"
  end.
Proof.
  intros Hok HP. destruct items as [|x [|y items]]; [done| |].
  - simpl. exists [], []. split_and!; [done|..]; intros z Hz; by apply not_elem_of_nil in Hz.
  - unfold first_sorted. destruct (sort_by cmp (x :: y :: items)) as [|w t] eqn:E.
    + by apply sort_by_nil_inv in E.
    + by apply (sort_by_first P cmp Hok _ _ _ HP E).
Qed.

Lemma first_sorted_min (P : T -> Prop) cmp items w y :
  cmp_ok P cmp -> Forall P items -> first_sorted cmp items = Ok w ->
  y ∈ items -> cmp w y <> Gt.
Proof.
  intros Hok HP Hw Hy. pose proof (first_sorted_spec P cmp items Hok HP) as Hs.
  rewrite Hw in Hs. destruct Hs as (l1 & l2 & -> & H1 & H2).
  apply elem_of_app in Hy as [Hy|[->|Hy]%elem_of_cons]; [by rewrite H1| |by apply H2].
  rewrite (cmp_ok_refl P cmp Hok); [done|].
  rewrite Forall_forall in HP. apply HP. set_solver.
Qed.

(** Last-write-wins returns the item with the greatest timestamp (a missing one
    counts as 0), the earliest listed among equals, and fails on no items only. *)
Theorem last_write_wins_spec items :
  match policy_resolve LastWriteWinsPolicy items with
  | Ok w => exists l1 l2, items = l1 ++ w :: l2 /\
      (forall y, y ∈ l1 -> time_or_zero y < time_or_zero w) /\
      (forall y, y ∈ l2 -> time_or_zero y <= time_or_zero w)
  | Err e => items = [] /\ e = EInvalidInput "Cannot resolve empty item list"
  end.
Proof.
  pose proof (first_sorted_spec (fun _ => True) (cmp_desc time_or_zero) items
    (cmp_desc_ok _)) as Hs.
  specialize (Hs ltac:(by apply Forall_true)).
  change (policy_resolve LastWriteWinsPolicy items)
    with (first_sorted (cmp_desc time_or_zero) items).
  destruct (first_sorted _ items) as [w|e]; [|done].
  destruct Hs as (l1 & l2 & -> & H1 & H2). exists l1, l2. split_and!; [done|..].
  - intros y Hy. by apply cmp_desc_Lt, H1.
  - intros y Hy. by apply cmp_desc_le, H2.
Qed.

(** Items for which the attribute is a signed integer or missing. *)
Definition int_or_absent (name : string) (x : T) : Prop :=
  match attributes x !! name with Some (AInt _) => True | None => True | _ => False end.

(** Order of the looked-up values: a missing attribute is below every value. *)
Definition attr_le (a b : option AttributeValue) : Prop :=
  match a, b with
  | None, _ => True
  | Some (AInt x), Some (AInt y) => x <= y
  | _, _ => False
  end.

Ltac int_attrs :=
  unfold int_or_absent in *;
  repeat match goal with
  | _ : context [attributes ?x !! ?n] |- _ => destruct (attributes x !! n) as [[]|]; try done
  | |- context [attributes ?x !! ?n] => destruct (attributes x !! n) as [[]|]; try done
  end.

Lemma cmp_attr_int_ok desc name :
  cmp_ok (int_or_absent name)
    (fun a b => cmp_attr desc (attributes a !! name) (attributes b !! name)).
Proof.
  split.
  - intros x y Hx Hy. int_attrs. simpl. rewrite Z.compare_antisym. by destruct desc.
  - intros x y z Hx Hy Hz. int_attrs. simpl. destruct desc; rewrite <- ?Z.compare_antisym;
      rewrite !Z.compare_le_iff; lia.
Qed.

(** With integer attributes the highest-attribute policy returns an item whose
    value no other exceeds; items without the attribute lose to any value. *)
Theorem highest_attribute_wins_spec name items w :
  Forall (int_or_absent name) items ->
  policy_resolve (HighestAttributeWinsPolicy name) items = Ok w ->
  w ∈ items /\ forall y, y ∈ items -> attr_le (attributes y !! name) (attributes w !! name).
Proof.
  intros HP Hw. pose proof (first_sorted_spec _ _ items (cmp_attr_int_ok true name) HP) as Hs.
  simpl in Hw. rewrite Hw in Hs. destruct Hs as (l1 & l2 & Hl & _).
  split; [rewrite Hl; set_solver|]. intros y Hy.
  pose proof (first_sorted_min _ _ items w y (cmp_attr_int_ok true name) HP Hw Hy) as Hle.
  rewrite Forall_forall in HP.
  assert (int_or_absent name w) as HPw by (apply HP; rewrite Hl; set_solver).
  specialize (HP y Hy). int_attrs. simpl in *.
  rewrite <- Z.compare_antisym, Z.compare_le_iff in Hle. lia.
Qed.

(** The documentation says an item without the attribute counts as 0, but it
    loses even to a negative value, in both the highest and the lowest policy. *)
Theorem missing_attribute_always_loses name x y v :
  attributes x !! name = Some (AInt v) -> attributes y !! name = None ->
  policy_resolve (HighestAttributeWinsPolicy name) [y; x] = Ok x /\
  policy_resolve (LowestAttributeWinsPolicy name) [y; x] = Ok x.
Proof. intros Hx Hy. simpl. by rewrite Hx, Hy. Qed.

(** The reject policy succeeds exactly on a single item. *)
Theorem reject_conflict_spec items :
  is_ok (policy_resolve RejectConflictPolicy items) = true <-> exists x, items = [x].
Proof.
  destruct items as [|x [|y items]]; simpl.
  - split; [done|]. by intros [? ?].
  - split; [eauto|done].
  - destruct (Z.ltb_spec 1 (len (x :: y :: items))) as [_|Hle].
    + split; [done|]. by intros [? ?].
    + unfold len in Hle; simpl in Hle. lia.
Qed.

(** ** The conflict index *)

(** No key maps to an empty list: registering and unregistering keep this. *)
Definition index_ok (r : GenericConflictResolver) : Prop :=
  forall k l, active_items r !! k = Some l -> l <> [].

Lemma check_conflict_union r item :
  generic_check_conflict r item =
  match union_by item_id [] (flat_map (get_by_key r) (conflict_keys item)) with
  | [] => NoConflict | l => Conflict l end.
Proof.
  unfold generic_check_conflict. generalize (conflict_keys item) as keys. intros keys.
  assert (forall acc, fold_left (fun conflicting key =>
      match active_items r !! key with
      | Some existing =>
          fold_left (fun conflicting existing_item =>
            if has_key item_id conflicting (item_id existing_item) then conflicting
            else conflicting ++ [existing_item]) existing conflicting
      | None => conflicting
      end) keys acc = union_by item_id acc (flat_map (get_by_key r) keys)) as ->;
    [|by destruct (union_by _ _ _)].
  induction keys as [|k keys IH]; intros acc; [done|].
  cbn [fold_left flat_map]. rewrite union_by_app, IH. unfold get_by_key at 2.
  by destruct (active_items r !! k).
Qed.

(** A conflict is reported exactly when some registered item shares a key with
    the new one; each such item is represented once, by its identifier. *)
Theorem check_conflict_spec r item :
  match generic_check_conflict r item with
  | NoConflict => forall k, k ∈ conflict_keys item -> get_by_key r k = []
  | Conflict l => l <> [] /\ NoDup (item_id <$> l) /\
      (forall x, x ∈ l -> exists k, k ∈ conflict_keys item /\ x ∈ get_by_key r k) /\
      (forall k x, k ∈ conflict_keys item -> x ∈ get_by_key r k -> item_id x ∈ (item_id <$> l))
  end.
Proof.
  rewrite check_conflict_union.
  set (found := flat_map (get_by_key r) (conflict_keys item)).
  assert (forall x, x ∈ found <-> exists k, k ∈ conflict_keys item /\ x ∈ get_by_key r k) as Hf.
  { intros x. unfold found. rewrite list_elem_of_In, in_flat_map.
    by setoid_rewrite <- list_elem_of_In. }
  destruct (union_by item_id [] found) as [|y l] eqn:E.
  - intros k Hk. apply elem_of_nil_inv. intros x Hx.
    assert (item_id x ∈ (item_id <$> union_by item_id [] found)) as Hin.
    { apply elem_of_union_by_key. right. apply list_elem_of_fmap. exists x.
      split; [done|]. apply Hf. eauto. }
    rewrite E in Hin. by apply not_elem_of_nil in Hin.
  - rewrite <- E. split_and!.
    + by rewrite E.
    + apply NoDup_union_by. constructor.
    + intros x Hx. apply Hf. destruct (union_by_prefix item_id [] found) as (m & Em & Hm).
      rewrite Em in Hx. by apply Hm.
    + intros k x Hk Hx. apply elem_of_union_by_key. right. apply list_elem_of_fmap.
      exists x. split; [done|]. apply Hf. eauto.
Qed.

Lemma unregister_lookup r target k :
  active_items (snd (generic_unregister r target)) !! k =
  match active_items r !! k with
  | Some l => let l' := filter (fun x => item_id x <> target) l in
              if decide (l' = []) then None else Some l'
  | None => None
  end.
Proof.
  unfold generic_unregister; simpl. rewrite map_lookup_filter, lookup_fmap.
  destruct (active_items r !! k) as [l|]; simpl; [|done].
  unfold guard. repeat case_decide; simpl; try done; tauto.
Qed.

(** Unregistering removes every entry of the identifier under every key, keeps all
    the others in their order, and leaves no empty key behind. *)
Theorem unregister_spec r target :
  (forall k, get_by_key (snd (generic_unregister r target)) k =
     filter (fun x => item_id x <> target) (get_by_key r k)) /\
  index_ok (snd (generic_unregister r target)).
Proof.
  split.
  - intros k. unfold get_by_key. rewrite unregister_lookup.
    destruct (active_items r !! k) as [l|]; simpl; [|done]. by case_decide.
  - intros k l. rewrite unregister_lookup. destruct (active_items r !! k) as [l0|]; [|done].
    simpl. case_decide; [done|]. by intros [= <-].
Qed.

Lemma register_lookup r item k :
  NoDup (conflict_keys item) ->
  active_items (snd (generic_register r item)) !! k =
  if decide (k ∈ conflict_keys item) then Some (get_by_key r k ++ [item])
  else active_items r !! k.
Proof.
  unfold generic_register, get_by_key; simpl. generalize (active_items r) as m.
  induction (conflict_keys item) as [|k0 keys IH]; intros m Hnd; simpl; [done|].
  apply NoDup_cons in Hnd as [Hk0 Hnd]. rewrite IH by done. rewrite lookup_insert.
  destruct (decide (k0 = k)) as [->|Hne].
  - rewrite decide_False, decide_True by (done || set_solver). done.
  - destruct (decide (k ∈ keys)); [by rewrite decide_True by set_solver|].
    by rewrite decide_False by set_solver.
Qed.

(** Registering an item and then unregistering it restores the index, when no
    registered item had that identifier. *)
Theorem register_unregister r item :
  index_ok r -> NoDup (conflict_keys item) ->
  (forall k x, x ∈ get_by_key r k -> item_id x <> item_id item) ->
  snd (generic_unregister (snd (generic_register r item)) (item_id item)) = r.
Proof.
  intros Hok Hnd Hfresh. destruct r as [m]. f_equal.
  enough (active_items (snd (generic_unregister
    (snd (generic_register (mkGenericConflictResolver m) item)) (item_id item))) = m) as E.
  { destruct (snd (generic_unregister _ _)). simpl in E. by subst. }
  apply map_eq; intros k. rewrite unregister_lookup, register_lookup by done.
  assert (forall l, m !! k = Some l -> filter (fun x => item_id x <> item_id item) l = l) as Hid.
  { intros l Hl. apply list_filter_all. intros x Hx. apply (Hfresh k).
    unfold get_by_key; simpl. by rewrite Hl. }
  unfold get_by_key; simpl. case_decide; simpl.
  - rewrite filter_app, filter_cons_False by tauto. rewrite filter_nil, app_nil_r.
    destruct (m !! k) as [l|] eqn:El; simpl; [|done]. rewrite (Hid l) by done.
    rewrite decide_False; [done|]. by apply (Hok k).
  - destruct (m !! k) as [l|] eqn:El; [|done]. rewrite (Hid l) by done.
    rewrite decide_False; [done|]. by apply (Hok k).
Qed.

Lemma get_all_active_loop ls : forall (acc : list T) (seen : gset string),
  (forall k, k ∈ seen <-> k ∈ (item_id <$> acc)) ->
  fst (fold_left (fun acc item_list =>
         fold_left (fun '(all_items, seen) item =>
           if bool_decide (item_id item ∈ (seen : gset string)) then (all_items, seen)
           else (all_items ++ [item], {[item_id item]} ∪ seen)) item_list acc)
       ls (acc, seen)) = union_by item_id acc (concat ls).
Proof.
  induction ls as [|l ls IH]; intros acc seen Hs; [done|]. cbn [fold_left concat].
  rewrite union_by_app.
  enough (exists seen', fold_left (fun '(all_items, seen) item =>
           if bool_decide (item_id item ∈ (seen : gset string)) then (all_items, seen)
           else (all_items ++ [item], {[item_id item]} ∪ seen)) l (acc, seen) =
         (union_by item_id acc l, seen') /\
         (forall k, k ∈ seen' <-> k ∈ (item_id <$> union_by item_id acc l)))
    as (seen' & -> & Hs') by by apply IH.
  clear IH. revert acc seen Hs. induction l as [|x l IHl]; intros acc seen Hs; [by exists seen|].
  cbn [fold_left]. rewrite union_by_cons. unfold push_absent.
  case_bool_decide as B; rewrite Hs in B.
  - rewrite (proj2 (has_key_spec item_id acc (item_id x)) B). by apply IHl.
  - rewrite (proj2 (has_key_false item_id acc (item_id x)) B). apply IHl.
    intros k. rewrite elem_of_union, elem_of_singleton, Hs, fmap_app, elem_of_app.
    simpl. rewrite list_elem_of_singleton. tauto.
Qed.

(** The active items are the registered identifiers, each once, whatever the
    iteration order of the index; the count is their number. *)
Theorem get_all_active_spec r :
  NoDup (item_id <$> get_all_active r) /\
  (forall i, i ∈ (item_id <$> get_all_active r) <->
     exists k x, x ∈ get_by_key r k /\ item_id x = i) /\
  active_count r = len (item_id <$> get_all_active r).
Proof.
  assert (get_all_active r = union_by item_id [] (concat (map_to_list (active_items r)).*2)) as Hu.
  { apply get_all_active_loop. set_solver. }
  split_and!.
  - rewrite Hu. apply NoDup_union_by. constructor.
  - intros i. rewrite Hu, elem_of_union_by_key. split.
    + intros [Hn|(x & -> & Hx)%list_elem_of_fmap]; [by apply not_elem_of_nil in Hn|].
      apply list_elem_of_In, in_concat in Hx as (l & Hl & Hx).
      apply list_elem_of_In, list_elem_of_fmap in Hl as ([k l'] & -> & Hin).
      apply elem_of_map_to_list in Hin. exists k, x. unfold get_by_key. rewrite Hin.
      split; [by apply list_elem_of_In|done].
    + intros (k & x & Hx & <-). right. apply list_elem_of_fmap. exists x. split; [done|].
      unfold get_by_key in Hx. destruct (active_items r !! k) as [l|] eqn:E;
        [|by apply not_elem_of_nil in Hx].
      apply list_elem_of_In, in_concat. exists l. split; [|by apply list_elem_of_In].
      apply list_elem_of_In, list_elem_of_fmap. exists (k, l).
      split; [done|]. by apply elem_of_map_to_list.
  - unfold active_count, len. by rewrite length_fmap.
Qed.

End Engine.

(** ** Concrete instances *)

(** Items that are an identifier and its conflict keys *)
Definition keyed_item : Conflictable (string * list string) := {|
  item_id := fst;
  conflict_keys := snd;
  item_timestamp _ := None;
  attributes _ := ∅
|}.

Lemma register_unregister_witness :
  let item := ("i1", ["k1"; "k2"])%string in
  snd (@generic_unregister _ keyed_item
         (snd (@generic_register _ keyed_item resolver_new item)) "i1") = resolver_new.
Proof.
  apply (@register_unregister _ keyed_item resolver_new ("i1", ["k1"; "k2"])%string).
  - intros k l Hk. discriminate Hk.
  - apply (bool_decide_unpack _). vm_compute. exact I.
  - intros k x Hx. apply not_elem_of_nil in Hx. destruct Hx.
Defined.
