(* ===== verification/Command.v ===== *)
(** * Commands and their conflict resolution

    The messages of peat-schema/proto/command.proto, the [Conflictable]
    implementation of peat-protocol/src/command/policy_impl.rs and the command
    conflict resolver of peat-protocol/src/command/conflict_resolver.rs. Enum
    fields of a protobuf message are 32-bit integers; [try_from] decodes them.
    A panic (a failed [expect]) is [None]. *)

From S2P Require Import Prelude Error Capability Policy.
From Stdlib Require Import SpecFloat.

Open Scope Z_scope.

(** ** Messages *)

Record Position := mkPosition {
  latitude : spec_float;
  longitude : spec_float;
  altitude : spec_float
}.

Record RulesOfEngagement := mkRulesOfEngagement {
  engagement_authority : Z;
  allowed_weapons : list string;
  prohibited_weapons : list string;
  max_collateral_damage_estimate : option spec_float;
  civilians_present_standoff : bool
}.

Record MissionOrder := mkMissionOrder {
  mission_type : Z;
  mission_id : string;
  description : string;
  objective_location : option Position;
  start_time : option Timestamp;
  end_time : option Timestamp;
  roe : option RulesOfEngagement
}.

Record EngagementOrder := mkEngagementOrder {
  engagement_type : Z;
  engagement_target_id : string;
  target_location : option Position;
  target_description : option string;
  weapon_system_id : string;
  max_collateral_radius_meters : option spec_float;
  require_visual_confirmation : bool
}.

Record NodePositionAssignment := mkNodePositionAssignment {
  assigned_node_id : string;
  position : option Position;
  assigned_heading_degrees : option spec_float
}.

Record FormationChange := mkFormationChange {
  formation_type : Z;
  rally_point : option Position;
  spacing_meters : option spec_float;
  heading_degrees : option spec_float;
  assignments : list NodePositionAssignment
}.

Record ConfigurationUpdate := mkConfigurationUpdate {
  update_type : Z;
  configuration_json : string
}.

Inductive CommandType :=
| CTMissionOrder (m : MissionOrder)
| CTEngagementOrder (e : EngagementOrder)
| CTFormationChange (f : FormationChange)
| CTConfigurationUpdate (c : ConfigurationUpdate).

Record CommandTarget := mkCommandTarget {
  scope : Z;
  target_ids : list string
}.

Record HierarchicalCommand := mkHierarchicalCommand {
  command_id : string;
  originator_id : string;
  target : option CommandTarget;
  command_type : option CommandType;
  priority : Z;
  buffer_policy : Z;
  conflict_policy : Z;
  acknowledgment_policy : Z;
  leader_change_policy : Z;
  issued_at : option Timestamp;
  expires_at : option Timestamp;
  version : Z
}.

Inductive CommandPriority :=
| PrioUnspecified | Routine | Priority | Immediate | Flash.

(** The discriminants, which the derived [Ord] follows. *)
Definition CommandPriority_to_Z (p : CommandPriority) : Z :=
  match p with
  | PrioUnspecified => 0 | Routine => 1 | Priority => 2 | Immediate => 3 | Flash => 4
  end.

Definition CommandPriority_try_from (z : Z) : option CommandPriority :=
  match z with
  | 0 => Some PrioUnspecified | 1 => Some Routine | 2 => Some Priority
  | 3 => Some Immediate | 4 => Some Flash | _ => None
  end.

Inductive ConflictPolicy :=
| PolUnspecified | LastWriteWins | HighestPriorityWins | HighestAuthorityWins
| MergeCompatible | RejectConflict.

Definition ConflictPolicy_try_from (z : Z) : option ConflictPolicy :=
  match z with
  | 0 => Some PolUnspecified | 1 => Some LastWriteWins | 2 => Some HighestPriorityWins
  | 3 => Some HighestAuthorityWins | 4 => Some MergeCompatible | 5 => Some RejectConflict
  | _ => None
  end.

(** ** The generic policy engine on commands *)

Definition starts_with (prefix s : string) : bool := String.prefix prefix s.

Definition derive_authority_level (node_id : string) : Z :=
  if starts_with "zone-" node_id then 3
  else if starts_with "cohort-" node_id || starts_with "cell-" node_id then 2
  else 1.

Definition command_conflict_keys (c : HierarchicalCommand) : list string :=
  default [] (target_ids <$> target c).

Definition command_timestamp (c : HierarchicalCommand) : option Z :=
  seconds <$> issued_at c.

Definition command_attributes (c : HierarchicalCommand) : gmap string AttributeValue :=
  <["version"%string := AUint (version c)]>
  (<["acknowledgment_policy"%string := AInt (acknowledgment_policy c)]>
  (<["conflict_policy"%string := AInt (conflict_policy c)]>
  (<["authority_level"%string := AInt (derive_authority_level (originator_id c))]>
  (<["originator_id"%string := AString (originator_id c)]>
  (<["priority"%string := AInt (priority c)]> ∅))))).

#[export] Instance command_conflictable : Conflictable HierarchicalCommand := {
  item_id := command_id;
  conflict_keys := command_conflict_keys;
  item_timestamp := command_timestamp;
  attributes := command_attributes
}.

(** ** The command conflict resolver *)

Record ConflictResolver := mkConflictResolver {
  target_commands : gmap string (list HierarchicalCommand)
}.

Definition conflict_resolver_new : ConflictResolver := mkConflictResolver ∅.

Definition extract_target_ids (c : HierarchicalCommand) : list string :=
  default [] (target_ids <$> target c).

Definition check_conflict (r : ConflictResolver) (c : HierarchicalCommand)
  : ConflictResult HierarchicalCommand :=
  let conflicting :=
    fold_left (fun conflicting target_id =>
      match target_commands r !! target_id with
      | Some existing => conflicting ++ existing
      | None => conflicting
      end) (extract_target_ids c) [] in
  match conflicting with [] => NoConflict | _ => Conflict conflicting end.

Definition issued_seconds (c : HierarchicalCommand) : Z :=
  default 0 (seconds <$> issued_at c).

Definition priority_rank (c : HierarchicalCommand) : Z :=
  CommandPriority_to_Z (default Routine (CommandPriority_try_from (priority c))).

Definition resolve_last_write_wins (commands : list HierarchicalCommand)
  : option (result Error HierarchicalCommand) :=
  Ok <$> head (sort_by (fun a b => issued_seconds b ?= issued_seconds a) commands).

Definition resolve_highest_priority_wins (commands : list HierarchicalCommand)
  : option (result Error HierarchicalCommand) :=
  Ok <$> head (sort_by (fun a b => priority_rank b ?= priority_rank a) commands).

Definition resolve_highest_authority_wins (commands : list HierarchicalCommand)
  : option (result Error HierarchicalCommand) :=
  Ok <$> head (sort_by (fun a b => derive_authority_level (originator_id b)
                                     ?= derive_authority_level (originator_id a)) commands).

Definition resolve_merge_compatible (commands : list HierarchicalCommand)
  : option (result Error HierarchicalCommand) :=
  Ok <$> head commands.

Definition resolve (commands : list HierarchicalCommand) (policy : ConflictPolicy)
  : option (result Error HierarchicalCommand) :=
  if bool_decide (commands = []) then
    Some (Err (EInvalidInput "Cannot resolve conflict with empty command list"))
  else if len commands =? 1 then Ok <$> head commands
  else match policy with
       | LastWriteWins => resolve_last_write_wins commands
       | HighestPriorityWins => resolve_highest_priority_wins commands
       | HighestAuthorityWins => resolve_highest_authority_wins commands
       | MergeCompatible => resolve_merge_compatible commands
       | RejectConflict => Some (Err (EConflictDetected
           "Conflict policy REJECT_CONFLICT: rejecting new command"))
       | PolUnspecified => Some (Err (EInvalidInput "Conflict policy must be specified"))
       end.

Definition register_command (r : ConflictResolver) (c : HierarchicalCommand)
  : result Error unit * ConflictResolver :=
  (Ok tt, mkConflictResolver
     (fold_left (fun m target_id => <[target_id := default [] (m !! target_id) ++ [c]]> m)
        (extract_target_ids c) (target_commands r))).

Definition unregister_command (r : ConflictResolver) (id : string)
  : result Error unit * ConflictResolver :=
  let m := (fun l => filter (fun c => command_id c <> id) l) <$> target_commands r in
  (Ok tt, mkConflictResolver (filter (fun e => e.2 <> []) m)).

(** ** What the resolver chooses *)

(** The rank by which a policy compares, for the policies that compare. *)
Definition policy_rank (policy : ConflictPolicy) : option (HierarchicalCommand -> Z) :=
  match policy with
  | LastWriteWins => Some issued_seconds
  | HighestPriorityWins => Some priority_rank
  | HighestAuthorityWins => Some (fun c => derive_authority_level (originator_id c))
  | _ => None
  end.

Lemma resolve_unfold_ranked policy rank c1 c2 l :
  policy_rank policy = Some rank ->
  resolve (c1 :: c2 :: l) policy = Ok <$> head (sort_by (cmp_desc rank) (c1 :: c2 :: l)).
Proof.
  intros Hr. unfold resolve. rewrite bool_decide_false by done.
  destruct (Z.eqb_spec (len (c1 :: c2 :: l)) 1) as [E|_]; [unfold len in E; simpl in E; lia|].
  by destruct policy; simplify_eq/=.
Qed.

Lemma resolve_leftmost policy rank commands :
  policy_rank policy = Some rank -> commands <> [] ->
  exists w l1 l2, resolve commands policy = Some (Ok w) /\ commands = l1 ++ w :: l2 /\
    (forall y, y ∈ l1 -> rank y < rank w) /\ (forall y, y ∈ l2 -> rank y <= rank w).
Proof.
  intros Hr Hne. destruct commands as [|c1 [|c2 l]]; [done| |].
  - exists c1, [], []. split_and!; [done|done|..]; intros y Hy; by apply not_elem_of_nil in Hy.
  - rewrite (resolve_unfold_ranked _ rank) by done.
    destruct (sort_by_head _ _ (cmp_desc_ok rank) (c1 :: c2 :: l)) as (w & l1 & l2 & -> & E & H1 & H2);
      [by apply Forall_true|done|].
    exists w, l1, l2. split_and!; [done|done|..]; intros y Hy.
    + by apply cmp_desc_Lt, H1.
    + by apply cmp_desc_le, H2.
Qed.

(** Against existing commands a newcomer, tried last, has to beat all of them. *)
Lemma resolve_newcomer policy rank existing new w :
  policy_rank policy = Some rank -> existing <> [] ->
  (forall e, e ∈ existing -> command_id e <> command_id new) ->
  resolve (existing ++ [new]) policy = Some (Ok w) ->
  command_id w = command_id new <-> forall e, e ∈ existing -> rank e < rank new.
Proof.
  intros Hr Hne Hid Hw.
  destruct (resolve_leftmost policy rank (existing ++ [new]))
    as (w' & l1 & l2 & Hw' & El & H1 & H2); [done|by destruct existing|].
  rewrite Hw in Hw'. injection Hw' as <-.
  destruct l2 as [|z l2 _] using rev_ind.
  - apply app_inj_tail in El as [-> <-]. by split.
  - rewrite app_comm_cons, app_assoc in El. apply app_inj_tail in El as [-> <-]. split.
    + intros E. exfalso. eapply Hid; [|exact E]. set_solver.
    + intros Hall. assert (rank w < rank new) by (apply Hall; set_solver).
      assert (rank new <= rank w) by (apply H2; set_solver). lia.
Qed.

(** The resolver is total. A comparing policy picks the leftmost of the commands of
    greatest rank (issue time, priority or originator authority); merging picks the
    first command; rejecting and leaving the policy unspecified are errors, unless
    there is a single command, which always wins. *)
Theorem resolve_spec commands policy :
  commands <> [] ->
  match resolve commands policy with
  | None => False
  | Some (Ok w) =>
      exists l1 l2, commands = l1 ++ w :: l2 /\
      match policy_rank policy with
      | Some rank => (forall y, y ∈ l1 -> rank y < rank w) /\ (forall y, y ∈ l2 -> rank y <= rank w)
      | None => l1 = [] /\ (policy = MergeCompatible \/ l2 = [])
      end
  | Some (Err e) => (2 <= length commands)%nat /\
      (policy = RejectConflict /\
         e = EConflictDetected "Conflict policy REJECT_CONFLICT: rejecting new command" \/
       policy = PolUnspecified /\ e = EInvalidInput "Conflict policy must be specified")
  end.
Proof.
  intros Hne. destruct (policy_rank policy) as [rank|] eqn:Hr.
  - destruct (resolve_leftmost policy rank commands Hr Hne) as (w & l1 & l2 & -> & E & H1 & H2).
    by exists l1, l2.
  - destruct commands as [|c1 [|c2 l]]; [done|exists [], []; eauto|].
    assert (len (c1 :: c2 :: l) =? 1 = false) as Hl.
    { apply Z.eqb_neq. unfold len. simpl. lia. }
    unfold resolve. rewrite bool_decide_false, Hl by done.
    destruct policy; simplify_eq/=; [split; [lia|eauto]| |split; [lia|eauto]].
    exists [], (c2 :: l). eauto.
Qed.

(** Registering a command appends it to the lists of its targets. *)
Lemma register_keeps r c :
  (forall k e, e ∈ default [] (target_commands r !! k) ->
     e ∈ default [] (target_commands (snd (register_command r c)) !! k)) /\
  (forall k, k ∈ extract_target_ids c ->
     c ∈ default [] (target_commands (snd (register_command r c)) !! k)).
Proof.
  unfold register_command; simpl. generalize (target_commands r) as m.
  induction (extract_target_ids c) as [|k0 keys IH]; intros m; simpl; [set_solver|].
  destruct (IH (<[k0 := default [] (m !! k0) ++ [c]]> m)) as [IH1 IH2].
  assert (forall k e, e ∈ default [] (m !! k) ->
     e ∈ default [] ((<[k0 := default [] (m !! k0) ++ [c]]> m) !! k)) as Hins.
  { intros k e He. rewrite lookup_insert. case_decide; [subst; simpl; set_solver|done]. }
  split; [auto|]. intros k [->|Hk]%elem_of_cons; [|auto].
  apply IH1. rewrite lookup_insert_eq. simpl. set_solver.
Qed.

(** ** Agreement with the generic engine *)

Definition to_generic (r : ConflictResolver) : GenericConflictResolver :=
  mkGenericConflictResolver (target_commands r).

Lemma check_conflict_flat r c :
  check_conflict r c =
  match flat_map (get_by_key (to_generic r)) (command_conflict_keys c) with
  | [] => NoConflict | l => Conflict l end.
Proof.
  unfold check_conflict, command_conflict_keys, extract_target_ids.
  generalize (default [] (target_ids <$> target c)) as keys. intros keys.
  assert (forall acc, fold_left (fun conflicting target_id =>
      match target_commands r !! target_id with
      | Some existing => conflicting ++ existing
      | None => conflicting
      end) keys acc = acc ++ flat_map (get_by_key (to_generic r)) keys) as ->;
    [|by destruct (flat_map _ _)].
  induction keys as [|k keys IH]; intros acc; simpl; [by rewrite app_nil_r|].
  rewrite IH. unfold get_by_key; simpl. destruct (target_commands r !! k); simpl; [|done].
  by rewrite app_assoc.
Qed.

(** C14: the command resolver and the generic resolver are the same index: registering
    and unregistering agree, both detect a conflict on the same commands, and the
    command resolver reports the same identifiers (with repetitions). *)
Theorem command_resolver_refines_generic r c id :
  to_generic (snd (register_command r c)) = snd (generic_register (to_generic r) c) /\
  to_generic (snd (unregister_command r id)) = snd (generic_unregister (to_generic r) id) /\
  match check_conflict r c, generic_check_conflict (to_generic r) c with
  | NoConflict, NoConflict => True
  | Conflict l, Conflict l' =>
      forall i, i ∈ (command_id <$> l) <-> i ∈ (command_id <$> l')
  | _, _ => False
  end.
Proof.
  split_and!; [done|done|]. rewrite check_conflict_flat, check_conflict_union.
  change (@conflict_keys HierarchicalCommand _ c) with (command_conflict_keys c).
  generalize (flat_map (get_by_key (to_generic r)) (command_conflict_keys c)) as l.
  intros [|x l]; [done|].
  assert (forall i, i ∈ (item_id <$> x :: l) <->
                    i ∈ (item_id <$> union_by item_id [] (x :: l))) as Hi.
  { intros i. rewrite elem_of_union_by_key. set_solver. }
  destruct (union_by item_id [] (x :: l)) eqn:E; [|exact Hi].
  specialize (Hi (item_id x)). set_solver.
Qed.

Lemma head_hd {A} (d : A) l : l <> [] -> head l = Some (hd d l).
Proof. by destruct l. Qed.

Lemma first_sorted_head cmp (c : HierarchicalCommand) l :
  Some (first_sorted cmp (c :: l)) = Ok <$> head (sort_by cmp (c :: l)).
Proof.
  destruct l as [|c' l]; [done|]. unfold first_sorted.
  rewrite (head_hd c); [done|]. intros E. by apply sort_by_nil_inv in E.
Qed.

Lemma resolve_ranked_head policy rank c l :
  policy_rank policy = Some rank ->
  resolve (c :: l) policy = Ok <$> head (sort_by (cmp_desc rank) (c :: l)).
Proof.
  intros Hr. destruct l as [|c' l]; [done|]. by apply resolve_unfold_ranked.
Qed.

(** On commands the generic policies and the command resolver choose the same
    winner: last-write-wins and highest-authority on every non-empty list,
    highest-priority when every priority is a value of the enum. *)
Theorem command_policies_agree_generic commands :
  commands <> [] ->
  resolve commands LastWriteWins = Some (generic_resolve commands LastWriteWinsPolicy) /\
  resolve commands HighestAuthorityWins =
    Some (generic_resolve commands (HighestAttributeWinsPolicy "authority_level")) /\
  (Forall (fun c => 0 <= priority c <= 4) commands ->
   resolve commands HighestPriorityWins =
     Some (generic_resolve commands (HighestAttributeWinsPolicy "priority"))).
Proof.
  intros Hne. destruct commands as [|c l]; [done|].
  cbn [generic_resolve policy_resolve LastWriteWinsPolicy HighestAttributeWinsPolicy].
  rewrite !first_sorted_head. split_and!.
  - by rewrite (resolve_ranked_head _ issued_seconds).
  - rewrite (resolve_ranked_head _ (fun c => derive_authority_level (originator_id c))) by done.
    do 2 f_equal. apply (sort_by_ext (fun _ => True)); [|by apply Forall_true].
    intros x y _ _. unfold cmp_desc. simpl. by rewrite Z.compare_antisym.
  - intros HP. rewrite (resolve_ranked_head _ priority_rank) by done.
    do 2 f_equal. apply (sort_by_ext (fun c => 0 <= priority c <= 4)); [|done].
    assert (forall c, 0 <= priority c <= 4 -> priority_rank c = priority c) as Hp.
    { intros d Hd. unfold priority_rank.
      assert (priority d = 0 \/ priority d = 1 \/ priority d = 2 \/ priority d = 3 \/ priority d = 4)
        as [E|[E|[E|[E|E]]]] by lia; by rewrite E. }
    intros x y Hx Hy. unfold cmp_desc. rewrite !Hp by done. simpl.
    by rewrite Z.compare_antisym.
Qed.

(** ** Concrete instances *)

Definition example_command (id originator : string) (targets : list string) (prio policy at_ : Z)
  : HierarchicalCommand :=
  mkHierarchicalCommand id originator (Some (mkCommandTarget 1 targets)) None prio 1 policy 2 1
    (timestamp_now at_) None 1.

Lemma resolve_spec_witness :
  let a := example_command "a" "cell-1" ["n1"] 1 2 10 in
  let b := example_command "b" "zone-1" ["n1"] 4 2 20 in
  resolve [a; b] HighestPriorityWins = Some (Ok b) /\
  exists l1 l2, [a; b] = l1 ++ b :: l2 /\ forall y, y ∈ l1 -> priority_rank y < priority_rank b.
Proof.
  cbv zeta.
  pose proof (resolve_spec [example_command "a" "cell-1" ["n1"] 1 2 10;
                            example_command "b" "zone-1" ["n1"] 4 2 20] HighestPriorityWins
                ltac:(discriminate)) as H.
  split; [vm_compute; reflexivity|].
  change (resolve _ _) with (Some (@Ok Error _ (example_command "b" "zone-1" ["n1"] 4 2 20))) in H.
  destruct H as (l1 & l2 & Hl & H1 & _). exists l1, l2. split; [exact Hl|exact H1].
Defined.

Lemma command_policies_agree_generic_witness :
  let l := [example_command "a" "cell-1" ["n1"] 1 2 10; example_command "b" "zone-1" ["n1"] 4 2 20] in
  resolve l LastWriteWins = Some (generic_resolve l LastWriteWinsPolicy).
Proof.
  cbv zeta. destruct (command_policies_agree_generic
    [example_command "a" "cell-1" ["n1"] 1 2 10; example_command "b" "zone-1" ["n1"] 4 2 20])
    as [H _]; [discriminate|exact H].
Defined.
