(* ===== verification/CommandRouting.v ===== *)
(** * Command target resolution

    Models peat-protocol/src/command/routing.rs: which nodes a command concerns,
    seen from one node. *)

From S2P Require Import Prelude Error Capability Policy Command.

Open Scope Z_scope.

Inductive Scope :=
| ScopeUnspecified | Individual | Cell | Cohort | Broadcast | Federation | Coalition.

Definition Scope_try_from (z : Z) : option Scope :=
  match z with
  | 0 => Some ScopeUnspecified | 1 => Some Individual | 2 => Some Cell | 3 => Some Cohort
  | 4 => Some Broadcast | 5 => Some Federation | 6 => Some Coalition | _ => None
  end.

Record CommandRouter := mkCommandRouter {
  router_node_id : string;
  router_cell_id : option string;
  cell_members : list string;
  router_cohort_id : option string
}.

Inductive TargetResolution :=
| Self_
| Subordinates (nodes : list string)
| AllCellMembers (nodes : list string)
| NotApplicable.

Section Routing.
Context (r : CommandRouter).

(** A leader, who knows its members, addresses them; any other node addresses itself. *)
Definition members_or_self : TargetResolution :=
  if bool_decide (cell_members r <> []) then AllCellMembers (cell_members r) else Self_.

Definition resolve_target (c : HierarchicalCommand) : TargetResolution :=
  match target c with
  | None => NotApplicable
  | Some t =>
      match default ScopeUnspecified (Scope_try_from (scope t)) with
      | Individual =>
          let ids : gset string := list_to_set (target_ids t) in
          if bool_decide (router_node_id r ∈ ids) then Self_
          else
            let subordinate_targets := filter (fun m => m ∈ ids) (cell_members r) in
            if bool_decide (subordinate_targets <> []) then Subordinates subordinate_targets
            else NotApplicable
      | Cell =>
          match router_cell_id r with
          | Some my_cell =>
              if bool_decide (my_cell ∈ target_ids t) then members_or_self else NotApplicable
          | None => NotApplicable
          end
      | Cohort =>
          match router_cohort_id r with
          | Some my_cohort =>
              if bool_decide (my_cohort ∈ target_ids t) then members_or_self else NotApplicable
          | None => NotApplicable
          end
      | Federation | Coalition => NotApplicable
      | Broadcast => members_or_self
      | ScopeUnspecified => NotApplicable
      end
  end.

Definition should_route (resolution : TargetResolution) : bool :=
  match resolution with Subordinates _ | AllCellMembers _ => true | _ => false end.

Definition get_routing_targets (resolution : TargetResolution) : list string :=
  match resolution with
  | Subordinates nodes => nodes
  | AllCellMembers nodes => nodes
  | _ => []
  end.

(** ** Correctness *)

(** The nodes of [cell_id]/[cohort_id] that a scope and a list of targets denote, as
    one node sees them: the abstract meaning of a target. *)
Definition denotes (c : HierarchicalCommand) (node : string) : Prop :=
  match target c with
  | None => False
  | Some t =>
      match Scope_try_from (scope t) with
      | Some Individual => node ∈ target_ids t
      | Some Cell => exists k, router_cell_id r = Some k /\ k ∈ target_ids t
      | Some Cohort => exists k, router_cohort_id r = Some k /\ k ∈ target_ids t
      | Some Broadcast => True
      | _ => False
      end
  end.

Lemma members_or_self_spec :
  (cell_members r <> [] /\ members_or_self = AllCellMembers (cell_members r)) \/
  (cell_members r = [] /\ members_or_self = Self_).
Proof.
  unfold members_or_self. case_bool_decide as B; [by left|]. right. split; [|done].
  by destruct (cell_members r).
Qed.

(** The decision, one line per scope. *)
Lemma resolve_target_cases c :
  match resolve_target c with
  | Self_ => denotes c (router_node_id r)
  | Subordinates ns => ns <> [] /\ ~ denotes c (router_node_id r) /\
      forall n, n ∈ ns <-> n ∈ cell_members r /\ denotes c n
  | AllCellMembers ns => ns = cell_members r /\ ns <> [] /\ forall n, denotes c n
  | NotApplicable => ~ denotes c (router_node_id r) /\
      forall n, n ∈ cell_members r -> ~ denotes c n
  end.
Proof.
  unfold resolve_target, denotes. destruct (target c) as [t|]; [|naive_solver].
  destruct (Scope_try_from (scope t)) as [[]|] eqn:S; simpl; try naive_solver.
  - case_bool_decide as B1; rewrite elem_of_list_to_set in B1; [done|].
    case_bool_decide as B2.
    + split_and!; [done..|]. intros n. rewrite list_elem_of_filter, elem_of_list_to_set. tauto.
    + split; [done|]. intros n Hn Hin.
      eapply (not_elem_of_nil n). rewrite <- B2. apply list_elem_of_filter.
      by rewrite elem_of_list_to_set.
  - destruct (router_cell_id r) as [k|]; [|naive_solver].
    case_bool_decide as B; [|naive_solver].
    destruct members_or_self_spec as [[? ->]|[? ->]]; naive_solver.
  - destruct (router_cohort_id r) as [k|]; [|naive_solver].
    case_bool_decide as B; [|naive_solver].
    destruct members_or_self_spec as [[? ->]|[? ->]]; naive_solver.
  - destruct members_or_self_spec as [[? ->]|[? ->]]; naive_solver.
Qed.

(** A command is acted on by this node exactly when it denotes the node or one of
    its members, and it is routed only to members it denotes; a node that is itself
    named individually executes the command and routes it to nobody. *)
Theorem resolve_target_spec c :
  (resolve_target c <> NotApplicable <->
     denotes c (router_node_id r) \/ exists n, n ∈ cell_members r /\ denotes c n) /\
  (forall n, n ∈ get_routing_targets (resolve_target c) -> n ∈ cell_members r /\ denotes c n) /\
  (should_route (resolve_target c) = true -> forall n, n ∈ cell_members r -> denotes c n ->
     n ∈ get_routing_targets (resolve_target c)) /\
  (should_route (resolve_target c) = true <-> get_routing_targets (resolve_target c) <> []).
Proof.
  pose proof (resolve_target_cases c) as H.
  destruct (resolve_target c) as [|ns|ns|]; simpl.
  - split_and!; [naive_solver|intros n Hn; by apply not_elem_of_nil in Hn|done|done].
  - destruct H as (Hne & Hself & Hns). split_and!; [|naive_solver..].
    split; [|done]. intros _. right. destruct ns as [|n ns]; [done|]. exists n.
    apply Hns. set_solver.
  - destruct H as (-> & Hne & Hall). split_and!; naive_solver.
  - split_and!; [naive_solver|intros n Hn; by apply not_elem_of_nil in Hn|done|done].
Qed.

End Routing.
