(* ===== verification/TimeoutManager.v ===== *)
(** * Command expiry and acknowledgment timeouts

    Models peat-protocol/src/command/timeout_manager.rs. A [SystemTime] is the
    number of nanoseconds since the Unix epoch; its seconds are a signed 64-bit
    number, and an addition that leaves this range panics ([None]). The
    [BTreeMap] is a finite map whose keys are iterated in ascending order. The
    current time is an argument of the operations that read the clock. *)

From S2P Require Import Prelude Error Capability Policy Command.

Open Scope Z_scope.

Definition nanos_per_sec : Z := 10 ^ 9.

(** Times from the epoch on, up to the last second of [i64::MAX] *)
Definition system_time (ns : Z) : option Z :=
  if (0 <=? ns) && (ns <? 2 ^ 63 * nanos_per_sec) then Some ns else None.

(** [UNIX_EPOCH + Duration::from_secs(s)] *)
Definition epoch_plus_secs (s : Z) : option Z := system_time (s * nanos_per_sec).

Record AckTimeout := mkAckTimeout {
  at_command_id : string;
  expected_acks : list string;
  received_acks : list string;
  at_expires_at : Z
}.

Record TimeoutManager := mkTimeoutManager {
  expiring_commands : gmap Z (list string);
  ack_timeouts : gmap string AckTimeout
}.

Definition timeout_manager_new : TimeoutManager := mkTimeoutManager ∅ ∅.

Definition register_expiration (m : TimeoutManager) (c : HierarchicalCommand)
  : option (result Error unit * TimeoutManager) :=
  match expires_at c with
  | Some t =>
      expiry ← epoch_plus_secs (seconds t);
      let bucket := default [] (expiring_commands m !! expiry) in
      Some (Ok tt, mkTimeoutManager
                     (<[expiry := bucket ++ [command_id c]]> (expiring_commands m))
                     (ack_timeouts m))
  | None => Some (Ok tt, m)
  end.

(** The keys of a [BTreeMap] in iteration order *)
Definition btree_keys (m : gmap Z (list string)) : list Z :=
  merge_sort Z.le (map_to_list m).*1.

Definition process_expired (m : TimeoutManager) (now : Z) : list string * TimeoutManager :=
  let expired_keys := filter (fun k => k <= now) (btree_keys (expiring_commands m)) in
  let '(expired, expiring) :=
    fold_left (fun '(expired, expiring) key =>
      match expiring !! key with
      | Some commands => (expired ++ commands, delete key expiring)
      | None => (expired, expiring)
      end) expired_keys ([], expiring_commands m) in
  (expired, mkTimeoutManager expiring (ack_timeouts m)).

Definition unregister_expiration (m : TimeoutManager) (id : string)
  : result Error unit * TimeoutManager :=
  let buckets := (fun l => filter (fun i => i <> id) l) <$> expiring_commands m in
  (Ok tt, mkTimeoutManager (filter (fun e => e.2 <> []) buckets) (ack_timeouts m)).

Definition register_ack_timeout (m : TimeoutManager) (now : Z) (id : string)
    (expected : list string) (timeout : Z) : option (result Error unit * TimeoutManager) :=
  expires ← system_time (now + timeout);
  Some (Ok tt, mkTimeoutManager (expiring_commands m)
                 (<[id := mkAckTimeout id expected [] expires]> (ack_timeouts m))).

Definition record_ack (m : TimeoutManager) (id node_id : string) : bool * TimeoutManager :=
  match ack_timeouts m !! id with
  | Some t =>
      let received := if bool_decide (node_id ∈ received_acks t) then received_acks t
                      else received_acks t ++ [node_id] in
      let t' := mkAckTimeout (at_command_id t) (expected_acks t) received (at_expires_at t) in
      (len (expected_acks t) <=? len received,
       mkTimeoutManager (expiring_commands m) (<[id := t']> (ack_timeouts m)))
  | None => (false, m)
  end.

(** A [HashMap] in some iteration order: here that of [map_to_list]. *)
Definition check_ack_timeouts (m : TimeoutManager) (now : Z) : list string :=
  (filter (fun e => at_expires_at e.2 <= now /\
                    len (received_acks e.2) < len (expected_acks e.2))
          (map_to_list (ack_timeouts m))).*1.

Definition get_ack_status (m : TimeoutManager) (id : string) : option AckTimeout :=
  ack_timeouts m !! id.

Definition unregister_ack_timeout (m : TimeoutManager) (id : string)
  : result Error unit * TimeoutManager :=
  (Ok tt, mkTimeoutManager (expiring_commands m) (delete id (ack_timeouts m))).

Definition expiration_count (m : TimeoutManager) : Z :=
  foldr (fun e n => len e.2 + n) 0 (map_to_list (expiring_commands m)).

Definition ack_timeout_count (m : TimeoutManager) : Z := Z.of_nat (size (ack_timeouts m)).

(** ** Expiry *)

Definition bucket (m : TimeoutManager) (k : Z) : list string :=
  default [] (expiring_commands m !! k).

Definition total_ids (m : gmap Z (list string)) : Z :=
  foldr (fun e n => len e.2 + n) 0 (map_to_list m).

Lemma total_ids_delete m k l :
  m !! k = Some l -> total_ids m = len l + total_ids (delete k m).
Proof.
  intros Hk. unfold total_ids.
  assert (forall l1 l2 : list (Z * list string), l1 ≡ₚ l2 ->
    foldr (fun e n => len e.2 + n) 0 l1 = foldr (fun e n => len e.2 + n) 0 l2) as Hp.
  { induction 1; simpl; lia. }
  rewrite <- (insert_delete_id m k l) at 1 by done.
  rewrite (Hp _ _ (map_to_list_insert _ k l (lookup_delete_eq m k))). done.
Qed.

Lemma process_loop keys : forall acc (m : gmap Z (list string)),
  NoDup keys ->
  exists m', fold_left (fun '(expired, expiring) key =>
      match expiring !! key with
      | Some commands => (expired ++ commands, delete key expiring)
      | None => (expired, expiring)
      end) keys (acc, m) =
    (acc ++ flat_map (fun k => default [] (m !! k)) keys, m') /\
  (forall k, m' !! k = if decide (k ∈ keys) then None else m !! k) /\
  total_ids m = len (flat_map (fun k => default [] (m !! k)) keys) + total_ids m'.
Proof.
  induction keys as [|k keys IH]; intros acc m Hnd; cbn [fold_left flat_map].
  { exists m. rewrite app_nil_r. split_and!; [done| |done]. intros k.
    by rewrite decide_False by apply not_elem_of_nil. }
  apply NoDup_cons in Hnd as [Hk Hnd].
  assert (forall m0 : gmap Z (list string), (forall k', k' <> k -> m0 !! k' = m !! k') ->
    flat_map (fun k => default [] (m0 !! k)) keys = flat_map (fun k => default [] (m !! k)) keys)
    as Hext.
  { intros m0 Hm0. clear IH Hnd. induction keys as [|k' keys IHk]; [done|]. simpl.
    rewrite Hm0, IHk by set_solver. done. }
  destruct (m !! k) as [l|] eqn:E; simpl.
  - destruct (IH (acc ++ l) (delete k m) Hnd) as (m' & -> & Hl & Ht).
    rewrite Hext in * by (intros; by apply lookup_delete_ne).
    exists m'. rewrite app_assoc. split_and!; [done| |].
    + intros k'. rewrite Hl. destruct (decide (k' ∈ keys)).
      * by rewrite decide_True by set_solver.
      * destruct (decide (k' = k)) as [->|Hne].
        -- rewrite decide_True by set_solver. by apply lookup_delete_eq.
        -- rewrite decide_False by set_solver. by apply lookup_delete_ne.
    + rewrite (total_ids_delete m k l) by done. rewrite len_app. lia.
  - destruct (IH acc m Hnd) as (m' & -> & Hl & Ht). exists m'. split_and!; [done| |done].
    intros k'. rewrite Hl. destruct (decide (k' ∈ keys)).
    + by rewrite decide_True by set_solver.
    + destruct (decide (k' = k)) as [->|Hne]; [by rewrite decide_True by set_solver|].
      by rewrite decide_False by set_solver.
Qed.

Lemma elem_of_btree_keys m k : k ∈ btree_keys m <-> is_Some (m !! k).
Proof.
  unfold btree_keys. rewrite merge_sort_Permutation, list_elem_of_fmap. split.
  - intros ([k' l] & -> & Hin). apply elem_of_map_to_list in Hin. simpl. by rewrite Hin.
  - intros [l Hl]. exists (k, l). split; [done|]. by apply elem_of_map_to_list.
Qed.

Lemma btree_keys_NoDup m : NoDup (btree_keys m).
Proof. unfold btree_keys. rewrite merge_sort_Permutation. apply NoDup_fst_map_to_list. Qed.

Lemma StronglySorted_filter_lt (P : Z -> Prop) `{!forall k, Decision (P k)} l :
  NoDup l -> StronglySorted Z.le l -> StronglySorted Z.lt (filter P l).
Proof.
  intros Hnd. induction 1 as [|k l Hs IH Hle]; [constructor|].
  apply NoDup_cons in Hnd as [Hk Hnd]. rewrite filter_cons. case_decide; [|by apply IH].
  constructor; [by apply IH|]. rewrite Forall_forall in *. intros x Hx.
  apply list_elem_of_filter in Hx as [_ Hx]. specialize (Hle x Hx).
  assert (x <> k) by set_solver. lia.
Qed.

Lemma process_expired_run m now :
  exists keys m', process_expired m now =
      (flat_map (bucket m) keys, mkTimeoutManager m' (ack_timeouts m)) /\
    StronglySorted Z.lt keys /\
    (forall k, k ∈ keys <-> k <= now /\ is_Some (expiring_commands m !! k)) /\
    (forall k, default [] (m' !! k) = if decide (k <= now) then [] else bucket m k) /\
    total_ids (expiring_commands m) = len (flat_map (bucket m) keys) + total_ids m'.
Proof.
  unfold process_expired.
  set (keys := filter (fun k => k <= now) (btree_keys (expiring_commands m))).
  assert (forall k, k ∈ keys <-> k <= now /\ is_Some (expiring_commands m !! k)) as Hkeys.
  { intros k. unfold keys. by rewrite list_elem_of_filter, elem_of_btree_keys. }
  destruct (process_loop keys [] (expiring_commands m)) as (m' & -> & Hl & Ht);
    [apply NoDup_filter, btree_keys_NoDup|].
  exists keys, m'. split_and!; [done| |done| |done].
  - apply StronglySorted_filter_lt; [apply btree_keys_NoDup|].
    apply StronglySorted_merge_sort; apply _.
  - intros k. unfold bucket. rewrite Hl.
    destruct (decide (k ∈ keys)) as [Hk|Hk]; rewrite Hkeys in Hk.
    + by rewrite decide_True by tauto.
    + case_decide; [|done]. destruct (expiring_commands m !! k) eqn:E; [|done]. naive_solver.
Qed.

Lemma elem_of_process_expired m now id :
  id ∈ fst (process_expired m now) <-> exists k, k <= now /\ id ∈ bucket m k.
Proof.
  destruct (process_expired_run m now) as (keys & m' & -> & _ & Hk & _). simpl.
  rewrite list_elem_of_In, in_flat_map. setoid_rewrite <- list_elem_of_In. split.
  - intros (k & Hin & Hc). exists k. by apply Hk in Hin as [? _].
  - intros (k & Hle & Hc). exists k. split; [|done]. apply Hk. split; [done|].
    unfold bucket in Hc. destruct (expiring_commands m !! k); [by eexists|].
    by apply not_elem_of_nil in Hc.
Qed.

(** Processing returns exactly the identifiers whose expiry has passed, earliest
    expiry first and in registration order within one instant, forgets those instants
    and no other, and loses no identifier: what is counted before is returned or
    still counted. *)
Theorem process_expired_spec m now :
  exists keys, StronglySorted Z.lt keys /\
    (forall k, k ∈ keys <-> k <= now /\ is_Some (expiring_commands m !! k)) /\
    fst (process_expired m now) = flat_map (bucket m) keys /\
    (forall k, bucket (snd (process_expired m now)) k = if decide (k <= now) then [] else bucket m k) /\
    expiration_count m = len (fst (process_expired m now)) +
                         expiration_count (snd (process_expired m now)) /\
    ack_timeouts (snd (process_expired m now)) = ack_timeouts m.
Proof.
  destruct (process_expired_run m now) as (keys & m' & -> & Hs & Hk & Hb & Ht).
  exists keys. by split_and!.
Qed.

(** A registered command is reported by the first processing at or after its
    expiry, and not before; a second report at that time is empty of it. *)
Theorem registered_command_expires m c t now m' :
  expires_at c = Some t -> register_expiration m c = Some (Ok tt, m') ->
  (forall k, command_id c ∉ bucket m k) ->
  (command_id c ∈ fst (process_expired m' now) <-> seconds t * nanos_per_sec <= now) /\
  (seconds t * nanos_per_sec <= now -> forall now',
     command_id c ∉ fst (process_expired (snd (process_expired m' now)) now')).
Proof.
  intros Ht Hr Hfresh. unfold register_expiration in Hr. rewrite Ht in Hr.
  unfold epoch_plus_secs, system_time in Hr. case_match; simplify_eq/=.
  set (e := seconds t * nanos_per_sec) in *.
  set (m' := mkTimeoutManager _ _).
  assert (forall k, command_id c ∈ bucket m' k <-> k = e) as Hb.
  { intros k. unfold bucket, m'; simpl. rewrite lookup_insert. case_decide as D.
    - subst k. simpl. set_solver.
    - split; [|naive_solver]. intros Hin. by destruct (Hfresh k). }
  split; [rewrite elem_of_process_expired; setoid_rewrite Hb; naive_solver|].
  intros Hle now' (k & _ & Hin)%elem_of_process_expired.
  destruct (process_expired_run m' now) as (keys & m2 & E & _ & _ & Hbk & _).
  rewrite E in Hin. unfold bucket at 1 in Hin; simpl in Hin. rewrite Hbk in Hin.
  case_decide; [by apply not_elem_of_nil in Hin|].
  apply Hb in Hin. lia.
Qed.

(** ** Acknowledgments *)

(** The acknowledgments of several nodes, in order, with the last answer. *)
Definition record_all (m : TimeoutManager) (id : string) (nodes : list string)
  : bool * TimeoutManager :=
  fold_left (fun '(_, m) n => record_ack m id n) nodes (false, m).

Definition with_received (t : AckTimeout) (received : list string) : AckTimeout :=
  mkAckTimeout (at_command_id t) (expected_acks t) received (at_expires_at t).

Lemma record_ack_push m id node t :
  ack_timeouts m !! id = Some t ->
  let received := push_absent (fun x => x) (received_acks t) node in
  record_ack m id node =
  (len (expected_acks t) <=? len received,
   mkTimeoutManager (expiring_commands m) (<[id := with_received t received]> (ack_timeouts m))).
Proof.
  intros Ht. unfold record_ack, push_absent. rewrite Ht, has_key_id. by case_bool_decide.
Qed.

Lemma record_all_union id nodes : forall m b t,
  ack_timeouts m !! id = Some t ->
  let received := union_by (fun x => x) (received_acks t) nodes in
  fold_left (fun '(_, m) n => record_ack m id n) nodes (b, m) =
  (if decide (nodes = []) then b else len (expected_acks t) <=? len received,
   mkTimeoutManager (expiring_commands m) (<[id := with_received t received]> (ack_timeouts m))).
Proof.
  induction nodes as [|n nodes IH]; intros m b t Ht; cbn [fold_left].
  - rewrite decide_True, union_by_nil by done. destruct m as [ex ack], t; simpl in *.
    by rewrite insert_id.
  - rewrite (record_ack_push m id n t) by done.
    rewrite (IH _ _ (with_received t (push_absent (fun x => x) (received_acks t) n)))
      by (simpl; by rewrite lookup_insert_eq).
    simpl. rewrite insert_insert_eq, union_by_cons.
    by case_decide as D; [rewrite D, union_by_nil|].
Qed.

Lemma NoDup_cover (expected received : list string) :
  NoDup expected -> NoDup received -> received ⊆ expected ->
  (length expected <= length received)%nat <-> expected ⊆ received.
Proof.
  intros He Hr Hsub. split.
  - intros Hlen. assert (received ⊆+ expected) as Hs by (by apply NoDup_submseteq).
    apply submseteq_length_Permutation in Hs; [|lia]. intros x. by rewrite Hs.
  - intros Hcov. apply submseteq_length. by apply NoDup_submseteq.
Qed.

(** When distinct nodes are expected and only they answer, the recorded answers
    complete the command exactly when every expected node has answered; answering
    twice does not count twice. *)
Theorem record_ack_complete_iff m now id expected timeout nodes m0 :
  NoDup expected -> nodes ⊆ expected -> nodes <> [] ->
  register_ack_timeout m now id expected timeout = Some (Ok tt, m0) ->
  fst (record_all m0 id nodes) = true <-> expected ⊆ nodes.
Proof.
  intros He Hsub Hne Hreg. unfold register_ack_timeout in Hreg.
  destruct (system_time (now + timeout)) as [e|]; simplify_eq/=.
  unfold record_all. erewrite record_all_union by (simpl; by rewrite lookup_insert_eq).
  rewrite decide_False by done. simpl.
  rewrite Z.leb_le. unfold len. rewrite <- Nat2Z.inj_le, NoDup_cover.
  - split; intros H x Hx; apply H in Hx; rewrite elem_of_union_id in *; set_solver.
  - done.
  - apply NoDup_union_id. constructor.
  - intros x. rewrite elem_of_union_id. set_solver.
Qed.

(** The recorded answers are counted, not matched: when as many distinct nodes
    answer as are expected, the command counts as fully acknowledged and is never
    reported as timed out, even if none of them was expected. *)
Theorem record_ack_counts_strangers m now id expected timeout nodes m0 later :
  NoDup nodes -> length nodes = length expected -> nodes <> [] ->
  register_ack_timeout m now id expected timeout = Some (Ok tt, m0) ->
  fst (record_all m0 id nodes) = true /\
  id ∉ check_ack_timeouts (snd (record_all m0 id nodes)) later.
Proof.
  intros Hnd Hlen Hne Hreg. unfold register_ack_timeout in Hreg.
  destruct (system_time (now + timeout)) as [e|]; simplify_eq/=.
  unfold record_all. erewrite record_all_union by (simpl; by rewrite lookup_insert_eq).
  rewrite decide_False by done. simpl.
  assert (len expected <= len (union_by (fun x => x) [] nodes)) as Hle.
  { unfold len. rewrite <- Hlen, <- Nat2Z.inj_le. apply submseteq_length, NoDup_submseteq;
      [done|]. intros x Hx. apply elem_of_union_id. by right. }
  split; [by apply Z.leb_le|].
  intros ([k t] & -> & [[_ Hlt] Hin]%list_elem_of_filter)%list_elem_of_fmap.
  apply elem_of_map_to_list in Hin. simpl in *.
  rewrite insert_insert_eq, lookup_insert_eq in Hin. injection Hin as <-.
  simpl in Hlt. lia.
Qed.

(** A command is reported as timed out exactly when its deadline has passed and
    fewer answers than expected are recorded. *)
Theorem check_ack_timeouts_spec m now id :
  id ∈ check_ack_timeouts m now <->
  exists t, get_ack_status m id = Some t /\ at_expires_at t <= now /\
            len (received_acks t) < len (expected_acks t).
Proof.
  unfold check_ack_timeouts, get_ack_status. rewrite list_elem_of_fmap. split.
  - intros ([k t] & -> & [[Hle Hlt] Hin]%list_elem_of_filter).
    apply elem_of_map_to_list in Hin. by exists t.
  - intros (t & Ht & Hle & Hlt). exists (id, t). split; [done|].
    apply list_elem_of_filter. split; [done|]. by apply elem_of_map_to_list.
Qed.

(** ** Concrete instances *)

Lemma record_ack_complete_iff_witness :
  exists m0, register_ack_timeout timeout_manager_new 0 "c" ["n1"; "n2"]%string 30 = Some (Ok tt, m0) /\
  (fst (record_all m0 "c" ["n1"; "n1"]%string) = true <-> ["n1"; "n2"]%string ⊆ ["n1"; "n1"]%string).
Proof.
  eexists. split; [reflexivity|].
  eapply (record_ack_complete_iff timeout_manager_new 0 "c" ["n1"; "n2"]%string 30).
  - apply (bool_decide_unpack _). vm_compute. exact I.
  - set_solver.
  - discriminate.
  - reflexivity.
Defined.
