(* ===== verification/Coordinator.v ===== *)
(** * Command coordinator

    Models peat-protocol/src/command/coordinator.rs against the storage interface
    of storage_trait.rs. A handler runs in a small monad: it threads the
    coordinator's shared state (the maps behind its locks), returns the code's
    [Result], and [None] is a panic. State changed before an error stays changed,
    as in the code. The readings of the clock are arguments, in nanoseconds since
    the epoch. *)

From S2P Require Import Prelude Error Capability Policy Command CommandRouting TimeoutManager.

Open Scope Z_scope.

Record CommandAcknowledgment := mkCommandAcknowledgment {
  ack_command_id : string;
  ack_node_id : string;
  ack_status : Z;
  ack_reason : option string;
  ack_timestamp : option Timestamp
}.

Record CommandStatus := mkCommandStatus {
  status_command_id : string;
  state : Z;
  status_acknowledgments : list CommandAcknowledgment;
  last_updated : option Timestamp
}.

Inductive CommandState :=
| StateUnspecified | StatePending | StateDelivered | StateExecuting | StateCompleted
| StateFailed | StateCancelled | StateExpired.

Definition CommandState_try_from (z : Z) : option CommandState :=
  match z with
  | 0 => Some StateUnspecified | 1 => Some StatePending | 2 => Some StateDelivered
  | 3 => Some StateExecuting | 4 => Some StateCompleted | 5 => Some StateFailed
  | 6 => Some StateCancelled | 7 => Some StateExpired | _ => None
  end.

Definition AckReceived : Z := 1.

(** ** The storage interface *)

Class CommandStorage (S : Type) := {
  publish_command : S -> HierarchicalCommand -> result Error string * S;
  get_command : S -> string -> result Error (option HierarchicalCommand);
  query_commands_by_target : S -> string -> result Error (list HierarchicalCommand);
  delete_command : S -> string -> result Error unit * S;
  publish_acknowledgment : S -> CommandAcknowledgment -> result Error string * S;
  get_acknowledgments : S -> string -> result Error (list CommandAcknowledgment);
  update_command_status : S -> CommandStatus -> result Error unit * S;
  storage_command_status : S -> string -> result Error (option CommandStatus)
}.

(** What the trait documents of publishing: a published command can be retrieved by
    its identifier, a published acknowledgment is among those of its command. *)
Class CommandStorageLaws (S : Type) `{CommandStorage S} := {
  publish_get : forall s c d s', publish_command s c = (Ok d, s') ->
    get_command s' (command_id c) = Ok (Some c);
  publish_ack_get : forall s a d s', publish_acknowledgment s a = (Ok d, s') ->
    exists l, get_acknowledgments s' (ack_command_id a) = Ok l /\ a ∈ l
}.

Section Coordinator.
Context {S : Type} `{CommandStorage S}.

Record CommandCoordinator := mkCommandCoordinator {
  node_id : string;
  router : CommandRouter;
  storage : S;
  active_commands : gmap string HierarchicalCommand;
  acknowledgments : gmap (string * string) CommandAcknowledgment;
  command_status : gmap string CommandStatus;
  conflict_resolver : ConflictResolver;
  timeout_manager : TimeoutManager
}.

Definition coordinator_new (cell_id : option string) (id : string) (members : list string)
    (st : S) : CommandCoordinator :=
  mkCommandCoordinator id (mkCommandRouter id cell_id members None) st ∅ ∅ ∅
    conflict_resolver_new timeout_manager_new.

(** ** The handler monad *)

Definition M (A : Type) : Type :=
  CommandCoordinator -> option (result Error A * CommandCoordinator).

#[export] Instance M_ret : MRet M := fun A a cc => Some (Ok a, cc).
#[export] Instance M_bind : MBind M := fun A B k m cc =>
  match m cc with
  | Some (Ok a, cc') => k a cc'
  | Some (Err e, cc') => Some (Err e, cc')
  | None => None
  end.

Definition fail {A} (e : Error) : M A := fun cc => Some (Err e, cc).
Definition get : M CommandCoordinator := fun cc => Some (Ok cc, cc).
Definition modify (f : CommandCoordinator -> CommandCoordinator) : M unit :=
  fun cc => Some (Ok tt, f cc).
Definition from_result {A} (r : option (result Error A)) : M A := fun cc =>
  match r with Some r => Some (r, cc) | None => None end.

Definition set_storage (s : S) cc : CommandCoordinator :=
  mkCommandCoordinator (node_id cc) (router cc) s (active_commands cc)
    (acknowledgments cc) (command_status cc) (conflict_resolver cc) (timeout_manager cc).
Definition set_active a cc : CommandCoordinator :=
  mkCommandCoordinator (node_id cc) (router cc) (storage cc) a
    (acknowledgments cc) (command_status cc) (conflict_resolver cc) (timeout_manager cc).
Definition set_acknowledgments a cc : CommandCoordinator :=
  mkCommandCoordinator (node_id cc) (router cc) (storage cc) (active_commands cc)
    a (command_status cc) (conflict_resolver cc) (timeout_manager cc).
Definition set_status s cc : CommandCoordinator :=
  mkCommandCoordinator (node_id cc) (router cc) (storage cc) (active_commands cc)
    (acknowledgments cc) s (conflict_resolver cc) (timeout_manager cc).
Definition set_resolver r cc : CommandCoordinator :=
  mkCommandCoordinator (node_id cc) (router cc) (storage cc) (active_commands cc)
    (acknowledgments cc) (command_status cc) r (timeout_manager cc).
Definition set_timeouts t cc : CommandCoordinator :=
  mkCommandCoordinator (node_id cc) (router cc) (storage cc) (active_commands cc)
    (acknowledgments cc) (command_status cc) (conflict_resolver cc) t.

(** Calls of the parts: the storage, the resolver and the timeout manager *)
Definition on_storage {A} (f : S -> result Error A * S) : M A := fun cc =>
  let '(r, s) := f (storage cc) in Some (r, set_storage s cc).
Definition on_resolver {A} (f : ConflictResolver -> result Error A * ConflictResolver) : M A :=
  fun cc => let '(r, s) := f (conflict_resolver cc) in Some (r, set_resolver s cc).
Definition on_timeouts {A} (f : TimeoutManager -> option (result Error A * TimeoutManager)) : M A :=
  fun cc => match f (timeout_manager cc) with
            | Some (r, t) => Some (r, set_timeouts t cc)
            | None => None
            end.

(** ** Handlers *)

Definition stamp (now : Z) : option Timestamp := timestamp_now (now / nanos_per_sec).

Definition requires_acknowledgment (c : HierarchicalCommand) : bool :=
  1 <? acknowledgment_policy c.

Definition route_command (c : HierarchicalCommand) : M unit :=
  cc ← get;
  let resolution := resolve_target (router cc) c in
  if negb (should_route resolution) then mret tt
  else _doc_id ← on_storage (fun s => publish_command s c); mret tt.

Definition ack_timeout_ns : Z := 30 * nanos_per_sec.

(** Step 6 of [issue_command]: the deadline of the expected acknowledgments. *)
Definition setup_ack_timeout (c : HierarchicalCommand) (now : Z) : M unit :=
  if requires_acknowledgment c then
    cc ← get;
    let targets := get_routing_targets (resolve_target (router cc) c) in
    if bool_decide (targets <> []) then
      on_timeouts (fun t => register_ack_timeout t now (command_id c) targets ack_timeout_ns)
    else mret tt
  else mret tt.

(** Steps 2 to 7 of [issue_command]: what happens to an accepted command. *)
Definition admit_command (c : HierarchicalCommand) (now1 now2 : Z) : M unit :=
  on_timeouts (fun t => register_expiration t c);;
  on_resolver (fun r => register_command r c);;
  modify (fun cc => set_active (<[command_id c := c]> (active_commands cc)) cc);;
  modify (fun cc => set_status
    (<[command_id c := mkCommandStatus (command_id c) 1 [] (stamp now1)]> (command_status cc)) cc);;
  setup_ack_timeout c now2;;
  route_command c.

Definition rejected : Error := EInternal "Command rejected by conflict resolution policy".

Definition issue_command (c : HierarchicalCommand) (now1 now2 : Z) : M unit :=
  cc ← get;
  match check_conflict (conflict_resolver cc) c with
  | Conflict existing =>
      let policy := default HighestPriorityWins (ConflictPolicy_try_from (conflict_policy c)) in
      resolved ← from_result (resolve (existing ++ [c]) policy);
      if bool_decide (command_id resolved <> command_id c) then fail rejected else mret tt
  | NoConflict => mret tt
  end;;
  admit_command c now1 now2.

Definition execute_command (c : HierarchicalCommand) (now : Z) : M unit :=
  modify (fun cc =>
    let id := command_id c in
    set_status
      (match command_status cc !! id with
       | Some st => <[id := mkCommandStatus (status_command_id st) 2
                              (status_acknowledgments st) (last_updated st)]> (command_status cc)
       | None => <[id := mkCommandStatus id 2 [] (stamp now)]> (command_status cc)
       end) cc);;
  modify (fun cc =>
    let id := command_id c in
    match command_status cc !! id with
    | Some st => set_status (<[id := mkCommandStatus (status_command_id st) 3
                              (status_acknowledgments st) (last_updated st)]> (command_status cc)) cc
    | None => cc
    end).

Definition send_acknowledgment (c : HierarchicalCommand) (status now : Z) : M unit :=
  cc ← get;
  let ack := mkCommandAcknowledgment (command_id c) (node_id cc) status None (stamp now) in
  _doc_id ← on_storage (fun s => publish_acknowledgment s ack);
  modify (fun cc => set_acknowledgments
    (<[(command_id c, node_id cc) := ack]> (acknowledgments cc)) cc);;
  all_received ← on_timeouts (fun t => let '(b, t') := record_ack t (command_id c) (node_id cc) in
                                            Some (Ok b, t'));
  if (all_received : bool)
  then on_timeouts (fun t => Some (unregister_ack_timeout t (command_id c)))
  else mret tt.

Definition receive_command (c : HierarchicalCommand) (now1 now2 : Z) : M unit :=
  cc ← get;
  match resolve_target (router cc) c with
  | Self_ =>
      execute_command c now1;;
      (if requires_acknowledgment c then send_acknowledgment c AckReceived now2 else mret tt)
  | Subordinates _ | AllCellMembers _ => route_command c
  | NotApplicable => mret tt
  end.

Definition get_command_status (cc : CommandCoordinator) (id : string) : option CommandStatus :=
  command_status cc !! id.

Definition get_command_acknowledgments (cc : CommandCoordinator) (id : string)
  : list CommandAcknowledgment :=
  (filter (fun e => e.1.1 = id) (map_to_list (acknowledgments cc))).*2.

Definition is_command_acknowledged (cc : CommandCoordinator) (id : string) : bool :=
  match active_commands cc !! id with
  | None => false
  | Some c =>
      let targets := get_routing_targets (resolve_target (router cc) c) in
      if bool_decide (targets = []) then true
      else
        let acked_nodes : gset string :=
          list_to_set (ack_node_id <$> get_command_acknowledgments cc id) in
        forallb (fun t => bool_decide (t ∈ acked_nodes)) targets
  end.

Lemma bind_ok {A B} (m : M A) (k : A -> M B) cc a cc' :
  m cc = Some (Ok a, cc') -> (m ≫= k) cc = k a cc'.
Proof. intros E. unfold mbind, M_bind. by rewrite E. Qed.

(** ** Invariants of the handlers *)

(** A handler keeps [I] whatever it returns. *)
Definition preserves {A} (I : CommandCoordinator -> Prop) (m : M A) : Prop :=
  forall cc r cc', I cc -> m cc = Some (r, cc') -> I cc'.

Section Preserves.
Context (I : CommandCoordinator -> Prop).

Lemma preserves_ret {A} (a : A) : preserves I (mret a).
Proof. by intros cc r cc' HI [= _ <-]. Qed.

Lemma preserves_fail {A} e : preserves I (@fail A e).
Proof. by intros cc r cc' HI [= _ <-]. Qed.

Lemma preserves_from_result {A} (x : option (result Error A)) : preserves I (from_result x).
Proof. intros cc r cc' HI. unfold from_result. destruct x; [by intros [= _ <-]|done]. Qed.

Lemma preserves_bind {A B} (m : M A) (k : A -> M B) :
  preserves I m -> (forall a, preserves I (k a)) -> preserves I (m ≫= k).
Proof.
  intros Hm Hk cc r cc' HI. unfold mbind, M_bind.
  destruct (m cc) as [[[a|e] cc1]|] eqn:E; [|intros [= _ <-]; by eapply Hm|done].
  intros Hr. eapply Hk; [by eapply Hm|done].
Qed.

(** The state read by [get] satisfies the invariant. *)
Lemma preserves_get {B} (k : CommandCoordinator -> M B) :
  (forall cc, I cc -> preserves I (k cc)) -> preserves I (get ≫= k).
Proof. intros Hk cc r cc' HI Hr. by eapply (Hk cc). Qed.

Lemma preserves_modify f : (forall cc, I cc -> I (f cc)) -> preserves I (modify f).
Proof. intros Hf cc r cc' HI [= _ <-]. by apply Hf. Qed.

Lemma preserves_on_storage {A} (f : S -> result Error A * S) :
  (forall cc s, I cc -> I (set_storage s cc)) -> preserves I (on_storage f).
Proof.
  intros Hf cc r cc' HI. unfold on_storage. destruct (f _). intros [= _ <-]. by apply Hf.
Qed.

Lemma preserves_on_resolver {A} (f : ConflictResolver -> result Error A * ConflictResolver) :
  (forall cc s, I cc -> I (set_resolver s cc)) -> preserves I (on_resolver f).
Proof.
  intros Hf cc r cc' HI. unfold on_resolver. destruct (f _). intros [= _ <-]. by apply Hf.
Qed.

Lemma preserves_on_timeouts {A} (f : TimeoutManager -> option (result Error A * TimeoutManager)) :
  (forall cc s, I cc -> I (set_timeouts s cc)) -> preserves I (on_timeouts f).
Proof.
  intros Hf cc r cc' HI. unfold on_timeouts. destruct (f _) as [[]|]; [|done].
  intros [= _ <-]. by apply Hf.
Qed.

End Preserves.

(** Decompose a handler, leaving the obligations of the state changes. *)
Ltac preserve :=
  repeat match goal with
  | |- preserves _ (mbind _ get) => apply preserves_get; intros ? ?
  | |- preserves _ (mbind _ _) => apply preserves_bind; [|intros ?]
  | |- preserves _ (mret _) => apply preserves_ret
  | |- preserves _ (fail _) => apply preserves_fail
  | |- preserves _ (from_result _) => apply preserves_from_result
  | |- preserves _ (on_storage _) => apply preserves_on_storage; intros ? ? ?
  | |- preserves _ (on_resolver _) => apply preserves_on_resolver; intros ? ? ?
  | |- preserves _ (on_timeouts _) => apply preserves_on_timeouts; intros ? ? ?
  | |- preserves _ (modify _) => apply preserves_modify; intros ? ?
  | |- preserves _ (if ?b then _ else _) => destruct b
  | |- preserves _ (match ?x with _ => _ end) => destruct x
  | |- preserves _ (let x := _ in _) => cbv zeta
  end.

(** The caches are keyed by what they hold; the router never learns a cohort; only
    the node's own acknowledgments are cached; a status is one of 1, 2 and 3. *)
Record coordinator_inv (cc : CommandCoordinator) : Prop := {
  inv_node : router_node_id (router cc) = node_id cc;
  inv_cohort : router_cohort_id (router cc) = None;
  inv_active : forall k c, active_commands cc !! k = Some c -> command_id c = k;
  inv_acks : forall k a, acknowledgments cc !! k = Some a ->
    ack_command_id a = k.1 /\ ack_node_id a = k.2 /\ k.2 = node_id cc /\ ack_status a = AckReceived;
  inv_status : forall k s, command_status cc !! k = Some s ->
    status_command_id s = k /\ 1 <= state s <= 3
}.

Inductive reachable (cell_id : option string) (id : string) (members : list string) (st : S)
  : CommandCoordinator -> Prop :=
| reach_new : reachable cell_id id members st (coordinator_new cell_id id members st)
| reach_issue cc c now1 now2 r cc' : reachable cell_id id members st cc ->
    issue_command c now1 now2 cc = Some (r, cc') -> reachable cell_id id members st cc'
| reach_receive cc c now1 now2 r cc' : reachable cell_id id members st cc ->
    receive_command c now1 now2 cc = Some (r, cc') -> reachable cell_id id members st cc'.

Lemma inv_new cell_id id members st : coordinator_inv (coordinator_new cell_id id members st).
Proof. split; simpl; done. Qed.

Lemma inv_set_storage s cc : coordinator_inv cc -> coordinator_inv (set_storage s cc).
Proof. by intros []; split. Qed.

Lemma inv_set_resolver s cc : coordinator_inv cc -> coordinator_inv (set_resolver s cc).
Proof. by intros []; split. Qed.

Lemma inv_set_timeouts s cc : coordinator_inv cc -> coordinator_inv (set_timeouts s cc).
Proof. by intros []; split. Qed.

Lemma inv_insert_active c cc :
  coordinator_inv cc -> coordinator_inv (set_active (<[command_id c := c]> (active_commands cc)) cc).
Proof.
  intros [??? ? ?]; split; simpl; try done. intros k c' [[<- <-]|[? ?]]%lookup_insert_Some; eauto.
Qed.

Lemma inv_insert_status id st cc :
  coordinator_inv cc -> status_command_id st = id -> 1 <= state st <= 3 ->
  coordinator_inv (set_status (<[id := st]> (command_status cc)) cc).
Proof.
  intros [??? ? ?] ??; split; simpl; try done.
  intros k c' [[<- <-]|[? ?]]%lookup_insert_Some; eauto.
Qed.

Lemma inv_insert_ack c ts cc :
  coordinator_inv cc ->
  coordinator_inv (set_acknowledgments
    (<[(command_id c, node_id cc) :=
       mkCommandAcknowledgment (command_id c) (node_id cc) AckReceived None ts]>
     (acknowledgments cc)) cc).
Proof.
  intros [??? ? ?]; split; simpl; try done.
  intros k a [[<- <-]|[? ?]]%lookup_insert_Some; [done|]. eauto.
Qed.

Create HintDb coord.
#[local] Hint Resolve inv_set_storage inv_set_resolver inv_set_timeouts inv_insert_active : coord.

Lemma route_command_inv c : preserves coordinator_inv (route_command c).
Proof. unfold route_command. preserve; auto with coord. Qed.

Lemma issue_command_inv c now1 now2 : preserves coordinator_inv (issue_command c now1 now2).
Proof.
  unfold issue_command, admit_command, setup_ack_timeout. preserve; auto with coord; try apply route_command_inv.
  all: by apply inv_insert_status.
Qed.

Lemma execute_command_inv c now : preserves coordinator_inv (execute_command c now).
Proof.
  unfold execute_command. preserve.
  - destruct (command_status _ !! _) as [s|] eqn:E; apply inv_insert_status; try done; simpl.
    by eapply inv_status.
  - destruct (command_status _ !! _) as [s|] eqn:E; [|done]. apply inv_insert_status; try done; simpl.
    by eapply inv_status.
Qed.

Lemma send_acknowledgment_inv c now :
  preserves coordinator_inv (send_acknowledgment c AckReceived now).
Proof.
  intros cc r cc' HI Hrun.
  enough (preserves (fun x => coordinator_inv x /\ node_id x = node_id cc)
            (send_acknowledgment c AckReceived now)) as Hp
    by (by eapply (Hp cc r cc')).
  unfold send_acknowledgment. preserve; try tauto; destruct_and!; split_and!; auto with coord.
  simplify_eq/=. replace (node_id cc0) with (node_id cc1) by congruence. by apply inv_insert_ack.
Qed.

Lemma receive_command_inv c now1 now2 : preserves coordinator_inv (receive_command c now1 now2).
Proof.
  unfold receive_command. preserve; auto using route_command_inv, execute_command_inv,
    send_acknowledgment_inv.
Qed.

Lemma reachable_inv cell_id id members st cc :
  reachable cell_id id members st cc -> coordinator_inv cc.
Proof.
  induction 1; [apply inv_new|by eapply issue_command_inv|by eapply receive_command_inv].
Qed.

(** ** What the handlers do *)




(** A command whose conflict policy field is left at its protobuf default (0) is
    refused whenever it conflicts; the fallback to highest priority is only taken for
    values outside the enum. *)
Theorem unspecified_policy_refused cc c now1 now2 existing :
  check_conflict (conflict_resolver cc) c = Conflict existing -> conflict_policy c = 0 ->
  issue_command c now1 now2 cc =
    Some (Err (EInvalidInput "Conflict policy must be specified"), cc).
Proof.
  intros Hc Hp. unfold issue_command, mbind, M_bind, get. rewrite Hc, Hp. simpl.
  unfold check_conflict in Hc. destruct existing as [|e existing]; [by case_match|].
  unfold resolve. rewrite bool_decide_false by done.
  destruct (Z.eqb_spec (len ((e :: existing) ++ [c])) 1) as [E|_]; [|done].
  rewrite len_app in E. unfold len in E. simpl in E. lia.
Qed.

(** A command can be issued when its expiry and the acknowledgment deadline are times. *)
Definition clock_ok (c : HierarchicalCommand) (now : Z) : Prop :=
  (forall t, expires_at c = Some t -> 0 <= seconds t < 2 ^ 63) /\
  0 <= now /\ now + ack_timeout_ns < 2 ^ 63 * nanos_per_sec.

Lemma system_time_ok z : 0 <= z < 2 ^ 63 * nanos_per_sec -> system_time z = Some z.
Proof.
  intros [Hlo Hhi]. unfold system_time.
  by rewrite (proj2 (Z.leb_le _ _) Hlo), (proj2 (Z.ltb_lt _ _) Hhi).
Qed.

Lemma register_expiration_ok t c now :
  clock_ok c now -> exists t', register_expiration t c = Some (Ok tt, t').
Proof.
  intros [He _]. unfold register_expiration. destruct (expires_at c) as [x|]; [|by eexists].
  specialize (He x eq_refl). unfold epoch_plus_secs.
  rewrite system_time_ok by (unfold nanos_per_sec; lia). by eexists.
Qed.

Lemma ack_setup_ok c now cc : clock_ok c now ->
  exists t', setup_ack_timeout c now cc = Some (Ok tt, set_timeouts t' cc).
Proof.
  intros (_ & Hlo & Hhi). unfold setup_ack_timeout. destruct (requires_acknowledgment c).
  2: exists (timeout_manager cc); by destruct cc.
  unfold mbind, M_bind, get. cbv zeta. case_bool_decide.
  - unfold on_timeouts, register_ack_timeout.
    rewrite system_time_ok by (unfold ack_timeout_ns, nanos_per_sec in *; lia). simpl. by eexists.
  - exists (timeout_manager cc). by destruct cc.
Qed.

Lemma admit_result cc c now1 now2 :
  clock_ok c now2 ->
  exists t', let cc1 := mkCommandCoordinator (node_id cc) (router cc) (storage cc)
      (<[command_id c := c]> (active_commands cc)) (acknowledgments cc)
      (<[command_id c := mkCommandStatus (command_id c) 1 [] (stamp now1)]> (command_status cc))
      (snd (register_command (conflict_resolver cc) c)) t' in
  admit_command c now1 now2 cc =
  if should_route (resolve_target (router cc) c) then
    let '(r, s) := publish_command (storage cc) c in
    Some (match r with Ok _ => Ok tt | Err e => Err e end, set_storage s cc1)
  else Some (Ok tt, cc1).
Proof.
  intros Hok. destruct (register_expiration_ok (timeout_manager cc) c now2 Hok) as (t1 & E1).
  set (cc1 := mkCommandCoordinator (node_id cc) (router cc) (storage cc)
      (<[command_id c := c]> (active_commands cc)) (acknowledgments cc)
      (<[command_id c := mkCommandStatus (command_id c) 1 [] (stamp now1)]> (command_status cc))
      (snd (register_command (conflict_resolver cc) c)) t1).
  destruct (ack_setup_ok c now2 cc1 Hok) as (t' & E2). exists t'.
  unfold admit_command.
  rewrite (bind_ok _ _ _ tt (set_timeouts t1 cc)) by (unfold on_timeouts; by rewrite E1).
  do 3 (erewrite bind_ok by reflexivity).
  rewrite (bind_ok _ _ _ tt (set_timeouts t' cc1)) by exact E2.
  unfold route_command, mbind, M_bind, get. simpl.
  destruct (should_route _); [|done]. simpl. unfold on_storage. simpl.
  by destruct (publish_command (storage cc) c) as [[d|e] s].
Qed.

(** An accepted command is never lost silently: whatever the storage answers, it is
    active, its status is PENDING, and it is registered with the resolver next to the
    commands it displaced, which all stay; the handler returns the storage's error, or
    [Ok] when the publication succeeds or nothing had to be published. *)
Theorem admit_command_spec cc c now1 now2 :
  clock_ok c now2 ->
  exists r cc', admit_command c now1 now2 cc = Some (r, cc') /\
    active_commands cc' = <[command_id c := c]> (active_commands cc) /\
    command_status cc' =
      <[command_id c := mkCommandStatus (command_id c) 1 [] (stamp now1)]> (command_status cc) /\
    (forall k e, e ∈ get_by_key (to_generic (conflict_resolver cc)) k ->
                 e ∈ get_by_key (to_generic (conflict_resolver cc')) k) /\
    (forall k, k ∈ extract_target_ids c -> c ∈ get_by_key (to_generic (conflict_resolver cc')) k) /\
    (if should_route (resolve_target (router cc) c)
     then storage cc' = snd (publish_command (storage cc) c) /\
          is_ok r = is_ok (fst (publish_command (storage cc) c))
     else storage cc' = storage cc /\ r = Ok tt).
Proof.
  intros Hok. destruct (admit_result cc c now1 now2 Hok) as (t' & ->).
  destruct (register_keeps (conflict_resolver cc) c) as [Hold Hnew].
  destruct (should_route _).
  - destruct (publish_command (storage cc) c) as [[d|e] s]; do 2 eexists; by split_and!.
  - do 2 eexists; by split_and!.
Qed.

(** Executing a command always leaves its status at 3, which the schema decodes as
    STATE_EXECUTING (the code means COMPLETED); no coordinator ever stores
    STATE_COMPLETED. *)
Theorem executed_command_reads_as_executing cc c now :
  (exists cc' st, execute_command c now cc = Some (Ok tt, cc') /\
     get_command_status cc' (command_id c) = Some st /\
     CommandState_try_from (state st) = Some StateExecuting) /\
  (forall cell_id id members st0 cc0 k st, reachable cell_id id members st0 cc0 ->
     get_command_status cc0 k = Some st -> CommandState_try_from (state st) <> Some StateCompleted).
Proof.
  split.
  - unfold execute_command, mbind, M_bind, modify. cbv zeta. simpl.
    destruct (command_status cc !! command_id c) as [s|] eqn:E; rewrite lookup_insert_eq;
      do 2 eexists; (split; [done|]); unfold get_command_status; simpl;
      by rewrite lookup_insert_eq.
  - intros cell_id id members st0 cc0 k st Hreach Hst.
    destruct (inv_status _ (reachable_inv _ _ _ _ _ Hreach) k st Hst) as [_ Hs].
    assert (state st = 1 \/ state st = 2 \/ state st = 3) as [E|[E|E]] by lia; by rewrite E.
Qed.

(** Only the coordinator's own acknowledgments reach its cache, so an active
    command routed to any other node never counts as acknowledged. *)
Theorem acknowledged_only_by_self cell_id id members st cc k :
  reachable cell_id id members st cc -> is_command_acknowledged cc k = true ->
  exists c, active_commands cc !! k = Some c /\ command_id c = k /\
    forall n, n ∈ get_routing_targets (resolve_target (router cc) c) -> n = node_id cc.
Proof.
  intros Hreach%reachable_inv Hack. unfold is_command_acknowledged in Hack.
  destruct (active_commands cc !! k) as [c|] eqn:E; [|done]. exists c.
  split_and!; [done|by apply (inv_active cc Hreach)|]. intros n Hn.
  case_bool_decide as B; [rewrite B in Hn; by apply not_elem_of_nil in Hn|].
  rewrite forallb_forall in Hack. apply list_elem_of_In, Hack, bool_decide_eq_true in Hn.
  apply elem_of_list_to_set, list_elem_of_fmap in Hn as (a & -> & Ha).
  apply list_elem_of_fmap in Ha as ([k' a'] & -> & [_ Hin]%list_elem_of_filter).
  apply elem_of_map_to_list in Hin. simpl.
  destruct (inv_acks cc Hreach k' a' Hin) as (_ & -> & -> & _). done.
Qed.

(** A cohort-scoped command has no effect on any coordinator: the constructor
    gives its router no cohort, so the command is dropped without an error. *)
Theorem cohort_commands_ignored cell_id id members st cc c t now1 now2 :
  reachable cell_id id members st cc -> target c = Some t -> scope t = 3 ->
  receive_command c now1 now2 cc = Some (Ok tt, cc).
Proof.
  intros Hreach%reachable_inv Ht Hs. unfold receive_command, mbind, M_bind, get.
  unfold resolve_target. rewrite Ht, Hs. simpl. by rewrite (inv_cohort cc Hreach).
Qed.

(** A command the coordinator accepts and routes can be fetched from any storage
    that keeps its contract. *)
Theorem issued_command_is_published `{!CommandStorageLaws S} cc c now1 now2 cc' :
  clock_ok c now2 -> check_conflict (conflict_resolver cc) c = NoConflict ->
  should_route (resolve_target (router cc) c) = true ->
  issue_command c now1 now2 cc = Some (Ok tt, cc') ->
  get_command (storage cc') (command_id c) = Ok (Some c).
Proof.
  intros Hok Hc Hroute. unfold issue_command, mbind at 1 2, M_bind at 1 2, get. rewrite Hc.
  simpl. destruct (admit_result cc c now1 now2 Hok) as (t' & ->). rewrite Hroute.
  destruct (publish_command (storage cc) c) as [[d|e] s] eqn:E; intros [= <-]. simpl.
  by eapply publish_get.
Qed.

End Coordinator.

(** ** Concrete instances *)

(** A storage that keeps published commands and acknowledgments in lists *)
Record mem_storage := mkMemStorage {
  mem_commands : list HierarchicalCommand;
  mem_acks : list CommandAcknowledgment;
  mem_status : list CommandStatus
}.

#[local] Instance mem_storage_ops : CommandStorage mem_storage := {
  publish_command s c :=
    (Ok (command_id c), mkMemStorage (c :: mem_commands s) (mem_acks s) (mem_status s));
  get_command s id := Ok (snd <$> list_find (fun c => command_id c = id) (mem_commands s));
  query_commands_by_target s t :=
    Ok (filter (fun c => t ∈ extract_target_ids c) (mem_commands s));
  delete_command s id :=
    (Ok tt, mkMemStorage (filter (fun c => command_id c <> id) (mem_commands s)) (mem_acks s) (mem_status s));
  publish_acknowledgment s a :=
    (Ok (ack_command_id a), mkMemStorage (mem_commands s) (a :: mem_acks s) (mem_status s));
  get_acknowledgments s id := Ok (filter (fun a => ack_command_id a = id) (mem_acks s));
  update_command_status s st := (Ok tt, mkMemStorage (mem_commands s) (mem_acks s) (st :: mem_status s));
  storage_command_status s id := Ok (snd <$> list_find (fun x => status_command_id x = id) (mem_status s))
}.

(** The contract of the storage can be kept. *)
#[local] Instance mem_storage_laws : CommandStorageLaws mem_storage.
Proof.
  split.
  - intros s c d s' [= _ <-]. simpl. by rewrite decide_True.
  - intros s a d s' [= _ <-]. eexists. split; [done|]. apply list_elem_of_filter. set_solver.
Qed.

Definition example_coordinator : CommandCoordinator :=
  coordinator_new (Some "cell-1"%string) "leader" ["n1"; "n2"]%string (mkMemStorage [] [] []).



Lemma admit_command_spec_witness :
  exists r cc', admit_command (example_command "c" "zone-1" ["n1"] 1 2 10) 0 0 example_coordinator
    = Some (r, cc') /\ active_commands cc' !! "c"%string = Some (example_command "c" "zone-1" ["n1"] 1 2 10).
Proof.
  destruct (admit_command_spec example_coordinator (example_command "c" "zone-1" ["n1"] 1 2 10) 0 0)
    as (r & cc' & E & Ha & _).
  - split; [intros t Ht; discriminate Ht|]. split; [discriminate|reflexivity].
  - exists r, cc'. split; [exact E|]. rewrite Ha. apply lookup_insert_eq.
Defined.

Lemma acknowledged_only_by_self_witness :
  exists cc, issue_command (example_command "c" "zone-1" ["leader"] 1 2 10) 0 0 example_coordinator
      = Some (Ok tt, cc) /\
    exists c, active_commands cc !! "c"%string = Some c /\ command_id c = "c"%string.
Proof.
  eexists. split; [vm_compute; reflexivity|].
  destruct (acknowledged_only_by_self (Some "cell-1"%string) "leader" ["n1"; "n2"]%string
    (mkMemStorage [] [] []) _ "c"
    (reach_issue _ _ _ _ example_coordinator (example_command "c" "zone-1" ["leader"] 1 2 10) 0 0
       (Ok tt) _ (reach_new _ _ _ _) ltac:(vm_compute; reflexivity)) ltac:(vm_compute; reflexivity))
    as (c & Hc & Hid & _).
  exists c. split; [exact Hc|exact Hid].
Defined.
