(* ===== verification/EventQueue.v ===== *)
(** * Priority event queue

    The event messages of peat-schema/proto/event.proto and the four-level
    transmission queue of peat-protocol/src/event/priority_queue.rs. A [usize] is
    a 64-bit natural; an arithmetic operation that leaves it panics ([None]). *)

From S2P Require Import Prelude Capability.
From Stdlib Require Import Init.Byte.

Open Scope Z_scope.

Record AggregationPolicy := mkAggregationPolicy {
  propagation : Z;
  event_priority : Z;
  ttl_seconds : Z;
  aggregation_window_ms : Z
}.

Record PeatEvent := mkPeatEvent {
  event_id : string;
  event_timestamp : option Timestamp;
  source_node_id : string;
  source_formation_id : string;
  source_instance_id : option string;
  event_class : Z;
  event_type : string;
  routing : option AggregationPolicy;
  payload_type_url : string;
  payload_value : list byte
}.

Inductive EventPriority :=
| PriorityCritical | PriorityHigh | PriorityNormal | PriorityLow.

Definition EventPriority_try_from (z : Z) : option EventPriority :=
  match z with
  | 0 => Some PriorityCritical | 1 => Some PriorityHigh
  | 2 => Some PriorityNormal | 3 => Some PriorityLow | _ => None
  end.

Definition priority_to_level (p : EventPriority) : nat :=
  match p with
  | PriorityCritical => 0 | PriorityHigh => 1 | PriorityNormal => 2 | PriorityLow => 3
  end.

Definition get_priority (e : PeatEvent) : EventPriority :=
  default PriorityNormal
    ((fun r => default PriorityNormal (EventPriority_try_from (event_priority r))) <$> routing e).

Definition event_level (e : PeatEvent) : nat := priority_to_level (get_priority e).

(** The array of four queues *)
Record PriorityEventQueue := mkPriorityEventQueue {
  q_critical : list PeatEvent;
  q_high : list PeatEvent;
  q_normal : list PeatEvent;
  q_low : list PeatEvent
}.

Definition event_queue_new : PriorityEventQueue := mkPriorityEventQueue [] [] [] [].

Definition push (q : PriorityEventQueue) (e : PeatEvent) : PriorityEventQueue :=
  match get_priority e with
  | PriorityCritical => mkPriorityEventQueue (q_critical q ++ [e]) (q_high q) (q_normal q) (q_low q)
  | PriorityHigh => mkPriorityEventQueue (q_critical q) (q_high q ++ [e]) (q_normal q) (q_low q)
  | PriorityNormal => mkPriorityEventQueue (q_critical q) (q_high q) (q_normal q ++ [e]) (q_low q)
  | PriorityLow => mkPriorityEventQueue (q_critical q) (q_high q) (q_normal q) (q_low q ++ [e])
  end.

Definition pop (q : PriorityEventQueue) : option PeatEvent * PriorityEventQueue :=
  match q with
  | mkPriorityEventQueue (e :: c) h n l => (Some e, mkPriorityEventQueue c h n l)
  | mkPriorityEventQueue [] (e :: h) n l => (Some e, mkPriorityEventQueue [] h n l)
  | mkPriorityEventQueue [] [] (e :: n) l => (Some e, mkPriorityEventQueue [] [] n l)
  | mkPriorityEventQueue [] [] [] (e :: l) => (Some e, mkPriorityEventQueue [] [] [] l)
  | mkPriorityEventQueue [] [] [] [] => (None, q)
  end.

Definition pop_critical (q : PriorityEventQueue) : list PeatEvent * PriorityEventQueue :=
  (q_critical q, mkPriorityEventQueue [] (q_high q) (q_normal q) (q_low q)).

(** The loop of [pop_from_level] on one queue: events popped, what is left of the
    queue, and the result so far *)
Fixpoint pop_from_level (queue : list PeatEvent) (popped count : Z) (result : list PeatEvent)
  : Z * list PeatEvent * list PeatEvent :=
  if popped <? count then
    match queue with
    | e :: queue' => pop_from_level queue' (popped + 1) count (result ++ [e])
    | [] => (popped, queue, result)
    end
  else (popped, queue, result).

Definition pop_weighted (q : PriorityEventQueue) (max_events : Z)
  : option (list PeatEvent * PriorityEventQueue) :=
  if max_events =? 0 then Some ([], q)
  else
    h ← checked (max_events * 50);
    let high_alloc := h / 100 in
    n ← checked (max_events * 35);
    let normal_alloc := n / 100 in
    let remaining := max_events in
    let '(high_count, high', result) :=
      pop_from_level (q_high q) 0 (Z.min high_alloc remaining) [] in
    remaining ← checked (remaining - high_count);
    unused ← checked (high_alloc - high_count);
    normal_target ← checked (normal_alloc + unused);
    let '(normal_count, normal', result) :=
      pop_from_level (q_normal q) 0 (Z.min normal_target remaining) result in
    remaining ← checked (remaining - normal_count);
    let '(_, low', result) := pop_from_level (q_low q) 0 remaining result in
    Some (result, mkPriorityEventQueue (q_critical q) high' normal' low').

Definition has_critical (q : PriorityEventQueue) : bool :=
  negb (bool_decide (q_critical q = [])).

Definition queue_len (q : PriorityEventQueue) : Z :=
  len (q_critical q) + len (q_high q) + len (q_normal q) + len (q_low q).

Definition queue_is_empty (q : PriorityEventQueue) : bool :=
  bool_decide (q_critical q = []) && bool_decide (q_high q = []) &&
  bool_decide (q_normal q = []) && bool_decide (q_low q = []).

Definition len_at_priority (q : PriorityEventQueue) (p : EventPriority) : Z :=
  match p with
  | PriorityCritical => len (q_critical q) | PriorityHigh => len (q_high q)
  | PriorityNormal => len (q_normal q) | PriorityLow => len (q_low q)
  end.

Definition counts (q : PriorityEventQueue) : Z * Z * Z * Z :=
  (len (q_critical q), len (q_high q), len (q_normal q), len (q_low q)).

Definition clear (q : PriorityEventQueue) : PriorityEventQueue :=
  mkPriorityEventQueue [] [] [] [].

(** ** Reference: a stable sort by level *)

(** The abstract queue: the events in the order they will be popped. *)
Definition contents (q : PriorityEventQueue) : list PeatEvent :=
  q_critical q ++ q_high q ++ q_normal q ++ q_low q.

(** Every event sits in the queue of its level. *)
Definition levels_ok (q : PriorityEventQueue) : Prop :=
  Forall (fun e => event_level e = 0%nat) (q_critical q) /\
  Forall (fun e => event_level e = 1%nat) (q_high q) /\
  Forall (fun e => event_level e = 2%nat) (q_normal q) /\
  Forall (fun e => event_level e = 3%nat) (q_low q).

Definition by_level (es : list PeatEvent) : list PeatEvent :=
  flat_map (fun l => filter (fun e => event_level e = l) es) [0; 1; 2; 3]%nat.

Fixpoint pop_all (fuel : nat) (q : PriorityEventQueue) : list PeatEvent :=
  match fuel with
  | O => []
  | S fuel => match pop q with
              | (Some e, q') => e :: pop_all fuel q'
              | (None, _) => []
              end
  end.

Lemma pop_contents q :
  match pop q with
  | (Some e, q') => contents q = e :: contents q'
  | (None, q') => contents q = [] /\ q' = q
  end.
Proof. destruct q as [[|] [|] [|] [|]]; done. Qed.

Lemma pop_all_contents fuel q :
  (length (contents q) <= fuel)%nat -> pop_all fuel q = contents q.
Proof.
  revert q; induction fuel as [|fuel IH]; intros q Hle; simpl.
  - by destruct (contents q); simpl in *; [|lia].
  - pose proof (pop_contents q) as Hp. destruct (pop q) as [[e|] q'].
    + rewrite Hp in *. simpl in Hle. by rewrite IH by lia.
    + by destruct Hp as [-> _].
Qed.

Lemma push_all_queues es : forall q,
  fold_left push es q =
  mkPriorityEventQueue (q_critical q ++ filter (fun e => event_level e = 0%nat) es)
    (q_high q ++ filter (fun e => event_level e = 1%nat) es)
    (q_normal q ++ filter (fun e => event_level e = 2%nat) es)
    (q_low q ++ filter (fun e => event_level e = 3%nat) es).
Proof.
  induction es as [|e es IH]; intros q; simpl.
  - rewrite !filter_nil, !app_nil_r. by destruct q.
  - rewrite IH. unfold push. rewrite !filter_cons.
    unfold event_level. by destruct (get_priority e); simpl; rewrite <- ?app_assoc.
Qed.

(** C15: the queue is a stable sort: pushing any events and popping until it is empty
    returns all of them, the critical ones first, and within one priority in the order
    they were pushed. *)
Theorem push_pop_stable_sort es :
  pop_all (length es) (fold_left push es event_queue_new) = by_level es /\
  by_level es ≡ₚ es.
Proof.
  assert (by_level es ≡ₚ es) as Hperm.
  { unfold by_level. simpl. rewrite app_nil_r.
    induction es as [|e es IH]; [done|]. rewrite !filter_cons. unfold event_level in *.
    destruct (get_priority e); simpl; rewrite <- ?Permutation_middle; by constructor. }
  split; [|done]. rewrite pop_all_contents; rewrite push_all_queues; unfold contents; simpl.
  - unfold by_level. simpl. by rewrite app_nil_r.
  - unfold by_level in Hperm. simpl in Hperm. rewrite app_nil_r in Hperm. by rewrite Hperm.
Qed.

(** ** Weighted transmission *)

Lemma pop_from_level_spec queue : forall popped count result,
  popped <= count ->
  let k := Z.min (count - popped) (len queue) in
  pop_from_level queue popped count result =
  (popped + k, drop (Z.to_nat k) queue, result ++ take (Z.to_nat k) queue).
Proof.
  induction queue as [|e queue IH]; intros popped count result Hle; cbn [pop_from_level].
  - change (len []) with 0. rewrite Z.min_r by lia. simpl. rewrite Z.add_0_r, app_nil_r. by destruct (popped <? count).
  - destruct (Z.ltb_spec popped count) as [Hlt|Hge].
    + rewrite IH by lia. unfold len in *. simpl length.
      set (k := Z.min (count - (popped + 1)) (Z.of_nat (length queue))).
      replace (Z.min (count - popped) (Z.of_nat (Datatypes.S (length queue)))) with (k + 1) by lia.
      replace (Z.to_nat (k + 1)) with (Datatypes.S (Z.to_nat k)) by lia.
      simpl. rewrite <- app_assoc. simpl. f_equal. f_equal. lia.
    + replace (Z.min (count - popped) (len (e :: queue))) with 0 by (unfold len; lia).
      simpl. by rewrite Z.add_0_r, app_nil_r.
Qed.

(** How many events of each level a weighted pop takes *)
Definition high_share (q : PriorityEventQueue) (n : Z) : Z := Z.min (n * 50 / 100) (len (q_high q)).
Definition normal_share (q : PriorityEventQueue) (n : Z) : Z :=
  Z.min (n * 35 / 100 + (n * 50 / 100 - high_share q n)) (len (q_normal q)).
Definition low_share (q : PriorityEventQueue) (n : Z) : Z :=
  Z.min (n - high_share q n - normal_share q n) (len (q_low q)).

Lemma allocations_fit n : 0 <= n ->
  0 <= n * 50 / 100 /\ 0 <= n * 35 / 100 /\ n * 50 / 100 + n * 35 / 100 <= n.
Proof.
  intros Hn. split_and!; [apply Z.div_pos; lia|apply Z.div_pos; lia|].
  assert (100 * (n * 50 / 100) <= n * 50) by (apply Z.mul_div_le; lia).
  assert (100 * (n * 35 / 100) <= n * 35) by (apply Z.mul_div_le; lia). lia.
Qed.

Lemma shares_ok q n : 0 <= n ->
  0 <= high_share q n <= n * 50 / 100 /\ 0 <= normal_share q n /\
  high_share q n + normal_share q n <= n /\ 0 <= low_share q n.
Proof.
  intros Hn. unfold low_share, normal_share, high_share.
  pose proof (len_nonneg (q_high q)). pose proof (len_nonneg (q_normal q)).
  pose proof (len_nonneg (q_low q)). pose proof (allocations_fit n Hn). lia.
Qed.

Lemma pop_weighted_shares q n :
  0 <= n -> n * 50 < u64_modulus ->
  pop_weighted q n =
  Some (take (Z.to_nat (high_share q n)) (q_high q) ++
        take (Z.to_nat (normal_share q n)) (q_normal q) ++
        take (Z.to_nat (low_share q n)) (q_low q),
        mkPriorityEventQueue (q_critical q)
          (drop (Z.to_nat (high_share q n)) (q_high q))
          (drop (Z.to_nat (normal_share q n)) (q_normal q))
          (drop (Z.to_nat (low_share q n)) (q_low q))).
Proof.
  intros Hn Hmax. destruct (shares_ok q n Hn) as (Hh & Hm & Hsum & Hl).
  unfold pop_weighted. destruct (Z.eqb_spec n 0) as [->|Hne].
  { assert (high_share q 0 = 0 /\ normal_share q 0 = 0 /\ low_share q 0 = 0) as (-> & -> & ->).
    { change (0 * 50 / 100) with 0 in Hh. unfold low_share in *. lia. }
    by destruct q. }
  pose proof (allocations_fit n Hn) as (Ha & Hb & Hab).
  rewrite !checked_Some by (unfold is_u64; lia). simpl.
  rewrite pop_from_level_spec, Z.add_0_l by lia.
  replace (Z.min (Z.min (n * 50 / 100) n - 0) (len (q_high q))) with (high_share q n)
    by (unfold high_share; lia).
  do 3 (rewrite checked_Some by (unfold is_u64; lia); simpl).
  rewrite pop_from_level_spec, Z.add_0_l by lia.
  match goal with |- context [Z.min (Z.min ?a ?b - 0) ?c] =>
    replace (Z.min (Z.min a b - 0) c) with (normal_share q n) by (unfold normal_share; lia) end.
  rewrite checked_Some by (unfold is_u64; lia). simpl.
  rewrite pop_from_level_spec by lia.
  replace (Z.min (n - high_share q n - normal_share q n - 0) (len (q_low q)))
    with (low_share q n) by (unfold low_share; lia).
  by rewrite <- app_assoc.
Qed.

(** No operation of the queue loses or invents events. *)
Lemma push_contents q e : contents (push q e) ≡ₚ e :: contents q.
Proof.
  unfold push, contents. destruct (get_priority e); simpl; rewrite <- ?app_assoc; simpl.
  - by rewrite <- Permutation_middle.
  - rewrite (app_assoc (q_critical q)), <- Permutation_middle. by rewrite <- app_assoc.
  - rewrite (app_assoc (q_high q)), (app_assoc (q_critical q)), <- Permutation_middle.
    by rewrite <- !app_assoc.
  - rewrite (app_assoc (q_normal q)), (app_assoc (q_high q)), (app_assoc (q_critical q)).
    by rewrite <- Permutation_cons_append.
Qed.

Lemma pop_critical_contents q es q' : pop_critical q = (es, q') -> es ++ contents q' = contents q.
Proof. intros [= <- <-]. done. Qed.

Lemma pop_weighted_contents q n es q' :
  0 <= n -> pop_weighted q n = Some (es, q') -> contents q ≡ₚ es ++ contents q'.
Proof.
  intros Hn Hp. assert (n * 50 < u64_modulus) as Hb.
  { revert Hp. unfold pop_weighted. destruct (Z.eqb_spec n 0) as [->|Hne]; [done|].
    destruct (checked (n * 50)) as [h|] eqn:E; [|done]. intros _. by apply checked_range in E as [_ ?]. }
  rewrite pop_weighted_shares in Hp by done. injection Hp as <- <-. unfold contents. simpl.
  rewrite <- (take_drop (Z.to_nat (high_share q n)) (q_high q)) at 1.
  rewrite <- (take_drop (Z.to_nat (normal_share q n)) (q_normal q)) at 1.
  rewrite <- (take_drop (Z.to_nat (low_share q n)) (q_low q)) at 1.
  rewrite <- !app_assoc. rewrite (Permutation_app_swap_app (q_critical q)). apply Permutation_app_head.
  rewrite (Permutation_app_swap_app (drop (Z.to_nat (high_share q n)) (q_high q))).
  rewrite (Permutation_app_swap_app (q_critical q)). apply Permutation_app_head.
  rewrite (Permutation_app_swap_app (drop (Z.to_nat (normal_share q n)) (q_normal q))).
  rewrite (Permutation_app_swap_app (drop (Z.to_nat (high_share q n)) (q_high q))).
  by rewrite (Permutation_app_swap_app (q_critical q)).
Qed.

Lemma len_take {A} (k : Z) (l : list A) : 0 <= k <= len l -> len (take (Z.to_nat k) l) = k.
Proof. unfold len. intros ?. rewrite length_take. lia. Qed.

(** Without overflow a weighted pop never panics, returns at most the events asked
    for, from the non-critical queues in priority order and first in first out, and
    what it does not return it keeps. *)
Theorem pop_weighted_spec q n :
  0 <= n -> n * 50 < u64_modulus ->
  exists h m l q', pop_weighted q n = Some (h ++ m ++ l, q') /\
    len (h ++ m ++ l) <= n /\ len h <= n * 50 / 100 /\
    q_critical q' = q_critical q /\
    q_high q = h ++ q_high q' /\ q_normal q = m ++ q_normal q' /\ q_low q = l ++ q_low q' /\
    (q_low q' <> [] -> len (h ++ m ++ l) = n).
Proof.
  intros Hn Hmax. rewrite pop_weighted_shares by done.
  destruct (shares_ok q n Hn) as (Hh & Hm & Hsum & Hl).
  assert (high_share q n <= len (q_high q)) by (unfold high_share; lia).
  assert (normal_share q n <= len (q_normal q)) by (unfold normal_share; lia).
  assert (low_share q n <= len (q_low q)) by (unfold low_share; lia).
  do 4 eexists. split; [done|]. rewrite !len_app, !len_take by lia. simpl.
  rewrite !take_drop. split_and!; try done.
  - unfold low_share. lia.
  - lia.
  - intros Hne. unfold low_share in *. destruct (Z.min_spec (n - high_share q n - normal_share q n) (len (q_low q)))
      as [[_ E]|[Hge E]]; rewrite E in *; [lia|].
    destruct Hne. apply drop_ge. unfold len. lia.
Qed.

(** The shares are rounded down and only roll towards lower priorities: asked for
    one event, a weighted pop never returns a high or a normal one, however many wait,
    and returns a low one if there is any. *)
Theorem pop_weighted_one_is_low q :
  pop_weighted q 1 =
  Some (take 1 (q_low q),
        mkPriorityEventQueue (q_critical q) (q_high q) (q_normal q) (drop 1 (q_low q))).
Proof.
  rewrite pop_weighted_shares by done.
  pose proof (len_nonneg (q_high q)). pose proof (len_nonneg (q_normal q)).
  assert (high_share q 1 = 0) as Eh by (unfold high_share; change (1 * 50 / 100) with 0; lia).
  assert (normal_share q 1 = 0) as En.
  { unfold normal_share. rewrite Eh. change (1 * 35 / 100 + (1 * 50 / 100 - 0)) with 0. lia. }
  rewrite Eh, En. simpl. unfold low_share. rewrite Eh, En.
  destruct q as [c h m [|e l]]; [done|]. simpl.
  assert (Z.min (1 - 0 - 0) (len (e :: l)) = 1) as -> by (unfold len; simpl; lia). done.
Qed.

(** ** Concrete instances *)

Definition example_event (id : string) (prio : Z) : PeatEvent :=
  mkPeatEvent id None "n1" "f1" None 1 "t" (Some (mkAggregationPolicy 0 prio 0 0)) "u" [].

Lemma pop_weighted_spec_witness :
  exists h m l q', pop_weighted (push event_queue_new (example_event "e" 3)) 2 = Some (h ++ m ++ l, q') /\
    len (h ++ m ++ l) <= 2.
Proof.
  destruct (pop_weighted_spec (push event_queue_new (example_event "e" 3)) 2)
    as (h & m & l & q' & E & Hlen & _).
  - discriminate.
  - vm_compute. reflexivity.
  - exists h, m, l, q'. split; [exact E|exact Hlen].
Defined.
