(* ===== verification/Qos.v ===== *)
(** * Quality of service: classification, mission context, registry

    Models peat-protocol/src/qos: the data types and their policies
    (classification.rs), the mission-context adjustments (context.rs), the context
    manager (context_manager.rs), the policy registry (registry.rs) and the
    conversions of mod.rs. [QoSClass] and [QoSPolicy] come from the peat-mesh
    crate: their variants and fields are those the sources name, their methods are
    the interface [MeshQoS], with what is documented of it in [MeshQoSLaws].
    Contexts are held in an atomic byte, as in the code; a listener is the state a
    notification updates. *)

From S2P Require Import Prelude Error Router.

Open Scope Z_scope.

Inductive QoSClass := QCritical | QHigh | QNormal | QLow | QBulk.

#[export] Instance QoSClass_eq_dec : EqDecision QoSClass.
Proof. solve_decision. Defined.

Definition qos_rank (c : QoSClass) : Z :=
  match c with QCritical => 1 | QHigh => 2 | QNormal => 3 | QLow => 4 | QBulk => 5 end.

Definition qos_of_rank (z : Z) : QoSClass :=
  match z with 1 => QCritical | 2 => QHigh | 3 => QNormal | 4 => QLow | _ => QBulk end.

#[export] Instance QoSClass_countable : Countable QoSClass.
Proof. refine (inj_countable' qos_rank qos_of_rank _). by intros []. Defined.

Record QoSPolicy := mkQoSPolicy {
  base_class : QoSClass;
  max_latency_ms : option Z;
  max_size_bytes : option Z;
  policy_ttl_seconds : option Z;
  retention_priority : Z;
  preemptable : bool
}.

#[export] Instance QoSPolicy_eq_dec : EqDecision QoSPolicy.
Proof. solve_decision. Defined.

(** The methods of the external types *)
Class MeshQoS := {
  as_u8 : QoSClass -> Z;
  class_gt : QoSClass -> QoSClass -> bool;
  policy_critical : QoSPolicy;
  policy_high : QoSPolicy;
  policy_default : QoSPolicy;
  policy_low : QoSPolicy;
  policy_bulk : QoSPolicy
}.

(** P1 to P5 are the bytes of the classes; the order puts Critical on top; each class
    has a policy of its own. *)
Class MeshQoSLaws `{MeshQoS} : Prop := {
  as_u8_rank : forall c, as_u8 c = qos_rank c;
  class_gt_rank : forall a b, class_gt a b = true <-> qos_rank a < qos_rank b;
  policy_base : base_class policy_critical = QCritical /\ base_class policy_high = QHigh /\
    base_class policy_default = QNormal /\ base_class policy_low = QLow /\
    base_class policy_bulk = QBulk
}.

(** ** Data types *)

Inductive DataType :=
| ContactReport | EmergencyAlert | AbortCommand | RoeUpdate
| TargetImage | AudioIntercept | MissionRetasking | FormationChange
| HealthStatus | CapabilityChange | FormationUpdate | TaskAssignment
| PositionUpdate | Heartbeat | SensorTelemetry | EnvironmentData
| ModelUpdate | DebugLog | HistoricalTrack | TrainingData
| Custom (name : string) (qos_class : QoSClass).

#[export] Instance DataType_eq_dec : EqDecision DataType.
Proof. solve_decision. Defined.

Definition default_class (d : DataType) : QoSClass :=
  match d with
  | ContactReport | EmergencyAlert | AbortCommand | RoeUpdate => QCritical
  | TargetImage | AudioIntercept | MissionRetasking | FormationChange => QHigh
  | HealthStatus | CapabilityChange | FormationUpdate | TaskAssignment => QNormal
  | PositionUpdate | Heartbeat | SensorTelemetry | EnvironmentData => QLow
  | ModelUpdate | DebugLog | HistoricalTrack | TrainingData => QBulk
  | Custom _ qos_class => qos_class
  end.

Definition default_policy `{MeshQoS} (d : DataType) : QoSPolicy :=
  match d with
  | ContactReport => mkQoSPolicy QCritical (Some 500) (Some (32 * 1024)) None 5 false
  | EmergencyAlert => mkQoSPolicy QCritical (Some 500) (Some (8 * 1024)) None 5 false
  | AbortCommand => mkQoSPolicy QCritical (Some 500) (Some 1024) None 5 false
  | RoeUpdate => mkQoSPolicy QCritical (Some 500) (Some (64 * 1024)) None 5 false
  | TargetImage => mkQoSPolicy QHigh (Some 5000) (Some (10 * 1024 * 1024)) (Some 3600) 4 true
  | AudioIntercept => mkQoSPolicy QHigh (Some 5000) (Some (5 * 1024 * 1024)) (Some 3600) 4 true
  | MissionRetasking => mkQoSPolicy QHigh (Some 2000) (Some (64 * 1024)) (Some 7200) 4 false
  | FormationChange => mkQoSPolicy QHigh (Some 5000) (Some (16 * 1024)) (Some 3600) 4 true
  | HealthStatus => mkQoSPolicy QNormal (Some 60000) (Some (8 * 1024)) (Some 86400) 3 true
  | CapabilityChange => mkQoSPolicy QNormal (Some 60000) (Some (16 * 1024)) (Some 86400) 3 true
  | FormationUpdate => mkQoSPolicy QNormal (Some 60000) (Some (32 * 1024)) (Some 43200) 3 true
  | TaskAssignment => mkQoSPolicy QNormal (Some 30000) (Some (16 * 1024)) (Some 86400) 3 true
  | PositionUpdate => mkQoSPolicy QLow (Some 300000) (Some 1024) (Some 86400) 2 true
  | Heartbeat => mkQoSPolicy QLow (Some 300000) (Some 256) (Some 3600) 1 true
  | SensorTelemetry => mkQoSPolicy QLow (Some 300000) (Some (64 * 1024)) (Some 43200) 2 true
  | EnvironmentData => mkQoSPolicy QLow (Some 600000) (Some (128 * 1024)) (Some 86400) 2 true
  | ModelUpdate => mkQoSPolicy QBulk None (Some (500 * 1024 * 1024)) (Some 604800) 2 true
  | DebugLog => mkQoSPolicy QBulk None (Some (10 * 1024 * 1024)) (Some 259200) 1 true
  | HistoricalTrack => mkQoSPolicy QBulk None (Some (100 * 1024 * 1024)) (Some 604800) 2 true
  | TrainingData => mkQoSPolicy QBulk None (Some (1024 * 1024 * 1024)) (Some 2592000) 2 true
  | Custom _ qos_class =>
      match qos_class with
      | QCritical => policy_critical
      | QHigh => policy_high
      | QNormal => policy_default
      | QLow => policy_low
      | QBulk => policy_bulk
      end
  end.

Definition data_type_is_critical (d : DataType) : bool :=
  bool_decide (default_class d = QCritical).

Definition is_preemptable `{MeshQoS} (d : DataType) : bool := preemptable (default_policy d).

Definition all_predefined : list DataType :=
  [ContactReport; EmergencyAlert; AbortCommand; RoeUpdate;
   TargetImage; AudioIntercept; MissionRetasking; FormationChange;
   HealthStatus; CapabilityChange; FormationUpdate; TaskAssignment;
   PositionUpdate; Heartbeat; SensorTelemetry; EnvironmentData;
   ModelUpdate; DebugLog; HistoricalTrack; TrainingData].

Definition DataType_fmt (d : DataType) : string :=
  match d with
  | ContactReport => "ContactReport"
  | EmergencyAlert => "EmergencyAlert"
  | AbortCommand => "AbortCommand"
  | RoeUpdate => "RoeUpdate"
  | TargetImage => "TargetImage"
  | AudioIntercept => "AudioIntercept"
  | MissionRetasking => "MissionRetasking"
  | FormationChange => "FormationChange"
  | HealthStatus => "HealthStatus"
  | CapabilityChange => "CapabilityChange"
  | FormationUpdate => "FormationUpdate"
  | TaskAssignment => "TaskAssignment"
  | PositionUpdate => "PositionUpdate"
  | Heartbeat => "Heartbeat"
  | SensorTelemetry => "SensorTelemetry"
  | EnvironmentData => "EnvironmentData"
  | ModelUpdate => "ModelUpdate"
  | DebugLog => "DebugLog"
  | HistoricalTrack => "HistoricalTrack"
  | TrainingData => "TrainingData"
  | Custom name _ => "Custom(" +:+ name +:+ ")"
  end.

#[export] Instance DataType_countable : Countable DataType.
Proof.
  refine (inj_countable
    (fun d => match d with Custom n c => inr (n, c) | _ => inl (DataType_fmt d) end)
    (fun x => match x with
              | inr (n, c) => Some (Custom n c)
              | inl s => list_find (fun d => DataType_fmt d = s) all_predefined ≫= (fun p => Some p.2)
              end) _).
  by intros [].
Defined.

(** ** Conversions *)

Definition MessagePriority_from_qos (q : QoSClass) : MessagePriority :=
  match q with
  | QCritical => Critical | QHigh => High | QNormal => Normal | QLow | QBulk => Low
  end.

Definition qos_from_MessagePriority (p : MessagePriority) : QoSClass :=
  match p with Critical => QCritical | High => QHigh | Normal => QNormal | Low => QLow end.

Inductive TransferPriority := TPCritical | TPHigh | TPNormal | TPLow.

Definition transfer_priority_from_qos (q : QoSClass) : TransferPriority :=
  match q with
  | QCritical => TPCritical | QHigh => TPHigh | QNormal => TPNormal | QLow | QBulk => TPLow
  end.

Definition qos_from_transfer_priority (p : TransferPriority) : QoSClass :=
  match p with TPCritical => QCritical | TPHigh => QHigh | TPNormal => QNormal | TPLow => QLow end.

(** ** Mission contexts *)

Inductive MissionContext := Ingress | Execution | Egress | Emergency | Standby.

#[export] Instance MissionContext_eq_dec : EqDecision MissionContext.
Proof. solve_decision. Defined.

(** [context as u8] and [u8_to_context] *)
Definition context_to_u8 (c : MissionContext) : Z :=
  match c with Ingress => 0 | Execution => 1 | Egress => 2 | Emergency => 3 | Standby => 4 end.

Definition u8_to_context (z : Z) : MissionContext :=
  match z with 0 => Ingress | 1 => Execution | 2 => Egress | 3 => Emergency | _ => Standby end.

#[export] Instance MissionContext_countable : Countable MissionContext.
Proof. refine (inj_countable' context_to_u8 u8_to_context _). by intros []. Defined.

Definition all_contexts : list MissionContext := [Ingress; Execution; Egress; Emergency; Standby].

Definition has_elevations (c : MissionContext) : bool :=
  match c with Standby => false | _ => true end.

Definition context_enables_bulk_sync (c : MissionContext) : bool :=
  match c with Standby => true | _ => false end.

Inductive QoSClassAdjustment :=
| Elevate (n : Z)
| Demote (n : Z)
| Override (c : QoSClass)
| NoChange.

#[export] Instance QoSClassAdjustment_eq_dec : EqDecision QoSClassAdjustment.
Proof. solve_decision. Defined.

Section Context_.
Context `{MeshQoS}.

(** Saturating arithmetic on [u8] *)
Definition apply (a : QoSClassAdjustment) (base : QoSClass) : QoSClass :=
  match a with
  | Elevate n => qos_of_rank (Z.max (saturating_sub (as_u8 base) n) 1)
  | Demote n => qos_of_rank (Z.min (Z.min 255 (as_u8 base + n)) 5)
  | Override c => c
  | NoChange => base
  end.

Definition elevates (a : QoSClassAdjustment) : bool :=
  match a with Elevate _ | Override (QCritical | QHigh) => true | _ => false end.

Definition demotes (a : QoSClassAdjustment) : bool :=
  match a with Demote _ | Override (QLow | QBulk) => true | _ => false end.

Record ContextProfile := mkContextProfile {
  context : MissionContext;
  adjustments : gmap DataType QoSClassAdjustment;
  profile_description : option string
}.

Definition profile_new (c : MissionContext) : ContextProfile := mkContextProfile c ∅ None.

Definition with_description (c : MissionContext) (d : string) : ContextProfile :=
  mkContextProfile c ∅ (Some d).

Definition set_adjustment (p : ContextProfile) (d : DataType) (a : QoSClassAdjustment)
  : ContextProfile :=
  mkContextProfile (context p) (<[d := a]> (adjustments p)) (profile_description p).

Definition profile_ingress : ContextProfile :=
  let p := with_description Ingress "Moving to objective - prioritize enemy detection" in
  let p := set_adjustment p HistoricalTrack (Demote 1) in
  set_adjustment p PositionUpdate (Demote 1).

Definition profile_execution : ContextProfile :=
  let p := with_description Execution "On objective - prioritize intel products" in
  let p := set_adjustment p TargetImage (Elevate 1) in
  let p := set_adjustment p AudioIntercept (Elevate 1) in
  let p := set_adjustment p CapabilityChange (Elevate 1) in
  set_adjustment p FormationChange (Elevate 1).

Definition profile_egress : ContextProfile :=
  let p := with_description Egress "Returning from objective - prioritize health/status" in
  let p := set_adjustment p HealthStatus (Elevate 1) in
  let p := set_adjustment p CapabilityChange (Elevate 1) in
  set_adjustment p FormationUpdate (Elevate 1).

Definition profile_emergency : ContextProfile :=
  let p := with_description Emergency "Emergency - elevate all status data to critical" in
  let p := set_adjustment p HealthStatus (Elevate 2) in
  let p := set_adjustment p CapabilityChange (Elevate 2) in
  let p := set_adjustment p EmergencyAlert (Override QCritical) in
  let p := set_adjustment p PositionUpdate (Elevate 2) in
  set_adjustment p TrainingData (Override QBulk).

Definition profile_standby : ContextProfile :=
  with_description Standby "Standby - normal priorities, opportunistic sync".

Definition profile (c : MissionContext) : ContextProfile :=
  match c with
  | Ingress => profile_ingress
  | Execution => profile_execution
  | Egress => profile_egress
  | Emergency => profile_emergency
  | Standby => profile_standby
  end.

Definition get_adjustment (p : ContextProfile) (d : DataType) : QoSClassAdjustment :=
  default NoChange (adjustments p !! d).

Definition with_class (p : QoSPolicy) (c : QoSClass) (latency : option Z) : QoSPolicy :=
  mkQoSPolicy c latency (max_size_bytes p) (policy_ttl_seconds p) (retention_priority p)
    (preemptable p).

(** [latency * 2] panics on overflow *)
Definition apply_to_policy (p : ContextProfile) (base : QoSPolicy) (d : DataType)
  : option QoSPolicy :=
  let adjusted_class := apply (get_adjustment p d) (base_class base) in
  if class_gt adjusted_class (base_class base) then
    match max_latency_ms base with
    | Some latency => Some (with_class base adjusted_class (Some (latency / 2)))
    | None => Some (with_class base adjusted_class None)
    end
  else if class_gt (base_class base) adjusted_class then
    match max_latency_ms base with
    | Some latency =>
        latency' ← checked (latency * 2);
        Some (with_class base adjusted_class (Some latency'))
    | None => Some (with_class base adjusted_class None)
    end
  else Some (with_class base adjusted_class (max_latency_ms base)).

Definition adjusted_types (p : ContextProfile) : list (DataType * QoSClassAdjustment) :=
  filter (fun e => e.2 <> NoChange) (map_to_list (adjustments p)).

Definition adjustment_count (p : ContextProfile) : Z :=
  len (filter (fun a => a <> NoChange) (map_to_list (adjustments p)).*2).

(** ** Context manager *)

(** [ContextChangeListener]: a listener and what a notification does to it *)
Class ContextChangeListener (L : Type) := {
  on_context_change : L -> MissionContext -> MissionContext -> L
}.

Record ContextChangeLog := mkContextChangeLog { changes : list (MissionContext * MissionContext) }.

Definition change_log_new : ContextChangeLog := mkContextChangeLog [].
Definition change_count (l : ContextChangeLog) : Z := len (changes l).
Definition change_log_clear (l : ContextChangeLog) : ContextChangeLog := mkContextChangeLog [].

#[export] Instance ContextChangeLog_listener : ContextChangeListener ContextChangeLog := {
  on_context_change l old new := mkContextChangeLog (changes l ++ [(old, new)])
}.

Section Manager.
Context {L : Type} `{ContextChangeListener L}.

Record ContextManager := mkContextManager {
  current_context : Z;
  custom_profiles : gmap MissionContext ContextProfile;
  listeners : list L
}.

Definition manager_new : ContextManager := mkContextManager (context_to_u8 Standby) ∅ [].

Definition with_context (c : MissionContext) : ContextManager :=
  mkContextManager (context_to_u8 c) ∅ [].

Definition get_context (m : ContextManager) : MissionContext := u8_to_context (current_context m).

Definition notify_listeners (m : ContextManager) (old new : MissionContext) : ContextManager :=
  mkContextManager (current_context m) (custom_profiles m)
    ((fun l => on_context_change l old new) <$> listeners m).

Definition set_context (m : ContextManager) (new_context : MissionContext) : ContextManager :=
  let old_context := u8_to_context (current_context m) in
  let m' := mkContextManager (context_to_u8 new_context) (custom_profiles m) (listeners m) in
  if bool_decide (old_context <> new_context) then notify_listeners m' old_context new_context
  else m'.

Definition compare_and_swap (m : ContextManager) (expected new_context : MissionContext)
  : bool * ContextManager :=
  let is_ok := current_context m =? context_to_u8 expected in
  let m' := if is_ok
            then mkContextManager (context_to_u8 new_context) (custom_profiles m) (listeners m)
            else m in
  if is_ok && bool_decide (expected <> new_context)
  then (true, notify_listeners m' expected new_context)
  else (is_ok, m').

Definition subscribe (m : ContextManager) (l : L) : ContextManager :=
  mkContextManager (current_context m) (custom_profiles m) (listeners m ++ [l]).

Definition clear_listeners (m : ContextManager) : ContextManager :=
  mkContextManager (current_context m) (custom_profiles m) [].

Definition listener_count (m : ContextManager) : Z := len (listeners m).

Definition set_custom_profile (m : ContextManager) (c : MissionContext) (p : ContextProfile)
  : ContextManager :=
  mkContextManager (current_context m) (<[c := p]> (custom_profiles m)) (listeners m).

Definition clear_custom_profile (m : ContextManager) (c : MissionContext) : ContextManager :=
  mkContextManager (current_context m) (delete c (custom_profiles m)) (listeners m).

Definition profile_for (m : ContextManager) (c : MissionContext) : ContextProfile :=
  default (profile c) (custom_profiles m !! c).

Definition current_profile (m : ContextManager) : ContextProfile := profile_for m (get_context m).

Definition manager_get_adjustment (m : ContextManager) (d : DataType) : QoSClassAdjustment :=
  get_adjustment (current_profile m) d.

Definition adjust_policy (m : ContextManager) (base : QoSPolicy) (d : DataType) : option QoSPolicy :=
  apply_to_policy (current_profile m) base d.

Definition effective_class (m : ContextManager) (d : DataType) : QoSClass :=
  apply (manager_get_adjustment m d) (default_class d).

Definition enables_bulk_sync (m : ContextManager) : bool :=
  context_enables_bulk_sync (get_context m).

(** ** Registry *)

Record QoSRegistry := mkQoSRegistry { overrides : gmap DataType QoSPolicy }.

Definition registry_new : QoSRegistry := mkQoSRegistry ∅.

Definition default_military : QoSRegistry := registry_new.

Definition override_policy (r : QoSRegistry) (d : DataType) (p : QoSPolicy) : QoSRegistry :=
  mkQoSRegistry (<[d := p]> (overrides r)).

Definition low_bandwidth : QoSRegistry :=
  let r := registry_new in
  let r := override_policy r TargetImage
    (mkQoSPolicy QHigh (Some 30000) (Some (2 * 1024 * 1024)) (Some 7200) 4 true) in
  let r := override_policy r AudioIntercept
    (mkQoSPolicy QHigh (Some 30000) (Some (1024 * 1024)) (Some 7200) 4 true) in
  override_policy r ModelUpdate
    (mkQoSPolicy QBulk None (Some (50 * 1024 * 1024)) (Some 86400) 1 true).

Definition high_priority : QoSRegistry :=
  let r := registry_new in
  let r := override_policy r ContactReport
    (mkQoSPolicy QCritical (Some 250) (Some (64 * 1024)) None 5 false) in
  override_policy r MissionRetasking
    (mkQoSPolicy QCritical (Some 500) (Some (64 * 1024)) (Some 7200) 5 false).

Definition get_policy (r : QoSRegistry) (d : DataType) : QoSPolicy :=
  default (default_policy d) (overrides r !! d).

Definition classify (r : QoSRegistry) (d : DataType) : QoSClass := base_class (get_policy r d).

Definition get_effective_policy (r : QoSRegistry) (d : DataType) (m : ContextManager)
  : option QoSPolicy :=
  adjust_policy m (get_policy r d) d.

Definition classify_with_context (r : QoSRegistry) (d : DataType) (m : ContextManager)
  : option QoSClass :=
  base_class <$> get_effective_policy r d m.

Definition clear_override (r : QoSRegistry) (d : DataType) : QoSRegistry :=
  mkQoSRegistry (delete d (overrides r)).

Definition clear_all_overrides (r : QoSRegistry) : QoSRegistry := mkQoSRegistry ∅.

Definition has_override (r : QoSRegistry) (d : DataType) : bool :=
  bool_decide (is_Some (overrides r !! d)).

Definition override_count (r : QoSRegistry) : Z := Z.of_nat (size (overrides r)).

Definition overridden_types (r : QoSRegistry) : list DataType := (map_to_list (overrides r)).*1.

(** [actual > max], for a limit and a measurement that may be absent *)
Definition exceeds (limit actual : option Z) : bool :=
  match limit, actual with Some m, Some a => m <? a | _, _ => false end.

Definition meets_requirements (r : QoSRegistry) (d : DataType) (latency_ms size_bytes : option Z)
  : bool :=
  let policy := get_policy r d in
  if exceeds (max_latency_ms policy) latency_ms then false
  else if exceeds (max_size_bytes policy) size_bytes then false
  else true.

Definition policies_by_class (r : QoSRegistry) : gmap QoSClass (list (DataType * QoSPolicy)) :=
  fold_left (fun acc dt =>
    let policy := get_policy r dt in
    <[base_class policy := default [] (acc !! base_class policy) ++ [(dt, policy)]]> acc)
    all_predefined ∅.

(** ** Adjustments *)

Section Laws.
Context `{!MeshQoSLaws}.

Lemma qos_rank_of z : 1 <= z <= 5 -> qos_rank (qos_of_rank z) = z.
Proof.
  intros Hz. assert (z = 1 \/ z = 2 \/ z = 3 \/ z = 4 \/ z = 5) as [->|[->|[->|[->| ->]]]] by lia; done.
Qed.

Lemma qos_rank_bounds c : 1 <= qos_rank c <= 5.
Proof. by destruct c. Qed.

Lemma qos_rank_inj a b : qos_rank a = qos_rank b -> a = b.
Proof. by destruct a, b. Qed.

Lemma apply_rank n base : 0 <= n ->
  qos_rank (apply (Elevate n) base) = Z.max (qos_rank base - n) 1 /\
  qos_rank (apply (Demote n) base) = Z.min (qos_rank base + n) 5.
Proof.
  intros Hn. simpl. rewrite as_u8_rank. pose proof (qos_rank_bounds base).
  unfold saturating_sub. rewrite !qos_rank_of by lia. lia.
Qed.

(** Elevating by [n] moves a class up by [n] levels and stops at Critical, demoting
    moves it down and stops at Bulk, both keep the order of the classes, and demoting
    undoes an elevation that was not cut off. *)
Theorem adjustment_spec n base :
  0 <= n ->
  qos_rank (apply (Elevate n) base) = Z.max (qos_rank base - n) 1 /\
  qos_rank (apply (Demote n) base) = Z.min (qos_rank base + n) 5 /\
  (forall base', qos_rank base <= qos_rank base' ->
     qos_rank (apply (Elevate n) base) <= qos_rank (apply (Elevate n) base') /\
     qos_rank (apply (Demote n) base) <= qos_rank (apply (Demote n) base')) /\
  (n < qos_rank base -> apply (Demote n) (apply (Elevate n) base) = base).
Proof.
  intros Hn. destruct (apply_rank n base Hn) as [He Hd]. split_and!; [done|done| |].
  - intros base' Hle. destruct (apply_rank n base' Hn) as [He' Hd']. lia.
  - intros Hlt. apply qos_rank_inj.
    rewrite (proj2 (apply_rank n (apply (Elevate n) base) Hn)), He.
    pose proof (qos_rank_bounds base). lia.
Qed.

(** The adjusted policy differs from the base only in class and latency: a raised
    class halves the latency bound, a lowered one doubles it (or overflows), an
    unchanged one keeps it. *)
Theorem apply_to_policy_spec p base d :
  let c := apply (get_adjustment p d) (base_class base) in
  match apply_to_policy p base d with
  | Some q =>
      base_class q = c /\ max_size_bytes q = max_size_bytes base /\
      policy_ttl_seconds q = policy_ttl_seconds base /\
      retention_priority q = retention_priority base /\ preemptable q = preemptable base /\
      max_latency_ms q = (fun l => match qos_rank c ?= qos_rank (base_class base) with
                                   | Lt => l / 2 | Gt => l * 2 | Eq => l end) <$> max_latency_ms base
  | None => qos_rank (base_class base) < qos_rank c /\
            exists l, max_latency_ms base = Some l /\ ~ is_u64 (l * 2)
  end.
Proof.
  cbv zeta. unfold apply_to_policy. set (c := apply _ _). cbv zeta.
  destruct (class_gt c (base_class base)) eqn:G1.
  - apply class_gt_rank in G1. rewrite (proj2 (Z.compare_lt_iff _ _) G1).
    by destruct (max_latency_ms base).
  - destruct (class_gt (base_class base) c) eqn:G2.
    + apply class_gt_rank in G2. rewrite (proj2 (Z.compare_gt_iff _ _) G2).
      destruct (max_latency_ms base) as [l|]; [|done]. unfold checked.
      destruct (decide (is_u64 (l * 2))); simpl; [done|]. eauto.
    + assert (qos_rank c = qos_rank (base_class base)) as ->.
      { apply Z.le_antisymm; apply Z.nlt_ge; intros Hlt; apply class_gt_rank in Hlt; congruence. }
      rewrite Z.compare_refl. simpl. split_and!; try done. by destruct (max_latency_ms base).
Qed.

Lemma default_policy_class d : base_class (default_policy d) = default_class d.
Proof.
  destruct policy_base as (? & ? & ? & ? & ?). by destruct d as [| | | | | | | | | | | | | | | | | | | |? []].
Qed.

(** The two tables of a data type agree, so a registry without an override for it
    classifies it by its default class, and in every context the registry and the
    context manager give it the same effective class unless the latency bound overflows. *)
Theorem classification_consistent r m d :
  overrides r !! d = None ->
  classify r d = default_class d /\
  match classify_with_context r d m with
  | Some c => c = effective_class m d
  | None => exists l, max_latency_ms (default_policy d) = Some l /\ ~ is_u64 (l * 2)
  end.
Proof.
  intros Hn. unfold classify, classify_with_context, get_effective_policy, adjust_policy, get_policy.
  rewrite Hn. simpl. split; [apply default_policy_class|].
  unfold effective_class, manager_get_adjustment. rewrite <- default_policy_class.
  unfold apply_to_policy. cbv zeta.
  destruct (class_gt _ _); [by destruct (max_latency_ms (default_policy d))|].
  destruct (class_gt _ _); [|done].
  destruct (max_latency_ms (default_policy d)) as [l|]; [|done]. unfold checked.
  destruct (decide (is_u64 (l * 2))); simpl; [done|]. eauto.
Qed.

End Laws.

(** A message is refused exactly when it states a latency or a size above the
    stated bound of its policy. *)
Theorem meets_requirements_spec r d latency_ms size_bytes :
  meets_requirements r d latency_ms size_bytes = true <->
  (forall m a, max_latency_ms (get_policy r d) = Some m -> latency_ms = Some a -> a <= m) /\
  (forall m a, max_size_bytes (get_policy r d) = Some m -> size_bytes = Some a -> a <= m).
Proof.
  assert (forall l a, exceeds l a = false <-> forall m x, l = Some m -> a = Some x -> x <= m) as He.
  { intros [m|] [a|]; simpl; split; try done; try naive_solver.
    - intros Hlt m' x [= <-] [= <-]. by apply Z.ltb_ge.
    - intros Hle. apply Z.ltb_ge. by apply Hle. }
  unfold meets_requirements. rewrite <- !He.
  destruct (exceeds _ latency_ms), (exceeds _ size_bytes); naive_solver.
Qed.

Lemma policies_by_class_lookup r dts : forall (acc : gmap QoSClass (list (DataType * QoSPolicy))) c,
  fold_left (fun acc dt =>
    let policy := get_policy r dt in
    <[base_class policy := default [] (acc !! base_class policy) ++ [(dt, policy)]]> acc)
    dts acc !! c =
  match filter (fun dt => classify r dt = c) dts with
  | [] => acc !! c
  | l => Some (default [] (acc !! c) ++ ((fun dt => (dt, get_policy r dt)) <$> l))
  end.
Proof.
  induction dts as [|dt dts IH]; intros acc c; [done|]. cbn [fold_left]. rewrite IH.
  cbv zeta. change (base_class (get_policy r dt)) with (classify r dt).
  rewrite filter_cons, lookup_insert. destruct (decide (classify r dt = c)) as [<-|Hne].
  - destruct (filter _ dts); simpl; [done|]. by rewrite <- app_assoc.
  - by destruct (filter _ dts).
Qed.

(** Grouping the policies by class loses and repeats nothing: a class lists exactly
    the predefined data types the registry puts in it, in their order, each with its
    current policy; a class with none has no entry. *)
Theorem policies_by_class_spec r c :
  policies_by_class r !! c =
  match filter (fun dt => classify r dt = c) all_predefined with
  | [] => None
  | l => Some ((fun dt => (dt, get_policy r dt)) <$> l)
  end.
Proof.
  unfold policies_by_class. rewrite policies_by_class_lookup, lookup_empty.
  by destruct (filter _ all_predefined).
Qed.

End Manager.
End Context_.

(** ** Contexts over time *)

(** The log is a path of changes from one context to another, without self-loops. *)
Fixpoint context_path (from : MissionContext) (log : list (MissionContext * MissionContext))
    (to : MissionContext) : Prop :=
  match log with
  | [] => from = to
  | (a, b) :: log => a = from /\ a <> b /\ context_path b log to
  end.

Inductive context_op := SetContext (c : MissionContext) | CompareAndSwap (a b : MissionContext).

Definition run_context_op {L} `{ContextChangeListener L} (m : ContextManager (L := L))
    (op : context_op) : ContextManager :=
  match op with
  | SetContext c => set_context m c
  | CompareAndSwap a b => snd (compare_and_swap m a b)
  end.

Lemma context_u8 c : u8_to_context (context_to_u8 c) = c.
Proof. by destruct c. Qed.

Lemma context_path_snoc from log mid to :
  context_path from log mid -> mid <> to -> context_path from (log ++ [(mid, to)]) to.
Proof.
  revert from; induction log as [|[a b] log IH]; intros from; simpl.
  - by intros ->.
  - intros (-> & ? & ?) ?. eauto.
Qed.

Lemma run_context_op_path c0 m log op :
  listeners m = [mkContextChangeLog log] -> current_context m = context_to_u8 (get_context m) ->
  context_path c0 log (get_context m) ->
  exists log', listeners (run_context_op m op) = [mkContextChangeLog log'] /\
    current_context (run_context_op m op) = context_to_u8 (get_context (run_context_op m op)) /\
    context_path c0 log' (get_context (run_context_op m op)).
Proof.
  intros Hl Hc Hp. destruct op as [c|a b]; simpl.
  - unfold set_context. cbv zeta. case_bool_decide as D; unfold get_context in *; simpl;
      rewrite context_u8.
    + exists (log ++ [(u8_to_context (current_context m), c)]). rewrite Hl.
      split_and!; [done|done|]. by apply context_path_snoc.
    + exists log. by subst c.
  - unfold compare_and_swap. cbv zeta.
    destruct (Z.eqb_spec (current_context m) (context_to_u8 a)) as [E|_]; simpl; [|by exists log].
    assert (get_context m = a) as Ha by (unfold get_context; rewrite E; apply context_u8).
    rewrite Ha in Hp. case_bool_decide as D; unfold get_context; simpl; rewrite context_u8.
    + exists (log ++ [(a, b)]). rewrite Hl. split_and!; [done|done|].
      by apply context_path_snoc.
    + exists log. by subst b.
Qed.

(** Whatever contexts are set or swapped in, one after the other, a subscribed
    change log records a gapless path of real changes from the initial context to the
    current one. *)
Theorem context_log_is_path c0 ops :
  let m := fold_left run_context_op ops (subscribe (with_context c0) change_log_new) in
  exists log, listeners m = [mkContextChangeLog log] /\ context_path c0 log (get_context m).
Proof.
  cbv zeta.
  enough (forall m log, listeners m = [mkContextChangeLog log] ->
    current_context m = context_to_u8 (get_context m) -> context_path c0 log (get_context m) ->
    exists log', listeners (fold_left run_context_op ops m) = [mkContextChangeLog log'] /\
      context_path c0 log' (get_context (fold_left run_context_op ops m))) as Hgen.
  { apply (Hgen _ []); unfold get_context; simpl; by rewrite ?context_u8. }
  induction ops as [|op ops IH]; intros m log Hl Hc Hp; simpl; [by exists log|].
  destruct (run_context_op_path c0 m log op Hl Hc Hp) as (log' & ? & ? & ?). eauto.
Qed.

(** The ingress context is reported as elevating some data type, but its profile
    elevates none; and its demotion of the track history, documented as P4 to P5,
    changes nothing, since that data is already bulk. *)
Theorem ingress_elevates_nothing `{MeshQoSLaws} :
  has_elevations Ingress = true /\
  (forall d, elevates (get_adjustment (profile Ingress) d) = false) /\
  default_class HistoricalTrack = QBulk /\
  apply (get_adjustment (profile Ingress) HistoricalTrack) QBulk = QBulk.
Proof.
  split_and!; [done| |done|].
  - intros d. unfold get_adjustment, profile, profile_ingress. simpl.
    rewrite !lookup_insert, lookup_empty. by repeat case_decide.
  - apply qos_rank_inj. change (get_adjustment (profile Ingress) HistoricalTrack) with (Demote 1).
    by rewrite (proj2 (apply_rank 1 QBulk ltac:(lia))).
Qed.

(** Converting a message or transfer priority to a class and back is the identity;
    the other way only Bulk is merged into Low. *)
Theorem priority_conversions_roundtrip p t q :
  MessagePriority_from_qos (qos_from_MessagePriority p) = p /\
  transfer_priority_from_qos (qos_from_transfer_priority t) = t /\
  qos_from_MessagePriority (MessagePriority_from_qos q) = (if decide (q = QBulk) then QLow else q) /\
  qos_from_transfer_priority (transfer_priority_from_qos q) = (if decide (q = QBulk) then QLow else q).
Proof. by destruct p, t, q. Qed.

(** ** Concrete instances *)

(** The mesh crate's methods as documented, with the simplest policies *)
Definition mesh_example : MeshQoS := {|
  as_u8 := qos_rank;
  class_gt a b := qos_rank a <? qos_rank b;
  policy_critical := mkQoSPolicy QCritical None None None 5 false;
  policy_high := mkQoSPolicy QHigh None None None 4 true;
  policy_default := mkQoSPolicy QNormal None None None 3 true;
  policy_low := mkQoSPolicy QLow None None None 2 true;
  policy_bulk := mkQoSPolicy QBulk None None None 1 true
|}.

Lemma mesh_example_laws : @MeshQoSLaws mesh_example.
Proof. split; simpl; [done| |done]. intros a b. apply Z.ltb_lt. Qed.

Lemma apply_to_policy_spec_witness :
  exists q, @apply_to_policy mesh_example profile_execution (@default_policy mesh_example TargetImage)
      TargetImage = Some q /\ base_class q = QCritical /\ max_latency_ms q = Some 2500.
Proof.
  pose proof (@apply_to_policy_spec mesh_example mesh_example_laws profile_execution
    (@default_policy mesh_example TargetImage) TargetImage) as H.
  destruct (@apply_to_policy mesh_example _ _ _) as [q|] eqn:E.
  - exists q. destruct H as (Hc & _ & _ & _ & _ & Hl). split; [reflexivity|].
    rewrite Hc, Hl. split; vm_compute; reflexivity.
  - vm_compute in E. discriminate E.
Defined.
