(* ===== verification/SyncQueue.v ===== *)
(** * Priority sync queue

    Models peat-protocol/src/qos/sync_queue.rs against the interface of the mesh
    crate's classes (Qos.v). The array of queues is a list of five lists indexed as
    in the code; an index out of range and an arithmetic overflow panic ([None]).
    The queue is only changed through [&mut self], so its atomic counters are plain
    64-bit integers with wrap-around additions and subtractions. An [Instant] is a
    number of nanoseconds; each operation takes the time as an argument, one
    reading for all the items it looks at. [f32] is IEEE binary32 of the standard
    library's specification. Memory exhaustion is not modelled. *)

From S2P Require Import Prelude Float Error Router Qos.
From Stdlib Require Import SpecFloat Init.Byte.
From stdpp Require Import pretty.

Open Scope Z_scope.

Definition nanos : Z := 10 ^ 9.

(** [Duration::as_secs_f32] *)
Definition as_secs_f32 (ns : Z) : spec_float :=
  SFadd 24 128 (f32_of_Z (ns / nanos)) (SFdiv 24 128 (f32_of_Z (ns mod nanos)) (f32_of_Z nanos)).

Record PendingSync := mkPendingSync {
  data : list byte;
  qos_class : QoSClass;
  data_type : DataType;
  queued_at : Z;
  priority_multiplier : spec_float
}.

Definition pending_new (now : Z) (d : list byte) (c : QoSClass) (t : DataType) : PendingSync :=
  mkPendingSync d c t now (f32_of_Z 1).

Definition with_multiplier (now : Z) (d : list byte) (c : QoSClass) (t : DataType)
    (multiplier : spec_float) : PendingSync :=
  mkPendingSync d c t now multiplier.

(** [Instant::elapsed] is zero for an instant in the future *)
Definition queue_duration (now : Z) (s : PendingSync) : Z := Z.max 0 (now - queued_at s).

Definition effective_class (now : Z) (s : PendingSync) : QoSClass :=
  let wait_hours := SFdiv 24 128 (as_secs_f32 (queue_duration now s)) (f32_of_Z 3600) in
  let adjusted_hours := SFmul 24 128 wait_hours (priority_multiplier s) in
  match qos_class s with
  | QBulk => if SFleb (f32_of_Z 1) adjusted_hours then QLow else QBulk
  | QLow => if SFleb (f32_of_Z 2) adjusted_hours then QNormal else QLow
  | other => other
  end.

Definition should_promote (now : Z) (s : PendingSync) : bool :=
  bool_decide (effective_class now s <> qos_class s).

Definition size (s : PendingSync) : Z := len (data s).

Definition set_class (c : QoSClass) (s : PendingSync) : PendingSync :=
  mkPendingSync (data s) c (data_type s) (queued_at s) (priority_multiplier s).

Record PrioritySyncQueue := mkPrioritySyncQueue {
  queues : list (list PendingSync);
  total_bytes : Z;
  max_bytes : Z;
  aging_promotions : Z
}.

Definition sync_queue_new (max : Z) : PrioritySyncQueue :=
  mkPrioritySyncQueue [[]; []; []; []; []] 0 max 0.

Definition default_capacity : PrioritySyncQueue := sync_queue_new (10 * 1024 * 1024).

Definition bytes (l : list PendingSync) : Z := foldr (fun s n => size s + n) 0 l.

(** The first non-empty queue, without its front *)
Fixpoint pop_first (qs : list (list PendingSync)) : option (PendingSync * list (list PendingSync)) :=
  match qs with
  | [] => None
  | (s :: q) :: qs => Some (s, q :: qs)
  | [] :: qs => match pop_first qs with
                | Some (s, qs') => Some (s, [] :: qs')
                | None => None
                end
  end.

Definition dequeue_highest (q : PrioritySyncQueue) : option PendingSync * PrioritySyncQueue :=
  match pop_first (queues q) with
  | Some (s, qs) => (Some s, mkPrioritySyncQueue qs (as_u64 (total_bytes q - size s))
                               (max_bytes q) (aging_promotions q))
  | None => (None, q)
  end.

Definition peek_highest (q : PrioritySyncQueue) : option PendingSync :=
  fold_right (fun queue rest => match queue with s :: _ => Some s | [] => rest end) None (queues q).

Definition total_items (q : PrioritySyncQueue) : Z := foldr (fun l n => len l + n) 0 (queues q).

Definition sync_is_empty (q : PrioritySyncQueue) : bool :=
  forallb (fun l => bool_decide (l = [])) (queues q).

Definition total_bytes_queued (q : PrioritySyncQueue) : Z := total_bytes q.

Definition is_full (q : PrioritySyncQueue) : bool := max_bytes q <=? total_bytes q.

Definition available_bytes (q : PrioritySyncQueue) : Z :=
  saturating_sub (max_bytes q) (total_bytes q).

Definition sync_clear (q : PrioritySyncQueue) : PrioritySyncQueue :=
  mkPrioritySyncQueue ((fun _ => []) <$> queues q) 0 (max_bytes q) (aging_promotions q).

(** Items, removed count and removed bytes of one pass of [retain] over a queue *)
Definition remove_stale (q : PrioritySyncQueue) (now max_age : Z) : Z * PrioritySyncQueue :=
  let keep s := bool_decide (queue_duration now s < max_age) in
  let qs := (fun l => List.filter keep l) <$> queues q in
  let gone := flat_map (List.filter (fun s => negb (keep s))) (queues q) in
  let removed := foldr (fun l n => (len l - len (List.filter keep l)) + n) 0 (queues q) in
  let bytes_removed := bytes gone in
  (removed,
   mkPrioritySyncQueue qs
     (if 0 <? bytes_removed then as_u64 (total_bytes q - bytes_removed) else total_bytes q)
     (max_bytes q) (aging_promotions q)).

(** [Iterator::max] of the ages of the fronts *)
Definition oldest_item_age (q : PrioritySyncQueue) (now : Z) : option Z :=
  fold_left (fun best l => match l with
                           | [] => best
                           | s :: _ => Some (match best with
                                             | Some b => Z.max b (queue_duration now s)
                                             | None => queue_duration now s
                                             end)
                           end) (queues q) None.

(** The loop of [dequeue_batch] *)
Fixpoint batch_loop (fuel : nat) (q : PrioritySyncQueue) (max_items : Z) (batch : list PendingSync)
  : list PendingSync * PrioritySyncQueue :=
  match fuel with
  | O => (batch, q)
  | S fuel =>
      if len batch <? max_items then
        match dequeue_highest q with
        | (Some s, q') => batch_loop fuel q' max_items (batch ++ [s])
        | (None, q') => (batch, q')
        end
      else (batch, q)
  end.

(** One round more than there are items: enough for the loop to stop by itself. *)
Definition rounds (q : PrioritySyncQueue) : nat := S (length (concat (queues q))).

Definition dequeue_batch (q : PrioritySyncQueue) (max_items : Z)
  : list PendingSync * PrioritySyncQueue :=
  batch_loop (rounds q) q max_items [].

(** The loop of [dequeue_bytes]; [None] is an overflow of the byte count *)
Fixpoint bytes_loop (fuel : nat) (q : PrioritySyncQueue) (limit taken : Z)
    (batch : list PendingSync) : option (list PendingSync * PrioritySyncQueue) :=
  match fuel with
  | O => Some (batch, q)
  | S fuel =>
      if taken <? limit then
        let next :=
          match dequeue_highest q with
          | (Some s, q') =>
              taken' ← checked (taken + size s);
              bytes_loop fuel q' limit taken' (batch ++ [s])
          | (None, q') => Some (batch, q')
          end in
        match peek_highest q with
        | Some peek =>
            sum ← checked (taken + size peek);
            if (limit <? sum) && negb (bool_decide (batch = [])) then Some (batch, q) else next
        | None => next
        end
      else Some (batch, q)
  end.

Definition dequeue_bytes (q : PrioritySyncQueue) (limit : Z)
  : option (list PendingSync * PrioritySyncQueue) :=
  bytes_loop (rounds q) q limit 0 [].

Section Mesh.
Context `{MeshQoS}.

Definition queue_index (c : QoSClass) : option nat :=
  i ← checked (as_u8 c - 1); Some (Z.to_nat i).

Definition queue_full (current sz max : Z) : Error :=
  EInternal ("Queue full: " +:+ pretty current +:+ " + " +:+ pretty sz +:+ " > " +:+
             pretty max +:+ " bytes").

Definition enqueue (q : PrioritySyncQueue) (s : PendingSync)
  : option (result Error unit * PrioritySyncQueue) :=
  let sz := size s in
  let current_bytes := total_bytes q in
  sum ← checked (current_bytes + sz);
  if max_bytes q <? sum then Some (Err (queue_full current_bytes sz (max_bytes q)), q)
  else
    idx ← queue_index (qos_class s);
    l ← queues q !! idx;
    Some (Ok tt, mkPrioritySyncQueue (<[idx := l ++ [s]]> (queues q))
                   (as_u64 (current_bytes + sz)) (max_bytes q) (aging_promotions q)).

Definition promotes_to (now : Z) (c : QoSClass) (s : PendingSync) : bool :=
  should_promote now s && bool_decide (effective_class now s = c).

(** One of the two promotion passes of [apply_aging] *)
Definition promote (now : Z) (from to : QoSClass) (qs : list (list PendingSync))
  : option (Z * list (list PendingSync)) :=
  from_idx ← queue_index from;
  to_idx ← queue_index to;
  l ← qs !! from_idx;
  let to_promote := List.filter (promotes_to now to) l in
  let qs := <[from_idx := List.filter (fun s => negb (promotes_to now to s)) l]> qs in
  t ← qs !! to_idx;
  Some (len to_promote, <[to_idx := t ++ (set_class to <$> to_promote)]> qs).

Definition apply_aging (q : PrioritySyncQueue) (now : Z) : option (Z * PrioritySyncQueue) :=
  '(n1, qs) ← promote now QBulk QLow (queues q);
  '(n2, qs) ← promote now QLow QNormal qs;
  let promoted := n1 + n2 in
  Some (promoted, mkPrioritySyncQueue qs (total_bytes q) (max_bytes q)
                    (if 0 <? promoted then as_u64 (aging_promotions q + promoted)
                     else aging_promotions q)).

Definition queue_depth (q : PrioritySyncQueue) (c : QoSClass) : option Z :=
  idx ← queue_index c; len <$> queues q !! idx.

Definition drain_class (q : PrioritySyncQueue) (c : QoSClass)
  : option (list PendingSync * PrioritySyncQueue) :=
  idx ← queue_index c;
  items ← queues q !! idx;
  Some (items, mkPrioritySyncQueue (<[idx := []]> (queues q))
                 (as_u64 (total_bytes q - bytes items)) (max_bytes q) (aging_promotions q)).

Record QueueStats := mkQueueStats {
  st_total_items : Z;
  st_total_bytes : Z;
  st_max_bytes : Z;
  depth_critical : Z;
  depth_high : Z;
  depth_normal : Z;
  depth_low : Z;
  depth_bulk : Z;
  st_aging_promotions : Z
}.

Definition stats (q : PrioritySyncQueue) : option QueueStats :=
  c ← queue_depth q QCritical;
  h ← queue_depth q QHigh;
  n ← queue_depth q QNormal;
  l ← queue_depth q QLow;
  b ← queue_depth q QBulk;
  Some (mkQueueStats (total_items q) (total_bytes_queued q) (max_bytes q) c h n l b
          (aging_promotions q)).

Definition utilization (s : QueueStats) : spec_float :=
  if st_max_bytes s =? 0 then S754_zero false
  else SFdiv 53 1024 (f64_of_Z (st_total_bytes s)) (f64_of_Z (st_max_bytes s)).

(** ** Accounting *)

(** Five queues, exact byte accounting within the bound, every item in the queue of
    its class. *)
Record sync_wf (q : PrioritySyncQueue) : Prop := {
  wf_five : length (queues q) = 5%nat;
  wf_bytes : total_bytes q = bytes (concat (queues q));
  wf_bound : total_bytes q <= max_bytes q;
  wf_max : is_u64 (max_bytes q);
  wf_class : forall i l s, queues q !! i = Some l -> s ∈ l -> qos_rank (qos_class s) = Z.of_nat i + 1
}.

Lemma bytes_app l k : bytes (l ++ k) = bytes l + bytes k.
Proof. induction l; simpl; lia. Qed.

Lemma bytes_nonneg l : 0 <= bytes l.
Proof.
  induction l as [|x l IH]; simpl; [lia|]. pose proof (len_nonneg (data x)). unfold size. lia.
Qed.

Lemma bytes_perm l k : l ≡ₚ k -> bytes l = bytes k.
Proof. induction 1; simpl; lia. Qed.

Lemma bytes_set_class c l : bytes (set_class c <$> l) = bytes l.
Proof. induction l as [|x l IH]; [done|]. rewrite fmap_cons. simpl. rewrite IH. done. Qed.

Lemma as_u64_small z : is_u64 z -> as_u64 z = z.
Proof. unfold as_u64, is_u64. intros. by rewrite Z.mod_small. Qed.

Lemma concat_at {A} (qs : list (list A)) i l :
  qs !! i = Some l -> concat qs ≡ₚ l ++ concat (delete i qs).
Proof.
  revert i; induction qs as [|q qs IH]; intros [|i] Hi; simplify_eq/=; [done|].
  rewrite (IH i Hi) at 1. rewrite !app_assoc. f_equiv. apply Permutation_app_comm.
Qed.

Lemma concat_insert {A} (qs : list (list A)) i l l' :
  qs !! i = Some l -> concat (<[i := l']> qs) ≡ₚ l' ++ concat (delete i qs).
Proof.
  revert i; induction qs as [|q qs IH]; intros [|i] Hi; simplify_eq/=; [done|].
  rewrite (IH i Hi) at 1. rewrite !app_assoc. f_equiv. apply Permutation_app_comm.
Qed.

Lemma bytes_at qs i l : qs !! i = Some l -> bytes (concat qs) = bytes l + bytes (concat (delete i qs)).
Proof. intros Hi. by rewrite (bytes_perm _ _ (concat_at qs i l Hi)), bytes_app. Qed.

Lemma bytes_insert qs i l l' : qs !! i = Some l ->
  bytes (concat (<[i := l']> qs)) = bytes (concat qs) - bytes l + bytes l'.
Proof.
  intros Hi. rewrite (bytes_perm _ _ (concat_insert qs i l l' Hi)), bytes_app, (bytes_at qs i l Hi). lia.
Qed.

Lemma pop_first_spec qs :
  match pop_first qs with
  | Some (s, qs') => exists i l, qs !! i = Some (s :: l) /\ qs' = <[i := l]> qs /\
      (forall j k, (j < i)%nat -> qs !! j = Some k -> k = [])
  | None => concat qs = []
  end.
Proof.
  induction qs as [|[|s q] qs IH]; [done| |].
  - simpl. destruct (pop_first qs) as [[s qs']|]; [|done].
    destruct IH as (i & l & Hi & -> & Hbelow). exists (Datatypes.S i), l. split_and!; [done|done|].
    intros [|j] k Hj Hk; [by injection Hk|]. eapply (Hbelow j); [lia|done].
  - simpl. exists 0%nat, q. split_and!; [done|done|]. intros. lia.
Qed.

Lemma peek_pop q : peek_highest q = fst (dequeue_highest q).
Proof.
  unfold peek_highest, dequeue_highest. generalize (queues q) as qs.
  induction qs as [|[|s l] qs IH]; [done| |done]. simpl. rewrite IH.
  by destruct (pop_first qs) as [[]|].
Qed.

(** Removing items from one queue keeps the invariant. *)
Lemma wf_shrink q i l l' promotions :
  sync_wf q -> queues q !! i = Some l -> l' ⊆ l -> bytes l' <= bytes l ->
  sync_wf (mkPrioritySyncQueue (<[i := l']> (queues q))
             (as_u64 (total_bytes q - (bytes l - bytes l'))) (max_bytes q) promotions).
Proof.
  intros [H5 Hb Hm Hu Hc] Hi Hsub Hle. pose proof (bytes_insert (queues q) i l l' Hi) as Hbi.
  pose proof (bytes_nonneg (concat (<[i := l']> (queues q)))). unfold is_u64 in Hu.
  split; simpl; rewrite ?as_u64_small by (unfold is_u64; lia); try (done || lia).
  - by rewrite length_insert.
  - intros j k s Hj Hs. rewrite list_lookup_insert in Hj. case_decide as D.
    + destruct D as [<- _]. injection Hj as <-. eapply Hc; [done|]. by apply Hsub.
    + by eapply Hc.
Qed.

Lemma dequeue_highest_wf q : sync_wf q -> sync_wf (snd (dequeue_highest q)).
Proof.
  intros Hwf. unfold dequeue_highest. pose proof (pop_first_spec (queues q)) as Hp.
  destruct (pop_first (queues q)) as [[s qs']|]; [|done].
  destruct Hp as (i & l & Hi & -> & _). simpl.
  replace (size s) with (bytes (s :: l) - bytes l) by (simpl; lia).
  eapply wf_shrink; [done|done|set_solver|]. simpl. pose proof (len_nonneg (data s)). unfold size. lia.
Qed.

Lemma batch_loop_wf fuel : forall q n batch, sync_wf q -> sync_wf (snd (batch_loop fuel q n batch)).
Proof.
  induction fuel as [|fuel IH]; intros q n batch Hwf; [done|]. simpl.
  destruct (len batch <? n); [|done]. pose proof (dequeue_highest_wf q Hwf) as Hd.
  destruct (dequeue_highest q) as [[s|] q']; [by apply IH|done].
Qed.

Lemma bytes_loop_wf fuel : forall q limit taken batch r q',
  sync_wf q -> bytes_loop fuel q limit taken batch = Some (r, q') -> sync_wf q'.
Proof.
  induction fuel as [|fuel IH]; intros q limit taken batch r q' Hwf; simpl; [by intros [= _ <-]|].
  destruct (taken <? limit); [|by intros [= _ <-]].
  pose proof (dequeue_highest_wf q Hwf) as Hd.
  assert (match dequeue_highest q with
          | (Some s, q') => taken' ← checked (taken + size s);
              bytes_loop fuel q' limit taken' (batch ++ [s])
          | (None, q') => Some (batch, q')
          end = Some (r, q') -> sync_wf q') as Hnext.
  { destruct (dequeue_highest q) as [[s|] q1]; [|by intros [= _ <-]].
    destruct (checked _); simpl; [|done]. by eapply IH. }
  destruct (peek_highest q) as [p|]; [|done].
  destruct (checked (taken + size p)) as [sum|]; simpl; [|done].
  destruct (_ && _); [by intros [= _ <-]|done].
Qed.

Lemma clear_wf q : sync_wf q -> sync_wf (sync_clear q).
Proof.
  intros [H5 Hb Hm Hu Hc]. split; simpl; try done.
  - by rewrite length_fmap.
  - clear. by induction (queues q) as [|l qs IH].
  - destruct Hu. lia.
  - intros i l s Hi Hs. rewrite list_lookup_fmap in Hi.
    destruct (queues q !! i); simplify_eq/=. by apply not_elem_of_nil in Hs.
Qed.

Lemma bytes_filter_split (p : PendingSync -> bool) l :
  bytes (List.filter p l) + bytes (List.filter (fun s => negb (p s)) l) = bytes l.
Proof. induction l as [|s l IH]; [done|]. simpl. destruct (p s); simpl; lia. Qed.

Lemma bytes_retain (p : PendingSync -> bool) qs :
  bytes (concat ((fun l => List.filter p l) <$> qs)) +
  bytes (flat_map (List.filter (fun s => negb (p s))) qs) = bytes (concat qs).
Proof.
  induction qs as [|l qs IH]; [done|]. rewrite fmap_cons. simpl.
  rewrite !bytes_app, <- (bytes_filter_split p l), <- IH. lia.
Qed.

Lemma remove_stale_wf q now age : sync_wf q -> sync_wf (snd (remove_stale q now age)).
Proof.
  intros [H5 Hb Hm Hu Hc]. unfold remove_stale. cbv zeta. simpl.
  set (p := fun s => bool_decide (queue_duration now s < age)).
  pose proof (bytes_retain p (queues q)) as Hr. unfold is_u64 in Hu.
  pose proof (bytes_nonneg (flat_map (List.filter (fun s => negb (p s))) (queues q))) as Hn.
  pose proof (bytes_nonneg (concat ((fun l => List.filter p l) <$> queues q))) as Hn'.
  set (gone := bytes (flat_map _ _)) in *.
  assert ((if 0 <? gone then as_u64 (total_bytes q - gone) else total_bytes q) =
          bytes (concat ((fun l => List.filter p l) <$> queues q))) as E.
  { destruct (Z.ltb_spec 0 gone); [rewrite as_u64_small by (unfold is_u64; lia)|]; lia. }
  split; simpl; rewrite ?E; try (done || lia).
  - by rewrite length_fmap.
  - intros i l s Hi Hs. rewrite list_lookup_fmap in Hi.
    destruct (queues q !! i) as [l0|] eqn:E0; simplify_eq/=. eapply Hc; [done|].
    apply list_elem_of_In, filter_In in Hs as [Hs _]. by apply list_elem_of_In.
Qed.

(** ** Order and limits of dequeueing *)

Lemma dequeue_cases q : sync_wf q ->
  match dequeue_highest q with
  | (Some s, q') => concat (queues q) ≡ₚ s :: concat (queues q') /\ sync_wf q' /\
      total_bytes q' = total_bytes q - size s /\ max_bytes q' = max_bytes q
  | (None, q') => q' = q /\ concat (queues q) = []
  end.
Proof.
  intros Hwf. pose proof (dequeue_highest_wf q Hwf) as Hwf'. unfold dequeue_highest in *.
  pose proof (pop_first_spec (queues q)) as Hp.
  destruct (pop_first (queues q)) as [[s qs']|]; [|done].
  destruct Hp as (i & l & Hi & -> & _). simpl in *.
  pose proof (bytes_insert (queues q) i (s :: l) l Hi) as Hb. simpl in Hb.
  split_and!; [|done| |done].
  - rewrite (concat_at _ i _ Hi), (concat_insert _ i _ l Hi). done.
  - rewrite as_u64_small; [done|]. pose proof (bytes_nonneg (concat (<[i := l]> (queues q)))).
    pose proof (len_nonneg (data s)). destruct Hwf as [_ Ht Hm Hu _]. unfold is_u64, size in *. lia.
Qed.

Lemma bytes_loop_run fuel : forall q limit batch,
  sync_wf q -> is_u64 (bytes batch + total_bytes q) -> (length (concat (queues q)) < fuel)%nat ->
  (bytes batch <= limit \/ length batch = 1%nat) ->
  exists out q', bytes_loop fuel q limit (bytes batch) batch = Some (batch ++ out, q') /\
    concat (queues q) ≡ₚ out ++ concat (queues q') /\
    (bytes (batch ++ out) <= limit \/ length (batch ++ out) = 1%nat) /\
    (limit <= bytes (batch ++ out) \/ concat (queues q') = [] \/
     exists s, peek_highest q' = Some s /\ limit < bytes (batch ++ out) + size s).
Proof.
  induction fuel as [|fuel IH]; intros q limit batch Hwf Hu Hf Hlim; [lia|]. cbn [bytes_loop].
  destruct (Z.ltb_spec (bytes batch) limit) as [Hlt|Hge].
  2:{ exists [], q. rewrite app_nil_r. split_and!; eauto. }
  pose proof (dequeue_cases q Hwf) as Hd. rewrite peek_pop.
  destruct (dequeue_highest q) as [[s|] q'] eqn:Edq; simpl.
  2:{ destruct Hd as [-> He]. exists [], q. rewrite app_nil_r. split_and!; eauto. }
  destruct Hd as (Hp & Hwf' & Ht & Hm). pose proof (len_nonneg (data s)) as Hs.
  pose proof (bytes_nonneg (concat (queues q'))) as Hn. pose proof (wf_bytes q' Hwf') as Hb'.
  pose proof (bytes_nonneg batch). unfold is_u64 in Hu.
  rewrite checked_Some by (unfold is_u64, size in *; lia). simpl.
  destruct (Z.ltb_spec limit (bytes batch + size s)) as [Hover|Hfit]; simpl.
  - destruct batch as [|x batch]; simpl negb.
    + apply Permutation_length in Hp as Hpl. simpl in Hpl.
      destruct (IH q' limit [s]) as (out & q2 & E & Hperm & Hl & Hstop);
        [done|unfold is_u64; simpl in *; lia|lia|by right|].
      exists (s :: out), q2. simpl app in *. replace (bytes [] + size s) with (bytes [s]) by (simpl; lia).
      split_and!; [done| |done|done]. by rewrite Hp, Hperm.
    + exists [], q. rewrite app_nil_r. split_and!; [done|done|done|].
      right; right. exists s. rewrite peek_pop, Edq. split; [done|lia].
  - apply Permutation_length in Hp as Hpl. simpl in Hpl.
    destruct (IH q' limit (batch ++ [s])) as (out & q2 & E & Hperm & Hl & Hstop);
      [done|rewrite bytes_app; unfold is_u64; simpl; lia|lia|left; rewrite bytes_app; simpl; lia|].
    rewrite <- app_assoc in E, Hl, Hstop. rewrite bytes_app in E. simpl in E.
    exists (s :: out), q2. replace (bytes batch + size s) with (bytes batch + (size s + 0)) by lia.
    split_and!; [done| |done|done]. by rewrite Hp, Hperm.
Qed.

(** Dequeueing up to a byte limit never panics and stops by itself: the batch stays
    within the limit unless it is a single oversized item, no item is lost or
    duplicated, and it only stops when the limit is reached, the queue is empty or the
    next item would exceed the limit. *)
Theorem dequeue_bytes_spec q limit :
  sync_wf q -> 0 <= limit ->
  exists batch q', dequeue_bytes q limit = Some (batch, q') /\ sync_wf q' /\
    concat (queues q) ≡ₚ batch ++ concat (queues q') /\
    (bytes batch <= limit \/ length batch = 1%nat) /\
    (limit <= bytes batch \/ concat (queues q') = [] \/
     exists s, peek_highest q' = Some s /\ limit < bytes batch + size s).
Proof.
  intros Hwf Hl. unfold dequeue_bytes.
  destruct (bytes_loop_run (rounds q) q limit []) as (out & q' & E & Hrest); [done| | |by left|].
  - simpl. destruct Hwf as [_ Hb Hm Hu _]. pose proof (bytes_nonneg (concat (queues q))).
    unfold is_u64 in *. lia.
  - unfold rounds. lia.
  - exists out, q'. simpl app in *. split; [done|]. split; [by eapply bytes_loop_wf|done].
Qed.

(** The item dequeued next is of the highest priority queued and, among those, the
    one that has been in its queue longest; nothing is returned only when nothing is
    queued. *)
Theorem dequeue_highest_spec q :
  sync_wf q ->
  match dequeue_highest q with
  | (Some s, q') => concat (queues q) ≡ₚ s :: concat (queues q') /\
      (forall x, x ∈ concat (queues q) -> qos_rank (qos_class s) <= qos_rank (qos_class x)) /\
      (exists i l, queues q !! i = Some (s :: l) /\ queues q' !! i = Some l)
  | (None, _) => total_items q = 0
  end.
Proof.
  intros Hwf. pose proof (dequeue_cases q Hwf) as Hd. unfold dequeue_highest in *.
  pose proof (pop_first_spec (queues q)) as Hp.
  destruct (pop_first (queues q)) as [[s qs']|]; simpl in *.
  2:{ clear Hd Hwf. unfold total_items.
      induction (queues q) as [|l qs IH]; [done|]. simpl in *. apply app_eq_nil in Hp as [-> Hp].
      by rewrite IH. }
  destruct Hd as (Hperm & _). destruct Hp as (i & l & Hi & -> & Hbelow). split_and!; [done| |].
  - intros x Hx. apply list_elem_of_In, in_concat in Hx as (k & Hk & Hxk).
    apply list_elem_of_In, list_elem_of_lookup in Hk as (j & Hj).
    rewrite (wf_class q Hwf i _ s Hi) by set_solver.
    rewrite (wf_class q Hwf j k x Hj) by (by apply list_elem_of_In).
    destruct (decide (j < i)%nat) as [Hlt|]; [|lia]. by rewrite (Hbelow j k Hlt Hj) in Hxk.
  - exists i, l. split; [done|]. apply list_lookup_insert_eq. by eapply lookup_lt_Some.
Qed.

Lemma batch_loop_run fuel : forall q n batch,
  sync_wf q -> (length (concat (queues q)) < fuel)%nat -> len batch <= n ->
  exists out q', batch_loop fuel q n batch = (batch ++ out, q') /\
    concat (queues q) ≡ₚ out ++ concat (queues q') /\ len (batch ++ out) <= n /\
    (len (batch ++ out) = n \/ concat (queues q') = []).
Proof.
  induction fuel as [|fuel IH]; intros q n batch Hwf Hf Hn; [lia|]. cbn [batch_loop].
  destruct (Z.ltb_spec (len batch) n) as [Hlt|Hge].
  2:{ exists [], q. rewrite app_nil_r. split_and!; [done|done|done|left; lia]. }
  pose proof (dequeue_cases q Hwf) as Hd. destruct (dequeue_highest q) as [[s|] q'].
  2:{ destruct Hd as [-> He]. exists [], q. rewrite app_nil_r. split_and!; eauto. }
  destruct Hd as (Hp & Hwf' & _). apply Permutation_length in Hp as Hpl. simpl in Hpl.
  destruct (IH q' n (batch ++ [s])) as (out & q2 & -> & Hperm & Hrest);
    [done|lia|rewrite len_app; unfold len at 2; simpl; lia|].
  exists (s :: out), q2. rewrite <- app_assoc in *. split_and!; [done| |apply Hrest..].
  by rewrite Hp, Hperm.
Qed.

(** A batch holds the asked number of items unless the queue runs empty, and loses
    nothing; its loop ends by itself. *)
Theorem dequeue_batch_spec q n :
  sync_wf q -> 0 <= n ->
  let '(batch, q') := dequeue_batch q n in
  sync_wf q' /\ concat (queues q) ≡ₚ batch ++ concat (queues q') /\ len batch <= n /\
  (len batch = n \/ concat (queues q') = []).
Proof.
  intros Hwf Hn. pose proof (batch_loop_wf (rounds q) q n [] Hwf) as Hwf'.
  unfold dequeue_batch.
  destruct (batch_loop_run (rounds q) q n []) as (out & q' & E & Hrest);
    [done|unfold rounds; lia|done|].
  rewrite E in *. by split.
Qed.

(** ** Operations that index by class *)

Section Laws.
Context `{!MeshQoSLaws}.

Lemma queue_index_rank c : queue_index c = Some (Z.to_nat (qos_rank c - 1)).
Proof.
  unfold queue_index. rewrite as_u8_rank. pose proof (qos_rank_bounds c).
  by rewrite checked_Some by (unfold is_u64, u64_modulus; lia).
Qed.

Lemma queue_of_class q c : sync_wf q ->
  exists l, queues q !! Z.to_nat (qos_rank c - 1) = Some l.
Proof.
  intros [H5 _ _ _ _]. apply lookup_lt_is_Some. rewrite H5. pose proof (qos_rank_bounds c). lia.
Qed.

Lemma enqueue_fits_or_not q s :
  sync_wf q -> is_u64 (total_bytes q + size s) ->
  (total_bytes q + size s <= max_bytes q ->
   exists l q', enqueue q s = Some (Ok tt, q') /\ sync_wf q' /\
     queues q !! Z.to_nat (qos_rank (qos_class s) - 1) = Some l /\
     queues q' = <[Z.to_nat (qos_rank (qos_class s) - 1) := l ++ [s]]> (queues q)) /\
  (max_bytes q < total_bytes q + size s ->
   enqueue q s = Some (Err (queue_full (total_bytes q) (size s) (max_bytes q)), q)).
Proof.
  intros Hwf Hu. unfold enqueue. cbv zeta. rewrite checked_Some by done. simpl. split.
  - intros Hfit. rewrite (proj2 (Z.ltb_ge _ _) Hfit). rewrite queue_index_rank. simpl.
    destruct (queue_of_class q (qos_class s) Hwf) as [l Hl]. rewrite Hl. simpl.
    exists l. eexists. split_and!; [done| |done|done].
    destruct Hwf as [H5 Hb Hm Hmax Hc]. split; simpl; rewrite ?as_u64_small by done; try done.
    + by rewrite length_insert.
    + rewrite (bytes_insert _ _ l) by done. rewrite bytes_app. simpl. lia.
    + intros j k x Hj Hx. rewrite list_lookup_insert in Hj. case_decide as D; [|by eapply Hc].
      destruct D as [<- _]. injection Hj as <-. pose proof (qos_rank_bounds (qos_class s)).
      apply elem_of_app in Hx as [Hx|Hx%list_elem_of_singleton]; [by eapply Hc|subst; lia].
  - intros Hover. by rewrite (proj2 (Z.ltb_lt _ _) Hover).
Qed.

Lemma enqueue_wf q s r q' : sync_wf q -> enqueue q s = Some (r, q') -> sync_wf q'.
Proof.
  intros Hwf. destruct (decide (is_u64 (total_bytes q + size s))) as [Hu|Hn].
  - destruct (enqueue_fits_or_not q s Hwf Hu) as [Hfit Hover].
    destruct (Z_le_gt_dec (total_bytes q + size s) (max_bytes q)) as [Hle|Hgt].
    + destruct (Hfit Hle) as (l & q1 & -> & Hwf1 & _). by intros [= _ <-].
    + rewrite Hover by lia. by intros [= _ <-].
  - unfold enqueue. unfold checked. destruct (decide (is_u64 _)); [done|]. by intros.
Qed.

Lemma filter_perm {A} (p : A -> bool) l :
  List.filter p l ++ List.filter (fun x => negb (p x)) l ≡ₚ l.
Proof.
  induction l as [|x l IH]; [done|]. simpl. destruct (p x); simpl; [by f_equiv|].
  by rewrite <- Permutation_middle, IH.
Qed.

(** The data of an item, without the class that aging changes *)
Definition untag (s : PendingSync) := (data s, data_type s, queued_at s, priority_multiplier s).

Lemma untag_set_class c (l : list PendingSync) : untag <$> (set_class c <$> l) = untag <$> l.
Proof. rewrite <- list_fmap_compose. by apply list_fmap_ext. Qed.

(** A promotion pass: which items move, and that nothing else changes. *)
Lemma promote_run now from to q : sync_wf q -> qos_rank to < qos_rank from ->
  exists l t qs, promote now from to (queues q) = Some (len (List.filter (promotes_to now to) l), qs) /\
    queues q !! Z.to_nat (qos_rank from - 1) = Some l /\
    queues q !! Z.to_nat (qos_rank to - 1) = Some t /\
    qs = <[Z.to_nat (qos_rank to - 1) := t ++ (set_class to <$> List.filter (promotes_to now to) l)]>
         (<[Z.to_nat (qos_rank from - 1) := List.filter (fun s => negb (promotes_to now to s)) l]>
           (queues q)) /\
    sync_wf (mkPrioritySyncQueue qs (total_bytes q) (max_bytes q) (aging_promotions q)) /\
    untag <$> concat qs ≡ₚ untag <$> concat (queues q).
Proof.
  intros Hwf Hne. destruct (queue_of_class q from Hwf) as [l Hl].
  destruct (queue_of_class q to Hwf) as [t Ht].
  pose proof (qos_rank_bounds from) as Hf. pose proof (qos_rank_bounds to) as Hto.
  set (fi := Z.to_nat (qos_rank from - 1)) in *. set (ti := Z.to_nat (qos_rank to - 1)) in *.
  assert (fi <> ti) as Hd by (unfold fi, ti; lia).
  set (up := List.filter (promotes_to now to) l). set (keep := List.filter (fun s => negb (promotes_to now to s)) l).
  assert ((<[fi := keep]> (queues q)) !! ti = Some t) as Ht' by (by rewrite list_lookup_insert_ne).
  exists l, t, (<[ti := t ++ (set_class to <$> up)]> (<[fi := keep]> (queues q))).
  split_and!; [|done|done|done| |].
  - unfold promote. rewrite !queue_index_rank. simpl. fold fi ti. rewrite Hl. simpl.
    fold keep up. rewrite Ht'. done.
  - destruct Hwf as [H5 Hb Hm Hu Hc]. split; simpl; try done.
    + by rewrite !length_insert.
    + rewrite (bytes_insert _ _ t) by done. rewrite (bytes_insert _ _ l) by done.
      rewrite bytes_app, bytes_set_class.
      pose proof (bytes_filter_split (promotes_to now to) l) as Hs. fold up keep in Hs. lia.
    + intros j k x Hj Hx. rewrite list_lookup_insert in Hj. case_decide as D1.
      * destruct D1 as [<- _]. injection Hj as <-. apply elem_of_app in Hx as [Hx|Hx]; [by eapply Hc|].
        apply list_elem_of_fmap in Hx as (y & -> & _). simpl. unfold ti. lia.
      * rewrite list_lookup_insert in Hj. case_decide as D2; [|by eapply Hc].
        destruct D2 as [<- _]. injection Hj as <-. eapply Hc; [done|].
        apply list_elem_of_In, filter_In in Hx as [Hx _]. by apply list_elem_of_In.
  - rewrite (concat_insert _ ti t) by done.
    rewrite !fmap_app, untag_set_class, <- app_assoc, (Permutation_app_comm (untag <$> up)), app_assoc.
    rewrite <- fmap_app, <- (concat_at _ ti t Ht'), (concat_insert _ fi l) by done.
    rewrite (Permutation_app_comm _ (untag <$> up)), <- fmap_app, app_assoc.
    unfold up, keep. by rewrite filter_perm, <- (concat_at _ fi l Hl).
Qed.

Lemma kept_settled now c to s :
  qos_class s = c -> (c = QBulk /\ to = QLow \/ c = QLow /\ to = QNormal) ->
  promotes_to now to s = false -> should_promote now s = false.
Proof.
  intros Hc Hto Hp. unfold promotes_to in Hp. apply andb_false_iff in Hp as [Hp|Hp]; [done|].
  apply bool_decide_eq_false in Hp. unfold should_promote. apply bool_decide_eq_false.
  intros Hn. apply Hn. clear Hn. revert Hp. unfold effective_class. cbv zeta. rewrite Hc.
  destruct Hto as [[-> ->]|[-> ->]]; by destruct (SFleb _ _).
Qed.

(** Aging never panics, keeps every item (only classes change) and the byte count,
    and settles: no item left in the queue is due for a promotion at that time. *)
Theorem apply_aging_spec q now :
  sync_wf q ->
  exists n q', apply_aging q now = Some (n, q') /\ sync_wf q' /\ total_bytes q' = total_bytes q /\
    untag <$> concat (queues q') ≡ₚ untag <$> concat (queues q) /\
    (forall x, x ∈ concat (queues q') -> should_promote now x = false).
Proof.
  intros Hwf.
  destruct (promote_run now QBulk QLow q Hwf) as (l1 & t1 & qs1 & E1 & Hl1 & Ht1 & Eq1 & Hwf1 & Hp1); [done|].
  destruct (promote_run now QLow QNormal _ Hwf1) as (l2 & t2 & qs2 & E2 & Hl2 & Ht2 & Eq2 & Hwf2 & Hp2); [done|].
  simpl in *. unfold apply_aging. rewrite E1. simpl. rewrite E2. simpl. do 2 eexists.
  split_and!; [done| |done|by rewrite Hp2, Hp1|].
  - by destruct Hwf2.
  - simpl. intros x Hx. apply list_elem_of_In, in_concat in Hx as (k & Hk & Hxk).
    apply list_elem_of_In in Hk, Hxk. apply list_elem_of_lookup in Hk as (j & Hj).
    pose proof (wf_class _ Hwf2 j k x Hj Hxk) as Hr.
    destruct (qos_class x) eqn:Ec; simpl in Hr;
      try (unfold should_promote, effective_class; rewrite Ec;
           apply bool_decide_eq_false; tauto).
    + replace j with 3%nat in Hj by lia. subst qs2.
      rewrite list_lookup_insert_ne, list_lookup_insert_eq in Hj by
        (done || by (apply lookup_lt_Some in Hl2)).
      injection Hj as <-. apply list_elem_of_In, filter_In in Hxk as [_ Hn].
      eapply (kept_settled now QLow QNormal); eauto. by apply negb_true_iff.
    + replace j with 4%nat in Hj by lia. subst qs2 qs1.
      rewrite !list_lookup_insert_ne, list_lookup_insert_eq in Hj by
        (done || by (apply lookup_lt_Some in Hl1)).
      injection Hj as <-. apply list_elem_of_In, filter_In in Hxk as [_ Hn].
      eapply (kept_settled now QBulk QLow); eauto. by apply negb_true_iff.
Qed.

Lemma apply_aging_wf q now n q' : sync_wf q -> apply_aging q now = Some (n, q') -> sync_wf q'.
Proof.
  intros Hwf.
  destruct (promote_run now QBulk QLow q Hwf) as (l1 & t1 & qs1 & E1 & _ & _ & _ & Hwf1 & _); [done|].
  destruct (promote_run now QLow QNormal _ Hwf1) as (l2 & t2 & qs2 & E2 & _ & _ & _ & Hwf2 & _); [done|].
  simpl in *. unfold apply_aging. rewrite E1. simpl. rewrite E2. simpl. intros [= _ <-].
  by destruct Hwf2.
Qed.

Lemma drain_class_wf q c items q' : sync_wf q -> drain_class q c = Some (items, q') -> sync_wf q'.
Proof.
  intros Hwf. unfold drain_class. rewrite queue_index_rank. simpl.
  destruct (queues q !! _) as [l|] eqn:El; simpl; [|done]. intros [= <- <-].
  replace (total_bytes q - bytes l) with (total_bytes q - (bytes l - bytes [])) by (simpl; lia).
  apply (wf_shrink q _ l []); [done|done|set_solver|]. apply bytes_nonneg.
Qed.

(** An item is accepted exactly when it fits under the byte limit: then it is the
    last of its class and nothing else moves; otherwise the queue is unchanged. *)
Theorem enqueue_spec q s :
  sync_wf q -> is_u64 (total_bytes q + size s) ->
  exists r q', enqueue q s = Some (r, q') /\
    (is_ok r = true <-> total_bytes q + size s <= max_bytes q) /\
    (is_ok r = false -> q' = q /\ r = Err (queue_full (total_bytes q) (size s) (max_bytes q))) /\
    (is_ok r = true -> sync_wf q' /\ total_bytes q' = total_bytes q + size s /\
       concat (queues q') ≡ₚ s :: concat (queues q) /\
       exists l, queues q' !! Z.to_nat (qos_rank (qos_class s) - 1) = Some (l ++ [s])).
Proof.
  intros Hwf Hu. destruct (enqueue_fits_or_not q s Hwf Hu) as [Hfit Hover].
  destruct (Z_le_gt_dec (total_bytes q + size s) (max_bytes q)) as [Hle|Hgt].
  - destruct (Hfit Hle) as (l & q' & -> & Hwf' & Hl & Hq). exists (Ok tt), q'.
    split_and!; [done|done|done|]. intros _.
    assert (concat (queues q') ≡ₚ s :: concat (queues q)) as Hperm.
    { rewrite Hq, (concat_insert _ _ l) by done. rewrite (concat_at (queues q) _ l Hl).
      rewrite <- app_assoc. simpl. by rewrite <- Permutation_middle. }
    split_and!; [done| |done|].
    + rewrite (wf_bytes q' Hwf'), (bytes_perm _ _ Hperm), (wf_bytes q Hwf). simpl. lia.
    + exists l. rewrite Hq. apply list_lookup_insert_eq. by eapply lookup_lt_Some.
  - exists (Err (queue_full (total_bytes q) (size s) (max_bytes q))), q.
    rewrite Hover by lia. split_and!; done || lia.
Qed.

(** Every state a sync queue can get into *)
Inductive sync_reachable (max : Z) : PrioritySyncQueue -> Prop :=
| sr_new : sync_reachable max (sync_queue_new max)
| sr_enqueue q s r q' : sync_reachable max q -> enqueue q s = Some (r, q') -> sync_reachable max q'
| sr_dequeue q : sync_reachable max q -> sync_reachable max (snd (dequeue_highest q))
| sr_batch q n : sync_reachable max q -> sync_reachable max (snd (dequeue_batch q n))
| sr_bytes q limit r q' : sync_reachable max q -> dequeue_bytes q limit = Some (r, q') ->
    sync_reachable max q'
| sr_aging q now n q' : sync_reachable max q -> apply_aging q now = Some (n, q') ->
    sync_reachable max q'
| sr_drain q c r q' : sync_reachable max q -> drain_class q c = Some (r, q') -> sync_reachable max q'
| sr_stale q now age : sync_reachable max q -> sync_reachable max (snd (remove_stale q now age))
| sr_clear q : sync_reachable max q -> sync_reachable max (sync_clear q).

(** C16: whatever the operations, the byte counter is exactly the sum of the queued
    items' sizes, never exceeds the limit and never wraps, and every item sits in the
    queue of its class. *)
Theorem sync_reachable_wf max q :
  is_u64 max -> sync_reachable max q -> sync_wf q.
Proof.
  intros Hmax. induction 1.
  - split; simpl; try done; [by destruct Hmax|].
    intros i l s Hi Hs. destruct i as [|[|[|[|[|i]]]]]; simplify_eq/=; by apply not_elem_of_nil in Hs.
  - by eapply enqueue_wf.
  - by apply dequeue_highest_wf.
  - by apply batch_loop_wf.
  - by eapply bytes_loop_wf.
  - by eapply apply_aging_wf.
  - by eapply drain_class_wf.
  - by apply remove_stale_wf.
  - by apply clear_wf.
Qed.

(** The reported age of the oldest item can be too low: only the fronts are looked
    at, and aging puts older items at the back of a queue. Here a queue holding an item
    that has waited two hours reports one hour. *)
Theorem oldest_item_age_underreports :
  let hour := 3600 * nanos in
  exists q x, sync_reachable 10 q /\ x ∈ concat (queues q) /\
    queue_duration (2 * hour) x = 2 * hour /\ oldest_item_age q (2 * hour) = Some hour.
Proof.
  cbv zeta.
  pose (old := pending_new 0 [] QBulk DebugLog).
  pose (young := pending_new (3600 * nanos) [] QLow Heartbeat).
  assert (exists q1, enqueue (sync_queue_new 10) old = Some (Ok tt, q1) /\
            queues q1 = [[]; []; []; []; [old]] /\ max_bytes q1 = 10 /\ total_bytes q1 = 0)
    as (q1 & E1 & Q1 & M1 & T1).
  { unfold enqueue. simpl. rewrite queue_index_rank. simpl. eexists. split; [done|]. done. }
  assert (exists q2, enqueue q1 young = Some (Ok tt, q2) /\ queues q2 = [[]; []; []; [young]; [old]])
    as (q2 & E2 & Q2).
  { unfold enqueue. rewrite M1, T1, Q1. simpl. rewrite queue_index_rank. simpl. eexists.
    split; done. }
  assert (exists n q3, apply_aging q2 (3600 * nanos + 3600 * nanos / 2) = Some (n, q3) /\
            queues q3 = [[]; []; []; [young; set_class QLow old]; []]) as (n & q3 & E3 & Q3).
  { set (now := 3600 * nanos + 3600 * nanos / 2).
    assert (promotes_to now QLow old = true) as H1 by (vm_compute; done).
    assert (promotes_to now QNormal young = false) as H2 by (vm_compute; done).
    assert (promotes_to now QNormal (set_class QLow old) = false) as H3 by (vm_compute; done).
    clearbody now. unfold apply_aging, promote. rewrite !queue_index_rank, Q2. simpl.
    rewrite H1. simpl. rewrite H2, H3. simpl. do 2 eexists. split; done. }
  exists q3, (set_class QLow old). split_and!.
  - eapply sr_aging; [|exact E3]. eapply sr_enqueue; [|exact E2].
    eapply sr_enqueue; [|exact E1]. constructor.
  - rewrite Q3. set_solver.
  - done.
  - unfold oldest_item_age. rewrite Q3. done.
Qed.

End Laws.

End Mesh.

(** ** Concrete instances *)

(** A two-byte bulk item queued at time 0 *)
Definition example_item : PendingSync := pending_new 0 [x00; x01] QBulk DebugLog.

Definition example_queue : PrioritySyncQueue :=
  mkPrioritySyncQueue [[]; []; []; []; [example_item]] 2 10 0.

Lemma example_queue_wf : sync_wf example_queue.
Proof.
  split; simpl; try done. intros i l s Hi Hs.
  destruct i as [|[|[|[|[|i]]]]]; simplify_eq/=; try by apply not_elem_of_nil in Hs.
  apply list_elem_of_singleton in Hs. by subst.
Qed.

Lemma sync_reachable_wf_witness : sync_wf example_queue.
Proof.
  apply (@sync_reachable_wf mesh_example mesh_example_laws 10).
  - split; [discriminate|reflexivity].
  - apply (@sr_enqueue mesh_example 10 (sync_queue_new 10) example_item (Ok tt)).
    + apply sr_new.
    + vm_compute. reflexivity.
Defined.

Lemma dequeue_bytes_spec_witness :
  exists batch q', dequeue_bytes example_queue 1 = Some (batch, q') /\
    [example_item] ≡ₚ batch ++ concat (queues q').
Proof.
  destruct (dequeue_bytes_spec example_queue 1) as (batch & q' & E & _ & Hp & _).
  - exact example_queue_wf.
  - discriminate.
  - exists batch, q'. split; [exact E|exact Hp].
Defined.

Lemma apply_aging_spec_witness :
  exists n q', @apply_aging mesh_example example_queue (2 * 3600 * nanos) = Some (n, q') /\
    total_bytes q' = 2.
Proof.
  destruct (@apply_aging_spec mesh_example mesh_example_laws example_queue (2 * 3600 * nanos))
    as (n & q' & E & _ & Ht & _).
  - exact example_queue_wf.
  - exists n, q'. split; [exact E|exact Ht].
Defined.
