(* ===== verification/Flow.v ===== *)
(** * Flow control: token buckets and backpressure

    Models peat-protocol/src/hierarchy/flow_control.rs. Tokens are binary64
    numbers. Time passes as it likes between two readings of the clock: [jitter]
    gives the delay before the n-th reading, and [World] carries the time and the
    number of readings so far; [sleep] waits at least the time it is given. A
    request that is still waiting for tokens when the fuel is used up is [None];
    the fuel counts the retries of one wait. The controller's methods run one
    after the other. *)

From Stdlib Require Import SpecFloat.
From S2P Require Import Prelude Float Error Router Qos.

Open Scope Z_scope.

(** ** Time *)

Record World := mkWorld { time : Z; readings : nat }.

(** [Duration::as_secs_f64] of a duration in nanoseconds *)
Definition nanos_per_sec : Z := 10 ^ 9.

Definition as_secs_f64 (d : Z) : spec_float :=
  SFadd 53 1024 (f64_of_Z (d / nanos_per_sec))
    (SFdiv 53 1024 (f64_of_Z (d mod nanos_per_sec)) (f64_of_Z nanos_per_sec)).

(** A [Duration] holds at most [u64::MAX] seconds and 999999999 nanoseconds. *)
Definition duration_max : Z := u64_modulus * nanos_per_sec - 1.

Definition since (now earlier : Z) : Z := Z.min duration_max (saturating_sub now earlier).

Definition sleep (d : Z) (w : World) : World := mkWorld (time w + d) (readings w).

(** ** Limits and policies *)

Record BandwidthLimit := mkBandwidthLimit { messages_per_sec : Z; bytes_per_sec : Z }.

Definition cell_default : BandwidthLimit := mkBandwidthLimit 100 100000.
Definition zone_default : BandwidthLimit := mkBandwidthLimit 50 50000.

Inductive MessageDropPolicy := DropLowPriority | DropOldest | NeverDrop.

Record BackpressureState := mkBackpressureState {
  active : bool;
  started_at : option Z;
  dropped_count : Z
}.

Definition backpressure_new : BackpressureState := mkBackpressureState false None 0.

(** ** Token bucket *)

Record TokenBucket := mkTokenBucket {
  tokens : spec_float;
  capacity : spec_float;
  refill_rate : spec_float;
  last_refill : Z
}.

Definition f64_zero : spec_float := S754_zero false.

Record FlowMetrics := mkFlowMetrics {
  cell_messages_sent : Z;
  cell_bytes_sent : Z;
  zone_messages_sent : Z;
  zone_bytes_sent : Z;
  messages_dropped : Z;
  backpressure_events : Z
}.

Record FlowController := mkFlowController {
  cell_message_limiter : TokenBucket;
  cell_byte_limiter : TokenBucket;
  zone_message_limiter : TokenBucket;
  zone_byte_limiter : TokenBucket;
  backpressure : BackpressureState;
  drop_policy : MessageDropPolicy;
  metrics : FlowMetrics
}.

Record CapacityInfo := mkCapacityInfo { available_messages : Z; available_bytes : Z }.

(** [fetch_add] of an atomic counter wraps around. *)
Definition fetch_add (z n : Z) : Z := (z + n) mod u64_modulus.

(** [x as usize] of a binary64 number: truncation, saturating at the bounds. *)
Definition f64_as_usize (x : spec_float) : Z :=
  match x with
  | S754_finite false m e =>
      Z.min (u64_modulus - 1) (if e <? 0 then Zpos m / 2 ^ (- e) else Zpos m * 2 ^ e)
  | S754_infinity false => u64_modulus - 1
  | _ => 0
  end.

Section FlowControl.
Variable jitter : nat -> Z.

(** [Instant::now()] *)
Definition instant_now (w : World) : Z * World :=
  let t := time w + jitter (readings w) in (t, mkWorld t (S (readings w))).

Definition activate (s : BackpressureState) (w : World) : BackpressureState * World :=
  if negb (active s) then
    let '(now, w) := instant_now w in
    (mkBackpressureState true (Some now) (dropped_count s), w)
  else (s, w).

Definition deactivate (s : BackpressureState) (w : World) : BackpressureState * World :=
  if active s then
    let w := match started_at s with Some _ => snd (instant_now w) | None => w end in
    (mkBackpressureState false None (dropped_count s), w)
  else (s, w).

Definition bucket_new (cap rate : spec_float) (w : World) : TokenBucket * World :=
  let '(now, w) := instant_now w in (mkTokenBucket cap cap rate now, w).

Definition refill (b : TokenBucket) (w : World) : TokenBucket * World :=
  let '(now, w) := instant_now w in
  let elapsed := as_secs_f64 (since now (last_refill b)) in
  if SFltb f64_zero elapsed then
    let new_tokens := SFmul 53 1024 elapsed (refill_rate b) in
    let t := float_min (SFadd 53 1024 (tokens b) new_tokens) (capacity b) in
    let '(now', w) := instant_now w in
    (mkTokenBucket t (capacity b) (refill_rate b) now', w)
  else (b, w).

Definition try_consume (amount : spec_float) (b : TokenBucket) (w : World) :
    bool * TokenBucket * World :=
  let '(b, w) := refill b w in
  if SFleb amount (tokens b) then
    (true, mkTokenBucket (SFsub 53 1024 (tokens b) amount) (capacity b) (refill_rate b) (last_refill b), w)
  else (false, b, w).

(** [Duration::from_millis(10)] *)
Definition retry_delay : Z := 10 * 10 ^ 6.

Fixpoint consume (fuel : nat) (amount : spec_float) (b : TokenBucket) (w : World) :
    option (TokenBucket * World) :=
  match fuel with
  | O => None
  | S fuel =>
      let '(ok, b, w) := try_consume amount b w in
      if ok then Some (b, w) else consume fuel amount b (sleep retry_delay w)
  end.

Definition available_tokens (b : TokenBucket) (w : World) : spec_float * TokenBucket * World :=
  let '(b, w) := refill b w in (tokens b, b, w).

(** ** Flow controller *)

Definition flow_controller_new (cell_limit zone_limit : BandwidthLimit)
    (policy : MessageDropPolicy) (w : World) : FlowController * World :=
  let '(cm, w) := bucket_new (f64_of_Z (messages_per_sec cell_limit)) (f64_of_Z (messages_per_sec cell_limit)) w in
  let '(cb, w) := bucket_new (f64_of_Z (bytes_per_sec cell_limit)) (f64_of_Z (bytes_per_sec cell_limit)) w in
  let '(zm, w) := bucket_new (f64_of_Z (messages_per_sec zone_limit)) (f64_of_Z (messages_per_sec zone_limit)) w in
  let '(zb, w) := bucket_new (f64_of_Z (bytes_per_sec zone_limit)) (f64_of_Z (bytes_per_sec zone_limit)) w in
  (mkFlowController cm cb zm zb backpressure_new policy (mkFlowMetrics 0 0 0 0 0 0), w).

(** The two limiters of a level, and the controller after they changed *)
Definition limiters (fc : FlowController) (level : RoutingLevel) : TokenBucket * TokenBucket :=
  match level with
  | LevelCell => (cell_message_limiter fc, cell_byte_limiter fc)
  | LevelZone => (zone_message_limiter fc, zone_byte_limiter fc)
  end.

Definition set_limiters (fc : FlowController) (level : RoutingLevel) (m b : TokenBucket) : FlowController :=
  match level with
  | LevelCell => mkFlowController m b (zone_message_limiter fc) (zone_byte_limiter fc)
                   (backpressure fc) (drop_policy fc) (metrics fc)
  | LevelZone => mkFlowController (cell_message_limiter fc) (cell_byte_limiter fc) m b
                   (backpressure fc) (drop_policy fc) (metrics fc)
  end.

Definition set_backpressure (fc : FlowController) (s : BackpressureState) : FlowController :=
  mkFlowController (cell_message_limiter fc) (cell_byte_limiter fc) (zone_message_limiter fc)
    (zone_byte_limiter fc) s (drop_policy fc) (metrics fc).

Definition set_metrics (fc : FlowController) (m : FlowMetrics) : FlowController :=
  mkFlowController (cell_message_limiter fc) (cell_byte_limiter fc) (zone_message_limiter fc)
    (zone_byte_limiter fc) (backpressure fc) (drop_policy fc) m.

(** The constants 0.5, 0.75, 1.0 and 1.5, which binary64 represents exactly *)
Definition priority_multiplier (p : MessagePriority) : spec_float :=
  match p with
  | Critical => SFdiv 53 1024 (f64_of_Z 1) (f64_of_Z 2)
  | High => SFdiv 53 1024 (f64_of_Z 3) (f64_of_Z 4)
  | Normal => f64_of_Z 1
  | Low => SFdiv 53 1024 (f64_of_Z 3) (f64_of_Z 2)
  end.

Definition message_tokens (p : MessagePriority) : spec_float :=
  SFmul 53 1024 (f64_of_Z 1) (priority_multiplier p).

Definition byte_tokens (message_size : Z) (p : MessagePriority) : spec_float :=
  SFmul 53 1024 (f64_of_Z message_size) (priority_multiplier p).

Definition count_event (m : FlowMetrics) : FlowMetrics :=
  mkFlowMetrics (cell_messages_sent m) (cell_bytes_sent m) (zone_messages_sent m)
    (zone_bytes_sent m) (messages_dropped m) (fetch_add (backpressure_events m) 1).

Definition apply_backpressure_internal (fc : FlowController) (w : World) : FlowController * World :=
  let '(s, w) := activate (backpressure fc) w in
  let fc := set_backpressure fc s in
  (set_metrics fc (count_event (metrics fc)), w).

Definition count_sent (level : RoutingLevel) (message_size : Z) (m : FlowMetrics) : FlowMetrics :=
  match level with
  | LevelCell =>
      mkFlowMetrics (fetch_add (cell_messages_sent m) 1) (fetch_add (cell_bytes_sent m) message_size)
        (zone_messages_sent m) (zone_bytes_sent m) (messages_dropped m) (backpressure_events m)
  | LevelZone =>
      mkFlowMetrics (cell_messages_sent m) (cell_bytes_sent m)
        (fetch_add (zone_messages_sent m) 1) (fetch_add (zone_bytes_sent m) message_size)
        (messages_dropped m) (backpressure_events m)
  end.

(** [try_consume(message) && try_consume(bytes)]: the second is not tried when the
    first fails. *)
Definition try_both (mt bt : spec_float) (m b : TokenBucket) (w : World) :
    bool * TokenBucket * TokenBucket * World :=
  let '(ok, m, w) := try_consume mt m w in
  if ok then let '(ok, b, w) := try_consume bt b w in (ok, m, b, w) else (false, m, b, w).

Definition fc_acquire_permit (fuel : nat) (fc : FlowController) (level : RoutingLevel)
    (message_size : Z) (priority : MessagePriority) (w : World) :
    option (result Error unit * FlowController * World) :=
  let '(m, b) := limiters fc level in
  let mt := message_tokens priority in
  let bt := byte_tokens message_size priority in
  let '(acquired, m, b, w) := try_both mt bt m b w in
  let fc := set_limiters fc level m b in
  '(fc, w) ←
    (if negb acquired then
       let '(fc, w) := apply_backpressure_internal fc w in
       '(m, w) ← consume fuel mt m w;
       '(b, w) ← consume fuel bt b w;
       Some (set_limiters fc level m b, w)
     else Some (fc, w));
  Some (Ok tt, set_metrics fc (count_sent level message_size (metrics fc)), w).

Definition controller_has_backpressure (fc : FlowController) : bool := active (backpressure fc).

Definition acquire_permit_qos (fuel : nat) (fc : FlowController) (level : RoutingLevel)
    (message_size : Z) (qos_class : QoSClass) (w : World) :
    option (result Error unit * FlowController * World) :=
  fc_acquire_permit fuel fc level message_size (MessagePriority_from_qos qos_class) w.

Definition release_backpressure (fc : FlowController) (w : World) : FlowController * World :=
  let '(s, w) := deactivate (backpressure fc) w in (set_backpressure fc s, w).

Definition should_drop (fc : FlowController) (priority : MessagePriority) : bool :=
  match drop_policy fc with
  | DropLowPriority => match priority with Low | Normal => true | _ => false end
  | DropOldest => false
  | NeverDrop => false
  end.

Definition should_drop_qos (fc : FlowController) (qos_class : QoSClass) : bool :=
  should_drop fc (MessagePriority_from_qos qos_class).

Definition record_drop (fc : FlowController) : FlowController :=
  let m := metrics fc in
  set_metrics fc (mkFlowMetrics (cell_messages_sent m) (cell_bytes_sent m) (zone_messages_sent m)
    (zone_bytes_sent m) (fetch_add (messages_dropped m) 1) (backpressure_events m)).

Definition get_metrics (fc : FlowController) : FlowMetrics := metrics fc.

Definition available_capacity (fc : FlowController) (level : RoutingLevel) (w : World) :
    CapacityInfo * FlowController * World :=
  let '(m, b) := limiters fc level in
  let '(tm, m, w) := available_tokens m w in
  let '(tb, b, w) := available_tokens b w in
  (mkCapacityInfo (f64_as_usize tm) (f64_as_usize tb), set_limiters fc level m b, w).

End FlowControl.

(** ** Binary64 bounds *)

Local Abbreviation nonneg := (nonneg 53 1024).
Local Abbreviation value := (value 1024).
Local Abbreviation ulp := (ulp 1024).
Local Opaque Float.ulp.
Local Abbreviation rounds := (rounds 53 1024).

(** A finite number that is not negative *)
Definition amount_ok (x : spec_float) : Prop := nonneg x /\ finite x.

Lemma prec_ok : 1 < 53.
Proof. lia. Qed.

Lemma emax_ok : 53 < 1024.
Proof. lia. Qed.

Lemma ulp_gt0 e : -4096 <= e -> 0 < ulp e.
Proof. intros. apply ulp_pos; unfold scale; lia. Qed.

Lemma rounds64_exact k e z :
  0 <= k < 2 ^ 53 -> -1000 <= e <= 900 -> rounds (k * ulp e) z -> amount_ok z /\ value z = k * ulp e.
Proof.
  intros Hk He Hr. unfold amount_ok.
  destruct (rounds_representable 53 1024 prec_ok emax_ok k e z) as (? & ? & ?); [done| |done|done].
  rewrite emin_eq. lia.
Qed.

(** A result below a power of two is finite, and rounding does not lift it above. *)
Lemma rounds64_le v z e :
  rounds v z -> -1000 <= e <= 900 -> v <= ulp e -> amount_ok z /\ value z <= ulp e.
Proof.
  intros Hr He Hv.
  destruct (representable 53 1024 prec_ok emax_ok 1 e) as (x & Hx & Fx & Hvx);
    [lia|rewrite emin_eq; lia|].
  assert (v <= value x) as Hle by lia. split; [split|].
  - apply (rounds_nonneg _ _ _ _ Hr).
  - apply (rounds_finite _ _ prec_ok emax_ok _ _ x Hr Hx Fx Hle).
  - pose proof (rounds_upper _ _ _ _ Hr x Hx Hle). lia.
Qed.

Lemma f64_of_Z_rounds z : 0 <= z -> rounds (z * ulp 0) (f64_of_Z z).
Proof. intros. apply binary_normalize_rounds; [apply prec_ok|apply emax_ok|done|unfold scale; lia]. Qed.

Lemma f64_of_Z_exact z : 0 <= z < 2 ^ 53 -> amount_ok (f64_of_Z z) /\ value (f64_of_Z z) = z * ulp 0.
Proof. intros. apply rounds64_exact; [done|lia|]. apply f64_of_Z_rounds. lia. Qed.

Lemma ulp_pow e k : -4096 <= e -> 0 <= k -> ulp (e + k) = 2 ^ k * ulp e.
Proof.
  intros. rewrite (ulp_shift 1024 e (e + k)) by (unfold scale; lia). do 2 f_equal. lia.
Qed.

Lemma f64_of_Z_ok z : is_u64 z -> amount_ok (f64_of_Z z) /\ value (f64_of_Z z) <= ulp 64.
Proof.
  intros [H0 H1]. apply (rounds64_le (z * ulp 0)); [by apply f64_of_Z_rounds|lia|].
  change 64 with (0 + 64). rewrite (ulp_pow 0 64) by lia. pose proof (ulp_gt0 0 ltac:(lia)).
  apply Z.mul_le_mono_nonneg_r; [lia|]. unfold u64_modulus in H1. lia.
Qed.

(** The fraction of a second: below one, and at least 1/128 after ten milliseconds. *)
Lemma as_secs_fraction d :
  0 <= d < nanos_per_sec ->
  amount_ok (SFdiv 53 1024 (f64_of_Z d) (f64_of_Z nanos_per_sec)) /\
  value (SFdiv 53 1024 (f64_of_Z d) (f64_of_Z nanos_per_sec)) <= ulp 0 /\
  (retry_delay <= d ->
   ulp (-7) <= value (SFdiv 53 1024 (f64_of_Z d) (f64_of_Z nanos_per_sec))).
Proof.
  intros Hd. unfold nanos_per_sec, retry_delay in *.
  destruct (f64_of_Z_exact (10 ^ 9) ltac:(lia)) as [[Hn Fn] Vn].
  destruct (f64_of_Z_exact d ltac:(lia)) as [[Hx Fx] Vx].
  pose proof (ulp_gt0 0 ltac:(lia)) as Hu. pose proof (ulp_gt0 (-7) ltac:(lia)) as Hu7.
  pose proof (ulp_pow (-7) 7 ltac:(lia) ltac:(lia)) as Hu128. change (-7 + 7) with 0 in Hu128.
  destruct (representable 53 1024 prec_ok emax_ok 1 (-7)) as (w & Hw & Fw & Vw);
    [lia|rewrite emin_eq; lia|].
  destruct (representable 53 1024 prec_ok emax_ok 1 0) as (one & H1 & F1 & V1);
    [lia|rewrite emin_eq; lia|].
  destruct (decide (d = 0)) as [->|Hnz]; [split_and!; [by split|simpl Float.value; lia|intros Hlt; exfalso; lia]|].
  assert (0 < value (f64_of_Z d)) as Px by (rewrite Vx; nia).
  assert (0 < value (f64_of_Z (10 ^ 9))) as Pn by (rewrite Vn; nia).
  destruct (SFdiv_lower _ _ prec_ok emax_ok _ _ (S754_zero false) Hx Fx Hn Fn Px Pn eq_refl I) as [Hdiv _];
    [simpl Float.value; nia|].
  assert (value (SFdiv 53 1024 (f64_of_Z d) (f64_of_Z (10 ^ 9))) <= value one) as Hup.
  { apply (SFdiv_upper _ _ prec_ok emax_ok _ _ one Hx Fx Hn Fn Px Pn H1 F1). rewrite Vx, Vn, V1. nia. }
  split_and!; [split; [done|]|lia|].
  - destruct (nonneg_cases _ _ prec_ok emax_ok _ Hdiv) as [->|[E|(m & e & -> & _)]]; [exact I| |exact I].
    rewrite E, V1 in Hup. simpl Float.value in Hup. pose proof (ulp_pow 0 1024 ltac:(lia) ltac:(lia)) as Hbig.
    assert (2 <= 2 ^ 1024) as H2 by (apply Z.leb_le; vm_compute; reflexivity).
    change (0 + 1024) with 1024 in Hbig. set (P := 2 ^ 1024) in *. clearbody P. nia.
  - intros Hge. transitivity (value w); [lia|].
    apply (SFdiv_lower _ _ prec_ok emax_ok _ _ w Hx Fx Hn Fn Px Pn Hw Fw). rewrite Vx, Vn, Vw. nia.
Qed.

(** Seconds of a duration: finite, and at least 1/128 after ten milliseconds. *)
Lemma as_secs_f64_spec d :
  0 <= d <= duration_max ->
  amount_ok (as_secs_f64 d) /\ value (as_secs_f64 d) <= ulp 65 /\
  (retry_delay <= d -> ulp (-7) <= value (as_secs_f64 d)).
Proof.
  intros Hd. unfold as_secs_f64, duration_max in *.
  pose proof (Z.mod_pos_bound d nanos_per_sec ltac:(done)) as Hm.
  destruct (as_secs_fraction _ Hm) as ([Hf Ff] & Hf1 & Hf2).
  assert (is_u64 (d / nanos_per_sec)) as Hq.
  { split; [apply Z.div_pos; [lia|done]|]. apply Z.div_lt_upper_bound; [done|]. lia. }
  destruct (f64_of_Z_ok _ Hq) as [[Hs Fs] Hs1].
  pose proof (SFadd_rounds _ _ prec_ok emax_ok _ _ Hs Hf) as Hr.
  pose proof (ulp_pow 64 1 ltac:(lia) ltac:(lia)) as U65. pose proof (ulp_pow 0 64 ltac:(lia) ltac:(lia)) as U64.
  pose proof (ulp_pow (-7) 7 ltac:(lia) ltac:(lia)) as U0. pose proof (ulp_gt0 (-7) ltac:(lia)).
  change (64 + 1) with 65 in U65. change (0 + 64) with 64 in U64. change (-7 + 7) with 0 in U0.
  destruct (rounds64_le _ _ 65 Hr) as [Hok Hle]; [lia|lia|].
  split_and!; [done|done|]. intros Hge.
  destruct (representable 53 1024 prec_ok emax_ok 1 (-7)) as (w & Hw & Fw & Vw);
    [lia|rewrite emin_eq; lia|].
  transitivity (value w); [lia|]. apply (rounds_lower _ _ _ _ Hr w Hw Fw).
  pose proof (value_nonneg _ _ prec_ok emax_ok _ Hf).
  pose proof (value_nonneg _ _ prec_ok emax_ok _ Hs).
  destruct (decide (d < nanos_per_sec)) as [Hlt|Hgt].
  - rewrite Z.mod_small in * by lia. specialize (Hf2 Hge). lia.
  - destruct Hq as [Hq0 _]. assert (1 <= d / nanos_per_sec) as Hq1 by (apply Z.div_le_lower_bound; [done|lia]).
    destruct (representable 53 1024 prec_ok emax_ok 1 0) as (one & Ho & Fo & Vo);
      [lia|rewrite emin_eq; lia|].
    pose proof (rounds_lower _ _ _ _ (f64_of_Z_rounds _ Hq0) one Ho Fo ltac:(nia)). lia.
Qed.

(** ** Buckets *)

Section Buckets.
Context (jitter : nat -> Z) (Hjitter : forall n, 0 <= jitter n).

(** The bucket of a limit of [n] per second: the tokens are between zero and the
    capacity, and the last refill is not in the future. *)
Record bucket_ok (n : Z) (b : TokenBucket) (w : World) : Prop := {
  ok_limit : is_u64 n;
  ok_cap : capacity b = f64_of_Z n;
  ok_rate : refill_rate b = f64_of_Z n;
  ok_tokens : amount_ok (tokens b);
  ok_full : value (tokens b) <= value (capacity b);
  ok_time : last_refill b <= time w
}.

Lemma instant_now_le w : time w <= fst (instant_now jitter w) /\
  time (snd (instant_now jitter w)) = fst (instant_now jitter w).
Proof. unfold instant_now. simpl. specialize (Hjitter (readings w)). lia. Qed.

Lemma bucket_ok_later n b w w' : bucket_ok n b w -> time w <= time w' -> bucket_ok n b w'.
Proof. intros [] ?. split; [done..|lia]. Qed.

Lemma bucket_new_ok n w :
  is_u64 n ->
  bucket_ok n (fst (bucket_new jitter (f64_of_Z n) (f64_of_Z n) w))
    (snd (bucket_new jitter (f64_of_Z n) (f64_of_Z n) w)) /\
  time w <= time (snd (bucket_new jitter (f64_of_Z n) (f64_of_Z n) w)).
Proof.
  intros Hn. pose proof (instant_now_le w) as [Hle Heq]. unfold bucket_new.
  destruct (instant_now jitter w) as [now w']. simpl in *. split; [|lia].
  split; simpl; [done..| |lia|lia]. by apply f64_of_Z_ok.
Qed.

Lemma since_range a b : 0 <= since a b <= duration_max.
Proof. unfold since, saturating_sub, duration_max, u64_modulus, nanos_per_sec. lia. Qed.

(** The tokens that the elapsed time adds *)
Lemma new_tokens_spec d n :
  0 <= d <= duration_max -> is_u64 n ->
  let z := SFmul 53 1024 (as_secs_f64 d) (f64_of_Z n) in
  nonneg z /\ (n < 2 ^ 46 -> retry_delay <= d -> n * ulp (-7) <= value z).
Proof.
  intros Hd Hn. destruct (as_secs_f64_spec d Hd) as ([Hs Fs] & _ & Hlow).
  destruct (f64_of_Z_ok n Hn) as [[Hc Fc] _].
  destruct (SFmul_rounds _ _ prec_ok emax_ok _ _ Hs Fs Hc Fc) as (v & Hv & Hr).
  split; [apply (rounds_nonneg _ _ _ _ Hr)|]. intros Hsmall Hge. destruct Hn as [Hn0 _].
  destruct (f64_of_Z_exact n ltac:(lia)) as [_ Vn].
  destruct (representable 53 1024 prec_ok emax_ok n (-7)) as (x & Hx & Fx & Vx);
    [lia|rewrite emin_eq; lia|].
  rewrite <- Vx. apply (rounds_lower _ _ _ _ Hr x Hx Fx). rewrite Vx. specialize (Hlow Hge).
  pose proof (ulp_gt0 0 ltac:(lia)). rewrite Vn in Hv.
  apply (Z.mul_le_mono_pos_r _ _ (ulp 0)); [done|]. rewrite Hv.
  assert (0 <= n * ulp 0) as Hn1 by nia. set (g := n * ulp 0) in *.
  replace (n * ulp (-7) * ulp 0) with (ulp (-7) * g) by (unfold g; lia).
  by apply Z.mul_le_mono_nonneg_r.
Qed.

(** The tokens after a refill over the duration [d] *)
Definition refilled (n d : Z) (t : spec_float) : spec_float :=
  float_min (SFadd 53 1024 t (SFmul 53 1024 (as_secs_f64 d) (f64_of_Z n))) (f64_of_Z n).

Lemma refilled_spec n d t :
  is_u64 n -> 0 <= d <= duration_max -> amount_ok t -> value t <= value (f64_of_Z n) ->
  amount_ok (refilled n d t) /\ value (refilled n d t) <= value (f64_of_Z n) /\ value t <= value (refilled n d t) /\
  (n < 2 ^ 46 -> retry_delay <= d -> forall k, 0 <= k < 128 -> k * n * ulp (-7) <= value t ->
   (k + 1) * n * ulp (-7) <= value (refilled n d t)).
Proof.
  intros Hn Hd [Ht Ft] Hf. destruct (new_tokens_spec d n Hd Hn) as [Hnew Hnl].
  destruct (f64_of_Z_ok n Hn) as [[Hcap Fcap] _]. unfold refilled.
  set (z := SFmul 53 1024 (as_secs_f64 d) (f64_of_Z n)) in *.
  pose proof (SFadd_rounds _ _ prec_ok emax_ok _ _ Ht Hnew) as Hsum.
  pose proof (rounds_nonneg _ _ _ _ Hsum) as Hsn. pose proof (value_nonneg _ _ prec_ok emax_ok _ Hnew).
  pose proof (rounds_lower _ _ _ _ Hsum _ Ht Ft ltac:(lia)) as Hge.
  rewrite (float_min_value 53 1024) by done. set (s := SFadd 53 1024 t z) in *.
  destruct (Z.ltb_spec (value (f64_of_Z n)) (value s)) as [Hlt|Hle]; (split_and!; [split; [done|]|lia|lia|]).
  - done.
  - intros Hsmall _ k Hk _. destruct Hn as [Hn0 _]. destruct (f64_of_Z_exact n ltac:(lia)) as [_ Vn].
    rewrite Vn. pose proof (ulp_pow (-7) 7 ltac:(lia) ltac:(lia)) as U0.
    change (-7 + 7) with 0 in U0. rewrite U0. pose proof (ulp_gt0 (-7) ltac:(lia)). nia.
  - pose proof (finite_value_lt _ _ prec_ok emax_ok _ Hcap Fcap).
    destruct (nonneg_cases _ _ prec_ok emax_ok s Hsn) as [->|[E|(m & e & -> & _)]]; [done| |done].
    rewrite E in *. simpl Float.value in *. lia.
  - intros Hsmall Hdge k Hk Hgrid. specialize (Hnl Hsmall Hdge). destruct Hn as [Hn0 _].
    destruct (representable 53 1024 prec_ok emax_ok ((k + 1) * n) (-7)) as (x & Hx & Fx & Vx);
      [nia|rewrite emin_eq; lia|].
    rewrite <- Vx. apply (rounds_lower _ _ _ _ Hsum x Hx Fx). lia.
Qed.

Lemma refill_spec n b w :
  bucket_ok n b w ->
  let b' := fst (refill jitter b w) in let w' := snd (refill jitter b w) in
  bucket_ok n b' w' /\ time w <= time w' /\ value (tokens b) <= value (tokens b') /\
  (n < 2 ^ 46 -> last_refill b + retry_delay <= time w ->
   forall k, 0 <= k < 128 -> k * n * ulp (-7) <= value (tokens b) ->
   (k + 1) * n * ulp (-7) <= value (tokens b')).
Proof.
  intros [Hn Hc Hr Ht Hf Htime]. cbv zeta. unfold refill. rewrite Hr, Hc in *.
  pose proof (instant_now_le w) as [Hle1 Heq1].
  destruct (instant_now jitter w) as [now w1]. simpl in Hle1, Heq1.
  pose proof (since_range now (last_refill b)) as Hd.
  assert (last_refill b + retry_delay <= time w -> retry_delay <= since now (last_refill b)) as Hlater.
  { assert (retry_delay <= duration_max) by (vm_compute; done). unfold since, saturating_sub. lia. }
  set (d := since now (last_refill b)) in *.
  destruct (as_secs_f64_spec d Hd) as ([Hs Fs] & _ & Hlow).
  destruct (refilled_spec n d (tokens b) Hn Hd Ht Hf) as (Hok & Hle & Hge & Hgrid).
  rewrite (SFltb_value 53 1024) by done. change (value f64_zero) with 0.
  destruct (Z.ltb_spec 0 (value (as_secs_f64 d))) as [Hpos|Hzero].
  2: { split_and!; [split; simpl; rewrite ?Hc; try done; lia|simpl; lia|simpl; lia|].
       intros _ Hl. exfalso. pose proof (ulp_gt0 (-7) ltac:(lia)). specialize (Hlow (Hlater Hl)). lia. }
  pose proof (instant_now_le w1) as [Hle2 Heq2].
  destruct (instant_now jitter w1) as [now2 w2]. simpl in Hle2, Heq2. simpl fst. simpl snd. simpl tokens.
  fold (refilled n d (tokens b)). split_and!; [split; simpl; [done..|lia]|lia|done|auto].
Qed.

(** A try charges the refilled bucket exactly when it holds the amount. *)
Lemma try_consume_spec n a b w :
  bucket_ok n b w -> amount_ok a ->
  let b1 := fst (refill jitter b w) in
  exists b', try_consume jitter a b w = (value a <=? value (tokens b1), b', snd (refill jitter b w)) /\
    bucket_ok n b' (snd (refill jitter b w)) /\
    (value (tokens b1) < value a -> b' = b1).
Proof.
  intros Hb [Ha Fa]. cbv zeta. pose proof (refill_spec n b w Hb) as (Hb1 & Hle & _ & _).
  unfold try_consume. destruct (refill jitter b w) as [b1 w1]. simpl in *.
  destruct Hb1 as [Hn Hc Hr [Ht Ft] Hf Htime]. rewrite (SFleb_value 53 1024) by done.
  destruct (Z.leb_spec (value a) (value (tokens b1))) as [Hok|Hno].
  - eexists; split; [done|]. split; [|lia]. rewrite Hc in *.
    pose proof (SFsub_rounds _ _ prec_ok emax_ok _ _ Ht Ft Ha Fa Hok) as Hsub.
    pose proof (value_nonneg _ _ prec_ok emax_ok _ Ha).
    pose proof (rounds_upper _ _ _ _ Hsub _ Ht ltac:(lia)).
    split; simpl; [done..| |lia|done].
    split; [apply (rounds_nonneg _ _ _ _ Hsub)|].
    apply (rounds_finite _ _ prec_ok emax_ok _ _ _ Hsub Ht Ft). lia.
  - eexists; split; [done|]. by split; [split|].
Qed.

Lemma consume_ok fuel n a b w b' w' :
  bucket_ok n b w -> amount_ok a -> consume jitter fuel a b w = Some (b', w') ->
  bucket_ok n b' w' /\ time w <= time w'.
Proof.
  revert b w; induction fuel as [|fuel IH]; intros b w Hb Ha; [done|]. simpl.
  destruct (try_consume_spec n a b w Hb Ha) as (b1 & -> & Hb1 & _).
  pose proof (refill_spec n b w Hb) as (_ & Hle & _).
  destruct (_ <=? _); [intros; by simplify_eq|]. intros Hc.
  assert (time (snd (refill jitter b w)) <= time (sleep retry_delay (snd (refill jitter b w))))
    by (unfold retry_delay; simpl; lia).
  apply IH in Hc as [? ?]; [|by eapply bucket_ok_later|done]. split; [done|lia].
Qed.

(** After [k] waits the bucket holds [k] parts of 128 of its capacity. *)
Lemma consume_grid fuel n a b w k :
  bucket_ok n b w -> amount_ok a -> n < 2 ^ 46 -> value a <= value (f64_of_Z n) ->
  last_refill b + retry_delay <= time w ->
  0 <= k < 128 -> k * n * ulp (-7) <= value (tokens b) -> 128 - k <= Z.of_nat fuel ->
  is_Some (consume jitter fuel a b w).
Proof.
  revert b w k; induction fuel as [|fuel IH]; intros b w k Hb Ha Hn Hle Hlater Hk Hgrid Hfuel; [lia|].
  simpl. destruct (try_consume_spec n a b w Hb Ha) as (b1 & -> & Hb1 & Hfail).
  pose proof (refill_spec n b w Hb) as (Hb2 & Htime & _ & Hnext).
  specialize (Hnext Hn Hlater k Hk Hgrid).
  destruct (Z.leb_spec (value a) (value (tokens (fst (refill jitter b w))))) as [|Hno]; [done|].
  specialize (Hfail Hno). subst b1. destruct (decide (k = 127)) as [->|Hk'].
  - exfalso. destruct (ok_limit _ _ _ Hb) as [Hn0 _].
    destruct (f64_of_Z_exact n ltac:(lia)) as [_ Vn].
    pose proof (ulp_pow (-7) 7 ltac:(lia) ltac:(lia)) as U0. change (-7 + 7) with 0 in U0.
    rewrite Vn, U0 in Hle. pose proof (ulp_gt0 (-7) ltac:(lia)). nia.
  - apply (IH _ _ (k + 1)); [|done|done|done| |lia|done|lia].
    + eapply bucket_ok_later; [done|]. unfold retry_delay. simpl. lia.
    + pose proof (ok_time _ _ _ Hb2). simpl. lia.
Qed.

Lemma consume_live fuel n a b w :
  bucket_ok n b w -> amount_ok a -> n < 2 ^ 46 -> value a <= value (f64_of_Z n) ->
  (129 <= fuel)%nat -> is_Some (consume jitter fuel a b w).
Proof.
  intros Hb Ha Hn Hle Hfuel. destruct fuel as [|fuel]; [lia|]. simpl.
  destruct (try_consume_spec n a b w Hb Ha) as (b1 & -> & Hb1 & Hfail).
  destruct (Z.leb_spec (value a) (value (tokens (fst (refill jitter b w))))) as [|Hno]; [done|].
  specialize (Hfail Hno). subst b1. apply (consume_grid _ n a _ _ 0); try done; [| | |lia].
  - eapply bucket_ok_later; [done|]. unfold retry_delay. simpl. lia.
  - pose proof (ok_time _ _ _ Hb1). simpl. lia.
  - pose proof (ok_tokens _ _ _ Hb1) as [Ht _]. pose proof (value_nonneg _ _ prec_ok emax_ok _ Ht). lia.
Qed.

(** More than the capacity never accumulates. *)
Lemma consume_never fuel n a b w :
  bucket_ok n b w -> amount_ok a -> value (f64_of_Z n) < value a ->
  consume jitter fuel a b w = None.
Proof.
  revert b w; induction fuel as [|fuel IH]; intros b w Hb Ha Hlt; [done|]. simpl.
  destruct (try_consume_spec n a b w Hb Ha) as (b1 & -> & Hb1 & Hfail).
  pose proof (refill_spec n b w Hb) as (Hb2 & _).
  pose proof (ok_full _ _ _ Hb2) as Hf. rewrite (ok_cap _ _ _ Hb2) in Hf.
  destruct (Z.leb_spec (value a) (value (tokens (fst (refill jitter b w))))) as [|Hno]; [lia|].
  apply IH; [|done|done]. eapply bucket_ok_later; [done|]. unfold retry_delay. simpl. lia.
Qed.

End Buckets.

(** ** Costs *)

(** Four times the multiplier of a priority *)
Definition quarters (p : MessagePriority) : Z :=
  match p with Critical => 2 | High => 3 | Normal => 4 | Low => 6 end.

Lemma priority_multiplier_spec p :
  amount_ok (priority_multiplier p) /\ value (priority_multiplier p) = quarters p * ulp (-2).
Proof. destruct p; (split; [split; vm_compute; auto|]); apply Z.eqb_eq; vm_compute; reflexivity. Qed.

Lemma byte_tokens_spec size p :
  0 <= size < 2 ^ 50 ->
  amount_ok (byte_tokens size p) /\ value (byte_tokens size p) = quarters p * size * ulp (-2).
Proof.
  intros Hs. destruct (f64_of_Z_exact size ltac:(lia)) as [[Hx Fx] Vx].
  destruct (priority_multiplier_spec p) as [[Hy Fy] Vy].
  destruct (SFmul_rounds _ _ prec_ok emax_ok _ _ Hx Fx Hy Fy) as (v & Hv & Hr).
  pose proof (ulp_gt0 0 ltac:(lia)).
  assert (v = quarters p * size * ulp (-2)) as ->.
  { apply (Z.mul_reg_r _ _ (ulp 0)); [lia|]. rewrite Hv, Vx, Vy. lia. }
  apply rounds64_exact; [|lia|done]. destruct p; simpl; lia.
Qed.

Lemma message_tokens_spec p :
  amount_ok (message_tokens p) /\ value (message_tokens p) = quarters p * ulp (-2).
Proof. pose proof (byte_tokens_spec 1 p ltac:(lia)) as H. by rewrite Z.mul_1_r in H. Qed.

(** Whether a cost fits a limit, in quarters of a token *)
Lemma cost_fits q n : 0 <= n < 2 ^ 53 -> q * ulp (-2) <= value (f64_of_Z n) <-> q <= 4 * n.
Proof.
  intros Hn. destruct (f64_of_Z_exact n Hn) as [_ ->].
  pose proof (ulp_pow (-2) 2 ltac:(lia) ltac:(lia)) as U0. change (-2 + 2) with 0 in U0.
  rewrite U0. pose proof (ulp_gt0 (-2) ltac:(lia)). nia.
Qed.

(** ** The controller *)

Section Controller.
Context (jitter : nat -> Z) (Hjitter : forall n, 0 <= jitter n).

Definition limit_of (cl zl : BandwidthLimit) (level : RoutingLevel) : BandwidthLimit :=
  match level with LevelCell => cl | LevelZone => zl end.

Definition limits_ok (cl zl : BandwidthLimit) (fc : FlowController) (w : World) : Prop :=
  forall level, let l := limit_of cl zl level in
    bucket_ok (messages_per_sec l) (fst (limiters fc level)) w /\
    bucket_ok (bytes_per_sec l) (snd (limiters fc level)) w.

Lemma limiters_set fc level level' m b :
  limiters (set_limiters fc level m b) level' =
  if decide (level = level') then (m, b) else limiters fc level'.
Proof. by destruct level, level'. Qed.

Lemma limits_ok_set cl zl fc level m b w w' :
  limits_ok cl zl fc w -> time w <= time w' ->
  bucket_ok (messages_per_sec (limit_of cl zl level)) m w' ->
  bucket_ok (bytes_per_sec (limit_of cl zl level)) b w' ->
  limits_ok cl zl (set_limiters fc level m b) w'.
Proof.
  intros Hok Hle Hm Hb level'. cbv zeta. rewrite limiters_set. case_decide; [by subst|].
  destruct (Hok level') as [? ?]. split; by eapply bucket_ok_later.
Qed.

Lemma limits_ok_later cl zl fc fc' w w' :
  limits_ok cl zl fc w -> time w <= time w' ->
  (forall level, limiters fc' level = limiters fc level) -> limits_ok cl zl fc' w'.
Proof.
  intros Hok Hle Heq level. cbv zeta. rewrite Heq. destruct (Hok level) as [? ?].
  split; by eapply bucket_ok_later.
Qed.

Lemma set_metrics_limiters fc m level : limiters (set_metrics fc m) level = limiters fc level.
Proof. by destruct level. Qed.

Lemma apply_backpressure_spec fc w :
  let fc' := fst (apply_backpressure_internal jitter fc w) in
  let w' := snd (apply_backpressure_internal jitter fc w) in
  time w <= time w' /\ (forall level, limiters fc' level = limiters fc level) /\
  active (backpressure fc') = true /\ drop_policy fc' = drop_policy fc /\
  metrics fc' = count_event (metrics fc).
Proof.
  pose proof (instant_now_le jitter Hjitter w) as [Hle Heq].
  cbv zeta. unfold apply_backpressure_internal, activate.
  destruct (active (backpressure fc)) eqn:E; simpl.
  - split_and!; [lia|by intros []|done..].
  - specialize (Hjitter (readings w)). split_and!; [lia|by intros []|done..].
Qed.

(** The first attempt of a permit on well-formed limiters *)
Lemma try_both_spec nm nb mt bt m b w :
  bucket_ok nm m w -> bucket_ok nb b w -> amount_ok mt -> amount_ok bt ->
  exists ok m' b' w', try_both jitter mt bt m b w = (ok, m', b', w') /\
    bucket_ok nm m' w' /\ bucket_ok nb b' w' /\ time w <= time w' /\
    (ok = true -> value mt <= value (f64_of_Z nm) /\ value bt <= value (f64_of_Z nb)).
Proof.
  intros Hm Hb Hmt Hbt. unfold try_both.
  destruct (try_consume_spec jitter Hjitter nm mt m w Hm Hmt) as (m1 & -> & Hm1 & _).
  pose proof (refill_spec jitter Hjitter nm m w Hm) as (Hm2 & Hle1 & _).
  pose proof (ok_full _ _ _ Hm2) as Hfm. rewrite (ok_cap _ _ _ Hm2) in Hfm.
  set (w1 := snd (refill jitter m w)) in *.
  destruct (Z.leb_spec (value mt) (value (tokens (fst (refill jitter m w))))) as [Hok1|Hno1].
  2: { do 4 eexists. split; [done|]. split_and!; [done|by eapply bucket_ok_later|done|done]. }
  assert (bucket_ok nb b w1) as Hb1 by by eapply bucket_ok_later.
  destruct (try_consume_spec jitter Hjitter nb bt b w1 Hb1 Hbt) as (b1 & -> & Hb1' & _).
  pose proof (refill_spec jitter Hjitter nb b w1 Hb1) as (Hb2 & Hle2 & _).
  pose proof (ok_full _ _ _ Hb2) as Hfb. rewrite (ok_cap _ _ _ Hb2) in Hfb.
  do 4 eexists. split; [done|]. split_and!; [by eapply bucket_ok_later|done|lia|].
  intros Hok%Z.leb_le. lia.
Qed.

Lemma cost_ok size p : is_u64 size -> amount_ok (message_tokens p) /\ amount_ok (byte_tokens size p).
Proof.
  intros Hs. split; [apply message_tokens_spec|].
  destruct (f64_of_Z_ok size Hs) as [[Hx Fx] Vx].
  destruct (priority_multiplier_spec p) as [[Hy Fy] Vy].
  destruct (SFmul_rounds _ _ prec_ok emax_ok _ _ Hx Fx Hy Fy) as (v & Hv & Hr).
  destruct (rounds64_le _ _ 66 Hr) as [Hok _]; [lia| |done].
  pose proof (ulp_gt0 0 ltac:(lia)) as U. apply (Z.mul_le_mono_pos_r _ _ (ulp 0)); [done|].
  pose proof (value_nonneg _ _ prec_ok emax_ok _ Hx). pose proof (ulp_gt0 64 ltac:(lia)).
  pose proof (ulp_pow (-2) 2 ltac:(lia) ltac:(lia)) as U0. change (-2 + 2) with 0 in U0.
  pose proof (ulp_pow 64 2 ltac:(lia) ltac:(lia)) as U66. change (64 + 2) with 66 in U66.
  rewrite Hv, Vy, U0, U66. pose proof (ulp_gt0 (-2) ltac:(lia)).
  transitivity (ulp 64 * (6 * ulp (-2))); [|nia].
  apply Z.mul_le_mono_nonneg; [done|done|destruct p; simpl; lia|].
  destruct p; simpl; lia.
Qed.

(** The request is over the limits when it arrives. *)
Definition must_wait (fc : FlowController) (level : RoutingLevel) (size : Z) (p : MessagePriority) (w : World) : bool :=
  let '(m, b) := limiters fc level in
  let '(acquired, _, _, _) := try_both jitter (message_tokens p) (byte_tokens size p) m b w in negb acquired.

(** What a permit leaves behind: limiters within their bounds and the counters of
    the level advanced, with one more backpressure event if the request waited. *)
Lemma acquire_permit_ok fuel cl zl fc level size p w r fc' w' :
  limits_ok cl zl fc w -> is_u64 size ->
  fc_acquire_permit jitter fuel fc level size p w = Some (r, fc', w') ->
  r = Ok tt /\ limits_ok cl zl fc' w' /\ time w <= time w' /\ drop_policy fc' = drop_policy fc /\
  let waited := must_wait fc level size p w in
  active (backpressure fc') = waited || active (backpressure fc) /\
  metrics fc' = count_sent level size (if waited then count_event (metrics fc) else metrics fc).
Proof.
  intros Hok Hsize. cbv zeta. unfold fc_acquire_permit, must_wait. destruct (Hok level) as [Hm Hb].
  destruct (limiters fc level) as [m b]. simpl fst in *. simpl snd in *.
  destruct (cost_ok size p Hsize) as [Hmt Hbt].
  destruct (try_both_spec _ _ _ _ m b w Hm Hb Hmt Hbt) as (ok & m1 & b1 & w1 & -> & Hm1 & Hb1 & Hle1 & _).
  pose proof (limits_ok_set cl zl fc level m1 b1 w w1 Hok Hle1 Hm1 Hb1) as Hok1.
  destruct ok; simpl.
  - intros; simplify_eq. split_and!; [done| |done|by destruct level| |].
    + eapply limits_ok_later; [done|lia|]. intros. apply set_metrics_limiters.
    + by destruct level.
    + by destruct level.
  - pose proof (apply_backpressure_spec (set_limiters fc level m1 b1) w1) as (Hle2 & Hlim & Hact & Hpol & Hmet).
    destruct (apply_backpressure_internal jitter (set_limiters fc level m1 b1) w1) as [fc2 w2].
    simpl fst in *. simpl snd in *.
    destruct (consume jitter fuel _ m1 w2) as [[m3 w3]|] eqn:E3; [|done]. simpl.
    destruct (consume jitter fuel _ b1 w3) as [[b4 w4]|] eqn:E4; [|done]. simpl.
    apply (consume_ok jitter Hjitter _ (messages_per_sec (limit_of cl zl level))) in E3 as [Hm3 Hle3];
      [|by eapply bucket_ok_later|done].
    apply (consume_ok jitter Hjitter _ (bytes_per_sec (limit_of cl zl level))) in E4 as [Hb4 Hle4];
      [|eapply bucket_ok_later; [done|lia]|done].
    intros; simplify_eq. split_and!; [done| |lia|by destruct level, fc2| |].
    + eapply (limits_ok_later _ _ (set_limiters fc2 level m3 b4)); [|reflexivity|intros; apply set_metrics_limiters].
      eapply (limits_ok_set _ _ _ _ _ _ w2); [|lia|by eapply bucket_ok_later|done].
      eapply limits_ok_later; [done|done|]. intros level'. rewrite Hlim. by destruct level, level'.
    + by destruct level.
    + by destruct level; simpl; rewrite Hmet.
Qed.

(** A permit is granted after at most 129 tries at each limiter when its cost fits
    the limits. *)
Lemma acquire_permit_granted fuel cl zl fc level size p w :
  limits_ok cl zl fc w -> 0 <= size < 2 ^ 50 ->
  messages_per_sec (limit_of cl zl level) < 2 ^ 46 -> bytes_per_sec (limit_of cl zl level) < 2 ^ 46 ->
  quarters p <= 4 * messages_per_sec (limit_of cl zl level) ->
  quarters p * size <= 4 * bytes_per_sec (limit_of cl zl level) ->
  (129 <= fuel)%nat -> is_Some (fc_acquire_permit jitter fuel fc level size p w).
Proof.
  intros Hok Hsize Hnm Hnb Hm4 Hb4 Hfuel. unfold fc_acquire_permit.
  destruct (Hok level) as [Hm Hb]. destruct (limiters fc level) as [m b]. simpl fst in *. simpl snd in *.
  set (nm := messages_per_sec _) in *. set (nb := bytes_per_sec _) in *.
  pose proof (ok_limit _ _ _ Hm) as [Hnm0 _]. pose proof (ok_limit _ _ _ Hb) as [Hnb0 _].
  destruct (message_tokens_spec p) as [Hmt Vmt]. destruct (byte_tokens_spec size p Hsize) as [Hbt Vbt].
  assert (value (message_tokens p) <= value (f64_of_Z nm)) as Hfm by (rewrite Vmt; apply cost_fits; lia).
  assert (value (byte_tokens size p) <= value (f64_of_Z nb)) as Hfb by (rewrite Vbt; apply cost_fits; lia).
  destruct (try_both_spec nm nb _ _ m b w Hm Hb Hmt Hbt) as (ok & m1 & b1 & w1 & -> & Hm1 & Hb1 & Hle1 & _).
  destruct ok; simpl; [done|].
  pose proof (apply_backpressure_spec (set_limiters fc level m1 b1) w1) as (Hle2 & _).
  destruct (apply_backpressure_internal jitter (set_limiters fc level m1 b1) w1) as [fc2 w2]. simpl in Hle2.
  destruct (consume_live jitter Hjitter fuel nm (message_tokens p) m1 w2) as [[m3 w3] E3]; try done.
  { by eapply bucket_ok_later. }
  rewrite E3. simpl. apply (consume_ok jitter Hjitter _ nm) in E3 as [_ Hle3]; [|by eapply bucket_ok_later|done].
  destruct (consume_live jitter Hjitter fuel nb (byte_tokens size p) b1 w3) as [[b4 w4] E4]; try done.
  { eapply bucket_ok_later; [done|lia]. }
  by rewrite E4.
Qed.

(** A permit whose cost exceeds a limit is never granted. *)
Lemma acquire_permit_starved fuel cl zl fc level size p w :
  limits_ok cl zl fc w -> 0 <= size < 2 ^ 50 ->
  messages_per_sec (limit_of cl zl level) < 2 ^ 46 -> bytes_per_sec (limit_of cl zl level) < 2 ^ 46 ->
  4 * messages_per_sec (limit_of cl zl level) < quarters p \/
    4 * bytes_per_sec (limit_of cl zl level) < quarters p * size ->
  fc_acquire_permit jitter fuel fc level size p w = None.
Proof.
  intros Hok Hsize Hnm Hnb Hbig. unfold fc_acquire_permit.
  destruct (Hok level) as [Hm Hb]. destruct (limiters fc level) as [m b]. simpl fst in *. simpl snd in *.
  set (nm := messages_per_sec _) in *. set (nb := bytes_per_sec _) in *.
  pose proof (ok_limit _ _ _ Hm) as [Hnm0 _]. pose proof (ok_limit _ _ _ Hb) as [Hnb0 _].
  destruct (message_tokens_spec p) as [Hmt Vmt]. destruct (byte_tokens_spec size p Hsize) as [Hbt Vbt].
  pose proof (cost_fits (quarters p) nm ltac:(lia)) as Cm. rewrite <- Vmt in Cm.
  pose proof (cost_fits (quarters p * size) nb ltac:(lia)) as Cb. rewrite <- Vbt in Cb.
  destruct (try_both_spec nm nb _ _ m b w Hm Hb Hmt Hbt) as (ok & m1 & b1 & w1 & -> & Hm1 & Hb1 & Hle1 & Hfit).
  destruct ok; simpl; [destruct (Hfit eq_refl); lia|].
  pose proof (apply_backpressure_spec (set_limiters fc level m1 b1) w1) as (Hle2 & _).
  destruct (apply_backpressure_internal jitter (set_limiters fc level m1 b1) w1) as [fc2 w2]. simpl in Hle2.
  destruct (consume jitter fuel (message_tokens p) m1 w2) as [[m3 w3]|] eqn:E3; [|done]. simpl.
  assert (bucket_ok nm m1 w2) as Hm2 by by eapply bucket_ok_later.
  destruct Hbig as [Hbig|Hbig].
  - rewrite (consume_never jitter Hjitter fuel nm) in E3; [done|done|done|lia].
  - apply (consume_ok jitter Hjitter _ nm) in E3 as [_ Hle3]; [|done|done].
    rewrite (consume_never jitter Hjitter fuel nb); [done| |done|lia].
    eapply bucket_ok_later; [done|lia].
Qed.

(** ** Reachable controllers *)

(** A controller's life: its methods and the passage of time. *)
Inductive reachable (cl zl : BandwidthLimit) (policy : MessageDropPolicy) : FlowController -> World -> Prop :=
| reach_new w :
    reachable cl zl policy (fst (flow_controller_new jitter cl zl policy w))
      (snd (flow_controller_new jitter cl zl policy w))
| reach_time fc w d : reachable cl zl policy fc w -> 0 <= d -> reachable cl zl policy fc (sleep d w)
| reach_permit fc w fuel level size p r fc' w' :
    reachable cl zl policy fc w -> is_u64 size ->
    fc_acquire_permit jitter fuel fc level size p w = Some (r, fc', w') -> reachable cl zl policy fc' w'
| reach_capacity fc w level :
    reachable cl zl policy fc w ->
    reachable cl zl policy (snd (fst (available_capacity jitter fc level w)))
      (snd (available_capacity jitter fc level w))
| reach_release fc w :
    reachable cl zl policy fc w ->
    reachable cl zl policy (fst (release_backpressure jitter fc w)) (snd (release_backpressure jitter fc w))
| reach_drop fc w : reachable cl zl policy fc w -> reachable cl zl policy (record_drop fc) w.

Definition limit_ok (l : BandwidthLimit) : Prop := is_u64 (messages_per_sec l) /\ is_u64 (bytes_per_sec l).

Lemma flow_controller_new_ok cl zl policy w :
  limit_ok cl -> limit_ok zl ->
  limits_ok cl zl (fst (flow_controller_new jitter cl zl policy w))
    (snd (flow_controller_new jitter cl zl policy w)).
Proof.
  intros [Hcm Hcb] [Hzm Hzb]. unfold flow_controller_new.
  pose proof (bucket_new_ok jitter Hjitter _ w Hcm) as [H1 L1].
  destruct (bucket_new jitter (f64_of_Z (messages_per_sec cl)) _ w) as [cm w1]. simpl in H1, L1.
  pose proof (bucket_new_ok jitter Hjitter _ w1 Hcb) as [H2 L2].
  destruct (bucket_new jitter (f64_of_Z (bytes_per_sec cl)) _ w1) as [cb w2]. simpl in H2, L2.
  pose proof (bucket_new_ok jitter Hjitter _ w2 Hzm) as [H3 L3].
  destruct (bucket_new jitter (f64_of_Z (messages_per_sec zl)) _ w2) as [zm w3]. simpl in H3, L3.
  pose proof (bucket_new_ok jitter Hjitter _ w3 Hzb) as [H4 L4].
  destruct (bucket_new jitter (f64_of_Z (bytes_per_sec zl)) _ w3) as [zb w4]. simpl in H4, L4.
  intros []; simpl; split; (eapply bucket_ok_later; [done|lia]).
Qed.

Lemma available_capacity_ok cl zl fc level w :
  limits_ok cl zl fc w ->
  limits_ok cl zl (snd (fst (available_capacity jitter fc level w))) (snd (available_capacity jitter fc level w)).
Proof.
  intros Hok. unfold available_capacity, available_tokens. destruct (Hok level) as [Hm Hb].
  destruct (limiters fc level) as [m b]. simpl in Hm, Hb.
  pose proof (refill_spec jitter Hjitter _ m w Hm) as (Hm1 & L1 & _).
  destruct (refill jitter m w) as [m1 w1]. simpl in Hm1, L1.
  pose proof (refill_spec jitter Hjitter _ b w1 (bucket_ok_later _ _ _ _ Hb L1)) as (Hb2 & L2 & _).
  destruct (refill jitter b w1) as [b2 w2]. simpl in Hb2, L2. simpl.
  eapply (limits_ok_set _ _ _ _ _ _ w); [done|lia|by eapply bucket_ok_later|done].
Qed.

Lemma release_time fc w :
  time w <= time (snd (release_backpressure jitter fc w)) /\
  (forall level, limiters (fst (release_backpressure jitter fc w)) level = limiters fc level).
Proof.
  specialize (Hjitter (readings w)). unfold release_backpressure, deactivate.
  destruct (active (backpressure fc)), (started_at (backpressure fc)); simpl; (split; [lia|by intros []]).
Qed.

Lemma reachable_limits_ok cl zl policy fc w :
  limit_ok cl -> limit_ok zl -> reachable cl zl policy fc w -> limits_ok cl zl fc w.
Proof.
  intros Hcl Hzl. induction 1 as [w|fc w d Hr IH Hd|fc w fuel level size p r fc' w' Hr IH Hs Hp
    |fc w level Hr IH|fc w Hr IH|fc w Hr IH].
  - by apply flow_controller_new_ok.
  - eapply limits_ok_later; [done|simpl; lia|done].
  - by eapply acquire_permit_ok in Hp as (_ & ? & _).
  - by apply available_capacity_ok.
  - destruct (release_time fc w). by eapply limits_ok_later.
  - eapply limits_ok_later; [done|lia|by intros []].
Qed.

(** ** Properties *)

(** C8: in every reachable controller the tokens of each limiter are a number between
    zero and the limiter's capacity, which is the configured rate per second: neither
    the rounding of refills nor that of charges lets a bucket overflow or go negative. *)
Theorem reachable_tokens_bounded cl zl policy fc w level :
  limit_ok cl -> limit_ok zl -> reachable cl zl policy fc w ->
  let '(m, b) := limiters fc level in
  let l := limit_of cl zl level in
  SFleb f64_zero (tokens m) = true /\ SFleb (tokens m) (f64_of_Z (messages_per_sec l)) = true /\
  SFleb f64_zero (tokens b) = true /\ SFleb (tokens b) (f64_of_Z (bytes_per_sec l)) = true.
Proof.
  intros Hcl Hzl Hr. pose proof (reachable_limits_ok cl zl policy fc w Hcl Hzl Hr level) as [Hm Hb].
  destruct (limiters fc level) as [m b]. simpl fst in Hm. simpl snd in Hb. cbv zeta.
  destruct Hm as [Hn Hc _ [Ht _] Hf _], Hb as [Hn' Hc' _ [Ht' _] Hf' _]. rewrite Hc in Hf. rewrite Hc' in Hf'.
  destruct (f64_of_Z_ok _ Hn) as [[Hnn _] _], (f64_of_Z_ok _ Hn') as [[Hnn' _] _].
  pose proof (value_nonneg _ _ prec_ok emax_ok _ Ht). pose proof (value_nonneg _ _ prec_ok emax_ok _ Ht').
  rewrite !(SFleb_value 53 1024) by done. rewrite !Z.leb_le. by split_and!.
Qed.

(** C7: a permit is granted whenever its cost fits the limits of its level, however slow
    the machine is: 129 tries at each limiter, ten milliseconds apart, are enough,
    because each wait adds at least a 128th of the capacity in exact arithmetic and
    rounding does not fall below it. *)
Theorem acquire_permit_live fuel cl zl policy fc level size p w :
  limit_ok cl -> limit_ok zl -> reachable cl zl policy fc w -> 0 <= size < 2 ^ 50 ->
  let l := limit_of cl zl level in
  messages_per_sec l < 2 ^ 46 -> bytes_per_sec l < 2 ^ 46 ->
  quarters p <= 4 * messages_per_sec l -> quarters p * size <= 4 * bytes_per_sec l ->
  (129 <= fuel)%nat ->
  exists fc' w', fc_acquire_permit jitter fuel fc level size p w = Some (Ok tt, fc', w').
Proof.
  intros Hcl Hzl Hr Hs. cbv zeta. intros Hnm Hnb Hqm Hqb Hfuel.
  pose proof (reachable_limits_ok cl zl policy fc w Hcl Hzl Hr) as Hok.
  destruct (acquire_permit_granted fuel cl zl fc level size p w) as [[[r fc'] w'] E]; try done.
  pose proof E as (-> & _)%(acquire_permit_ok _ cl zl); [|done|unfold is_u64, u64_modulus; lia]. by eauto.
Qed.

(** A permit whose cost exceeds what a limiter can hold is never granted, after any
    number of tries: the request loops forever instead of failing. *)
Theorem acquire_permit_never_returns fuel cl zl policy fc level size p w :
  limit_ok cl -> limit_ok zl -> reachable cl zl policy fc w -> 0 <= size < 2 ^ 50 ->
  let l := limit_of cl zl level in
  messages_per_sec l < 2 ^ 46 -> bytes_per_sec l < 2 ^ 46 ->
  4 * messages_per_sec l < quarters p \/ 4 * bytes_per_sec l < quarters p * size ->
  fc_acquire_permit jitter fuel fc level size p w = None.
Proof.
  intros Hcl Hzl Hr Hs. cbv zeta. intros Hnm Hnb Hbig.
  eapply acquire_permit_starved; try done. by eapply reachable_limits_ok.
Qed.

(** A granted permit counts one message and its size at its level (modulo 2^64) and
    one backpressure event exactly when the request was over the limits on arrival, and touches no other counter; it never
    clears the backpressure flag, which only [release_backpressure] does. *)
Theorem acquire_permit_accounting fuel cl zl policy fc level size p w r fc' w' :
  limit_ok cl -> limit_ok zl -> reachable cl zl policy fc w -> is_u64 size ->
  fc_acquire_permit jitter fuel fc level size p w = Some (r, fc', w') ->
  let waited := must_wait fc level size p w in
  controller_has_backpressure fc' = waited || controller_has_backpressure fc /\
  get_metrics fc' =
    count_sent level size (if waited then count_event (get_metrics fc) else get_metrics fc).
Proof.
  intros Hcl Hzl Hr Hs Hp. pose proof (reachable_limits_ok cl zl policy fc w Hcl Hzl Hr) as Hok.
  by eapply acquire_permit_ok in Hp as (_ & _ & _ & _ & ?).
Qed.

End Controller.

(** ** Interface *)

(** The token buckets as the flow controller of the router: the state is the
    controller with its world, and [fuel] bounds the tries of a wait. *)
#[export] Instance token_buckets (jitter : nat -> Z) (fuel : nat) : FlowControl (FlowController * World) := {
  acquire_permit s level size p :=
    match fc_acquire_permit jitter fuel (fst s) level size p (snd s) with
    | Some (r, fc, w) => Some (r, (fc, w))
    | None => None
    end;
  fc_has_backpressure s := controller_has_backpressure (fst s)
}.

(** A router over the token buckets delivers: every valid message whose cost fits the
    limits of the level it is charged to gets its permit. *)
Theorem router_permit_granted jitter fuel cl zl policy fc w (table : RoutingTable.RoutingTable) r from to size p :
  (forall n, 0 <= jitter n) -> limit_ok cl -> limit_ok zl -> reachable jitter cl zl policy fc w ->
  flow_controller r = Some (fc, w) -> is_route_valid table from to = true -> 0 <= size < 2 ^ 50 ->
  let l := match RoutingTable.get_node_cell table to with Some _ => cl | None => zl end in
  messages_per_sec l < 2 ^ 46 -> bytes_per_sec l < 2 ^ 46 ->
  quarters p <= 4 * messages_per_sec l -> quarters p * size <= 4 * bytes_per_sec l ->
  (129 <= fuel)%nat ->
  exists fc' w', route_message (H := token_buckets jitter fuel) r table from to size p =
    Some (Ok (Some tt), mkHierarchicalRouter (node_id r) (Some (fc', w'))) /\
    reachable jitter cl zl policy fc' w'.
Proof.
  intros Hj Hcl Hzl Hr Hfc Hv Hs. cbv zeta. intros Hnm Hnb Hqm Hqb Hfuel.
  rewrite (route_message_level r table (fc, w) from to size p Hfc Hv). cbv zeta. simpl.
  set (level := match RoutingTable.get_node_cell table to with Some _ => LevelCell | None => LevelZone end).
  assert (limit_of cl zl level = match RoutingTable.get_node_cell table to with Some _ => cl | None => zl end) as Hl
    by (unfold level; by destruct (RoutingTable.get_node_cell table to)).
  rewrite <- Hl in *. pose proof (reachable_limits_ok jitter Hj cl zl policy fc w Hcl Hzl Hr) as Hok.
  destruct (acquire_permit_granted jitter Hj fuel cl zl fc level size p w) as [[[x fc'] w'] E]; try done.
  assert (is_u64 size) as Hsz by (unfold is_u64, u64_modulus; lia).
  pose proof E as (-> & _)%(acquire_permit_ok jitter Hj _ cl zl); [|done|done].
  rewrite E. exists fc', w'. split; [done|]. by eapply reach_permit.
Qed.

(** ** Concrete runs *)

Definition calm : nat -> Z := fun _ => 0.

Lemma calm_ok n : 0 <= calm n.
Proof. done. Qed.

Definition boot : World := mkWorld 0 0.

Definition small_cell : BandwidthLimit := mkBandwidthLimit 10 1000.

Definition small_controller : FlowController :=
  fst (flow_controller_new calm small_cell zone_default DropLowPriority boot).

Definition start : World :=
  snd (flow_controller_new calm small_cell zone_default DropLowPriority boot).

(** Two messages of 900 bytes, the second one waiting for bytes *)
Definition two_messages : option (FlowController * World) :=
  '(_, fc, w) ← fc_acquire_permit calm 129 small_controller LevelCell 900 Normal start;
  '(_, fc, w) ← fc_acquire_permit calm 129 fc LevelCell 900 Normal w;
  Some (fc, w).

(** A message that waits for bytes is charged twice at the message limiter: after two
    messages of one token each, the counters show two messages and three of the ten
    message tokens are gone, although no time passed at that limiter. *)
Theorem waiting_permit_charged_twice :
  match two_messages with
  | Some (fc, _) =>
      cell_messages_sent (get_metrics fc) = 2 /\
      tokens (cell_message_limiter fc) = f64_of_Z 7 /\
      last_refill (cell_message_limiter fc) = last_refill (cell_message_limiter small_controller)
  | None => False
  end.
Proof. vm_compute. auto. Qed.

(** The drop decision does not look at the backpressure state: under
    [DropLowPriority] an idle controller already drops normal and low messages, and
    activating or releasing backpressure changes no decision. *)
Theorem should_drop_ignores_backpressure jitter cl zl w fc w' p :
  let fresh := fst (flow_controller_new jitter cl zl DropLowPriority w) in
  controller_has_backpressure fresh = false /\
  should_drop fresh Normal = true /\ should_drop fresh Low = true /\
  should_drop (fst (apply_backpressure_internal jitter fc w')) p = should_drop fc p /\
  should_drop (fst (release_backpressure jitter fc w')) p = should_drop fc p.
Proof.
  unfold apply_backpressure_internal, release_backpressure, activate, deactivate.
  cbv zeta. split_and!; try done; by destruct (active (backpressure fc)).
Qed.

(** ** Witnesses *)

Lemma limit_ok_small : limit_ok small_cell.
Proof. split; vm_compute; split; congruence. Qed.

Lemma limit_ok_zone : limit_ok zone_default.
Proof. split; vm_compute; split; congruence. Qed.

Lemma small_reachable : reachable calm small_cell zone_default DropLowPriority small_controller start.
Proof. apply (reach_new calm small_cell zone_default DropLowPriority boot). Qed.

Lemma reachable_tokens_bounded_witness :
  SFleb (tokens (cell_byte_limiter small_controller)) (f64_of_Z 1000) = true.
Proof.
  pose proof (reachable_tokens_bounded calm calm_ok small_cell zone_default DropLowPriority small_controller
    start LevelCell limit_ok_small limit_ok_zone small_reachable) as (_ & _ & _ & H). exact H.
Defined.

Lemma acquire_permit_live_witness :
  exists fc' w', fc_acquire_permit calm 129 small_controller LevelCell 600 Low start = Some (Ok tt, fc', w').
Proof.
  apply (acquire_permit_live calm calm_ok 129 small_cell zone_default DropLowPriority small_controller
    LevelCell 600 Low start limit_ok_small limit_ok_zone small_reachable); simpl; lia.
Defined.

Lemma acquire_permit_never_returns_witness :
  fc_acquire_permit calm 1000 small_controller LevelCell 667 Low start = None.
Proof.
  apply (acquire_permit_never_returns calm calm_ok 1000 small_cell zone_default DropLowPriority
    small_controller LevelCell 667 Low start limit_ok_small limit_ok_zone small_reachable);
    [lia|simpl; lia|simpl; lia|right; reflexivity].
Defined.

Lemma acquire_permit_accounting_witness :
  exists fc' w',
    fc_acquire_permit calm 1 small_controller LevelCell 600 Low start = Some (Ok tt, fc', w') /\
    controller_has_backpressure fc' = must_wait calm small_controller LevelCell 600 Low start || false /\
    get_metrics fc' = count_sent LevelCell 600
      (if must_wait calm small_controller LevelCell 600 Low start
       then count_event (get_metrics small_controller) else get_metrics small_controller).
Proof.
  destruct (fc_acquire_permit calm 1 small_controller LevelCell 600 Low start) as [[[r fc'] w']|] eqn:E;
    [|vm_compute in E; congruence].
  assert (is_u64 600) as Hs by (vm_compute; split; congruence).
  pose proof (acquire_permit_accounting calm calm_ok 1 small_cell zone_default DropLowPriority small_controller
    LevelCell 600 Low start r fc' w' limit_ok_small limit_ok_zone small_reachable Hs E) as H.
  exists fc', w'. split; [|exact H].
  assert (r = Ok tt) as ->; [|reflexivity]. vm_compute in E. congruence.
Defined.

Lemma router_permit_granted_witness :
  let table := snd (RoutingTable.assign_node (snd (RoutingTable.assign_node RoutingTable.new "n1" "c1" 1)) "n2" "c1" 2) in
  exists fc' w',
    route_message (H := token_buckets calm 129) (with_flow_control "n1" (small_controller, start)) table
      "n1" "n2" 600 Low = Some (Ok (Some tt), mkHierarchicalRouter "n1" (Some (fc', w'))).
Proof.
  cbv zeta.
  destruct (router_permit_granted calm 129 small_cell zone_default DropLowPriority small_controller start
    (snd (RoutingTable.assign_node (snd (RoutingTable.assign_node RoutingTable.new "n1" "c1" 1)) "n2" "c1" 2))
    (with_flow_control "n1" (small_controller, start)) "n1" "n2" 600 Low calm_ok limit_ok_small limit_ok_zone
    small_reachable eq_refl) as (fc' & w' & E & _);
    [reflexivity|lia|vm_compute; congruence..|lia|].
  exists fc', w'. exact E.
Defined.
