(* ===== verification/Operator.v ===== *)
(** * Operators, ranks and the election policy

    Models peat-protocol/src/models/operator.rs (ranks, authority, operators and
    human-machine pairs, with the messages of peat-schema/proto/node.proto) and
    cell/election_policy.rs. An operator keeps its cognitive load and fatigue in a
    JSON text; the serde_json crate is behind the class [JsonMetadata]. Loading a
    policy from environment variables is not modelled. *)

From Stdlib Require Import SpecFloat.
From S2P Require Import Prelude Float Capability.

Open Scope Z_scope.

(** ** Ranks *)

Inductive OperatorRank :=
| RankUnspecified
| E1 | E2 | E3 | E4 | E5 | E6 | E7 | E8 | E9
| O1 | O2 | O3 | O4 | O5 | O6 | O7 | O8 | O9 | O10
| W1 | W2 | W3 | W4 | W5.

#[export] Instance OperatorRank_eq_dec : EqDecision OperatorRank.
Proof. solve_decision. Defined.

Definition rank_to_i32 (r : OperatorRank) : Z :=
  match r with
  | RankUnspecified => 0
  | E1 => 1 | E2 => 2 | E3 => 3 | E4 => 4 | E5 => 5 | E6 => 6 | E7 => 7 | E8 => 8 | E9 => 9
  | O1 => 11 | O2 => 12 | O3 => 13 | O4 => 14 | O5 => 15
  | O6 => 16 | O7 => 17 | O8 => 18 | O9 => 19 | O10 => 20
  | W1 => 21 | W2 => 22 | W3 => 23 | W4 => 24 | W5 => 25
  end.

Definition all_ranks : list OperatorRank :=
  [RankUnspecified; E1; E2; E3; E4; E5; E6; E7; E8; E9;
   O1; O2; O3; O4; O5; O6; O7; O8; O9; O10; W1; W2; W3; W4; W5].

Definition rank_try_from (z : Z) : option OperatorRank :=
  find (fun r => rank_to_i32 r =? z) all_ranks.

(** The derived order of the enum is the order of its numbers. *)
Definition rank_ltb (a b : OperatorRank) : bool := rank_to_i32 a <? rank_to_i32 b.

Definition rank_to_score (r : OperatorRank) : spec_float :=
  match r with
  | RankUnspecified => f64_of_Z 0
  | E1 => f64_lit 10 100 | E2 => f64_lit 15 100 | E3 => f64_lit 20 100
  | E4 => f64_lit 30 100 | E5 => f64_lit 40 100 | E6 => f64_lit 50 100
  | E7 => f64_lit 60 100 | E8 => f64_lit 70 100 | E9 => f64_lit 80 100
  | W1 => f64_lit 70 100 | W2 => f64_lit 75 100 | W3 => f64_lit 80 100
  | W4 => f64_lit 85 100 | W5 => f64_lit 90 100
  | O1 => f64_lit 85 100 | O2 => f64_lit 90 100 | O3 => f64_lit 95 100
  | O4 => f64_lit 97 100 | O5 => f64_lit 98 100 | O6 => f64_lit 99 100
  | O7 => f64_lit 995 1000 | O8 => f64_lit 997 1000 | O9 => f64_lit 999 1000
  | O10 => f64_of_Z 1
  end.

(** ** Authority *)

Inductive AuthorityLevel := AuthorityUnspecified | Observer | Advisor | Supervisor | Commander.

#[export] Instance AuthorityLevel_eq_dec : EqDecision AuthorityLevel.
Proof. solve_decision. Defined.

Definition authority_to_i32 (a : AuthorityLevel) : Z :=
  match a with
  | AuthorityUnspecified => 0 | Observer => 1 | Advisor => 2 | Supervisor => 3 | Commander => 4
  end.

Definition authority_try_from (z : Z) : option AuthorityLevel :=
  find (fun a => authority_to_i32 a =? z)
    [AuthorityUnspecified; Observer; Advisor; Supervisor; Commander].

Definition authority_to_score (a : AuthorityLevel) : spec_float :=
  match a with
  | AuthorityUnspecified => f64_of_Z 0
  | Observer => f64_lit 1 10
  | Advisor => f64_lit 3 10
  | Supervisor => f64_lit 5 10
  | Commander => f64_lit 8 10
  end.

Definition can_override (a : AuthorityLevel) : bool :=
  match a with Supervisor | Commander => true | _ => false end.

Definition requires_approval (a : AuthorityLevel) : bool :=
  match a with Commander => true | _ => false end.

(** ** Operators *)

(** Reading and writing a number in a JSON text. [read_f64 s key] is [from_str]
    with [{}] for a text that does not parse, then [metadata[key].as_f64()];
    [write_f32 s key x] is [metadata[key] = json!(x)] printed again, which panics
    ([None]) when the text is not an object or null; [fresh_metadata] is the
    text of the object with both numbers zero. *)
Class JsonMetadata := {
  read_f64 : string -> string -> option spec_float;
  write_f32 : string -> string -> spec_float -> option string;
  fresh_metadata : string
}.

(** What serde_json documents: a finite number is read back as the same number, a
    NaN is written as null, and the other keys are kept. *)
Class JsonMetadataLaws `{JsonMetadata} : Prop := {
  read_write_finite s k m e sg s' :
    write_f32 s k (S754_finite sg m e) = Some s' ->
    read_f64 s' k = Some (f32_as_f64 (S754_finite sg m e));
  read_write_zero s k sg s' :
    write_f32 s k (S754_zero sg) = Some s' -> read_f64 s' k = Some (S754_zero sg);
  read_write_nan s k s' : write_f32 s k S754_nan = Some s' -> read_f64 s' k = None;
  read_write_other s k k' x s' :
    k <> k' -> write_f32 s k x = Some s' -> read_f64 s' k' = read_f64 s k';
  read_fresh k : k = "cognitive_load"%string \/ k = "fatigue"%string ->
    read_f64 fresh_metadata k = Some (S754_zero false)
}.

Record Operator := mkOperator {
  op_id : string;
  op_name : string;
  rank : Z;
  authority_level : Z;
  mos : string;
  op_metadata_json : string
}.

Inductive BindingType := BindingUnspecified | OneToOne | OneToMany | ManyToOne | ManyToMany.

Definition binding_to_i32 (b : BindingType) : Z :=
  match b with
  | BindingUnspecified => 0 | OneToOne => 1 | OneToMany => 2 | ManyToOne => 3 | ManyToMany => 4
  end.

Record HumanMachinePair := mkHumanMachinePair {
  operators : list Operator;
  node_ids : list string;
  binding_type : Z;
  bound_at : option Timestamp
}.

Section Operators.
Context `{JsonMetadata}.

Definition operator_new (id name : string) (r : OperatorRank) (a : AuthorityLevel) (mos : string) : Operator :=
  mkOperator id name (rank_to_i32 r) (authority_to_i32 a) mos fresh_metadata.

Definition set_metadata (o : Operator) (s : string) : Operator :=
  mkOperator (op_id o) (op_name o) (rank o) (authority_level o) (mos o) s.

Definition update_cognitive_load (o : Operator) (load : spec_float) : option Operator :=
  let load := f32_clamp load f32_zero f32_one in
  set_metadata o <$> write_f32 (op_metadata_json o) "cognitive_load" load.

Definition update_fatigue (o : Operator) (fatigue : spec_float) : option Operator :=
  let fatigue := f32_clamp fatigue f32_zero f32_one in
  set_metadata o <$> write_f32 (op_metadata_json o) "fatigue" fatigue.

Definition cognitive_load (o : Operator) : spec_float :=
  f64_as_f32 (default (S754_zero false) (read_f64 (op_metadata_json o) "cognitive_load")).

Definition fatigue (o : Operator) : spec_float :=
  f64_as_f32 (default (S754_zero false) (read_f64 (op_metadata_json o) "fatigue")).

Definition is_overloaded (o : Operator) (threshold : spec_float) : bool :=
  SFltb threshold (cognitive_load o).

Definition is_fatigued (o : Operator) (threshold : spec_float) : bool :=
  SFltb threshold (fatigue o).

Definition effectiveness (o : Operator) : spec_float :=
  let cognitive_factor := SFsub 24 128 f32_one (cognitive_load o) in
  let fatigue_factor := SFsub 24 128 f32_one (fatigue o) in
  f32_clamp (SFadd 24 128 (SFmul 24 128 cognitive_factor (f32_lit 6 10))
                          (SFmul 24 128 fatigue_factor (f32_lit 4 10))) f32_zero f32_one.

(** ** Human-machine pairs *)

Definition pair_new (ops : list Operator) (nodes : list string) (b : BindingType) : HumanMachinePair :=
  mkHumanMachinePair ops nodes (binding_to_i32 b) None.

Definition autonomous (node_id : string) : HumanMachinePair :=
  mkHumanMachinePair [] [node_id] (binding_to_i32 BindingUnspecified) None.

Definition one_to_one (o : Operator) (node_id : string) : HumanMachinePair :=
  pair_new [o] [node_id] OneToOne.

Definition is_autonomous (p : HumanMachinePair) : bool :=
  match operators p with [] => true | _ => false end.

Definition primary_operator (p : HumanMachinePair) : option Operator :=
  max_by (fun a b => rank a ?= rank b) (operators p).

(** [Ord] of [Option]: [None] is below every [Some]. *)
Definition cmp_option {A} (key : A -> Z) (a b : option A) : comparison :=
  match a, b with
  | None, None => Eq
  | None, Some _ => Lt
  | Some _, None => Gt
  | Some a, Some b => key a ?= key b
  end.

Definition max_rank (p : HumanMachinePair) : option OperatorRank :=
  mjoin (max_by (cmp_option rank_to_i32) (map (fun o => rank_try_from (rank o)) (operators p))).

Definition max_authority (p : HumanMachinePair) : option AuthorityLevel :=
  mjoin (max_by (cmp_option authority_to_i32) (map (fun o => authority_try_from (authority_level o)) (operators p))).

Definition has_overloaded_operator (p : HumanMachinePair) (threshold : spec_float) : bool :=
  existsb (fun o => is_overloaded o threshold) (operators p).

(** The sum starts at negative zero, the neutral element of float addition. *)
Definition avg_effectiveness (p : HumanMachinePair) : spec_float :=
  match operators p with
  | [] => f32_one
  | ops => SFdiv 24 128 (fold_left (SFadd 24 128) (map effectiveness ops) (S754_zero true)) (f32_of_Z (len ops))
  end.

(** ** Election policy (cell/election_policy.rs) *)

Inductive Phase := PhaseUnspecified | Discovery | PhaseCell | Hierarchy.

Inductive LeadershipPolicy :=
| RankDominant
| TechnicalDominant
| Hybrid (authority_weight technical_weight : spec_float)
| Contextual.

Record ElectionPolicyConfig := mkElectionPolicyConfig {
  default_policy : LeadershipPolicy;
  min_leader_rank : option OperatorRank;
  allow_autonomous_leaders : bool;
  max_cognitive_load : spec_float;
  max_fatigue : spec_float
}.

Definition election_policy_default : ElectionPolicyConfig :=
  mkElectionPolicyConfig (Hybrid (f64_lit 6 10) (f64_lit 4 10)) (Some E5) false
    (f32_lit 85 100) (f32_lit 75 100).

Definition is_qualified_leader (c : ElectionPolicyConfig) (o : Operator) : bool :=
  if SFltb (max_cognitive_load c) (cognitive_load o) then false
  else if SFltb (max_fatigue c) (fatigue o) then false
  else match min_leader_rank c with
       | Some min_rank =>
           match rank_try_from (rank o) with
           | Some op_rank => if rank_ltb op_rank min_rank then false else true
           | None => false
           end
       | None => true
       end.

Definition allows_autonomous_leader (c : ElectionPolicyConfig) : bool := allow_autonomous_leaders c.

Record ElectionContext := mkElectionContext {
  policy : LeadershipPolicy;
  mission_phase : Phase;
  authority_required : bool;
  casualty_count : Z
}.

Definition election_context_default : ElectionContext :=
  mkElectionContext (Hybrid (f64_lit 6 10) (f64_lit 4 10)) PhaseCell false 0.

Definition election_context_new (p : LeadershipPolicy) (phase : Phase) : ElectionContext :=
  mkElectionContext p phase false 0.

Definition with_authority_required (c : ElectionContext) (required : bool) : ElectionContext :=
  mkElectionContext (policy c) (mission_phase c) required (casualty_count c).

Definition with_casualties (c : ElectionContext) (count : Z) : ElectionContext :=
  mkElectionContext (policy c) (mission_phase c) (authority_required c) count.

Definition compute_contextual_weights (c : ElectionContext) : spec_float * spec_float :=
  match mission_phase c with
  | Discovery => (f64_lit 7 10, f64_lit 3 10)
  | PhaseCell => (f64_lit 6 10, f64_lit 4 10)
  | Hierarchy => (f64_lit 8 10, f64_lit 2 10)
  | PhaseUnspecified => (f64_lit 6 10, f64_lit 4 10)
  end.

Definition get_weights (p : LeadershipPolicy) (c : ElectionContext) : spec_float * spec_float :=
  match p with
  | RankDominant => (f64_of_Z 1, f64_of_Z 0)
  | TechnicalDominant => (f64_of_Z 0, f64_of_Z 1)
  | Hybrid a t => (a, t)
  | Contextual => compute_contextual_weights c
  end.

(** ** Ranks and operators *)

Lemma rank_decode_encode r : rank_try_from (rank_to_i32 r) = Some r.
Proof. by destruct r. Qed.

Lemma rank_cmp_ok : cmp_ok (fun _ => True) (fun a b : Operator => rank a ?= rank b).
Proof.
  split; intros.
  - apply Z.compare_antisym.
  - rewrite Z.compare_le_iff in *. lia.
Qed.

(** The primary operator has the greatest rank number, and is the last one with it. *)
Lemma primary_operator_spec p :
  match primary_operator p with
  | Some o => exists l1 l2, operators p = l1 ++ o :: l2 /\
      (forall o', o' ∈ l1 -> rank o' <= rank o) /\ (forall o', o' ∈ l2 -> rank o' < rank o)
  | None => operators p = []
  end.
Proof.
  pose proof (max_by_last _ _ (operators p) rank_cmp_ok ltac:(by apply Forall_true)) as Hm.
  unfold primary_operator. destruct (max_by _ _) as [o|]; [|done].
  destruct Hm as (l1 & l2 & Heq & H1 & H2). exists l1, l2. split; [done|].
  split; intros o' Ho'; [apply H1 in Ho'|apply H2 in Ho'].
  - by rewrite Z.compare_le_iff in Ho'.
  - by rewrite Z.compare_lt_iff in Ho'.
Qed.

(** Every warrant officer is the primary operator ahead of every general or other
    commissioned officer of the pair, because ranks are compared by their protobuf
    number, although the leadership score of the ranks orders O4 to O10 above all
    warrant officers. *)
Theorem warrant_outranks_general g w nodes b :
  rank_try_from (rank g) ∈ map Some [O4; O5; O6; O7; O8; O9; O10] ->
  rank_try_from (rank w) ∈ map Some [W1; W2; W3; W4; W5] ->
  primary_operator (pair_new [g; w] nodes b) = Some w /\
  (forall rg rw, rank_try_from (rank g) = Some rg -> rank_try_from (rank w) = Some rw ->
    SFltb (rank_to_score rw) (rank_to_score rg) = true).
Proof.
  assert (forall r z, rank_try_from z = Some r -> z = rank_to_i32 r) as Hdec.
  { intros r z. unfold rank_try_from. intros [_ E]%find_some. by apply Z.eqb_eq in E. }
  intros Hg Hw. rewrite !list_elem_of_In in Hg, Hw. split.
  - unfold primary_operator, max_by. simpl.
    assert (rank g < rank w) as Hlt.
    { repeat (destruct Hg as [Hg|Hg]; [symmetry in Hg; apply Hdec in Hg|]); [..|by destruct Hg].
      all: repeat (destruct Hw as [Hw|Hw]; [symmetry in Hw; apply Hdec in Hw; rewrite Hg, Hw; reflexivity|]).
      all: by destruct Hw. }
    by rewrite (proj2 (Z.compare_lt_iff _ _) Hlt).
  - intros rg rw Eg Ew. rewrite Eg in Hg. rewrite Ew in Hw.
    repeat (destruct Hg as [Hg|Hg]; [simplify_eq|]); [..|by destruct Hg].
    all: repeat (destruct Hw as [Hw|Hw]; [simplify_eq; vm_compute; reflexivity|]); by destruct Hw.
Qed.

(** ** Cognitive load and fatigue *)

(** What a clamped binary32 number is *)
Lemma f32_clamp_cases x :
  valid_binary 24 128 x = true ->
  let y := f32_clamp x f32_zero f32_one in
  y = S754_nan \/ (exists s, y = S754_zero s) \/
  exists m e, y = S754_finite false m e /\ bounded 24 128 m e = true.
Proof.
  intros Hv. cbv zeta. unfold f32_clamp.
  destruct (SFltb x f32_zero) eqn:E0; [right; left; by exists false|].
  destruct (SFltb f32_one x) eqn:E1; [right; right; by exists 8388608%positive, (-23)|].
  destruct x as [s|[]| |[] m e]; try done; [eauto|by left|].
  right; right. by exists m, e.
Qed.

(** The number read back after an update *)
Definition read_back (x : spec_float) : spec_float :=
  match x with S754_nan => S754_zero false | _ => x end.

Lemma read_back_write `{!JsonMetadataLaws} s k x s' :
  valid_binary 24 128 x = true ->
  write_f32 s k (f32_clamp x f32_zero f32_one) = Some s' ->
  f64_as_f32 (default (S754_zero false) (read_f64 s' k)) = read_back (f32_clamp x f32_zero f32_one).
Proof.
  intros Hv Hw. destruct (f32_clamp_cases x Hv) as [E|[(sg & E)|(m & e & E & Hb)]]; rewrite E in *.
  - by rewrite (read_write_nan _ _ _ Hw).
  - by rewrite (read_write_zero _ _ _ _ Hw).
  - rewrite (read_write_finite _ _ _ _ _ _ Hw). exact (f32_through_f64 m e Hb).
Qed.

(** An operator's cognitive load reads back as the clamped number that was written,
    to the bit, and its fatigue is not changed; a NaN reads back as zero, as if the
    operator were not loaded at all. *)
Theorem cognitive_load_roundtrip `{!JsonMetadataLaws} o x o' :
  valid_binary 24 128 x = true -> update_cognitive_load o x = Some o' ->
  cognitive_load o' = read_back (f32_clamp x f32_zero f32_one) /\ fatigue o' = fatigue o /\
  rank o' = rank o.
Proof.
  intros Hv. unfold update_cognitive_load.
  destruct (write_f32 _ _ _) as [s|] eqn:E; simpl; intros; simplify_eq. split_and!; [| |done].
  - unfold cognitive_load. simpl. by eapply read_back_write.
  - unfold fatigue. simpl. by rewrite (read_write_other _ "cognitive_load" "fatigue" _ _ ltac:(done) E).
Qed.

(** ** Election policy *)

(** Exactly the operators with a known rank number not below the minimum, a load
    and a fatigue not above their limits qualify as leaders. *)
Theorem is_qualified_leader_spec c o :
  is_qualified_leader c o = true <->
  SFltb (max_cognitive_load c) (cognitive_load o) = false /\
  SFltb (max_fatigue c) (fatigue o) = false /\
  forall min, min_leader_rank c = Some min ->
    exists r, rank_try_from (rank o) = Some r /\ rank_to_i32 min <= rank_to_i32 r.
Proof.
  unfold is_qualified_leader, rank_ltb.
  destruct (SFltb _ _); [split; [done|by intros [? _]]|].
  destruct (SFltb _ _); [split; [done|by intros (_ & ? & _)]|].
  destruct (min_leader_rank c) as [min|]; [|split; [intros _; split_and!; done|done]].
  destruct (rank_try_from (rank o)) as [r|].
  - destruct (Z.ltb_spec (rank_to_i32 r) (rank_to_i32 min)); split; try done.
    + intros (_ & _ & Hq). destruct (Hq min eq_refl) as (r' & ? & ?). simplify_eq. lia.
    + intros _. split_and!; [done|done|]. intros; simplify_eq. eauto.
  - split; [done|]. intros (_ & _ & Hq). by destruct (Hq min eq_refl) as (r' & ? & ?).
Qed.

End Operators.

(** Weights of the fixed and contextual policies are non-negative and sum to one. *)
Lemma get_weights_sum p c :
  (forall a t, p <> Hybrid a t) ->
  let '(a, t) := get_weights p c in
  SFadd 53 1024 a t = f64_of_Z 1 /\ SFleb (f64_of_Z 0) a = true /\ SFleb (f64_of_Z 0) t = true.
Proof.
  intros Hp. destruct p as [| |a t|]; [by vm_compute..|by destruct (Hp a t)|].
  unfold get_weights, compute_contextual_weights. destruct (mission_phase c); by vm_compute.
Qed.

(** ** A concrete store of numbers in a text *)

(** A text of two characters that encodes a list of keys and numbers *)
Fixpoint bits_of (p : positive) : string :=
  match p with
  | xH => EmptyString
  | xO p => String Ascii.zero (bits_of p)
  | xI p => String Ascii.one (bits_of p)
  end.

Fixpoint of_bits (s : string) : positive :=
  match s with
  | EmptyString => xH
  | String c s => if decide (c = Ascii.zero) then xO (of_bits s) else xI (of_bits s)
  end.

Lemma of_bits_of p : of_bits (bits_of p) = p.
Proof. induction p; simpl; by f_equal. Qed.

#[local] Instance spec_float_countable : Countable spec_float.
Proof.
  refine (inj_countable'
    (fun x => match x with
     | S754_zero s => inl (inl s) | S754_infinity s => inl (inr s)
     | S754_nan => inr None | S754_finite s m e => inr (Some (s, m, e)) end)
    (fun y : (bool + bool) + option (bool * positive * Z) => match y with
     | inl (inl s) => S754_zero s | inl (inr s) => S754_infinity s
     | inr None => S754_nan | inr (Some (s, m, e)) => S754_finite s m e end) _).
  by intros [].
Defined.

Definition text_entries (s : string) : list (string * option spec_float) :=
  default [] (decode (of_bits s)).

Definition entry (l : list (string * option spec_float)) (k : string) : option spec_float :=
  match find (fun kv => bool_decide (kv.1 = k)) l with Some (_, v) => v | None => None end.

#[local] Instance text_metadata : JsonMetadata := {
  read_f64 s k := entry (text_entries s) k;
  write_f32 s k x :=
    let v := match x with S754_nan | S754_infinity _ => None | _ => Some (f32_as_f64 x) end in
    Some (bits_of (encode ((k, v) :: text_entries s)));
  fresh_metadata := bits_of (encode [("cognitive_load"%string, Some (S754_zero false));
                                     ("fatigue"%string, Some (S754_zero false))])
}.

Lemma text_entries_encode l : text_entries (bits_of (encode l)) = l.
Proof. unfold text_entries. by rewrite of_bits_of, decode_encode. Qed.

#[local] Instance text_metadata_laws : JsonMetadataLaws.
Proof.
  split; cbn [read_f64 write_f32 fresh_metadata text_metadata].
  1-3: intros; simplify_eq; rewrite text_entries_encode; unfold entry; simpl; by rewrite bool_decide_eq_true_2.
  - intros; simplify_eq. rewrite text_entries_encode. unfold entry. simpl. by rewrite bool_decide_eq_false_2.
  - intros k Hk. rewrite text_entries_encode. by destruct Hk as [-> | ->].
Qed.

Definition sergeant : Operator := operator_new "op1" "A" E5 Supervisor "11B".

Lemma cognitive_load_roundtrip_witness :
  exists o', update_cognitive_load sergeant (f32_lit 3 10) = Some o' /\
    cognitive_load o' = f32_lit 3 10 /\ fatigue o' = fatigue sergeant.
Proof.
  destruct (update_cognitive_load sergeant (f32_lit 3 10)) as [o'|] eqn:E; [|vm_compute in E; congruence].
  destruct (cognitive_load_roundtrip sergeant (f32_lit 3 10) o' ltac:(vm_compute; reflexivity) E) as (H1 & H2 & _).
  exists o'. split; [reflexivity|]. split; [|exact H2].
  rewrite H1. vm_compute. reflexivity.
Defined.

Lemma warrant_outranks_general_witness :
  primary_operator (pair_new [operator_new "g" "G" O10 Commander "00"; operator_new "w" "W" W1 Advisor "00"]
    [] ManyToOne) = Some (operator_new "w" "W" W1 Advisor "00").
Proof.
  apply (warrant_outranks_general (operator_new "g" "G" O10 Commander "00") (operator_new "w" "W" W1 Advisor "00")).
  - apply list_elem_of_In. simpl. tauto.
  - apply list_elem_of_In. simpl. tauto.
Defined.
