(* ===== verification/Node.v ===== *)
(** * Nodes and roles

    Models peat-protocol/src/models/node.rs and models/role.rs with the messages of
    peat-schema/proto/node.proto and common.proto. The random identifier of a new
    node and the wall clock (in seconds) are arguments. [score_all_roles] fills a
    hash map; [best_role_for_node] takes the order in which it is iterated. *)

From Stdlib Require Import SpecFloat.
From S2P Require Import Prelude Float Capability Operator.

Open Scope Z_scope.

(** ** Messages *)

Record Position := mkPosition { latitude : spec_float; longitude : spec_float; altitude : spec_float }.

Record Kinematics := mkKinematics {
  velocity : spec_float; heading : spec_float; acceleration : spec_float; vertical_speed : spec_float
}.

Record PositionError := mkPositionError {
  circular_error : spec_float; linear_error : spec_float; vertical_error : spec_float
}.

Inductive HealthStatus := HealthUnspecified | Nominal | Degraded | HealthCritical | HealthFailed.

#[export] Instance HealthStatus_eq_dec : EqDecision HealthStatus.
Proof. solve_decision. Defined.

Definition health_to_i32 (h : HealthStatus) : Z :=
  match h with
  | HealthUnspecified => 0 | Nominal => 1 | Degraded => 2 | HealthCritical => 3 | HealthFailed => 4
  end.

Definition health_try_from (z : Z) : option HealthStatus :=
  match z with
  | 0 => Some HealthUnspecified | 1 => Some Nominal | 2 => Some Degraded
  | 3 => Some HealthCritical | 4 => Some HealthFailed | _ => None
  end.

Definition phase_to_i32 (p : Phase) : Z :=
  match p with PhaseUnspecified => 0 | Discovery => 1 | PhaseCell => 2 | Hierarchy => 3 end.

Definition phase_try_from (z : Z) : option Phase :=
  match z with
  | 0 => Some PhaseUnspecified | 1 => Some Discovery | 2 => Some PhaseCell | 3 => Some Hierarchy
  | _ => None
  end.

Record NodeConfig := mkNodeConfig {
  nc_id : string;
  node_type : string;
  capabilities : list Capability;
  comm_range_m : spec_float;
  max_speed_mps : spec_float;
  operator_binding : option HumanMachinePair;
  created_at : option Timestamp
}.

Record NodeState := mkNodeState {
  position : option Position;
  fuel_minutes : Z;
  health : Z;
  phase : Z;
  cell_id : option string;
  zone_id : option string;
  ns_timestamp : option Timestamp;
  kinematics : option Kinematics;
  position_error : option PositionError
}.

(** ** Node configuration *)

Definition node_config_new (uuid node_type : string) : NodeConfig :=
  mkNodeConfig uuid node_type [] (f32_of_Z 1000) (f32_of_Z 10) None None.

Definition with_operator (uuid node_type : string) (b : HumanMachinePair) : NodeConfig :=
  mkNodeConfig uuid node_type [] (f32_of_Z 1000) (f32_of_Z 10) (Some b) None.

Definition add_capability (n : NodeConfig) (c : Capability) : NodeConfig :=
  mkNodeConfig (nc_id n) (node_type n) (push_absent Capability.id (capabilities n) c)
    (comm_range_m n) (max_speed_mps n) (operator_binding n) (created_at n).

Definition has_capability_type (n : NodeConfig) (ty : CapabilityType) : bool :=
  existsb (fun c => bool_decide (get_capability_type c = ty)) (capabilities n).

Definition get_capabilities_by_type (n : NodeConfig) (ty : CapabilityType) : list Capability :=
  filter (fun c => get_capability_type c = ty) (capabilities n).

Definition has_operator (n : NodeConfig) : bool := bool_decide (is_Some (operator_binding n)).

Definition is_human_operated (n : NodeConfig) : bool :=
  match operator_binding n with
  | Some b => negb (is_autonomous b)
  | None => false
  end.

Definition get_primary_operator (n : NodeConfig) : option Operator :=
  operator_binding n ≫= primary_operator.

Definition get_operator_binding (n : NodeConfig) : option HumanMachinePair := operator_binding n.

Definition set_operator_binding (n : NodeConfig) (b : option HumanMachinePair) : NodeConfig :=
  mkNodeConfig (nc_id n) (node_type n) (capabilities n) (comm_range_m n) (max_speed_mps n) b (created_at n).

Definition node_is_autonomous (n : NodeConfig) : bool := negb (is_human_operated n).

(** ** Node state *)

Definition node_state_new (p : spec_float * spec_float * spec_float) (now : Z) : NodeState :=
  let '(lat, lon, alt) := p in
  mkNodeState (Some (mkPosition lat lon alt)) 120 (health_to_i32 Nominal) (phase_to_i32 Discovery)
    None None (timestamp_now now) None None.

Definition update_timestamp (s : NodeState) (now : Z) : NodeState :=
  mkNodeState (position s) (fuel_minutes s) (health s) (phase s) (cell_id s) (zone_id s)
    (timestamp_now now) (kinematics s) (position_error s).

Definition get_position (s : NodeState) : spec_float * spec_float * spec_float :=
  match position s with
  | Some p => (latitude p, longitude p, altitude p)
  | None => (S754_zero false, S754_zero false, S754_zero false)
  end.

Definition update_position (s : NodeState) (p : spec_float * spec_float * spec_float) (now : Z) : NodeState :=
  let '(lat, lon, alt) := p in
  update_timestamp (mkNodeState (Some (mkPosition lat lon alt)) (fuel_minutes s) (health s) (phase s)
    (cell_id s) (zone_id s) (ns_timestamp s) (kinematics s) (position_error s)) now.

Definition get_health (s : NodeState) : HealthStatus :=
  default HealthUnspecified (health_try_from (health s)).

Definition update_health (s : NodeState) (h : HealthStatus) (now : Z) : NodeState :=
  update_timestamp (mkNodeState (position s) (fuel_minutes s) (health_to_i32 h) (phase s)
    (cell_id s) (zone_id s) (ns_timestamp s) (kinematics s) (position_error s)) now.

Definition get_phase (s : NodeState) : Phase :=
  match default PhaseUnspecified (phase_try_from (phase s)) with
  | Discovery => Discovery
  | PhaseCell => PhaseCell
  | Hierarchy => Hierarchy
  | _ => Discovery
  end.

Definition update_phase (s : NodeState) (p : Phase) (now : Z) : NodeState :=
  update_timestamp (mkNodeState (position s) (fuel_minutes s) (health s) (phase_to_i32 p)
    (cell_id s) (zone_id s) (ns_timestamp s) (kinematics s) (position_error s)) now.

Definition set_membership (s : NodeState) (c z : option string) (now : Z) : NodeState :=
  update_timestamp (mkNodeState (position s) (fuel_minutes s) (health s) (phase s)
    c z (ns_timestamp s) (kinematics s) (position_error s)) now.

Definition assign_cell (s : NodeState) (c : string) (now : Z) : NodeState :=
  set_membership s (Some c) (zone_id s) now.

Definition leave_cell (s : NodeState) (now : Z) : NodeState := set_membership s None (zone_id s) now.

Definition assign_zone (s : NodeState) (z : string) (now : Z) : NodeState :=
  set_membership s (cell_id s) (Some z) now.

Definition leave_zone (s : NodeState) (now : Z) : NodeState := set_membership s (cell_id s) None now.

Definition set_fuel (s : NodeState) (f now : Z) : NodeState :=
  update_timestamp (mkNodeState (position s) f (health s) (phase s)
    (cell_id s) (zone_id s) (ns_timestamp s) (kinematics s) (position_error s)) now.

Definition consume_fuel (s : NodeState) (minutes now : Z) : NodeState :=
  set_fuel s (saturating_sub (fuel_minutes s) minutes) now.

(** [saturating_add] on [u32] *)
Definition replenish_fuel (s : NodeState) (minutes now : Z) : NodeState :=
  set_fuel s (Z.min (u32_modulus - 1) (fuel_minutes s + minutes)) now.

Definition is_operational (s : NodeState) : bool :=
  negb (bool_decide (get_health s = HealthFailed)) && (0 <? fuel_minutes s).

Definition needs_refuel (s : NodeState) : bool := fuel_minutes s <? 30.

Definition node_merge (s other : NodeState) : NodeState :=
  let self_ts := seconds_or_zero (ns_timestamp s) in
  let other_ts := seconds_or_zero (ns_timestamp other) in
  if self_ts <? other_ts then
    mkNodeState (position other) (fuel_minutes other) (health other) (phase other) (cell_id other)
      (zone_id other) (ns_timestamp other) (kinematics other) (position_error other)
  else s.

(** ** Roles *)

Inductive CellRole := RoleLeader | RoleSensor | RoleCompute | RoleRelay | RoleStrike | RoleSupport | RoleFollower.

#[export] Instance CellRole_eq_dec : EqDecision CellRole.
Proof. solve_decision. Defined.

Definition assignable_roles : list CellRole :=
  [RoleSensor; RoleCompute; RoleRelay; RoleStrike; RoleSupport; RoleFollower].

Definition required_capabilities (r : CellRole) : list CapabilityType :=
  match r with
  | RoleLeader => [Communication]
  | RoleSensor => [Sensor]
  | RoleCompute => [Compute]
  | RoleRelay => [Communication]
  | RoleStrike => [Payload]
  | RoleSupport => []
  | RoleFollower => []
  end.

Definition preferred_capabilities (r : CellRole) : list CapabilityType :=
  match r with
  | RoleLeader => [Compute; Sensor]
  | RoleSensor => [Communication]
  | RoleCompute => [Communication]
  | RoleRelay => [Sensor]
  | RoleStrike => [Sensor; Compute]
  | RoleSupport => [Mobility]
  | RoleFollower => []
  end.

Definition relevant_mos (r : CellRole) : list string :=
  match r with
  | RoleLeader => ["11B"; "11C"; "19D"]
  | RoleSensor => ["19D"; "35M"; "35N"]
  | RoleCompute => ["35F"; "35N"; "17C"]
  | RoleRelay => ["25U"; "25B"; "25Q"]
  | RoleStrike => ["11B"; "11C"; "19K"]
  | RoleSupport => ["68W"; "88M"; "91B"]
  | RoleFollower => []
  end%string.

Definition best_capability (n : NodeConfig) (ty : CapabilityType) : option Capability :=
  max_by (fun a b => cmp_float (confidence a) (confidence b)) (get_capabilities_by_type n ty).

Definition score_required_capabilities (n : NodeConfig) (r : CellRole) : spec_float :=
  let required := required_capabilities r in
  match required with
  | [] => f64_of_Z 1
  | _ =>
      let total := fold_left (fun total ty =>
        match best_capability n ty with
        | Some c => SFadd 53 1024 total (f32_as_f64 (confidence c))
        | None => total
        end) required (f64_of_Z 0) in
      SFdiv 53 1024 total (f64_of_Z (len required))
  end.

Definition score_preferred_capabilities (n : NodeConfig) (r : CellRole) : spec_float :=
  let preferred := preferred_capabilities r in
  match preferred with
  | [] => f64_of_Z 1
  | _ =>
      let '(total, count) := fold_left (fun '(total, count) ty =>
        match best_capability n ty with
        | Some c => (SFadd 53 1024 total (f32_as_f64 (confidence c)), count + 1)
        | None => (total, count)
        end) preferred (f64_of_Z 0, 0) in
      if 0 <? count then SFdiv 53 1024 total (f64_of_Z count) else f64_lit 5 10
  end.

Definition score_operator_mos (o : Operator) (r : CellRole) : spec_float :=
  match relevant_mos r with
  | [] => f64_lit 5 10
  | l => if bool_decide (mos o ∈ l) then f64_lit 9 10 else f64_lit 3 10
  end.

Definition score_node_health (s : NodeState) : spec_float :=
  match get_health s with
  | Nominal => f64_of_Z 1
  | Degraded => f64_lit 6 10
  | HealthCritical => f64_lit 3 10
  | HealthFailed => f64_of_Z 0
  | HealthUnspecified => f64_lit 5 10
  end.

(** [x.clamp(0.0, 1.0)] *)
Definition f64_clamp01 (x : spec_float) : spec_float :=
  let x := if SFltb x (f64_of_Z 0) then f64_of_Z 0 else x in
  if SFltb (f64_of_Z 1) x then f64_of_Z 1 else x.

Definition add64 := SFadd 53 1024.
Definition mul64 := SFmul 53 1024.

Definition score_node_for_role (n : NodeConfig) (s : NodeState) (r : CellRole) : option spec_float :=
  if forallb (has_capability_type n) (required_capabilities r) then
    let score := f64_of_Z 0 in
    let weight := f64_of_Z 0 in
    let score := add64 score (mul64 (score_required_capabilities n r) (f64_lit 3 10)) in
    let weight := add64 weight (f64_lit 3 10) in
    let score := add64 score (mul64 (score_preferred_capabilities n r) (f64_lit 2 10)) in
    let weight := add64 weight (f64_lit 2 10) in
    let '(score, weight) :=
      match get_primary_operator n with
      | Some op => (add64 score (mul64 (score_operator_mos op r) (f64_lit 3 10)), add64 weight (f64_lit 3 10))
      | None => (score, weight)
      end in
    let score := add64 score (mul64 (score_node_health s) (f64_lit 2 10)) in
    let weight := add64 weight (f64_lit 2 10) in
    let score := if SFltb weight (f64_of_Z 1) then SFdiv 53 1024 score weight else score in
    Some (f64_clamp01 score)
  else None.

(** The entries of the hash map, in the order of [assignable_roles] *)
Definition score_all_roles (n : NodeConfig) (s : NodeState) : list (CellRole * spec_float) :=
  omap (fun r => (fun x => (r, x)) <$> score_node_for_role n s r) assignable_roles.

(** [order] is the order in which the hash map is iterated. *)
Definition best_role_for_node (order : list (CellRole * spec_float)) : option (CellRole * spec_float) :=
  max_by (fun a b => cmp_float a.2 b.2) order.

Record RoleAssignment := mkRoleAssignment {
  ra_node_id : string; role : CellRole; ra_score : spec_float; is_primary_choice : bool
}.

Definition role_assignment_new (n : string) (r : CellRole) (x : spec_float) (b : bool) : RoleAssignment :=
  mkRoleAssignment n r x b.

(** ** Replication of node states *)

Lemma node_merge_other s other :
  node_merge s other =
  if seconds_or_zero (ns_timestamp s) <? seconds_or_zero (ns_timestamp other) then other else s.
Proof. unfold node_merge. by destruct (_ <? _), other. Qed.

(** Merging node states keeps the later one and is associative and idempotent; it
    commutes when the seconds of the timestamps differ. Two different states of the
    same second stay different on both replicas, whichever way they merge. *)
Theorem node_merge_lww a b c :
  node_merge a (node_merge b c) = node_merge (node_merge a b) c /\
  node_merge a a = a /\
  (seconds_or_zero (ns_timestamp a) <> seconds_or_zero (ns_timestamp b) -> node_merge a b = node_merge b a) /\
  (seconds_or_zero (ns_timestamp a) = seconds_or_zero (ns_timestamp b) ->
   node_merge a b = a /\ node_merge b a = b).
Proof.
  rewrite !node_merge_other. split_and!.
  - destruct (Z.ltb_spec (seconds_or_zero (ns_timestamp b)) (seconds_or_zero (ns_timestamp c))),
      (Z.ltb_spec (seconds_or_zero (ns_timestamp a)) (seconds_or_zero (ns_timestamp b)));
      bool_arith; try done; exfalso; lia.
  - by rewrite Z.ltb_irrefl.
  - intros Hne. destruct (Z.ltb_spec (seconds_or_zero (ns_timestamp a)) (seconds_or_zero (ns_timestamp b))),
      (Z.ltb_spec (seconds_or_zero (ns_timestamp b)) (seconds_or_zero (ns_timestamp a))); try done; lia.
  - intros ->. by rewrite Z.ltb_irrefl.
Qed.

(** Fuel is not a counter that merges: when two replicas consume fuel independently
    and then merge, the result shows only the later consumption; the fuel the other
    replica spent is back. *)
Theorem merge_forgets_fuel s m1 m2 t1 t2 :
  0 <= m1 -> 0 <= m2 -> m1 + m2 <= fuel_minutes s -> t1 < t2 ->
  let merged := node_merge (consume_fuel s m1 t1) (consume_fuel s m2 t2) in
  fuel_minutes merged = fuel_minutes s - m2 /\
  merged = node_merge (consume_fuel s m2 t2) (consume_fuel s m1 t1).
Proof.
  intros H1 H2 Hle Ht. cbv zeta. rewrite !node_merge_other. simpl seconds_or_zero.
  destruct (Z.ltb_spec t1 t2), (Z.ltb_spec t2 t1); try lia.
  split; [|done]. simpl. unfold saturating_sub. lia.
Qed.

(** Fuel stays in the range of its type. *)
Lemma fuel_range s minutes now :
  is_u32 (fuel_minutes s) -> 0 <= minutes ->
  is_u32 (fuel_minutes (consume_fuel s minutes now)) /\ is_u32 (fuel_minutes (replenish_fuel s minutes now)).
Proof. unfold is_u32, u32_modulus, saturating_sub. simpl. unfold saturating_sub, u32_modulus. lia. Qed.

(** An update made at [now] survives merging with any state that is not later. *)
Lemma update_survives_merge s other now (f : NodeState -> NodeState) :
  (forall x, ns_timestamp (f x) = timestamp_now now) ->
  seconds_or_zero (ns_timestamp other) <= now -> node_merge (f s) other = f s.
Proof. intros Hf Hle. rewrite node_merge_other, Hf. simpl. by destruct (Z.ltb_spec now (seconds_or_zero (ns_timestamp other))); [lia|]. Qed.

(** What is written into a node state is read back, except that the unspecified phase
    reads as discovery, and numbers no enum value has read as unspecified health and
    discovery. *)
Theorem node_state_roundtrip s h p pos now :
  get_health (update_health s h now) = h /\
  get_phase (update_phase s p now) = (match p with PhaseUnspecified => Discovery | _ => p end) /\
  get_position (update_position s pos now) = pos /\
  (health_try_from (health s) = None -> get_health s = HealthUnspecified) /\
  (phase_try_from (phase s) = None -> get_phase s = Discovery).
Proof.
  destruct pos as [[lat lon] alt]. split_and!; [by destruct h|by destruct p|done|..].
  - unfold get_health. by intros ->.
  - unfold get_phase. by intros ->.
Qed.

Lemma add_capability_NoDup n c :
  NoDup (Capability.id <$> capabilities n) -> NoDup (Capability.id <$> capabilities (add_capability n c)).
Proof. apply NoDup_push_absent. Qed.

(** ** Roles *)

Lemma has_capability_type_spec n ty :
  has_capability_type n ty = true <-> exists c, c ∈ capabilities n /\ get_capability_type c = ty.
Proof.
  unfold has_capability_type. rewrite existsb_exists. split.
  - intros (c & Hc & Ht%bool_decide_eq_true). exists c. split; [by apply list_elem_of_In|done].
  - intros (c & Hc & Ht). exists c. split; [by apply list_elem_of_In|by apply bool_decide_eq_true].
Qed.

(** A node can fill a role exactly when it has a capability of every required type,
    and its score is then neither below zero nor above one. *)
Theorem score_node_for_role_spec n s r :
  (is_Some (score_node_for_role n s r) <->
   forall ty, ty ∈ required_capabilities r -> exists c, c ∈ capabilities n /\ get_capability_type c = ty) /\
  (forall x, score_node_for_role n s r = Some x ->
   SFltb x (f64_of_Z 0) = false /\ SFltb (f64_of_Z 1) x = false).
Proof.
  unfold score_node_for_role. destruct (forallb _ _) eqn:E.
  - split.
    + split; [|by destruct (get_primary_operator n)]. intros _ ty Hty. apply has_capability_type_spec.
      rewrite forallb_forall in E. apply E. by apply list_elem_of_In.
    + intros x. destruct (get_primary_operator n); cbv zeta;
        match goal with |- Some (f64_clamp01 ?y) = _ -> _ => generalize y end;
        intros y [= <-]; unfold f64_clamp01;
        destruct (SFltb y (f64_of_Z 0)) eqn:E0; try done;
        destruct (SFltb (f64_of_Z 1) y) eqn:E1; done.
  - split; [|done]. split; [by intros [? ?]|]. intros Hall. exfalso.
    apply not_true_iff_false in E. apply E. rewrite forallb_forall. intros ty Hty%list_elem_of_In.
    by apply has_capability_type_spec, Hall.
Qed.

(** ** Concrete nodes *)

Definition scout : NodeConfig :=
  add_capability (add_capability (node_config_new "n1" "UAV")
    (capability_new "s" "camera" Sensor (f32_lit 95 100)))
    (capability_new "c" "radio" Communication (f32_lit 95 100)).

Definition healthy : NodeState := node_state_new (S754_zero false, S754_zero false, S754_zero false) 10.

(** A healthy autonomous scout with a very good camera and radio is assigned the role
    of a follower in every iteration order: the roles that ask for nothing score a full
    one on capabilities, so they beat every role whose capabilities are less than
    perfect. *)
Theorem scout_becomes_follower order :
  order ≡ₚ score_all_roles scout healthy ->
  best_role_for_node order = Some (RoleFollower, f64_of_Z 1).
Proof.
  intros Hp.
  assert (Forall (fun a => nonneg 53 1024 a.2) order) as Hnn.
  { rewrite Hp. vm_compute. repeat constructor. }
  assert (cmp_ok (fun a : CellRole * spec_float => nonneg 53 1024 a.2) (fun a b => cmp_float a.2 b.2)) as Hok.
  { destruct (cmp_float_ok 53 1024) as [Ha Ht]; [lia..|]. split; intros; [by apply Ha|by eapply (Ht x.2 y.2)]. }
  pose proof (max_by_last _ _ order Hok Hnn) as Hm. unfold best_role_for_node.
  assert ((RoleFollower, f64_of_Z 1) ∈ order) as Hin.
  { rewrite Hp. apply list_elem_of_In. vm_compute. tauto. }
  destruct (max_by _ order) as [b|]; [|subst; by apply not_elem_of_nil in Hin].
  destruct Hm as (l1 & l2 & Heq & H1 & H2).
  assert (cmp_float (f64_of_Z 1) b.2 <> Gt \/ (RoleFollower, f64_of_Z 1) = b) as Hcmp.
  { rewrite Heq in Hin. apply elem_of_app in Hin as [Hin|[->|Hin]%elem_of_cons]; [|by right|].
    - left. by apply (H1 _ Hin).
    - left. specialize (H2 _ Hin). cbn [snd] in H2. by rewrite H2. }
  destruct Hcmp as [Hcmp|<-]; [|done].
  assert (b ∈ score_all_roles scout healthy) as Hb by (rewrite <- Hp, Heq; set_solver).
  apply list_elem_of_In in Hb. vm_compute in Hb.
  destruct Hb as [<-|[<-|[<-|[<-|[]]]]]; try done; by destruct Hcmp.
Qed.

Lemma scout_becomes_follower_witness :
  best_role_for_node (rev (score_all_roles scout healthy)) = Some (RoleFollower, f64_of_Z 1).
Proof. apply scout_becomes_follower. symmetry. apply Permutation_rev. Defined.

Lemma merge_forgets_fuel_witness :
  fuel_minutes (node_merge (consume_fuel healthy 60 11) (consume_fuel healthy 50 12)) = 70.
Proof.
  destruct (merge_forgets_fuel healthy 60 50 11 12) as [H _]; [simpl; lia..|]. exact H.
Defined.

Lemma node_merge_lww_witness :
  node_merge (consume_fuel healthy 1 11) (consume_fuel healthy 2 12) =
  node_merge (consume_fuel healthy 2 12) (consume_fuel healthy 1 11).
Proof.
  destruct (node_merge_lww (consume_fuel healthy 1 11) (consume_fuel healthy 2 12) healthy) as (_ & _ & H & _).
  apply H. vm_compute. congruence.
Defined.

Lemma node_state_roundtrip_witness :
  get_health (mkNodeState None 0 9 9 None None None None None) = HealthUnspecified.
Proof.
  destruct (node_state_roundtrip (mkNodeState None 0 9 9 None None None None None) Nominal Discovery
    (S754_nan, S754_nan, S754_nan) 0) as (_ & _ & _ & H & _). apply H. reflexivity.
Defined.
