(* ===== verification/Messaging.v ===== *)
(** * Intra-cell messages and the message bus

    Models peat-protocol/src/cell/messaging.rs. A bus belongs to one node: it
    numbers and queues what the node publishes, tracks it for retransmission and
    filters what arrives before it hands it to the subscribers. Handlers are
    opaque: [run] is what one of them does to the state [S] outside the bus; its
    error is only logged. [now] is the wall clock in seconds, [inst] the monotonic
    clock in nanoseconds. The JSON value of a status update is the type [J]. *)

From Stdlib Require Import SpecFloat.
From stdpp Require Import pretty.
From S2P Require Import Prelude Float Error Capability Operator Node Router.

Open Scope Z_scope.

(** ** Priorities *)

Definition priority_num (p : MessagePriority) : Z :=
  match p with Low => 0 | Normal => 1 | High => 2 | Critical => 3 end.

Inductive RoutingContext := IntraCell | CellToZone | ZoneToCell | IntraZone.

Definition escalate (p : MessagePriority) (c : RoutingContext) : MessagePriority :=
  match c with
  | CellToZone => match p with Low => Normal | Normal => High | High | Critical => Critical end
  | IntraCell | ZoneToCell | IntraZone => p
  end.

Definition can_preempt (p other : MessagePriority) : bool := priority_num other <? priority_num p.

Definition bandwidth_multiplier (p : MessagePriority) : spec_float :=
  match p with
  | Low => f32_lit 1 2
  | Normal => f32_of_Z 1
  | High => f32_lit 3 2
  | Critical => f32_of_Z 2
  end.

(** ** Messages *)

Inductive CellMessageType (J : Type) :=
| Join (node_id : string) (capabilities : list Capability)
| Leave (node_id reason : string)
| CapabilityAnnounce (node_id : string) (capabilities : list Capability)
| LeaderAnnounce (leader_id : string) (election_round : Z)
| Heartbeat (node_id : string)
| RoleAssigned (node_id : string) (role : CellRole) (score : spec_float) (is_primary : bool)
| StatusUpdate (node_id : string) (status : J)
| Ack (message_seq : Z)
| Nack (message_seq : Z) (reason : string).

Arguments Join {J}. Arguments Leave {J}. Arguments CapabilityAnnounce {J}.
Arguments LeaderAnnounce {J}. Arguments Heartbeat {J}. Arguments RoleAssigned {J}.
Arguments StatusUpdate {J}. Arguments Ack {J}. Arguments Nack {J}.

Record CellMessage (J : Type) := mkCellMessage {
  message_id : string;
  seq : Z;
  sender : string;
  cm_cell_id : string;
  cm_priority : MessagePriority;
  routing_context : RoutingContext;
  payload : CellMessageType J;
  cm_timestamp : Z;
  ttl : Z
}.

Arguments mkCellMessage {J}. Arguments message_id {J}. Arguments seq {J}. Arguments sender {J}.
Arguments cm_cell_id {J}. Arguments cm_priority {J}. Arguments routing_context {J}.
Arguments payload {J}. Arguments cm_timestamp {J}. Arguments ttl {J}.

Inductive DeliveryStatus := Pending | Delivered | Acknowledged | DeliveryFailed.

#[export] Instance DeliveryStatus_eq_dec : EqDecision DeliveryStatus.
Proof. solve_decision. Defined.

Record TrackedMessage (J : Type) := mkTrackedMessage {
  message : CellMessage J;
  status : DeliveryStatus;
  retry_count : Z;
  last_send : Z
}.

Arguments mkTrackedMessage {J}. Arguments message {J}. Arguments status {J}.
Arguments retry_count {J}. Arguments last_send {J}.

(** [H] is the type of the subscribed handlers. *)
Record CellMessageBus (J H : Type) := mkCellMessageBus {
  bus_cell_id : string;
  bus_node_id : string;
  next_seq : Z;
  outbound_queue : list (CellMessage J);
  tracked_messages : gmap Z (TrackedMessage J);
  received_seqs : gmap string Z;
  subscribers : list H;
  retry_timeout : Z;
  max_retries : Z
}.

Arguments mkCellMessageBus {J H}. Arguments bus_cell_id {J H}. Arguments bus_node_id {J H}.
Arguments next_seq {J H}. Arguments outbound_queue {J H}. Arguments tracked_messages {J H}.
Arguments received_seqs {J H}. Arguments subscribers {J H}. Arguments retry_timeout {J H}.
Arguments max_retries {J H}.

Record MessageBusStats := mkMessageBusStats {
  pending_outbound : Z; stat_tracked : Z; unique_senders : Z; subscriber_count : Z; stat_next_seq : Z
}.

Section Messages.
Context {J : Type}.

Definition cell_message_new (sender cell_id : string) (seq : Z) (payload : CellMessageType J) (now : Z) : CellMessage J :=
  mkCellMessage (sender +:+ "-" +:+ pretty seq) seq sender cell_id Normal IntraCell payload now 30.

Definition with_priority (m : CellMessage J) (p : MessagePriority) : CellMessage J :=
  mkCellMessage (message_id m) (seq m) (sender m) (cm_cell_id m) p (routing_context m) (payload m) (cm_timestamp m) (ttl m).

Definition with_routing_context (m : CellMessage J) (c : RoutingContext) : CellMessage J :=
  mkCellMessage (message_id m) (seq m) (sender m) (cm_cell_id m) (cm_priority m) c (payload m) (cm_timestamp m) (ttl m).

Definition with_ttl (m : CellMessage J) (t : Z) : CellMessage J :=
  mkCellMessage (message_id m) (seq m) (sender m) (cm_cell_id m) (cm_priority m) (routing_context m) (payload m) (cm_timestamp m) t.

Definition effective_priority (m : CellMessage J) : MessagePriority :=
  escalate (cm_priority m) (routing_context m).

Definition escalate_priority (m : CellMessage J) : CellMessage J := with_priority m (effective_priority m).

Definition is_expired (m : CellMessage J) (now : Z) : bool :=
  ttl m <? saturating_sub now (cm_timestamp m).

Definition role_assignment (sender cell_id : string) (seq : Z) (node_id : string) (r : CellRole)
    (score : spec_float) (is_primary : bool) (now : Z) : CellMessage J :=
  with_priority (cell_message_new sender cell_id seq (RoleAssigned node_id r score is_primary) now) High.

End Messages.

(** ** The bus *)

Section Bus.
Context {J H S : Type} (run : H -> CellMessage J -> S -> result Error unit * S).

Definition bus_new (cell_id node_id : string) : CellMessageBus J H :=
  mkCellMessageBus cell_id node_id 1 [] ∅ ∅ [] (2 * 10 ^ 9) 3.

Definition subscribe (b : CellMessageBus J H) (h : H) : CellMessageBus J H :=
  mkCellMessageBus (bus_cell_id b) (bus_node_id b) (next_seq b) (outbound_queue b)
    (tracked_messages b) (received_seqs b) (subscribers b ++ [h]) (retry_timeout b) (max_retries b).

Definition publish (b : CellMessageBus J H) (p : CellMessageType J) (now inst : Z) :
    option (Z * CellMessageBus J H) :=
  let s := next_seq b in
  next ← checked (s + 1);
  let m := cell_message_new (bus_node_id b) (bus_cell_id b) s p now in
  let queue := sort_by (cmp_desc (fun m => priority_num (cm_priority m))) (outbound_queue b ++ [m]) in
  Some (s, mkCellMessageBus (bus_cell_id b) (bus_node_id b) next queue
             (<[s := mkTrackedMessage m Pending 0 inst]> (tracked_messages b))
             (received_seqs b) (subscribers b) (retry_timeout b) (max_retries b)).

Definition set_received (b : CellMessageBus J H) (r : gmap string Z) : CellMessageBus J H :=
  mkCellMessageBus (bus_cell_id b) (bus_node_id b) (next_seq b) (outbound_queue b)
    (tracked_messages b) r (subscribers b) (retry_timeout b) (max_retries b).

Definition set_tracked (b : CellMessageBus J H) (t : gmap Z (TrackedMessage J)) : CellMessageBus J H :=
  mkCellMessageBus (bus_cell_id b) (bus_node_id b) (next_seq b) (outbound_queue b)
    t (received_seqs b) (subscribers b) (retry_timeout b) (max_retries b).

(** [message.seq <= last_seq] for a sender already heard *)
Definition is_duplicate (b : CellMessageBus J H) (m : CellMessage J) : bool :=
  match received_seqs b !! sender m with
  | Some last_seq => seq m <=? last_seq
  | None => false
  end.

(** The errors of the handlers are logged and dropped. *)
Definition call_subscribers (l : list H) (m : CellMessage J) (s : S) : S :=
  fold_left (fun s h => snd (run h m s)) l s.

(** The first part of [deliver], under the lock of [received_seqs]: whether the message goes
    on to the subscribers *)
Definition record_received (b : CellMessageBus J H) (m : CellMessage J) (now : Z) : bool * CellMessageBus J H :=
  if is_expired m now then (false, b)
  else if is_duplicate b m then (false, b)
  else (true, set_received b (<[sender m := seq m]> (received_seqs b))).

(** [deliver] without a concurrent call: the subscribers are called in a second critical
    section. *)
Definition deliver (b : CellMessageBus J H) (m : CellMessage J) (now : Z) (s : S) : CellMessageBus J H * S :=
  let '(fresh, b) := record_received b m now in
  if fresh then (b, call_subscribers (subscribers b) m s) else (b, s).

Definition acknowledge (b : CellMessageBus J H) (message_seq : Z) : CellMessageBus J H :=
  set_tracked b (alter (fun t => mkTrackedMessage (message t) Acknowledged (retry_count t) (last_send t))
                   message_seq (tracked_messages b)).

(** One entry of the retransmission pass: its new state and whether it is resent *)
Definition retry (b : CellMessageBus J H) (inst : Z) (t : TrackedMessage J) : TrackedMessage J * bool :=
  if decide (status t = Acknowledged) then (t, false)
  else if retry_timeout b <=? saturating_sub inst (last_send t) then
    if max_retries b <=? retry_count t then
      (mkTrackedMessage (message t) DeliveryFailed (retry_count t) (last_send t), false)
    else (mkTrackedMessage (message t) Delivered (retry_count t + 1) inst, true)
  else (t, false).

Definition settled (t : TrackedMessage J) : Prop := status t = Acknowledged \/ status t = DeliveryFailed.

#[export] Instance settled_dec t : Decision (settled t).
Proof. unfold settled. apply _. Defined.

(** The resent messages come in the iteration order of the hash map. *)
Definition process_retransmissions (b : CellMessageBus J H) (inst : Z) : list (CellMessage J) * CellMessageBus J H :=
  let to_retry := omap (fun kt => if snd (retry b inst kt.2) then Some (message kt.2) else None)
                    (map_to_list (tracked_messages b)) in
  let tracked := filter (fun kt => ~ settled kt.2) ((fun t => fst (retry b inst t)) <$> tracked_messages b) in
  (to_retry, set_tracked b tracked).

Definition get_pending_messages (b : CellMessageBus J H) : list (CellMessage J) * CellMessageBus J H :=
  (outbound_queue b,
   mkCellMessageBus (bus_cell_id b) (bus_node_id b) (next_seq b) [] (tracked_messages b)
     (received_seqs b) (subscribers b) (retry_timeout b) (max_retries b)).

Definition bus_stats (b : CellMessageBus J H) : MessageBusStats :=
  mkMessageBusStats (len (outbound_queue b)) (Z.of_nat (size (tracked_messages b)))
    (Z.of_nat (size (received_seqs b))) (len (subscribers b)) (next_seq b).

End Bus.

(** ** Delivery *)

Section Delivery.
Context {J H S : Type} (run : H -> CellMessage J -> S -> result Error unit * S).
Implicit Types (b : CellMessageBus J H) (m : CellMessage J).

Definition accepts b m (now : Z) : bool := negb (is_expired m now) && negb (is_duplicate b m).

Definition accept b m : CellMessageBus J H := set_received b (<[sender m := seq m]> (received_seqs b)).

Lemma deliver_accepts b m now (s : S) :
  deliver run b m now s =
  if accepts b m now then (accept b m, call_subscribers run (subscribers b) m s) else (b, s).
Proof. unfold deliver, record_received, accepts. by destruct (is_expired m now), (is_duplicate b m). Qed.

Lemma record_accepts b m now : record_received b m now = if accepts b m now then (true, accept b m) else (false, b).
Proof. unfold record_received, accepts. by destruct (is_expired m now), (is_duplicate b m). Qed.

(** Messages arriving one after the other, each at its time *)
Definition deliver_all b (l : list (CellMessage J * Z)) (s : S) : CellMessageBus J H * S :=
  fold_left (fun bs mn => deliver run (fst bs) (fst mn) (snd mn) (snd bs)) l (b, s).

(** The ones the subscribers get to see *)
Fixpoint accepted b (l : list (CellMessage J * Z)) : list (CellMessage J) :=
  match l with
  | [] => []
  | (m, now) :: l => if accepts b m now then m :: accepted (accept b m) l else accepted b l
  end.

Lemma deliver_all_accepted b l (s : S) :
  snd (deliver_all b l s) = fold_left (fun s m => call_subscribers run (subscribers b) m s) (accepted b l) s.
Proof.
  revert b s; induction l as [|[m now] l IH]; intros b s; [done|].
  unfold deliver_all in *. simpl. rewrite deliver_accepts. destruct (accepts b m now); simpl; [|apply IH].
  rewrite IH. done.
Qed.

(** The last sequence number heard from a sender only grows, and everything accepted
    from then on is above it. *)
Lemma accepted_above b l p k m :
  received_seqs b !! p = Some k -> m ∈ accepted b l -> sender m = p -> k < seq m.
Proof.
  revert b k; induction l as [|[m' now] l IH]; intros b k Hk; simpl; [by intros ?%not_elem_of_nil|].
  destruct (accepts b m' now) eqn:E; [|by apply IH].
  unfold accepts, is_duplicate in E. apply andb_true_iff in E as [_ E%negb_true_iff].
  intros [->|Hm]%elem_of_cons Hs.
  - subst p. rewrite Hk in E. apply Z.leb_gt in E. lia.
  - destruct (decide (sender m' = p)) as [<-|Hne].
    + rewrite Hk in E. apply Z.leb_gt in E.
      pose proof (IH (accept b m') (seq m') ltac:(apply lookup_insert_eq) Hm Hs). lia.
    + eapply IH; [|done|done]. simpl. by rewrite lookup_insert_ne.
Qed.

(** Without overlap the messages of a sender are accepted in the order of their numbers. *)
Lemma accepted_sorted b l p : StronglySorted Z.lt (seq <$> filter (fun m => sender m = p) (accepted b l)).
Proof.
  revert b. induction l as [|[m now] l IH]; intros b; [constructor|]. simpl.
  destruct (accepts b m now) eqn:E; [|apply IH].
  destruct (decide (sender m = p)) as [Hs|Hs].
  - rewrite filter_cons_True by done. rewrite fmap_cons. constructor; [apply IH|].
    apply Forall_fmap, Forall_forall. intros m' [Hs' Hin]%list_elem_of_filter. simpl.
    eapply accepted_above; [|done|done]. subst p. apply lookup_insert_eq.
  - rewrite filter_cons_False by done. apply IH.
Qed.

(** *** Overlapping deliveries

    Threads that deliver at the same time share the bus and what the handlers change. A
    message that passed the first section waits in [in_flight] for its thread to take the
    lock of the subscribers; [calls] is what the subscribers have been called with. *)
Record Shared := mkShared {
  sh_bus : CellMessageBus J H;
  sh_state : S;
  in_flight : list (CellMessage J);
  calls : list (list H * CellMessage J)
}.

Definition start_delivery (x : Shared) m (now : Z) : Shared :=
  let '(fresh, b) := record_received (sh_bus x) m now in
  mkShared b (sh_state x) (if fresh then in_flight x ++ [m] else in_flight x) (calls x).

Definition finish_delivery (x : Shared) m (rest : list (CellMessage J)) : Shared :=
  let subs := subscribers (sh_bus x) in
  mkShared (sh_bus x) (call_subscribers run subs m (sh_state x)) rest (calls x ++ [(subs, m)]).

Inductive deliver_step : Shared -> Shared -> Prop :=
| step_start x m now : deliver_step x (start_delivery x m now)
| step_finish x l1 m l2 : in_flight x = l1 ++ m :: l2 -> deliver_step x (finish_delivery x m (l1 ++ l2))
| step_subscribe x h : deliver_step x (mkShared (subscribe (sh_bus x) h) (sh_state x) (in_flight x) (calls x)).

Definition identity m : string * Z := (sender m, seq m).

Record shared_ok (s0 : S) (x : Shared) : Prop := {
  ok_state : sh_state x = fold_left (fun s c => call_subscribers run (fst c) (snd c) s) (calls x) s0;
  ok_once : NoDup (identity <$> ((snd <$> calls x) ++ in_flight x));
  ok_heard m : m ∈ (snd <$> calls x) ++ in_flight x -> exists k, received_seqs (sh_bus x) !! sender m = Some k /\ seq m <= k
}.

Lemma start_ok s0 x m now : shared_ok s0 x -> shared_ok s0 (start_delivery x m now).
Proof.
  intros [Hs Ho Hh]. unfold start_delivery. rewrite record_accepts. destruct (accepts (sh_bus x) m now) eqn:E; [|by split].
  unfold accepts, is_duplicate in E. apply andb_true_iff in E as [_ E%negb_true_iff]. split; cbn [sh_state in_flight calls sh_bus].
  - done.
  - rewrite app_assoc, fmap_app. apply NoDup_app. split_and!; [done| |apply NoDup_singleton].
    intros i (m' & -> & Hm')%list_elem_of_fmap Hi. cbn in Hi. apply list_elem_of_singleton in Hi.
    unfold identity in Hi. injection Hi as Hi1 Hi2. destruct (Hh m' Hm') as (k & Hk & Hle). rewrite <- Hi1, Hk in E.
    apply Z.leb_gt in E. lia.
  - intros m'. rewrite app_assoc, elem_of_app, list_elem_of_singleton. cbn [accept received_seqs set_received].
    destruct (decide (sender m' = sender m)) as [Es|Es].
    + rewrite Es, lookup_insert_eq. intros [Hm'| ->]; [|by eexists]. destruct (Hh m' Hm') as (k & Hk & Hle).
      rewrite Es in Hk. rewrite Hk in E. apply Z.leb_gt in E. exists (seq m). split; [done|lia].
    + rewrite lookup_insert_ne by done. intros [Hm'| ->]; [by apply Hh|done].
Qed.

Lemma finish_ok s0 x l1 m l2 : in_flight x = l1 ++ m :: l2 -> shared_ok s0 x -> shared_ok s0 (finish_delivery x m (l1 ++ l2)).
Proof.
  intros El [Hs Ho Hh]. rewrite El in Ho, Hh.
  assert ((snd <$> calls x ++ [(subscribers (sh_bus x), m)]) ++ l1 ++ l2 ≡ₚ (snd <$> calls x) ++ l1 ++ m :: l2) as Hp
    by (rewrite fmap_app; cbn; rewrite <- app_assoc; cbn; by rewrite Permutation_middle).
  split; cbn [finish_delivery sh_state in_flight calls sh_bus].
  - rewrite fold_left_app. cbn. by rewrite Hs.
  - by rewrite Hp.
  - intros m'. rewrite Hp. apply Hh.
Qed.

Lemma shared_reachable b0 s0 x : rtc deliver_step (mkShared b0 s0 [] []) x -> shared_ok s0 x.
Proof.
  revert x. refine (rtc_ind_r _ _ _ _).
  - split; [done|constructor|]. intros m Hm. by apply not_elem_of_nil in Hm.
  - intros x y _ Hstep Hx. destruct Hstep; [by apply start_ok|by apply finish_ok|]. destruct Hx. by split.
Qed.

(** C9: however the two critical sections of overlapping deliveries interleave, the
    handlers have run on exactly the messages of [calls], and no message of a sender is
    passed to them twice or will be. Without overlap they are called with the accepted
    messages of each sender in the strictly increasing order of their numbers,
    duplicates and delays included. *)
Theorem delivery_in_order_at_most_once b (s : S) :
  (forall x, rtc deliver_step (mkShared b s [] []) x ->
     sh_state x = fold_left (fun s c => call_subscribers run (fst c) (snd c) s) (calls x) s /\
     NoDup (identity <$> ((snd <$> calls x) ++ in_flight x))) /\
  (forall l, snd (deliver_all b l s) = fold_left (fun s m => call_subscribers run (subscribers b) m s) (accepted b l) s /\
     forall p, StronglySorted Z.lt (seq <$> filter (fun m => sender m = p) (accepted b l))).
Proof.
  split.
  - intros x Hx. by destruct (shared_reachable b s x Hx).
  - intros l. split; [apply deliver_all_accepted|]. intros p. apply accepted_sorted.
Qed.

(** Two overlapping deliveries can call the subscribers in the opposite order of the
    numbers of their messages. *)
Theorem overlapping_deliveries_reorder b (s : S) m1 m2 now :
  received_seqs b !! sender m1 = None -> sender m2 = sender m1 -> seq m1 < seq m2 ->
  is_expired m1 now = false -> is_expired m2 now = false ->
  exists x, rtc deliver_step (mkShared b s [] []) x /\ snd <$> calls x = [m2; m1].
Proof.
  intros Hr Hs Hlt He1 He2.
  assert (accepts b m1 now = true) as A1 by (unfold accepts, is_duplicate; by rewrite He1, Hr).
  assert (accepts (accept b m1) m2 now = true) as A2.
  { unfold accepts, is_duplicate. cbn [accept received_seqs set_received]. rewrite He2, Hs, lookup_insert_eq.
    by rewrite (proj2 (Z.leb_gt _ _)). }
  set (x0 := mkShared b s [] []).
  assert (start_delivery x0 m1 now = mkShared (accept b m1) s [m1] []) as E1
    by (unfold start_delivery; rewrite record_accepts; change (sh_bus x0) with b; by rewrite A1).
  set (x1 := mkShared (accept b m1) s [m1] []) in *.
  assert (start_delivery x1 m2 now = mkShared (accept (accept b m1) m2) s [m1; m2] []) as E2
    by (unfold start_delivery; rewrite record_accepts; change (sh_bus x1) with (accept b m1); by rewrite A2).
  set (x2 := mkShared (accept (accept b m1) m2) s [m1; m2] []) in *.
  exists (finish_delivery (finish_delivery x2 m2 [m1]) m1 []). split; [|done].
  eapply rtc_l; [apply (step_start x0 m1 now)|]. rewrite E1. eapply rtc_l; [apply (step_start x1 m2 now)|]. rewrite E2.
  eapply rtc_l; [by apply (step_finish x2 [m1] m2 [])|]. apply rtc_once. by apply (step_finish _ [] m1 []).
Qed.

(** A message that arrives after a later one of the same sender is lost for good: no
    retransmission of it is ever delivered, whatever arrives in between. *)
Theorem overtaken_message_never_delivered b l m k :
  received_seqs b !! sender m = Some k -> seq m <= k -> m ∉ accepted b l.
Proof. intros Hk Hle Hin. pose proof (accepted_above b l (sender m) k m Hk Hin eq_refl). lia. Qed.

End Delivery.

(** ** Publishing and retransmission *)

Section Retransmission.
Context {J H S : Type} (run : H -> CellMessage J -> S -> result Error unit * S).
Implicit Types (b : CellMessageBus J H) (m : CellMessage J) (out : list (CellMessage J)).

(** The life of a bus, with everything it retransmitted so far *)
Inductive bus_run : CellMessageBus J H -> list (CellMessage J) -> Prop :=
| run_new c n : bus_run (bus_new c n) []
| run_subscribe b out h : bus_run b out -> bus_run (subscribe b h) out
| run_publish b out p now inst s b' :
    bus_run b out -> publish b p now inst = Some (s, b') -> bus_run b' out
| run_deliver b out m now s : bus_run b out -> bus_run (fst (deliver run b m now s)) out
| run_acknowledge b out k : bus_run b out -> bus_run (acknowledge b k) out
| run_retransmit b out inst :
    bus_run b out -> bus_run (snd (process_retransmissions b inst)) (out ++ fst (process_retransmissions b inst))
| run_drain b out : bus_run b out -> bus_run (snd (get_pending_messages b)) out.

(** How often a sequence number was retransmitted *)
Definition sent (k : Z) out : Z := len (filter (fun m => seq m = k) out).

Record bus_ok b out : Prop := {
  bo_next : 0 < next_seq b;
  bo_max : max_retries b = 3;
  bo_tracked k t : tracked_messages b !! k = Some t ->
    seq (message t) = k /\ k < next_seq b /\ retry_count t <= 3 /\ sent k out = retry_count t;
  bo_sent k : sent k out <= 3;
  bo_fresh k : next_seq b <= k -> sent k out = 0;
  bo_queue : StronglySorted Z.lt (seq <$> outbound_queue b);
  bo_queued m : m ∈ outbound_queue b -> seq m < next_seq b /\ cm_priority m = Normal
}.

Lemma sent_app k o1 o2 : sent k (o1 ++ o2) = sent k o1 + sent k o2.
Proof. unfold sent. by rewrite filter_app, len_app. Qed.

(** A pass over tracked messages resends a message at most once. *)
Lemma sent_pass (f : TrackedMessage J -> bool) (l : list (Z * TrackedMessage J)) k :
  NoDup l.*1 -> (forall k t, (k, t) ∈ l -> seq (message t) = k) ->
  let out := omap (fun kt => if f kt.2 then Some (message kt.2) else None) l in
  (forall t, (k, t) ∈ l -> sent k out = if f t then 1 else 0) /\ (k ∉ l.*1 -> sent k out = 0).
Proof.
  cbv zeta. set (g := fun kt : Z * TrackedMessage J => if f kt.2 then Some (message kt.2) else None).
  induction l as [|[k' t'] l IH]; intros Hnd Hseq.
  { split; [intros t Ht; by apply not_elem_of_nil in Ht|done]. }
  apply NoDup_cons in Hnd as [Hk' Hnd]. destruct (IH Hnd) as [IH1 IH2]; [intros; apply Hseq; by right|].
  assert (seq (message t') = k') as Hs by (apply Hseq; by left).
  assert (forall o, sent k (message t' :: o) = (if decide (k' = k) then 1 else 0) + sent k o) as Hcons.
  { intros o. unfold sent. rewrite filter_cons, Hs. case_decide; unfold len; simpl; lia. }
  assert (omap g ((k', t') :: l) = if f t' then message t' :: omap g l else omap g l) as ->
    by (unfold g; simpl; by destruct (f t')).
  split.
  - intros t [[= -> ->]|Hin]%elem_of_cons.
    + specialize (IH2 Hk'). destruct (f t'); rewrite ?Hcons, IH2; [by rewrite decide_True|done].
    + assert (k' <> k) by (intros ->; apply Hk', list_elem_of_fmap; by exists (k, t)).
      rewrite <- (IH1 t Hin). destruct (f t'); [|done]. rewrite Hcons, decide_False by done. lia.
  - rewrite fmap_cons, not_elem_of_cons. simpl. intros [Hne Hin]. specialize (IH2 Hin).
    destruct (f t'); [|done]. rewrite Hcons, decide_False by done. lia.
Qed.

Lemma sent_retransmit b inst k :
  (forall k t, tracked_messages b !! k = Some t -> seq (message t) = k) ->
  sent k (fst (process_retransmissions b inst)) =
  match tracked_messages b !! k with Some t => if snd (retry b inst t) then 1 else 0 | None => 0 end.
Proof.
  intros Hseq. unfold process_retransmissions. simpl.
  destruct (sent_pass (fun t => snd (retry b inst t)) (map_to_list (tracked_messages b)) k) as [H1 H2].
  - apply NoDup_fst_map_to_list.
  - intros k' t Ht%elem_of_map_to_list. by apply Hseq.
  - destruct (tracked_messages b !! k) as [t|] eqn:E.
    + by apply H1, elem_of_map_to_list.
    + apply H2. intros ([k' t] & -> & Ht%elem_of_map_to_list)%list_elem_of_fmap. simpl in E. congruence.
Qed.

Lemma publish_ok b out p now inst s b' :
  bus_ok b out -> publish b p now inst = Some (s, b') -> bus_ok b' out.
Proof.
  intros [Hn Hm Ht Hs Hf Hq Hqd]. unfold publish, checked. case_decide as Hu; simpl; [|done].
  intros; simplify_eq. set (m := cell_message_new _ _ _ p now).
  assert (forall m', m' ∈ outbound_queue b ++ [m] -> cm_priority m' = Normal) as Hprio.
  { intros m' [Hin| ->%list_elem_of_singleton]%elem_of_app; [by apply Hqd|done]. }
  rewrite sort_by_same.
  2: { intros x y Hx Hy. unfold cmp_desc. by rewrite !Hprio. }
  split; simpl; [lia|done| |done| | |].
  - intros k t. destruct (decide (k = next_seq b)) as [->|Hne].
    + rewrite lookup_insert_eq. intros; simplify_eq. simpl. rewrite Hf by lia. lia.
    + rewrite lookup_insert_ne by done. intros Hk. destruct (Ht k t Hk) as (? & ? & ? & ?). split_and!; [done|lia|done|done].
  - intros k Hk. apply Hf. lia.
  - rewrite fmap_app. simpl. apply StronglySorted_app_2; [|done|by repeat constructor].
    intros x y Hx%list_elem_of_fmap ->%list_elem_of_singleton. destruct Hx as (m' & -> & Hin). by apply Hqd.
  - intros m' [Hin| ->%list_elem_of_singleton]%elem_of_app; [|simpl; split; [lia|done]].
    destruct (Hqd _ Hin). split; [lia|done].
Qed.

Lemma retransmit_ok b out inst :
  bus_ok b out ->
  bus_ok (snd (process_retransmissions b inst)) (out ++ fst (process_retransmissions b inst)).
Proof.
  intros [Hn Hm Ht Hs Hf Hq Hqd].
  assert (forall k, sent k (out ++ fst (process_retransmissions b inst)) = sent k out +
    match tracked_messages b !! k with Some t => if snd (retry b inst t) then 1 else 0 | None => 0 end) as Hsent.
  { intros k. rewrite sent_app, sent_retransmit; [done|]. intros k' t Hk. by apply Ht. }
  assert (forall k t, tracked_messages b !! k = Some t -> sent k out + (if snd (retry b inst t) then 1 else 0) <= 3 /\
    retry_count (fst (retry b inst t)) = retry_count t + (if snd (retry b inst t) then 1 else 0) /\
    message (fst (retry b inst t)) = message t) as Hretry.
  { intros k t Hk. destruct (Ht k t Hk) as (_ & _ & Hle & Heq). unfold retry. rewrite Hm, Heq.
    repeat (case_decide || bool_arith); simpl; split_and!; try done; lia. }
  split; [done|done| | | |done|done].
  - intros k t'. cbn [process_retransmissions snd set_tracked tracked_messages next_seq].
    rewrite map_lookup_filter_Some, lookup_fmap. intros [Hk _].
    destruct (tracked_messages b !! k) as [t|] eqn:E; [|done]. simpl in Hk. simplify_eq.
    destruct (Ht k t E) as (Hseq & Hlt & Hle & Heq). destruct (Hretry k t E) as (H1 & H2 & H3).
    pose proof (Hsent k) as Hk. rewrite E in Hk. rewrite Hk, H2, H3. split_and!; [done|done|lia|lia].
  - intros k. rewrite Hsent. destruct (tracked_messages b !! k) as [t|] eqn:E; [by apply Hretry|].
    specialize (Hs k). lia.
  - intros k Hk. rewrite Hsent. destruct (tracked_messages b !! k) as [t|] eqn:E; [|rewrite Hf by done; lia].
    destruct (Ht k t E) as (_ & Hlt & _). simpl in Hk. lia.
Qed.

Lemma bus_run_ok b out : bus_run b out -> bus_ok b out.
Proof.
  induction 1 as [c n|b out h _ IH|b out p now inst s b' _ IH Hp|b out m now s _ IH|b out k _ IH
    |b out inst _ IH|b out _ IH].
  - split; simpl; try done; [constructor|intros m Hm; by apply not_elem_of_nil in Hm].
  - by destruct IH; split.
  - by eapply publish_ok.
  - rewrite deliver_accepts. destruct (accepts b m now); [|done]. by destruct IH; split.
  - destruct IH as [Hn Hm Ht Hs Hf Hq Hqd]. split; try done. simpl. intros k' t.
    destruct (decide (k' = k)) as [->|Hne]; [rewrite lookup_alter_eq|rewrite lookup_alter_ne by done; by apply Ht].
    destruct (tracked_messages b !! k) as [t0|] eqn:E; [|done]. simpl. intros; simplify_eq. by apply (Ht k t0 E).
  - by apply retransmit_ok.
  - destruct IH. split; simpl; try done; [constructor|intros m Hm; by apply not_elem_of_nil in Hm].
Qed.

(** Whatever happens, a bus retransmits a message at most three times, and the
    retry counter of a tracked message is the number of times it was. *)
Theorem retransmissions_bounded b out k :
  bus_run b out -> sent k out <= 3 /\
  (forall t, tracked_messages b !! k = Some t -> sent k out = retry_count t /\ seq (message t) = k).
Proof.
  intros [_ _ Ht Hs _ _ _]%bus_run_ok. split; [done|]. intros t Hk. by destruct (Ht k t Hk) as (? & _ & _ & ?).
Qed.

(** The priority-ordered outbound queue is first in, first out: everything published
    has normal priority, leader announcements and heartbeats included, so sorting by
    priority never reorders, and the sequence numbers of the queue increase. *)
Theorem outbound_queue_is_fifo b out p now inst s b' :
  bus_run b out -> publish b p now inst = Some (s, b') ->
  (exists m, outbound_queue b' = outbound_queue b ++ [m] /\ payload m = p /\ seq m = s /\ cm_priority m = Normal) /\
  StronglySorted Z.lt (seq <$> outbound_queue b').
Proof.
  intros Hb Hp. pose proof (bus_run_ok b' out ltac:(by eapply run_publish)) as [_ _ _ _ _ Hq _].
  apply bus_run_ok in Hb as [_ _ _ _ _ _ Hqd]. split; [|done].
  revert Hp. unfold publish, checked. case_decide; simpl; [|done]. intros; simplify_eq.
  exists (cell_message_new (bus_node_id b) (bus_cell_id b) (next_seq b) p now).
  split; [|by split_and!]. simpl. apply sort_by_same.
  assert (forall m, m ∈ outbound_queue b ++ [cell_message_new (bus_node_id b) (bus_cell_id b) (next_seq b) p now] ->
    cm_priority m = Normal) as Hprio.
  { intros m [Hin| ->%list_elem_of_singleton]%elem_of_app; [by apply Hqd|done]. }
  intros x y Hx Hy. unfold cmp_desc. by rewrite !Hprio.
Qed.

(** A retransmission pass settles every overdue message: it is resent if it has
    retries left and given up otherwise, acknowledged messages are forgotten, and the
    others are left alone. *)
Theorem retransmission_pass_spec b inst k t :
  tracked_messages b !! k = Some t ->
  let b' := snd (process_retransmissions b inst) in
  let overdue := retry_timeout b <= saturating_sub inst (last_send t) in
  (status t = Acknowledged -> tracked_messages b' !! k = None) /\
  (~ settled t -> overdue -> retry_count t < max_retries b ->
    tracked_messages b' !! k = Some (mkTrackedMessage (message t) Delivered (retry_count t + 1) inst) /\
    message t ∈ fst (process_retransmissions b inst)) /\
  (~ settled t -> overdue -> max_retries b <= retry_count t -> tracked_messages b' !! k = None) /\
  (~ settled t -> ~ overdue -> tracked_messages b' !! k = Some t).
Proof.
  intros Hk. cbv zeta.
  assert (forall t', fst (retry b inst t) = t' -> ~ settled t' ->
    tracked_messages (snd (process_retransmissions b inst)) !! k = Some t') as Hkeep.
  { intros t' Ht Hs. simpl. rewrite map_lookup_filter_Some, lookup_fmap, Hk. simpl. by rewrite Ht. }
  assert (settled (fst (retry b inst t)) -> tracked_messages (snd (process_retransmissions b inst)) !! k = None) as Hdrop.
  { intros Hs. simpl. apply map_lookup_filter_None. right. rewrite lookup_fmap, Hk. simpl. intros ? [= <-] Hc. by apply Hc. }
  unfold retry in *. split_and!.
  - intros Ha. apply Hdrop. rewrite decide_True by done. by left.
  - intros Hs Ho Hr. rewrite decide_False in Hkeep by (intros ?; apply Hs; by left).
    rewrite (proj2 (Z.leb_le _ _) Ho), (proj2 (Z.leb_gt _ _) Hr) in Hkeep.
    split; [apply Hkeep; [done|by intros [?|?]]|]. simpl. apply list_elem_of_omap.
    exists (k, t). split; [by apply elem_of_map_to_list|]. simpl. unfold retry.
    rewrite decide_False by (intros ?; apply Hs; by left).
    by rewrite (proj2 (Z.leb_le _ _) Ho), (proj2 (Z.leb_gt _ _) Hr).
  - intros Hs Ho Hr. apply Hdrop. rewrite decide_False by (intros ?; apply Hs; by left).
    rewrite (proj2 (Z.leb_le _ _) Ho), (proj2 (Z.leb_le _ _) Hr). by right.
  - intros Hs Ho. apply Hkeep; [|done]. rewrite decide_False by (intros ?; apply Hs; by left).
    by rewrite (proj2 (Z.leb_gt _ _) (proj1 (Z.nle_gt _ _) Ho)).
Qed.

End Retransmission.

(** ** Concrete runs *)

Definition log_run (h : unit) (m : CellMessage unit) (s : list Z) : result Error unit * list Z :=
  (Ok tt, s ++ [seq m]).

Definition bus0 : CellMessageBus unit unit := bus_new "c1" "n1".

Definition bus1 : CellMessageBus unit unit :=
  match publish bus0 (Heartbeat "n1") 100 0 with Some (_, b) => b | None => bus0 end.

Definition bus2 : CellMessageBus unit unit :=
  match publish bus1 (LeaderAnnounce "n1" 1) 100 0 with Some (_, b) => b | None => bus1 end.

Definition nth_message (n : nat) : CellMessage unit :=
  default (cell_message_new "" "" 0 (Heartbeat "") 0) (outbound_queue bus2 !! n).

(** The receiver after the second message arrived, the first one lost on the way *)
Definition receiver : CellMessageBus unit unit :=
  fst (deliver log_run (subscribe (bus_new "c1" "n2") tt) (nth_message 1) 101 []).

(** Three seconds later the sender retransmits both. *)
Definition resent : list (CellMessage unit) := fst (process_retransmissions bus2 (3 * 10 ^ 9)).

Lemma overtaken_message_never_delivered_witness :
  map seq resent = [2; 1] /\ nth_message 0 ∉ accepted receiver (map (fun m => (m, 103)) resent).
Proof.
  split; [vm_compute; reflexivity|].
  apply (overtaken_message_never_delivered receiver (map (fun m => (m, 103)) resent) (nth_message 0) 2);
    vm_compute; congruence.
Defined.

(** Two threads deliver the two messages at the same time; the second finishes first. *)
Definition listening : CellMessageBus unit unit := subscribe (bus_new "c1" "n2") tt.
Definition overlapped : Shared (J := unit) (H := unit) (S := list Z) :=
  let x := start_delivery (start_delivery (mkShared listening [] [] []) (nth_message 0) 101) (nth_message 1) 101 in
  finish_delivery log_run x (nth_message 1) [nth_message 0].

Lemma overlapped_run : rtc (deliver_step log_run) (mkShared listening [] [] []) overlapped.
Proof.
  eapply rtc_l; [apply (step_start _ _ (nth_message 0) 101)|]. eapply rtc_l; [apply (step_start _ _ (nth_message 1) 101)|].
  apply rtc_once. apply (step_finish _ _ [nth_message 0] (nth_message 1) []). vm_compute. reflexivity.
Qed.

Lemma delivery_in_order_at_most_once_witness :
  sh_state overlapped = [2] /\ NoDup (identity <$> ((snd <$> calls overlapped) ++ in_flight overlapped)).
Proof.
  split; [vm_compute; reflexivity|]. apply (delivery_in_order_at_most_once log_run listening []). exact overlapped_run.
Defined.

Lemma overlapping_deliveries_reorder_witness :
  exists x, rtc (deliver_step log_run) (mkShared listening [] [] []) x /\ snd <$> calls x = [nth_message 1; nth_message 0].
Proof. apply (overlapping_deliveries_reorder log_run listening [] (nth_message 0) (nth_message 1) 101); vm_compute; reflexivity. Defined.

Lemma bus2_run : bus_run log_run bus2 [].
Proof.
  apply (run_publish _ bus1 [] (LeaderAnnounce "n1" 1) 100 0 2); [|vm_compute; reflexivity].
  apply (run_publish _ bus0 [] (Heartbeat "n1") 100 0 1); [|vm_compute; reflexivity]. apply run_new.
Qed.

Lemma retransmissions_bounded_witness :
  sent 1 ([] ++ resent) <= 3.
Proof.
  destruct (retransmissions_bounded log_run (snd (process_retransmissions bus2 (3 * 10 ^ 9))) ([] ++ resent) 1) as [H _].
  - apply (run_retransmit log_run bus2 [] (3 * 10 ^ 9)). exact bus2_run.
  - exact H.
Defined.

Lemma outbound_queue_is_fifo_witness :
  exists b', publish bus2 (Heartbeat "n1") 101 0 = Some (3, b') /\ StronglySorted Z.lt (seq <$> outbound_queue b').
Proof.
  destruct (publish bus2 (Heartbeat "n1") 101 0) as [[s b']|] eqn:E; [|vm_compute in E; congruence].
  destruct (outbound_queue_is_fifo log_run bus2 [] (Heartbeat "n1") 101 0 s b' bus2_run E) as [_ H].
  exists b'. split; [|exact H]. assert (s = 3) as ->; [|reflexivity].
  unfold publish in E. vm_compute in E. congruence.
Defined.

Lemma retransmission_pass_spec_witness :
  exists t, tracked_messages bus2 !! 2 = Some t /\ message t ∈ resent.
Proof.
  destruct (tracked_messages bus2 !! 2) as [t|] eqn:E; [|vm_compute in E; congruence].
  exists t. split; [reflexivity|].
  destruct (retransmission_pass_spec bus2 (3 * 10 ^ 9) 2 t E) as (_ & H & _ & _).
  vm_compute in E. injection E as <-. apply H.
  - unfold settled. simpl. intuition congruence.
  - vm_compute. congruence.
  - vm_compute. reflexivity.
Defined.
