(* ===== verification/Election.v ===== *)
(** * Leader election

    Models peat-protocol/src/cell/leader_election.rs. A manager belongs to one node
    of a cell and publishes on the node's message bus ([Messaging]). The handlers
    return no error, since publishing does not; [None] is the panic of an overflow
    of the round number or of the bus's sequence numbers. [now] is the wall clock
    in seconds, [inst] the monotonic clock in nanoseconds. *)

From Stdlib Require Import SpecFloat.
From S2P Require Import Prelude Float Error Capability Operator Node Router Messaging.

Open Scope Z_scope.

Inductive ElectionState := Candidate | Leader | Follower.

#[export] Instance ElectionState_eq_dec : EqDecision ElectionState.
Proof. solve_decision. Defined.

(** ** Scores *)

Record LeadershipScore := mkLeadershipScore {
  compute : spec_float;
  communication : spec_float;
  sensors : spec_float;
  power : spec_float;
  reliability : spec_float;
  total : spec_float
}.

(** The accumulators [compute], [communication] and [sensors] of the loop *)
Definition analyze (acc : spec_float * spec_float * spec_float) (c : Capability) : spec_float * spec_float * spec_float :=
  let '(comp, comm, sens) := acc in
  match get_capability_type c with
  | Compute => (f32_as_f64 (confidence c), comm, sens)
  | Communication => (comp, f32_as_f64 (confidence c), sens)
  | Sensor => (comp, comm, add64 sens (f64_lit 1 4))
  | _ => acc
  end.

Definition from_capabilities (caps : list Capability) : LeadershipScore :=
  let '(comp, comm, sens) := fold_left analyze caps (f64_of_Z 0, f64_of_Z 0, f64_of_Z 0) in
  let power := f64_of_Z 1 in
  let reliability := f64_of_Z 1 in
  let sens := float_min sens (f64_of_Z 1) in
  let total :=
    add64 (add64 (add64 (add64 (mul64 comp (f64_lit 30 100)) (mul64 comm (f64_lit 25 100)))
      (mul64 sens (f64_lit 20 100))) (mul64 power (f64_lit 15 100))) (mul64 reliability (f64_lit 10 100)) in
  mkLeadershipScore comp comm sens power reliability total.

Definition compare_scores (self other : LeadershipScore) (my_id other_id : string) : comparison :=
  match SFcompare (total self) (total other) with
  | Some Eq => String.compare my_id other_id
  | Some ordering => ordering
  | None => String.compare my_id other_id
  end.

(** ** Rounds and heartbeats *)

Record ElectionRound := mkElectionRound {
  round : Z;
  round_started_at : Z;
  candidates : gmap string LeadershipScore
}.

Definition election_round_new (r now : Z) : ElectionRound := mkElectionRound r now ∅.

Record LeaderHeartbeat := mkLeaderHeartbeat {
  hb_leader_id : string;
  last_heartbeat : Z;
  missed_count : Z
}.

Definition heartbeat_new (leader : string) (inst : Z) : LeaderHeartbeat := mkLeaderHeartbeat leader inst 0.

Definition heartbeat_update (hb : LeaderHeartbeat) (inst : Z) : LeaderHeartbeat :=
  mkLeaderHeartbeat (hb_leader_id hb) inst 0.

Definition is_failed (hb : LeaderHeartbeat) (interval max_missed inst : Z) : bool :=
  interval * max_missed <? saturating_sub inst (last_heartbeat hb).

(** ** The manager *)

Record LeaderElectionManager (J H : Type) := mkManager {
  mgr_cell_id : string;
  mgr_node_id : string;
  message_bus : CellMessageBus J H;
  state : ElectionState;
  current_round : ElectionRound;
  my_score : LeadershipScore;
  current_leader : option string;
  leader_heartbeat : option LeaderHeartbeat;
  election_timeout : Z;
  heartbeat_interval : Z;
  max_missed_heartbeats : Z
}.

Arguments mkManager {J H}. Arguments mgr_cell_id {J H}. Arguments mgr_node_id {J H}.
Arguments message_bus {J H}. Arguments state {J H}. Arguments current_round {J H}.
Arguments my_score {J H}. Arguments current_leader {J H}. Arguments leader_heartbeat {J H}.
Arguments election_timeout {J H}. Arguments heartbeat_interval {J H}. Arguments max_missed_heartbeats {J H}.

Section Manager.
Context {J H : Type}.
Implicit Types (g : LeaderElectionManager J H).

Definition secs (n : Z) : Z := n * 10 ^ 9.

Definition manager_new (cell_id node_id : string) (bus : CellMessageBus J H) (caps : list Capability) (now : Z) :
    LeaderElectionManager J H :=
  mkManager cell_id node_id bus Candidate (election_round_new 1 now) (from_capabilities caps) None None
    (secs 5) (secs 2) 3.

Definition set_bus g (b : CellMessageBus J H) : LeaderElectionManager J H :=
  mkManager (mgr_cell_id g) (mgr_node_id g) b (state g) (current_round g) (my_score g) (current_leader g)
    (leader_heartbeat g) (election_timeout g) (heartbeat_interval g) (max_missed_heartbeats g).

Definition set_round g (r : ElectionRound) : LeaderElectionManager J H :=
  mkManager (mgr_cell_id g) (mgr_node_id g) (message_bus g) (state g) r (my_score g) (current_leader g)
    (leader_heartbeat g) (election_timeout g) (heartbeat_interval g) (max_missed_heartbeats g).

Definition set_state g (s : ElectionState) (leader : option string) (hb : option LeaderHeartbeat) :
    LeaderElectionManager J H :=
  mkManager (mgr_cell_id g) (mgr_node_id g) (message_bus g) s (current_round g) (my_score g) leader
    hb (election_timeout g) (heartbeat_interval g) (max_missed_heartbeats g).

Definition announce_candidacy g (r now inst : Z) : option (LeaderElectionManager J H) :=
  '(_, bus) ← publish (message_bus g) (LeaderAnnounce (mgr_node_id g) r) now inst;
  Some (set_bus g bus).

Definition start_election g (now inst : Z) : option (LeaderElectionManager J H) :=
  let r := current_round g in
  let g := set_round g (mkElectionRound (round r) (round_started_at r) (<[mgr_node_id g := my_score g]> (candidates r))) in
  announce_candidacy g (round r) now inst.

(** [leader_id > self.node_id] *)
Definition should_follow_leader g (leader_id : string) : bool :=
  match String.compare leader_id (mgr_node_id g) with Gt => true | _ => false end.

Definition handle_leader_announce g (leader_id : string) (r inst : Z) : LeaderElectionManager J H :=
  if r <? round (current_round g) then g
  else if decide (state g <> Candidate) then g
  else if should_follow_leader g leader_id then
    set_state g Follower (Some leader_id) (Some (heartbeat_new leader_id inst))
  else g.

Definition handle_heartbeat g (node_id : string) (inst : Z) : LeaderElectionManager J H :=
  match current_leader g with
  | Some leader_id =>
      if decide (node_id = leader_id) then
        match leader_heartbeat g with
        | Some hb => set_state g (state g) (current_leader g) (Some (heartbeat_update hb inst))
        | None => g
        end
      else g
  | None => g
  end.

Definition process_election_message g (m : CellMessage J) (inst : Z) : LeaderElectionManager J H :=
  match payload m with
  | LeaderAnnounce leader_id r => handle_leader_announce g leader_id r inst
  | Heartbeat node_id => handle_heartbeat g node_id inst
  | _ => g
  end.

Definition trigger_reelection g (now inst : Z) : option (LeaderElectionManager J H) :=
  let g := set_state g Candidate None None in
  r ← checked_u32 (round (current_round g) + 1);
  announce_candidacy (set_round g (election_round_new r now)) r now inst.

Definition check_leader_failure g (now inst : Z) : option (bool * LeaderElectionManager J H) :=
  match leader_heartbeat g with
  | Some hb =>
      if is_failed hb (heartbeat_interval g) (max_missed_heartbeats g) inst then
        g ← trigger_reelection g now inst; Some (true, g)
      else Some (false, g)
  | None => Some (false, g)
  end.

Definition send_heartbeat_if_leader g (now inst : Z) : option (LeaderElectionManager J H) :=
  if decide (state g = Leader) then
    '(_, bus) ← publish (message_bus g) (Heartbeat (mgr_node_id g)) now inst;
    Some (set_bus g bus)
  else Some g.

Definition get_state g : ElectionState := state g.
Definition get_leader g : option string := current_leader g.
Definition get_round g : Z := round (current_round g).

Definition set_as_leader g : LeaderElectionManager J H :=
  set_state g Leader (Some (mgr_node_id g)) (leader_heartbeat g).

End Manager.

(** ** Scores are between zero and one *)

Local Abbreviation nonneg := (nonneg 53 1024).
Local Abbreviation value := (value 1024).
Local Opaque Float.ulp.

Definition confidence_ok (c : Capability) : Prop :=
  Float.nonneg 24 128 (confidence c) /\ SFleb (confidence c) f32_one = true.

(** Numbers from zero to [b] *)
Definition upto (b x : spec_float) : Prop := nonneg x /\ finite x /\ value x <= value b.

Lemma confidence_upto c : confidence_ok c -> upto (f64_of_Z 1) (f32_as_f64 (confidence c)).
Proof.
  intros [Hn Hle]. set (x := confidence c) in *. clearbody x. clear c.
  assert (Float.nonneg 24 128 f32_one) as H1 by (vm_compute; auto).
  rewrite (SFleb_value 24 128) in Hle by (lia || done). apply Z.leb_le in Hle.
  assert (finite x) as Fx.
  { destruct (nonneg_cases 24 128 ltac:(lia) ltac:(lia) x Hn) as [->|[E|(m & e & -> & _)]]; [done| |done].
    exfalso. rewrite E in Hle. apply Z.leb_le in Hle. vm_compute in Hle. congruence. }
  destruct (f32_as_f64_value x Hn Fx) as (Hn' & Ff & Hv). split_and!; [done|done|].
  assert (Float.value 128 f32_one = ulp 128 0) as E1 by (apply Z.eqb_eq; vm_compute; reflexivity).
  assert (value (f64_of_Z 1) = ulp 1024 0) as E2 by (apply Z.eqb_eq; vm_compute; reflexivity).
  rewrite E1 in Hle. rewrite E2.
  pose proof (ulp_pos 128 0 ltac:(unfold scale; lia)). pose proof (ulp_pos 1024 0 ltac:(unfold scale; lia)). nia.
Qed.

Lemma add64_upto a b x y :
  upto a x -> upto b y -> nonneg a -> nonneg b -> value a + value b <= ulp 1024 1 -> upto (add64 a b) (add64 x y).
Proof.
  intros (Hx & Fx & Lx) (Hy & Fy & Ly) Ha Hb Hle.
  destruct (SFadd_le 53 1024 ltac:(lia) ltac:(lia) x y a b 1 Hx Hy Ha Hb Lx Ly) as (? & ? & ?);
    [rewrite emin_eq; lia|done|]. by split_and!.
Qed.

Lemma mul64_upto a c x :
  upto a x -> nonneg a -> finite a -> nonneg c -> finite c ->
  value a * value c <= ulp 1024 1 * ulp 1024 0 -> upto (mul64 a c) (mul64 x c).
Proof.
  intros (Hx & Fx & Lx) Ha Fa Hc Fc Hle.
  destruct (SFmul_le 53 1024 ltac:(lia) ltac:(lia) x c a 1 Hx Fx Hc Fc Ha Fa Lx) as (? & ? & ?);
    [rewrite emin_eq; lia|done|]. by split_and!.
Qed.

Lemma upto_self b : nonneg b -> finite b -> upto b b.
Proof. intros. split_and!; [done|done|lia]. Qed.

Lemma analyze_ok caps acc :
  Forall confidence_ok caps ->
  upto (f64_of_Z 1) acc.1.1 -> upto (f64_of_Z 1) acc.1.2 -> nonneg acc.2 ->
  let acc' := fold_left analyze caps acc in
  upto (f64_of_Z 1) acc'.1.1 /\ upto (f64_of_Z 1) acc'.1.2 /\ nonneg acc'.2.
Proof.
  intros Hcaps. revert acc. induction Hcaps as [|c caps Hc _ IH]; intros [[comp comm] sens] H1 H2 H3; [by split_and!|].
  cbn [fst snd fold_left] in *. apply IH; unfold analyze; destruct (get_capability_type c); cbn [fst snd]; try done.
  1-2: by apply confidence_upto.
  apply (rounds_nonneg 53 1024 _ _ (SFadd_rounds 53 1024 ltac:(lia) ltac:(lia) _ (f64_lit 1 4) H3 ltac:(vm_compute; auto))).
Qed.

Lemma upto_unit_leb x : upto (f64_of_Z 1) x -> SFleb (f64_of_Z 0) x = true /\ SFleb x (f64_of_Z 1) = true.
Proof.
  intros (Hx & Fx & Lx). pose proof (value_nonneg 53 1024 ltac:(lia) ltac:(lia) x Hx).
  assert (nonneg (f64_of_Z 1)) by (vm_compute; auto).
  rewrite !(SFleb_value 53 1024) by (lia || done). by rewrite !Z.leb_le.
Qed.

(** Concrete side conditions on constants *)
Ltac float_side := first [vm_compute; by auto | apply Z.leb_le; vm_compute; reflexivity].

(** C12: from capabilities whose confidences are between zero and one, a leadership score
    is between zero and one, in all its parts and in the weighted total: rounding in
    the sum does not lift it above one. *)
Theorem leadership_score_bounded caps :
  Forall confidence_ok caps ->
  let s := from_capabilities caps in
  Forall (fun x => SFleb (f64_of_Z 0) x = true /\ SFleb x (f64_of_Z 1) = true)
    [compute s; communication s; sensors s; power s; reliability s; total s].
Proof.
  intros Hcaps. cbv zeta. unfold from_capabilities.
  assert (upto (f64_of_Z 1) (f64_of_Z 0)) as H0 by (split_and!; float_side).
  assert (upto (f64_of_Z 1) (f64_of_Z 1)) as H1 by (apply upto_self; float_side).
  pose proof (analyze_ok caps (f64_of_Z 0, f64_of_Z 0, f64_of_Z 0) Hcaps H0 H0 eq_refl) as (Hc & Hm & Hs).
  destruct (fold_left analyze caps _) as [[comp comm] sens]. simpl fst in *. simpl snd in *.
  assert (upto (f64_of_Z 1) (float_min sens (f64_of_Z 1))) as Hs'.
  { destruct H1 as (Hn1 & F1 & _). rewrite (float_min_value 53 1024) by (lia || done).
    destruct (Z.ltb_spec (value (f64_of_Z 1)) (value sens)); [by split_and!|]. split_and!; [done| |done].
    destruct (nonneg_cases 53 1024 ltac:(lia) ltac:(lia) sens Hs) as [->|[->|(m & e & -> & _)]]; [done| |done].
    exfalso. apply Z.leb_le in H. vm_compute in H. congruence. }
  set (sens' := float_min sens (f64_of_Z 1)) in *.
  assert (upto (f64_of_Z 1)
    (add64 (add64 (add64 (add64 (mul64 comp (f64_lit 30 100)) (mul64 comm (f64_lit 25 100)))
      (mul64 sens' (f64_lit 20 100))) (mul64 (f64_of_Z 1) (f64_lit 15 100))) (mul64 (f64_of_Z 1) (f64_lit 10 100)))) as Htot.
  { replace (f64_of_Z 1) with
      (add64 (add64 (add64 (add64 (mul64 (f64_of_Z 1) (f64_lit 30 100)) (mul64 (f64_of_Z 1) (f64_lit 25 100)))
        (mul64 (f64_of_Z 1) (f64_lit 20 100))) (mul64 (f64_of_Z 1) (f64_lit 15 100))) (mul64 (f64_of_Z 1) (f64_lit 10 100)))
      at 1 by (vm_compute; reflexivity).
    repeat (apply add64_upto; [..|float_side|float_side|float_side]).
    all: apply mul64_upto; [done|float_side..]. }
  simpl compute. simpl communication. simpl sensors. simpl power. simpl reliability. simpl total.
  repeat constructor; by apply upto_unit_leb.
Qed.

(** Comparing scores with the node identifier as a tie-break is a strict total order on
    the candidates: it is antisymmetric and transitive, and two candidates compare
    equal only if they have the same identifier. *)
Theorem compare_scores_total_order s1 s2 s3 a b c :
  nonneg (total s1) -> nonneg (total s2) -> nonneg (total s3) ->
  compare_scores s2 s1 b a = CompOpp (compare_scores s1 s2 a b) /\
  (compare_scores s1 s2 a b = Lt -> compare_scores s2 s3 b c = Lt -> compare_scores s1 s3 a c = Lt) /\
  (compare_scores s1 s2 a b = Eq -> a = b).
Proof.
  intros H1 H2 H3. unfold compare_scores. rewrite !(SFcompare_value 53 1024) by (lia || done).
  rewrite (Z.compare_antisym (value (total s1))). split_and!.
  - rewrite (String.compare_antisym a b). by destruct (value (total s1) ?= value (total s2)), (String.compare b a).
  - destruct (Z.compare_spec (value (total s1)) (value (total s2))) as [E1|L1|G1],
      (Z.compare_spec (value (total s2)) (value (total s3))) as [E2|L2|G2]; try done; intros Ha Hb.
    + rewrite E1, E2, Z.compare_refl. by eapply str_lt_trans.
    + by rewrite E1, (proj2 (Z.compare_lt_iff _ _) L2).
    + by rewrite <- E2, (proj2 (Z.compare_lt_iff _ _) L1).
    + rewrite (proj2 (Z.compare_lt_iff (value (total s1)) (value (total s3)))) by lia. done.
  - destruct (value (total s1) ?= value (total s2)); try done. by intros ?%String.compare_eq_iff.
Qed.

(** ** The protocol *)

Section Protocol.
Context {J H : Type}.
Implicit Types (g : LeaderElectionManager J H).

(** The life of a manager: [allowed] are the messages it may receive, [override]
    whether an operator may set it as leader. *)
Inductive reachable (allowed : CellMessage J -> Prop) (override : bool) : LeaderElectionManager J H -> Prop :=
| reach_new cell node caps now : reachable allowed override (manager_new cell node (bus_new cell node) caps now)
| reach_start g now inst g' :
    reachable allowed override g -> start_election g now inst = Some g' -> reachable allowed override g'
| reach_message g m inst :
    reachable allowed override g -> allowed m -> reachable allowed override (process_election_message g m inst)
| reach_check g now inst r g' :
    reachable allowed override g -> check_leader_failure g now inst = Some (r, g') -> reachable allowed override g'
| reach_beat g now inst g' :
    reachable allowed override g -> send_heartbeat_if_leader g now inst = Some g' -> reachable allowed override g'
| reach_drain g :
    reachable allowed override g -> reachable allowed override (set_bus g (snd (get_pending_messages (message_bus g))))
| reach_override g : reachable allowed override g -> override = true -> reachable allowed override (set_as_leader g).

(** What a manager's fields say about each other *)
Definition leader_ok g : Prop :=
  match state g with
  | Candidate => current_leader g = None /\ leader_heartbeat g = None
  | Follower => exists l hb, current_leader g = Some l /\ leader_heartbeat g = Some hb /\
      hb_leader_id hb = l /\ String.compare (mgr_node_id g) l = Lt
  | Leader => current_leader g = Some (mgr_node_id g)
  end.

(** Nothing of the election changes but the bus. *)
Definition same_election g g' : Prop :=
  mgr_node_id g' = mgr_node_id g /\ state g' = state g /\ current_leader g' = current_leader g /\
  leader_heartbeat g' = leader_heartbeat g /\ round (current_round g') = round (current_round g) /\
  heartbeat_interval g' = heartbeat_interval g /\ max_missed_heartbeats g' = max_missed_heartbeats g.

Lemma announce_same g r now inst g' : announce_candidacy g r now inst = Some g' -> same_election g g'.
Proof. unfold announce_candidacy. destruct (publish _ _ _ _) as [[? ?]|]; simpl; intros; by simplify_eq. Qed.

Lemma start_same g now inst g' : start_election g now inst = Some g' -> same_election g g'.
Proof. intros Hs%announce_same. exact Hs. Qed.

Lemma beat_same g now inst g' : send_heartbeat_if_leader g now inst = Some g' -> same_election g g'.
Proof.
  unfold send_heartbeat_if_leader. case_decide; [|by intros; simplify_eq].
  destruct (publish _ _ _ _) as [[? ?]|]; simpl; intros; by simplify_eq.
Qed.

(** The three outcomes of the failure check *)
Lemma check_cases g now inst r g' :
  check_leader_failure g now inst = Some (r, g') ->
  (r = false /\ g' = g) \/
  (r = true /\ is_Some (leader_heartbeat g) /\ mgr_node_id g' = mgr_node_id g /\
   state g' = Candidate /\ current_leader g' = None /\ leader_heartbeat g' = None /\
   round (current_round g') = round (current_round g) + 1 /\
   heartbeat_interval g' = heartbeat_interval g /\ max_missed_heartbeats g' = max_missed_heartbeats g).
Proof.
  unfold check_leader_failure, trigger_reelection, checked_u32.
  destruct (leader_heartbeat g) as [hb|]; [|intros; simplify_eq; by left].
  destruct (is_failed _ _ _ _); [|intros; simplify_eq; by left].
  case_decide; simpl; [|done]. destruct (announce_candidacy _ _ _ _) as [g1|] eqn:E; simpl; [|done].
  intros; simplify_eq. apply announce_same in E as (E1 & E2 & E3 & E4 & E5 & E6 & E7). right.
  split_and!; try done.
Qed.

Lemma process_same_id g m inst : mgr_node_id (process_election_message g m inst) = mgr_node_id g.
Proof.
  unfold process_election_message, handle_leader_announce, handle_heartbeat.
  destruct (payload m); try done; repeat case_match; done.
Qed.

Lemma process_leader_ok g m inst : leader_ok g -> leader_ok (process_election_message g m inst).
Proof.
  intros Hok. unfold process_election_message. destruct (payload m); try done.
  - unfold handle_leader_announce, should_follow_leader. destruct (_ <? _); [done|]. case_decide; [done|].
    destruct (String.compare leader_id (mgr_node_id g)) eqn:E; try done.
    exists leader_id, (heartbeat_new leader_id inst). split_and!; try done. by apply str_gt_lt.
  - unfold handle_heartbeat. destruct (current_leader g) as [l|] eqn:El; [|done]. case_decide; [|done]. subst.
    destruct (leader_heartbeat g) as [hb|] eqn:Eh; [|done]. unfold leader_ok in *. simpl.
    rewrite El, Eh in Hok. destruct (state g); [by destruct Hok|done|].
    destruct Hok as (l0 & hb' & ? & ? & ? & ?). simplify_eq. by exists (hb_leader_id hb'), (heartbeat_update hb' inst).
Qed.

Lemma same_leader_ok g g' : same_election g g' -> leader_ok g -> leader_ok g'.
Proof. intros (E1 & E2 & E3 & E4 & _). unfold leader_ok. by rewrite E1, E2, E3, E4. Qed.

Lemma reachable_leader_ok allowed override g : reachable allowed override g -> leader_ok g.
Proof.
  induction 1 as [|g now inst g' _ IH Hs|g m inst _ IH _|g now inst r g' _ IH Hc|g now inst g' _ IH Hb|g _ IH|g _ IH _].
  - by split.
  - by eapply same_leader_ok; [eapply start_same|].
  - by apply process_leader_ok.
  - apply check_cases in Hc as [[_ ->]|(_ & _ & _ & Hs & Hl & Hh & _)]; [done|]. unfold leader_ok. by rewrite Hs.
  - by eapply same_leader_ok; [eapply beat_same|].
  - done.
  - done.
Qed.

(** ** No two nodes follow each other *)

(** A cell: the managers by node identifier *)
Definition cell_ok (cell : gmap string (LeaderElectionManager J H)) : Prop :=
  map_Forall (fun id g => mgr_node_id g = id /\ exists allowed override, reachable allowed override g) cell.

Definition follows (cell : gmap string (LeaderElectionManager J H)) (a b : string) : Prop :=
  exists g, cell !! a = Some g /\ get_state g = Follower /\ get_leader g = Some b.

(** C10: in every reachable state of a cell, under any loss, delay, duplication or forgery
    of messages, the chain of leaders strictly climbs the node identifiers: no cycle of
    nodes follows itself. *)
Theorem following_is_acyclic cell a b :
  cell_ok cell -> tc (follows cell) a b -> String.compare a b = Lt.
Proof.
  intros Hok. assert (forall x y, follows cell x y -> String.compare x y = Lt) as Hstep.
  { intros x y (g & Hg & Hs & Hl). destruct (Hok x g Hg) as (<- & allowed & override & Hr).
    apply reachable_leader_ok in Hr. unfold leader_ok, get_state, get_leader in *. rewrite Hs in Hr.
    destruct Hr as (l & hb & Hl' & _ & _ & Hlt). congruence. }
  induction 1 as [x y Hxy|x y z Hxy _ IH]; [by apply Hstep|].
  eapply str_lt_trans; [by apply Hstep|done].
Qed.

(** ** Failure detection *)

(** C11: a follower gives its leader up exactly when its last heartbeat is more than six
    seconds old; it is then a candidate of the next round without a leader and has
    announced itself. A failure check changes nothing before that. *)
Theorem failure_detection g hb now inst :
  leader_heartbeat g = Some hb -> heartbeat_interval g = secs 2 -> max_missed_heartbeats g = 3 ->
  is_u32 (get_round g + 1) -> is_u64 (next_seq (message_bus g) + 1) -> last_heartbeat hb <= inst ->
  if decide (inst - last_heartbeat hb <= secs 6) then check_leader_failure g now inst = Some (false, g)
  else exists g', check_leader_failure g now inst = Some (true, g') /\ get_state g' = Candidate /\
    get_leader g' = None /\ leader_heartbeat g' = None /\ get_round g' = get_round g + 1 /\
    exists m, m ∈ outbound_queue (message_bus g') /\ payload m = LeaderAnnounce (mgr_node_id g) (get_round g').
Proof.
  intros Hh Hi Hm Hr Hs Hle. unfold check_leader_failure, is_failed. rewrite Hh, Hi, Hm.
  unfold secs, saturating_sub in *. case_decide.
  - by rewrite (proj2 (Z.ltb_ge _ _)) by lia.
  - rewrite (proj2 (Z.ltb_lt _ _)) by lia. unfold trigger_reelection, checked_u32. simpl.
    rewrite decide_True by done. simpl. unfold announce_candidacy, publish. simpl. rewrite checked_Some by done. simpl.
    eexists. split; [done|]. unfold get_state, get_leader, get_round. simpl. split_and!; [done..|].
    exists (cell_message_new (bus_node_id (message_bus g)) (bus_cell_id (message_bus g)) (next_seq (message_bus g))
      (LeaderAnnounce (mgr_node_id g) (round (current_round g) + 1)) now).
    split; [|done]. rewrite sort_by_perm, elem_of_app, list_elem_of_singleton. by right.
Qed.

(** ** What the protocol does not do *)

(** Without an operator's override no node ever becomes leader and none sends a
    heartbeat: the protocol has no step from candidate to leader. *)
Theorem protocol_elects_no_leader allowed g now inst :
  reachable allowed false g -> get_state g <> Leader /\ send_heartbeat_if_leader g now inst = Some g.
Proof.
  intros Hr. assert (state g <> Leader) as Hs.
  { induction Hr as [|g n i g' _ IH Hs|g m i _ IH _|g n i r g' _ IH Hc|g n i g' _ IH Hb|g _ IH|g _ IH Ho]; try done.
    - apply start_same in Hs as (_ & -> & _). done.
    - unfold process_election_message. destruct (payload m); try done.
      + unfold handle_leader_announce. by repeat case_match.
      + unfold handle_heartbeat. by repeat case_match.
    - apply check_cases in Hc as [[_ ->]|(_ & _ & _ & -> & _)]; done.
    - apply beat_same in Hb as (_ & -> & _). done. }
  split; [done|]. unfold send_heartbeat_if_leader. by rewrite decide_False.
Qed.

(** The messages of a cell in which [top] is the greatest identifier *)
Definition below (top : string) (m : CellMessage J) : Prop :=
  match payload m with LeaderAnnounce l _ => String.compare l top <> Gt | _ => True end.

Lemma publish_queue b p now inst s (b' : CellMessageBus J H) (P : CellMessage J -> Prop) :
  publish b p now inst = Some (s, b') -> Forall P (outbound_queue b) ->
  P (cell_message_new (bus_node_id b) (bus_cell_id b) (next_seq b) p now) -> Forall P (outbound_queue b').
Proof.
  unfold publish, checked. case_decide; simpl; [|done]. intros; simplify_eq. simpl.
  rewrite sort_by_perm. apply Forall_app. split; [done|by apply Forall_singleton].
Qed.

(** The node with the greatest identifier stays a candidate of the first round. *)
Lemma top_stays top g :
  reachable (below top) false g -> mgr_node_id g = top ->
  state g = Candidate /\ current_leader g = None /\ leader_heartbeat g = None /\ round (current_round g) = 1 /\
  Forall (fun m => payload m = LeaderAnnounce top 1) (outbound_queue (message_bus g)).
Proof.
  induction 1 as [|g n i g' _ IH Hs|g m i _ IH Hm|g n i r g' _ IH Hc|g n i g' _ IH Hb|g _ IH|g _ IH Ho]; intros Hid.
  - simpl. by split_and!.
  - pose proof Hs as (E1 & E2 & E3 & E4 & E5 & _)%start_same. rewrite E1 in Hid.
    destruct (IH Hid) as (? & ? & ? & Hr & Hq). rewrite E2, E3, E4, E5. split_and!; try done.
    revert Hs. unfold start_election, announce_candidacy. simpl.
    destruct (publish _ _ _ _) as [[s b']|] eqn:E; simpl; [|done]. intros; simplify_eq. simpl.
    eapply publish_queue; [done|done|]. simpl. by rewrite Hr.
  - rewrite process_same_id in Hid. destruct (IH Hid) as (Hs & Hl & Hh & Hr & Hq).
    assert (process_election_message g m i = g) as ->; [|by split_and!].
    unfold process_election_message, below in *. destruct (payload m); try done.
    + unfold handle_leader_announce, should_follow_leader. rewrite Hid. repeat case_match; done.
    + unfold handle_heartbeat. by rewrite Hl.
  - pose proof (check_cases _ _ _ _ _ Hc) as [[_ ->]|(_ & [hb Hhb] & Hid' & _)]; [by apply IH|].
    rewrite Hid' in Hid. destruct (IH Hid) as (_ & _ & Hh & _). congruence.
  - pose proof Hb as (E1 & _)%beat_same. rewrite E1 in Hid. specialize (IH Hid).
    unfold send_heartbeat_if_leader in Hb. rewrite decide_False in Hb by (by destruct IH as [-> _]). by simplify_eq.
  - destruct (IH Hid) as (? & ? & ? & ? & _). by split_and!.
  - done.
Qed.

(** A node that has once given up its leader never follows the rightful winner again:
    the node with the greatest identifier of the cell stays a candidate of round one,
    everything it announces carries round one, and a node of a later round ignores
    it, for ever. *)
Theorem reelected_node_ignores_winner top winner m g inst :
  reachable (below top) false winner -> mgr_node_id winner = top ->
  m ∈ outbound_queue (message_bus winner) -> 1 < get_round g ->
  process_election_message g m inst = g.
Proof.
  intros Hw Hid Hm Hr. destruct (top_stays top winner Hw Hid) as (_ & _ & _ & _ & Hq).
  rewrite Forall_forall in Hq. unfold process_election_message. rewrite (Hq m Hm).
  unfold handle_leader_announce, get_round in *. by rewrite (proj2 (Z.ltb_lt _ _)) by lia.
Qed.

(** The choice of a leader does not look at the scores: a candidate follows an
    announcement of its round or a later one exactly when the announcer's identifier is
    greater than its own, whatever the capabilities of the two nodes are. *)
Theorem election_ignores_scores g leader_id r inst :
  get_state g = Candidate ->
  get_state (handle_leader_announce g leader_id r inst) =
  (if decide (get_round g <= r /\ String.compare (mgr_node_id g) leader_id = Lt) then Follower else Candidate).
Proof.
  unfold get_state, get_round, handle_leader_announce, should_follow_leader. intros Hs.
  destruct (Z.ltb_spec r (round (current_round g))); [rewrite decide_False by lia; done|].
  rewrite (decide_False (P := state g <> Candidate)) by (by intros ?).
  destruct (String.compare leader_id (mgr_node_id g)) eqn:E.
  - rewrite decide_False; [done|]. intros [_ Hlt]. apply str_gt_lt in Hlt. congruence.
  - rewrite decide_False; [done|]. intros [_ Hlt]. apply str_gt_lt in Hlt. congruence.
  - rewrite decide_True; [done|]. split; [lia|]. by apply str_gt_lt.
Qed.

End Protocol.

(** ** Concrete runs *)

Definition radio : Capability := capability_new "r" "radio" Communication (f32_lit 3 4).

Definition node (id : string) : LeaderElectionManager unit unit := manager_new "c1" id (bus_new "c1" id) [radio] 100.

Definition started (id : string) : LeaderElectionManager unit unit :=
  default (node id) (start_election (node id) 100 0).

(** The announcement of node [n2] *)
Definition announcement : CellMessage unit :=
  default (cell_message_new "" "" 0 (Heartbeat "") 0) (head (outbound_queue (message_bus (started "n2")))).

Definition follower : LeaderElectionManager unit unit := process_election_message (node "n1") announcement 0.

Lemma radio_ok : Forall confidence_ok [radio].
Proof. repeat constructor; vm_compute; auto. Qed.

Lemma leadership_score_bounded_witness :
  SFleb (total (from_capabilities [radio])) (f64_of_Z 1) = true.
Proof.
  pose proof (leadership_score_bounded [radio] radio_ok) as Hb. cbv zeta in Hb.
  rewrite !Forall_cons in Hb. destruct Hb as (_ & _ & _ & _ & _ & [_ Hb] & _). exact Hb.
Defined.

Lemma compare_scores_total_order_witness :
  compare_scores (from_capabilities [radio]) (from_capabilities [radio]) "n2" "n1" =
  CompOpp (compare_scores (from_capabilities [radio]) (from_capabilities [radio]) "n1" "n2").
Proof.
  apply (compare_scores_total_order (from_capabilities [radio]) (from_capabilities [radio])
    (from_capabilities [radio]) "n1" "n2" "n3"); vm_compute; auto.
Defined.

Lemma follower_reachable : reachable (fun _ => True) false follower.
Proof. apply reach_message; [apply reach_new|exact I]. Qed.

Lemma following_is_acyclic_witness :
  tc (follows {["n1" := follower]}) "n1" "n2" /\ String.compare "n1" "n2" = Lt.
Proof.
  assert (tc (follows {["n1" := follower]}) "n1" "n2") as Ht.
  { apply tc_once. exists follower. split_and!; vm_compute; reflexivity. }
  split; [exact Ht|]. apply (following_is_acyclic {["n1" := follower]}); [|exact Ht].
  apply map_Forall_singleton. split; [vm_compute; reflexivity|].
  exists (fun _ => True), false. exact follower_reachable.
Defined.

Lemma failure_detection_witness :
  check_leader_failure follower 106 (secs 6) = Some (false, follower) /\
  exists g', check_leader_failure follower 107 (secs 6 + 1) = Some (true, g') /\ get_state g' = Candidate.
Proof.
  split.
  - apply (failure_detection follower (heartbeat_new "n2" 0) 106 (secs 6)); vm_compute; intuition congruence.
  - destruct (failure_detection follower (heartbeat_new "n2" 0) 107 (secs 6 + 1)) as (g' & Hc & Hs & _);
      [vm_compute; intuition congruence..|]. exists g'. exact (conj Hc Hs).
Defined.

Lemma protocol_elects_no_leader_witness :
  get_state (started "n2") <> Leader.
Proof.
  apply (protocol_elects_no_leader (below "n2") (started "n2") 101 0).
  apply (reach_start _ _ (node "n2") 100 0); [apply reach_new|vm_compute; reflexivity].
Defined.

(** The follower after it gave up its leader *)
Definition reelected : LeaderElectionManager unit unit :=
  match check_leader_failure follower 107 (secs 7) with Some (_, g) => g | None => follower end.

Lemma reelected_node_ignores_winner_witness :
  get_round reelected = 2 /\ process_election_message reelected announcement (secs 8) = reelected.
Proof.
  split; [vm_compute; reflexivity|].
  apply (reelected_node_ignores_winner "n2" (started "n2") announcement reelected (secs 8)).
  - apply (reach_start _ _ (node "n2") 100 0); [apply reach_new|vm_compute; reflexivity].
  - vm_compute. reflexivity.
  - apply list_elem_of_In. vm_compute. tauto.
  - vm_compute. reflexivity.
Defined.

Lemma election_ignores_scores_witness :
  get_state (handle_leader_announce (node "n1") "n2" 1 0) = Follower.
Proof. rewrite (election_ignores_scores (node "n1") "n2" 1 0); vm_compute; reflexivity. Defined.
