(* ===== verification/Transmitter.v ===== *)
(** * Event transmitter

    Models peat-protocol/src/event/transmitter.rs: four event queues with size
    limits, an overflow policy, and a token bucket per priority. The arrays of four
    are functions of the priority. Time is as in [Flow]: [jitter] gives the delay
    before each reading of the clock. [None] is a panic: a failed assertion or an
    arithmetic overflow. *)

From Stdlib Require Import SpecFloat Init.Byte.
From S2P Require Import Prelude Float Capability EventQueue Flow.

Open Scope Z_scope.

#[export] Instance EventPriority_eq_dec : EqDecision EventPriority.
Proof. solve_decision. Defined.

(** [array[level] = v] *)
Definition upd {A} (f : EventPriority -> A) (p : EventPriority) (v : A) : EventPriority -> A :=
  fun q => if decide (q = p) then v else f q.

Lemma upd_eq {A} (f : EventPriority -> A) p v : upd f p v p = v.
Proof. unfold upd. by rewrite decide_True. Qed.

Lemma upd_ne {A} (f : EventPriority -> A) p q v : q <> p -> upd f p v q = f q.
Proof. intros. unfold upd. by rewrite decide_False. Qed.

(** ** Bandwidth allocation *)

Record BandwidthAllocation := mkBandwidthAllocation {
  critical_reserved_bps : Z;
  high_min_bps : Z;
  normal_min_bps : Z;
  low_min_bps : Z;
  total_available_bps : Z
}.

Definition allocation_default : BandwidthAllocation :=
  let total := 1000000 in
  mkBandwidthAllocation (total / 10) ((total * 9 / 10) * 50 / 100) ((total * 9 / 10) * 35 / 100)
    ((total * 9 / 10) * 15 / 100) total.

Definition allocation_new (total_bps : Z) : option BandwidthAllocation :=
  t90 ← checked (total_bps * 90);
  let non_critical := t90 / 100 in
  h ← checked (non_critical * 50);
  n ← checked (non_critical * 35);
  l ← checked (non_critical * 15);
  Some (mkBandwidthAllocation (total_bps / 10) (h / 100) (n / 100) (l / 100) total_bps).

Definition checked_u8 (z : Z) : option Z := if decide (0 <= z < 256) then Some z else None.

Definition with_percentages (total_bps critical_pct high_pct normal_pct low_pct : Z) : option BandwidthAllocation :=
  s1 ← checked_u8 (critical_pct + high_pct);
  s2 ← checked_u8 (s1 + normal_pct);
  s3 ← checked_u8 (s2 + low_pct);
  if s3 <=? 100 then
    c ← checked (total_bps * critical_pct);
    h ← checked (total_bps * high_pct);
    n ← checked (total_bps * normal_pct);
    l ← checked (total_bps * low_pct);
    Some (mkBandwidthAllocation (c / 100) (h / 100) (n / 100) (l / 100) total_bps)
  else None.

Inductive OverflowPolicy := RejectNew | RemoveOldest | RemoveLowestPriority.

Record TransmitterStats := mkTransmitterStats {
  transmitted : EventPriority -> Z;
  dropped : EventPriority -> Z;
  bytes_transmitted : EventPriority -> Z
}.

Definition stats_default : TransmitterStats := mkTransmitterStats (fun _ => 0) (fun _ => 0) (fun _ => 0).

Record EventTransmitter := mkEventTransmitter {
  queues : EventPriority -> list PeatEvent;
  max_queue_sizes : EventPriority -> Z;
  buckets : EventPriority -> TokenBucket;
  allocation : BandwidthAllocation;
  overflow_policy : OverflowPolicy;
  stats : TransmitterStats
}.

Definition estimate_event_size (e : PeatEvent) : Z := 200 + len (payload_value e).

Definition get_level (e : PeatEvent) : EventPriority := get_priority e.

(** ** Queues *)

Definition set_queue (t : EventTransmitter) (p : EventPriority) (q : list PeatEvent) : EventTransmitter :=
  mkEventTransmitter (upd (queues t) p q) (max_queue_sizes t) (buckets t) (allocation t) (overflow_policy t) (stats t).

Definition set_stats (t : EventTransmitter) (s : TransmitterStats) : EventTransmitter :=
  mkEventTransmitter (queues t) (max_queue_sizes t) (buckets t) (allocation t) (overflow_policy t) s.

Definition set_max_queue_size (t : EventTransmitter) (p : EventPriority) (size : Z) : EventTransmitter :=
  mkEventTransmitter (queues t) (upd (max_queue_sizes t) p size) (buckets t) (allocation t) (overflow_policy t) (stats t).

Definition set_overflow_policy (t : EventTransmitter) (o : OverflowPolicy) : EventTransmitter :=
  mkEventTransmitter (queues t) (max_queue_sizes t) (buckets t) (allocation t) o (stats t).

(** [self.stats.dropped[level] += 1] *)
Definition count_drop (t : EventTransmitter) (p : EventPriority) : option EventTransmitter :=
  d ← checked (dropped (stats t) p + 1);
  Some (set_stats t (mkTransmitterStats (transmitted (stats t)) (upd (dropped (stats t)) p d) (bytes_transmitted (stats t)))).

Definition pop_front (t : EventTransmitter) (p : EventPriority) : EventTransmitter :=
  set_queue t p (tail (queues t p)).

Definition drop_lowest_priority (t : EventTransmitter) : option (bool * EventTransmitter) :=
  match queues t PriorityLow, queues t PriorityNormal, queues t PriorityHigh with
  | _ :: _, _, _ => t ← count_drop (pop_front t PriorityLow) PriorityLow; Some (true, t)
  | [], _ :: _, _ => t ← count_drop (pop_front t PriorityNormal) PriorityNormal; Some (true, t)
  | [], [], _ :: _ => t ← count_drop (pop_front t PriorityHigh) PriorityHigh; Some (true, t)
  | [], [], [] => Some (false, t)
  end.

Definition push_back (t : EventTransmitter) (p : EventPriority) (e : PeatEvent) : EventTransmitter :=
  set_queue t p (queues t p ++ [e]).

Definition enqueue (t : EventTransmitter) (e : PeatEvent) : option (bool * EventTransmitter) :=
  let level := get_level e in
  if max_queue_sizes t level <=? len (queues t level) then
    match overflow_policy t with
    | RejectNew => t ← count_drop t level; Some (false, t)
    | RemoveOldest => t ← count_drop (pop_front t level) level; Some (true, push_back t level e)
    | RemoveLowestPriority =>
        '(ok, t) ← drop_lowest_priority t;
        if ok : bool then Some (true, push_back t level e)
        else t ← count_drop t level; Some (false, t)
    end
  else Some (true, push_back t level e).

Definition has_critical (t : EventTransmitter) : bool :=
  match queues t PriorityCritical with [] => false | _ => true end.

Definition queue_lengths (t : EventTransmitter) : EventPriority -> Z := fun p => len (queues t p).

Definition total_queued (t : EventTransmitter) : Z :=
  len (queues t PriorityCritical) + len (queues t PriorityHigh) +
  len (queues t PriorityNormal) + len (queues t PriorityLow).

Definition reset_stats (t : EventTransmitter) : EventTransmitter := set_stats t stats_default.

(** ** Transmission *)

Section Transmit.
Variable jitter : nat -> Z.

Definition tx_refill (b : TokenBucket) (w : World) : TokenBucket * World :=
  let '(now, w) := instant_now jitter w in
  let elapsed := as_secs_f64 (since now (last_refill b)) in
  (mkTokenBucket (float_min (SFadd 53 1024 (tokens b) (SFmul 53 1024 elapsed (refill_rate b))) (capacity b))
     (capacity b) (refill_rate b) now, w).

Definition tx_try_consume (count : spec_float) (b : TokenBucket) (w : World) : bool * TokenBucket * World :=
  let '(b, w) := tx_refill b w in
  if SFleb count (tokens b) then
    (true, mkTokenBucket (SFsub 53 1024 (tokens b) count) (capacity b) (refill_rate b) (last_refill b), w)
  else (false, b, w).

Definition available (b : TokenBucket) (w : World) : spec_float * TokenBucket * World :=
  let '(b, w) := tx_refill b w in (tokens b, b, w).

Definition transmitter_new (a : BandwidthAllocation) (w : World) : EventTransmitter * World :=
  let '(c, w) := bucket_new jitter (f64_of_Z (critical_reserved_bps a)) (f64_of_Z (critical_reserved_bps a)) w in
  let '(h, w) := bucket_new jitter (f64_of_Z (high_min_bps a)) (f64_of_Z (high_min_bps a)) w in
  let '(n, w) := bucket_new jitter (f64_of_Z (normal_min_bps a)) (f64_of_Z (normal_min_bps a)) w in
  let '(l, w) := bucket_new jitter (f64_of_Z (low_min_bps a)) (f64_of_Z (low_min_bps a)) w in
  (mkEventTransmitter (fun _ => [])
     (fun p => match p with PriorityCritical => 100 | _ => 1000 end)
     (fun p => match p with
               | PriorityCritical => c | PriorityHigh => h | PriorityNormal => n | PriorityLow => l end)
     a RemoveLowestPriority stats_default, w).

(** The loop of one level: what is sent, what stays, and the bucket. *)
Fixpoint drain (q : list PeatEvent) (limit : Z) (b : TokenBucket) (w : World) :
    list PeatEvent * list PeatEvent * TokenBucket * World :=
  match q with
  | [] => ([], [], b, w)
  | e :: q' =>
      if 0 <? limit then
        let '(ok, b, w) := tx_try_consume (f64_of_Z (estimate_event_size e)) b w in
        if ok then
          let '(sent, rest, b, w) := drain q' (limit - 1) b w in (e :: sent, rest, b, w)
        else ([], q, b, w)
      else ([], q, b, w)
  end.

Definition sum_sizes (l : list PeatEvent) : Z := foldr (fun e n => estimate_event_size e + n) 0 l.

(** One level of [transmit]: the events sent, counted in the statistics. The counters
    only grow, so they overflow during the loop exactly when their sums do. *)
Definition drain_level (t : EventTransmitter) (p : EventPriority) (limit : Z) (w : World) :
    option (list PeatEvent * EventTransmitter * World) :=
  let '(sent, rest, b, w) := drain (queues t p) limit (buckets t p) w in
  n ← checked (transmitted (stats t) p + len sent);
  k ← checked (bytes_transmitted (stats t) p + sum_sizes sent);
  Some (sent, mkEventTransmitter (upd (queues t) p rest) (max_queue_sizes t) (upd (buckets t) p b) (allocation t)
                (overflow_policy t)
                (mkTransmitterStats (upd (transmitted (stats t)) p n) (dropped (stats t))
                   (upd (bytes_transmitted (stats t)) p k)), w).

Definition transmit (t : EventTransmitter) (max_events : Z) (w : World) :
    option (list PeatEvent * EventTransmitter * World) :=
  '(crit, t, w) ← drain_level t PriorityCritical max_events w;
  let remaining := max_events - len crit in
  if remaining =? 0 then Some (crit, t, w)
  else
    r50 ← checked (remaining * 50);
    r35 ← checked (remaining * 35);
    let high_alloc := r50 / 100 in
    let normal_alloc := r35 / 100 in
    '(high, t, w) ← drain_level t PriorityHigh high_alloc w;
    let high_remaining := high_alloc - len high in
    let remaining := remaining - len high in
    let high_unused := high_alloc - (high_alloc - high_remaining) in
    '(normal, t, w) ← drain_level t PriorityNormal (Z.min (normal_alloc + high_unused) remaining) w;
    let remaining := remaining - len normal in
    '(low, t, w) ← drain_level t PriorityLow remaining w;
    Some (crit ++ high ++ normal ++ low, t, w).

(** Without a limit: as many as are queued *)
Definition transmit_critical (t : EventTransmitter) (w : World) :
    option (list PeatEvent * EventTransmitter * World) :=
  drain_level t PriorityCritical (len (queues t PriorityCritical)) w.

Definition available_bandwidth (t : EventTransmitter) (w : World) :
    (EventPriority -> spec_float) * EventTransmitter * World :=
  let '(c, bc, w) := available (buckets t PriorityCritical) w in
  let '(h, bh, w) := available (buckets t PriorityHigh) w in
  let '(n, bn, w) := available (buckets t PriorityNormal) w in
  let '(l, bl, w) := available (buckets t PriorityLow) w in
  (fun p => match p with
            | PriorityCritical => c | PriorityHigh => h | PriorityNormal => n | PriorityLow => l end,
   mkEventTransmitter (queues t) (max_queue_sizes t)
     (fun p => match p with
               | PriorityCritical => bc | PriorityHigh => bh | PriorityNormal => bn | PriorityLow => bl end)
     (allocation t) (overflow_policy t) (stats t), w).

End Transmit.

(** ** Allocation *)

(** Custom percentages are accepted exactly when they add up to at most one hundred,
    and the four shares then add up to at most the total bandwidth; anything else
    panics. *)
Theorem with_percentages_spec total c h n l :
  0 <= total -> total * 100 < u64_modulus ->
  0 <= c < 256 -> 0 <= h < 256 -> 0 <= n < 256 -> 0 <= l < 256 ->
  match with_percentages total c h n l with
  | Some a => c + h + n + l <= 100 /\ total_available_bps a = total /\
      critical_reserved_bps a + high_min_bps a + normal_min_bps a + low_min_bps a <= total
  | None => 100 < c + h + n + l
  end.
Proof.
  intros Ht Hu Hc Hh Hn Hl. unfold with_percentages, checked_u8.
  case_decide; simpl; [|lia]. case_decide; simpl; [|lia]. case_decide; simpl; [|lia].
  destruct (Z.leb_spec (c + h + n + l) 100); [|lia].
  rewrite !checked_Some by (unfold is_u64; nia). simpl. split_and!; [done|done|].
  pose proof (Z.mul_div_le (total * c) 100 ltac:(lia)). pose proof (Z.mul_div_le (total * h) 100 ltac:(lia)).
  pose proof (Z.mul_div_le (total * n) 100 ltac:(lia)). pose proof (Z.mul_div_le (total * l) 100 ltac:(lia)). nia.
Qed.

(** ** Queueing *)

Definition total_dropped (t : EventTransmitter) : Z :=
  dropped (stats t) PriorityCritical + dropped (stats t) PriorityHigh +
  dropped (stats t) PriorityNormal + dropped (stats t) PriorityLow.

Lemma count_drop_spec t p t' :
  count_drop t p = Some t' ->
  queues t' = queues t /\ max_queue_sizes t' = max_queue_sizes t /\ total_dropped t' = total_dropped t + 1.
Proof.
  unfold count_drop, checked. case_decide; simpl; [|done]. intros; simplify_eq. split_and!; [done|done|].
  unfold total_dropped. simpl. destruct p; rewrite !upd_eq, !upd_ne by done; lia.
Qed.

Lemma len_tail {A} (x : A) l : len (tail (x :: l)) = len (x :: l) - 1.
Proof. unfold len. simpl. lia. Qed.

Lemma total_queued_upd t p q :
  total_queued (set_queue t p q) = total_queued t - len (queues t p) + len q.
Proof. unfold total_queued. simpl. destruct p; rewrite !upd_eq, !upd_ne by done; lia. Qed.

(** One event of the lowest non-empty level below critical is dropped. *)
Lemma drop_lowest_spec t ok t' :
  drop_lowest_priority t = Some (ok, t') ->
  if ok : bool then
    exists p, p <> PriorityCritical /\ queues t p <> [] /\ max_queue_sizes t' = max_queue_sizes t /\
      queues t' = upd (queues t) p (tail (queues t p)) /\
      (p <> PriorityLow -> queues t PriorityLow = []) /\
      total_queued t' = total_queued t - 1 /\ total_dropped t' = total_dropped t + 1
  else t' = t.
Proof.
  assert (forall p e q, queues t p = e :: q -> p <> PriorityCritical -> (p <> PriorityLow -> queues t PriorityLow = []) ->
    forall t1, count_drop (pop_front t p) p = Some t1 ->
    exists p, p <> PriorityCritical /\ queues t p <> [] /\ max_queue_sizes t1 = max_queue_sizes t /\
      queues t1 = upd (queues t) p (tail (queues t p)) /\ (p <> PriorityLow -> queues t PriorityLow = []) /\
      total_queued t1 = total_queued t - 1 /\ total_dropped t1 = total_dropped t + 1) as Hone.
  { intros p e q Hq Hp Hlow t1 (E1 & E2 & E3)%count_drop_spec. exists p. unfold pop_front in *.
    split_and!; [done|by rewrite Hq|by rewrite E2|by rewrite E1|done| |by rewrite E3].
    unfold total_queued at 1. rewrite E1. pose proof (total_queued_upd t p (tail (queues t p))) as Hu.
    unfold total_queued at 1 in Hu. simpl in *. rewrite Hu, Hq, len_tail. lia. }
  unfold drop_lowest_priority.
  destruct (queues t PriorityLow) as [|e q] eqn:El.
  - destruct (queues t PriorityNormal) as [|e q] eqn:En.
    + destruct (queues t PriorityHigh) as [|e q] eqn:Eh; [by intros; simplify_eq|].
      destruct (count_drop _ _) as [t1|] eqn:E; simpl; [|done]. intros; simplify_eq. by eapply Hone.
    + destruct (count_drop _ _) as [t1|] eqn:E; simpl; [|done]. intros; simplify_eq. by eapply Hone.
  - destruct (count_drop _ _) as [t1|] eqn:E; simpl; [|done]. intros; simplify_eq. by eapply Hone.
Qed.

(** No event is lost silently: every event offered to the transmitter is either queued
    or counted as dropped, itself or one it displaced, under every overflow policy. *)
Theorem enqueue_accounts t e ok t' :
  0 < max_queue_sizes t (get_level e) -> enqueue t e = Some (ok, t') ->
  total_queued t' + total_dropped t' = total_queued t + total_dropped t + 1.
Proof.
  intros Hmax. unfold enqueue. set (p := get_level e) in *.
  assert (forall t1, total_queued (push_back t1 p e) = total_queued t1 + 1) as Hpush.
  { intros t1. unfold push_back. rewrite total_queued_upd, len_app. unfold len at 3. simpl. lia. }
  destruct (Z.leb_spec (max_queue_sizes t p) (len (queues t p))) as [Hfull|].
  2: { intros; simplify_eq. rewrite Hpush. unfold total_dropped. simpl. lia. }
  destruct (overflow_policy t).
  - destruct (count_drop t p) as [t1|] eqn:E; simpl; [|done]. intros; simplify_eq.
    apply count_drop_spec in E as (E1 & _ & E3). unfold total_queued. rewrite E1, E3. lia.
  - destruct (count_drop _ p) as [t1|] eqn:E; simpl; [|done]. intros; simplify_eq.
    apply count_drop_spec in E as (E1 & _ & E3). rewrite Hpush.
    change (total_dropped (push_back t1 p e)) with (total_dropped t1). rewrite E3.
    change (total_dropped (pop_front t p)) with (total_dropped t).
    assert (total_queued t1 = total_queued t - 1) as ->; [|lia].
    unfold total_queued at 1. rewrite E1. pose proof (total_queued_upd t p (tail (queues t p))) as Hu.
    unfold total_queued at 1 in Hu. simpl in *. rewrite Hu.
    destruct (queues t p) as [|x q]; [unfold len in Hfull; simpl in Hfull; lia|]. rewrite len_tail. lia.
  - destruct (drop_lowest_priority t) as [[[] t1]|] eqn:E; simpl; [| |done].
    + intros; simplify_eq. apply drop_lowest_spec in E as (q & _ & _ & _ & _ & _ & Eq & Ed).
      rewrite Hpush. change (total_dropped (push_back t1 p e)) with (total_dropped t1). lia.
    + apply drop_lowest_spec in E as ->. destruct (count_drop t p) as [t1|] eqn:E; simpl; [|done].
      intros; simplify_eq. apply count_drop_spec in E as (E1 & _ & E3). unfold total_queued. rewrite E1, E3. lia.
Qed.

(** Critical events are never displaced under the default overflow policy. *)
Theorem critical_never_displaced t e ok t' :
  overflow_policy t = RemoveLowestPriority -> enqueue t e = Some (ok, t') ->
  queues t PriorityCritical `prefix_of` queues t' PriorityCritical.
Proof.
  intros Hp. unfold enqueue. rewrite Hp.
  assert (forall t1, queues t1 PriorityCritical = queues t PriorityCritical ->
    queues t PriorityCritical `prefix_of` queues (push_back t1 (get_level e) e) PriorityCritical) as Hpush.
  { intros t1 <-. unfold push_back. simpl. destruct (decide (get_level e = PriorityCritical)) as [->|Hne].
    - rewrite upd_eq. by apply prefix_app_r.
    - by rewrite upd_ne. }
  destruct (_ <=? _); [|intros; simplify_eq; by apply Hpush].
  destruct (drop_lowest_priority t) as [[[] t1]|] eqn:E; simpl; [| |done].
  - intros; simplify_eq. apply drop_lowest_spec in E as (q & Hq & _ & _ & E1 & _). apply Hpush. by rewrite E1, upd_ne.
  - apply drop_lowest_spec in E as ->. destruct (count_drop t _) as [t1|] eqn:E; simpl; [|done].
    intros; simplify_eq. apply count_drop_spec in E as (-> & _). done.
Qed.

(** The size limit of a queue does not hold under the default overflow policy: an event
    that arrives at a full queue while there is a low-priority event displaces that
    one and makes its own queue longer than the limit. *)
Theorem overflow_exceeds_limit t e ok t' :
  overflow_policy t = RemoveLowestPriority -> get_level e <> PriorityLow ->
  queues t PriorityLow <> [] -> max_queue_sizes t (get_level e) <= len (queues t (get_level e)) ->
  enqueue t e = Some (ok, t') ->
  ok = true /\ max_queue_sizes t' (get_level e) < len (queues t' (get_level e)).
Proof.
  intros Hp Hlev Hlow Hfull. unfold enqueue. rewrite Hp, (proj2 (Z.leb_le _ _) Hfull).
  destruct (drop_lowest_priority t) as [[[] t1]|] eqn:E; simpl; [| |done].
  - intros; simplify_eq. split; [done|]. apply drop_lowest_spec in E as (q & _ & _ & E2 & E1 & Hq & _).
    destruct (decide (q = PriorityLow)) as [->|Hne]; [|by apply Hq in Hne].
    simpl. rewrite upd_eq, E1, E2, upd_ne, len_app by done. unfold len at 2. simpl. lia.
  - unfold drop_lowest_priority in E. destruct (queues t PriorityLow); [done|].
    destruct (count_drop _ _); simpl in E; simplify_eq.
Qed.

(** ** Transmission *)

Section TransmitSpec.
Variable jitter : nat -> Z.

Lemma drain_split q limit b w sent rest b' w' :
  drain jitter q limit b w = (sent, rest, b', w') -> q = sent ++ rest /\ len sent <= Z.max 0 limit.
Proof.
  revert limit b w sent rest b' w'; induction q as [|e q IH]; intros limit b w sent rest b' w'; simpl.
  { intros; simplify_eq. unfold len; simpl. split; [done|lia]. }
  destruct (Z.ltb_spec 0 limit); [|intros; simplify_eq; unfold len; simpl; split; [done|lia]].
  destruct (tx_try_consume _ _ _ _) as [[[] b1] w1]; [|intros; simplify_eq; unfold len; simpl; split; [done|lia]].
  destruct (drain jitter q (limit - 1) b1 w1) as [[[s r] b2] w2] eqn:E. intros; simplify_eq.
  apply IH in E as [-> Hs]. unfold len in *. simpl. split; [done|lia].
Qed.

(** What a level's share of a transmission does to the queues and counters *)
Record level_sent (t t' : EventTransmitter) (p : EventPriority) (limit : Z) (sent : list PeatEvent) : Prop := {
  ls_queue : queues t p = sent ++ queues t' p;
  ls_limit : len sent <= Z.max 0 limit;
  ls_count : transmitted (stats t') p = transmitted (stats t) p + len sent;
  ls_bytes : bytes_transmitted (stats t') p = bytes_transmitted (stats t) p + sum_sizes sent;
  ls_other q : q <> p -> queues t' q = queues t q /\ buckets t' q = buckets t q /\
    transmitted (stats t') q = transmitted (stats t) q /\
    bytes_transmitted (stats t') q = bytes_transmitted (stats t) q
}.

Lemma drain_level_spec t p limit w sent t' w' :
  drain_level jitter t p limit w = Some (sent, t', w') -> level_sent t t' p limit sent.
Proof.
  unfold drain_level. destruct (drain jitter _ limit _ w) as [[[s r] b] w1] eqn:E.
  apply drain_split in E as [Hq Hl].
  destruct (checked (transmitted _ _ + _)) as [n|] eqn:En; simpl; [|done].
  destruct (checked (bytes_transmitted _ _ + _)) as [k|] eqn:Ek; simpl; [|done]. apply checked_inv in En, Ek. intros; simplify_eq.
  split; simpl; rewrite ?upd_eq; try done. intros q Hne. by rewrite !upd_ne.
Qed.

(** A transmission takes each level's events from the front of its queue, in order,
    loses none, sends critical ones first and low ones last, never more than asked
    for, and counts what it sends. *)
Theorem transmit_spec t max_events w out t' w' :
  0 <= max_events -> transmit jitter t max_events w = Some (out, t', w') ->
  len out <= max_events /\
  exists sent : EventPriority -> list PeatEvent,
    out = sent PriorityCritical ++ sent PriorityHigh ++ sent PriorityNormal ++ sent PriorityLow /\
    forall p, queues t p = sent p ++ queues t' p /\
      transmitted (stats t') p = transmitted (stats t) p + len (sent p) /\
      bytes_transmitted (stats t') p = bytes_transmitted (stats t) p + sum_sizes (sent p).
Proof.
  intros Hmax. unfold transmit.
  destruct (drain_level jitter t PriorityCritical max_events w) as [[[c t1] w1]|] eqn:E1; simpl; [|done].
  apply drain_level_spec in E1 as [Q1 L1 C1 B1 O1]. destruct (Z.eqb_spec (max_events - len c) 0).
  - intros; simplify_eq. split; [lia|].
    exists (fun p => if decide (p = PriorityCritical) then out else []).
    rewrite decide_True by done. rewrite !decide_False by done. rewrite !app_nil_r. split; [done|].
    intros p. case_decide as Hp; [subst; by split_and!|]. destruct (O1 p Hp) as (-> & _ & -> & ->).
    unfold len; simpl. split_and!; [done|lia|lia].
  - set (rem := max_events - len c) in *.
    destruct (checked (rem * 50)) as [r50|] eqn:E50; simpl; [|done].
    destruct (checked (rem * 35)) as [r35|] eqn:E35; simpl; [|done]. apply checked_inv in E50, E35. subst r50 r35.
    destruct (drain_level jitter t1 PriorityHigh _ w1) as [[[h t2] w2]|] eqn:E2; simpl; [|done].
    apply drain_level_spec in E2 as [Q2 L2 C2 B2 O2].
    destruct (drain_level jitter t2 PriorityNormal _ w2) as [[[n2 t3] w3]|] eqn:E3; simpl; [|done].
    apply drain_level_spec in E3 as [Q3 L3 C3 B3 O3].
    destruct (drain_level jitter t3 PriorityLow _ w3) as [[[l t4] w4]|] eqn:E4; simpl; [|done].
    apply drain_level_spec in E4 as [Q4 L4 C4 B4 O4]. intros; simplify_eq.
    pose proof (len_nonneg c). pose proof (len_nonneg h). pose proof (len_nonneg n2). pose proof (len_nonneg l).
    assert (0 <= rem) by lia.
    assert (rem * 50 / 100 <= rem) by (apply Z.div_le_upper_bound; lia).
    assert (0 <= rem * 50 / 100) by (apply Z.div_pos; lia).
    split; [rewrite !len_app; lia|].
    exists (fun p => match p with PriorityCritical => c | PriorityHigh => h | PriorityNormal => n2 | PriorityLow => l end).
    split; [done|]. intros p.
    destruct p.
    + destruct (O2 PriorityCritical ltac:(done)) as (a2 & _ & b2 & d2), (O3 PriorityCritical ltac:(done)) as (a3 & _ & b3 & d3),
        (O4 PriorityCritical ltac:(done)) as (a4 & _ & b4 & d4).
      rewrite a4, a3, a2, b4, b3, b2, d4, d3, d2. by split_and!.
    + destruct (O1 PriorityHigh ltac:(done)) as (a1 & _ & b1 & d1), (O3 PriorityHigh ltac:(done)) as (a3 & _ & b3 & d3),
        (O4 PriorityHigh ltac:(done)) as (a4 & _ & b4 & d4).
      rewrite a4, a3, b4, b3, d4, d3, <- a1, <- b1, <- d1. by split_and!.
    + destruct (O1 PriorityNormal ltac:(done)) as (a1 & _ & b1 & d1), (O2 PriorityNormal ltac:(done)) as (a2 & _ & b2 & d2),
        (O4 PriorityNormal ltac:(done)) as (a4 & _ & b4 & d4).
      rewrite a4, b4, d4, <- a1, <- b1, <- d1, <- a2, <- b2, <- d2. by split_and!.
    + destruct (O1 PriorityLow ltac:(done)) as (a1 & _ & b1 & d1), (O2 PriorityLow ltac:(done)) as (a2 & _ & b2 & d2),
        (O3 PriorityLow ltac:(done)) as (a3 & _ & b3 & d3).
      rewrite <- a1, <- b1, <- d1, <- a2, <- b2, <- d2, <- a3, <- b3, <- d3. by split_and!.
Qed.

End TransmitSpec.

(** ** Oversized events *)

Section Blocking.
Context (jitter : nat -> Z) (Hjitter : forall n, 0 <= jitter n).

Lemma tx_refill_ok n b w :
  bucket_ok n b w ->
  bucket_ok n (fst (tx_refill jitter b w)) (snd (tx_refill jitter b w)) /\
  time w <= time (snd (tx_refill jitter b w)).
Proof.
  intros [Hn Hc Hr Ht Hf Htime]. unfold tx_refill. rewrite Hr, Hc in *.
  pose proof (instant_now_le jitter Hjitter w) as [Hle Heq].
  destruct (instant_now jitter w) as [now w1]. simpl in Hle, Heq.
  destruct (refilled_spec n _ (tokens b) Hn (since_range now (last_refill b)) Ht Hf) as (H1 & H2 & _ & _).
  fold (refilled n (since now (last_refill b)) (tokens b)). simpl. split; [|lia]. by split; simpl; [..|lia].
Qed.

Lemma tx_try_consume_ok n a b w :
  bucket_ok n b w -> amount_ok a ->
  exists ok b' w', tx_try_consume jitter a b w = (ok, b', w') /\ bucket_ok n b' w' /\ time w <= time w' /\
    (value 1024 (f64_of_Z n) < value 1024 a -> ok = false).
Proof.
  intros Hb [Ha Fa]. unfold tx_try_consume. pose proof (tx_refill_ok n b w Hb) as [Hb1 Hle].
  destruct (tx_refill jitter b w) as [b1 w1]. simpl in *.
  destruct Hb1 as [Hn Hc Hr [Ht Ft] Hf Htime]. rewrite (SFleb_value 53 1024) by (done || lia). rewrite Hc in Hf.
  destruct (Z.leb_spec (value 1024 a) (value 1024 (tokens b1))) as [Hok|Hno].
  - do 3 eexists. split; [done|]. split_and!; [|done|lia].
    pose proof (SFsub_rounds _ _ prec_ok emax_ok _ _ Ht Ft Ha Fa Hok) as Hsub.
    pose proof (value_nonneg _ _ prec_ok emax_ok _ Ha).
    pose proof (rounds_upper _ _ _ _ Hsub _ Ht ltac:(lia)).
    split; simpl; [done..| |rewrite Hc; lia|done].
    split; [apply (rounds_nonneg _ _ _ _ Hsub)|]. apply (rounds_finite _ _ prec_ok emax_ok _ _ _ Hsub Ht Ft). lia.
  - do 3 eexists. split; [done|]. split_and!; [|done|done]. split; rewrite ?Hc; done.
Qed.

(** A level whose first event is larger than its bucket *)
Definition blocked (t : EventTransmitter) (p : EventPriority) (n : Z) (w : World) : Prop :=
  bucket_ok n (buckets t p) w /\
  match queues t p with e :: _ => n < estimate_event_size e < 2 ^ 53 | [] => False end.

Lemma drain_level_blocked t p n limit w sent t' w' :
  blocked t p n w -> drain_level jitter t p limit w = Some (sent, t', w') ->
  sent = [] /\ queues t' p = queues t p /\ bucket_ok n (buckets t' p) w' /\ time w <= time w'.
Proof.
  intros [Hb Hq]. unfold drain_level. destruct (queues t p) as [|e q] eqn:Eq; [done|].
  pose proof (ok_limit _ _ _ Hb) as Hn. destruct Hn as [Hn0 _].
  assert (exists b1 w1, drain jitter (e :: q) limit (buckets t p) w = ([], e :: q, b1, w1) /\
    bucket_ok n b1 w1 /\ time w <= time w1) as (b1 & w1 & -> & Hb1 & Hle).
  { simpl. destruct (0 <? limit); [|exists (buckets t p), w; split_and!; [done|done|lia]].
    assert (0 <= estimate_event_size e) by (unfold estimate_event_size; pose proof (len_nonneg (payload_value e)); lia).
    destruct (f64_of_Z_exact (estimate_event_size e) ltac:(lia)) as [Ha Va].
    destruct (f64_of_Z_exact n ltac:(lia)) as [_ Vn].
    destruct (tx_try_consume_ok n _ (buckets t p) w Hb Ha) as (ok & b1 & w1 & -> & Hb1 & Hle & Hno).
    rewrite Hno; [by exists b1, w1|]. rewrite Va, Vn. pose proof (ulp_gt0 0 ltac:(lia)). nia. }
  do 2 (destruct (checked _); simpl; try done).
  intros; simplify_eq. simpl. rewrite !upd_eq. by split_and!.
Qed.

(** Another level's share only lets time pass for a blocked level. *)
Lemma drain_level_other t p q n limit w sent t' w' :
  q <> p -> blocked t p n w -> drain_level jitter t q limit w = Some (sent, t', w') -> time w <= time w' ->
  blocked t' p n w'.
Proof.
  intros Hne [Hb Hq] Hd Hle. apply drain_level_spec in Hd as [_ _ _ _ Ho].
  destruct (Ho p (not_eq_sym Hne)) as (E1 & E2 & _). unfold blocked. rewrite E1, E2.
  split; [by eapply bucket_ok_later|done].
Qed.

Lemma instant_time_le w : time w <= time (snd (instant_now jitter w)).
Proof. pose proof (instant_now_le jitter Hjitter w). lia. Qed.

Lemma try_time a b w : time w <= time (snd (tx_try_consume jitter a b w)).
Proof.
  pose proof (instant_time_le w). unfold tx_try_consume, tx_refill.
  destruct (instant_now jitter w) as [now w1]. simpl in *. by destruct (SFleb _ _).
Qed.

Lemma drain_time q limit b w : time w <= time (snd (drain jitter q limit b w)).
Proof.
  revert limit b w; induction q as [|e q IH]; intros limit b w; simpl; [lia|].
  destruct (0 <? limit); [|simpl; lia]. pose proof (try_time (f64_of_Z (estimate_event_size e)) b w) as H1.
  destruct (tx_try_consume jitter _ b w) as [[[] b1] w1]; simpl in *; [|done].
  specialize (IH (limit - 1) b1 w1). destruct (drain jitter q (limit - 1) b1 w1) as [[[s r] b2] w2]. simpl in *. lia.
Qed.

Lemma drain_level_time t p limit w sent t' w' :
  drain_level jitter t p limit w = Some (sent, t', w') -> time w <= time w'.
Proof.
  unfold drain_level. pose proof (drain_time (queues t p) limit (buckets t p) w) as H1.
  destruct (drain jitter _ limit _ w) as [[[s r] b] w1]. simpl in H1.
  do 2 (destruct (checked _); simpl; try done). intros; by simplify_eq.
Qed.

(** One share of a transmission, seen from a blocked level *)
Lemma drain_level_keeps_blocked t p q n limit w sent t' w' :
  blocked t p n w -> drain_level jitter t q limit w = Some (sent, t', w') ->
  blocked t' p n w' /\ queues t' p = queues t p.
Proof.
  intros Hb Hd. destruct (decide (q = p)) as [->|Hne].
  - destruct (drain_level_blocked _ _ _ _ _ _ _ _ Hb Hd) as (_ & E & Hb' & _). destruct Hb as [_ Hq].
    split; [|done]. unfold blocked. by rewrite E.
  - split; [eapply drain_level_other; [done|done|done|by eapply drain_level_time]|].
    apply drain_level_spec in Hd as [_ _ _ _ Ho]. by destruct (Ho p (not_eq_sym Hne)).
Qed.

(** An event larger than one second of its level's bandwidth blocks the level for good,
    the critical level included: every transmission leaves the level's queue as it is
    and the level blocked, however long one waits in between. *)
Theorem oversized_event_blocks_level t p n d max_events w out t' w' :
  blocked t p n w -> 0 <= d -> transmit jitter t max_events (sleep d w) = Some (out, t', w') ->
  queues t' p = queues t p /\ blocked t' p n w'.
Proof.
  intros Hb0 Hd. assert (blocked t p n (sleep d w)) as Hb.
  { destruct Hb0 as [Hb Hq]. split; [|done]. eapply bucket_ok_later; [done|simpl; lia]. }
  clear Hb0. unfold transmit.
  destruct (drain_level jitter t PriorityCritical max_events _) as [[[c t1] w1]|] eqn:E1; simpl; [|done].
  destruct (drain_level_keeps_blocked _ _ _ _ _ _ _ _ _ Hb E1) as [Hb1 Q1].
  destruct (_ =? 0); [intros; by simplify_eq|].
  do 2 (destruct (checked _); simpl; try done).
  destruct (drain_level jitter t1 PriorityHigh _ w1) as [[[h t2] w2]|] eqn:E2; simpl; [|done].
  destruct (drain_level_keeps_blocked _ _ _ _ _ _ _ _ _ Hb1 E2) as [Hb2 Q2].
  destruct (drain_level jitter t2 PriorityNormal _ w2) as [[[n2 t3] w3]|] eqn:E3; simpl; [|done].
  destruct (drain_level_keeps_blocked _ _ _ _ _ _ _ _ _ Hb2 E3) as [Hb3 Q3].
  destruct (drain_level jitter t3 PriorityLow _ w3) as [[[l t4] w4]|] eqn:E4; simpl; [|done].
  destruct (drain_level_keeps_blocked _ _ _ _ _ _ _ _ _ Hb3 E4) as [Hb4 Q4].
  intros; simplify_eq. split; [congruence|done].
Qed.

End Blocking.

(** ** Concrete runs *)

Definition event_of (prio : Z) (payload : list byte) : PeatEvent :=
  mkPeatEvent "e" None "n1" "f1" None 1 "product.x" (Some (mkAggregationPolicy 0 prio 0 0)) "" payload.

(** A transmitter of 2000 bytes per second: 200 of them for critical events *)
Definition narrow : EventTransmitter :=
  fst (transmitter_new calm (mkBandwidthAllocation 200 900 630 270 2000) boot).

(** One critical event of 201 bytes and one low event, with room for one critical event *)
Definition full : EventTransmitter :=
  set_max_queue_size
    (push_back (push_back narrow PriorityCritical (event_of 0 [x00])) PriorityLow (event_of 3 []))
    PriorityCritical 1.

Lemma with_percentages_spec_witness :
  with_percentages 1000 10 50 30 20 = None /\ 100 < 10 + 50 + 30 + 20.
Proof.
  split; [vm_compute; reflexivity|].
  pose proof (with_percentages_spec 1000 10 50 30 20) as H.
  assert (with_percentages 1000 10 50 30 20 = None) as E by (vm_compute; reflexivity). rewrite E in H.
  apply H; unfold u64_modulus; lia.
Defined.

Lemma enqueue_accounts_witness :
  exists t', enqueue full (event_of 0 []) = Some (true, t') /\ total_queued t' + total_dropped t' = 3.
Proof.
  destruct (enqueue full (event_of 0 [])) as [[ok t']|] eqn:E; [|vm_compute in E; congruence].
  pose proof (enqueue_accounts full (event_of 0 []) ok t' ltac:(vm_compute; reflexivity) E) as H.
  exists t'. split; [|rewrite H; vm_compute; reflexivity].
  vm_compute in E. injection E as <- _. reflexivity.
Defined.

Lemma critical_never_displaced_witness :
  exists t', enqueue full (event_of 0 []) = Some (true, t') /\
    queues full PriorityCritical `prefix_of` queues t' PriorityCritical.
Proof.
  destruct (enqueue full (event_of 0 [])) as [[ok t']|] eqn:E; [|vm_compute in E; congruence].
  pose proof (critical_never_displaced full (event_of 0 []) ok t' ltac:(vm_compute; reflexivity) E) as H.
  exists t'. split; [|exact H]. vm_compute in E. injection E as <- _. reflexivity.
Defined.

Lemma overflow_exceeds_limit_witness :
  exists t', enqueue full (event_of 0 []) = Some (true, t') /\
    max_queue_sizes t' PriorityCritical < len (queues t' PriorityCritical).
Proof.
  destruct (enqueue full (event_of 0 [])) as [[ok t']|] eqn:E; [|vm_compute in E; congruence].
  destruct (overflow_exceeds_limit full (event_of 0 []) ok t') as [-> H].
  - vm_compute. reflexivity.
  - vm_compute. congruence.
  - vm_compute. congruence.
  - vm_compute. congruence.
  - exact E.
  - exists t'. split; [reflexivity|exact H].
Defined.

Lemma transmit_spec_witness :
  exists out t' w', transmit calm full 5 boot = Some (out, t', w') /\ len out <= 5.
Proof.
  destruct (transmit calm full 5 boot) as [[[out t'] w']|] eqn:E; [|vm_compute in E; congruence].
  destruct (transmit_spec calm full 5 boot out t' w' ltac:(lia) E) as [H _].
  exists out, t', w'. split; [reflexivity|exact H].
Defined.

Lemma narrow_blocked : blocked full PriorityCritical 200 boot.
Proof.
  split; [|vm_compute; split; reflexivity].
  assert (is_u64 200) as Hn by (vm_compute; split; congruence).
  pose proof (bucket_new_ok calm calm_ok 200 boot Hn) as [H _].
  eapply bucket_ok_later; [exact H|]. vm_compute. congruence.
Qed.

Lemma oversized_event_blocks_level_witness :
  exists out t' w', transmit calm full 5 (sleep (10 ^ 12) boot) = Some (out, t', w') /\
    queues t' PriorityCritical = queues full PriorityCritical.
Proof.
  destruct (transmit calm full 5 (sleep (10 ^ 12) boot)) as [[[out t'] w']|] eqn:E; [|vm_compute in E; congruence].
  destruct (oversized_event_blocks_level calm calm_ok full PriorityCritical 200 (10 ^ 12) 5 boot out t' w'
    narrow_blocked ltac:(lia) E) as [H _].
  exists out, t', w'. split; [reflexivity|exact H].
Defined.
