(* ===== verification/Aggregator.v ===== *)
(** * Event emission and aggregation

    Models peat-protocol/src/event/emitter.rs and aggregator.rs over the priority
    queue of [EventQueue.v]: the emitter of a node stores or queues its events by their
    propagation mode, and the aggregator of a tier forwards, batches or stores what it
    receives. The wall clock ([now], a [Timestamp]) and the monotonic clock ([inst], in
    nanoseconds) are arguments of the operations that read them; a counter that leaves
    64 bits panics ([None]). The protobuf encoder and the default summary strategy,
    which prints JSON, are behind the class [SummaryCodec]; registered strategies are
    values, as the trait objects of the code are. *)

From S2P Require Import Prelude Error Capability EventQueue.
From stdpp Require Import pretty.
From Stdlib Require Import Init.Byte Ascii.

Open Scope Z_scope.

Inductive PropagationMode :=
| PropagationFull | PropagationSummary | PropagationQuery | PropagationLocal.

#[export] Instance PropagationMode_eq_dec : EqDecision PropagationMode.
Proof. solve_decision. Defined.

Definition propagation_to_i32 (m : PropagationMode) : Z :=
  match m with
  | PropagationFull => 0 | PropagationSummary => 1 | PropagationQuery => 2 | PropagationLocal => 3
  end.

Definition propagation_try_from (z : Z) : option PropagationMode :=
  match z with
  | 0 => Some PropagationFull | 1 => Some PropagationSummary
  | 2 => Some PropagationQuery | 3 => Some PropagationLocal | _ => None
  end.

Inductive EventClass := ClassUnspecified | Product | Anomaly | Telemetry | ClassCommand.

#[export] Instance EventClass_eq_dec : EqDecision EventClass.
Proof. solve_decision. Defined.

Definition class_to_i32 (c : EventClass) : Z :=
  match c with
  | ClassUnspecified => 0 | Product => 1 | Anomaly => 2 | Telemetry => 3 | ClassCommand => 4
  end.

Definition class_try_from (z : Z) : option EventClass :=
  match z with
  | 0 => Some ClassUnspecified | 1 => Some Product | 2 => Some Anomaly
  | 3 => Some Telemetry | 4 => Some ClassCommand | _ => None
  end.

Definition priority_to_i32 (p : EventPriority) : Z :=
  match p with
  | PriorityCritical => 0 | PriorityHigh => 1 | PriorityNormal => 2 | PriorityLow => 3
  end.

(** The mode both components route by: absent or unknown modes propagate fully. *)
Definition propagation_of (e : PeatEvent) : PropagationMode :=
  default PropagationFull
    ((fun r => default PropagationFull (propagation_try_from (propagation r))) <$> routing e).

(** ** Emitter *)

Record EventEmitter := mkEventEmitter {
  em_node_id : string;
  em_formation_id : string;
  outbound_queue : PriorityEventQueue;
  local_store : gmap string PeatEvent;
  event_counter : Z
}.

Definition emitter_new (node_id formation_id : string) : EventEmitter :=
  mkEventEmitter node_id formation_id event_queue_new ∅ 0.

Definition set_outbound (s : EventEmitter) (q : PriorityEventQueue) : EventEmitter :=
  mkEventEmitter (em_node_id s) (em_formation_id s) q (local_store s) (event_counter s).

Definition store_local (s : EventEmitter) (e : PeatEvent) : EventEmitter :=
  mkEventEmitter (em_node_id s) (em_formation_id s) (outbound_queue s)
    (<[event_id e := e]> (local_store s)) (event_counter s).

Definition emit (s : EventEmitter) (e : PeatEvent) : result Error unit * EventEmitter :=
  if bool_decide (event_id e = "") then
    (Err (EEventOp "Event must have an event_id" "emit"), s)
  else
    (Ok tt, match propagation_of e with
            | PropagationLocal => store_local s e
            | PropagationQuery => store_local s e
            | PropagationSummary | PropagationFull => set_outbound s (push (outbound_queue s) e)
            end).

Definition event_id_of (node_id : string) (n : Z) : string := node_id +:+ "-" +:+ pretty n.

Definition generate_event_id (s : EventEmitter) : option (string * EventEmitter) :=
  n ← checked (event_counter s + 1);
  Some (event_id_of (em_node_id s) n,
        mkEventEmitter (em_node_id s) (em_formation_id s) (outbound_queue s) (local_store s) n).

Definition emit_new (s : EventEmitter) (class : EventClass) (ty : string) (r : AggregationPolicy)
    (url : string) (payload : list byte) (instance : option string) (now : Timestamp) :
    option (result Error string * EventEmitter) :=
  '(id, s) ← generate_event_id s;
  let e := mkPeatEvent id (Some now) (em_node_id s) (em_formation_id s) instance
             (class_to_i32 class) ty (Some r) url payload in
  match emit s e with
  | (Ok _, s) => Some (Ok id, s)
  | (Err x, s) => Some (Err x, s)
  end.

Definition emit_product (s : EventEmitter) (product_type : string) (payload : list byte)
    (mode : PropagationMode) (priority : EventPriority) (now : Timestamp) :=
  let r := mkAggregationPolicy (propagation_to_i32 mode) (priority_to_i32 priority) 300
             (if bool_decide (mode = PropagationSummary) then 1000 else 0) in
  emit_new s Product ("product." +:+ product_type) r ("type.peat/product." +:+ product_type) payload None now.

Definition emit_telemetry (s : EventEmitter) (metric_name : string) (payload : list byte) (now : Timestamp) :=
  let r := mkAggregationPolicy (propagation_to_i32 PropagationQuery) (priority_to_i32 PriorityLow) 3600 0 in
  emit_new s Telemetry ("telemetry." +:+ metric_name) r ("type.peat/telemetry." +:+ metric_name) payload None now.

Definition emit_anomaly (s : EventEmitter) (anomaly_type : string) (payload : list byte) (now : Timestamp) :=
  let r := mkAggregationPolicy (propagation_to_i32 PropagationFull) (priority_to_i32 PriorityHigh) 600 0 in
  emit_new s Anomaly ("anomaly." +:+ anomaly_type) r ("type.peat/anomaly." +:+ anomaly_type) payload None now.

Definition emit_critical (s : EventEmitter) (ty : string) (payload : list byte) (now : Timestamp) :=
  let r := mkAggregationPolicy (propagation_to_i32 PropagationFull) (priority_to_i32 PriorityCritical) 300 0 in
  emit_new s Anomaly ("critical." +:+ ty) r ("type.peat/critical." +:+ ty) payload None now.

Definition emitter_pop_critical (s : EventEmitter) : list PeatEvent * EventEmitter :=
  let '(es, q) := pop_critical (outbound_queue s) in (es, set_outbound s q).

Definition pop_events (s : EventEmitter) (max_events : Z) : option (list PeatEvent * EventEmitter) :=
  let '(events, q) := pop_critical (outbound_queue s) in
  let remaining := saturating_sub max_events (len events) in
  if 0 <? remaining then
    '(more, q) ← pop_weighted q remaining;
    Some (events ++ more, set_outbound s q)
  else Some (events, set_outbound s q).

Definition emitter_has_critical (s : EventEmitter) : bool := has_critical (outbound_queue s).
Definition pending_count (s : EventEmitter) : Z := queue_len (outbound_queue s).
Definition local_count (s : EventEmitter) : Z := Z.of_nat (size (local_store s)).

Definition matches_type (ty : option string) (e : PeatEvent) : bool :=
  match ty with None => true | Some t => bool_decide (event_type e = t) end.

(** The values of a hash map come in an order of its own: that of [map_to_list]. *)
Definition query_store (store : gmap string PeatEvent) (ty : option string) : list PeatEvent :=
  filter (fun e => matches_type ty e = true) (map_to_list store).*2.

Definition emitter_query_local (s : EventEmitter) (ty : option string) : list PeatEvent :=
  query_store (local_store s) ty.

Definition emitter_get_local (s : EventEmitter) (id : string) : option PeatEvent := local_store s !! id.

(** ** Aggregation windows *)

Record AggregationWindow := mkAggregationWindow {
  w_class : EventClass;
  w_type : string;
  window_duration : Z;
  window_start : Z;
  w_events : list PeatEvent;
  source_nodes : gset string
}.

Definition window_new (class : EventClass) (ty : string) (duration inst : Z) : AggregationWindow :=
  mkAggregationWindow class ty duration inst [] ∅.

Definition window_add (w : AggregationWindow) (e : PeatEvent) : AggregationWindow :=
  mkAggregationWindow (w_class w) (w_type w) (window_duration w) (window_start w)
    (w_events w ++ [e]) ({[source_node_id e]} ∪ source_nodes w).

Definition should_flush (w : AggregationWindow) (inst : Z) : bool :=
  window_duration w <=? saturating_sub inst (window_start w).

Definition event_count (w : AggregationWindow) : Z := len (w_events w).

Definition window_reset (w : AggregationWindow) (inst : Z) : AggregationWindow :=
  mkAggregationWindow (w_class w) (w_type w) (window_duration w) inst [] ∅.

Definition WindowKey : Type := Z * string.

(** ** Aggregator *)

Inductive HierarchyLevel := TierNode | TierCell | TierCohort | TierFederation | TierCoalition.

(** [dyn SummaryStrategy] *)
Record SummaryStrategy := mkSummaryStrategy {
  strategy_event_type : string;
  summarize : list PeatEvent -> list byte
}.

Record EventSummary := mkEventSummary {
  formation_id : string;
  summary_window_start : option Timestamp;
  summary_window_end : option Timestamp;
  summary_class : Z;
  summary_event_type : string;
  summary_event_count : Z;
  source_node_ids : list string;
  summary_type_url : string;
  summary_value : list byte
}.

(** [prost::Message::encode_to_vec] and [DefaultSummaryStrategy::summarize] *)
Class SummaryCodec := {
  encode_to_vec : EventSummary -> list byte;
  default_summarize : string -> list PeatEvent -> list byte
}.

Record HierarchyAggregator := mkHierarchyAggregator {
  tier_id : string;
  tier : HierarchyLevel;
  windows : gmap WindowKey AggregationWindow;
  passthrough_queue : PriorityEventQueue;
  queryable_store : gmap string PeatEvent;
  summary_strategies : gmap string SummaryStrategy;
  summary_queue : list PeatEvent;
  summary_counter : Z;
  default_window_duration : Z
}.

(** [s.split('.').next()]: the text before the first dot *)
Fixpoint before_dot (s : string) : string :=
  match s with
  | EmptyString => EmptyString
  | String c s => if Ascii.eqb c "."%char then EmptyString else String c (before_dot s)
  end.

Definition ms (n : Z) : Z := n * 10 ^ 6.

Section Aggregator.
Context `{SummaryCodec}.

Definition default_strategy (ty : string) : SummaryStrategy :=
  mkSummaryStrategy ty (default_summarize ty).

Definition aggregator_new (id : string) (level : HierarchyLevel) : HierarchyAggregator :=
  mkHierarchyAggregator id level ∅ event_queue_new ∅
    (<["telemetry"%string := default_strategy "telemetry"]>
       (<["detection"%string := default_strategy "detection"]> ∅))
    [] 0 (ms 1000).

Definition with_default_window_duration (a : HierarchyAggregator) (d : Z) : HierarchyAggregator :=
  mkHierarchyAggregator (tier_id a) (tier a) (windows a) (passthrough_queue a) (queryable_store a)
    (summary_strategies a) (summary_queue a) (summary_counter a) d.

Definition register_strategy (a : HierarchyAggregator) (s : SummaryStrategy) : HierarchyAggregator :=
  mkHierarchyAggregator (tier_id a) (tier a) (windows a) (passthrough_queue a) (queryable_store a)
    (<[strategy_event_type s := s]> (summary_strategies a)) (summary_queue a) (summary_counter a)
    (default_window_duration a).

Definition set_windows (a : HierarchyAggregator) (w : gmap WindowKey AggregationWindow) : HierarchyAggregator :=
  mkHierarchyAggregator (tier_id a) (tier a) w (passthrough_queue a) (queryable_store a)
    (summary_strategies a) (summary_queue a) (summary_counter a) (default_window_duration a).

Definition set_passthrough (a : HierarchyAggregator) (q : PriorityEventQueue) : HierarchyAggregator :=
  mkHierarchyAggregator (tier_id a) (tier a) (windows a) q (queryable_store a)
    (summary_strategies a) (summary_queue a) (summary_counter a) (default_window_duration a).

Definition set_queryable (a : HierarchyAggregator) (m : gmap string PeatEvent) : HierarchyAggregator :=
  mkHierarchyAggregator (tier_id a) (tier a) (windows a) (passthrough_queue a) m
    (summary_strategies a) (summary_queue a) (summary_counter a) (default_window_duration a).

Definition set_summaries (a : HierarchyAggregator) (q : list PeatEvent) (n : Z) : HierarchyAggregator :=
  mkHierarchyAggregator (tier_id a) (tier a) (windows a) (passthrough_queue a) (queryable_store a)
    (summary_strategies a) q n (default_window_duration a).

Definition window_key (e : PeatEvent) : WindowKey := (event_class e, event_type e).

(** The duration an event asks for: that of its policy, the default if there is none *)
Definition requested_duration (a : HierarchyAggregator) (e : PeatEvent) : Z :=
  match routing e with
  | Some r => if 0 <? aggregation_window_ms r then ms (aggregation_window_ms r) else default_window_duration a
  | None => default_window_duration a
  end.

Definition receive (a : HierarchyAggregator) (e : PeatEvent) (inst : Z) : HierarchyAggregator :=
  match propagation_of e with
  | PropagationFull => set_passthrough a (push (passthrough_queue a) e)
  | PropagationSummary =>
      let class := default ClassUnspecified (class_try_from (event_class e)) in
      let w := match windows a !! window_key e with
               | Some w => w
               | None => window_new class (event_type e) (requested_duration a e) inst
               end in
      set_windows a (<[window_key e := window_add w e]> (windows a))
  | PropagationQuery => set_queryable a (<[event_id e := e]> (queryable_store a))
  | PropagationLocal => a
  end.

Definition summary_id_of (id : string) (n : Z) : string := id +:+ "-summary-" +:+ pretty n.

Definition generate_summary_id (a : HierarchyAggregator) : option (string * HierarchyAggregator) :=
  n ← checked (summary_counter a + 1);
  Some (summary_id_of (tier_id a) n, set_summaries a (summary_queue a) n).

Definition summary_payload (a : HierarchyAggregator) (w : AggregationWindow) : list byte :=
  match summary_strategies a !! before_dot (w_type w) with
  | Some s => summarize s (w_events w)
  | None => default_summarize (w_type w) (w_events w)
  end.

Definition event_summary (a : HierarchyAggregator) (w : AggregationWindow) (now : Timestamp) : EventSummary :=
  mkEventSummary (tier_id a) (Some now) (Some now) (class_to_i32 (w_class w)) (w_type w)
    (as_u32 (event_count w)) (elements (source_nodes w)) ("type.peat/summary." +:+ w_type w)
    (summary_payload a w).

Definition generate_summary (a : HierarchyAggregator) (w : AggregationWindow) (now : Timestamp) :
    option (option PeatEvent * HierarchyAggregator) :=
  if bool_decide (w_events w = []) then Some (None, a)
  else
    '(id, a) ← generate_summary_id a;
    Some (Some (mkPeatEvent id (Some now) (tier_id a) (tier_id a) None (class_to_i32 (w_class w))
                  (w_type w +:+ "_summary")
                  (Some (mkAggregationPolicy (propagation_to_i32 PropagationFull)
                           (priority_to_i32 PriorityNormal) 300 0))
                  ("type.peat/event_summary." +:+ w_type w)
                  (encode_to_vec (event_summary a w now))), a).

(** The body of the loop of both flushes; the count it adds to is below the number
    of keys. *)
Definition flush_key (st : Z * HierarchyAggregator) (key : WindowKey) (now : Timestamp) (inst : Z) :
    option (Z * HierarchyAggregator) :=
  let '(n, a) := st in
  match windows a !! key with
  | None => Some (n, a)
  | Some w =>
      '(s, a) ← generate_summary a w now;
      let '(n, a) := match s with
                     | Some e => (n + 1, set_summaries a (summary_queue a ++ [e]) (summary_counter a))
                     | None => (n, a)
                     end in
      Some (n, set_windows a (<[key := window_reset w inst]> (windows a)))
  end.

Fixpoint flush_keys (st : Z * HierarchyAggregator) (keys : list WindowKey) (now : Timestamp) (inst : Z) :
    option (Z * HierarchyAggregator) :=
  match keys with
  | [] => Some st
  | key :: keys => st ← flush_key st key now inst; flush_keys st keys now inst
  end.

Definition expired_keys (a : HierarchyAggregator) (inst : Z) : list WindowKey :=
  (filter (fun kw => should_flush (snd kw) inst = true /\ w_events (snd kw) <> []) (map_to_list (windows a))).*1.

Definition flush_expired_windows (a : HierarchyAggregator) (now : Timestamp) (inst : Z) :
    option (Z * HierarchyAggregator) :=
  flush_keys (0, a) (expired_keys a inst) now inst.

Definition non_empty_keys (a : HierarchyAggregator) : list WindowKey :=
  (filter (fun kw => w_events (snd kw) <> []) (map_to_list (windows a))).*1.

Definition flush_all_windows (a : HierarchyAggregator) (now : Timestamp) (inst : Z) :
    option (Z * HierarchyAggregator) :=
  flush_keys (0, a) (non_empty_keys a) now inst.

Definition pop_passthrough (a : HierarchyAggregator) : option (list PeatEvent * HierarchyAggregator) :=
  let '(events, q) := pop_critical (passthrough_queue a) in
  '(more, q) ← pop_weighted q 100;
  Some (events ++ more, set_passthrough a q).

Definition pop_summaries (a : HierarchyAggregator) : list PeatEvent * HierarchyAggregator :=
  (summary_queue a, set_summaries a [] (summary_counter a)).

Definition pop_all_ready (a : HierarchyAggregator) : option (list PeatEvent * HierarchyAggregator) :=
  '(events, a) ← pop_passthrough a;
  let '(summaries, a) := pop_summaries a in
  Some (events ++ summaries, a).

Definition aggregator_query_local (a : HierarchyAggregator) (ty : option string) : list PeatEvent :=
  query_store (queryable_store a) ty.

Definition aggregator_get_local (a : HierarchyAggregator) (id : string) : option PeatEvent :=
  queryable_store a !! id.

Definition passthrough_count (a : HierarchyAggregator) : Z := queue_len (passthrough_queue a).
Definition queryable_count (a : HierarchyAggregator) : Z := Z.of_nat (size (queryable_store a)).
Definition summary_count (a : HierarchyAggregator) : Z := len (summary_queue a).
Definition window_count (a : HierarchyAggregator) : Z := Z.of_nat (size (windows a)).

End Aggregator.

(** When an event of a store expires; no time for events without a time to live or a
    timestamp, and a panic when the sum leaves 64 bits *)
Definition expiry (e : PeatEvent) : option (option Z) :=
  match routing e, event_timestamp e with
  | Some r, Some ts =>
      if 0 <? ttl_seconds r then t ← checked (seconds ts + ttl_seconds r); Some (Some t) else Some None
  | _, _ => Some None
  end.

Definition alive (now_secs : Z) (e : PeatEvent) : bool :=
  match expiry e with Some (Some t) => now_secs <? t | _ => true end.

(** [retain] of both event stores: the panic of one event is the panic of the pass. *)
Definition retain_alive (store : gmap string PeatEvent) (now_secs : Z) : option (gmap string PeatEvent) :=
  if bool_decide (map_Forall (fun _ e => is_Some (expiry e)) store)
  then Some (filter (fun ke => alive now_secs (snd ke) = true) store)
  else None.

Definition enforce_ttl (a : HierarchyAggregator) (now_secs : Z) : option HierarchyAggregator :=
  m ← retain_alive (queryable_store a) now_secs; Some (set_queryable a m).

(** ** The emitter loses nothing and keeps private events *)

Lemma event_id_of_inj n i j : event_id_of n i = event_id_of n j -> i = j.
Proof. unfold event_id_of. intros ?%(inj _)%(inj _). by apply (inj pretty). Qed.

Lemma NoDup_numbered {A} (f : Z -> A) k :
  (forall i j, f i = f j -> i = j) -> NoDup (f <$> seqZ 1 k).
Proof. intros Hf. apply NoDup_fmap_2; [intros ??; apply Hf|apply NoDup_seqZ]. Qed.

Lemma seqZ_snoc k : 0 <= k -> seqZ 1 (k + 1) = seqZ 1 k ++ [k + 1].
Proof. intros Hk. rewrite seqZ_app by lia. f_equal. rewrite (Z.add_comm 1 k). done. Qed.

Definition propagates (e : PeatEvent) : Prop :=
  propagation_of e = PropagationFull \/ propagation_of e = PropagationSummary.

Definition store_all (l : list PeatEvent) : gmap string PeatEvent :=
  fold_left (fun m e => <[event_id e := e]> m) l ∅.

Definition new_event (s : EventEmitter) (id : string) (class : EventClass) (ty : string)
    (r : AggregationPolicy) (url : string) (payload : list byte) (instance : option string)
    (now : Timestamp) : PeatEvent :=
  mkPeatEvent id (Some now) (em_node_id s) (em_formation_id s) instance (class_to_i32 class) ty
    (Some r) url payload.

(** A life of an emitter: the events it accepted, those it handed to the transport and
    the identifiers it generated. *)
Inductive emitter_run (n f : string) :
    EventEmitter -> list PeatEvent -> list PeatEvent -> list string -> Prop :=
| emitter_init : emitter_run n f (emitter_new n f) [] [] []
| emitter_emits s emitted popped ids e s' :
    emitter_run n f s emitted popped ids -> emit s e = (Ok tt, s') ->
    emitter_run n f s' (emitted ++ [e]) popped ids
| emitter_emits_new s emitted popped ids class ty r url payload inst now id s' :
    emitter_run n f s emitted popped ids ->
    emit_new s class ty r url payload inst now = Some (Ok id, s') ->
    emitter_run n f s' (emitted ++ [new_event s id class ty r url payload inst now]) popped (ids ++ [id])
| emitter_pops_critical s emitted popped ids es s' :
    emitter_run n f s emitted popped ids -> emitter_pop_critical s = (es, s') ->
    emitter_run n f s' emitted (popped ++ es) ids
| emitter_pops s emitted popped ids max es s' :
    emitter_run n f s emitted popped ids -> pop_events s max = Some (es, s') ->
    emitter_run n f s' emitted (popped ++ es) ids.

#[export] Instance propagates_dec e : Decision (propagates e).
Proof. unfold propagates. apply _. Defined.

Record emitter_ok (n : string) (s : EventEmitter) (emitted popped : list PeatEvent) (ids : list string) : Prop := {
  em_ok_node : em_node_id s = n;
  em_ok_queue : filter propagates emitted ≡ₚ popped ++ contents (outbound_queue s);
  em_ok_store : local_store s = store_all (filter (fun e => ~ propagates e) emitted);
  em_ok_counter : 0 <= event_counter s;
  em_ok_ids : ids = event_id_of n <$> seqZ 1 (event_counter s)
}.

Lemma filter_snoc {A} (P : A -> Prop) `{!forall x, Decision (P x)} (l : list A) x :
  filter P (l ++ [x]) = filter P l ++ (if decide (P x) then [x] else []).
Proof. rewrite filter_app. by rewrite filter_cons, filter_nil. Qed.

Lemma emit_cases s e s' :
  emit s e = (Ok tt, s') ->
  s' = if decide (propagates e) then set_outbound s (push (outbound_queue s) e) else store_local s e.
Proof.
  unfold emit. case_bool_decide; [done|]. intros; simplify_eq.
  destruct (decide (propagates e)) as [Hp|Hp]; unfold propagates in Hp; destruct (propagation_of e); naive_solver.
Qed.

Lemma store_all_snoc l e : store_all (l ++ [e]) = <[event_id e := e]> (store_all l).
Proof. unfold store_all. by rewrite fold_left_app. Qed.

Lemma emit_ok n s emitted popped ids e s' :
  emitter_ok n s emitted popped ids -> emit s e = (Ok tt, s') ->
  emitter_ok n s' (emitted ++ [e]) popped ids.
Proof.
  intros [Hn Hq Hs Hc Hi] ->%emit_cases. destruct (decide (propagates e)) as [Hp|Hp].
  - split; rewrite ?filter_snoc; try done; simpl.
    + rewrite decide_True by done. rewrite push_contents, Hq, <- app_assoc. f_equiv.
      by rewrite <- Permutation_cons_append.
    + rewrite decide_False by tauto. by rewrite app_nil_r.
  - split; rewrite ?filter_snoc; try done; simpl.
    + rewrite decide_False by done. by rewrite app_nil_r.
    + rewrite decide_True by done. by rewrite store_all_snoc, Hs.
Qed.

(** A generated event is always accepted: its identifier is not empty. *)
Lemma emit_new_cases s class ty r url payload inst now res s' :
  emit_new s class ty r url payload inst now = Some (res, s') ->
  exists s1, event_counter s1 = event_counter s + 1 /\ em_node_id s1 = em_node_id s /\
    outbound_queue s1 = outbound_queue s /\ local_store s1 = local_store s /\
    let id := event_id_of (em_node_id s) (event_counter s + 1) in
    res = Ok id /\ emit s1 (new_event s id class ty r url payload inst now) = (Ok tt, s').
Proof.
  unfold emit_new, generate_event_id. destruct (checked _) as [c|] eqn:E; [|done].
  apply checked_inv in E as ->. simpl.
  set (s1 := mkEventEmitter _ _ _ _ _). intros Hem. exists s1. do 4 (split; [done|]). cbv zeta.
  revert Hem. unfold emit. simpl.
  rewrite bool_decide_false by (unfold event_id_of; destruct (em_node_id s); done).
  intros; simplify_eq. done.
Qed.

Lemma emit_new_ok n s emitted popped ids class ty r url payload inst now id s' :
  emitter_ok n s emitted popped ids ->
  emit_new s class ty r url payload inst now = Some (Ok id, s') ->
  emitter_ok n s' (emitted ++ [new_event s id class ty r url payload inst now]) popped (ids ++ [id]).
Proof.
  intros [Hn Hq Hs Hc Hi] (s1 & E1 & E2 & E3 & E4 & [= ->] & He)%emit_new_cases.
  eapply emit_ok; [|done]. split.
  - by rewrite E2.
  - by rewrite E3.
  - by rewrite E4.
  - lia.
  - rewrite E1, seqZ_snoc, fmap_app by done. by rewrite Hi, Hn.
Qed.

Lemma pop_events_contents s max es s' :
  pop_events s max = Some (es, s') ->
  s' = set_outbound s (outbound_queue s') /\
  contents (outbound_queue s) ≡ₚ es ++ contents (outbound_queue s').
Proof.
  unfold pop_events. simpl. destruct (0 <? _) eqn:Hr; [|intros; by simplify_eq].
  apply Z.ltb_lt in Hr. destruct (pop_weighted _ _) as [[more q]|] eqn:E; [|done].
  simpl. intros; simplify_eq. split; [done|].
  apply pop_weighted_contents in E; [|lia]. unfold contents in *. simpl in *.
  rewrite <- app_assoc. f_equiv. done.
Qed.

Lemma pop_ok n s emitted popped ids es q :
  emitter_ok n s emitted popped ids -> contents (outbound_queue s) ≡ₚ es ++ contents q ->
  emitter_ok n (set_outbound s q) emitted (popped ++ es) ids.
Proof.
  intros [Hn Hq Hs Hc Hi] Hp. split; try done. simpl. by rewrite Hq, Hp, app_assoc.
Qed.

Lemma emitter_run_ok n f s emitted popped ids :
  emitter_run n f s emitted popped ids -> emitter_ok n s emitted popped ids.
Proof.
  induction 1.
  - by split.
  - by eapply emit_ok.
  - by eapply emit_new_ok.
  - match goal with E : emitter_pop_critical _ = _ |- _ => injection E as <- <- end. by apply pop_ok.
  - match goal with E : pop_events _ _ = _ |- _ => apply pop_events_contents in E as [-> Hp] end.
    by apply pop_ok.
Qed.

(** An emitter neither loses nor invents events: what it was given to propagate is
    what it has handed over or still queues, the rest is in its local store under its
    identifier, and generated identifiers never repeat. *)
Theorem emitter_conserves n f s emitted popped ids :
  emitter_run n f s emitted popped ids ->
  filter propagates emitted ≡ₚ popped ++ contents (outbound_queue s) /\
  local_store s = store_all (filter (fun e => ~ propagates e) emitted) /\
  NoDup ids /\ Forall (fun e => propagates e) popped.
Proof.
  intros [_ Hq Hs _ Hi]%emitter_run_ok. split_and!; [done|done| |].
  - rewrite Hi. apply NoDup_numbered. intros i j. apply event_id_of_inj.
  - apply Forall_forall. intros e He. assert (e ∈ filter propagates emitted) as Hf.
    { rewrite Hq. set_solver. }
    by apply list_elem_of_filter in Hf as [? _].
Qed.

(** An event is refused exactly when it has no identifier, and a refusal changes
    nothing; events made by the emitter are never refused. *)
Theorem emit_error_iff s e :
  (fst (emit s e) = Err (EEventOp "Event must have an event_id" "emit") <-> event_id e = "") /\
  (event_id e = "" -> snd (emit s e) = s) /\
  (forall class ty r url payload inst now res s',
    emit_new s class ty r url payload inst now = Some (res, s') ->
    res = Ok (event_id_of (em_node_id s) (event_counter s + 1))).
Proof.
  split_and!.
  - unfold emit. by case_bool_decide.
  - unfold emit. by case_bool_decide.
  - by intros * (s1 & _ & _ & _ & _ & -> & _)%emit_new_cases.
Qed.

(** ** The aggregator loses nothing *)

Section Conservation.
Context `{SummaryCodec}.
Implicit Types (a : HierarchyAggregator) (k : WindowKey) (w : AggregationWindow).

(** The events waiting in the windows *)
Definition pending (ws : gmap WindowKey AggregationWindow) : list PeatEvent :=
  concat ((fun kw => w_events (snd kw)) <$> map_to_list ws).

Lemma pending_insert ws k w : pending (<[k := w]> ws) ≡ₚ w_events w ++ pending (delete k ws).
Proof.
  unfold pending. rewrite <- insert_delete_eq. rewrite map_to_list_insert by apply lookup_delete_eq.
  done.
Qed.

Lemma pending_lookup ws k w : ws !! k = Some w -> pending ws ≡ₚ w_events w ++ pending (delete k ws).
Proof. intros Hk. rewrite <- (insert_id ws k w Hk) at 1. apply pending_insert. Qed.

(** What a summary event says of the batch it stands for *)
Definition summarises (id : string) (s : PeatEvent) (batch : list PeatEvent) : Prop :=
  exists k now value,
    batch <> [] /\
    Forall (fun e => window_key e = k /\ propagation_of e = PropagationSummary) batch /\
    event_type s = k.2 +:+ "_summary" /\ propagation_of s = PropagationFull /\ source_node_id s = id /\
    payload_value s = encode_to_vec
      (mkEventSummary id (Some now) (Some now)
         (class_to_i32 (default ClassUnspecified (class_try_from k.1))) k.2 (as_u32 (len batch))
         (elements (list_to_set (source_node_id <$> batch) : gset string))
         ("type.peat/summary." +:+ k.2) value).

Record window_ok k w : Prop := {
  wok_class : w_class w = default ClassUnspecified (class_try_from k.1);
  wok_type : w_type w = k.2;
  wok_events : Forall (fun e => window_key e = k /\ propagation_of e = PropagationSummary) (w_events w);
  wok_sources : source_nodes w = list_to_set (source_node_id <$> w_events w)
}.

(** The batches a flush of [keys] turns into summaries *)
Definition batch_of (ws : gmap WindowKey AggregationWindow) k : list (list PeatEvent) :=
  match ws !! k with
  | Some w => if decide (w_events w = []) then [] else [w_events w]
  | None => []
  end.

Definition batches_of a (keys : list WindowKey) : list (list PeatEvent) :=
  flat_map (batch_of (windows a)) keys.

(** A life of an aggregator: the events received, those forwarded as they are, the
    batches summarised and the summaries handed over. A flush visits the keys in any
    order the hash map gives. *)
Inductive agg_run (id : string) (level : HierarchyLevel) :
    HierarchyAggregator -> list PeatEvent -> list PeatEvent -> list (list PeatEvent) -> list PeatEvent -> Prop :=
| agg_init d : agg_run id level (with_default_window_duration (aggregator_new id level) d) [] [] [] []
| agg_registers a received passed batches out s :
    agg_run id level a received passed batches out ->
    agg_run id level (register_strategy a s) received passed batches out
| agg_receives a received passed batches out e inst :
    agg_run id level a received passed batches out ->
    agg_run id level (receive a e inst) (received ++ [e]) passed batches out
| agg_flushes a received passed batches out keys now inst n a' :
    agg_run id level a received passed batches out ->
    keys ≡ₚ expired_keys a inst \/ keys ≡ₚ non_empty_keys a ->
    flush_keys (0, a) keys now inst = Some (n, a') ->
    agg_run id level a' received passed (batches ++ batches_of a keys) out
| agg_passes a received passed batches out es a' :
    agg_run id level a received passed batches out -> pop_passthrough a = Some (es, a') ->
    agg_run id level a' received (passed ++ es) batches out
| agg_pops a received passed batches out es a' :
    agg_run id level a received passed batches out -> pop_summaries a = (es, a') ->
    agg_run id level a' received passed batches (out ++ es)
| agg_expires a received passed batches out now_secs a' :
    agg_run id level a received passed batches out -> enforce_ttl a now_secs = Some a' ->
    agg_run id level a' received passed batches out.

Definition is_mode (m : PropagationMode) (e : PeatEvent) : Prop := propagation_of e = m.

#[export] Instance is_mode_dec m e : Decision (is_mode m e).
Proof. unfold is_mode. apply _. Defined.

Record agg_ok (id : string) a (received passed : list PeatEvent) (batches : list (list PeatEvent))
    (out : list PeatEvent) : Prop := {
  ok_tier : tier_id a = id;
  ok_full : filter (is_mode PropagationFull) received ≡ₚ passed ++ contents (passthrough_queue a);
  ok_summary : filter (is_mode PropagationSummary) received ≡ₚ concat batches ++ pending (windows a);
  ok_windows : map_Forall window_ok (windows a);
  ok_batches : Forall2 (summarises id) (out ++ summary_queue a) batches;
  ok_counter : 0 <= summary_counter a;
  ok_ids : event_id <$> (out ++ summary_queue a) = summary_id_of id <$> seqZ 1 (summary_counter a);
  ok_store : map_Forall (fun i e => event_id e = i /\ e ∈ received /\ propagation_of e = PropagationQuery)
               (queryable_store a)
}.

Lemma filter_mode_snoc m l e :
  filter (is_mode m) (l ++ [e]) = filter (is_mode m) l ++ (if decide (propagation_of e = m) then [e] else []).
Proof. by rewrite filter_snoc. Qed.

Lemma window_add_ok k w e :
  window_ok k w -> window_key e = k -> propagation_of e = PropagationSummary -> window_ok k (window_add w e).
Proof.
  intros [Hc Ht He Hs] Hk Hp. split; simpl; [done|done| |].
  - apply Forall_app. by split; [|constructor].
  - rewrite fmap_app, list_to_set_app_L, Hs. simpl. set_solver.
Qed.

(** The window an event goes to, made if it is not there *)
Definition target_window a (e : PeatEvent) (inst : Z) : AggregationWindow :=
  match windows a !! window_key e with
  | Some w => w
  | None => window_new (default ClassUnspecified (class_try_from (event_class e))) (event_type e)
              (requested_duration a e) inst
  end.

Lemma target_window_ok a e inst :
  map_Forall window_ok (windows a) ->
  window_ok (window_key e) (target_window a e inst) /\
  pending (windows a) ≡ₚ w_events (target_window a e inst) ++ pending (delete (window_key e) (windows a)).
Proof.
  intros Hw. unfold target_window. destruct (windows a !! window_key e) as [w|] eqn:E.
  - split; [by apply Hw|by apply pending_lookup].
  - split; [by split|]. simpl. by rewrite delete_id.
Qed.

Lemma store_ok_mono (store : gmap string PeatEvent) received e :
  map_Forall (fun i x => event_id x = i /\ x ∈ received /\ propagation_of x = PropagationQuery) store ->
  map_Forall (fun i x => event_id x = i /\ x ∈ received ++ [e] /\ propagation_of x = PropagationQuery) store.
Proof. intros Hs i x (? & ? & ?)%Hs. split_and!; set_solver. Qed.

(** Decides the filters of an appended event whose mode is known. *)
Ltac by_mode Em :=
  rewrite ?filter_mode_snoc;
  try (rewrite decide_True by exact Em); try (rewrite decide_False by congruence);
  rewrite ?app_nil_r.

Lemma receive_ok id a received passed batches out e inst :
  agg_ok id a received passed batches out ->
  agg_ok id (receive a e inst) (received ++ [e]) passed batches out.
Proof.
  intros [Ht Hf Hs Hw Hb Hc Hi Hq]. unfold receive. destruct (propagation_of e) eqn:Em.
  - split; simpl; by_mode Em; try done; [|by apply store_ok_mono].
    rewrite push_contents, Hf, <- app_assoc. f_equiv. by rewrite <- Permutation_cons_append.
  - change (match windows a !! window_key e with Some w => w | None => _ end) with (target_window a e inst).
    destruct (target_window_ok a e inst Hw) as [Hok Hp].
    split; simpl; by_mode Em; try done; [| |by apply store_ok_mono].
    + rewrite pending_insert, Hs, Hp. simpl. rewrite <- !app_assoc. f_equiv. f_equiv.
      by rewrite <- Permutation_cons_append.
    + apply map_Forall_insert_2; [by apply window_add_ok|done].
  - split; simpl; by_mode Em; try done.
    apply map_Forall_insert_2; [set_solver|by apply store_ok_mono].
  - split; by_mode Em; try done. by apply store_ok_mono.
Qed.

Lemma generate_summary_cases a w now s a' :
  generate_summary a w now = Some (s, a') ->
  if decide (w_events w = []) then s = None /\ a' = a
  else a' = set_summaries a (summary_queue a) (summary_counter a + 1) /\
    exists e, s = Some e /\ event_id e = summary_id_of (tier_id a) (summary_counter a + 1) /\
      event_type e = w_type w +:+ "_summary" /\ propagation_of e = PropagationFull /\
      source_node_id e = tier_id a /\
      payload_value e = encode_to_vec (event_summary a' w now).
Proof.
  unfold generate_summary. destruct (decide (w_events w = [])) as [E|E].
  - rewrite bool_decide_true by done. intros; by simplify_eq.
  - rewrite bool_decide_false by done. unfold generate_summary_id.
    destruct (checked _) as [n|] eqn:En; [|done]. apply checked_inv in En as ->. simpl.
    intros; simplify_eq. split; [done|]. by eexists.
Qed.

Lemma summary_of_window id a k w now e :
  tier_id a = id -> window_ok k w -> w_events w <> [] ->
  event_type e = w_type w +:+ "_summary" -> propagation_of e = PropagationFull -> source_node_id e = id ->
  payload_value e = encode_to_vec (event_summary a w now) -> summarises id e (w_events w).
Proof.
  intros Ha [Hc Ht He Hs] Hne Ety Em Esrc Ev. exists k, now, (summary_payload a w).
  split_and!; try done; [by rewrite Ety, Ht|].
  rewrite Ev. unfold event_summary. by rewrite Ha, Hc, Ht, Hs.
Qed.

Lemma flush_key_ok id a received passed batches out n k now inst n' a' :
  agg_ok id a received passed batches out -> flush_key (n, a) k now inst = Some (n', a') ->
  agg_ok id a' received passed (batches ++ batch_of (windows a) k) out /\
  n' = n + len (batch_of (windows a) k) /\
  (forall k', k' <> k -> windows a' !! k' = windows a !! k').
Proof.
  intros Hok. unfold flush_key, batch_of. destruct (windows a !! k) as [w|] eqn:Ek.
  2: { intros; simplify_eq. rewrite app_nil_r. split_and!; [done|unfold len; simpl; lia|done]. }
  destruct (generate_summary a w now) as [[s a1]|] eqn:Eg; [|done]. apply generate_summary_cases in Eg.
  destruct Hok as [Ht Hf Hs Hw Hb Hc Hi Hq]. simpl.
  assert (pending (windows a) ≡ₚ w_events w ++ pending (<[k := window_reset w inst]> (windows a))) as Hp
    by by rewrite pending_insert, (pending_lookup _ _ _ Ek).
  assert (map_Forall window_ok (<[k := window_reset w inst]> (windows a))) as Hw'.
  { apply map_Forall_insert_2; [|done]. destruct (Hw k w Ek). by split. }
  destruct (decide (w_events w = [])) as [E|E].
  - destruct Eg as [-> ->]. intros; simplify_eq. rewrite app_nil_r, E in *.
    split_and!; [|unfold len; simpl; lia|intros k' Hk; simpl; by rewrite lookup_insert_ne].
    split; try done. simpl. by rewrite Hs, Hp.
  - destruct Eg as [-> (e & -> & Eid & Ety & Em & Esrc & Ev)]. intros; simplify_eq.
    split_and!; [|done|intros k' Hk; simpl; by rewrite lookup_insert_ne].
    split; simpl; try done.
    + rewrite Hs, Hp, concat_app. simpl. rewrite app_nil_r. by rewrite <- app_assoc.
    + rewrite app_assoc. apply Forall2_app; [done|]. constructor; [|done].
      eapply (summary_of_window _ _ k); try done. by apply Hw.
    + lia.
    + rewrite app_assoc, fmap_app, Hi, seqZ_snoc, fmap_app by done. simpl. by rewrite Eid.
Qed.

Lemma flush_keys_ok id keys : forall a received passed batches out n now inst n' a',
  NoDup keys -> agg_ok id a received passed batches out ->
  flush_keys (n, a) keys now inst = Some (n', a') ->
  agg_ok id a' received passed (batches ++ batches_of a keys) out /\ n' = n + len (batches_of a keys).
Proof.
  induction keys as [|k keys IH]; intros a received passed batches out n now inst n' a' Hnd Hok; cbn [flush_keys].
  - intros; simplify_eq. unfold batches_of, len. simpl. rewrite app_nil_r. split; [done|lia].
  - destruct (flush_key (n, a) k now inst) as [[n1 a1]|] eqn:E; [|done]. simpl.
    apply NoDup_cons in Hnd as [Hk Hnd].
    destruct (flush_key_ok _ _ _ _ _ _ _ _ _ _ _ _ Hok E) as (Hok1 & -> & Hsame). intros Hf.
    destruct (IH _ _ _ _ _ _ _ _ _ _ Hnd Hok1 Hf) as [Hok2 ->].
    assert (batches_of a1 keys = batches_of a keys) as Eb.
    { unfold batches_of. clear -Hk Hsame. induction keys as [|k' keys IH]; simpl; [done|].
      rewrite IH by set_solver. f_equal. unfold batch_of. by rewrite Hsame by set_solver. }
    rewrite Eb in *. split.
    + unfold batches_of at 1. simpl. by rewrite app_assoc.
    + unfold batches_of at 2. simpl. rewrite len_app. unfold batches_of. lia.
Qed.

Lemma keys_NoDup a (P : WindowKey * AggregationWindow -> Prop) `{!forall x, Decision (P x)} :
  NoDup (filter P (map_to_list (windows a))).*1.
Proof.
  eapply sublist_NoDup; [apply (NoDup_fst_map_to_list (windows a))|].
  apply fmap_sublist, sublist_filter.
Qed.

Lemma pop_passthrough_ok id a received passed batches out es a' :
  agg_ok id a received passed batches out -> pop_passthrough a = Some (es, a') ->
  agg_ok id a' received (passed ++ es) batches out.
Proof.
  intros [Ht Hf Hs Hw Hb Hc Hi Hq]. unfold pop_passthrough. simpl.
  destruct (pop_weighted _ _) as [[more q]|] eqn:E; [|done]. simpl. intros; simplify_eq.
  apply pop_weighted_contents in E; [|lia]. split; try done. simpl. rewrite Hf.
  unfold contents in *. simpl in *. rewrite E. by rewrite !app_assoc.
Qed.

Lemma enforce_ttl_ok id a received passed batches out now_secs a' :
  agg_ok id a received passed batches out -> enforce_ttl a now_secs = Some a' ->
  agg_ok id a' received passed batches out.
Proof.
  intros [Ht Hf Hs Hw Hb Hc Hi Hq]. unfold enforce_ttl, retain_alive. case_bool_decide; [|done].
  simpl. intros; simplify_eq. split; try done. simpl.
  intros i e [He _]%map_lookup_filter_Some. by apply Hq.
Qed.

Lemma agg_run_ok id level a received passed batches out :
  agg_run id level a received passed batches out -> agg_ok id a received passed batches out.
Proof.
  induction 1 as [d| |a received passed batches out e inst _ IH
    |a received passed batches out keys now inst n a' _ IH Hk Hf| |a received passed batches out es a' _ IH Hp|].
  - split; done.
  - match goal with IH : agg_ok _ _ _ _ _ _ |- _ => destruct IH; by split end.
  - by apply receive_ok.
  - eapply flush_keys_ok in Hf as [? _]; [done| |done].
    destruct Hk as [-> | ->]; apply keys_NoDup.
  - by eapply pop_passthrough_ok.
  - injection Hp as <- <-. destruct IH as [Ht Hf Hs Hw Hb Hc Hi Hq].
    split; try done; simpl; by rewrite app_nil_r.
  - by eapply enforce_ttl_ok.
Qed.

(** C24: an aggregator accounts for every event it receives. Those with full propagation
    are exactly the ones forwarded or still queued; those to be summarised are exactly
    the ones in the batches summarised so far and in the open windows; and the
    summaries handed over or queued stand, one by one and in order, for those batches,
    with identifiers that never repeat. *)
Theorem aggregator_conserves id level a received passed batches out :
  agg_run id level a received passed batches out ->
  filter (is_mode PropagationFull) received ≡ₚ passed ++ contents (passthrough_queue a) /\
  filter (is_mode PropagationSummary) received ≡ₚ concat batches ++ pending (windows a) /\
  Forall2 (summarises id) (out ++ summary_queue a) batches /\
  NoDup (event_id <$> (out ++ summary_queue a)).
Proof.
  intros [Ht Hf Hs Hw Hb Hc Hi Hq]%agg_run_ok. split_and!; try done.
  rewrite Hi. apply NoDup_numbered. intros i j. unfold summary_id_of.
  intros ?%(inj _)%(inj _). by apply (inj pretty).
Qed.

Lemma expired_keys_spec a inst k :
  k ∈ expired_keys a inst <->
  exists w, windows a !! k = Some w /\ should_flush w inst = true /\ w_events w <> [].
Proof.
  unfold expired_keys. rewrite list_elem_of_fmap. split.
  - intros ([k' w] & -> & [[? ?] Hin]%list_elem_of_filter). apply elem_of_map_to_list in Hin. by exists w.
  - intros (w & Hk & Hs & He). exists (k, w). split; [done|].
    apply list_elem_of_filter. split; [done|]. by apply elem_of_map_to_list.
Qed.

Lemma flush_keys_windows keys : forall n a now inst n' a' k,
  NoDup keys -> flush_keys (n, a) keys now inst = Some (n', a') ->
  windows a' !! k =
    (if decide (k ∈ keys) then (fun w => window_reset w inst) <$> windows a !! k else windows a !! k).
Proof.
  induction keys as [|k0 keys IH]; intros n a now inst n' a' k Hnd; cbn [flush_keys].
  - intros; by simplify_eq.
  - destruct (flush_key (n, a) k0 now inst) as [[n1 a1]|] eqn:E; [|done]. cbn. intros Hf.
    apply NoDup_cons in Hnd as [Hk Hnd]. rewrite (IH _ _ _ _ _ _ k Hnd Hf).
    assert (windows a1 !! k = if decide (k = k0) then (fun w => window_reset w inst) <$> windows a !! k
                              else windows a !! k) as ->.
    { revert E. unfold flush_key. destruct (windows a !! k0) as [w|] eqn:Ek.
      - destruct (generate_summary a w now) as [[s a2]|] eqn:Eg; [|done]. apply generate_summary_cases in Eg.
        assert (windows a2 = windows a) as E2.
        { destruct (decide (w_events w = [])); [by destruct Eg as [_ ->]|by destruct Eg as [-> _]]. }
        simpl. destruct s; intros; simplify_eq; simpl; rewrite E2;
          destruct (decide (k = k0)) as [->|Hne]; by rewrite ?Ek, ?lookup_insert_eq, ?lookup_insert_ne.
      - intros; simplify_eq. case_decide; [subst; by rewrite Ek|done]. }
    destruct (decide (k = k0)) as [->|Hne].
    + rewrite decide_False by done. by rewrite decide_True by set_solver.
    + destruct (decide (k ∈ keys)); [by rewrite decide_True by set_solver|by rewrite decide_False by set_solver].
Qed.

Lemma flush_key_total n a k now inst :
  0 <= summary_counter a -> summary_counter a + 1 < u64_modulus ->
  exists n' a', flush_key (n, a) k now inst = Some (n', a') /\
    summary_counter a <= summary_counter a' <= summary_counter a + 1.
Proof.
  intros H0 H1. unfold flush_key. destruct (windows a !! k) as [w|]; [|do 2 eexists; split; [done|lia]].
  unfold generate_summary. case_bool_decide; simpl; [do 2 eexists; split; [done|simpl; lia]|].
  unfold generate_summary_id. rewrite checked_Some by (unfold is_u64; lia). simpl.
  do 2 eexists. split; [done|]. simpl. lia.
Qed.

Lemma flush_keys_total keys : forall n a now inst,
  0 <= summary_counter a -> summary_counter a + len keys < u64_modulus ->
  is_Some (flush_keys (n, a) keys now inst).
Proof.
  induction keys as [|k keys IH]; intros n a now inst H0 H1; cbn [flush_keys]; [done|].
  assert (len (k :: keys) = len keys + 1) as El by (unfold len; simpl; lia).
  pose proof (len_nonneg keys).
  destruct (flush_key_total n a k now inst) as (n1 & a1 & -> & Hc); [lia|lia|].
  simpl. apply IH; lia.
Qed.

Lemma batches_of_expired a inst keys :
  keys ⊆ expired_keys a inst -> len (batches_of a keys) = len keys.
Proof.
  intros Hsub. unfold batches_of. induction keys as [|k keys IH]; [done|]. simpl. rewrite len_app.
  rewrite IH by set_solver. destruct (proj1 (expired_keys_spec a inst k)) as (w & Hk & _ & He); [set_solver|].
  unfold batch_of. rewrite Hk, decide_False by done. unfold len. simpl. lia.
Qed.

(** A flush of the expired windows reports one summary per window that is due and
    not empty, empties and restarts exactly those windows and leaves the others as they
    are. It fails only when the summary counter overflows. *)
Theorem flush_expired_windows_spec id level a received passed batches out now inst :
  agg_run id level a received passed batches out ->
  match flush_expired_windows a now inst with
  | Some (n, a') =>
      n = len (expired_keys a inst) /\
      (forall k w, windows a !! k = Some w ->
        windows a' !! k = Some (if should_flush w inst && negb (bool_decide (w_events w = []))
                                then window_reset w inst else w)) /\
      (forall k, windows a !! k = None -> windows a' !! k = None)
  | None => u64_modulus <= summary_counter a + len (expired_keys a inst)
  end.
Proof.
  intros Hok%agg_run_ok. unfold flush_expired_windows.
  assert (NoDup (expired_keys a inst)) as Hnd by apply keys_NoDup.
  destruct (flush_keys (0, a) (expired_keys a inst) now inst) as [[n a']|] eqn:E.
  - destruct (flush_keys_ok _ _ _ _ _ _ _ _ _ _ _ _ Hnd Hok E) as [_ ->].
    rewrite (batches_of_expired a inst) by done. split_and!; [lia| |].
    + intros k w Hk. rewrite (flush_keys_windows _ _ _ _ _ _ _ k Hnd E), Hk.
      destruct (decide (k ∈ expired_keys a inst)) as [Hin|Hin]; simpl.
      * apply expired_keys_spec in Hin as (w' & Hk' & Hd & Hne). simplify_eq.
        by rewrite Hd, bool_decide_false by done.
      * destruct (should_flush w inst) eqn:Es; [|done]. case_bool_decide; [done|].
        destruct Hin. apply expired_keys_spec. by exists w.
    + intros k Hk. rewrite (flush_keys_windows _ _ _ _ _ _ _ k Hnd E), Hk. by case_decide.
  - destruct (Z.le_gt_cases u64_modulus (summary_counter a + len (expired_keys a inst))) as [|Hlt]; [done|].
    destruct (flush_keys_total (expired_keys a inst) 0 a now inst) as [x Hx]; [apply Hok|lia|congruence].
Qed.

(** A window that has been idle is due as soon as its first event arrives: the
    event is flushed alone, however long its batching period is. *)
Theorem idle_window_flushes_at_once a e w inst :
  propagation_of e = PropagationSummary -> windows a !! window_key e = Some w ->
  w_events w = [] -> should_flush w inst = true ->
  window_key e ∈ expired_keys (receive a e inst) inst /\
  batches_of (receive a e inst) [window_key e] = [[e]].
Proof.
  intros Hm Hw He Hs. assert (windows (receive a e inst) !! window_key e = Some (window_add w e)) as E.
  { unfold receive. rewrite Hm, Hw. simpl. by rewrite lookup_insert_eq. }
  split.
  - apply expired_keys_spec. exists (window_add w e). split_and!; [done|done|]. simpl. by rewrite He.
  - unfold batches_of, batch_of. simpl. rewrite E. simpl. by rewrite He.
Qed.

(** Events with query or local propagation never leave their node: if an aggregator
    only receives what emitters hand over, it forwards and summarises events that were
    emitted to propagate, and its own query store stays empty. *)
Theorem private_events_stay id level a received passed batches out :
  agg_run id level a received passed batches out ->
  Forall (fun e => exists n f s emitted popped ids, emitter_run n f s emitted popped ids /\ e ∈ popped) received ->
  queryable_store a = ∅ /\ Forall propagates passed /\ Forall (Forall propagates) batches.
Proof.
  intros [Ht Hf Hs Hw Hb Hc Hi Hq]%agg_run_ok Hr.
  assert (forall e, e ∈ received -> propagates e) as Hp.
  { intros e He. rewrite Forall_forall in Hr.
    destruct (Hr e He) as (n & f & s & emitted & popped & ids & [_ Hpq _ _ _]%emitter_run_ok & Hin).
    assert (e ∈ filter propagates emitted) as He' by (rewrite Hpq; set_solver).
    by apply list_elem_of_filter in He' as [? _]. }
  split_and!.
  - apply map_empty. intros i. destruct (queryable_store a !! i) as [e|] eqn:E; [|done].
    apply Hq in E as (_ & He%Hp & Hm). unfold propagates in He. rewrite Hm in He. naive_solver.
  - apply Forall_forall. intros e He. assert (e ∈ filter (is_mode PropagationFull) received) as He'
      by (rewrite Hf; set_solver).
    left. by apply list_elem_of_filter in He' as [? _].
  - apply Forall_forall. intros b Hb'. apply Forall_forall. intros e He.
    assert (e ∈ filter (is_mode PropagationSummary) received) as He'.
    { rewrite Hs. apply elem_of_app. left. apply list_elem_of_In, in_concat.
      exists b. split; by apply list_elem_of_In. }
    right. by apply list_elem_of_filter in He' as [? _].
Qed.

End Conservation.

(** ** Time to live *)

(** Cleaning a store keeps exactly the events that have no expiry or expire later,
    and panics exactly when an expiry leaves 64 bits. *)
Theorem enforce_ttl_spec a now_secs :
  match enforce_ttl a now_secs with
  | Some a' =>
      a' = set_queryable a (queryable_store a') /\
      forall i e, queryable_store a' !! i = Some e <->
        queryable_store a !! i = Some e /\
        forall r ts, routing e = Some r -> event_timestamp e = Some ts -> 0 < ttl_seconds r ->
          now_secs < seconds ts + ttl_seconds r
  | None => exists i e r ts, queryable_store a !! i = Some e /\ routing e = Some r /\
      event_timestamp e = Some ts /\ 0 < ttl_seconds r /\ ~ is_u64 (seconds ts + ttl_seconds r)
  end.
Proof.
  unfold enforce_ttl, retain_alive. case_bool_decide as Hall; simpl.
  - split; [done|]. intros i e. rewrite map_lookup_filter_Some. simpl. split.
    + intros [He Ha]. split; [done|]. intros r ts Hr Ht Hp. specialize (Hall i e He).
      revert Hall Ha. unfold alive, expiry. rewrite Hr, Ht, (proj2 (Z.ltb_lt 0 _)) by done.
      destruct (checked _) as [t|] eqn:E; simpl; [|by intros [??]]. apply checked_inv in E as ->.
      intros _ ?%Z.ltb_lt. done.
    + intros [He Hlt]. split; [done|]. unfold alive, expiry.
      destruct (routing e) as [r|] eqn:Hr; [|done]. destruct (event_timestamp e) as [ts|] eqn:Ht; [|done].
      destruct (Z.ltb_spec 0 (ttl_seconds r)) as [Hp|]; [|done].
      destruct (checked _) as [t|] eqn:E; [|done]. apply checked_inv in E as ->. simpl.
      apply Z.ltb_lt. by eapply Hlt.
  - apply map_not_Forall in Hall as (i & e & He & Hn); [|apply _]. exists i, e. revert Hn. unfold expiry.
    destruct (routing e) as [r|] eqn:Hr; [|by intros []]. destruct (event_timestamp e) as [ts|] eqn:Ht; [|by intros []].
    destruct (Z.ltb_spec 0 (ttl_seconds r)) as [Hp|]; [|by intros []]. unfold checked. case_decide; [by intros []|].
    intros _. by exists r, ts.
Qed.

(** ** Popping "all" *)

(** Popping the passthrough events never fails and returns every critical event
    first, but it does not return everything: at most a hundred of the others come, at
    most fifty of them of high priority, even when nothing else waits. *)
Theorem pop_passthrough_spec `{SummaryCodec} a :
  exists rest a', pop_passthrough a = Some (q_critical (passthrough_queue a) ++ rest, a') /\
    a' = set_passthrough a (passthrough_queue a') /\
    q_critical (passthrough_queue a') = [] /\
    contents (passthrough_queue a) ≡ₚ
      q_critical (passthrough_queue a) ++ rest ++ contents (passthrough_queue a') /\
    len rest <= 100 /\
    len (q_high (passthrough_queue a')) = saturating_sub (len (q_high (passthrough_queue a))) 50.
Proof.
  unfold pop_passthrough. simpl. set (q := mkPriorityEventQueue [] _ _ _).
  assert (0 <= 100) as H0 by lia. assert (100 * 50 < u64_modulus) as H1 by done.
  pose proof (pop_weighted_shares q 100 H0 H1) as E. rewrite E. simpl.
  apply (pop_weighted_contents _ _ _ _ H0) in E.
  destruct (shares_ok q 100 H0) as (Hh & Hn & Hs & Hl).
  assert (high_share q 100 <= len (q_high q)) by (unfold high_share; lia).
  assert (normal_share q 100 <= len (q_normal q)) by (unfold normal_share; lia).
  assert (low_share q 100 <= len (q_low q) /\ low_share q 100 <= 100 - high_share q 100 - normal_share q 100)
    by (unfold low_share; lia).
  do 2 eexists. split; [done|]. simpl. split_and!; [done|done| | |].
  - unfold contents in *. simpl in *. by rewrite <- E.
  - rewrite !len_app, !len_take by (simpl in *; lia). lia.
  - unfold len at 1. rewrite length_drop. unfold high_share, saturating_sub in *.
    change (100 * 50 / 100) with 50 in *. simpl in *. unfold len in *. lia.
Qed.

(** ** Concrete instances *)

(** A codec that keeps the number of events *)
#[local] Instance counting_codec : SummaryCodec := {
  encode_to_vec s := summary_value s;
  default_summarize _ es := List.map (fun _ => Byte.x01) es
}.

Definition noon : Timestamp := mkTimestamp 43200 0.

Definition detection (id : string) (mode : Z) : PeatEvent :=
  mkPeatEvent id (Some noon) "n1" "cell-1" None 1 "detection.vehicle"
    (Some (mkAggregationPolicy mode 1 300 1000)) "" [Byte.x00].

Definition emitter1 : EventEmitter := emitter_new "n1" "cell-1".
Definition emitter2 : EventEmitter := snd (emit emitter1 (detection "e1" 1)).

Lemma emitter2_run : emitter_run "n1" "cell-1" emitter2 [detection "e1" 1] [] [].
Proof. apply (emitter_emits _ _ emitter1 [] [] []); [constructor|reflexivity]. Defined.

Lemma emitter3_run :
  exists s, pop_events emitter2 10 = Some ([detection "e1" 1], s) /\
    emitter_run "n1" "cell-1" s [detection "e1" 1] [detection "e1" 1] [].
Proof.
  eexists. split; [reflexivity|].
  apply (emitter_pops _ _ emitter2 [detection "e1" 1] [] [] 10 [detection "e1" 1]); [apply emitter2_run|reflexivity].
Defined.

Lemma emitter_conserves_witness :
  filter propagates [detection "e1" 1] ≡ₚ [] ++ contents (outbound_queue emitter2) /\
  local_store emitter2 = store_all (filter (fun e => ~ propagates e) [detection "e1" 1]) /\
  NoDup ([] : list string) /\ Forall (fun e => propagates e) [].
Proof. apply (emitter_conserves "n1" "cell-1"). exact emitter2_run. Defined.

Definition tier1 : HierarchyAggregator :=
  with_default_window_duration (aggregator_new "cell-1" TierCell) (ms 500).
Definition tier2 : HierarchyAggregator := receive tier1 (detection "e1" 1) 0.

Lemma tier2_run : agg_run "cell-1" TierCell tier2 [detection "e1" 1] [] [] [].
Proof. apply (agg_receives _ _ tier1 [] [] [] []). constructor. Defined.

Lemma aggregator_conserves_witness :
  filter (is_mode PropagationSummary) [detection "e1" 1] ≡ₚ concat [] ++ pending (windows tier2).
Proof. by destruct (aggregator_conserves _ _ _ _ _ _ _ tier2_run) as (_ & ? & _). Defined.

Lemma flush_expired_windows_spec_witness :
  exists a', flush_expired_windows tier2 noon (ms 1000) = Some (1, a') /\
    windows a' !! window_key (detection "e1" 1) =
      Some (window_new Product "detection.vehicle" (ms 1000) (ms 1000)).
Proof.
  pose proof (flush_expired_windows_spec _ _ _ _ _ _ _ noon (ms 1000) tier2_run) as Hspec.
  destruct (flush_expired_windows tier2 noon (ms 1000)) as [[n a']|] eqn:E; [|vm_compute in E; discriminate].
  destruct Hspec as (-> & Hw & _). exists a'. split.
  - replace (len (expired_keys tier2 (ms 1000))) with 1 by (vm_compute; reflexivity). reflexivity.
  - erewrite Hw by (vm_compute; reflexivity). vm_compute. reflexivity.
Defined.

Definition tier3 : HierarchyAggregator :=
  match flush_all_windows tier2 noon (ms 1000) with Some (_, a) => a | None => tier2 end.

Lemma idle_window_flushes_at_once_witness :
  window_key (detection "e2" 1) ∈ expired_keys (receive tier3 (detection "e2" 1) (ms 5000)) (ms 5000) /\
  batches_of (receive tier3 (detection "e2" 1) (ms 5000)) [window_key (detection "e2" 1)] = [[detection "e2" 1]].
Proof.
  apply (idle_window_flushes_at_once tier3 (detection "e2" 1)
           (window_new Product "detection.vehicle" (ms 1000) (ms 1000))); vm_compute; reflexivity.
Defined.

Lemma private_events_stay_witness : queryable_store tier2 = ∅ /\ Forall propagates [] /\ Forall (Forall propagates) [].
Proof.
  apply (private_events_stay _ _ _ _ _ _ _ tier2_run). constructor; [|constructor].
  destruct emitter3_run as (s & _ & Hr). exists "n1", "cell-1", s, [detection "e1" 1], [detection "e1" 1], [].
  split; [exact Hr|by left].
Defined.
