(* ===== verification/Query.v ===== *)
(** * Event queries

    Models peat-protocol/src/event/query.rs and the query messages of
    peat-schema/proto/event.proto: event stores behind the trait [EventStore], the
    in-memory store, the handler that answers a query or names the nodes to forward it
    to, and the merge of the answers. The theorems on the handler are proved against
    the laws of a store ([EventStoreLaws]), which the in-memory store satisfies. *)

From S2P Require Import Prelude Capability EventQueue Aggregator.

Open Scope Z_scope.

(** ** Messages *)

Inductive Target := TargetNodeId (n : string) | TargetFormationId (f : string) | TargetSubordinates (b : bool).

Record QueryScope := mkQueryScope { target : option Target }.

Record EventFilters := mkEventFilters {
  f_event_class : option Z;
  f_event_type : option string;
  after_seconds : option Z;
  before_seconds : option Z;
  f_source_instance_id : option string
}.

Record EventQuery := mkEventQuery {
  query_id : string;
  requester_id : string;
  scope : option QueryScope;
  filters : option EventFilters;
  limit : Z
}.

Record EventQueryResponse := mkEventQueryResponse {
  r_query_id : string;
  responder_id : string;
  r_events : list PeatEvent;
  total_matching : Z;
  truncated : bool
}.

Inductive QueryResult :=
| Local_ (r : EventQueryResponse)
| Forward (nodes : list string)
| LocalPlusForward (r : EventQueryResponse) (nodes : list string).

(** The arguments of [EventStore::query] but the limit *)
Record Criteria := mkCriteria {
  c_class : option EventClass;
  c_type : option string;
  c_after : option Z;
  c_before : option Z;
  c_instance : option string
}.

(** ** Stores *)

(** [trait EventStore] *)
Class EventStore (S : Type) := {
  store_query : S -> Criteria -> Z -> list PeatEvent;
  store_put : S -> PeatEvent -> S;
  store_count : S -> Z;
  remove_expired : S -> Z -> option S
}.

(** [s.starts_with(p)] *)
Definition starts_with (p s : string) : bool := String.prefix p s.

Definition matches (c : Criteria) (e : PeatEvent) : bool :=
  match c_class c with Some cl => event_class e =? class_to_i32 cl | None => true end &&
  match c_type c with Some t => starts_with t (event_type e) | None => true end &&
  match event_timestamp e with
  | Some ts =>
      match c_after c with Some after => negb (seconds ts <? after) | None => true end &&
      match c_before c with Some before => negb (before <? seconds ts) | None => true end
  | None => true
  end &&
  match c_instance c with Some i => bool_decide (source_instance_id e = Some i) | None => true end.

Definition event_secs (e : PeatEvent) : Z := seconds_or_zero (event_timestamp e).

(** [if limit > 0 && v.len() > limit { v.truncate(limit) }] *)
Definition truncate {A} (limit : Z) (l : list A) : list A :=
  if (0 <? limit) && (limit <? len l) then take (Z.to_nat limit) l else l.

Definition newest_first (l : list PeatEvent) : list PeatEvent := sort_by (cmp_desc event_secs) l.

Record InMemoryEventStore := mkInMemoryEventStore { events : gmap string PeatEvent }.

Definition memory_new : InMemoryEventStore := mkInMemoryEventStore ∅.

(** The values of the hash map come in the order of [map_to_list]. *)
Definition memory_query (s : InMemoryEventStore) (c : Criteria) (limit : Z) : list PeatEvent :=
  truncate limit (newest_first (filter (fun e => matches c e = true) (map_to_list (events s)).*2)).

Definition memory_store (s : InMemoryEventStore) (e : PeatEvent) : InMemoryEventStore :=
  mkInMemoryEventStore (<[event_id e := e]> (events s)).

Definition memory_count (s : InMemoryEventStore) : Z := Z.of_nat (size (events s)).

Definition memory_remove_expired (s : InMemoryEventStore) (now_secs : Z) : option InMemoryEventStore :=
  m ← retain_alive (events s) now_secs; Some (mkInMemoryEventStore m).

#[export] Instance memory_event_store : EventStore InMemoryEventStore := {
  store_query := memory_query;
  store_put := memory_store;
  store_count := memory_count;
  remove_expired := memory_remove_expired
}.

(** ** Handler *)

Record EventQueryHandler (S : Type) := mkEventQueryHandler {
  h_node_id : string;
  h_formation_id : string;
  event_store : S;
  subordinate_ids : list string
}.
Arguments mkEventQueryHandler {S}.
Arguments h_node_id {S}.
Arguments h_formation_id {S}.
Arguments event_store {S}.
Arguments subordinate_ids {S}.

Section Handler.
Context {St : Type} `{EventStore St}.
Implicit Types (h : EventQueryHandler St) (q : EventQuery).

Definition handler_new (node_id formation_id : string) (store : St) : EventQueryHandler St :=
  mkEventQueryHandler node_id formation_id store [].

Definition set_subordinates h (l : list string) : EventQueryHandler St :=
  mkEventQueryHandler (h_node_id h) (h_formation_id h) (event_store h) l.

Definition add_subordinate h (n : string) : EventQueryHandler St :=
  set_subordinates h (push_absent (fun x => x) (subordinate_ids h) n).

Definition remove_subordinate h (n : string) : EventQueryHandler St :=
  set_subordinates h (filter (fun id => id <> n) (subordinate_ids h)).

Definition set_store h (s : St) : EventQueryHandler St :=
  mkEventQueryHandler (h_node_id h) (h_formation_id h) s (subordinate_ids h).

Definition store_event h (e : PeatEvent) : EventQueryHandler St := set_store h (store_put (event_store h) e).

Definition handler_event_count h : Z := store_count (event_store h).

(** The filters of a query, with an unknown class read as unspecified *)
Definition criteria q : Criteria :=
  mkCriteria
    (f ← filters q; c ← f_event_class f; Some (default ClassUnspecified (class_try_from c)))
    (f ← filters q; f_event_type f)
    (f ← filters q; after_seconds f)
    (f ← filters q; before_seconds f)
    (f ← filters q; f_source_instance_id f).

Definition query_local h q : EventQueryResponse :=
  let es := store_query (event_store h) (criteria q) (limit q) in
  let total := as_u32 (len es) in
  mkEventQueryResponse (query_id q) (h_node_id h) es total ((0 <? limit q) && (limit q <=? total)).

Definition empty_response h q : EventQueryResponse :=
  mkEventQueryResponse (query_id q) (h_node_id h) [] 0 false.

Definition handle_query h q : QueryResult :=
  match (s ← scope q; target s) with
  | Some (TargetNodeId n) =>
      if bool_decide (n = h_node_id h) then Local_ (query_local h q) else Forward [n]
  | Some (TargetFormationId f) =>
      if bool_decide (f = h_formation_id h) then
        match subordinate_ids h with
        | [] => Local_ (query_local h q)
        | subs => LocalPlusForward (query_local h q) subs
        end
      else Forward (subordinate_ids h)
  | Some (TargetSubordinates _) =>
      match subordinate_ids h with
      | [] => Local_ (empty_response h q)
      | subs => Forward subs
      end
  | None => Local_ (query_local h q)
  end.

Definition handler_enforce_ttl h (now_secs : Z) : option (EventQueryHandler St) :=
  s ← remove_expired (event_store h) now_secs; Some (set_store h s).

End Handler.

Definition with_memory_store (node_id formation_id : string) : EventQueryHandler InMemoryEventStore :=
  handler_new node_id formation_id memory_new.

Definition merge_responses (qid rid : string) (responses : list EventQueryResponse) (limit : Z) :
    EventQueryResponse :=
  let all_events := newest_first (flat_map r_events responses) in
  let total := as_u32 (len all_events) in
  mkEventQueryResponse qid rid (truncate limit all_events) total ((0 <? limit) && (limit <? total)).

(** The constructors of queries; the generated identifier is an argument. *)
Definition create_node_query (qid requester node_id : string) (f : option EventFilters) (limit : Z) : EventQuery :=
  mkEventQuery qid requester (Some (mkQueryScope (Some (TargetNodeId node_id)))) f limit.

Definition create_formation_query (qid requester formation_id : string) (f : option EventFilters) (limit : Z) :
    EventQuery :=
  mkEventQuery qid requester (Some (mkQueryScope (Some (TargetFormationId formation_id)))) f limit.

Definition create_subordinates_query (qid requester : string) (f : option EventFilters) (limit : Z) : EventQuery :=
  mkEventQuery qid requester (Some (mkQueryScope (Some (TargetSubordinates true)))) f limit.

Definition create_filters (c : option EventClass) (t : option string) (after before : option Z)
    (i : option string) : EventFilters :=
  mkEventFilters (class_to_i32 <$> c) t after before i.

(** ** The newest of several sorted answers *)

Definition desc (l : list Z) : list Z := sort_by (cmp_desc (fun z => z)) l.

Definition ge_z (x y : Z) : Prop := y <= x.

#[export] Instance ge_z_anti : AntiSymm (=) ge_z.
Proof. intros x y. unfold ge_z. lia. Qed.

Lemma insert_desc_sorted x l :
  StronglySorted ge_z l -> StronglySorted ge_z (insert_by (cmp_desc (fun z => z)) x l).
Proof.
  intros Hs. induction Hs as [|y l Hs IH Hy]; simpl; [repeat constructor|].
  unfold cmp_desc. destruct (Z.compare_spec y x) as [->|Hlt|Hgt].
  - constructor; [by constructor|]. constructor; [unfold ge_z; lia|done].
  - constructor; [by constructor|]. rewrite Forall_forall in *.
    intros z [->|Hz]%elem_of_cons; [unfold ge_z; lia|]. specialize (Hy z Hz). unfold ge_z in *. lia.
  - constructor; [done|]. rewrite (insert_by_perm (cmp_desc (fun z => z)) x l).
    constructor; [unfold ge_z; lia|done].
Qed.

Lemma desc_sorted l : StronglySorted ge_z (desc l).
Proof. induction l as [|x l IH]; [constructor|]. by apply insert_desc_sorted. Qed.

Lemma desc_perm l : desc l ≡ₚ l.
Proof. apply sort_by_perm. Qed.

(** [desc] is the only decreasing rearrangement. *)
Lemma desc_unique l s : StronglySorted ge_z s -> s ≡ₚ l -> desc l = s.
Proof.
  intros Hs Hp. apply (StronglySorted_unique ge_z); [apply desc_sorted|done|]. by rewrite desc_perm.
Qed.

#[export] Instance desc_proper : Proper ((≡ₚ) ==> (=)) desc.
Proof. intros l l' Hp. apply desc_unique; [apply desc_sorted|]. by rewrite desc_perm. Qed.

Lemma fmap_insert_desc {A} (key : A -> Z) x s :
  key <$> insert_by (cmp_desc key) x s = insert_by (cmp_desc (fun z => z)) (key x) (key <$> s).
Proof.
  induction s as [|y s IH]; [done|]. rewrite fmap_cons. cbn [insert_by].
  change (cmp_desc (fun z => z) (key x) (key y)) with (cmp_desc key x y).
  destruct (cmp_desc key x y); [done|done|]. by rewrite fmap_cons, IH.
Qed.

Lemma fmap_sort_desc {A} (key : A -> Z) l : key <$> sort_by (cmp_desc key) l = desc (key <$> l).
Proof.
  induction l as [|x l IH]; [done|]. rewrite fmap_cons. change (desc (key x :: (key <$> l))) with
    (insert_by (cmp_desc (fun z => z)) (key x) (desc (key <$> l))).
  rewrite <- IH. apply fmap_insert_desc.
Qed.

Definition count_ge (x : Z) (l : list Z) : nat := length (filter (fun y => x <= y) l).

Lemma sorted_split x s : StronglySorted ge_z s ->
  s = filter (fun y => x <= y) s ++ filter (fun y => ~ x <= y) s.
Proof.
  induction 1 as [|y s Hs IH Hy]; [done|]. rewrite !filter_cons. destruct (decide (x <= y)) as [Hle|Hgt].
  - rewrite decide_False by tauto. simpl. by rewrite <- IH.
  - rewrite decide_True by done.
    assert (filter (fun y => x <= y) s = []) as E.
    { destruct (filter (fun y => x <= y) s) as [|z t] eqn:E; [done|].
      assert (z ∈ filter (fun y => x <= y) s) as [Hz Hin]%list_elem_of_filter by (rewrite E; by left).
      rewrite Forall_forall in Hy. specialize (Hy z Hin). unfold ge_z in Hy. lia. }
    rewrite E in *. simpl in *. by rewrite <- IH.
Qed.

Lemma filter_sorted (P : Z -> Prop) `{!forall x, Decision (P x)} s :
  StronglySorted ge_z s -> StronglySorted ge_z (filter P s).
Proof.
  induction 1 as [|y s Hs IH Hy]; [constructor|]. rewrite filter_cons. case_decide; [|done].
  constructor; [done|]. rewrite Forall_forall in *. intros z [_ Hz]%list_elem_of_filter. auto.
Qed.

(** An element with [k] others at least as large does not change the first [k]. *)
Lemma desc_worse k x l : (k <= count_ge x l)%nat -> take k (desc (x :: l)) = take k (desc l).
Proof.
  intros Hk. set (s := desc l).
  assert (StronglySorted ge_z s) as Hs by apply desc_sorted.
  assert (k <= length (filter (fun y => (x <= y)%Z) s))%nat as Hk'.
  { unfold count_ge in Hk. etrans; [exact Hk|]. unfold s. by rewrite desc_perm. }
  rewrite (desc_unique (x :: l) (filter (fun y => x <= y) s ++ x :: filter (fun y => ~ x <= y) s)).
  - rewrite (sorted_split x s Hs) at 3. by rewrite !take_app_le by done.
  - apply StronglySorted_app_2.
    + intros a b [Ha _]%list_elem_of_filter [->|[Hb _]%list_elem_of_filter]%elem_of_cons; unfold ge_z; lia.
    + by apply filter_sorted.
    + constructor; [by apply filter_sorted|]. apply Forall_forall.
      intros b [Hb _]%list_elem_of_filter. unfold ge_z. lia.
  - rewrite <- Permutation_middle. rewrite <- (sorted_split x s Hs). unfold s. by rewrite desc_perm.
Qed.

Lemma count_ge_app x l l' : count_ge x (l ++ l') = (count_ge x l + count_ge x l')%nat.
Proof. unfold count_ge. by rewrite filter_app, length_app. Qed.

Lemma desc_worse_all k r l :
  (forall x, x ∈ r -> k <= count_ge x l)%nat -> take k (desc (r ++ l)) = take k (desc l).
Proof.
  induction r as [|x r IH]; intros Hr; [done|]. cbn [app]. rewrite desc_worse.
  - apply IH. intros y Hy. apply Hr. by right.
  - rewrite count_ge_app. specialize (Hr x ltac:(by left)). lia.
Qed.

(** The first [k] of everything can be found among the first [k] of a part and the
    rest. *)
Lemma desc_take k a b : take k (desc (take k (desc a) ++ b)) = take k (desc (a ++ b)).
Proof.
  set (s := desc a). assert (a ++ b ≡ₚ drop k s ++ (take k s ++ b)) as Hp.
  { rewrite app_assoc. f_equiv. rewrite (Permutation_app_comm (drop k s)), take_drop.
    unfold s. by rewrite desc_perm. }
  rewrite Hp. symmetry. apply desc_worse_all. intros x Hx.
  assert (StronglySorted ge_z (take k s ++ drop k s)) as Hs by (rewrite take_drop; apply desc_sorted).
  assert (k <= length s)%nat.
  { destruct (Nat.le_gt_cases k (length s)); [done|]. rewrite drop_ge in Hx by lia. by apply not_elem_of_nil in Hx. }
  rewrite count_ge_app. unfold count_ge at 1. rewrite list_filter_all.
  - rewrite length_take. lia.
  - intros y Hy. by apply (StronglySorted_app_1_elem_of _ _ _ _ _ Hs).
Qed.

Lemma desc_take_all k ls :
  take k (desc (concat ((fun l => take k (desc l)) <$> ls))) = take k (desc (concat ls)).
Proof.
  induction ls as [|l ls IH]; [done|]. rewrite fmap_cons. cbn [concat]. rewrite desc_take.
  rewrite (Permutation_app_comm l), <- desc_take, IH, desc_take. by rewrite Permutation_app_comm.
Qed.

(** ** The laws of a store *)

(** What the handler relies on: a store holds a set of events, an unlimited query
    returns those that match, newest first, and a limit cuts that list. *)
Class EventStoreLaws (S : Type) `{EventStore S} := {
  store_ok : S -> Prop;
  held : S -> list PeatEvent;
  store_query_limit s c n : store_query s c n = truncate n (store_query s c 0);
  store_query_all s c : store_query s c 0 ≡ₚ filter (fun e => matches c e = true) (held s);
  store_query_sorted s c : StronglySorted ge_z (event_secs <$> store_query s c 0);
  store_count_held s : store_count s = len (held s);
  store_ok_put s e : store_ok s -> store_ok (store_put s e);
  held_put s e x : store_ok s ->
    x ∈ held (store_put s e) <-> x = e \/ (x ∈ held s /\ event_id x <> event_id e)
}.

Lemma truncate_0 {A} (l : list A) : truncate 0 l = l.
Proof. done. Qed.

Lemma truncate_take {A} n (l : list A) : 0 < n -> truncate n l = take (Z.to_nat n) l.
Proof.
  intros Hn. unfold truncate, len. destruct (Z.ltb_spec 0 n); [|lia]. simpl.
  destruct (Z.ltb_spec n (Z.of_nat (length l))); [done|]. by rewrite take_ge by lia.
Qed.

Lemma fmap_truncate {A B} (f : A -> B) n l : f <$> truncate n l = truncate n (f <$> l).
Proof. unfold truncate, len. rewrite length_fmap. destruct (_ && _); [|done]. apply fmap_take. Qed.

Lemma newest_first_secs l : event_secs <$> newest_first l = desc (event_secs <$> l).
Proof. apply fmap_sort_desc. Qed.

#[export] Instance memory_store_laws : EventStoreLaws InMemoryEventStore.
Proof.
  refine {| store_ok s := map_Forall (fun i e => event_id e = i) (events s);
            held s := (map_to_list (events s)).*2 |}; simpl; unfold memory_query.
  - intros s c n. by rewrite truncate_0.
  - intros s c. rewrite truncate_0. apply sort_by_perm.
  - intros s c. rewrite truncate_0, newest_first_secs. apply desc_sorted.
  - intros s. unfold memory_count, len. rewrite length_fmap. by rewrite length_map_to_list.
  - intros s e Hok. simpl. by apply map_Forall_insert_2.
  - intros s e x Hok. simpl. rewrite !list_elem_of_fmap. split.
    + intros ([i y] & -> & Hin). apply elem_of_map_to_list in Hin. simpl.
      apply lookup_insert_Some in Hin as [[_ ->]|[Hne Hin]]; [by left|].
      right. split; [exists (i, y); by rewrite elem_of_map_to_list|]. by rewrite (Hok i y Hin).
    + intros [->|[([i y] & -> & Hin) Hne]].
      * exists (event_id e, e). split; [done|]. apply elem_of_map_to_list, lookup_insert_eq.
      * exists (i, y). split; [done|]. apply elem_of_map_to_list. apply elem_of_map_to_list in Hin.
        rewrite lookup_insert_ne; [done|]. intros <-. apply Hne. by apply (Hok _ y).
Defined.

(** ** Queries over several nodes *)

Section Distributed.
Context {St : Type} `{EventStoreLaws St}.
Implicit Types (h : EventQueryHandler St) (q : EventQuery).

(** Everything in the stores of the handlers that matches a query *)
Definition matching (hs : list (EventQueryHandler St)) q : list PeatEvent :=
  concat ((fun h => filter (fun e => matches (criteria q) e = true) (held (event_store h))) <$> hs).

Lemma query_local_events h q :
  r_events (query_local h q) = truncate (limit q) (store_query (event_store h) (criteria q) 0).
Proof. apply store_query_limit. Qed.

Lemma query_local_secs h q :
  event_secs <$> r_events (query_local h q) =
  truncate (limit q)
    (desc (event_secs <$> filter (fun e => matches (criteria q) e = true) (held (event_store h)))).
Proof.
  rewrite query_local_events, fmap_truncate. f_equal. symmetry.
  apply desc_unique; [apply store_query_sorted|]. f_equiv. apply store_query_all.
Qed.

Lemma query_local_subset h q e :
  e ∈ r_events (query_local h q) -> e ∈ held (event_store h) /\ matches (criteria q) e = true.
Proof.
  rewrite query_local_events. intros Hin.
  assert (e ∈ store_query (event_store h) (criteria q) 0) as Hall.
  { revert Hin. unfold truncate. case_match; [|done]. apply subseteq_take. }
  rewrite store_query_all in Hall. apply list_elem_of_filter in Hall. tauto.
Qed.

Lemma concat_fmap_fmap {A B C} (f : B -> C) (g : A -> list B) (l : list A) :
  f <$> concat (g <$> l) = concat ((fun x => f <$> g x) <$> l).
Proof. induction l as [|x l IH]; [done|]. rewrite !fmap_cons. cbn [concat]. by rewrite fmap_app, IH. Qed.

Lemma flat_map_fmap {A B C} (f : B -> list C) (g : A -> B) (l : list A) :
  flat_map f (g <$> l) = concat ((fun x => f (g x)) <$> l).
Proof. induction l as [|x l IH]; [done|]. rewrite !fmap_cons. cbn [concat flat_map]. by rewrite IH. Qed.

(** Merging the answers of several nodes gives the newest of everything that
    matches, although every node cuts its own answer to the limit first: the times
    returned are those a single node holding all the events would return, and every
    event returned is held by one of the nodes and matches. *)
Theorem merged_answers_are_newest qid rid hs q :
  0 <= limit q ->
  let r := merge_responses qid rid ((fun h => query_local h q) <$> hs) (limit q) in
  event_secs <$> r_events r = truncate (limit q) (desc (event_secs <$> matching hs q)) /\
  (forall e, e ∈ r_events r -> e ∈ matching hs q).
Proof.
  intros Hl. cbv zeta. unfold merge_responses. cbn [r_events]. rewrite flat_map_fmap. split.
  - rewrite fmap_truncate, newest_first_secs, concat_fmap_fmap. unfold matching. rewrite concat_fmap_fmap.
    destruct (Z.eq_dec (limit q) 0) as [E|Hne].
    + rewrite E, !truncate_0. apply desc_proper. induction hs as [|h hs IH]; [done|].
      rewrite !fmap_cons. cbn [concat]. apply Permutation_app; [|done]. rewrite query_local_secs, E, truncate_0. apply desc_perm.
    + rewrite !truncate_take by lia. symmetry. rewrite <- desc_take_all. symmetry. do 3 f_equal.
      rewrite <- list_fmap_compose. apply list_fmap_ext. intros i h _. unfold compose.
      rewrite query_local_secs.
      by rewrite truncate_take by lia.
  - intros e He. assert (e ∈ concat ((fun h => r_events (query_local h q)) <$> hs)) as Hin.
    { rewrite <- (sort_by_perm (cmp_desc event_secs)). revert He. unfold truncate, newest_first.
      case_match; [|done]. apply subseteq_take. }
    apply list_elem_of_In, in_concat in Hin as (l & Hl' & Hin). apply list_elem_of_In in Hl', Hin.
    apply list_elem_of_fmap in Hl' as (h & -> & Hh). apply query_local_subset in Hin as [He1 He2].
    apply list_elem_of_In, in_concat. eexists. rewrite <- !list_elem_of_In. split.
    + apply list_elem_of_fmap. by exists h.
    + by apply list_elem_of_filter.
Qed.

(** The count of a response is the number of events it carries, never the number that
    matched, and an answer is flagged as truncated exactly when at least [limit] events
    matched, also when nothing was cut. *)
Theorem response_counts_returned h q :
  0 <= limit q < u32_modulus -> is_u32 (len (matching [h] q)) ->
  let r := query_local h q in
  total_matching r = len (r_events r) /\
  truncated r = (0 <? limit q) && (limit q <=? len (matching [h] q)).
Proof.
  intros Hl Hm. assert (len (matching [h] q) = len (store_query (event_store h) (criteria q) 0)) as E.
  { unfold matching, len. simpl. by rewrite app_nil_r, store_query_all. }
  rewrite E in *. simpl. rewrite store_query_limit.
  assert (len (truncate (limit q) (store_query (event_store h) (criteria q) 0)) =
          if 0 <? limit q then Z.min (limit q) (len (store_query (event_store h) (criteria q) 0))
          else len (store_query (event_store h) (criteria q) 0)) as El.
  { unfold truncate. destruct (Z.ltb_spec 0 (limit q)); simpl; [|done].
    destruct (Z.ltb_spec (limit q) (len (store_query (event_store h) (criteria q) 0))); [|lia].
    unfold len in *. rewrite length_take. lia. }
  rewrite as_u32_small; [|rewrite El; unfold is_u32 in *; destruct (0 <? limit q); lia].
  split; [done|]. rewrite El. destruct (Z.ltb_spec 0 (limit q)); simpl; [|done].
  destruct (Z.leb_spec (limit q) (len (store_query (event_store h) (criteria q) 0))),
    (Z.leb_spec (limit q) (Z.min (limit q) (len (store_query (event_store h) (criteria q) 0)))); lia || done.
Qed.

(** A stored event is found by every unlimited query it matches, in place of the
    event stored before under its identifier. *)
Theorem stored_event_found h e q x :
  store_ok (event_store h) -> limit q = 0 ->
  x ∈ r_events (query_local (store_event h e) q) <->
  matches (criteria q) x = true /\ (x = e \/ (x ∈ held (event_store h) /\ event_id x <> event_id e)).
Proof.
  intros Hok Hl. rewrite query_local_events, Hl, truncate_0, store_query_all, list_elem_of_filter.
  cbn [event_store store_event set_store]. by rewrite held_put.
Qed.

End Distributed.

(** ** Concrete instances *)

Definition sighting (id : string) (secs : Z) : PeatEvent :=
  mkPeatEvent id (Some (mkTimestamp secs 0)) "n1" "cell-1" None 1 "detection.vehicle" None "" [].

Definition handler1 : EventQueryHandler InMemoryEventStore :=
  store_event (store_event (with_memory_store "n1" "cell-1") (sighting "a" 10)) (sighting "b" 20).

Definition handler2 : EventQueryHandler InMemoryEventStore :=
  store_event (with_memory_store "n2" "cell-1") (sighting "c" 15).

Definition two_newest : EventQuery := create_formation_query "q1" "hq" "cell-1" None 2.

Lemma merged_answers_are_newest_witness :
  let r := merge_responses "q1" "hq" ((fun h => query_local h two_newest) <$> [handler1; handler2]) 2 in
  event_secs <$> r_events r = [20; 15] /\ (forall e, e ∈ r_events r -> e ∈ matching [handler1; handler2] two_newest).
Proof.
  destruct (merged_answers_are_newest "q1" "hq" [handler1; handler2] two_newest) as [E Hin]; [vm_compute; congruence|].
  split; [|exact Hin]. etrans; [exact E|]. vm_compute. reflexivity.
Defined.

Lemma response_counts_returned_witness :
  let r := query_local handler1 two_newest in
  total_matching r = len (r_events r) /\ truncated r = true /\ len (matching [handler1] two_newest) = 2.
Proof.
  destruct (response_counts_returned handler1 two_newest) as [E1 E2]; [by vm_compute|by vm_compute|].
  split; [exact E1|]. split; [|vm_compute; reflexivity]. etrans; [exact E2|]. vm_compute. reflexivity.
Defined.

Definition everything : EventQuery := create_formation_query "q1" "hq" "cell-1" None 0.

Lemma stored_event_found_witness :
  sighting "c" 15 ∈ r_events (query_local (store_event handler2 (sighting "d" 30)) everything).
Proof.
  apply (stored_event_found handler2 (sighting "d" 30) everything (sighting "c" 15)).
  - intros i e. simpl. rewrite lookup_insert_Some, lookup_empty. by intros [[<- <-]|[_ ?]].
  - reflexivity.
  - split; [vm_compute; reflexivity|]. right. split; [vm_compute; left|done].
Defined.
