(* ===== verification/Formation.v ===== *)
(** * Formation of cells and zones

    Models peat-protocol/src/cell/capability_aggregation.rs (the capabilities of a cell
    from those of its members and the authority of their operators),
    cell/coordinator.rs (when a cell is formed, with the approval of a human) and
    hierarchy/zone_coordinator.rs (the same for zones). Confidences are binary32. A
    hash map is a [gmap]; the order in which it is iterated matters for sums of floats
    and is the class [HashOrder]. How a float or a quoted string prints is the class
    [Render]: the text only enters messages. The clocks are arguments. *)

From S2P Require Import Prelude Float Error Capability CellState Operator Node.
From stdpp Require Import pretty.
From Stdlib Require Import SpecFloat.

Open Scope Z_scope.

#[export] Instance CapabilityType_countable : Countable CapabilityType.
Proof. apply (inj_countable capability_type_to_i32 capability_type_try_from). by intros []. Defined.

(** The iteration order of a hash map keyed by capability type *)
Class HashOrder := {
  iter : forall {A}, gmap CapabilityType A -> list (CapabilityType * A);
  iter_perm {A} (m : gmap CapabilityType A) : iter m ≡ₚ map_to_list m
}.

(** ["{:.2}"] of a float and ["{:?}"] of a string *)
Class Render := {
  fmt2 : spec_float -> string;
  debug_str : string -> string
}.

Definition add32 := SFadd 24 128.
Definition mul32 := SFmul 24 128.
Definition div32 := SFdiv 24 128.

(** ** Aggregated capabilities *)

Record AggregatedCapability := mkAggregatedCapability {
  agg_type : CapabilityType;
  agg_confidence : spec_float;
  contributor_count : Z;
  contributors : list string;
  agg_authority : option AuthorityLevel;
  requires_oversight : bool
}.

Definition check_oversight_requirement (ty : CapabilityType) (a : option AuthorityLevel) : bool :=
  match ty with
  | Payload => match a with Some Commander => false | _ => true end
  | Communication => match a with None | Some Observer => true | _ => false end
  | _ => false
  end.

Definition aggregated_new (ty : CapabilityType) (confidence : spec_float) (ids : list string)
    (a : option AuthorityLevel) : AggregatedCapability :=
  mkAggregatedCapability ty confidence (len ids) ids a (check_oversight_requirement ty a).

Definition is_mission_ready (c : AggregatedCapability) : bool :=
  let confidence_threshold := if requires_oversight c then f32_lit 8 10 else f32_lit 7 10 in
  SFleb confidence_threshold (agg_confidence c) && (0 <? contributor_count c) &&
  (negb (requires_oversight c) || bool_decide (is_Some (agg_authority c))).

Definition effective_confidence (c : AggregatedCapability) : spec_float :=
  let confidence :=
    if requires_oversight c then
      mul32 (agg_confidence c)
        match agg_authority c with
        | Some Commander => f32_one
        | Some Supervisor => f32_lit 85 100
        | Some Advisor => f32_lit 7 10
        | Some Observer => f32_lit 6 10
        | Some AuthorityUnspecified => f32_lit 5 10
        | None => f32_lit 5 10
        end
    else agg_confidence c in
  float_min confidence f32_one.

(** ** Aggregation over members *)

Definition Contribution : Type := string * spec_float * option AuthorityLevel.

Definition add_contribution (m : gmap CapabilityType (list Contribution)) (ty : CapabilityType)
    (c : Contribution) : gmap CapabilityType (list Contribution) :=
  <[ty := default [] (m !! ty) ++ [c]]> m.

Definition get_max_authority (n : NodeConfig) : option AuthorityLevel :=
  b ← operator_binding n; max_authority b.

Definition collect_member (m : gmap CapabilityType (list Contribution)) (member : NodeConfig * NodeState) :
    gmap CapabilityType (list Contribution) :=
  let '(config, state) := member in
  if is_operational state then
    fold_left (fun m cap => add_contribution m (get_capability_type cap)
                              (nc_id config, confidence cap, get_max_authority config))
      (Node.capabilities config) m
  else m.

Definition capability_map (members : list (NodeConfig * NodeState)) : gmap CapabilityType (list Contribution) :=
  fold_left collect_member members ∅.

Definition redundancy_bonus (n : Z) : spec_float :=
  if n =? 1 then f32_zero else if n =? 2 then f32_lit 5 100
  else if (3 <=? n) && (n <=? 4) then f32_lit 10 100 else f32_lit 15 100.

Definition authority_bonus (a : option AuthorityLevel) : spec_float :=
  match a with
  | Some Commander => f32_lit 10 100
  | Some Supervisor => f32_lit 5 100
  | Some Advisor => f32_lit 3 100
  | Some Observer => f32_zero
  | Some AuthorityUnspecified => f32_zero
  | None => f32_zero
  end.

Definition highest_authority (l : list Contribution) : option AuthorityLevel :=
  max_by (fun a b => authority_to_i32 a ?= authority_to_i32 b) (omap snd l).

Definition aggregate_of (ty : CapabilityType) (l : list Contribution) : AggregatedCapability :=
  let avg := div32 (fold_left add32 (map (fun c => snd (fst c)) l) (S754_zero true)) (f32_of_Z (len l)) in
  let base := float_min (add32 avg (redundancy_bonus (len l))) f32_one in
  let a := highest_authority l in
  let final := float_min (add32 base (authority_bonus a)) f32_one in
  aggregated_new ty final (map (fun c => fst (fst c)) l) a.

Definition aggregate_capability_type (ty : CapabilityType) (l : list Contribution) :
    result Error AggregatedCapability :=
  match l with
  | [] => Err (config_error "Cannot aggregate capability with no contributors" None)
  | _ => Ok (aggregate_of ty l)
  end.

Section Aggregate.
Context `{HashOrder}.

Fixpoint aggregate_all (l : list (CapabilityType * list Contribution))
    (acc : gmap CapabilityType AggregatedCapability) :
    result Error (gmap CapabilityType AggregatedCapability) :=
  match l with
  | [] => Ok acc
  | (ty, cs) :: l =>
      match aggregate_capability_type ty cs with
      | Ok c => aggregate_all l (<[ty := c]> acc)
      | Err e => Err e
      end
  end.

Definition aggregate_capabilities (members : list (NodeConfig * NodeState)) :
    result Error (gmap CapabilityType AggregatedCapability) :=
  aggregate_all (iter (capability_map members)) ∅.

Definition readiness_weight (ty : CapabilityType) : spec_float :=
  match ty with
  | Communication => f32_lit 30 100
  | Sensor => f32_lit 25 100
  | Compute => f32_lit 20 100
  | Payload => f32_lit 15 100
  | Mobility => f32_lit 10 100
  | _ => f32_lit 5 100
  end.

Definition add_score (acc : spec_float * spec_float) (entry : CapabilityType * AggregatedCapability) :
    spec_float * spec_float :=
  let '(total_score, total_weight) := acc in
  let weight := readiness_weight (fst entry) in
  (add32 total_score (mul32 (effective_confidence (snd entry)) weight), add32 total_weight weight).

Definition calculate_readiness_score (caps : gmap CapabilityType AggregatedCapability) : spec_float :=
  if bool_decide (caps = ∅) then f32_zero
  else
    let '(total_score, total_weight) := fold_left add_score (iter caps) (f32_zero, f32_zero) in
    if SFltb f32_zero total_weight then div32 total_score total_weight else f32_zero.

Definition identify_gaps (caps : gmap CapabilityType AggregatedCapability) (required : list CapabilityType) :
    list CapabilityType :=
  filter (fun ty => match caps !! ty with Some c => is_mission_ready c | None => false end = false) required.

End Aggregate.

(** ** Cell formation *)

Inductive FormationStatus := Forming | AwaitingApproval | Ready | Failed (reason : string).

#[export] Instance FormationStatus_eq_dec : EqDecision FormationStatus.
Proof. solve_decision. Defined.

Record CellCoordinator := mkCellCoordinator {
  cc_cell_id : string;
  cc_min_size : Z;
  cc_min_readiness : spec_float;
  cc_required : list CapabilityType;
  cc_status : FormationStatus;
  human_approved : bool;
  formation_start : Z;
  formation_complete : option Z
}.

Definition coordinator_new (cell_id : string) (now : Z) : CellCoordinator :=
  mkCellCoordinator cell_id 3 (f32_lit 7 10) [Communication; Sensor] Forming false now None.

Definition set_status (c : CellCoordinator) (s : FormationStatus) : CellCoordinator :=
  mkCellCoordinator (cc_cell_id c) (cc_min_size c) (cc_min_readiness c) (cc_required c) s
    (human_approved c) (formation_start c) (formation_complete c).

(** The status becomes ready, and the time of the first completion is kept. *)
Definition complete (c : CellCoordinator) (approved : bool) (now : Z) : CellCoordinator :=
  mkCellCoordinator (cc_cell_id c) (cc_min_size c) (cc_min_readiness c) (cc_required c) Ready
    approved (formation_start c)
    (match formation_complete c with Some t => Some t | None => Some now end).

Definition needs_human_approval (caps : gmap CapabilityType AggregatedCapability) : bool :=
  existsb (fun entry => requires_oversight (snd entry)) (map_to_list caps).

Definition type_name (ty : CapabilityType) : string :=
  match ty with
  | Unspecified => "Unspecified" | Sensor => "Sensor" | Compute => "Compute"
  | Communication => "Communication" | Mobility => "Mobility" | Payload => "Payload"
  | Emergent => "Emergent"
  end.

(** ["{:?}"] of a vector of types *)
Definition debug_types (l : list CapabilityType) : string :=
  "[" +:+ String.concat ", " (map type_name l) +:+ "]".

Definition Member : Type := NodeConfig * NodeState * option CellRole.

Section CellFormation.
Context `{HashOrder, Render}.

Definition debug_status (s : FormationStatus) : string :=
  match s with
  | Forming => "Forming"
  | AwaitingApproval => "AwaitingApproval"
  | Ready => "Ready"
  | Failed r => "Failed(" +:+ debug_str r +:+ ")"
  end.

Definition check_formation_complete (c : CellCoordinator) (members : list Member)
    (leader_id : option string) (now : Z) : result Error bool * CellCoordinator :=
  if len members <? cc_min_size c then
    (Ok false, set_status c (Failed ("Insufficient members: " +:+ pretty (len members) +:+ " < " +:+
                                     pretty (cc_min_size c))))
  else if bool_decide (leader_id = None) then (Ok false, c)
  else if 0 <? len (filter (fun m => snd m = None) members) then (Ok false, c)
  else
    match aggregate_capabilities (map fst members) with
    | Err e => (Err e, c)
    | Ok capabilities =>
        let gaps := identify_gaps capabilities (cc_required c) in
        if negb (bool_decide (gaps = [])) then
          (Ok false, set_status c (Failed ("Missing required capabilities: " +:+ debug_types gaps)))
        else
          let readiness := calculate_readiness_score capabilities in
          if SFltb readiness (cc_min_readiness c) then
            (Ok false, set_status c (Failed ("Insufficient readiness: " +:+ fmt2 readiness +:+ " < " +:+
                                             fmt2 (cc_min_readiness c))))
          else if needs_human_approval capabilities && negb (human_approved c) then
            (Ok false, set_status c AwaitingApproval)
          else (Ok true, complete c (human_approved c) now)
    end.

Definition approve_formation (c : CellCoordinator) (now : Z) : result Error unit * CellCoordinator :=
  if bool_decide (cc_status c = AwaitingApproval) then (Ok tt, complete c true now)
  else (Err (EInvalidTransition (debug_status (cc_status c)) "Ready"
               "Cannot approve formation not awaiting approval"), c).

Definition reject_formation (c : CellCoordinator) (reason : string) : result Error unit * CellCoordinator :=
  if bool_decide (cc_status c = AwaitingApproval) then
    (Ok tt, set_status c (Failed ("Human rejected: " +:+ reason)))
  else (Err (EInvalidTransition (debug_status (cc_status c)) "Failed"
               "Cannot reject formation not awaiting approval"), c).

(** The subtraction panics when the clock is behind the start. *)
Definition formation_duration (c : CellCoordinator) (now : Z) : option Z :=
  checked (default now (formation_complete c) - formation_start c).

Definition can_transition_to_hierarchical (c : CellCoordinator) : bool :=
  bool_decide (cc_status c = Ready).

Definition get_hierarchical_phase (c : CellCoordinator) : result Error Phase :=
  if can_transition_to_hierarchical c then Ok Hierarchy
  else Err (EInvalidTransition "Cell" "Hierarchical"
              ("Cannot transition with status: " +:+ debug_status (cc_status c))).

Definition coordinator_reset (c : CellCoordinator) (now : Z) : CellCoordinator :=
  mkCellCoordinator (cc_cell_id c) (cc_min_size c) (cc_min_readiness c) (cc_required c) Forming
    false now None.

End CellFormation.

(** ** Zone formation *)

Inductive ZoneFormationStatus := ZoneForming | ZoneReady | ZoneDegraded.

#[export] Instance ZoneFormationStatus_eq_dec : EqDecision ZoneFormationStatus.
Proof. solve_decision. Defined.

Record ZoneCoordinator := mkZoneCoordinator {
  zc_zone_id : string;
  min_cells : Z;
  min_readiness : spec_float;
  zc_status : ZoneFormationStatus;
  zc_formation_start : Z
}.

Record ZoneMetrics := mkZoneMetrics {
  zm_cell_count : Z;
  zm_total_nodes : Z;
  average_cell_readiness : spec_float;
  capability_count : Z;
  emergent_capability_count : Z;
  formation_time_ms : Z;
  zm_status : ZoneFormationStatus
}.

Definition zone_coordinator_new (zone_id : string) (min_cells : Z) (min_readiness : spec_float) (inst : Z) :
    ZoneCoordinator :=
  mkZoneCoordinator zone_id min_cells (f32_clamp min_readiness f32_zero f32_one) ZoneForming inst.

Definition set_zone_status (z : ZoneCoordinator) (s : ZoneFormationStatus) : ZoneCoordinator :=
  mkZoneCoordinator (zc_zone_id z) (min_cells z) (min_readiness z) s (zc_formation_start z).

(** How full a cell is *)
Definition cell_fill (c : CellState) : spec_float :=
  div32 (f32_of_Z (len (members c)))
    (match config c with Some cfg => f32_of_Z (max_size cfg) | None => f32_one end).

Definition calculate_average_readiness (cells : list CellState) : spec_float :=
  match cells with
  | [] => f32_zero
  | _ => div32 (fold_left add32 (map cell_fill cells) (S754_zero true)) (f32_of_Z (len cells))
  end.

Definition zone_check_formation_complete (z : ZoneCoordinator) (cells : list CellState)
    (coordinator_id : option string) : bool * ZoneCoordinator :=
  if len cells <? min_cells z then (false, set_zone_status z ZoneForming)
  else if bool_decide (coordinator_id = None) then (false, set_zone_status z ZoneForming)
  else if SFltb (calculate_average_readiness cells) (min_readiness z) then
    (false, set_zone_status z ZoneForming)
  else (true, set_zone_status z ZoneReady).

(** [entry(ty).and_modify(..).or_insert(..)] *)
Definition keep_best (m : gmap CapabilityType Capability) (cap : Capability) : gmap CapabilityType Capability :=
  let ty := get_capability_type cap in
  match m !! ty with
  | Some existing => if SFltb (confidence existing) (confidence cap) then <[ty := cap]> m else m
  | None => <[ty := cap]> m
  end.

Definition best_by_type (cells : list CellState) : gmap CapabilityType Capability :=
  fold_left keep_best (flat_map CellState.capabilities cells) ∅.

Section ZoneFormation.
Context `{HashOrder}.

(** [b.partial_cmp(&a).unwrap()] panics when a comparison it makes meets a NaN, which a
    sort of two or more elements does for every element. *)
Definition zone_aggregate_capabilities (cells : list CellState) : option (list Capability) :=
  let l := (iter (best_by_type cells)).*2 in
  if (1 <? len l) && existsb (fun c => bool_decide (confidence c = S754_nan)) l then None
  else Some (sort_by (fun a b => cmp_float (confidence b) (confidence a)) l).

Definition zone_types (cells : list CellState) : list CapabilityType :=
  map get_capability_type (flat_map CellState.capabilities cells).

Definition has_type (cells : list CellState) (ty : CapabilityType) : bool := bool_decide (ty ∈ zone_types cells).

Definition detect_emergent_capabilities (z : ZoneCoordinator) (cells : list CellState) : list Capability :=
  if len cells <? 2 then []
  else
    (if has_type cells Sensor && has_type cells Compute then
       [capability_new (zc_zone_id z +:+ "_emergent_isr") "Enhanced ISR Capability" Emergent (f32_lit 85 100)]
     else []) ++
    (if has_type cells Communication && has_type cells Mobility && (3 <=? len cells) then
       [capability_new (zc_zone_id z +:+ "_emergent_relay") "Mobile Relay Network" Emergent (f32_lit 80 100)]
     else []) ++
    (if has_type cells Sensor && has_type cells Payload then
       [capability_new (zc_zone_id z +:+ "_emergent_strike") "Coordinated Strike Package" Emergent (f32_lit 75 100)]
     else []).

Definition can_transition_to_operations (z : ZoneCoordinator) (inst : Z) : bool :=
  bool_decide (zc_status z = ZoneReady) && (5 * 10 ^ 9 <=? saturating_sub inst (zc_formation_start z)).

Definition total_nodes (cells : list CellState) : Z := foldr (fun c n => len (members c) + n) 0 cells.

Definition zone_get_metrics (z : ZoneCoordinator) (cells : list CellState) (inst : Z) : option ZoneMetrics :=
  aggregated ← zone_aggregate_capabilities cells;
  let emergent := detect_emergent_capabilities z cells in
  Some (mkZoneMetrics (len cells) (total_nodes cells) (calculate_average_readiness cells)
          (len aggregated) (len emergent)
          (as_u64 (saturating_sub inst (zc_formation_start z) / 10 ^ 6)) (zc_status z)).

End ZoneFormation.

Definition update_status (z : ZoneCoordinator) (cells : list CellState) : ZoneCoordinator :=
  if len cells <? min_cells z then
    if bool_decide (zc_status z = ZoneReady) then set_zone_status z ZoneDegraded else z
  else if SFltb (calculate_average_readiness cells) (min_readiness z) && bool_decide (zc_status z = ZoneReady)
  then set_zone_status z ZoneDegraded else z.

(** ** What is aggregated *)

(** The capabilities of a type that the operational members bring, in member order *)
Definition contributions (ty : CapabilityType) (members : list (NodeConfig * NodeState)) : list Contribution :=
  flat_map (fun m =>
    if is_operational (snd m) then
      (fun cap => (nc_id (fst m), confidence cap, get_max_authority (fst m))) <$>
        filter (fun cap => get_capability_type cap = ty) (Node.capabilities (fst m))
    else []) members.

Definition nonempty {A} (l : list A) : option (list A) := match l with [] => None | _ => Some l end.

(** A map that holds, by type, the lists of [L] that are not empty *)
Definition holds (m : gmap CapabilityType (list Contribution)) (L : CapabilityType -> list Contribution) : Prop :=
  forall ty, m !! ty = nonempty (L ty).

Lemma holds_add m L ty c :
  holds m L -> holds (add_contribution m ty c) (fun ty' => L ty' ++ if decide (ty' = ty) then [c] else []).
Proof.
  intros Hm ty'. unfold add_contribution. case_decide as D.
  - subst ty'. rewrite lookup_insert_eq, Hm. by destruct (L ty).
  - rewrite lookup_insert_ne by done. by rewrite app_nil_r, Hm.
Qed.

Lemma holds_ext m L L' : (forall ty, L ty = L' ty) -> holds m L -> holds m L'.
Proof. intros E Hm ty. by rewrite <- E. Qed.

Lemma collect_member_holds m L member :
  holds m L -> holds (collect_member m member) (fun ty => L ty ++ contributions ty [member]).
Proof.
  destruct member as [config state]. unfold collect_member, contributions. simpl.
  destruct (is_operational state); simpl.
  2: { apply holds_ext. intros ty. by rewrite !app_nil_r. }
  generalize (Node.capabilities config) as caps. intros caps. revert m L.
  induction caps as [|cap caps IH]; intros m L Hm; simpl.
  - revert Hm. apply holds_ext. intros ty. by rewrite app_nil_r.
  - eapply holds_ext; [|by apply IH, holds_add]. intros ty. simpl. rewrite filter_cons, !app_nil_r, <- app_assoc.
    f_equal. destruct (decide (ty = get_capability_type cap)), (decide (get_capability_type cap = ty)); congruence || done.
Qed.

Lemma capability_map_holds members : holds (capability_map members) (fun ty => contributions ty members).
Proof.
  unfold capability_map. assert (forall m L, holds m L ->
    holds (fold_left collect_member members m) (fun ty => L ty ++ contributions ty members)) as Hgen.
  { induction members as [|x members IH]; intros m L Hm; simpl.
    - revert Hm. apply holds_ext. intros ty. by rewrite app_nil_r.
    - eapply holds_ext; [|apply IH, collect_member_holds, Hm]. intros ty. simpl.
      unfold contributions. simpl. by rewrite app_nil_r, <- app_assoc. }
  eapply holds_ext; [|apply (Hgen ∅ (fun _ => []))]; [done|]. intros ty. by rewrite lookup_empty.
Qed.

Lemma aggregate_all_spec l : forall acc,
  NoDup l.*1 -> (forall ty cs, (ty, cs) ∈ l -> cs <> []) ->
  exists m, aggregate_all l acc = Ok m /\
    forall ty, m !! ty = match (list_to_map l : gmap CapabilityType _) !! ty with
                         | Some cs => Some (aggregate_of ty cs) | None => acc !! ty end.
Proof.
  induction l as [|[ty cs] l IH]; intros acc Hnd Hne; simpl; [by exists acc|].
  apply NoDup_cons in Hnd as [Hty Hnd].
  assert (aggregate_capability_type ty cs = Ok (aggregate_of ty cs)) as ->.
  { destruct cs; [|done]. destruct (Hne ty []); [by left|done]. }
  destruct (IH (<[ty := aggregate_of ty cs]> acc) Hnd) as (m & E & Hm).
  { intros ty' cs' Hin. apply (Hne ty'). by right. }
  exists m. split; [done|]. intros ty'. rewrite Hm. destruct (decide (ty = ty')) as [<-|Hd].
  - rewrite lookup_insert_eq, (not_elem_of_list_to_map_1 l ty) by done. by rewrite lookup_insert_eq.
  - rewrite !lookup_insert_ne by done. by destruct (list_to_map l !! ty').
Qed.

(** Aggregation never fails and does not depend on the order of the hash map: a type
    is in the result exactly when some operational member brings it. *)
Lemma aggregate_capabilities_spec `{HashOrder} members :
  exists m, aggregate_capabilities members = Ok m /\
    forall ty, m !! ty = aggregate_of ty <$> nonempty (contributions ty members).
Proof.
  unfold aggregate_capabilities. pose proof (capability_map_holds members) as Hh.
  pose proof (iter_perm (capability_map members)) as Hp.
  assert (NoDup (iter (capability_map members)).*1) as Hnd by (rewrite Hp; apply NoDup_fst_map_to_list).
  destruct (aggregate_all_spec (iter (capability_map members)) ∅ Hnd) as (m & E & Hm).
  { intros ty cs Hin. rewrite Hp in Hin. apply elem_of_map_to_list in Hin. rewrite Hh in Hin.
    destruct (contributions ty members); simplify_eq/=; done. }
  exists m. split; [done|]. intros ty. rewrite Hm.
  rewrite (list_to_map_proper _ (map_to_list (capability_map members)) Hnd Hp), list_to_map_to_list, Hh.
  destruct (contributions ty members); [by rewrite lookup_empty|done].
Qed.

(** ** When a cell is formed *)

Section CellTheorems.
Context `{HashOrder, Render}.

Definition cell_capabilities (members : list Member) : gmap CapabilityType AggregatedCapability :=
  match aggregate_capabilities (map fst members) with Ok m => m | Err _ => ∅ end.

Lemma cell_capabilities_lookup members ty :
  cell_capabilities members !! ty = aggregate_of ty <$> nonempty (contributions ty (map fst members)).
Proof.
  unfold cell_capabilities. by destruct (aggregate_capabilities_spec (map fst members)) as (m & -> & Hm).
Qed.

Lemma aggregate_cell members : aggregate_capabilities (map fst members) = Ok (cell_capabilities members).
Proof. unfold cell_capabilities. by destruct (aggregate_capabilities_spec (map fst members)) as (m & -> & _). Qed.

(** The criteria of a complete formation but the approval *)
Record criteria_met (c : CellCoordinator) (members : list Member) (leader : option string) : Prop := {
  crit_size : cc_min_size c <= len members;
  crit_leader : leader <> None;
  crit_roles : Forall (fun m => snd m <> None) members;
  crit_required : forall ty, ty ∈ cc_required c ->
    exists cap, cell_capabilities members !! ty = Some cap /\ is_mission_ready cap = true;
  crit_readiness : SFltb (calculate_readiness_score (cell_capabilities members)) (cc_min_readiness c) = false
}.

(** Some capability of the cell is under human oversight. *)
Definition under_oversight (members : list Member) : Prop :=
  exists ty cap, cell_capabilities members !! ty = Some cap /\ requires_oversight cap = true.

Lemma needs_human_approval_spec members :
  needs_human_approval (cell_capabilities members) = true <-> under_oversight members.
Proof.
  unfold needs_human_approval, under_oversight. rewrite existsb_exists. split.
  - intros ([ty cap] & Hin & Ho). apply list_elem_of_In, elem_of_map_to_list in Hin. eauto.
  - intros (ty & cap & Hc & Ho). exists (ty, cap). split; [|done].
    by apply list_elem_of_In, elem_of_map_to_list.
Qed.

Lemma unassigned_spec (members : list Member) :
  (0 <? len (filter (fun m => snd m = None) members)) = false <-> Forall (fun m => snd m <> None) members.
Proof.
  rewrite Z.ltb_ge. split.
  - intros Hle. apply Forall_forall. intros m Hm Hn.
    assert (m ∈ filter (fun m => snd m = None) members) as Hin by by apply list_elem_of_filter.
    destruct (filter _ _); [by apply not_elem_of_nil in Hin|]. unfold len in Hle. simpl in Hle. lia.
  - intros Hall. destruct (filter _ _) as [|m t] eqn:E; [done|].
    assert (m ∈ filter (fun m => snd m = None) members) as [Hn Hm]%list_elem_of_filter by (rewrite E; by left).
    rewrite Forall_forall in Hall. by destruct (Hall m Hm).
Qed.

Lemma gaps_spec members required :
  identify_gaps (cell_capabilities members) required = [] <->
  forall ty, ty ∈ required ->
    exists cap, cell_capabilities members !! ty = Some cap /\ is_mission_ready cap = true.
Proof.
  unfold identify_gaps. split.
  - intros E ty Hty. destruct (cell_capabilities members !! ty) as [cap|] eqn:Ec;
      [destruct (is_mission_ready cap) eqn:Er; [by eauto|]|]; exfalso.
    all: match type of E with filter ?P _ = _ => assert (ty ∈ filter P required) as Hin
      by (apply list_elem_of_filter; by rewrite Ec) end; rewrite E in Hin; by apply not_elem_of_nil in Hin.
  - intros Hall. destruct (filter _ _) as [|ty t] eqn:E; [done|].
    match type of E with filter ?P _ = _ => assert (ty ∈ filter P required) as [Hn Hin]%list_elem_of_filter
      by (rewrite E; by left) end.
    destruct (Hall ty Hin) as (cap & Hc & Hr). rewrite Hc in Hn. congruence.
Qed.

(** A check never fails; it reports a complete formation exactly when the cell has
    enough members, a leader and a role for every member, every required capability is
    mission ready, the readiness reaches the minimum, and, if a capability is under
    human oversight, a human has approved. Then and only then does a check make the
    cell ready, and it awaits an approval exactly when only that is missing. *)
Theorem check_formation_complete_spec c members leader now :
  let '(r, c') := check_formation_complete c members leader now in
  exists b, r = Ok b /\
    (b = true <-> criteria_met c members leader /\ (under_oversight members -> human_approved c = true)) /\
    (b = true -> cc_status c' = Ready) /\
    (cc_status c' = Ready -> b = true \/ cc_status c = Ready) /\
    (criteria_met c members leader -> under_oversight members -> human_approved c = false ->
       cc_status c' = AwaitingApproval) /\
    human_approved c' = human_approved c.
Proof.
  unfold check_formation_complete. rewrite aggregate_cell.
  destruct (Z.ltb_spec (len members) (cc_min_size c)) as [Hs|Hs].
  { exists false. split_and!; try done. - split; [done|]. intros [[? _ _ _ _] _]. lia. - intros [? _ _ _ _]. lia. }
  case_bool_decide as Hl.
  { exists false. split_and!; try done; [|by right|].
    - split; [done|]. by intros [[_ ? _ _ _] _]. - by intros [_ ? _ _ _]. }
  destruct (0 <? len _) eqn:Hu.
  { assert (~ Forall (fun m : Member => snd m <> None) members) as Hr by (rewrite <- unassigned_spec; congruence).
    exists false. split_and!; try done; [|by right|].
    - split; [done|]. by intros [[_ _ ? _ _] _]. - by intros [_ _ ? _ _]. }
  apply unassigned_spec in Hu. case_bool_decide as Hg; simpl.
  2: { rewrite gaps_spec in Hg. exists false. split_and!; try done.
       - split; [done|]. by intros [[_ _ _ ? _] _]. - by intros [_ _ _ ? _]. }
  rewrite gaps_spec in Hg. destruct (SFltb _ _) eqn:Hr.
  { exists false. split_and!; try done.
    - split; [done|]. intros [[_ _ _ _ ?] _]. congruence. - intros [_ _ _ _ ?]. congruence. }
  assert (criteria_met c members leader) as Hc by by split.
  pose proof (needs_human_approval_spec members) as Hn.
  destruct (needs_human_approval (cell_capabilities members)), (human_approved c) eqn:Ha; simpl.
  - exists true. split_and!; try done; (tauto || by left).
  - exists false. split_and!; try done. split; [done|]. intros [_ Ho]. destruct Hn as [Hn _]. specialize (Ho (Hn eq_refl)). done.
  - exists true. split_and!; try done; (tauto || by left).
  - exists true. split_and!; [done| |done|by left| |done].
    + split; [|done]. intros _. split; [done|]. intros Ho. by apply Hn in Ho.
    + intros _ Ho. by apply Hn in Ho.
Qed.

(** Losing the leader, or a role, is reported but leaves a ready cell ready: it may
    still move to the hierarchical phase. *)
Theorem leaderless_cell_stays_ready c members now :
  cc_status c = Ready -> cc_min_size c <= len members ->
  check_formation_complete c members None now = (Ok false, c) /\
  can_transition_to_hierarchical (snd (check_formation_complete c members None now)) = true /\
  get_hierarchical_phase (snd (check_formation_complete c members None now)) = Ok Hierarchy.
Proof.
  intros Hs Hm. assert (check_formation_complete c members None now = (Ok false, c)) as ->.
  { unfold check_formation_complete. destruct (Z.ltb_spec (len members) (cc_min_size c)); [lia|done]. }
  simpl. unfold get_hierarchical_phase, can_transition_to_hierarchical. by rewrite Hs.
Qed.

Lemma autonomous_contributions (members : list Member) ty :
  (forall m, m ∈ members -> get_max_authority (fst (fst m)) = None) ->
  highest_authority (contributions ty (map fst members)) = None.
Proof.
  intros Hall. unfold highest_authority. assert (omap snd (contributions ty (map fst members)) = []) as ->; [|done].
  induction members as [|m members IH]; [done|]. simpl. rewrite omap_app, IH by (intros; apply Hall; by right).
  rewrite app_nil_r. destruct (is_operational _); [|done]. rewrite (Hall m) by by left.
  generalize (filter (fun cap => get_capability_type cap = ty) (Node.capabilities m.1.1)) as l.
  intros l. by induction l.
Qed.

(** A cell without operators is never formed, however capable: its communication is
    under oversight without any authority, which counts as a missing capability, so the
    approval of a human is not even asked for. *)
Theorem autonomous_cell_never_formed c (members : list Member) leader now :
  (forall m, m ∈ members -> get_max_authority (fst (fst m)) = None) ->
  Communication ∈ cc_required c ->
  fst (check_formation_complete c members leader now) = Ok false /\
  (cc_status (snd (check_formation_complete c members leader now)) = AwaitingApproval ->
   cc_status c = AwaitingApproval).
Proof.
  intros Hall Hreq.
  assert (identify_gaps (cell_capabilities members) (cc_required c) <> []) as Hgap.
  { rewrite gaps_spec. intros Hg. destruct (Hg _ Hreq) as (cap & Hc & Hr).
    rewrite cell_capabilities_lookup in Hc.
    destruct (contributions Communication (map fst members)) as [|x l] eqn:E; simplify_eq/=.
    revert Hr. unfold is_mission_ready. simpl. rewrite <- E, (autonomous_contributions members) by done.
    simpl. by rewrite andb_false_r. }
  unfold check_formation_complete. rewrite aggregate_cell.
  destruct (_ <? _); [done|]. case_bool_decide; [done|]. destruct (0 <? _); [done|].
  by rewrite bool_decide_false by done.
Qed.

End CellTheorems.

(** ** Readiness is between zero and one *)

Local Abbreviation nonneg := (Float.nonneg 24 128).
Local Abbreviation value := (Float.value 128).
Local Opaque Float.ulp.

(** Numbers from zero to one *)
Definition unit32 (x : spec_float) : Prop := nonneg x /\ finite x /\ value x <= value f32_one.

Lemma nonneg_f32_one : nonneg f32_one.
Proof. vm_compute. auto. Qed.

Lemma value_f32_one : value f32_one = ulp 128 0.
Proof. apply Z.eqb_eq. vm_compute. reflexivity. Qed.

Lemma nonneg_le_finite x y : nonneg x -> nonneg y -> finite y -> value x <= value y -> finite x.
Proof.
  intros Hx Hy Fy Hle.
  pose proof (finite_value_lt 24 128 ltac:(lia) ltac:(lia) y Hy Fy).
  destruct (nonneg_cases 24 128 ltac:(lia) ltac:(lia) x Hx) as [->|[E|(m & e & -> & _)]]; [done| |done].
  rewrite E in Hle. change (value (S754_infinity false)) with (ulp 128 128) in Hle. lia.
Qed.

(** A minimum with one is between zero and one, also of a NaN. *)
Lemma float_min_unit x : nonneg x \/ x = S754_nan -> unit32 (float_min x f32_one).
Proof.
  pose proof nonneg_f32_one as H1. intros [Hx| ->]; [|split_and!; [done|done|done]].
  rewrite (float_min_value 24 128) by (lia || done).
  destruct (Z.ltb_spec (value f32_one) (value x)).
  - split_and!; [done|done|lia].
  - split_and!; [done| |done]. by apply (nonneg_le_finite x f32_one).
Qed.

Lemma add32_nonneg x y : nonneg x -> nonneg y -> nonneg (add32 x y).
Proof. intros Hx Hy. apply (rounds_nonneg _ _ _ _ (SFadd_rounds 24 128 ltac:(lia) ltac:(lia) x y Hx Hy)). Qed.

Lemma mul32_nonneg x y : nonneg x -> finite x -> nonneg y -> finite y -> nonneg (mul32 x y).
Proof.
  intros Hx Fx Hy Fy. destruct (SFmul_rounds 24 128 ltac:(lia) ltac:(lia) x y Hx Fx Hy Fy) as (v & _ & Hr).
  apply (rounds_nonneg _ _ _ _ Hr).
Qed.

Lemma div32_nonneg x y : nonneg x -> nonneg y -> nonneg (div32 x y) \/ div32 x y = S754_nan.
Proof.
  intros Hx Hy.
  destruct (nonneg_cases 24 128 ltac:(lia) ltac:(lia) x Hx) as [->|[->|(m & e & -> & Hb)]],
    (nonneg_cases 24 128 ltac:(lia) ltac:(lia) y Hy) as [->|[->|(m' & e' & -> & Hb')]];
    try (left; reflexivity); try (right; reflexivity).
  left. destruct Hb as [_ [Hp _]], Hb' as [_ [Hp' _]].
  apply (SFdiv_lower 24 128 ltac:(lia) ltac:(lia) _ _ (S754_zero false)); try done.
  change (Float.value 128 (S754_zero false)) with 0.
  pose proof (ulp_pos 128 0 ltac:(unfold scale; lia)). change (value (S754_finite false m e)) with (Zpos m * ulp 128 e). nia.
Qed.

Lemma sum32_nonneg l : l <> [] -> Forall nonneg l -> nonneg (fold_left add32 l (S754_zero true)).
Proof.
  intros Hne Hl. destruct Hl as [|x l Hx Hl]; [done|]. cbn [fold_left].
  assert (nonneg (add32 (S754_zero true) x)) as H0.
  { destruct (nonneg_cases 24 128 ltac:(lia) ltac:(lia) x Hx) as [->|[->|(m & e & -> & Hb)]]; [vm_compute; reflexivity|vm_compute; reflexivity|exact Hx]. }
  clear Hne. revert H0. generalize (add32 (S754_zero true) x) as acc.
  induction Hl as [|y l Hy Hl IH]; intros acc Hacc; cbn [fold_left]; [exact Hacc|]. apply IH, add32_nonneg; assumption.
Qed.

Lemma f32_of_Z_nonneg n : 0 <= n -> nonneg (f32_of_Z n).
Proof.
  intros Hn. apply (rounds_nonneg 24 128 (n * ulp 128 0)). apply binary_normalize_rounds; unfold scale; lia.
Qed.

Ltac side32 := first [vm_compute; by auto | apply Z.leb_le; vm_compute; reflexivity].

Lemma bonus_nonneg n a : nonneg (redundancy_bonus n) /\ nonneg (authority_bonus a).
Proof.
  split; [unfold redundancy_bonus; repeat case_match; side32|].
  destruct a as [[]|]; side32.
Qed.

Lemma add32_nan_or x y : nonneg x \/ x = S754_nan -> nonneg y -> nonneg (add32 x y) \/ add32 x y = S754_nan.
Proof. intros [Hx| ->] Hy; [left; by apply add32_nonneg|by right]. Qed.

(** The confidence of an aggregated capability is between zero and one. *)
Lemma aggregate_of_unit ty l :
  l <> [] -> Forall (fun c => nonneg (snd (fst c))) l -> unit32 (agg_confidence (aggregate_of ty l)).
Proof.
  intros Hne Hl. unfold aggregate_of. simpl.
  destruct (bonus_nonneg (len l) (highest_authority l)) as [Hr Ha].
  apply float_min_unit, add32_nan_or; [|done]. left.
  apply float_min_unit, add32_nan_or; [|done].
  apply div32_nonneg; [|apply f32_of_Z_nonneg, len_nonneg].
  apply sum32_nonneg; [by destruct l|]. by rewrite Forall_map.
Qed.

Lemma effective_confidence_unit c : unit32 (agg_confidence c) -> unit32 (effective_confidence c).
Proof.
  intros (Hn & Hf & _). unfold effective_confidence. apply float_min_unit. left.
  destruct (requires_oversight c); [|done].
  destruct (agg_authority c) as [[]|]; apply mul32_nonneg; done || side32.
Qed.

Lemma weight_bounds ty :
  nonneg (readiness_weight ty) /\ finite (readiness_weight ty) /\ 0 < value (readiness_weight ty) <= ulp 128 0.
Proof. destruct ty; (split_and!; [side32|side32|apply Z.ltb_lt; vm_compute; reflexivity|side32]). Qed.

Lemma ulp_double n : 0 <= n -> ulp 128 n + ulp 128 n = ulp 128 (n + 1).
Proof.
  intros Hn. rewrite (ulp_shift 128 n (n + 1)) by (unfold scale; lia).
  replace (n + 1 - n) with 1 by lia. lia.
Qed.

(** Adding a number below a power of two at most doubles the power. *)
Lemma add32_pow x y n :
  nonneg x -> nonneg y -> 0 <= n < 79 -> value x <= ulp 128 n -> value y <= ulp 128 n ->
  value (add32 x y) <= ulp 128 (n + 1).
Proof.
  intros Hx Hy Hn Lx Ly. pose proof (SFadd_rounds 24 128 ltac:(lia) ltac:(lia) x y Hx Hy) as Hr.
  destruct (representable 24 128 ltac:(lia) ltac:(lia) 1 (n + 1)) as (p & Hp & Fp & Vp);
    [lia|rewrite emin_eq; lia|].
  rewrite Z.mul_1_l in Vp. rewrite <- Vp. apply (rounds_upper _ _ _ _ Hr); [done|].
  rewrite Vp, <- ulp_double by lia. lia.
Qed.

(** The running score stays below the running weight, and both stay finite. *)
Lemma add_score_bounded l : forall n s w,
  Forall (fun e => unit32 (effective_confidence (snd e))) l ->
  nonneg s -> nonneg w -> finite w -> value s <= value w -> value w <= ulp 128 n ->
  0 <= n -> n + len l <= 70 ->
  let '(s', w') := fold_left add_score l (s, w) in
  nonneg s' /\ finite s' /\ nonneg w' /\ finite w' /\ value s' <= value w' /\ value w <= value w'.
Proof.
  induction l as [|[ty c] l IH]; intros n s w Hl Hs Hw Fw Hle Hb Hn0 Hn; cbn [fold_left].
  { split_and!; try done. by apply (nonneg_le_finite s w). }
  apply Forall_cons in Hl as [(He & Fe & Le) Hl]. cbn [snd] in *.
  assert (len ((ty, c) :: l) = len l + 1) as El by (unfold len; simpl; lia). pose proof (len_nonneg l).
  destruct (weight_bounds ty) as (Hwt & Fwt & Pwt & Lwt).
  unfold add_score at 2. cbn [fst snd].
  pose proof (ulp_le 128 0 n ltac:(unfold scale; lia)) as U.
  destruct (SFmul_le 24 128 ltac:(lia) ltac:(lia) (effective_confidence c) (readiness_weight ty) f32_one 1)
    as (Hm & Fm & Lm); try done.
  { rewrite value_f32_one. pose proof (ulp_double 0 ltac:(lia)) as U2. change (0 + 1) with 1 in U2.
    rewrite <- U2. pose proof (ulp_pos 128 0 ltac:(unfold scale; lia)). nia. }
  assert (value (SFmul 24 128 f32_one (readiness_weight ty)) = value (readiness_weight ty)) as E1
    by (destruct ty; apply Z.eqb_eq; vm_compute; reflexivity).
  rewrite E1 in Lm.
  destruct (SFadd_le 24 128 ltac:(lia) ltac:(lia) s (mul32 (effective_confidence c) (readiness_weight ty))
    w (readiness_weight ty) (n + 1) Hs Hm Hw Hwt Hle Lm) as (Hs' & Fs' & Ls'); [rewrite emin_eq; lia|rewrite <- ulp_double; lia|].
  destruct (SFadd_le 24 128 ltac:(lia) ltac:(lia) w (readiness_weight ty) w (readiness_weight ty) (n + 1)
    Hw Hwt Hw Hwt ltac:(lia) ltac:(lia)) as (Hw' & Fw' & _); [rewrite emin_eq; lia|rewrite <- ulp_double; lia|].
  assert (value w <= value (add32 w (readiness_weight ty))) as Lw.
  { apply (rounds_lower _ _ _ _ (SFadd_rounds 24 128 ltac:(lia) ltac:(lia) w (readiness_weight ty) Hw Hwt)); [done|done|lia]. }
  specialize (IH (n + 1) (add32 s (mul32 (effective_confidence c) (readiness_weight ty)))
    (add32 w (readiness_weight ty)) Hl Hs' Hw' Fw' Ls').
  destruct (fold_left add_score l _) as [s' w']. destruct IH as (? & ? & ? & ? & ? & ?);
    [apply add32_pow; done || lia|lia|lia|]. split_and!; try done. lia.
Qed.

Definition all_types : list CapabilityType :=
  [Unspecified; Sensor; Compute; Communication; Mobility; Payload; Emergent].

Lemma few_types (l : list CapabilityType) : NoDup l -> len l <= 7.
Proof.
  intros Hnd. assert (l ⊆+ all_types) as Hsub.
  { apply NoDup_submseteq; [done|]. intros ty _. destruct ty; set_solver. }
  apply submseteq_length in Hsub. unfold len. simpl in Hsub. lia.
Qed.

Lemma div32_unit x y :
  nonneg x -> finite x -> nonneg y -> finite y -> 0 < value y -> value x <= value y -> unit32 (div32 x y).
Proof.
  intros Hx Fx Hy Fy Py Hle. destruct (Z.eq_dec (value x) 0) as [E|Hne].
  - assert (x = S754_zero false) as ->.
    { apply (value_inj 24 128 ltac:(lia) ltac:(lia)); [done|done|by rewrite E]. }
    destruct (nonneg_cases 24 128 ltac:(lia) ltac:(lia) y Hy) as [->|[->|(m & e & -> & _)]];
      [by apply Z.lt_irrefl in Py|done|]. split_and!; [done|done|side32].
  - pose proof (value_nonneg 24 128 ltac:(lia) ltac:(lia) x Hx).
    pose proof (ulp_pos 128 0 ltac:(unfold scale; lia)).
    assert (value (S754_zero false) * value y <= value x * ulp 128 0) as Hz.
    { change (value (S754_zero false)) with 0. nia. }
    destruct (SFdiv_lower 24 128 ltac:(lia) ltac:(lia) x y (S754_zero false)) as [Hn _]; try done; [lia|].
    assert (value (div32 x y) <= value f32_one) as Hu.
    { apply (SFdiv_upper 24 128); try done; try lia. rewrite value_f32_one. nia. }
    split_and!; [done| |done]. by apply (nonneg_le_finite _ f32_one).
Qed.

Lemma readiness_unit `{HashOrder} (members : list (NodeConfig * NodeState)) caps :
  aggregate_capabilities members = Ok caps ->
  (forall m cap, m ∈ members -> cap ∈ Node.capabilities (fst m) -> nonneg (confidence cap)) ->
  unit32 (calculate_readiness_score caps).
Proof.
  intros Hcaps Hconf.
  assert (forall ty, caps !! ty = aggregate_of ty <$> nonempty (contributions ty members)) as Hlk.
  { destruct (aggregate_capabilities_spec members) as (m & E & Hm). rewrite Hcaps in E. by injection E as ->. }
  unfold calculate_readiness_score. case_bool_decide as Hne; [split_and!; [done|done|side32]|].
  pose proof (iter_perm caps) as Hp.
  assert (Forall (fun e => unit32 (effective_confidence (snd e))) (iter caps)) as Hall.
  { rewrite Hp. apply Forall_forall. intros [ty cap] Hin. apply elem_of_map_to_list in Hin. rewrite Hlk in Hin.
    destruct (contributions ty members) as [|x l] eqn:E; simplify_eq/=.
    apply effective_confidence_unit, aggregate_of_unit; [done|]. rewrite <- E. apply Forall_forall.
    intros cb Hcb. unfold contributions in Hcb. apply list_elem_of_In, in_flat_map in Hcb as ([cfg st] & Hm & Hcb).
    simpl in Hcb. destruct (is_operational st); [|done].
    apply list_elem_of_In, list_elem_of_fmap in Hcb as (cap & -> & Hcap).
    apply list_elem_of_filter in Hcap as [_ Hcap]. apply list_elem_of_In in Hm. by apply (Hconf (cfg, st)). }
  assert (len (iter caps) <= 7) as Hlen.
  { assert (NoDup (iter caps).*1) as Hnd by (rewrite Hp; apply NoDup_fst_map_to_list).
    apply few_types in Hnd. unfold len in *. by rewrite length_fmap in Hnd. }
  assert (value f32_zero <= ulp 128 0) as Hz by side32.
  pose proof (add_score_bounded (iter caps) 0 f32_zero f32_zero Hall eq_refl eq_refl I
    (Z.le_refl _) Hz (Z.le_refl 0) ltac:(lia)) as Hb.
  destruct (fold_left add_score _ _) as [s w].
  destruct Hb as (Hs & Fs & Hw & Fw & Hsw & _).
  rewrite (SFltb_value 24 128) by (lia || done). change (Float.value 128 f32_zero) with 0.
  destruct (Z.ltb_spec 0 (value w)); [by apply div32_unit|split_and!; [done|done|side32]].
Qed.

Lemma unit32_leb x : unit32 x -> SFleb f32_zero x = true /\ SFleb x f32_one = true.
Proof.
  intros (Hn & _ & Hu). pose proof nonneg_f32_one. rewrite !(SFleb_value 24 128) by (lia || done).
  pose proof (value_nonneg 24 128 ltac:(lia) ltac:(lia) _ Hn). change (Float.value 128 f32_zero) with 0.
  by rewrite !Z.leb_le.
Qed.

(** The readiness of a cell computed from its members is between zero and one, in
    whatever order the hash map of its capabilities is iterated: rounding in the
    weighted sums cannot lift it above one. *)
Theorem cell_readiness_bounded `{HashOrder} (members : list Member) :
  (forall m cap, m ∈ members -> cap ∈ Node.capabilities (fst (fst m)) -> nonneg (confidence cap)) ->
  let r := calculate_readiness_score (cell_capabilities members) in
  SFleb f32_zero r = true /\ SFleb r f32_one = true.
Proof.
  intros Hconf. apply unit32_leb, (readiness_unit (map fst members)); [apply aggregate_cell|].
  intros m cap (m' & -> & Hm)%list_elem_of_fmap Hcap. by apply (Hconf m').
Qed.

(** ** Zones *)

Lemma add32_nan_l x : add32 S754_nan x = S754_nan.
Proof. done. Qed.

Lemma add32_nan_r x : add32 x S754_nan = S754_nan.
Proof. by destruct x. Qed.

Lemma sum32_nan l acc : S754_nan ∈ l \/ acc = S754_nan -> fold_left add32 l acc = S754_nan.
Proof.
  revert acc. induction l as [|x l IH]; intros acc Hin; cbn [fold_left].
  - destruct Hin as [[]%not_elem_of_nil| ->]. done.
  - apply IH. destruct Hin as [[Hx|Hin]%elem_of_cons| ->]; [right; subst; apply add32_nan_r|by left|right; apply add32_nan_l].
Qed.

(** A single empty cell without capacity makes the average readiness of a zone
    undefined, and an undefined readiness passes every threshold: the zone is ready
    whatever its other cells are. *)
Theorem undefined_readiness_makes_zone_ready z cells coordinator c cfg :
  c ∈ cells -> members c = [] -> config c = Some cfg -> max_size cfg = 0 ->
  min_cells z <= len cells -> coordinator <> None ->
  zone_check_formation_complete z cells coordinator = (true, set_zone_status z ZoneReady).
Proof.
  intros Hin Hm Hc Hs Hmin Hco. unfold zone_check_formation_complete.
  destruct (Z.ltb_spec (len cells) (min_cells z)); [lia|]. rewrite bool_decide_false by done.
  assert (calculate_average_readiness cells = S754_nan) as ->; [|done].
  unfold calculate_average_readiness. destruct cells as [|x cells]; [by apply not_elem_of_nil in Hin|].
  rewrite (sum32_nan _ (S754_zero true)); [done|]. left.
  apply list_elem_of_In, in_map_iff. exists c. split; [|by apply list_elem_of_In].
  unfold cell_fill. rewrite Hm, Hc, Hs. vm_compute. reflexivity.
Qed.

(** After five seconds of its coordinator's existence a zone may move to operations
    in the very check that makes it ready: the time it has been ready is not looked at. *)
Theorem ready_zone_transitions_at_once z cells coordinator inst :
  fst (zone_check_formation_complete z cells coordinator) = true ->
  zc_formation_start z + 5 * 10 ^ 9 <= inst ->
  can_transition_to_operations (snd (zone_check_formation_complete z cells coordinator)) inst = true.
Proof.
  unfold zone_check_formation_complete. destruct (_ <? _); [done|]. case_bool_decide; [done|].
  destruct (SFltb _ _); [done|]. intros _ Ht. unfold can_transition_to_operations, saturating_sub. simpl.
  apply Z.leb_le. lia.
Qed.

Section ZoneCapabilities.
Context `{HashOrder}.

(** The capability kept for a type after the capabilities of [l] *)
Definition best_ok (l : list Capability) (m : gmap CapabilityType Capability) : Prop :=
  (forall ty, is_Some (m !! ty) <-> ty ∈ map get_capability_type l) /\
  (forall ty c, m !! ty = Some c -> c ∈ l /\ get_capability_type c = ty /\
     forall c', c' ∈ l -> get_capability_type c' = ty -> value (confidence c') <= value (confidence c)).

Lemma keep_best_ok l m cap :
  Forall (fun c => nonneg (confidence c)) (l ++ [cap]) -> best_ok l m -> best_ok (l ++ [cap]) (keep_best m cap).
Proof.
  intros Hn [Hd Hb]. rewrite Forall_app, Forall_singleton in Hn. destruct Hn as [Hl Hc].
  rewrite Forall_forall in Hl. unfold keep_best.
  assert (forall m', (forall ty, ty <> get_capability_type cap -> m' !! ty = m !! ty) ->
    (exists c, m' !! get_capability_type cap = Some c /\ c ∈ l ++ [cap] /\ get_capability_type c = get_capability_type cap /\
       value (confidence cap) <= value (confidence c) /\
       forall c', c' ∈ l -> get_capability_type c' = get_capability_type cap -> value (confidence c') <= value (confidence c)) ->
    best_ok (l ++ [cap]) m') as Hfin.
  { intros m' Hother (c & Hcm & Hcl & Hct & Hcv & Hcb). split.
    - intros ty. rewrite map_app. destruct (decide (ty = get_capability_type cap)) as [->|Hne].
      + rewrite Hcm. simpl. split; [set_solver|by eauto].
      + rewrite Hother by done. rewrite Hd. simpl. set_solver.
    - intros ty x. destruct (decide (ty = get_capability_type cap)) as [->|Hne].
      + rewrite Hcm. intros [= <-]. split_and!; [done|done|].
        intros c' [Hin|Hin%list_elem_of_singleton]%elem_of_app Ht; [by apply Hcb|by subst].
      + rewrite Hother by done. intros Hx. destruct (Hb ty x Hx) as (Hin & Hty & Hmax).
        split_and!; [set_solver|done|]. intros c' [Hin'|Hin'%list_elem_of_singleton]%elem_of_app Ht; [by apply Hmax|congruence]. }
  destruct (m !! get_capability_type cap) as [ex|] eqn:E.
  - destruct (Hb _ _ E) as (Hin & Hty & Hmax). rewrite (SFltb_value 24 128) by (lia || auto).
    destruct (Z.ltb_spec (value (confidence ex)) (value (confidence cap))); apply Hfin.
    + intros ty Hne. by rewrite lookup_insert_ne.
    + exists cap. rewrite lookup_insert_eq. split_and!; [done|set_solver|done|lia|].
      intros c' Hc' Ht. specialize (Hmax c' Hc' Ht). lia.
    + done.
    + exists ex. split_and!; [done|set_solver|done|done|done].
  - apply Hfin; [intros ty Hne; by rewrite lookup_insert_ne|]. exists cap. rewrite lookup_insert_eq.
    split_and!; [done|set_solver|done|lia|]. intros c' Hc' Ht. exfalso.
    assert (is_Some (m !! get_capability_type cap)) as Hs.
    { apply Hd. rewrite <- Ht. apply list_elem_of_In, in_map, list_elem_of_In, Hc'. }
    rewrite E in Hs. by destruct Hs.
Qed.

Lemma best_by_type_ok cells :
  Forall (fun c => nonneg (confidence c)) (flat_map CellState.capabilities cells) ->
  best_ok (flat_map CellState.capabilities cells) (best_by_type cells).
Proof.
  unfold best_by_type. generalize (flat_map CellState.capabilities cells) as l. intros l.
  induction l as [|cap l IH] using rev_ind; intros Hn.
  - cbn [fold_left map]. split; [intros ty; rewrite lookup_empty; split; [by intros []|by intros []%not_elem_of_nil]|].
    intros ty c. by rewrite lookup_empty.
  - rewrite fold_left_app. apply keep_best_ok; [done|]. apply IH. by apply Forall_app in Hn as [? _].
Qed.

Lemma types_of_entries (t : list (CapabilityType * Capability)) :
  Forall (fun e => get_capability_type (snd e) = fst e) t -> map get_capability_type t.*2 = t.*1.
Proof. induction 1 as [|[ty c] t Ht _ IH]; [done|]. simpl in *. f_equal; [exact Ht|exact IH]. Qed.

(** The capabilities of a zone are, for every type present in a cell, one capability
    of that type with the highest confidence, listed by falling confidence; the sort does
    not panic. *)
Theorem zone_capabilities_best cells :
  Forall (fun c => nonneg (confidence c)) (flat_map CellState.capabilities cells) ->
  exists l, zone_aggregate_capabilities cells = Some l /\
    NoDup (map get_capability_type l) /\
    (forall ty, ty ∈ map get_capability_type l <-> ty ∈ zone_types cells) /\
    (forall c, c ∈ l -> c ∈ flat_map CellState.capabilities cells /\
       forall c', c' ∈ flat_map CellState.capabilities cells -> get_capability_type c' = get_capability_type c ->
         SFleb (confidence c') (confidence c) = true) /\
    StronglySorted (fun a b => SFleb (confidence b) (confidence a) = true) l.
Proof.
  intros Hn. pose proof (best_by_type_ok cells Hn) as [Hd Hb].
  pose proof (iter_perm (best_by_type cells)) as Hp. rewrite Forall_forall in Hn.
  set (l := (iter (best_by_type cells)).*2).
  assert (forall c, c ∈ l <-> best_by_type cells !! get_capability_type c = Some c) as Hl.
  { intros c. unfold l. rewrite Hp, list_elem_of_fmap. split.
    - intros ([ty x] & -> & Hin). apply elem_of_map_to_list in Hin. destruct (Hb _ _ Hin) as (_ & <- & _). done.
    - intros Hc. exists (get_capability_type c, c). split; [done|]. by apply elem_of_map_to_list. }
  assert (Forall (fun c => nonneg (confidence c)) l) as Hnl.
  { apply Forall_forall. intros c Hc%Hl. apply Hn. by apply (Hb _ _ Hc). }
  set (cmp := fun a b => cmp_float (confidence b) (confidence a)).
  assert (cmp_ok (fun c => nonneg (confidence c)) cmp) as Hcmp.
  { destruct (cmp_float_ok 24 128 ltac:(lia) ltac:(lia)) as [Ha Ht]. split; unfold cmp; intros; eauto. }
  pose proof (sort_by_sorted _ cmp Hcmp l Hnl) as Hs. pose proof (sort_by_perm cmp l) as Hsp.
  exists (sort_by cmp l). split.
  { unfold zone_aggregate_capabilities. fold l. destruct (existsb _ l) eqn:E; [|by rewrite andb_false_r].
    apply existsb_exists in E as (c & Hc%list_elem_of_In & Hnan%bool_decide_eq_true).
    rewrite Forall_forall in Hnl. specialize (Hnl c Hc). rewrite Hnan in Hnl. done. }
  split_and!.
  - rewrite Hsp. assert (map get_capability_type l = (iter (best_by_type cells)).*1) as ->.
    { apply types_of_entries. rewrite Hp. apply Forall_forall.
      intros [ty c] Hin%elem_of_map_to_list. by apply (Hb _ _ Hin). }
    rewrite Hp. apply NoDup_fst_map_to_list.
  - intros ty. rewrite Hsp. unfold zone_types. rewrite <- Hd. rewrite list_elem_of_In, in_map_iff. split.
    + intros (c & <- & Hc%list_elem_of_In%Hl). by exists c.
    + intros [c Hc]. destruct (Hb _ _ Hc) as (_ & Hty & _). exists c. split; [done|].
      apply list_elem_of_In, Hl. by rewrite Hty.
  - intros c Hc. rewrite Hsp in Hc. apply Hl in Hc. destruct (Hb _ _ Hc) as (Hin & _ & Hmax).
    split; [done|]. intros c' Hc' Ht. rewrite (SFleb_value 24 128) by (lia || auto). apply Z.leb_le. by apply Hmax.
  - assert (Forall (fun c => nonneg (confidence c)) (sort_by cmp l)) as Hns by by rewrite Hsp.
    clear -Hs Hns. induction Hs as [|a t Hs IH Ha]; [constructor|]. apply Forall_cons in Hns as [Na Nt].
    constructor; [by apply IH|]. rewrite Forall_forall in *. intros b Hin. specialize (Ha b Hin).
    revert Ha. unfold cmp, cmp_float. rewrite (SFcompare_value 24 128) by (lia || auto).
    rewrite (SFleb_value 24 128) by (lia || auto). intros ?%Z.compare_le_iff. by apply Z.leb_le.
Qed.

End ZoneCapabilities.

(** ** Concrete instances *)

(** The order that visits the types as listed *)
Definition iter_by (tys : list CapabilityType) {A} (m : gmap CapabilityType A) : list (CapabilityType * A) :=
  omap (fun ty => (fun x => (ty, x)) <$> m !! ty) tys.

Lemma elem_of_iter_by tys {A} (m : gmap CapabilityType A) ty x :
  (ty, x) ∈ iter_by tys m <-> ty ∈ tys /\ m !! ty = Some x.
Proof.
  unfold iter_by. rewrite list_elem_of_omap. split.
  - intros (t & Ht & E). destruct (m !! t) eqn:Em; simplify_eq/=. done.
  - intros [Ht E]. exists ty. by rewrite E.
Qed.

Lemma iter_by_perm tys {A} (m : gmap CapabilityType A) :
  NoDup tys -> (forall ty, ty ∈ tys) -> iter_by tys m ≡ₚ map_to_list m.
Proof.
  intros Hnd Hall. apply NoDup_Permutation; [|apply NoDup_map_to_list|].
  - clear Hall. induction Hnd as [|ty tys Hty Hnd IH]; [constructor|]. unfold iter_by. simpl.
    destruct (m !! ty) as [x|] eqn:E; simpl; [|exact IH]. constructor; [|exact IH].
    intros Hin. apply (elem_of_iter_by tys m) in Hin. tauto.
  - intros [ty x]. rewrite elem_of_iter_by, elem_of_map_to_list. naive_solver.
Qed.

Definition order_of (tys : list CapabilityType) (Hnd : NoDup tys) (Hall : forall ty, ty ∈ tys) : HashOrder :=
  {| iter A m := iter_by tys m; iter_perm A m := iter_by_perm tys m Hnd Hall |}.

Definition sensor_second : list CapabilityType :=
  [Communication; Sensor; Mobility; Unspecified; Compute; Payload; Emergent].
Definition sensor_third : list CapabilityType :=
  [Communication; Mobility; Sensor; Unspecified; Compute; Payload; Emergent].

Lemma sensor_second_ok : NoDup sensor_second /\ forall ty, ty ∈ sensor_second.
Proof. split; [by apply (bool_decide_unpack _)|]. intros []; unfold sensor_second; set_solver. Qed.

Lemma sensor_third_ok : NoDup sensor_third /\ forall ty, ty ∈ sensor_third.
Proof. split; [by apply (bool_decide_unpack _)|]. intros []; unfold sensor_third; set_solver. Qed.

Definition order1 : HashOrder := order_of sensor_second (proj1 sensor_second_ok) (proj2 sensor_second_ok).
Definition order2 : HashOrder := order_of sensor_third (proj1 sensor_third_ok) (proj2 sensor_third_ok).

#[local] Instance plain_text : Render := {| fmt2 _ := EmptyString; debug_str s := s |}.

(** A member with one capability and an operator of the given authority *)
Definition member (id : string) (ty : CapabilityType) (conf : spec_float) (a : AuthorityLevel) : Member :=
  (mkNodeConfig id "UGV" [capability_new id "c" ty conf] f32_zero f32_zero
     (Some (Operator.one_to_one (mkOperator "op" "A" 1 (authority_to_i32 a) "" "") id)) None,
   replenish_fuel (node_state_new (S754_zero false, S754_zero false, S754_zero false) 0) 60 0,
   Some RoleSensor).

Definition borderline : list Member :=
  [member "n1" Communication (f32_lit 7 10) AuthorityUnspecified;
   member "n2" Sensor (f32_lit 7 10) AuthorityUnspecified;
   member "n3" Mobility (f32_lit 7 10) AuthorityUnspecified].

(** The readiness is a sum of floats in the order of a hash map, so whether a cell
    is formed can depend on that order: three members of confidence 0.7 reach the
    threshold 0.7 in one order and miss it in another. *)
Theorem formation_depends_on_hash_order :
  let c := coordinator_new "cell-1" 0 in
  fst (check_formation_complete (H := order1) c borderline (Some "n1"%string) 10) = Ok false /\
  fst (check_formation_complete (H := order2) c borderline (Some "n1"%string) 10) = Ok true.
Proof. vm_compute. done. Qed.

(** An operator of unspecified authority lifts the oversight of communications, which
    an observer does not. *)
Theorem unspecified_authority_lifts_oversight :
  check_oversight_requirement Communication (Some AuthorityUnspecified) = false /\
  check_oversight_requirement Communication (Some Observer) = true /\
  check_oversight_requirement Communication (Some Advisor) = false.
Proof. done. Qed.

(** Contributors are counted per capability, not per node: one node with several
    sensors gets the bonus for redundancy. *)
Theorem one_node_counts_several_times cfg st ty cap caps :
  is_operational st = true -> Node.capabilities cfg = cap :: caps ->
  Forall (fun c => get_capability_type c = ty) (cap :: caps) ->
  exists m, aggregate_capabilities (H := order1) [(cfg, st)] = Ok m /\
    contributor_count <$> (m !! ty) = Some (len (cap :: caps)).
Proof.
  intros Hop Hc Hall. destruct (aggregate_capabilities_spec (H := order1) [(cfg, st)]) as (m & E & Hm).
  exists m. split; [done|]. rewrite Hm. unfold contributions. simpl. rewrite Hop, Hc, app_nil_r.
  rewrite list_filter_all by (by apply Forall_forall). simpl. f_equal. unfold len. simpl.
  by rewrite length_map, length_fmap.
Qed.

Definition trusted : list Member :=
  [member "n1" Communication (f32_lit 9 10) Supervisor; member "n2" Sensor (f32_lit 9 10) Supervisor;
   member "n3" Payload (f32_lit 9 10) Supervisor].

(** The approval of one formation is valid for every later one until a reset: a cell
    approved with its payload replaced by another one is formed without asking again. *)
Theorem approval_outlives_members :
  let c0 := snd (check_formation_complete (H := order1) (coordinator_new "cell-1" 0) trusted (Some "n1"%string) 10) in
  let c1 := snd (approve_formation c0 20) in
  let others := [member "m1" Communication (f32_lit 9 10) Supervisor; member "m2" Sensor (f32_lit 9 10) Supervisor;
                 member "m3" Payload (f32_lit 9 10) Supervisor] in
  cc_status c0 = AwaitingApproval /\ cc_status c1 = Ready /\
  fst (check_formation_complete (H := order1) c1 others (Some "m1"%string) 30) = Ok true.
Proof. vm_compute. done. Qed.

Definition ready_cell : CellCoordinator := complete (coordinator_new "cell-1" 0) true 10.

Lemma leaderless_cell_stays_ready_witness :
  check_formation_complete (H := order1) ready_cell trusted None 20 = (Ok false, ready_cell) /\
  can_transition_to_hierarchical (snd (check_formation_complete (H := order1) ready_cell trusted None 20)) = true /\
  get_hierarchical_phase (snd (check_formation_complete (H := order1) ready_cell trusted None 20)) = Ok Hierarchy.
Proof. apply leaderless_cell_stays_ready; [reflexivity|vm_compute; congruence]. Defined.

Definition drone (id : string) (ty : CapabilityType) : Member :=
  (mkNodeConfig id "UAV" [capability_new id "c" ty f32_one] f32_zero f32_zero None None,
   replenish_fuel (node_state_new (S754_zero false, S754_zero false, S754_zero false) 0) 60 0, Some RoleSensor).

Definition drones : list Member := [drone "d1" Communication; drone "d2" Sensor; drone "d3" Compute].

Lemma autonomous_cell_never_formed_witness :
  fst (check_formation_complete (H := order1) (coordinator_new "cell-1" 0) drones (Some "d1"%string) 10) = Ok false /\
  (cc_status (snd (check_formation_complete (H := order1) (coordinator_new "cell-1" 0) drones (Some "d1"%string) 10))
     = AwaitingApproval -> Forming = AwaitingApproval).
Proof.
  apply (autonomous_cell_never_formed (H := order1) (coordinator_new "cell-1" 0)).
  - intros m Hm. unfold drones in Hm. rewrite !elem_of_cons in Hm.
    destruct Hm as [->|[->|[->|[]%not_elem_of_nil]]]; reflexivity.
  - by left.
Defined.

Lemma cell_readiness_bounded_witness :
  let r := calculate_readiness_score (H := order1) (cell_capabilities (H := order1) borderline) in
  SFleb f32_zero r = true /\ SFleb r f32_one = true.
Proof.
  apply (cell_readiness_bounded (H := order1)). intros m cap Hm Hc. unfold borderline in Hm.
  rewrite !elem_of_cons in Hm.
  destruct Hm as [->|[->|[->|[]%not_elem_of_nil]]]; apply list_elem_of_singleton in Hc as ->; vm_compute; auto.
Defined.

Definition full_cell : CellState := mkCellState (Some (mkCellConfig "c1" 4 2 None)) None ["n1"; "n2"]%string
  [capability_new "r" "radio" Communication (f32_lit 9 10); capability_new "s" "camera" Sensor (f32_lit 6 10)] None None.
Definition void_cell : CellState := mkCellState (Some (mkCellConfig "c2" 0 0 None)) None [] [] None None.
Definition zone1 : ZoneCoordinator := zone_coordinator_new "z1" 2 (f32_lit 9 10) 0.

Lemma undefined_readiness_makes_zone_ready_witness :
  zone_check_formation_complete zone1 [full_cell; void_cell] (Some "n1"%string) = (true, set_zone_status zone1 ZoneReady).
Proof.
  apply (undefined_readiness_makes_zone_ready zone1 [full_cell; void_cell] (Some "n1"%string) void_cell
           (mkCellConfig "c2" 0 0 None)); try reflexivity; [right; left|congruence].
Defined.

Lemma ready_zone_transitions_at_once_witness :
  can_transition_to_operations (snd (zone_check_formation_complete zone1 [full_cell; void_cell] (Some "n1"%string)))
    (6 * 10 ^ 9) = true.
Proof. apply ready_zone_transitions_at_once; vm_compute; congruence. Defined.

Lemma zone_capabilities_best_witness :
  exists l, zone_aggregate_capabilities (H := order1) [full_cell; full_cell] = Some l /\ NoDup (map get_capability_type l).
Proof.
  destruct (zone_capabilities_best (H := order1) [full_cell; full_cell]) as (l & E & Hnd & _).
  - cbn [flat_map]. repeat constructor; vm_compute; auto.
  - exists l. split; [exact E|exact Hnd].
Defined.
