(* ===== verification/Bytes.v ===== *)
(** * Bytes, strings and keys

    What the security components share: byte strings and the integers and strings
    they carry ([u64::to_le_bytes], [to_be_bytes], [String::as_bytes] and
    [String::from_utf8] of the Rust library), the errors they return, and the interface
    of the device keys. [DeviceKeypair], [DeviceId] and [SecurityError] are re-exported
    from the crate peat-mesh, and Ed25519 comes from ed25519-dalek: neither is part of
    the repository, so the class [DeviceCrypto] holds the functions the code calls and
    [DeviceCryptoLaws] what their documentation promises. *)

From S2P Require Import Prelude.
From Stdlib Require Export Init.Byte.
From Stdlib Require Import Strings.Byte Ascii.

Open Scope Z_scope.

Abbreviation bytes := (list byte).

#[export] Instance byte_eq_dec : EqDecision byte.
Proof. intros x y. apply Byte.byte_eq_dec. Defined.

#[export] Instance byte_inhabited : Inhabited byte := populate x00.

Lemma byte_of_to_N (b : byte) : Byte.of_N (Byte.to_N b) = Some b.
Proof. apply Byte.of_to_N. Qed.

#[export, program] Instance byte_countable : Countable byte :=
  inj_countable Byte.to_N Byte.of_N byte_of_to_N.

Definition u8 (b : byte) : Z := Z.of_N (Byte.to_N b).

(** [z as u8] *)
Definition as_u8 (z : Z) : byte := default x00 (Byte.of_N (Z.to_N (z mod 256))).

Lemma u8_range b : 0 <= u8 b < 256.
Proof. unfold u8. pose proof (Byte.to_N_bounded b). lia. Qed.

Lemma as_u8_u8 b : as_u8 (u8 b) = b.
Proof.
  unfold as_u8. rewrite Z.mod_small by apply u8_range. unfold u8.
  by rewrite N2Z.id, Byte.of_to_N.
Qed.

Lemma u8_as_u8 z : u8 (as_u8 z) = z mod 256.
Proof.
  unfold u8, as_u8. pose proof (Z.mod_pos_bound z 256).
  destruct (Byte.of_N (Z.to_N (z mod 256))) as [b|] eqn:E; simpl.
  - apply Byte.to_of_N in E. rewrite E. lia.
  - apply Byte.of_N_None_iff in E. lia.
Qed.

Lemma u8_inj a b : u8 a = u8 b -> a = b.
Proof. intros E. by rewrite <- (as_u8_u8 a), E, as_u8_u8. Qed.

Lemma len_cons {A} (x : A) (l : list A) : len (x :: l) = 1 + len l.
Proof. unfold len. simpl. lia. Qed.

(** ** Integers in byte strings *)

(** The [n] low bytes of [x], least significant first *)
Fixpoint le_bytes (n : nat) (x : Z) : bytes :=
  match n with
  | O => []
  | S n => as_u8 x :: le_bytes n (x / 256)
  end.

Fixpoint from_le_bytes (l : bytes) : Z :=
  match l with
  | [] => 0
  | b :: l => u8 b + 256 * from_le_bytes l
  end.

(** Most significant byte first *)
Definition be_bytes (n : nat) (x : Z) : bytes := rev (le_bytes n x).

Lemma length_le_bytes n x : length (le_bytes n x) = n.
Proof. revert x; induction n; intros x; simpl; [done|by f_equal]. Qed.

Lemma from_le_bytes_range l : 0 <= from_le_bytes l < 256 ^ len l.
Proof.
  induction l as [|b l IH]; simpl; [done|].
  assert (256 ^ len (b :: l) = 256 * 256 ^ len l) as ->.
  { unfold len. simpl length. rewrite Nat2Z.inj_succ, Z.pow_succ_r; lia. }
  pose proof (u8_range b). lia.
Qed.

Lemma from_le_bytes_le_bytes n x : 0 <= x < 256 ^ Z.of_nat n -> from_le_bytes (le_bytes n x) = x.
Proof.
  revert x; induction n as [|n IH]; intros x Hx; cbn [le_bytes from_le_bytes].
  - simpl in Hx. lia.
  - rewrite Nat2Z.inj_succ, Z.pow_succ_r in Hx by lia.
    rewrite IH, u8_as_u8.
    + pose proof (Z.div_mod x 256). lia.
    + split; [apply Z.div_pos; lia|]. apply Z.div_lt_upper_bound; lia.
Qed.

Lemma le_bytes_from_le_bytes l : le_bytes (length l) (from_le_bytes l) = l.
Proof.
  induction l as [|b l IH]; [done|]. cbn [length le_bytes from_le_bytes].
  replace (u8 b + 256 * from_le_bytes l) with (from_le_bytes l * 256 + u8 b) by lia.
  pose proof (u8_range b). f_equal.
  - unfold as_u8. rewrite Z.add_comm, Z.mod_add by lia. apply as_u8_u8.
  - rewrite Z.div_add_l, Z.div_small, Z.add_0_r by lia. apply IH.
Qed.

Lemma le_bytes_inj n x y :
  0 <= x < 256 ^ Z.of_nat n -> 0 <= y < 256 ^ Z.of_nat n -> le_bytes n x = le_bytes n y -> x = y.
Proof.
  intros Hx Hy E. by rewrite <- (from_le_bytes_le_bytes n x), E, from_le_bytes_le_bytes.
Qed.

Lemma u64_le_bytes x : is_u64 x -> from_le_bytes (le_bytes 8 x) = x.
Proof. intros Hx. apply from_le_bytes_le_bytes. exact Hx. Qed.

Lemma le_bytes_u64 l : length l = 8%nat -> le_bytes 8 (from_le_bytes l) = l.
Proof. intros <-. apply le_bytes_from_le_bytes. Qed.

Lemma u64_of_bytes l : length l = 8%nat -> is_u64 (from_le_bytes l).
Proof. intros Hl. pose proof (from_le_bytes_range l) as H. unfold len in H. rewrite Hl in H. exact H. Qed.

#[global] Arguments le_bytes : simpl never.
#[global] Arguments from_le_bytes : simpl never.

(** ** Strings

    A [String] holds the bytes of its UTF-8 encoding, one [ascii] per byte. *)

Definition as_bytes (s : string) : bytes := String.list_byte_of_string s.

Definition is_continuation (b : byte) : bool := (0x80 <=? u8 b) && (u8 b <=? 0xBF).

Definition in_range (lo hi : Z) (b : byte) : bool := (lo <=? u8 b) && (u8 b <=? hi).

(** Well-formed UTF-8: no overlong form, no surrogate, nothing above U+10FFFF *)
Fixpoint utf8_valid (l : bytes) : bool :=
  match l with
  | [] => true
  | b :: l1 =>
    if u8 b <? 0x80 then utf8_valid l1 else
    match l1 with
    | [] => false
    | c1 :: l2 =>
      if in_range 0xC2 0xDF b then is_continuation c1 && utf8_valid l2 else
      match l2 with
      | [] => false
      | c2 :: l3 =>
        if in_range 0xE0 0xEF b then
          (if u8 b =? 0xE0 then in_range 0xA0 0xBF c1
           else if u8 b =? 0xED then in_range 0x80 0x9F c1 else is_continuation c1) &&
          is_continuation c2 && utf8_valid l3
        else
        match l3 with
        | [] => false
        | c3 :: l4 =>
          in_range 0xF0 0xF4 b &&
          (if u8 b =? 0xF0 then in_range 0x90 0xBF c1
           else if u8 b =? 0xF4 then in_range 0x80 0x8F c1 else is_continuation c1) &&
          is_continuation c2 && is_continuation c3 && utf8_valid l4
        end
      end
    end
  end.

(** [String::from_utf8] *)
Definition from_utf8 (l : bytes) : option string :=
  if utf8_valid l then Some (String.string_of_list_byte l) else None.

(** The values of type [String] *)
Definition is_String (s : string) : Prop := utf8_valid (as_bytes s) = true.

#[export] Instance is_String_dec s : Decision (is_String s).
Proof. unfold is_String. apply _. Defined.

Lemma from_utf8_as_bytes s : is_String s -> from_utf8 (as_bytes s) = Some s.
Proof.
  unfold is_String, from_utf8, as_bytes. intros ->.
  by rewrite String.string_of_list_byte_of_string.
Qed.

Lemma from_utf8_inv l s : from_utf8 l = Some s -> as_bytes s = l /\ is_String s.
Proof.
  unfold from_utf8, is_String, as_bytes. destruct (utf8_valid l) eqn:E; [|done]. intros [= <-].
  by rewrite String.list_byte_of_string_of_list_byte.
Qed.

Lemma as_bytes_inj s t : as_bytes s = as_bytes t -> s = t.
Proof.
  unfold as_bytes. intros E.
  by rewrite <- (String.string_of_list_byte_of_string s), E, String.string_of_list_byte_of_string.
Qed.

Lemma length_as_bytes s : length (as_bytes s) = String.length s.
Proof.
  unfold as_bytes, String.list_byte_of_string. rewrite length_map.
  induction s; simpl; [done|by f_equal].
Qed.

Lemma as_bytes_append s t : as_bytes (s +:+ t) = as_bytes s ++ as_bytes t.
Proof.
  unfold as_bytes, String.list_byte_of_string. rewrite <- map_app. f_equal.
  induction s; simpl; [done|by f_equal].
Qed.

(** [s.len()]: the number of bytes *)
Definition str_len (s : string) : Z := len (as_bytes s).

(** ** Errors

    The constructors of [SecurityError] that the sources of this repository build. *)

Inductive SecurityError :=
| InvalidPublicKey (message : string)
| InvalidSignature (message : string)
| SerializationError (message : string)
| AuthenticationFailed (message : string)
| ChallengeExpired (expires_at : Z)
| PermissionDenied (permission entity_id : string) (roles : list string)
| UserNotFound (username : string)
| UserAlreadyExists (username : string)
| InvalidCredential (username : string)
| InvalidMfaCode
| AccountLocked (username : string)
| AccountDisabled (username : string)
| AccountPending (username : string)
| SessionNotFound
| SessionExpired
| UnsupportedAuthMethod (method : string)
| PasswordHashError (message : string)
| TotpError (message : string)
| Internal (message : string).

#[export] Instance SecurityError_eq_dec : EqDecision SecurityError.
Proof. solve_decision. Defined.

(** ** Device keys *)

Class DeviceCrypto := {
  Keypair : Type;
  VerifyingKey : Type;
  DeviceId : Type;
  DeviceId_eq_dec :: EqDecision DeviceId;
  DeviceId_countable :: Countable DeviceId;
  (** peat-mesh: [DeviceKeypair] and [DeviceId] *)
  public_key_bytes : Keypair -> bytes;
  sign : Keypair -> bytes -> bytes;
  device_id : Keypair -> DeviceId;
  verifying_key_from_bytes : bytes -> result SecurityError VerifyingKey;
  signature_from_bytes : bytes -> result SecurityError bytes;
  verify_with_key : VerifyingKey -> bytes -> bytes -> result SecurityError unit;
  from_public_key : VerifyingKey -> DeviceId;
  to_hex : DeviceId -> string;
  (** ed25519-dalek: [VerifyingKey] *)
  key_from_bytes : bytes -> result string VerifyingKey;
  key_to_bytes : VerifyingKey -> bytes;
  key_verify : VerifyingKey -> bytes -> bytes -> result string unit
}.

(** Correctness of the signature scheme: what a keypair signs verifies under its public
    key, which both crates read back from its 32 bytes; an identifier is derived from the
    public key alone and prints as 32 hexadecimal characters. *)
Class DeviceCryptoLaws (D : DeviceCrypto) := {
  public_key_length : forall k, length (public_key_bytes k) = 32%nat;
  signature_length : forall k m, length (sign k m) = 64%nat;
  public_key_reads : forall k, exists v,
    verifying_key_from_bytes (public_key_bytes k) = Ok v /\
    key_from_bytes (public_key_bytes k) = Ok v /\
    key_to_bytes v = public_key_bytes k /\ from_public_key v = device_id k /\
    forall m, verify_with_key v m (sign k m) = Ok tt /\ key_verify v m (sign k m) = Ok tt;
  signature_reads : forall k m, signature_from_bytes (sign k m) = Ok (sign k m);
  to_hex_length : forall d, length (as_bytes (to_hex d)) = 32%nat
}.

(** An instance: keys are numbers, a signature is a polynomial of key and message. It
    forges nothing and hides nothing, and obeys the laws. *)
Module ToyCrypto.

Definition toy_sign (k : Z) (m : bytes) : bytes := le_bytes 64 (k + 7 * from_le_bytes m).

Definition toy_hex (d : Z) : string :=
  String.string_of_list_byte ((fun b => as_u8 (97 + u8 b mod 16)) <$> le_bytes 32 d).

Definition toy_key (l : bytes) : option Z :=
  if decide (length l = 32%nat) then Some (from_le_bytes l) else None.

#[export] Instance toy_crypto : DeviceCrypto := {|
  Keypair := Z; VerifyingKey := Z; DeviceId := Z;
  public_key_bytes k := le_bytes 32 k;
  sign k m := toy_sign (from_le_bytes (le_bytes 32 k)) m;
  device_id k := from_le_bytes (le_bytes 32 k);
  verifying_key_from_bytes l :=
    match toy_key l with Some k => Ok k | None => Err (InvalidPublicKey "length") end;
  signature_from_bytes l := Ok l;
  verify_with_key v m s :=
    if bool_decide (s = toy_sign v m) then Ok tt else Err (InvalidSignature "signature");
  from_public_key v := v;
  to_hex := toy_hex;
  key_from_bytes l := match toy_key l with Some k => Ok k | None => Err "length" end;
  key_to_bytes v := le_bytes 32 v;
  key_verify v m s := if bool_decide (s = toy_sign v m) then Ok tt else Err "signature"
|}.

#[export] Instance toy_crypto_laws : DeviceCryptoLaws toy_crypto.
Proof.
  split.
  - intros k. apply length_le_bytes.
  - intros k m. apply length_le_bytes.
  - intros k. exists (from_le_bytes (le_bytes 32 k)).
    assert (toy_key (le_bytes 32 k) = Some (from_le_bytes (le_bytes 32 k))) as E.
    { unfold toy_key. by rewrite decide_True by apply length_le_bytes. }
    cbn [verifying_key_from_bytes key_from_bytes toy_crypto public_key_bytes]. rewrite E.
    split_and!; [done|done| |done|].
    + pose proof (le_bytes_from_le_bytes (le_bytes 32 k)) as H. by rewrite length_le_bytes in H.
    + intros m. cbn [verify_with_key key_verify toy_crypto sign].
      by rewrite bool_decide_eq_true_2.
  - done.
  - intros d. cbn [to_hex toy_crypto]. unfold toy_hex, as_bytes.
    rewrite String.list_byte_of_string_of_list_byte, length_fmap. apply length_le_bytes.
Qed.

End ToyCrypto.
