(* ===== verification/Membership.v ===== *)
(** * Membership certificates

    Models peat-protocol/src/security/membership.rs: the certificate an authority
    signs for a member, its wire format, and the registry that finds certificates by
    key and by callsign. Byte arrays are byte strings whose length the predicate
    [typed] states; a slice or an index out of range and a sum that leaves 64 bits
    panic ([None]). The conversions to the tokens of peat-btle, behind the feature
    "bluetooth", are not modelled. *)

From S2P Require Import Prelude Bytes.
From stdpp Require Import pretty.

Open Scope Z_scope.

(** ** Permission flags *)

Definition RELAY : Z := 1.
Definition EMERGENCY : Z := 2.
Definition ENROLL : Z := 4.
Definition ADMIN : Z := 128.

(** [MemberPermissions::all()] *)
Definition all_flags : Z := Z.lor (Z.lor RELAY EMERGENCY) (Z.lor ENROLL ADMIN).

Definition STANDARD : Z := Z.lor RELAY EMERGENCY.
Definition AUTHORITY : Z := all_flags.
Definition default_permissions : Z := Z.lor RELAY EMERGENCY.

Definition from_bits_truncate (b : byte) : Z := Z.land (u8 b) all_flags.
Definition contains (p q : Z) : bool := Z.land p q =? q.

(** ** The certificate *)

Definition CERTIFICATE_BASE_SIZE : Z := 154.
Definition MAX_CALLSIGN_LEN : Z := 16.
Definition MESH_ID_LEN : Z := 8.

Record MembershipCertificate := {
  member_public_key : bytes;
  callsign : string;
  mesh_id : string;
  issued_at_ms : Z;
  expires_at_ms : Z;
  permissions : Z;
  issuer_public_key : bytes;
  issuer_signature : bytes
}.

#[export] Instance MembershipCertificate_eq_dec : EqDecision MembershipCertificate.
Proof. solve_decision. Defined.

(** What the Rust types say of a certificate *)
Record typed (c : MembershipCertificate) : Prop := {
  typed_member : length (member_public_key c) = 32%nat;
  typed_callsign : is_String (callsign c);
  typed_mesh_id : is_String (mesh_id c);
  typed_issued : is_u64 (issued_at_ms c);
  typed_expires : is_u64 (expires_at_ms c);
  typed_permissions : exists b, permissions c = from_bits_truncate b;
  typed_issuer : length (issuer_public_key c) = 32%nat;
  typed_signature : length (issuer_signature c) = 64%nat
}.

Definition certificate_new member_public_key callsign mesh_id issued_at_ms expires_at_ms
    permissions issuer_public_key : MembershipCertificate :=
  {| member_public_key := member_public_key; callsign := callsign; mesh_id := mesh_id;
     issued_at_ms := issued_at_ms; expires_at_ms := expires_at_ms; permissions := permissions;
     issuer_public_key := issuer_public_key; issuer_signature := repeat x00 64 |}.

Definition signable_bytes (c : MembershipCertificate) : bytes :=
  member_public_key c ++ [as_u8 (str_len (callsign c))] ++ as_bytes (callsign c) ++
  as_bytes (mesh_id c) ++ le_bytes 8 (issued_at_ms c) ++ le_bytes 8 (expires_at_ms c) ++
  [as_u8 (permissions c)] ++ issuer_public_key c.

Definition set_signature (c : MembershipCertificate) (s : bytes) : MembershipCertificate :=
  {| member_public_key := member_public_key c; callsign := callsign c; mesh_id := mesh_id c;
     issued_at_ms := issued_at_ms c; expires_at_ms := expires_at_ms c;
     permissions := permissions c; issuer_public_key := issuer_public_key c;
     issuer_signature := s |}.

Section Signing.
Context {D : DeviceCrypto}.

Definition sign_with (c : MembershipCertificate) (issuer_keypair : Keypair) : MembershipCertificate :=
  set_signature c (sign issuer_keypair (signable_bytes c)).

Definition signed (c : MembershipCertificate) (issuer_keypair : Keypair) : MembershipCertificate :=
  sign_with c issuer_keypair.

Definition new_root (authority_keypair : Keypair) callsign mesh_id issued_at_ms expires_at_ms
    : MembershipCertificate :=
  let public_key := public_key_bytes authority_keypair in
  sign_with (certificate_new public_key callsign mesh_id issued_at_ms expires_at_ms
               AUTHORITY public_key) authority_keypair.

Definition verify (c : MembershipCertificate) : result SecurityError unit :=
  let signable := signable_bytes c in
  match key_from_bytes (issuer_public_key c) with
  | Err e => Err (InvalidPublicKey e)
  | Ok verifying_key =>
    match key_verify verifying_key signable (issuer_signature c) with
    | Err e => Err (InvalidSignature e)
    | Ok _ => Ok tt
    end
  end.

End Signing.

Definition is_valid (c : MembershipCertificate) (now_ms : Z) : bool :=
  if expires_at_ms c =? 0 then true
  else (issued_at_ms c <=? now_ms) && (now_ms <? expires_at_ms c).

(** The sum of the second conjunct is evaluated only when the first holds. *)
Definition is_in_grace_period (c : MembershipCertificate) (now_ms grace_period_ms : Z)
    : option bool :=
  if expires_at_ms c =? 0 then Some false
  else if expires_at_ms c <=? now_ms then
    end_ms ← checked (expires_at_ms c + grace_period_ms); Some (now_ms <? end_ms)
  else Some false.

Definition is_expired (c : MembershipCertificate) (now_ms grace_period_ms : Z) : option bool :=
  if expires_at_ms c =? 0 then Some false
  else end_ms ← checked (expires_at_ms c + grace_period_ms); Some (end_ms <=? now_ms).

Definition time_remaining_ms (c : MembershipCertificate) (now_ms : Z) : Z :=
  if (expires_at_ms c =? 0) || (expires_at_ms c <=? now_ms) then 0
  else expires_at_ms c - now_ms.

Definition has_permission (c : MembershipCertificate) (p : Z) : bool := contains (permissions c) p.

Definition is_root (c : MembershipCertificate) : bool :=
  bool_decide (member_public_key c = issuer_public_key c).

(** ** Wire format *)

Definition encode (c : MembershipCertificate) : bytes :=
  member_public_key c ++ [as_u8 (str_len (callsign c))] ++ as_bytes (callsign c) ++
  as_bytes (mesh_id c) ++ le_bytes 8 (issued_at_ms c) ++ le_bytes 8 (expires_at_ms c) ++
  [as_u8 (permissions c)] ++ issuer_public_key c ++ issuer_signature c.

(** [&data[offset..offset + n]] *)
Definition slice (data : bytes) (offset n : Z) : option bytes :=
  if decide (0 <= offset /\ 0 <= n /\ offset + n <= len data)
  then Some (take (Z.to_nat n) (drop (Z.to_nat offset) data)) else None.

(** The text [std] prints for a [Utf8Error], with its byte string *)
Class Utf8Display := utf8_error : bytes -> string.

Section Decode.
Context `{U : Utf8Display}.

Definition serialization_error {A} (message : string) : option (result SecurityError A) :=
  Some (Err (SerializationError message)).

(** The fields after the callsign, from [offset] on *)
Definition decode_rest (data member_public_key : bytes) (callsign : string) (offset : Z)
    : option (result SecurityError MembershipCertificate) :=
  if len data <? offset + MESH_ID_LEN then serialization_error "truncated mesh_id" else
  mesh_bytes ← slice data offset MESH_ID_LEN;
  match from_utf8 mesh_bytes with
  | None => serialization_error ("invalid mesh_id UTF-8: " +:+ utf8_error mesh_bytes)
  | Some mesh_id =>
    let offset := offset + MESH_ID_LEN in
    if len data <? offset + 8 then serialization_error "truncated issued_at" else
    issued ← slice data offset 8;
    let offset := offset + 8 in
    if len data <? offset + 8 then serialization_error "truncated expires_at" else
    expires ← slice data offset 8;
    let offset := offset + 8 in
    if len data <? offset + 1 then serialization_error "truncated permissions" else
    flags ← data !! Z.to_nat offset;
    let offset := offset + 1 in
    if len data <? offset + 32 then serialization_error "truncated issuer_public_key" else
    issuer ← slice data offset 32;
    let offset := offset + 32 in
    if len data <? offset + 64 then serialization_error "truncated signature" else
    signature ← slice data offset 64;
    Some (Ok {| member_public_key := member_public_key; callsign := callsign;
                mesh_id := mesh_id; issued_at_ms := from_le_bytes issued;
                expires_at_ms := from_le_bytes expires;
                permissions := from_bits_truncate flags; issuer_public_key := issuer;
                issuer_signature := signature |})
  end.

Definition decode (data : bytes) : option (result SecurityError MembershipCertificate) :=
  if len data <? CERTIFICATE_BASE_SIZE then
    serialization_error ("certificate too short: " +:+ pretty (len data) +:+
                         " bytes, need at least " +:+ pretty CERTIFICATE_BASE_SIZE)
  else
  member ← slice data 0 32;
  callsign_len ← u8 <$> data !! 32%nat;
  if MAX_CALLSIGN_LEN <? callsign_len then
    serialization_error ("callsign too long: " +:+ pretty callsign_len +:+ " bytes, max " +:+
                         pretty MAX_CALLSIGN_LEN)
  else if len data <? 33 + callsign_len then serialization_error "truncated callsign" else
  callsign_bytes ← slice data 33 callsign_len;
  match from_utf8 callsign_bytes with
  | None => serialization_error ("invalid callsign UTF-8: " +:+ utf8_error callsign_bytes)
  | Some callsign => decode_rest data member callsign (33 + callsign_len)
  end.

End Decode.

(** ** The registry *)

Record CertificateRegistry := {
  by_public_key : gmap bytes MembershipCertificate;
  callsign_to_pubkey : gmap string bytes
}.

Definition registry_new : CertificateRegistry :=
  {| by_public_key := ∅; callsign_to_pubkey := ∅ |}.

Definition register (r : CertificateRegistry) (cert : MembershipCertificate)
    : option MembershipCertificate * CertificateRegistry :=
  let pubkey := member_public_key cert in
  let calls := match by_public_key r !! pubkey with
               | Some old_cert => delete (callsign old_cert) (callsign_to_pubkey r)
               | None => callsign_to_pubkey r
               end in
  (by_public_key r !! pubkey,
   {| callsign_to_pubkey := <[callsign cert := pubkey]> calls;
      by_public_key := <[pubkey := cert]> (by_public_key r) |}).

Definition get_by_pubkey (r : CertificateRegistry) (pubkey : bytes) := by_public_key r !! pubkey.

Definition get_by_callsign (r : CertificateRegistry) (callsign : string)
    : option MembershipCertificate :=
  pk ← callsign_to_pubkey r !! callsign; by_public_key r !! pk.

Definition remove (r : CertificateRegistry) (pubkey : bytes)
    : option MembershipCertificate * CertificateRegistry :=
  match by_public_key r !! pubkey with
  | Some cert =>
    (Some cert, {| by_public_key := delete pubkey (by_public_key r);
                   callsign_to_pubkey := delete (callsign cert) (callsign_to_pubkey r) |})
  | None => (None, r)
  end.

Definition is_callsign_taken (r : CertificateRegistry) (callsign : string) : bool :=
  bool_decide (is_Some (callsign_to_pubkey r !! callsign)).

Definition certificates (r : CertificateRegistry) : list MembershipCertificate :=
  (map_to_list (by_public_key r)).*2.

Definition registry_len (r : CertificateRegistry) : Z := Z.of_nat (size (by_public_key r)).

Definition registry_is_empty (r : CertificateRegistry) : bool := bool_decide (by_public_key r = ∅).

(** [iter().filter(..).map(..).collect()], a panic of the test being a panic *)
Fixpoint expired_keys (now_ms grace_period_ms : Z) (l : list (bytes * MembershipCertificate))
    : option (list bytes) :=
  match l with
  | [] => Some []
  | (pk, cert) :: l =>
    e ← is_expired cert now_ms grace_period_ms;
    ks ← expired_keys now_ms grace_period_ms l;
    Some (if e : bool then pk :: ks else ks)
  end.

Definition remove_all (r : CertificateRegistry) (ks : list bytes) : CertificateRegistry :=
  fold_left (fun r pk => snd (remove r pk)) ks r.

Definition remove_expired (r : CertificateRegistry) (now_ms grace_period_ms : Z)
    : option (Z * CertificateRegistry) :=
  expired ← expired_keys now_ms grace_period_ms (map_to_list (by_public_key r));
  Some (len expired, remove_all r expired).

(** ** Slices of concatenations *)

Lemma slice_at (data a x b : bytes) (offset n : Z) :
  data = a ++ x ++ b -> len a = offset -> len x = n -> slice data offset n = Some x.
Proof.
  intros -> <- <-. unfold slice. rewrite !len_app.
  pose proof (len_nonneg a). pose proof (len_nonneg x). pose proof (len_nonneg b).
  rewrite decide_True by lia. unfold len. by rewrite !Nat2Z.id, drop_app_length, take_app_length.
Qed.

Lemma slice_Some (data : bytes) (offset n : Z) :
  0 <= offset -> 0 <= n -> offset + n <= len data -> exists x, slice data offset n = Some x.
Proof. intros Ho Hn Hl. unfold slice. rewrite decide_True by lia. by eexists. Qed.

Lemma index_Some (data : bytes) (offset : Z) :
  0 <= offset < len data -> exists b, data !! Z.to_nat offset = Some b.
Proof. intros H. unfold len in H. apply lookup_lt_is_Some_2. lia. Qed.

(** A byte string that is long enough starts with a field of [n] bytes. *)
Lemma split_field (n : nat) (l : bytes) :
  (n <= length l)%nat -> exists x y, l = x ++ y /\ length x = n /\ length y = (length l - n)%nat.
Proof.
  intros H. exists (take n l), (drop n l).
  by rewrite take_drop, length_take, length_drop, Nat.min_l by done.
Qed.

Lemma index_at (data a b : bytes) (x : byte) (offset : Z) :
  data = a ++ x :: b -> len a = offset -> data !! Z.to_nat offset = Some x.
Proof.
  intros -> <-. unfold len. rewrite Nat2Z.id. by rewrite lookup_app_r, Nat.sub_diag by lia.
Qed.

(** ** Flags *)

Lemma permission_bits_range b : 0 <= from_bits_truncate b < 256.
Proof. by destruct b. Qed.

Lemma from_bits_truncate_bits b : from_bits_truncate (as_u8 (from_bits_truncate b)) = from_bits_truncate b.
Proof. by destruct b. Qed.

(** ** Decoding *)

Section DecodeLemmas.
Context `{U : Utf8Display}.

(** What decoding accepts, and the certificate it then returns *)
Record decodes (data : bytes) (c : MembershipCertificate) : Prop := {
  decodes_typed : typed c;
  decodes_callsign : str_len (callsign c) <= MAX_CALLSIGN_LEN;
  decodes_mesh_id : str_len (mesh_id c) = MESH_ID_LEN;
  decodes_bytes : exists flags rest,
    permissions c = from_bits_truncate flags /\
    data = (member_public_key c ++ [as_u8 (str_len (callsign c))] ++ as_bytes (callsign c) ++
      as_bytes (mesh_id c) ++ le_bytes 8 (issued_at_ms c) ++ le_bytes 8 (expires_at_ms c) ++
      [flags] ++ issuer_public_key c ++ issuer_signature c) ++ rest
}.

Lemma len_le_bytes n x : len (le_bytes n x) = Z.of_nat n.
Proof. unfold len. by rewrite length_le_bytes. Qed.

(** Side conditions of [slice_at] on a concatenation of fields of known lengths *)
Ltac at_offset := subst; rewrite <- ?app_assoc, ?len_app; unfold len; simpl; lia || done.

Ltac in_bounds := rewrite (proj2 (Z.ltb_ge _ _)) by lia.

Lemma decode_rest_of_parts mk cs (pre mesh issued expires issuer signature rest : bytes) mesh_id flags :
  from_utf8 mesh = Some mesh_id -> length mesh = 8%nat ->
  length issued = 8%nat -> length expires = 8%nat -> length issuer = 32%nat ->
  length signature = 64%nat ->
  decode_rest (pre ++ mesh ++ issued ++ expires ++ [flags] ++ issuer ++ signature ++ rest) mk cs
    (len pre) =
  Some (Ok {| member_public_key := mk; callsign := cs; mesh_id := mesh_id;
              issued_at_ms := from_le_bytes issued; expires_at_ms := from_le_bytes expires;
              permissions := from_bits_truncate flags; issuer_public_key := issuer;
              issuer_signature := signature |}).
Proof.
  intros Hm L1 L2 L3 L4 L5. unfold decode_rest, MESH_ID_LEN.
  remember (pre ++ mesh ++ issued ++ expires ++ [flags] ++ issuer ++ signature ++ rest) as data eqn:Hd.
  assert (len data = len pre + 121 + len rest) as HL by (rewrite Hd, !len_app; unfold len in *; simpl; lia).
  pose proof (len_nonneg rest). in_bounds.
  rewrite (slice_at data pre mesh (issued ++ expires ++ [flags] ++ issuer ++ signature ++ rest) (len pre))
    by at_offset.
  cbn [mbind option_bind]. rewrite Hm. cbv zeta. in_bounds.
  rewrite (slice_at data (pre ++ mesh) issued (expires ++ [flags] ++ issuer ++ signature ++ rest)
    (len pre + 8))
    by at_offset.
  cbn [mbind option_bind]. in_bounds.
  rewrite (slice_at data (pre ++ mesh ++ issued) expires ([flags] ++ issuer ++ signature ++ rest)
    (len pre + 8 + 8))
    by at_offset.
  cbn [mbind option_bind]. in_bounds.
  rewrite (index_at data (pre ++ mesh ++ issued ++ expires) (issuer ++ signature ++ rest) flags)
    by at_offset.
  cbn [mbind option_bind]. in_bounds.
  rewrite (slice_at data (pre ++ mesh ++ issued ++ expires ++ [flags]) issuer (signature ++ rest)
    (len pre + 8 + 8 + 8 + 1))
    by at_offset.
  cbn [mbind option_bind]. in_bounds.
  by rewrite (slice_at data (pre ++ mesh ++ issued ++ expires ++ [flags] ++ issuer) signature rest)
    by at_offset.
Qed.

(** One step of the bounds checks of a decoder *)
Ltac next_field := first
  [ lia
  | match goal with
    | |- context [?a <? ?b] => destruct (Z.ltb_spec a b); [by eexists|]
    | |- context [slice ?d ?o ?n] =>
      let x := fresh in let E := fresh in
      destruct (slice_Some d o n) as [x E]; [lia..|rewrite E; cbn [mbind option_bind]]
    | |- context [from_utf8 ?x] => destruct (from_utf8 x); [|by eexists]
    | |- context [?d !! Z.to_nat ?o] =>
      let x := fresh in let E := fresh in
      destruct (index_Some d o) as [x E]; [lia|rewrite E; cbn [mbind option_bind]]
    end ].

(** The rest decodes without a panic: it is an error, or the fields are there. *)
Lemma decode_rest_total data mk cs (offset : Z) :
  0 <= offset <= len data ->
  (exists e, decode_rest data mk cs offset = Some (Err e)) \/
  (exists pre mesh issued expires flags issuer signature rest mesh_id,
    data = pre ++ mesh ++ issued ++ expires ++ [flags] ++ issuer ++ signature ++ rest /\
    len pre = offset /\ from_utf8 mesh = Some mesh_id /\ length mesh = 8%nat /\
    length issued = 8%nat /\ length expires = 8%nat /\ length issuer = 32%nat /\
    length signature = 64%nat).
Proof.
  intros Ho. destruct (Z.ltb_spec (len data) (offset + 121)).
  - left. unfold decode_rest, serialization_error, MESH_ID_LEN. cbv zeta.
    repeat next_field.
  - unfold len in *.
    destruct (split_field (Z.to_nat offset) data) as (pre & l0 & Hd & H0 & Hl0); [lia|].
    destruct (split_field 8 l0) as (mesh & l1 & -> & H1 & Hl1); [lia|].
    destruct (split_field 8 l1) as (issued & l2 & -> & H2 & Hl2); [lia|].
    destruct (split_field 8 l2) as (expires & l3 & -> & H3 & Hl3); [lia|].
    destruct (split_field 1 l3) as ([|flags [|]] & l4 & -> & H4 & Hl4); [lia|done| |done].
    destruct (split_field 32 l4) as (issuer & l5 & -> & H5 & Hl5); [lia|].
    destruct (split_field 64 l5) as (signature & rest & -> & H6 & Hl6); [lia|].
    destruct (from_utf8 mesh) as [mesh_id|] eqn:E.
    + right. exists pre, mesh, issued, expires, flags, issuer, signature, rest, mesh_id.
      rewrite H0. split_and!; lia || done.
    + left. unfold decode_rest, MESH_ID_LEN, serialization_error.
      rewrite (proj2 (Z.ltb_ge _ _)) by (unfold len; lia).
      rewrite (slice_at data pre mesh (issued ++ expires ++ [flags] ++ issuer ++ signature ++ rest) offset 8)
        by (unfold len; lia || done).
      cbn [mbind option_bind]. rewrite E. by eexists.
Qed.

Lemma str_len_range s : 0 <= str_len s.
Proof. apply len_nonneg. Qed.

Lemma decode_complete data c : decodes data c -> decode data = Some (Ok c).
Proof.
  intros [[Tm Tc Ti T1 T2 _ Ti' Ts] Hc Hm (flags & rest & Hf & Hd)].
  unfold MAX_CALLSIGN_LEN, MESH_ID_LEN in *. pose proof (str_len_range (callsign c)).
  rewrite <- !app_assoc in Hd. unfold str_len in *. unfold decode, CERTIFICATE_BASE_SIZE, MAX_CALLSIGN_LEN.
  assert (len data = 154 + len (as_bytes (callsign c)) + len rest) as HL.
  { rewrite Hd, !len_app, !len_le_bytes. unfold len in *. simpl. lia. }
  pose proof (len_nonneg rest). in_bounds.
  rewrite (slice_at data [] (member_public_key c) _ 0 32 Hd) by (unfold len; simpl; lia).
  cbn [mbind option_bind]. change 32%nat with (Z.to_nat 32).
  rewrite (index_at data (member_public_key c) _ _ 32 Hd) by (unfold len; lia).
  cbn [mbind option_bind fmap option_fmap option_map].
  rewrite u8_as_u8, Z.mod_small by lia. do 2 in_bounds.
  rewrite (slice_at data (member_public_key c ++ [as_u8 (len (as_bytes (callsign c)))])
    (as_bytes (callsign c)) _ 33 _ (eq_trans Hd (app_assoc _ _ _)))
    by (rewrite ?len_app; unfold len; simpl; lia).
  cbn [mbind option_bind]. rewrite from_utf8_as_bytes by done.
  pose proof (decode_rest_of_parts (member_public_key c) (callsign c)
    (member_public_key c ++ [as_u8 (len (as_bytes (callsign c)))] ++ as_bytes (callsign c))
    (as_bytes (mesh_id c)) (le_bytes 8 (issued_at_ms c)) (le_bytes 8 (expires_at_ms c))
    (issuer_public_key c) (issuer_signature c) rest (mesh_id c) flags) as HR.
  rewrite <- !app_assoc in HR. cbn [app] in Hd, HR. rewrite <- Hd in HR.
  replace (33 + len (as_bytes (callsign c))) with
    (len (member_public_key c ++ as_u8 (len (as_bytes (callsign c))) :: as_bytes (callsign c)))
    by (rewrite len_app; unfold len; simpl; lia).
  rewrite HR; [|by apply from_utf8_as_bytes|unfold len in Hm; lia|apply length_le_bytes..|done|done].
  rewrite (u64_le_bytes (issued_at_ms c)), (u64_le_bytes (expires_at_ms c)), <- Hf by assumption. by destruct c.
Qed.

Lemma decode_cases data : (exists e, decode data = Some (Err e)) \/ (exists c, decodes data c).
Proof.
  unfold decode, CERTIFICATE_BASE_SIZE, MAX_CALLSIGN_LEN, serialization_error.
  destruct (Z.ltb_spec (len data) 154) as [|Hlen]; [left; by eexists|].
  destruct (split_field 32 data) as (mk & l0 & Hd & H0 & Hl0); [unfold len in *; lia|].
  destruct (split_field 1 l0) as ([|b [|]] & l1 & -> & H1 & Hl1);
    [unfold len in *; lia|done| |done].
  rewrite (slice_at data [] mk ([b] ++ l1) 0 32) by (unfold len; simpl; lia || done).
  cbn [mbind option_bind]. change 32%nat with (Z.to_nat 32).
  rewrite (index_at data mk l1 b 32) by (unfold len; simpl; lia || done).
  cbn [mbind option_bind fmap option_fmap option_map]. pose proof (u8_range b) as Hb.
  destruct (Z.ltb_spec 16 (u8 b)) as [|Hb']; [left; by eexists|]. in_bounds.
  destruct (split_field (Z.to_nat (u8 b)) l1) as (cs & l2 & -> & H2 & Hl2); [unfold len in *; lia|].
  rewrite (slice_at data (mk ++ [b]) cs l2 33 (u8 b))
    by (rewrite <- ?app_assoc, ?len_app; unfold len; simpl; lia || done).
  cbn [mbind option_bind]. destruct (from_utf8 cs) as [callsign|] eqn:Ecs; [|left; by eexists].
  destruct (decode_rest_total data mk callsign (33 + u8 b)) as
    [?|(pre & mesh & issued & expires & flags & issuer & signature & rest & mesh_id &
        Hd' & Hp & Em & L1 & L2 & L3 & L4 & L5)]; [lia|by left|right].
  apply from_utf8_inv in Ecs as [<- ?]. apply from_utf8_inv in Em as [<- ?].
  assert (pre = mk ++ [b] ++ as_bytes callsign) as ->.
  { rewrite Hd in Hd'. rewrite !app_assoc in Hd'. rewrite <- !app_assoc in Hd'.
    rewrite (app_assoc [b]), (app_assoc mk) in Hd'. apply app_inj_1 in Hd' as [<- _]; [done|].
    rewrite !length_app. unfold len in Hp. simpl. lia. }
  exists {| member_public_key := mk; callsign := callsign; mesh_id := mesh_id;
            issued_at_ms := from_le_bytes issued; expires_at_ms := from_le_bytes expires;
            permissions := from_bits_truncate flags; issuer_public_key := issuer;
            issuer_signature := signature |}.
  assert (str_len callsign = u8 b) as Hcs by (unfold str_len, len; lia).
  split; cbn [Membership.callsign Membership.mesh_id Membership.permissions issued_at_ms
    expires_at_ms issuer_public_key issuer_signature member_public_key].
  - split; [done..|by apply u64_of_bytes|by apply u64_of_bytes|by exists flags|done|done].
  - unfold MAX_CALLSIGN_LEN. lia.
  - unfold str_len, len, MESH_ID_LEN. lia.
  - exists flags, rest. split; [done|]. rewrite Hcs, as_u8_u8.
    rewrite (le_bytes_u64 issued), (le_bytes_u64 expires) by done.
    by rewrite Hd', <- !app_assoc.
Qed.

(** C20: decoding never panics, whatever bytes arrive, and it accepts exactly the byte
    strings that start with the layout of a well-typed certificate whose callsign has at
    most 16 bytes and whose mesh identifier has 8, with any byte of permission flags: flags
    it does not know are dropped from the certificate it returns, so the string it was
    given need not be the encoding of that certificate in this byte. *)
Theorem decode_accepts_exactly data :
  decode data <> None /\ forall c, decode data = Some (Ok c) <-> decodes data c.
Proof.
  destruct (decode_cases data) as [[e E]|[c Hc]].
  - split; [by rewrite E|]. intros c. split; [by rewrite E|]. intros ?%decode_complete. congruence.
  - pose proof (decode_complete _ _ Hc) as E. split; [by rewrite E|]. intros c'.
    split; [|apply decode_complete]. rewrite E. by intros [= <-].
Qed.

Lemma encode_decodes c :
  typed c -> str_len (callsign c) <= MAX_CALLSIGN_LEN -> str_len (mesh_id c) = MESH_ID_LEN ->
  decodes (encode c) c.
Proof.
  intros Hc H1 H2. split; [done..|]. destruct (typed_permissions c Hc) as [b Hb].
  exists (as_u8 (permissions c)), []. rewrite app_nil_r. split; [|done].
  by rewrite Hb, from_bits_truncate_bits.
Qed.

(** C19: a certificate survives the wire exactly when its callsign has at most 16 bytes
    and its mesh identifier exactly 8, which the constructors do not check: any other
    certificate is encoded all the same, and comes back as an error or as a different
    certificate. *)
Theorem certificate_roundtrip c :
  typed c ->
  decode (encode c) = Some (Ok c) <->
  str_len (callsign c) <= MAX_CALLSIGN_LEN /\ str_len (mesh_id c) = MESH_ID_LEN.
Proof.
  intros Hc. split.
  - intros E. destruct (decode_cases (encode c)) as [[e E']|[c' Hc']]; [congruence|].
    pose proof (decode_complete _ _ Hc') as E'. assert (c' = c) as -> by congruence.
    split; [apply Hc'|apply Hc'].
  - intros [H1 H2]. by apply decode_complete, encode_decodes.
Qed.

End DecodeLemmas.

(** ** What a signature covers *)

Lemma as_u8_inj x y : 0 <= x < 256 -> 0 <= y < 256 -> as_u8 x = as_u8 y -> x = y.
Proof.
  intros Hx Hy E%(f_equal u8). by rewrite !u8_as_u8, !Z.mod_small in E by done.
Qed.

(** The signed bytes determine every field of a certificate but the signature, as
    long as the callsigns have at most 255 bytes, also when the mesh identifiers have
    different lengths: a signature cannot be carried over to other contents. *)
Theorem signature_covers_every_field c c' s :
  typed c -> typed c' -> str_len (callsign c) < 256 -> str_len (callsign c') < 256 ->
  signable_bytes c = signable_bytes c' -> set_signature c s = set_signature c' s.
Proof.
  intros [Tm _ _ T1 T2 [p Tp] Ti _] [Tm' _ _ T1' T2' [p' Tp'] Ti' _] Hc Hc' E.
  pose proof (str_len_range (callsign c)). pose proof (str_len_range (callsign c')).
  unfold signable_bytes in E.
  apply app_inj_1 in E as [E1 E]; [|by rewrite Tm, Tm'].
  apply app_inj_1 in E as [[= Elen%as_u8_inj] E]; [|done..].
  apply app_inj_1 in E as [Ecs%as_bytes_inj E]; [|unfold str_len, len in *; lia].
  apply app_inj_2 in E as [Emesh%as_bytes_inj E];
    [|rewrite !length_app, !length_le_bytes; simpl; lia].
  apply app_inj_1 in E as [Ei E]; [|by rewrite !length_le_bytes].
  apply app_inj_1 in E as [Ee E]; [|by rewrite !length_le_bytes].
  apply app_inj_1 in E as [[= Ep] E]; [|done].
  apply (f_equal from_le_bytes) in Ei, Ee. rewrite !u64_le_bytes in Ei, Ee by assumption.
  rewrite Tp, Tp' in Ep. apply as_u8_inj in Ep; [|apply permission_bits_range..].
  unfold set_signature. congruence.
Qed.

Lemma signable_set_signature c s : signable_bytes (set_signature c s) = signable_bytes c.
Proof. done. Qed.

Section Issue.
Context {D : DeviceCrypto} {L : DeviceCryptoLaws D} `{U : Utf8Display}.

(** What an authority issues is accepted: a certificate with a callsign and a mesh
    identifier of the lengths the wire format has, signed with the key it names as its
    issuer, comes back from the wire unchanged and verifies. *)
Theorem issued_certificate_accepted c k :
  typed c -> issuer_public_key c = public_key_bytes k ->
  str_len (callsign c) <= MAX_CALLSIGN_LEN -> str_len (mesh_id c) = MESH_ID_LEN ->
  exists c', decode (encode (signed c k)) = Some (Ok c') /\ verify c' = Ok tt /\
             set_signature c' (issuer_signature c) = c.
Proof.
  intros [Tm Tc Ti T1 T2 Tp Tk Ts] Hk Hcs Hm. exists (signed c k). split_and!.
  - apply decode_complete, encode_decodes; [|done..].
    split; cbn; try done. apply signature_length.
  - unfold verify, signed, sign_with. rewrite signable_set_signature.
    cbn [issuer_public_key issuer_signature set_signature]. rewrite Hk.
    destruct (public_key_reads k) as (v & _ & -> & _ & _ & Hv).
    by destruct (Hv (signable_bytes c)) as [_ ->].
  - by destruct c.
Qed.

End Issue.

(** ** The registry *)

Inductive registry_step : CertificateRegistry -> CertificateRegistry -> Prop :=
| step_register r c : registry_step r (snd (register r c))
| step_remove r pk : registry_step r (snd (remove r pk))
| step_remove_expired r now grace n r' :
    remove_expired r now grace = Some (n, r') -> registry_step r r'.

(** The callsign is free, or its holder is renewed. *)
Definition callsign_free (r : CertificateRegistry) (c : MembershipCertificate) : Prop :=
  callsign_to_pubkey r !! callsign c = None \/
  callsign_to_pubkey r !! callsign c = Some (member_public_key c).

(** The same steps by callers that ask [is_callsign_taken] first *)
Inductive guarded_step : CertificateRegistry -> CertificateRegistry -> Prop :=
| guarded_register r c : callsign_free r c -> guarded_step r (snd (register r c))
| guarded_remove r pk : guarded_step r (snd (remove r pk))
| guarded_remove_expired r now grace n r' :
    remove_expired r now grace = Some (n, r') -> guarded_step r r'.

(** Every callsign leads to a certificate that carries it. *)
Record registry_sound (r : CertificateRegistry) : Prop := {
  sound_keys : forall pk c, by_public_key r !! pk = Some c -> member_public_key c = pk;
  sound_callsigns : forall cs pk, callsign_to_pubkey r !! cs = Some pk ->
    exists c, by_public_key r !! pk = Some c /\ callsign c = cs
}.

(** Every certificate is found by its callsign. *)
Definition registry_complete (r : CertificateRegistry) : Prop :=
  forall pk c, by_public_key r !! pk = Some c -> callsign_to_pubkey r !! callsign c = Some pk.

Lemma register_sound r c : registry_sound r -> registry_sound (snd (register r c)).
Proof.
  intros [HK HC]. unfold register. split; cbn.
  - intros pk c'. rewrite lookup_insert_Some. intros [[<- <-]|[_ H]]; [done|by apply HK].
  - intros cs pk. rewrite lookup_insert_Some. intros [[<- <-]|[Hcs H]].
    + exists c. by rewrite lookup_insert_eq.
    + assert (callsign_to_pubkey r !! cs = Some pk /\ pk <> member_public_key c) as [H' Hne].
      { destruct (by_public_key r !! member_public_key c) as [old|] eqn:E.
        - apply lookup_delete_Some in H as [Hold H]. split; [done|]. intros ->.
          destruct (HC _ _ H) as (c' & E' & <-). congruence.
        - split; [done|]. intros ->. destruct (HC _ _ H) as (? & ? & _). congruence. }
      destruct (HC _ _ H') as (c' & E & <-). exists c'. by rewrite lookup_insert_ne.
Qed.

Lemma remove_sound r pk : registry_sound r -> registry_sound (snd (remove r pk)).
Proof.
  intros [HK HC]. unfold remove. destruct (by_public_key r !! pk) as [c|] eqn:E; [|by split].
  split; cbn.
  - intros pk' c' [_ H]%lookup_delete_Some. by apply HK.
  - intros cs pk' [Hcs H]%lookup_delete_Some. destruct (HC _ _ H) as (c' & E' & <-).
    exists c'. rewrite lookup_delete_ne; [done|]. intros ->. congruence.
Qed.

Lemma remove_complete r pk :
  registry_complete r -> registry_sound r -> registry_complete (snd (remove r pk)).
Proof.
  intros H HS. unfold remove. destruct (by_public_key r !! pk) as [c|] eqn:E; [|done].
  intros pk' c'. cbn. intros [Hne E']%lookup_delete_Some. pose proof (H _ _ E') as H'.
  rewrite lookup_delete_ne; [done|]. intros Heq. rewrite <- Heq in H'.
  pose proof (H _ _ E). congruence.
Qed.

Lemma register_complete r c :
  registry_complete r -> registry_sound r -> callsign_free r c ->
  registry_complete (snd (register r c)).
Proof.
  intros H HS HF pk c' E. cbn in E |- *. apply lookup_insert_Some in E as [[<- <-]|[Hne E]].
  - by rewrite lookup_insert_eq.
  - pose proof (H _ _ E) as H'. rewrite lookup_insert_ne.
    + destruct (by_public_key r !! member_public_key c) as [old|] eqn:Eo; [|done].
      rewrite lookup_delete_ne; [done|]. intros Heq. pose proof (H _ _ Eo) as Ho.
      rewrite Heq in Ho. congruence.
    + intros Heq. unfold callsign_free in HF. rewrite Heq in HF. destruct HF; congruence.
Qed.

Lemma remove_all_invariant (P : CertificateRegistry -> Prop) r ks :
  (forall r pk, P r -> P (snd (remove r pk))) -> P r -> P (remove_all r ks).
Proof. intros HP. revert r; induction ks as [|k ks IH]; intros r Hr; [done|]. by apply IH, HP. Qed.

Lemma remove_expired_invariant (P : CertificateRegistry -> Prop) r now grace n r' :
  (forall r pk, P r -> P (snd (remove r pk))) -> P r ->
  remove_expired r now grace = Some (n, r') -> P r'.
Proof.
  intros HP Hr. unfold remove_expired.
  destruct (expired_keys _ _ _) as [ks|]; [|done]. intros [= _ <-]. by apply remove_all_invariant.
Qed.

Lemma registry_new_sound : registry_sound registry_new.
Proof. split; set_solver. Qed.

(** Whatever is registered and removed, a lookup by callsign returns a certificate
    with that callsign, and the one registered under its own public key. *)
Theorem callsign_lookup_sound r cs c :
  rtc registry_step registry_new r -> get_by_callsign r cs = Some c ->
  callsign c = cs /\ get_by_pubkey r (member_public_key c) = Some c.
Proof.
  intros Hr. assert (registry_sound r) as [HK HC].
  { revert Hr. apply (rtc_ind_r (registry_sound)); [apply registry_new_sound|].
    intros r1 r2 _ Hstep IH. destruct Hstep; [by apply register_sound|by apply remove_sound|].
    by eapply (remove_expired_invariant registry_sound); [apply remove_sound|..]. }
  unfold get_by_callsign, get_by_pubkey. intros (pk & Hpk & Hc)%bind_Some.
  destruct (HC _ _ Hpk) as (c' & E & <-). assert (c' = c) as -> by congruence.
  split; [done|]. by rewrite (HK _ _ E).
Qed.

(** When no certificate is registered under a callsign another key holds, the two
    maps of the registry are inverses: every registered certificate is found by its
    callsign, and no callsign is shown as free while a certificate carries it. *)
Theorem guarded_registry_finds_all r pk c :
  rtc guarded_step registry_new r -> get_by_pubkey r pk = Some c ->
  get_by_callsign r (callsign c) = Some c /\ is_callsign_taken r (callsign c) = true.
Proof.
  intros Hr. assert (registry_sound r /\ registry_complete r) as [HS HC].
  { revert Hr. apply (rtc_ind_r (fun r => registry_sound r /\ registry_complete r)).
    - split; [apply registry_new_sound|]. intros ? ? H. done.
    - intros r1 r2 _ Hstep [IS IC]. destruct Hstep;
        [by auto using register_sound, register_complete|by auto using remove_sound, remove_complete|].
      eapply (remove_expired_invariant (fun r => registry_sound r /\ registry_complete r)); [|by split|done].
      intros ? ? []; auto using remove_sound, remove_complete. }
  unfold get_by_pubkey, get_by_callsign, is_callsign_taken. intros E. pose proof (HC _ _ E) as ->.
  split; [done|]. by apply bool_decide_eq_true_2.
Qed.

Lemma remove_all_lookup r ks k :
  by_public_key (remove_all r ks) !! k = if decide (k ∈ ks) then None else by_public_key r !! k.
Proof.
  revert r; induction ks as [|k' ks IH]; intros r; [done|].
  cbn [remove_all fold_left]. fold (remove_all (snd (remove r k')) ks). rewrite IH.
  assert (by_public_key (snd (remove r k')) = delete k' (by_public_key r)) as ->.
  { unfold remove. destruct (by_public_key r !! k') eqn:E; [done|]. symmetry. by apply delete_id. }
  destruct (decide (k ∈ ks)).
  - by rewrite decide_True by (by right).
  - destruct (decide (k = k')) as [->|Hne].
    + rewrite lookup_delete_eq. by rewrite decide_True by (by left).
    + rewrite lookup_delete_ne by done. by rewrite decide_False by (by intros []%elem_of_cons).
Qed.

Lemma remove_all_len r ks :
  NoDup ks -> (forall k, k ∈ ks -> is_Some (by_public_key r !! k)) ->
  registry_len r = len ks + registry_len (remove_all r ks).
Proof.
  revert r; induction ks as [|k ks IH]; intros r Hnd Hks; [done|].
  apply NoDup_cons in Hnd as [Hk Hnd]. destruct (Hks k) as [c Hc]; [by left|].
  cbn [remove_all fold_left]. fold (remove_all (snd (remove r k)) ks).
  assert (by_public_key (snd (remove r k)) = delete k (by_public_key r)) as E.
  { unfold remove. by rewrite Hc. }
  pose proof (IH (snd (remove r k)) Hnd) as IH'. rewrite len_cons.
  unfold registry_len in *. rewrite E in IH'.
  rewrite map_size_delete_Some in IH' by by eexists.
  pose proof (map_size_ne_0_lookup_2 (by_public_key r) k) as H0.
  specialize (H0 (ex_intro _ c Hc)). rewrite <- Z.add_assoc, <- IH'; [lia|].
  intros k' Hk'. rewrite lookup_delete_ne; [apply Hks; by right|]. by intros ->.
Qed.

(** The deadline of the certificate fits in 64 bits. *)
Definition deadline_fits (grace_period_ms : Z) (c : MembershipCertificate) : Prop :=
  expires_at_ms c = 0 \/ is_u64 (expires_at_ms c + grace_period_ms).

Lemma is_expired_fits c now grace :
  deadline_fits grace c ->
  is_expired c now grace =
  Some (negb (expires_at_ms c =? 0) && (expires_at_ms c + grace <=? now)).
Proof.
  unfold deadline_fits, is_expired. destruct (Z.eqb_spec (expires_at_ms c) 0); [done|].
  intros [?|H]; [done|]. by rewrite (checked_Some _ H).
Qed.

Lemma expired_certificates_spec now grace l :
  (forall p, p ∈ l -> deadline_fits grace p.2) ->
  expired_keys now grace l = Some (filter (fun p => is_expired p.2 now grace = Some true) l).*1.
Proof.
  induction l as [|[pk c] l IH]; intros Hl; [done|]. cbn [expired_keys].
  rewrite IH by set_solver. rewrite filter_cons.
  assert (deadline_fits grace c) as Hc by (apply (Hl (pk, c)); by left).
  cbn [snd]. rewrite (is_expired_fits c now grace Hc). cbn [mbind option_bind].
  destruct (negb _ && _); [by rewrite decide_True|by rewrite decide_False].
Qed.

(** Removing the expired certificates keeps exactly those whose grace period has not
    ended, or that never expire, counts the others, and does not panic unless a
    deadline leaves 64 bits. *)
Theorem remove_expired_spec r now grace :
  (forall pk c, by_public_key r !! pk = Some c -> deadline_fits grace c) ->
  exists n r', remove_expired r now grace = Some (n, r') /\
    registry_len r = n + registry_len r' /\
    by_public_key r' =
      filter (fun p => expires_at_ms p.2 = 0 \/ now < expires_at_ms p.2 + grace) (by_public_key r).
Proof.
  intros Hfit. unfold remove_expired.
  rewrite expired_certificates_spec by (intros [pk c]; rewrite elem_of_map_to_list; apply Hfit).
  cbn [mbind option_bind]. set (ks := (filter _ _).*1).
  assert (forall k, k ∈ ks <-> exists c, by_public_key r !! k = Some c /\
    is_expired c now grace = Some true) as Hks.
  { intros k. subst ks. rewrite list_elem_of_fmap. setoid_rewrite list_elem_of_filter.
    split; [intros ([? c] & -> & ? & ?%elem_of_map_to_list); by exists c|].
    intros (c & ? & ?). exists (k, c). by rewrite elem_of_map_to_list. }
  do 2 eexists. split_and!; [done| |].
  - apply remove_all_len.
    + subst ks. eapply sublist_NoDup; [apply (NoDup_fst_map_to_list (by_public_key r))|].
      apply fmap_sublist, sublist_filter.
    + intros k (c & ? & _)%Hks. by exists c.
  - apply map_eq. intros k. rewrite remove_all_lookup, map_lookup_filter.
    destruct (by_public_key r !! k) as [c|] eqn:E; cbn; [|by case_decide].
    pose proof (is_expired_fits c now grace (Hfit _ _ E)) as He.
    destruct (decide (k ∈ ks)) as [(c' & E' & H')%Hks|Hk].
    + assert (c' = c) as -> by congruence. rewrite He in H'.
      rewrite option_guard_False; [done|]. intros H. injection H' as [H1%negb_true_iff%Z.eqb_neq H2%Z.leb_le]%andb_true_iff. lia.
    + rewrite option_guard_True; [done|]. destruct (Z.eq_dec (expires_at_ms c) 0); [by left|right].
      destruct (Z.lt_ge_cases now (expires_at_ms c + grace)); [done|]. destruct Hk. apply Hks.
      exists c. split; [done|]. rewrite He, (proj2 (Z.leb_le _ _)), andb_true_r by done.
      by rewrite (proj2 (Z.eqb_neq _ _)).
Qed.

(** ** Instances *)

Module Sample.

#[export] Instance sample_utf8 : Utf8Display := fun _ => "invalid utf-8 sequence".

Definition alpha : MembershipCertificate :=
  certificate_new (le_bytes 32 7) "ALPHA-01" "A1B2C3D4" 1000 90000 STANDARD (le_bytes 32 5).

Definition bravo : MembershipCertificate :=
  certificate_new (le_bytes 32 9) "ALPHA-01" "A1B2C3D4" 2000 0 STANDARD (le_bytes 32 5).

Definition alpha_renamed : MembershipCertificate :=
  certificate_new (le_bytes 32 7) "ZULU-99" "A1B2C3D4" 3000 99000 STANDARD (le_bytes 32 5).

Lemma alpha_typed : typed alpha.
Proof. split; try (vm_compute; done). by exists x03. Qed.

Lemma certificate_roundtrip_witness : decode (encode alpha) = Some (Ok alpha).
Proof. apply (certificate_roundtrip alpha alpha_typed). vm_compute. split; [discriminate|reflexivity]. Defined.

Lemma other_signature_typed : typed (set_signature alpha (repeat x01 64)).
Proof. split; try (vm_compute; done). by exists x03. Qed.

Lemma signature_covers_every_field_witness :
  set_signature alpha [] = set_signature (set_signature alpha (repeat x01 64)) [].
Proof.
  apply (signature_covers_every_field alpha (set_signature alpha (repeat x01 64)) []);
    [apply alpha_typed|apply other_signature_typed|..]; vm_compute; reflexivity.
Defined.

Lemma issued_certificate_accepted_witness :
  exists c', decode (encode (signed (D := ToyCrypto.toy_crypto) alpha 5)) = Some (Ok c') /\
    verify (D := ToyCrypto.toy_crypto) c' = Ok tt /\
    set_signature c' (issuer_signature alpha) = alpha.
Proof.
  apply (issued_certificate_accepted (L := ToyCrypto.toy_crypto_laws) alpha 5);
    [apply alpha_typed|reflexivity|vm_compute; discriminate|vm_compute; reflexivity].
Defined.

Lemma callsign_lookup_sound_witness :
  callsign bravo = "ALPHA-01" /\
  get_by_pubkey (snd (register (snd (register registry_new alpha)) bravo)) (le_bytes 32 9) = Some bravo.
Proof.
  apply (callsign_lookup_sound (snd (register (snd (register registry_new alpha)) bravo))).
  - eapply rtc_l; [apply step_register|]. apply rtc_once. apply step_register.
  - vm_compute. reflexivity.
Defined.

Lemma guarded_registry_finds_all_witness :
  get_by_callsign (snd (register registry_new alpha)) "ALPHA-01" = Some alpha /\
  is_callsign_taken (snd (register registry_new alpha)) "ALPHA-01" = true.
Proof.
  apply (guarded_registry_finds_all (snd (register registry_new alpha)) (le_bytes 32 7) alpha).
  - apply rtc_once. apply guarded_register. left. vm_compute. reflexivity.
  - vm_compute. reflexivity.
Defined.

Lemma remove_expired_spec_witness :
  exists n r', remove_expired (snd (register registry_new alpha)) 100000 3600000 = Some (n, r') /\
    registry_len (snd (register registry_new alpha)) = n + registry_len r' /\
    by_public_key r' =
      filter (fun p => expires_at_ms p.2 = 0 \/ 100000 < expires_at_ms p.2 + 3600000)
        (by_public_key (snd (register registry_new alpha))).
Proof.
  apply remove_expired_spec. intros pk c. cbn.
  intros [[_ <-]|[_ H]]%lookup_insert_Some; [|done]. right. vm_compute. split; [discriminate|reflexivity].
Defined.

End Sample.

(** [register] does not ask whether the callsign is taken. When a second key
    registers under the callsign of the first and the first is then renewed under
    another, the callsign of the second is shown as free although its certificate is
    registered and carries it: the registry has lost it. *)
Theorem renamed_holder_frees_foreign_callsign :
  let r := snd (register (snd (register (snd (register registry_new Sample.alpha)) Sample.bravo))
                  Sample.alpha_renamed) in
  get_by_pubkey r (member_public_key Sample.bravo) = Some Sample.bravo /\
  get_by_callsign r (callsign Sample.bravo) = None /\
  is_callsign_taken r (callsign Sample.bravo) = false.
Proof. vm_compute. split_and!; reflexivity. Qed.
