(* ===== verification/AuthState.v ===== *)
(** * Authentication state

    Models peat-protocol/src/security/auth_state.rs: the states a membership
    certificate passes through as time goes on, and the monitor that reports the
    transitions. The time is an argument of the operations, as in the code. *)

From S2P Require Import Prelude Bytes Membership.

Open Scope Z_scope.

Inductive CertificateState :=
| Valid (expires_in_ms : Z)
| Warning (expires_in_ms : Z)
| GracePeriod (grace_remaining_ms : Z)
| StateExpired.

#[export] Instance CertificateState_eq_dec : EqDecision CertificateState.
Proof. solve_decision. Defined.

Definition state_is_operational (s : CertificateState) : bool :=
  match s with Valid _ | Warning _ | GracePeriod _ => true | StateExpired => false end.

Definition should_reauth (s : CertificateState) : bool :=
  match s with Warning _ | GracePeriod _ => true | _ => false end.

Definition state_is_expired (s : CertificateState) : bool :=
  match s with StateExpired => true | _ => false end.

Record AuthConfig := {
  auth_interval_hours : Z;
  grace_period_hours : Z;
  warning_threshold_hours : Z
}.

Definition default_config : AuthConfig :=
  {| auth_interval_hours := 24; grace_period_hours := 4; warning_threshold_hours := 1 |}.

Definition config_new (interval grace warning : Z) : AuthConfig :=
  {| auth_interval_hours := interval; grace_period_hours := grace; warning_threshold_hours := warning |}.

(** The products of a [u16] number of hours stay far below 64 bits. *)
Definition auth_interval_ms (c : AuthConfig) : Z := auth_interval_hours c * 3600000.
Definition grace_period_ms (c : AuthConfig) : Z := grace_period_hours c * 3600000.
Definition warning_threshold_ms (c : AuthConfig) : Z := warning_threshold_hours c * 3600000.

(** The hours are [u16]. *)
Definition config_typed (c : AuthConfig) : Prop :=
  0 <= auth_interval_hours c < 65536 /\ 0 <= grace_period_hours c < 65536 /\
  0 <= warning_threshold_hours c < 65536.

Record AuthStateTracker := { config : AuthConfig }.

Definition tracker_new (c : AuthConfig) : AuthStateTracker := {| config := c |}.
Definition default_tracker : AuthStateTracker := tracker_new default_config.

(** The differences are taken under the comparison that makes them non-negative. *)
Definition check_state (t : AuthStateTracker) (cert : MembershipCertificate) (now_ms : Z)
    : CertificateState :=
  let expires_at := expires_at_ms cert in
  if now_ms <? expires_at then
    let expires_in_ms := expires_at - now_ms in
    if expires_in_ms <=? warning_threshold_ms (config t) then Warning expires_in_ms
    else Valid expires_in_ms
  else
    let expired_for_ms := now_ms - expires_at in
    if expired_for_ms <? grace_period_ms (config t)
    then GracePeriod (grace_period_ms (config t) - expired_for_ms)
    else StateExpired.

Definition needs_reauth (t : AuthStateTracker) cert now_ms : bool :=
  should_reauth (check_state t cert now_ms).

Definition is_operational (t : AuthStateTracker) cert now_ms : bool :=
  state_is_operational (check_state t cert now_ms).

Definition tracker_is_expired (t : AuthStateTracker) cert now_ms : bool :=
  state_is_expired (check_state t cert now_ms).

Definition reauth_deadline (t : AuthStateTracker) (cert : MembershipCertificate) : Z :=
  saturating_sub (expires_at_ms cert) (warning_threshold_ms (config t)).

(** [a.saturating_add(b)] on [u64] *)
Definition saturating_add (a b : Z) : Z := Z.min (u64_modulus - 1) (a + b).

Definition hard_cutoff (t : AuthStateTracker) (cert : MembershipCertificate) : Z :=
  saturating_add (expires_at_ms cert) (grace_period_ms (config t)).

Inductive AuthStateEvent :=
| EnteringWarning (expires_in_ms : Z)
| EnteringGracePeriod (grace_remaining_ms : Z)
| ExpiredEvent
| Renewed (new_expires_at_ms : Z).

Record AuthStateMonitor := {
  tracker : AuthStateTracker;
  last_state : option CertificateState
}.

Definition monitor_new (t : AuthStateTracker) : AuthStateMonitor :=
  {| tracker := t; last_state := None |}.

(** The event of a transition *)
Definition transition_event (last : option CertificateState) (new_state : CertificateState)
    : option AuthStateEvent :=
  match last, new_state with
  | Some (Valid _), Warning expires_in_ms | None, Warning expires_in_ms =>
    Some (EnteringWarning expires_in_ms)
  | Some (Warning _), GracePeriod grace_remaining_ms =>
    Some (EnteringGracePeriod grace_remaining_ms)
  | Some state, StateExpired =>
    if bool_decide (state <> StateExpired) then Some ExpiredEvent else None
  | _, _ => None
  end.

Definition update (m : AuthStateMonitor) (cert : MembershipCertificate) (now_ms : Z)
    : option AuthStateEvent * AuthStateMonitor :=
  let new_state := check_state (tracker m) cert now_ms in
  (transition_event (last_state m) new_state,
   {| tracker := tracker m; last_state := Some new_state |}).

Definition notify_renewed (m : AuthStateMonitor) (new_cert : MembershipCertificate)
    : AuthStateEvent * AuthStateMonitor :=
  (Renewed (expires_at_ms new_cert),
   {| tracker := tracker m; last_state := Some (Valid (expires_at_ms new_cert)) |}).

Definition current_state (m : AuthStateMonitor) : option CertificateState := last_state m.

(** ** The timeline of a certificate *)

Definition stage (s : CertificateState) : Z :=
  match s with Valid _ => 0 | Warning _ => 1 | GracePeriod _ => 2 | StateExpired => 3 end.

Section Timeline.
Context (t : AuthStateTracker) (cert : MembershipCertificate).
Hypothesis (Hconfig : config_typed (config t)).

Lemma thresholds_nonneg : 0 <= warning_threshold_ms (config t) /\ 0 <= grace_period_ms (config t).
Proof using Hconfig.
  destruct Hconfig as (? & ? & ?). unfold warning_threshold_ms, grace_period_ms. lia.
Qed.

Ltac timeline := pose proof thresholds_nonneg; unfold check_state in *; bool_arith; simpl in *; try lia.

Lemma check_state_progress now now' :
  now <= now' -> stage (check_state t cert now) <= stage (check_state t cert now').
Proof using Hconfig. intros. timeline. Qed.

Lemma expired_forever now now' :
  now <= now' -> check_state t cert now = StateExpired -> check_state t cert now' = StateExpired.
Proof using Hconfig.
  intros H E. pose proof (check_state_progress now now' H) as Hs. rewrite E in Hs.
  by destruct (check_state t cert now').
Qed.

Lemma stage_expired now :
  state_is_expired (check_state t cert now) = (expires_at_ms cert + grace_period_ms (config t) <=? now).
Proof using Hconfig. timeline; done. Qed.

End Timeline.

(** The state of a certificate only moves forward as time passes (valid, warning,
    grace period, expired); it is valid exactly before the re-authentication deadline
    and operational exactly before the hard cutoff, while that deadline fits in 64 bits. *)
Theorem certificate_timeline t cert now now' :
  config_typed (config t) -> is_u64 (expires_at_ms cert) -> 0 <= now <= now' ->
  is_u64 (expires_at_ms cert + grace_period_ms (config t)) ->
  stage (check_state t cert now) <= stage (check_state t cert now') /\
  (stage (check_state t cert now) = 0 <-> now < reauth_deadline t cert) /\
  (is_operational t cert now = true <-> now < hard_cutoff t cert).
Proof.
  intros Hc He [H0 Hn] Hfit. pose proof (thresholds_nonneg t Hc). split_and!.
  - by apply check_state_progress.
  - unfold reauth_deadline, saturating_sub, check_state. bool_arith; simpl; lia.
  - unfold is_operational, hard_cutoff, saturating_add, check_state, is_u64 in *.
    bool_arith; simpl; split; done || lia.
Qed.

(** For a certificate with an expiry date the tracker and the certificate agree on
    being expired and on the grace period, and the certificate's own checks do not
    overflow while its deadline fits in 64 bits. *)
Theorem tracker_agrees_with_certificate t cert now :
  config_typed (config t) -> 0 < expires_at_ms cert ->
  is_u64 (expires_at_ms cert + grace_period_ms (config t)) ->
  is_expired cert now (grace_period_ms (config t)) = Some (tracker_is_expired t cert now) /\
  is_in_grace_period cert now (grace_period_ms (config t)) =
    Some (bool_decide (stage (check_state t cert now) = 2)).
Proof.
  intros Hc He Hfit. pose proof (thresholds_nonneg t Hc) as [_ Hg]. split.
  - rewrite is_expired_fits by by right. unfold tracker_is_expired.
    rewrite stage_expired, (proj2 (Z.eqb_neq _ _)) by (done || lia). done.
  - unfold is_in_grace_period. rewrite (proj2 (Z.eqb_neq _ _)), (checked_Some _ Hfit) by lia.
    cbn [mbind option_bind]. unfold check_state.
    bool_arith; first [reflexivity | lia].
Qed.

(** Without an expiry date they do not: for the certificate itself an expiry of 0
    means that it never expires, for the tracker that it expired in 1970. *)
Theorem undated_certificate_expired_for_tracker t cert now :
  config_typed (config t) -> expires_at_ms cert = 0 -> grace_period_ms (config t) <= now ->
  is_valid cert now = true /\ is_expired cert now (grace_period_ms (config t)) = Some false /\
  check_state t cert now = StateExpired /\ is_operational t cert now = false.
Proof.
  intros Hc He Hn. pose proof (thresholds_nonneg t Hc). unfold is_valid, is_expired, is_operational.
  rewrite He. split; [done|]. split; [done|].
  assert (check_state t cert now = StateExpired) as ->; [|done].
  unfold check_state. rewrite He. bool_arith; done || lia.
Qed.

(** ** The monitor *)

(** Polling at the given times *)
Fixpoint poll (m : AuthStateMonitor) (cert : MembershipCertificate) (times : list Z)
    : list AuthStateEvent * AuthStateMonitor :=
  match times with
  | [] => ([], m)
  | now :: times =>
    let '(e, m) := update m cert now in
    let '(es, m) := poll m cert times in (option_list e ++ es, m)
  end.

Lemma poll_cons m cert now times :
  fst (poll m cert (now :: times)) =
  option_list (fst (update m cert now)) ++ fst (poll (snd (update m cert now)) cert times).
Proof. cbn [poll update fst snd]. by destruct (poll _ cert times). Qed.

Lemma poll_after_expiry m cert times :
  last_state m = Some StateExpired ->
  (forall now, now ∈ times -> check_state (tracker m) cert now = StateExpired) ->
  fst (poll m cert times) = [].
Proof.
  revert m; induction times as [|now times IH]; intros m Hm Ht; [done|].
  rewrite poll_cons. assert (check_state (tracker m) cert now = StateExpired) as E.
  { apply Ht. by left. }
  cbn [update fst snd]. rewrite E, Hm. cbn. apply IH; [done|]. intros. apply Ht. by right.
Qed.

#[export] Instance AuthStateEvent_eq_dec : EqDecision AuthStateEvent.
Proof. solve_decision. Defined.

Lemma transition_not_expired last s :
  s <> StateExpired -> ExpiredEvent ∉ option_list (transition_event last s).
Proof.
  intros Hs. rewrite list_elem_of_In.
  destruct last as [[]|], s; simpl; intros H; destruct H; done || congruence.
Qed.

(** A monitor that has seen the certificate in operation and is polled at
    non-decreasing times reports its expiry once and as the last event if one of the
    polls finds it expired, and never otherwise. *)
Theorem expiry_reported_once m cert s times :
  config_typed (config (tracker m)) -> last_state m = Some s -> s <> StateExpired ->
  Sorted Z.le times ->
  (exists now, now ∈ times /\ check_state (tracker m) cert now = StateExpired) ->
  exists before, fst (poll m cert times) = before ++ [ExpiredEvent] /\ ExpiredEvent ∉ before.
Proof.
  intros Hc. revert m Hc s; induction times as [|now times IH];
    intros m Hc s Hl Hs Hsorted (n & Hn & En); [by apply not_elem_of_nil in Hn|].
  apply (Sorted_StronglySorted _) in Hsorted. apply StronglySorted_inv in Hsorted as [Hsorted Hall].
  rewrite poll_cons. cbn [update fst snd]. rewrite Hl.
  destruct (decide (check_state (tracker m) cert now = StateExpired)) as [E|E].
  - rewrite E. exists []. split; [|by apply not_elem_of_nil].
    rewrite poll_after_expiry; [|done|].
    + destruct s; [done..|congruence].
    + cbn. intros n' Hn'. rewrite Forall_forall in Hall.
      apply (expired_forever _ _ Hc now); [by apply Hall|done].
  - apply elem_of_cons in Hn as [->|Hn]; [done|].
    destruct (IH {| tracker := tracker m; last_state := Some (check_state (tracker m) cert now) |}
      Hc _ eq_refl E) as (before & -> & Hb); [by apply StronglySorted_Sorted|by exists n|].
    exists (option_list (transition_event (Some s) (check_state (tracker m) cert now)) ++ before).
    rewrite app_assoc. split; [done|]. intros [H|H]%elem_of_app; [|done].
    by apply transition_not_expired in H.
Qed.

(** The monitor misses transitions. Polled in time it announces the grace period
    only from the warning state: a certificate last seen valid and next seen in its
    grace period, and one first seen in its grace period or expired, give no event. *)
Theorem monitor_misses_transitions t cert now :
  stage (check_state t cert now) = 2 \/ stage (check_state t cert now) = 3 ->
  fst (update (monitor_new t) cert now) = None /\
  forall ms, stage (check_state t cert now) = 2 ->
    fst (update {| tracker := t; last_state := Some (Valid ms) |} cert now) = None.
Proof.
  intros H. cbn [update fst monitor_new tracker last_state].
  destruct (check_state t cert now); simpl in *; split; intros; done || lia.
Qed.

(** ** Instances *)

Lemma certificate_timeline_witness :
  stage (check_state default_tracker Sample.alpha 0) <= stage (check_state default_tracker Sample.alpha 95000) /\
  (stage (check_state default_tracker Sample.alpha 0) = 0 <->
     0 < reauth_deadline default_tracker Sample.alpha) /\
  (is_operational default_tracker Sample.alpha 0 = true <->
     0 < hard_cutoff default_tracker Sample.alpha).
Proof.
  apply certificate_timeline; [split_and!; vm_compute; done|vm_compute; done|lia|vm_compute; done].
Defined.

Lemma tracker_agrees_with_certificate_witness :
  is_expired Sample.alpha 95000 (grace_period_ms default_config) =
    Some (tracker_is_expired default_tracker Sample.alpha 95000) /\
  is_in_grace_period Sample.alpha 95000 (grace_period_ms default_config) =
    Some (bool_decide (stage (check_state default_tracker Sample.alpha 95000) = 2)).
Proof.
  apply (tracker_agrees_with_certificate default_tracker);
    [split_and!; vm_compute; done|reflexivity|vm_compute; done].
Defined.

Lemma undated_certificate_expired_for_tracker_witness :
  is_valid Sample.bravo 20000000 = true /\
  is_expired Sample.bravo 20000000 (grace_period_ms default_config) = Some false /\
  check_state default_tracker Sample.bravo 20000000 = StateExpired /\
  is_operational default_tracker Sample.bravo 20000000 = false.
Proof.
  apply (undated_certificate_expired_for_tracker default_tracker);
    [split_and!; vm_compute; done|reflexivity|vm_compute; discriminate].
Defined.

Lemma expiry_reported_once_witness :
  exists before,
    fst (poll {| tracker := default_tracker; last_state := Some (Valid 90000) |} Sample.alpha
           [10; 95000; 20000000; 30000000]) = before ++ [ExpiredEvent] /\ ExpiredEvent ∉ before.
Proof.
  apply (expiry_reported_once _ _ (Valid 90000));
    [split_and!; vm_compute; done|reflexivity|discriminate| |].
  - repeat constructor; done.
  - exists 20000000. split; [|reflexivity]. apply list_elem_of_In. simpl. tauto.
Defined.

Lemma monitor_misses_transitions_witness :
  fst (update (monitor_new default_tracker) Sample.alpha 95000) = None /\
  forall ms, stage (check_state default_tracker Sample.alpha 95000) = 2 ->
    fst (update {| tracker := default_tracker; last_state := Some (Valid ms) |} Sample.alpha 95000) = None.
Proof. apply monitor_misses_transitions. left. reflexivity. Defined.
