(* ===== verification/Authorization.v ===== *)
(** * Role-based authorization

    Models peat-protocol/src/security/authorization.rs: the policy that maps roles to
    permissions and the controller that derives the roles of an entity from its context
    and checks a permission. A set is a [gset]; the order in which the code walks a hash
    set, visible only in the error of a denial, is the class [RoleOrder]. The time of a
    context is an argument of its constructors. *)

From S2P Require Import Prelude Bytes Aggregator.
From stdpp Require Import finite.

Open Scope Z_scope.

Inductive Role := Leader | Member | Observer | Commander | Admin.

#[export] Instance Role_eq_dec : EqDecision Role.
Proof. solve_decision. Defined.

Definition all_roles : list Role := [Leader; Member; Observer; Commander; Admin].

#[export, program] Instance Role_finite : Finite Role := {| enum := all_roles |}.
Next Obligation. by apply (bool_decide_unpack _). Qed.
Next Obligation. intros []; by apply (bool_decide_unpack _). Qed.

Definition role_to_string (r : Role) : string :=
  match r with
  | Leader => "Leader" | Member => "Member" | Observer => "Observer"
  | Commander => "Commander" | Admin => "Admin"
  end.

Inductive Permission :=
| JoinCell | LeaveCell | CreateCell | DisbandCell | SetCellLeader | SetCellObjective
| AdvertiseCapability | RequestCapability
| ReadCellState | WriteCellState | ReadNodeState | WriteNodeState | ReadTelemetry
| FormCohort | AggregateToFederation | AggregateToCoalition
| ApproveFormation | VetoCommand
| ConfigureNetwork | ManageKeys | ViewAuditLog.

#[export] Instance Permission_eq_dec : EqDecision Permission.
Proof. solve_decision. Defined.

Definition all_permissions : list Permission :=
  [JoinCell; LeaveCell; CreateCell; DisbandCell; SetCellLeader; SetCellObjective;
   AdvertiseCapability; RequestCapability; ReadCellState; WriteCellState; ReadNodeState;
   WriteNodeState; ReadTelemetry; FormCohort; AggregateToFederation; AggregateToCoalition;
   ApproveFormation; VetoCommand; ConfigureNetwork; ManageKeys; ViewAuditLog].

#[export, program] Instance Permission_finite : Finite Permission := {| enum := all_permissions |}.
Next Obligation. by apply (bool_decide_unpack _). Qed.
Next Obligation. intros []; by apply (bool_decide_unpack _). Qed.

Definition permission_to_string (p : Permission) : string :=
  match p with
  | JoinCell => "JoinCell" | LeaveCell => "LeaveCell" | CreateCell => "CreateCell"
  | DisbandCell => "DisbandCell" | SetCellLeader => "SetCellLeader"
  | SetCellObjective => "SetCellObjective" | AdvertiseCapability => "AdvertiseCapability"
  | RequestCapability => "RequestCapability" | ReadCellState => "ReadCellState"
  | WriteCellState => "WriteCellState" | ReadNodeState => "ReadNodeState"
  | WriteNodeState => "WriteNodeState" | ReadTelemetry => "ReadTelemetry"
  | FormCohort => "FormCohort" | AggregateToFederation => "AggregateToFederation"
  | AggregateToCoalition => "AggregateToCoalition" | ApproveFormation => "ApproveFormation"
  | VetoCommand => "VetoCommand" | ConfigureNetwork => "ConfigureNetwork"
  | ManageKeys => "ManageKeys" | ViewAuditLog => "ViewAuditLog"
  end.

Inductive DeviceType := Uav | Ugv | C2Station | Sensor | RelayDevice | UnknownDevice.

(** ** Contexts *)

Record CellMembershipContext := {
  leader_id : option string;
  member_ids : gset string
}.

Definition membership_new (leader_id : option string) (member_ids : gset string)
    : CellMembershipContext := {| leader_id := leader_id; member_ids := member_ids |}.

Definition is_leader (m : CellMembershipContext) (device_id : string) : bool :=
  bool_decide (leader_id m = Some device_id).

Definition is_member (m : CellMembershipContext) (device_id : string) : bool :=
  bool_decide (device_id ∈ member_ids m).

Record AuthorizationContext := {
  cell_id : option string;
  node_id : option string;
  hierarchy_level : option HierarchyLevel;
  timestamp : Z;
  cell_membership : option CellMembershipContext
}.

Definition for_cell (now : Z) (cell : string) : AuthorizationContext :=
  {| cell_id := Some cell; node_id := None; hierarchy_level := Some TierCell; timestamp := now;
     cell_membership := None |}.

Definition for_node (now : Z) (node : string) : AuthorizationContext :=
  {| cell_id := None; node_id := Some node; hierarchy_level := None; timestamp := now;
     cell_membership := None |}.

Definition system (now : Z) : AuthorizationContext :=
  {| cell_id := None; node_id := None; hierarchy_level := None; timestamp := now;
     cell_membership := None |}.

Definition with_membership (c : AuthorizationContext) (m : CellMembershipContext)
    : AuthorizationContext :=
  {| cell_id := cell_id c; node_id := node_id c; hierarchy_level := hierarchy_level c;
     timestamp := timestamp c; cell_membership := Some m |}.

(** ** Policies *)

Record AuthorizationPolicy := { role_permissions : gmap Role (gset Permission) }.

Definition policy_new : AuthorizationPolicy := {| role_permissions := ∅ |}.

Definition get_permissions (p : AuthorizationPolicy) (r : Role) : gset Permission :=
  default ∅ (role_permissions p !! r).

(** [entry(role).or_default().insert(permission)] *)
Definition grant_role (p : AuthorizationPolicy) (r : Role) (perm : Permission)
    : AuthorizationPolicy :=
  {| role_permissions :=
       <[r := {[perm]} ∪ default ∅ (role_permissions p !! r)]> (role_permissions p) |}.

Definition revoke_role (p : AuthorizationPolicy) (r : Role) (perm : Permission)
    : AuthorizationPolicy :=
  match role_permissions p !! r with
  | Some permissions =>
    {| role_permissions := <[r := permissions ∖ {[perm]}]> (role_permissions p) |}
  | None => p
  end.

Definition role_has_permission (p : AuthorizationPolicy) (r : Role) (perm : Permission) : bool :=
  match role_permissions p !! r with Some perms => bool_decide (perm ∈ perms) | None => false end.

(** The grants of [default_policy], in the order of the code *)
Definition default_grants : list (Role * Permission) :=
  [(Leader, SetCellObjective); (Leader, SetCellLeader); (Leader, RequestCapability);
   (Leader, ReadCellState); (Leader, WriteCellState); (Leader, ReadNodeState);
   (Leader, WriteNodeState); (Leader, ReadTelemetry); (Leader, DisbandCell);
   (Member, JoinCell); (Member, LeaveCell); (Member, AdvertiseCapability);
   (Member, ReadCellState); (Member, WriteNodeState); (Member, ReadNodeState);
   (Member, ReadTelemetry);
   (Observer, ReadCellState); (Observer, ReadNodeState); (Observer, ReadTelemetry);
   (Commander, FormCohort); (Commander, AggregateToFederation);
   (Commander, AggregateToCoalition); (Commander, ApproveFormation); (Commander, VetoCommand);
   (Commander, CreateCell); (Commander, ReadCellState); (Commander, WriteCellState);
   (Commander, ReadNodeState); (Commander, ReadTelemetry);
   (Admin, ConfigureNetwork); (Admin, ManageKeys); (Admin, ViewAuditLog); (Admin, CreateCell);
   (Admin, DisbandCell)].

Definition default_policy : AuthorizationPolicy :=
  fold_left (fun p g => grant_role p g.1 g.2) default_grants policy_new.

(** ** The controller *)

Class RoleOrder := {
  role_iter : gset Role -> list Role;
  role_iter_perm X : role_iter X ≡ₚ elements X
}.

Record UserIdentityInfo := { username : string; roles : gset Role }.

Section Controller.
Context {D : DeviceCrypto} `{RoleOrder}.

Record DeviceIdentityInfo := { info_device_id : DeviceId; device_type : DeviceType }.

Inductive AuthenticatedEntity :=
| Device (info : DeviceIdentityInfo)
| User (info : UserIdentityInfo).

Definition entity_id (e : AuthenticatedEntity) : string :=
  match e with
  | Device info => to_hex (info_device_id info)
  | User info => username info
  end.

Definition from_device_id (d : DeviceId) : AuthenticatedEntity :=
  Device {| info_device_id := d; device_type := UnknownDevice |}.

Record AuthorizationController := { policy : AuthorizationPolicy }.

Definition controller_new (p : AuthorizationPolicy) : AuthorizationController := {| policy := p |}.
Definition with_default_policy : AuthorizationController := controller_new default_policy.

Definition get_roles (entity : AuthenticatedEntity) (context : AuthorizationContext) : gset Role :=
  match entity with
  | Device device_info =>
    match cell_membership context with
    | Some membership =>
      let device_hex := to_hex (info_device_id device_info) in
      if is_leader membership device_hex then {[Leader]}
      else if is_member membership device_hex then {[Member]}
      else {[Observer]}
    | None => {[Observer]}
    end
  | User user_info => roles user_info
  end.

Definition check_permission (c : AuthorizationController) (entity : AuthenticatedEntity)
    (permission : Permission) (context : AuthorizationContext) : result SecurityError unit :=
  let roles := get_roles entity context in
  if existsb (fun r => role_has_permission (policy c) r permission) (role_iter roles)
  then Ok tt
  else Err (PermissionDenied (permission_to_string permission) (entity_id entity)
              (role_to_string <$> role_iter roles)).

End Controller.

(** ** Policies *)

Lemma role_has_permission_get p r perm :
  role_has_permission p r perm = bool_decide (perm ∈ get_permissions p r).
Proof.
  unfold role_has_permission, get_permissions. destruct (role_permissions p !! r); [done|].
  by rewrite bool_decide_eq_false_2 by set_solver.
Qed.

Lemma get_permissions_grant p r perm r' :
  get_permissions (grant_role p r perm) r' =
  if decide (r = r') then {[perm]} ∪ get_permissions p r' else get_permissions p r'.
Proof.
  unfold grant_role, get_permissions. cbn [role_permissions]. case_decide; subst.
  - by rewrite lookup_insert_eq.
  - by rewrite lookup_insert_ne.
Qed.

Lemma get_permissions_revoke p r perm r' :
  get_permissions (revoke_role p r perm) r' =
  if decide (r = r') then get_permissions p r' ∖ {[perm]} else get_permissions p r'.
Proof.
  unfold revoke_role, get_permissions. case_decide; subst.
  - destruct (role_permissions p !! r') eqn:E; cbn [role_permissions];
      [by rewrite lookup_insert_eq|]. rewrite E. set_solver.
  - destruct (role_permissions p !! r) eqn:E; [|done]. cbn [role_permissions].
    by rewrite lookup_insert_ne.
Qed.

(** Granting and revoking change the named role and permission and nothing else,
    and a permission that is granted and revoked again leaves the role with what it had
    without it. *)
Theorem policy_edits p r perm r' perm' :
  (role_has_permission (grant_role p r perm) r' perm' = true <->
     (r' = r /\ perm' = perm) \/ role_has_permission p r' perm' = true) /\
  (role_has_permission (revoke_role p r perm) r' perm' = true <->
     ~ (r' = r /\ perm' = perm) /\ role_has_permission p r' perm' = true) /\
  role_has_permission (revoke_role (grant_role p r perm) r perm) r' perm' =
  role_has_permission (revoke_role p r perm) r' perm'.
Proof.
  rewrite !role_has_permission_get, !get_permissions_revoke, !get_permissions_grant.
  split_and!.
  - rewrite !bool_decide_eq_true. case_decide; set_solver.
  - rewrite !bool_decide_eq_true. case_decide; set_solver.
  - apply bool_decide_ext. case_decide; set_solver.
Qed.

Lemma grants_spec gs p r perm :
  perm ∈ get_permissions (fold_left (fun p g => grant_role p g.1 g.2) gs p) r <->
  (r, perm) ∈ gs \/ perm ∈ get_permissions p r.
Proof.
  revert p; induction gs as [|[r' perm'] gs IH]; intros p; simpl; [set_solver|].
  rewrite IH, get_permissions_grant, elem_of_cons. case_decide; set_solver.
Qed.

Lemma default_policy_spec r perm :
  role_has_permission default_policy r perm = bool_decide ((r, perm) ∈ default_grants).
Proof.
  rewrite role_has_permission_get. apply bool_decide_ext. unfold default_policy.
  rewrite grants_spec. generalize default_grants. intros gs. unfold get_permissions, policy_new. cbn [role_permissions]. rewrite lookup_empty. simpl. set_solver.
Qed.

(** ** Decisions *)

Section Decisions.
Context {D : DeviceCrypto} `{RoleOrder}.

Lemma check_permission_granted c entity perm context :
  check_permission c entity perm context = Ok tt <->
  exists r, r ∈ get_roles entity context /\ role_has_permission (policy c) r perm = true.
Proof.
  unfold check_permission. set (rs := get_roles entity context).
  transitivity (existsb (fun r => role_has_permission (policy c) r perm) (role_iter rs) = true).
  - by destruct (existsb _ _).
  - rewrite existsb_exists. setoid_rewrite <- list_elem_of_In. setoid_rewrite role_iter_perm.
    by setoid_rewrite elem_of_elements.
Qed.

(** A permission is granted exactly when one of the roles of the entity in the
    context has it, whatever the order in which the roles are walked; a denial names the
    permission, the entity and each of its roles once. *)
Theorem check_permission_spec c entity perm context :
  (check_permission c entity perm context = Ok tt <->
     exists r, r ∈ get_roles entity context /\ role_has_permission (policy c) r perm = true) /\
  (forall e, check_permission c entity perm context = Err e ->
     exists names, e = PermissionDenied (permission_to_string perm) (entity_id entity) names /\
       names ≡ₚ role_to_string <$> elements (get_roles entity context)).
Proof.
  split; [apply check_permission_granted|]. intros e. unfold check_permission.
  destruct (existsb _ _); [done|]. intros [= <-]. eexists. split; [done|]. by rewrite role_iter_perm.
Qed.

(** The role of a device in a context *)
Definition device_role (d : DeviceId) (context : AuthorizationContext) : Role :=
  match cell_membership context with
  | Some m => if is_leader m (to_hex d) then Leader
              else if is_member m (to_hex d) then Member else Observer
  | None => Observer
  end.

Lemma device_roles d ty context :
  get_roles (Device {| info_device_id := d; device_type := ty |}) context = {[device_role d context]}.
Proof.
  unfold get_roles, device_role. destruct (cell_membership context) as [m|]; [|done]. simpl.
  by destruct (is_leader m (to_hex d)), (is_member m (to_hex d)).
Qed.

Definition read_permissions : list Permission := [ReadCellState; ReadNodeState; ReadTelemetry].

Definition device_permissions (r : Role) : list Permission :=
  match r with
  | Leader => [SetCellObjective; SetCellLeader; RequestCapability; WriteCellState; WriteNodeState;
               DisbandCell]
  | Member => [JoinCell; LeaveCell; AdvertiseCapability; WriteNodeState]
  | _ => []
  end.

Lemma device_grants r perm :
  r ∈ [Leader; Member; Observer] ->
  (r, perm) ∈ default_grants <-> perm ∈ read_permissions ++ device_permissions r.
Proof.
  intros Hr. assert (bool_decide ((r, perm) ∈ default_grants) =
    bool_decide (perm ∈ read_permissions ++ device_permissions r)) as E.
  { apply list_elem_of_In in Hr. destruct Hr as [<-|[<-|[<-|[]]]]; destruct perm; vm_compute; reflexivity. }
  by rewrite <- (bool_decide_eq_true ((r, perm) ∈ default_grants)), E, bool_decide_eq_true.
Qed.

Lemma device_access d ty perm context :
  check_permission with_default_policy (Device {| info_device_id := d; device_type := ty |}) perm context
    = Ok tt <->
  perm ∈ read_permissions ++ device_permissions (device_role d context).
Proof.
  rewrite check_permission_granted, device_roles. setoid_rewrite elem_of_singleton.
  cbn [policy with_default_policy controller_new].
  setoid_rewrite default_policy_spec. setoid_rewrite bool_decide_eq_true.
  rewrite <- device_grants.
  - split; [by intros (r & -> & ?)|eauto].
  - apply list_elem_of_In. unfold device_role. destruct (cell_membership context) as [m|]; [|simpl; tauto].
    destruct (is_leader m (to_hex d)), (is_member m (to_hex d)); simpl; tauto.
Qed.



(** The default policy closes the cell to newcomers and holds its leader: a device
    that is not yet a member may not join, and a leader, also one listed as a member, may
    neither leave nor advertise a capability. *)
Theorem membership_permissions_exclude_their_users d ty context m perm :
  cell_membership context = Some m ->
  (perm = JoinCell /\ is_leader m (to_hex d) = false /\ is_member m (to_hex d) = false) \/
  ((perm = LeaveCell \/ perm = AdvertiseCapability) /\ is_leader m (to_hex d) = true) ->
  check_permission with_default_policy (Device {| info_device_id := d; device_type := ty |}) perm context
    <> Ok tt.
Proof.
  intros Hm Hd Hok. apply device_access, list_elem_of_In in Hok. revert Hok.
  unfold device_role. rewrite Hm.
  destruct Hd as [(-> & -> & ->)|[[->| ->] ->]]; simpl; intuition congruence.
Qed.

End Decisions.

(** ** Instances *)

Module SampleRoles.

#[export] Instance sample_order : RoleOrder :=
  {| role_iter X := elements X; role_iter_perm X := Permutation_refl (elements X) |}.

Definition cell : CellMembershipContext :=
  membership_new (Some (ToyCrypto.toy_hex 5)) {[ToyCrypto.toy_hex 5; ToyCrypto.toy_hex 6]}.

Definition dev (n : Z) : AuthenticatedEntity (D := ToyCrypto.toy_crypto) :=
  from_device_id (D := ToyCrypto.toy_crypto) n.


Lemma membership_permissions_exclude_their_users_witness :
  check_permission (D := ToyCrypto.toy_crypto) with_default_policy (dev 5) LeaveCell
    (with_membership (for_cell 0 "cell-1") cell) <> Ok tt.
Proof.
  apply (membership_permissions_exclude_their_users (D := ToyCrypto.toy_crypto) 5 UnknownDevice
           (with_membership (for_cell 0 "cell-1") cell) cell LeaveCell); [reflexivity|].
  right. split; [by left|vm_compute; reflexivity].
Defined.

Lemma check_permission_spec_witness :
  exists names,
    PermissionDenied "LeaveCell" (ToyCrypto.toy_hex 5) ["Leader"] =
      PermissionDenied "LeaveCell" (ToyCrypto.toy_hex 5) names /\
    names ≡ₚ role_to_string <$> elements (get_roles (D := ToyCrypto.toy_crypto) (dev 5)
                                            (with_membership (for_cell 0 "cell-1") cell)).
Proof.
  apply (check_permission_spec (D := ToyCrypto.toy_crypto) with_default_policy (dev 5) LeaveCell
           (with_membership (for_cell 0 "cell-1") cell)).
  vm_compute. reflexivity.
Defined.

End SampleRoles.
