(* ===== verification/Authenticator.v ===== *)
(** * Device authentication

    Models peat-protocol/src/security/authenticator.rs: the challenge-response
    handshake between two devices and the cache of verified peers. The clock of each
    call is its argument, in nanoseconds since the Unix epoch, and the random nonce of
    a challenge is the argument of [generate_challenge]. The locks are not modelled:
    they are poisoned only by a panic, and no operation that holds one panics. *)

From S2P Require Import Prelude Bytes Capability.
From stdpp Require Import pretty.

Open Scope Z_scope.

Definition CURRENT_PROTOCOL_VERSION : Z := 1.

Definition INCOMPATIBLE_PROTOCOL_VERSION_PREFIX : string := "incompatible protocol version:".

Record Challenge := {
  nonce : bytes;
  timestamp : option Timestamp;
  challenger_id : string;
  expires_at : option Timestamp;
  challenge_version : Z;
  challenge_capabilities : list string
}.

Record SignedChallengeResponse := {
  challenge_nonce : bytes;
  public_key : bytes;
  signature : bytes;
  response_timestamp : option Timestamp;
  response_device_type : Z;
  certificates : list bytes;
  response_version : Z;
  response_capabilities : list string
}.

(** [duration_since(UNIX_EPOCH).unwrap_or_default()] *)
Definition since_epoch (now : Z) : Z := Z.max 0 now.

(** [as_secs()] and [subsec_nanos()] *)
Definition as_secs (d : Z) : Z := d / 1000000000.
Definition subsec_nanos (d : Z) : Z := d mod 1000000000.

Definition to_timestamp (d : Z) : Timestamp := {| seconds := as_secs d; nanos := subsec_nanos d |}.

(** Addition of two [Duration]s, which panics when the seconds leave 64 bits *)
Definition duration_add (a b : Z) : option Z :=
  if decide (as_secs (a + b) < u64_modulus) then Some (a + b) else None.

(** The bytes that are signed *)
Definition build_signed_message (nonce : bytes) (challenger_id : string)
    (response_ts_seconds protocol_version : Z) : bytes :=
  nonce ++ as_bytes challenger_id ++ le_bytes 8 response_ts_seconds ++
  (if 1 <=? protocol_version then le_bytes 4 protocol_version else []).

Section Authenticator.
Context {D : DeviceCrypto}.

Record VerifiedPeer := {
  peer_device_id : DeviceId;
  peer_public_key : bytes;
  verified_at : Z
}.

Record DeviceAuthenticator := {
  keypair : Keypair;
  verified_peers : gmap DeviceId VerifiedPeer;
  challenge_timeout : Z
}.

Definition with_timeout (k : Keypair) (timeout : Z) : DeviceAuthenticator :=
  {| keypair := k; verified_peers := ∅; challenge_timeout := timeout |}.

(** The default timeout is a constant of peat-mesh. *)
Definition authenticator_new (default_challenge_timeout_secs : Z) (k : Keypair)
    : DeviceAuthenticator := with_timeout k (default_challenge_timeout_secs * 1000000000).

Definition auth_device_id (a : DeviceAuthenticator) : DeviceId := device_id (keypair a).
Definition auth_public_key_bytes (a : DeviceAuthenticator) : bytes := public_key_bytes (keypair a).

Definition generate_challenge (a : DeviceAuthenticator) (random : bytes) (now : Z) : option Challenge :=
  let now := since_epoch now in
  expires ← duration_add now (challenge_timeout a);
  Some {| nonce := random; timestamp := Some (to_timestamp now);
          challenger_id := to_hex (auth_device_id a);
          expires_at := Some (to_timestamp expires);
          challenge_version := CURRENT_PROTOCOL_VERSION; challenge_capabilities := [] |}.

Definition check_challenge_expiry (c : Challenge) (now : Z) : result SecurityError unit :=
  match expires_at c with
  | Some expires =>
    if seconds expires <? as_secs (since_epoch now)
    then Err (ChallengeExpired (seconds expires)) else Ok tt
  | None => Ok tt
  end.

(** [now] is the clock of the expiry check, [now'] that of the response. *)
Definition respond_to_challenge (a : DeviceAuthenticator) (c : Challenge) (now now' : Z)
    : result SecurityError SignedChallengeResponse :=
  let? _ := check_challenge_expiry c now in
  let negotiated_version := Z.min (challenge_version c) CURRENT_PROTOCOL_VERSION in
  let response_ts_seconds := as_secs (since_epoch now') in
  let message := build_signed_message (nonce c) (challenger_id c) response_ts_seconds
                   negotiated_version in
  Ok {| challenge_nonce := nonce c; public_key := public_key_bytes (keypair a);
        signature := sign (keypair a) message;
        response_timestamp := Some {| seconds := response_ts_seconds; nanos := 0 |};
        response_device_type := 0; certificates := [];
        response_version := negotiated_version; response_capabilities := [] |}.

Definition response_seconds (r : SignedChallengeResponse) : Z :=
  default 0 (seconds <$> response_timestamp r).

(** What the verifier reconstructs *)
Definition expected_message (a : DeviceAuthenticator) (r : SignedChallengeResponse) : bytes :=
  build_signed_message (challenge_nonce r) (to_hex (auth_device_id a)) (response_seconds r)
    (response_version r).

Definition verify_response (a : DeviceAuthenticator) (r : SignedChallengeResponse) (now : Z)
    : result SecurityError DeviceId * DeviceAuthenticator :=
  if CURRENT_PROTOCOL_VERSION <? response_version r then
    (Err (AuthenticationFailed
            (INCOMPATIBLE_PROTOCOL_VERSION_PREFIX +:+ " peer claims " +:+ pretty (response_version r) +:+
             ", our maximum is " +:+ pretty CURRENT_PROTOCOL_VERSION)), a)
  else
  match verifying_key_from_bytes (public_key r) with
  | Err e => (Err e, a)
  | Ok key =>
    let peer := from_public_key key in
    let message := expected_message a r in
    match signature_from_bytes (signature r) with
    | Err e => (Err e, a)
    | Ok sig =>
      match verify_with_key key message sig with
      | Err e => (Err e, a)
      | Ok _ =>
        (Ok peer,
         {| keypair := keypair a;
            verified_peers :=
              <[peer := {| peer_device_id := peer; peer_public_key := key_to_bytes key;
                           verified_at := now |}]> (verified_peers a);
            challenge_timeout := challenge_timeout a |})
      end
    end
  end.

Definition is_verified (a : DeviceAuthenticator) (d : DeviceId) : bool :=
  bool_decide (is_Some (verified_peers a !! d)).

Definition get_verified_peer (a : DeviceAuthenticator) (d : DeviceId) : option VerifiedPeer :=
  verified_peers a !! d.

Definition set_peers (a : DeviceAuthenticator) (peers : gmap DeviceId VerifiedPeer)
    : DeviceAuthenticator :=
  {| keypair := keypair a; verified_peers := peers; challenge_timeout := challenge_timeout a |}.

Definition remove_peer (a : DeviceAuthenticator) (d : DeviceId) : DeviceAuthenticator :=
  set_peers a (delete d (verified_peers a)).

Definition clear_verified_peers (a : DeviceAuthenticator) : DeviceAuthenticator := set_peers a ∅.

Definition verified_peer_count (a : DeviceAuthenticator) : Z := Z.of_nat (size (verified_peers a)).

End Authenticator.

(** ** What the signature binds *)

(** An identifier of 32 characters that does not repeat its first four characters
    throughout *)
Definition aperiodic (id : string) : Prop :=
  length (as_bytes id) = 32%nat /\ take 28 (as_bytes id) <> drop 4 (as_bytes id).

Lemma periodic_of_shift (id n n' u : bytes) :
  (4 <= length id)%nat -> length u = 4%nat -> n ++ id = n' ++ id ++ u ->
  take (length id - 4) id = drop 4 id.
Proof.
  intros Hid Hu E. rewrite <- (take_drop 4 id) in E at 2. rewrite <- app_assoc, app_assoc in E.
  apply app_inj_2 in E as [_ E]; [|rewrite length_app, length_drop; lia].
  rewrite E at 2. rewrite take_app_le by (rewrite length_drop; lia).
  apply take_ge. rewrite length_drop. lia.
Qed.

Lemma versions_not_confused n n' id ts ts' v :
  aperiodic id ->
  n ++ as_bytes id ++ le_bytes 8 ts <> n' ++ as_bytes id ++ le_bytes 8 ts' ++ le_bytes 4 v.
Proof.
  intros [Hl Hp] E. apply Hp.
  rewrite <- (take_drop 4 (le_bytes 8 ts)), <- (take_drop 4 (le_bytes 8 ts')) in E.
  rewrite !app_assoc in E.
  apply app_inj_2 in E as [E _]; [|by rewrite length_drop, !length_le_bytes].
  apply app_inj_2 in E as [E _]; [|by rewrite length_drop, length_take, !length_le_bytes].
  rewrite <- !app_assoc in E.
  apply periodic_of_shift in E; [by rewrite Hl in E|lia|by rewrite length_take, length_le_bytes].
Qed.

(** The signed bytes bind the nonce, the time and the protocol version of a response
    to one challenger: two responses to the same device with equal signed bytes agree on
    all three, whatever the lengths of their nonces, so that a version field cannot be
    stripped or changed under a signature. The identifier must not be one that repeats
    its first four characters throughout. *)
Theorem signed_message_binds n n' id ts ts' v v' :
  aperiodic id -> is_u64 ts -> is_u64 ts' -> is_u32 v -> is_u32 v' ->
  build_signed_message n id ts v = build_signed_message n' id ts' v' ->
  n = n' /\ ts = ts' /\ v = v'.
Proof.
  intros Hid Hts Hts' Hv Hv' E. unfold build_signed_message in E. unfold is_u32 in *.
  destruct (Z.leb_spec 1 v), (Z.leb_spec 1 v'); rewrite ?app_nil_r in E.
  - rewrite !app_assoc in E. apply app_inj_2 in E as [E Ev]; [|by rewrite !length_le_bytes].
    apply app_inj_2 in E as [E Et]; [|by rewrite !length_le_bytes]. apply app_inj_2 in E as [-> _]; [|done].
    apply le_bytes_inj in Ev; [|exact Hv|exact Hv']. apply le_bytes_inj in Et; [|exact Hts|exact Hts'].
    done.
  - by apply symmetry, versions_not_confused in E.
  - by apply versions_not_confused in E.
  - rewrite !app_assoc in E. apply app_inj_2 in E as [E Et]; [|by rewrite !length_le_bytes].
    apply app_inj_2 in E as [-> _]; [|done]. apply le_bytes_inj in Et; [|exact Hts|exact Hts'].
    split_and!; [done..|lia].
Qed.

(** ** The handshake *)

Section Handshake.
Context {D : DeviceCrypto} {L : DeviceCryptoLaws D}.

Lemma verify_genuine a b c now now' now2 r :
  challenger_id c = to_hex (auth_device_id a) ->
  respond_to_challenge b c now now' = Ok r ->
  fst (verify_response a r now2) = Ok (auth_device_id b) /\
  is_verified (snd (verify_response a r now2)) (auth_device_id b) = true.
Proof.
  intros Hc. unfold respond_to_challenge. destruct (check_challenge_expiry c now); [|done].
  intros [= <-]. unfold verify_response. cbn [response_version public_key signature].
  rewrite (proj2 (Z.ltb_ge _ _)) by lia.
  destruct (public_key_reads (keypair b)) as (v & -> & _ & _ & Hd & Hv).
  rewrite signature_reads. set (message := build_signed_message _ _ _ _).
  match goal with |- context [expected_message a ?r] =>
    assert (expected_message a r = message) as -> by (unfold expected_message; by rewrite <- Hc)
  end.
  destruct (Hv message) as [-> _].
  cbn [fst snd]. rewrite Hd. split; [done|].
  apply bool_decide_eq_true_2. cbn [verified_peers]. rewrite lookup_insert_eq. by eexists.
Qed.

(** The handshake authenticates: the answer of a device to a challenge that has not
    expired is accepted by the challenger under the device's own identifier, however late
    the answer arrives and whatever version up to ours the two negotiate. *)
Theorem handshake_succeeds a b random now c now1 now2 now3 :
  generate_challenge a random now = Some c ->
  as_secs (since_epoch now1) <= as_secs (since_epoch now + challenge_timeout a) ->
  exists r, respond_to_challenge b c now1 now2 = Ok r /\
    fst (verify_response a r now3) = Ok (auth_device_id b) /\
    is_verified (snd (verify_response a r now3)) (auth_device_id b) = true.
Proof.
  unfold generate_challenge, duration_add. case_decide; [|done].
  intros [= <-] Hn. set (c := Build_Challenge _ _ _ _ _ _).
  assert (check_challenge_expiry c now1 = Ok tt) as E.
  { unfold check_challenge_expiry. cbn. by rewrite (proj2 (Z.ltb_ge _ _)) by done. }
  destruct (respond_to_challenge b c now1 now2) as [r|e] eqn:Er.
  - exists r. split; [done|]. by apply (verify_genuine a b c now1 now2).
  - unfold respond_to_challenge in Er. by rewrite E in Er.
Qed.

End Handshake.

Section Cache.
Context {D : DeviceCrypto}.

(** A response the device accepts: its version is known and its signature verifies under
    the key it carries *)
Definition accepts (a : DeviceAuthenticator) (r : SignedChallengeResponse) (d : DeviceId) : Prop :=
  response_version r <= CURRENT_PROTOCOL_VERSION /\
  exists key sig, verifying_key_from_bytes (public_key r) = Ok key /\
    from_public_key key = d /\ signature_from_bytes (signature r) = Ok sig /\
    verify_with_key key (expected_message a r) sig = Ok tt.

Lemma verify_response_cases a r now :
  (exists d key, accepts a r d /\ fst (verify_response a r now) = Ok d /\
     snd (verify_response a r now) = set_peers a
       (<[d := {| peer_device_id := d; peer_public_key := key_to_bytes key; verified_at := now |}]>
          (verified_peers a)) /\
     verifying_key_from_bytes (public_key r) = Ok key) \/
  ((forall d, ~ accepts a r d) /\
   exists e, verify_response a r now = (Err e, a)).
Proof.
  unfold accepts, verify_response. destruct (Z.ltb_spec CURRENT_PROTOCOL_VERSION (response_version r)).
  { right. split; [|by eexists]. intros d [? _]. lia. }
  destruct (verifying_key_from_bytes (public_key r)) as [key|e] eqn:Ek;
    [|right; split; [intros d (_ & ? & ? & ? & _); congruence|by eexists]].
  destruct (signature_from_bytes (signature r)) as [sig|e] eqn:Es;
    [|right; split; [intros d (_ & ? & ? & _ & _ & ? & _); congruence|by eexists]].
  destruct (verify_with_key key (expected_message a r) sig) as [[]|e] eqn:E;
    [|right; split; [intros d (_ & ? & ? & ? & _ & ? & ?); congruence|by eexists]].
  left. exists (from_public_key key), key. split_and!; [done|by exists key, sig|done..].
Qed.

(** An error leaves the cache of verified peers as it was; a success adds the sender
    and no one else, and the answer does not depend on the cache or on the clock. *)
Theorem verify_response_spec a r now :
  (forall e, fst (verify_response a r now) = Err e -> snd (verify_response a r now) = a) /\
  (forall d, fst (verify_response a r now) = Ok d <-> accepts a r d) /\
  (forall d d', fst (verify_response a r now) = Ok d -> d' <> d ->
     get_verified_peer (snd (verify_response a r now)) d' = get_verified_peer a d').
Proof.
  destruct (verify_response_cases a r now) as [(d & key & Ha & Hf & Hs & Hk)|[Hn [e ->]]].
  - rewrite Hf, Hs. split_and!; [done| |].
    + intros d'. split; [by intros [= <-]|]. intros (_ & key' & sig' & Hk' & <- & _).
      destruct Ha as (_ & key2 & _ & Hk2 & <- & _). congruence.
    + intros d1 d2 [= <-] Hne. unfold get_verified_peer. cbn. by rewrite lookup_insert_ne.
  - split_and!; [done| |done]. intros d. split; [done|]. intros H. by apply Hn in H.
Qed.

Inductive auth_step : DeviceAuthenticator -> DeviceAuthenticator -> Prop :=
| step_verify a r now : auth_step a (snd (verify_response a r now))
| step_remove_peer a d : auth_step a (remove_peer a d)
| step_clear a : auth_step a (clear_verified_peers a).

Lemma auth_step_keypair a a' : auth_step a a' -> keypair a' = keypair a.
Proof.
  destruct 1 as [a r now| |]; [|done..].
  by destruct (verify_response_cases a r now) as [(d & key & _ & _ & -> & _)|[_ [e ->]]].
Qed.

Lemma auth_steps_keypair a a' : rtc auth_step a a' -> keypair a' = keypair a.
Proof. induction 1 as [|a1 a2 a3 H _ IH]; [done|]. by rewrite IH, (auth_step_keypair _ _ H). Qed.

Lemma accepts_keypair a a' r d : keypair a' = keypair a -> accepts a r d -> accepts a' r d.
Proof. unfold accepts, expected_message, auth_device_id. by intros ->. Qed.

(** A run of the device: what it was asked to do, in order *)
Inductive AuthCall :=
| CallVerify (r : SignedChallengeResponse) (now : Z)
| CallRemovePeer (d : DeviceId)
| CallClear.

Definition run_call (a : DeviceAuthenticator) (c : AuthCall) : DeviceAuthenticator :=
  match c with
  | CallVerify r now => snd (verify_response a r now)
  | CallRemovePeer d => remove_peer a d
  | CallClear => clear_verified_peers a
  end.

Definition run_calls (a : DeviceAuthenticator) (calls : list AuthCall) : DeviceAuthenticator := fold_left run_call calls a.

(** The calls that take [d] out of the cache *)
Definition forgets (d : DeviceId) (c : AuthCall) : Prop := c = CallRemovePeer d \/ c = CallClear.

Lemma run_call_step a c : auth_step a (run_call a c).
Proof. destruct c; constructor. Qed.

Lemma run_calls_keypair a calls : keypair (run_calls a calls) = keypair a.
Proof.
  revert a. induction calls as [|c calls IH]; intros a; [done|]. cbn [run_calls fold_left].
  change (fold_left run_call calls (run_call a c)) with (run_calls (run_call a c) calls).
  by rewrite IH, (auth_step_keypair _ _ (run_call_step a c)).
Qed.

(** C18: no peer enters the cache without a signature: a peer that is verified after any
    run of the device was presented in that run with a response, addressed to this device,
    whose signature verifies under the key its identifier is derived from and the cache
    shows, and it has been neither removed nor cleared since. *)
Theorem verified_peers_have_signed k timeout calls d p :
  get_verified_peer (run_calls (with_timeout k timeout) calls) d = Some p ->
  peer_device_id p = d /\
  exists before r now after key,
    calls = before ++ CallVerify r now :: after /\ Forall (fun c => ~ forgets d c) after /\
    accepts (with_timeout k timeout) r d /\ verifying_key_from_bytes (public_key r) = Ok key /\
    from_public_key key = d /\ peer_public_key p = key_to_bytes key.
Proof.
  induction calls as [|c calls IH] using rev_ind; [done|]. unfold run_calls. rewrite fold_left_app. cbn [fold_left].
  change (fold_left run_call calls (with_timeout k timeout)) with (run_calls (with_timeout k timeout) calls).
  set (a := run_calls (with_timeout k timeout) calls) in *. intros Hp.
  assert (get_verified_peer a d = Some p -> ~ forgets d c ->
    peer_device_id p = d /\ exists before r now after key, calls ++ [c] = before ++ CallVerify r now :: after /\
      Forall (fun c => ~ forgets d c) after /\ accepts (with_timeout k timeout) r d /\
      verifying_key_from_bytes (public_key r) = Ok key /\ from_public_key key = d /\ peer_public_key p = key_to_bytes key) as Hold.
  { intros Hg Hc. destruct (IH Hg) as (? & before & r & now & after & key & -> & Hf & ?). split; [done|].
    exists before, r, now, (after ++ [c]), key. split; [by rewrite <- app_assoc|]. split; [|done]. apply Forall_app. by repeat constructor. }
  unfold get_verified_peer in *. destruct c as [r now|d'|]; cbn [run_call] in Hp.
  - destruct (verify_response_cases a r now) as [(d' & key & Ha & _ & Hs & Hk)|[_ [e He]]];
      [|rewrite He in Hp; apply Hold; [done|by intros [|]]].
    rewrite Hs in Hp. cbn in Hp. apply lookup_insert_Some in Hp as [[<- <-]|[_ ?]]; [|apply Hold; [done|by intros [|]]].
    split; [done|]. exists calls, r, now, [], key. split_and!; [done|constructor| |done| |done].
    + eapply accepts_keypair; [|exact Ha]. symmetry. apply run_calls_keypair.
    + destruct Ha as (_ & key' & _ & Hk' & Hd & _). congruence.
  - cbn in Hp. apply lookup_delete_Some in Hp as [Hne Hg]. apply Hold; [done|]. intros [[= ->]|]; done.
  - done.
Qed.

(** The device keeps no record of the challenges it has issued, so a response is
    never consumed: one that has been accepted once is accepted again at any later time,
    also after the peer has been removed or the cache cleared, and puts the peer back
    into the cache. *)
Theorem accepted_response_replays a r now d a' now' :
  fst (verify_response a r now) = Ok d ->
  rtc auth_step (snd (verify_response a r now)) a' ->
  fst (verify_response (remove_peer a' d) r now') = Ok d /\
  is_verified (snd (verify_response (remove_peer a' d) r now')) d = true.
Proof.
  intros Hok Hsteps. apply auth_steps_keypair in Hsteps.
  rewrite (auth_step_keypair a _ (step_verify a r now)) in Hsteps.
  assert (accepts (remove_peer a' d) r d) as Ha.
  { apply (accepts_keypair a); [done|].
    destruct (verify_response_cases a r now) as [(d' & key & Ha & Hf & _)|[_ [e He]]].
    - assert (d' = d) as -> by congruence. done.
    - by rewrite He in Hok. }
  destruct (verify_response_cases (remove_peer a' d) r now') as [(d' & key & Ha' & Hf & Hs & _)|[Hn _]].
  - assert (d' = d) as ->.
    { destruct Ha as (_ & k1 & _ & E1 & <- & _), Ha' as (_ & k2 & _ & E2 & <- & _). congruence. }
    split; [done|]. rewrite Hs. apply bool_decide_eq_true_2. cbn. rewrite lookup_insert_eq. by eexists.
  - by apply Hn in Ha.
Qed.

End Cache.

(** ** Instances *)

Module SampleHandshake.

Definition toy := ToyCrypto.toy_crypto.

Definition alice : DeviceAuthenticator (D := toy) := with_timeout (D := toy) 5 30000000000.
Definition bob : DeviceAuthenticator (D := toy) := with_timeout (D := toy) 6 30000000000.

Definition challenge : Challenge :=
  {| nonce := le_bytes 32 99; timestamp := Some (mkTimestamp 100 0);
     challenger_id := ToyCrypto.toy_hex 5; expires_at := Some (mkTimestamp 130 0);
     challenge_version := 1; challenge_capabilities := [] |}.

Definition answer : SignedChallengeResponse :=
  {| challenge_nonce := le_bytes 32 99; public_key := le_bytes 32 6;
     signature := ToyCrypto.toy_sign 6
       (build_signed_message (le_bytes 32 99) (ToyCrypto.toy_hex 5) 120 1);
     response_timestamp := Some (mkTimestamp 120 0); response_device_type := 0;
     certificates := []; response_version := 1; response_capabilities := [] |}.

Lemma toy_id_aperiodic : aperiodic (ToyCrypto.toy_hex 5).
Proof. split; vm_compute; [reflexivity|discriminate]. Qed.

Lemma signed_message_binds_witness :
  [x01] = [x01] /\ 120 = 120 /\ 1 = 1.
Proof.
  apply (signed_message_binds [x01] [x01] (ToyCrypto.toy_hex 5) 120 120 1 1 toy_id_aperiodic);
    vm_compute; repeat split; discriminate.
Defined.

Lemma handshake_succeeds_witness :
  exists r, respond_to_challenge (D := toy) bob challenge 110000000000 120000000000 = Ok r /\
    fst (verify_response (D := toy) alice r 500000000000) = Ok 6 /\
    is_verified (D := toy) (snd (verify_response (D := toy) alice r 500000000000)) 6 = true.
Proof.
  apply (handshake_succeeds (L := ToyCrypto.toy_crypto_laws) alice bob (le_bytes 32 99)
           100000000000 challenge); vm_compute; [reflexivity|discriminate].
Defined.

Lemma verify_response_spec_witness :
  get_verified_peer (D := toy) (snd (verify_response (D := toy) alice answer 0)) 7 =
  get_verified_peer (D := toy) alice 7.
Proof.
  apply (verify_response_spec (D := toy) alice answer 0) with (d := 6);
    [vm_compute; reflexivity|discriminate].
Defined.

Definition bob_verified : VerifiedPeer (D := toy) :=
  {| peer_device_id := (6 : DeviceId (DeviceCrypto := toy)); peer_public_key := le_bytes 32 6; verified_at := 0 |}.

Lemma alice_caches_bob :
  get_verified_peer (D := toy) (snd (verify_response (D := toy) alice answer 0)) 6 = Some bob_verified.
Proof.
  destruct (verify_response_cases (D := toy) alice answer 0) as [(d & key & _ & Hf & -> & Hk)|[_ [e He]]].
  - assert (fst (verify_response (D := toy) alice answer 0) = Ok 6) as Hok by (vm_compute; reflexivity).
    assert (verifying_key_from_bytes (DeviceCrypto := toy) (public_key answer) = Ok 6) as Hk'
      by (vm_compute; reflexivity).
    rewrite Hf in Hok. rewrite Hk in Hk'. injection Hok as ->. injection Hk' as ->.
    unfold get_verified_peer. cbn [verified_peers set_peers]. apply lookup_insert_eq.
  - assert (is_ok (fst (verify_response (D := toy) alice answer 0)) = true) as Hok
      by (vm_compute; reflexivity).
    by rewrite He in Hok.
Qed.

Lemma verified_peers_have_signed_witness :
  peer_device_id (D := toy) bob_verified = 6.
Proof.
  exact (proj1 (verified_peers_have_signed (D := toy) 5 30000000000 [CallVerify (D := toy) answer 0] 6
           bob_verified alice_caches_bob)).
Defined.

Lemma accepted_response_replays_witness :
  fst (verify_response (D := toy) (remove_peer (D := toy)
         (clear_verified_peers (D := toy) (snd (verify_response (D := toy) alice answer 0))) 6) answer
         1000000000000000) = Ok 6 /\
  is_verified (D := toy) (snd (verify_response (D := toy) (remove_peer (D := toy)
         (clear_verified_peers (D := toy) (snd (verify_response (D := toy) alice answer 0))) 6) answer
         1000000000000000)) 6 = true.
Proof.
  apply (accepted_response_replays (D := toy) alice answer 0 6); [vm_compute; reflexivity|].
  exact (rtc_once _ _ (step_clear (D := toy) (snd (verify_response (D := toy) alice answer 0)))).
Defined.

End SampleHandshake.
