(* ===== verification/UserAuth.v ===== *)
(** * User authentication

    Models peat-protocol/src/security/user_auth.rs: the accounts of human operators,
    their credentials (password and time-based one-time code, smart card, certificate)
    and their sessions. The trait [UserStore] is a class with its laws, and
    [LocalUserStore] an instance. Argon2 and HMAC-SHA256 come from other crates and are
    the class [PasswordCrypto]. The clock (nanoseconds since the Unix epoch) and the
    random values of each call are its arguments. [None] is a panic: an index out of
    range, or an addition that overflows. The locks are poisoned only by a panic of a
    holder, and no operation that holds one panics. *)

From S2P Require Import Prelude Bytes Authorization Authenticator.
From stdpp Require Import pretty.
From Stdlib Require Import Ascii.

Open Scope Z_scope.

Definition DEFAULT_SESSION_EXPIRY_HOURS : Z := 8.
Definition TOTP_TIME_STEP_SECS : Z := 30.
Definition TOTP_CODE_LENGTH : nat := 6.
Definition TOTP_CLOCK_DRIFT_STEPS : Z := 1.

Inductive MilitaryRank :=
| Private | Specialist | Corporal | Sergeant | StaffSergeant | SergeantFirstClass
| MasterSergeant | FirstSergeant | SergeantMajor
| WarrantOfficer1 | ChiefWarrantOfficer2 | ChiefWarrantOfficer3 | ChiefWarrantOfficer4
| ChiefWarrantOfficer5
| SecondLieutenant | FirstLieutenant | Captain | Major | LieutenantColonel | Colonel
| BrigadierGeneral | MajorGeneral | LieutenantGeneral | General
| Civilian.

Definition rank_to_string (r : MilitaryRank) : string :=
  match r with
  | Private => "PVT" | Specialist => "SPC" | Corporal => "CPL" | Sergeant => "SGT"
  | StaffSergeant => "SSG" | SergeantFirstClass => "SFC" | MasterSergeant => "MSG"
  | FirstSergeant => "1SG" | SergeantMajor => "SGM"
  | WarrantOfficer1 => "WO1" | ChiefWarrantOfficer2 => "CW2" | ChiefWarrantOfficer3 => "CW3"
  | ChiefWarrantOfficer4 => "CW4" | ChiefWarrantOfficer5 => "CW5"
  | SecondLieutenant => "2LT" | FirstLieutenant => "1LT" | Captain => "CPT" | Major => "MAJ"
  | LieutenantColonel => "LTC" | Colonel => "COL" | BrigadierGeneral => "BG"
  | MajorGeneral => "MG" | LieutenantGeneral => "LTG" | General => "GEN"
  | Civilian => "CIV"
  end.

Inductive SecurityClearance := Unclassified | Cui | Confidential | Secret | TopSecret | TopSecretSci.

Definition clearance_to_string (c : SecurityClearance) : string :=
  match c with
  | Unclassified => "UNCLASSIFIED" | Cui => "CUI" | Confidential => "CONFIDENTIAL"
  | Secret => "SECRET" | TopSecret => "TOP SECRET" | TopSecretSci => "TS/SCI"
  end.

Record OrganizationUnit := { unit_name : string; unit_parent : option string; uic : option string }.

Definition unit_new (name parent : string) : OrganizationUnit :=
  {| unit_name := name; unit_parent := Some parent; uic := None |}.

Definition top_level (name : string) : OrganizationUnit :=
  {| unit_name := name; unit_parent := None; uic := None |}.

Definition with_uic (u : OrganizationUnit) (code : string) : OrganizationUnit :=
  {| unit_name := unit_name u; unit_parent := unit_parent u; uic := Some code |}.

Definition unit_to_string (u : OrganizationUnit) : string :=
  match unit_parent u with
  | Some parent => unit_name u +:+ ", " +:+ parent
  | None => unit_name u
  end.

Record UserIdentity := {
  id_username : string;
  display_name : string;
  rank : MilitaryRank;
  clearance : SecurityClearance;
  unit_of : OrganizationUnit;
  id_roles : gset Role
}.

(** The builder; the display name defaults to the user name. *)
Record UserIdentityBuilder := {
  b_username : string;
  b_display_name : option string;
  b_rank : MilitaryRank;
  b_clearance : SecurityClearance;
  b_unit : option OrganizationUnit;
  b_roles : gset Role
}.

Definition builder_new (username : string) : UserIdentityBuilder :=
  {| b_username := username; b_display_name := None; b_rank := Civilian;
     b_clearance := Unclassified; b_unit := None; b_roles := ∅ |}.

Definition builder_display_name (b : UserIdentityBuilder) (name : string) : UserIdentityBuilder :=
  {| b_username := b_username b; b_display_name := Some name; b_rank := b_rank b;
     b_clearance := b_clearance b; b_unit := b_unit b; b_roles := b_roles b |}.

Definition builder_rank (b : UserIdentityBuilder) (r : MilitaryRank) : UserIdentityBuilder :=
  {| b_username := b_username b; b_display_name := b_display_name b; b_rank := r;
     b_clearance := b_clearance b; b_unit := b_unit b; b_roles := b_roles b |}.

Definition builder_clearance (b : UserIdentityBuilder) (c : SecurityClearance) : UserIdentityBuilder :=
  {| b_username := b_username b; b_display_name := b_display_name b; b_rank := b_rank b;
     b_clearance := c; b_unit := b_unit b; b_roles := b_roles b |}.

Definition builder_unit (b : UserIdentityBuilder) (u : OrganizationUnit) : UserIdentityBuilder :=
  {| b_username := b_username b; b_display_name := b_display_name b; b_rank := b_rank b;
     b_clearance := b_clearance b; b_unit := Some u; b_roles := b_roles b |}.

Definition builder_roles (b : UserIdentityBuilder) (rs : list Role) : UserIdentityBuilder :=
  {| b_username := b_username b; b_display_name := b_display_name b; b_rank := b_rank b;
     b_clearance := b_clearance b; b_unit := b_unit b; b_roles := list_to_set rs ∪ b_roles b |}.

Definition builder_role (b : UserIdentityBuilder) (r : Role) : UserIdentityBuilder :=
  builder_roles b [r].

Definition build (b : UserIdentityBuilder) : UserIdentity :=
  {| id_username := b_username b; display_name := default (b_username b) (b_display_name b);
     rank := b_rank b; clearance := b_clearance b;
     unit_of := default (top_level "Unknown") (b_unit b); id_roles := b_roles b |}.

Inductive AccountStatus := Active | Locked | Disabled | Pending.

#[export] Instance AccountStatus_eq_dec : EqDecision AccountStatus.
Proof. solve_decision. Defined.

Inductive AuthMethod :=
| MethodPasswordMfa (password_hash : string) (totp_secret : bytes)
| MethodSmartCard (card_id pin_hash : string)
| MethodCertificate (certificate_fingerprint : string).

Inductive Credential :=
| PasswordMfa (password totp_code : string)
| SmartCard (card_id pin : string)
| Certificate (fingerprint : string).

Record UserRecord := {
  identity : UserIdentity;
  auth_method : AuthMethod;
  status : AccountStatus;
  created_at : Z;
  last_login : option Z;
  failed_attempts : Z
}.

Definition record_name (r : UserRecord) : string := id_username (identity r).

(** ** The user store *)

Class UserStore (St : Type) := {
  get_user : St -> string -> option UserRecord;
  store_user : St -> UserRecord -> result SecurityError unit * St;
  update_user : St -> UserRecord -> result SecurityError unit * St;
  delete_user : St -> string -> result SecurityError unit * St;
  list_users : St -> list string
}.

(** A store keeps one record per user name: storing fails on a known name, updating and
    deleting on an unknown one, and no operation touches another record. *)
Class UserStoreLaws (St : Type) `{UserStore St} := {
  store_ok : St -> Prop;
  get_user_name : forall s u r, store_ok s -> get_user s u = Some r -> record_name r = u;
  store_user_ok : forall s r, store_ok s -> store_ok (snd (store_user s r));
  update_user_ok : forall s r, store_ok s -> store_ok (snd (update_user s r));
  delete_user_ok : forall s u, store_ok s -> store_ok (snd (delete_user s u));
  get_store : forall s r u, get_user (snd (store_user s r)) u =
    if decide (get_user s (record_name r) = None /\ u = record_name r) then Some r else get_user s u;
  store_result : forall s r, fst (store_user s r) =
    match get_user s (record_name r) with
    | Some _ => Err (UserAlreadyExists (record_name r)) | None => Ok tt
    end;
  get_update : forall s r u, get_user (snd (update_user s r)) u =
    if decide (get_user s (record_name r) <> None /\ u = record_name r) then Some r
    else get_user s u;
  update_result : forall s r, fst (update_user s r) =
    match get_user s (record_name r) with
    | Some _ => Ok tt | None => Err (UserNotFound (record_name r))
    end;
  get_delete : forall s u u', get_user (snd (delete_user s u)) u' =
    if decide (u' = u) then None else get_user s u'
}.

Record LocalUserStore := { users : gmap string UserRecord }.

Definition local_new : LocalUserStore := {| users := ∅ |}.

Definition with_users (l : list UserRecord) : LocalUserStore :=
  {| users := fold_left (fun m u => <[record_name u := u]> m) l ∅ |}.

Definition local_get_user (s : LocalUserStore) (username : string) : option UserRecord :=
  users s !! username.

Definition local_store_user (s : LocalUserStore) (r : UserRecord)
    : result SecurityError unit * LocalUserStore :=
  match users s !! record_name r with
  | Some _ => (Err (UserAlreadyExists (record_name r)), s)
  | None => (Ok tt, {| users := <[record_name r := r]> (users s) |})
  end.

Definition local_update_user (s : LocalUserStore) (r : UserRecord)
    : result SecurityError unit * LocalUserStore :=
  match users s !! record_name r with
  | None => (Err (UserNotFound (record_name r)), s)
  | Some _ => (Ok tt, {| users := <[record_name r := r]> (users s) |})
  end.

Definition local_delete_user (s : LocalUserStore) (username : string)
    : result SecurityError unit * LocalUserStore :=
  match users s !! username with
  | None => (Err (UserNotFound username), s)
  | Some _ => (Ok tt, {| users := delete username (users s) |})
  end.

Definition local_list_users (s : LocalUserStore) : list string := (map_to_list (users s)).*1.

#[export] Instance local_user_store : UserStore LocalUserStore := {|
  get_user := local_get_user;
  store_user := local_store_user;
  update_user := local_update_user;
  delete_user := local_delete_user;
  list_users := local_list_users
|}.

(** ** One-time codes *)

(** Argon2 (a parsed hash, its verification, hashing with a salt) and HMAC-SHA256 *)
Class PasswordCrypto := {
  PasswordHash : Type;
  parse_hash : string -> result string PasswordHash;
  verify_password : bytes -> PasswordHash -> bool;
  hash_password : bytes -> string -> result string string;
  hmac_sha256 : bytes -> bytes -> result string bytes
}.

(** A hashed password verifies, and a digest has 32 bytes. *)
Class PasswordCryptoLaws (P : PasswordCrypto) := {
  hash_verifies : forall p salt h, hash_password p salt = Ok h ->
    exists parsed, parse_hash h = Ok parsed /\ verify_password p parsed = true;
  hmac_length : forall key m d, hmac_sha256 key m = Ok d -> length d = 32%nat
}.

(** [format!("{:0width$}", n)] *)
Definition zero_padded (width : nat) (n : Z) : string :=
  String.string_of_list_ascii (repeat "0"%char (width - String.length (pretty n))) +:+ pretty n.

(** The four bytes of the digest from [offset] on, as a 31-bit number *)
Definition truncated (digest : bytes) : option Z :=
  last_byte ← digest !! (length digest - 1)%nat;
  let offset := Z.to_nat (Z.land (u8 last_byte) 0x0f) in
  b0 ← digest !! offset; b1 ← digest !! (offset + 1)%nat;
  b2 ← digest !! (offset + 2)%nat; b3 ← digest !! (offset + 3)%nat;
  Some (Z.lor (Z.lor (Z.lor (Z.shiftl (Z.land (u8 b0) 0x7f) 24) (Z.shiftl (u8 b1) 16))
                (Z.shiftl (u8 b2) 8)) (u8 b3)).

(** The differences of all bytes are or-ed before the result is looked at. *)
Definition constant_time_compare (a b : bytes) : bool :=
  if negb (bool_decide (length a = length b)) then false
  else fold_left (fun acc p => Z.lor acc (Z.lxor (u8 p.1) (u8 p.2))) (zip a b) 0 =? 0.

Section Totp.
Context {P : PasswordCrypto}.

Definition generate_hotp (secret : bytes) (counter : Z) : option (result SecurityError string) :=
  match hmac_sha256 secret (be_bytes 8 counter) with
  | Err e => Some (Err (TotpError ("HMAC error: " +:+ e)))
  | Ok digest =>
    binary ← truncated digest;
    Some (Ok (zero_padded TOTP_CODE_LENGTH (binary mod 10 ^ Z.of_nat TOTP_CODE_LENGTH)))
  end.

Definition before_epoch {A} : result SecurityError A :=
  Err (TotpError "System time before UNIX epoch").

Definition generate_totp (secret : bytes) (now : Z) : option (result SecurityError string) :=
  if now <? 0 then Some before_epoch
  else generate_hotp secret (as_secs now / TOTP_TIME_STEP_SECS).

Fixpoint try_counters (secret : bytes) (code : string) (counters : list Z)
    : option (result SecurityError bool) :=
  match counters with
  | [] => Some (Ok false)
  | c :: counters =>
    r ← generate_hotp secret (as_u64 c);
    match r with
    | Err e => Some (Err e)
    | Ok expected =>
      if constant_time_compare (as_bytes code) (as_bytes expected) then Some (Ok true)
      else try_counters secret code counters
    end
  end.

Definition verify_totp (secret : bytes) (code : string) (now : Z) : option (result SecurityError bool) :=
  if now <? 0 then Some before_epoch
  else
    let counter := as_secs now / TOTP_TIME_STEP_SECS in
    try_counters secret code
      (Z.add counter <$> [- TOTP_CLOCK_DRIFT_STEPS; 0; TOTP_CLOCK_DRIFT_STEPS]).

End Totp.

(** ** Base 32 *)

Definition ALPHABET : list Ascii.ascii :=
  String.list_ascii_of_string "ABCDEFGHIJKLMNOPQRSTUVWXYZ234567".

(** [ALPHABET[index]]: the index has five bits *)
Definition symbol (index : Z) : Ascii.ascii := nth (Z.to_nat index) ALPHABET "A"%char.

(** The inner loop: 12 bits at most are left, so two rounds are enough *)
Fixpoint emit_symbols (fuel : nat) (buffer bits_left : Z) : list Ascii.ascii * Z :=
  match fuel with
  | O => ([], bits_left)
  | S fuel =>
    if 5 <=? bits_left then
      let bits_left := bits_left - 5 in
      let '(out, remaining) := emit_symbols fuel buffer bits_left in
      (symbol (Z.land (Z.shiftr buffer bits_left) 0x1f) :: out, remaining)
    else ([], bits_left)
  end.

Fixpoint encode_bytes (data : bytes) (buffer bits_left : Z) : list Ascii.ascii :=
  match data with
  | [] =>
    if 0 <? bits_left then [symbol (Z.land (as_u64 (Z.shiftl buffer (5 - bits_left))) 0x1f)] else []
  | byte :: data =>
    let buffer := Z.lor (as_u64 (Z.shiftl buffer 8)) (u8 byte) in
    let '(out, bits_left) := emit_symbols 2 buffer (bits_left + 8) in
    out ++ encode_bytes data buffer bits_left
  end.

Definition base32_encode (data : bytes) : string :=
  String.string_of_list_ascii (encode_bytes data 0 0).

(** ** Sessions *)

(** [SystemTime + Duration] panics when the seconds leave [i64]. *)
Definition systemtime_add (t d : Z) : option Z :=
  if decide (as_secs (t + d) < 2 ^ 63) then Some (t + d) else None.

Section Authenticate.
Context {D : DeviceCrypto} {P : PasswordCrypto} {St : Type} `{UserStore St}.

(** A session is known by its random identifier, a 128-bit UUID. *)
Record UserSession := {
  session_id : Z;
  session_identity : UserIdentity;
  session_device : option DeviceId;
  session_created_at : Z;
  session_expires_at : Z
}.

Definition session_is_expired (s : UserSession) (now : Z) : bool := session_expires_at s <? now.

Definition remaining_time (s : UserSession) (now : Z) : option Z :=
  if now <=? session_expires_at s then Some (session_expires_at s - now) else None.

Record UserAuthenticator := {
  user_store : St;
  sessions : gmap Z UserSession;
  session_expiry : Z;
  max_failed_attempts : Z
}.

Definition user_authenticator_new (store : St) : UserAuthenticator :=
  {| user_store := store; sessions := ∅;
     session_expiry := DEFAULT_SESSION_EXPIRY_HOURS * 3600 * 1000000000; max_failed_attempts := 5 |}.

Definition with_session_expiry (a : UserAuthenticator) (expiry : Z) : UserAuthenticator :=
  {| user_store := user_store a; sessions := sessions a; session_expiry := expiry;
     max_failed_attempts := max_failed_attempts a |}.

Definition with_max_failed_attempts (a : UserAuthenticator) (max : Z) : UserAuthenticator :=
  {| user_store := user_store a; sessions := sessions a; session_expiry := session_expiry a;
     max_failed_attempts := max |}.

Definition set_store (a : UserAuthenticator) (s : St) : UserAuthenticator :=
  {| user_store := s; sessions := sessions a; session_expiry := session_expiry a;
     max_failed_attempts := max_failed_attempts a |}.

Definition set_sessions (a : UserAuthenticator) (m : gmap Z UserSession) : UserAuthenticator :=
  {| user_store := user_store a; sessions := m; session_expiry := session_expiry a;
     max_failed_attempts := max_failed_attempts a |}.

Definition register_user (a : UserAuthenticator) (_username password : string)
    (identity : UserIdentity) (salt : string) (totp_secret : bytes) (now : Z)
    : result SecurityError string * UserAuthenticator :=
  match hash_password (as_bytes password) salt with
  | Err e => (Err (PasswordHashError e), a)
  | Ok password_hash =>
    let totp_secret_b32 := base32_encode totp_secret in
    let record :=
      {| identity := identity; auth_method := MethodPasswordMfa password_hash totp_secret;
         status := Active; created_at := now; last_login := None; failed_attempts := 0 |} in
    let '(r, s) := store_user (user_store a) record in
    (match r with Ok _ => Ok totp_secret_b32 | Err e => Err e end, set_store a s)
  end.

Definition check_status (user : UserRecord) (username : string) : result SecurityError unit :=
  match status user with
  | Locked => Err (AccountLocked username)
  | Disabled => Err (AccountDisabled username)
  | Pending => Err (AccountPending username)
  | Active => Ok tt
  end.

Definition verify_credentials (m : AuthMethod) (c : Credential) (now : Z)
    : option (result SecurityError bool) :=
  match m, c with
  | MethodPasswordMfa password_hash totp_secret, PasswordMfa password totp_code =>
    match parse_hash password_hash with
    | Err e => Some (Err (PasswordHashError e))
    | Ok parsed_hash =>
      if negb (verify_password (as_bytes password) parsed_hash) then Some (Ok false)
      else
        r ← verify_totp totp_secret totp_code now;
        Some (match r with
              | Err e => Err e
              | Ok false => Err InvalidMfaCode
              | Ok true => Ok true
              end)
    end
  | MethodSmartCard stored_id pin_hash, SmartCard card_id pin =>
    if negb (bool_decide (stored_id = card_id)) then Some (Ok false)
    else match parse_hash pin_hash with
         | Err e => Some (Err (PasswordHashError e))
         | Ok parsed_hash => Some (Ok (verify_password (as_bytes pin) parsed_hash))
         end
  | MethodCertificate stored_fp, Certificate fingerprint =>
    Some (Ok (bool_decide (stored_fp = fingerprint)))
  | _, _ => Some (Err (UnsupportedAuthMethod "mismatched auth method and credential"))
  end.

(** [failed_attempts += 1] on [u32], with the lock at the limit *)
Definition failed_record (a : UserAuthenticator) (user : UserRecord) : option UserRecord :=
  if decide (failed_attempts user + 1 < u32_modulus) then
    let n := failed_attempts user + 1 in
    Some {| identity := identity user; auth_method := auth_method user;
            status := if max_failed_attempts a <=? n then Locked else status user;
            created_at := created_at user; last_login := last_login user; failed_attempts := n |}
  else None.

(** [let _ = self.user_store.update_user(user)]: the result is dropped. *)
Definition fail_attempt (a : UserAuthenticator) (user : UserRecord) (username : string)
    : option (result SecurityError UserSession * UserAuthenticator) :=
  user ← failed_record a user;
  Some (Err (InvalidCredential username), set_store a (snd (update_user (user_store a) user))).

Definition logged_in (user : UserRecord) (now : Z) : UserRecord :=
  {| identity := identity user; auth_method := auth_method user; status := status user;
     created_at := created_at user; last_login := Some now; failed_attempts := 0 |}.

(** [login] is the clock of the last login, [now] that of the session. *)
Definition open_session (a : UserAuthenticator) (user : UserRecord) (uuid login now : Z)
    : option (result SecurityError UserSession * UserAuthenticator) :=
  let user := logged_in user login in
  let a := set_store a (snd (update_user (user_store a) user)) in
  expires_at ← systemtime_add now (session_expiry a);
  let session :=
    {| session_id := uuid; session_identity := identity user; session_device := None;
       session_created_at := now; session_expires_at := expires_at |} in
  Some (Ok session, set_sessions a (<[session_id session := session]> (sessions a))).

Definition authenticate (a : UserAuthenticator) (username : string) (credential : Credential)
    (uuid totp_clock login now : Z) : option (result SecurityError UserSession * UserAuthenticator) :=
  match get_user (user_store a) username with
  | None => Some (Err (UserNotFound username), a)
  | Some user =>
    match check_status user username with
    | Err e => Some (Err e, a)
    | Ok _ =>
      verified ← verify_credentials (auth_method user) credential totp_clock;
      match verified with
      | Err e => Some (Err e, a)
      | Ok false => fail_attempt a user username
      | Ok true => open_session a user uuid login now
      end
    end
  end.

Definition authenticate_password_only (a : UserAuthenticator) (username password : string)
    (uuid login now : Z) : option (result SecurityError UserSession * UserAuthenticator) :=
  match get_user (user_store a) username with
  | None => Some (Err (UserNotFound username), a)
  | Some user =>
    match check_status user username with
    | Err e => Some (Err e, a)
    | Ok _ =>
      match auth_method user with
      | MethodPasswordMfa password_hash _ =>
        match parse_hash password_hash with
        | Err e => Some (Err (PasswordHashError e), a)
        | Ok parsed_hash =>
          if negb (verify_password (as_bytes password) parsed_hash)
          then fail_attempt a user username
          else open_session a user uuid login now
        end
      | _ => Some (Err (UnsupportedAuthMethod "non-password"), a)
      end
    end
  end.

Definition invalidate_session (a : UserAuthenticator) (id : Z) : UserAuthenticator :=
  set_sessions a (delete id (sessions a)).

Definition invalidate_user_sessions (a : UserAuthenticator) (username : string) : UserAuthenticator :=
  set_sessions a (filter (fun p => id_username (session_identity p.2) <> username) (sessions a)).

Definition validate_session (a : UserAuthenticator) (id now : Z)
    : result SecurityError UserIdentity * UserAuthenticator :=
  match sessions a !! id with
  | None => (Err SessionNotFound, a)
  | Some session =>
    if session_is_expired session now then (Err SessionExpired, invalidate_session a id)
    else (Ok (session_identity session), a)
  end.

Definition get_session (a : UserAuthenticator) (id : Z) : option UserSession := sessions a !! id.

Definition cleanup_expired_sessions (a : UserAuthenticator) (now : Z) : UserAuthenticator :=
  set_sessions a (filter (fun p => now < session_expires_at p.2) (sessions a)).

Definition active_session_count (a : UserAuthenticator) : Z := Z.of_nat (size (sessions a)).

Definition bind_session_to_device (a : UserAuthenticator) (id : Z) (device : DeviceId)
    : result SecurityError unit * UserAuthenticator :=
  match sessions a !! id with
  | None => (Err SessionNotFound, a)
  | Some s =>
    (Ok tt, set_sessions a (<[id := {| session_id := session_id s;
       session_identity := session_identity s; session_device := Some device;
       session_created_at := session_created_at s;
       session_expires_at := session_expires_at s |}]> (sessions a)))
  end.

Definition with_status (user : UserRecord) (st : AccountStatus) (attempts : Z) : UserRecord :=
  {| identity := identity user; auth_method := auth_method user; status := st;
     created_at := created_at user; last_login := last_login user; failed_attempts := attempts |}.

Definition unlock_account (a : UserAuthenticator) (username : string)
    : result SecurityError unit * UserAuthenticator :=
  match get_user (user_store a) username with
  | None => (Err (UserNotFound username), a)
  | Some user =>
    let '(r, s) := update_user (user_store a) (with_status user Active 0) in (r, set_store a s)
  end.

Definition disable_account (a : UserAuthenticator) (username : string)
    : result SecurityError unit * UserAuthenticator :=
  match get_user (user_store a) username with
  | None => (Err (UserNotFound username), a)
  | Some user =>
    let '(r, s) := update_user (user_store a) (with_status user Disabled (failed_attempts user)) in
    let a := set_store a s in
    match r with
    | Err e => (Err e, a)
    | Ok _ => (Ok tt, invalidate_user_sessions a username)
    end
  end.

Definition with_method (user : UserRecord) (m : AuthMethod) : UserRecord :=
  {| identity := identity user; auth_method := m; status := status user;
     created_at := created_at user; last_login := last_login user;
     failed_attempts := failed_attempts user |}.

Definition change_password (a : UserAuthenticator) (user_name old_password new_password salt : string)
    : result SecurityError unit * UserAuthenticator :=
  match get_user (user_store a) user_name with
  | None => (Err (UserNotFound user_name), a)
  | Some user =>
    match auth_method user with
    | MethodPasswordMfa password_hash totp_secret =>
      match parse_hash password_hash with
      | Err e => (Err (PasswordHashError e), a)
      | Ok parsed_hash =>
        if negb (verify_password (as_bytes old_password) parsed_hash)
        then (Err (InvalidCredential user_name), a)
        else match hash_password (as_bytes new_password) salt with
             | Err e => (Err (PasswordHashError e), a)
             | Ok new_hash =>
               let '(r, s) := update_user (user_store a)
                 (with_method user (MethodPasswordMfa new_hash totp_secret)) in
               let a := set_store a s in
               match r with
               | Err e => (Err e, a)
               | Ok _ => (Ok tt, invalidate_user_sessions a user_name)
               end
             end
      end
    | _ => (Err (UnsupportedAuthMethod "non-password"), a)
    end
  end.

End Authenticate.

(** ** The comparison and the codes *)

Lemma lor_eq_0 a b : 0 <= a -> 0 <= b -> Z.lor a b = 0 <-> a = 0 /\ b = 0.
Proof. intros. rewrite Z.lor_eq_0_iff. tauto. Qed.

Lemma differences_spec (l : list (byte * byte)) acc :
  0 <= acc ->
  0 <= fold_left (fun acc p => Z.lor acc (Z.lxor (u8 p.1) (u8 p.2))) l acc /\
  (fold_left (fun acc p => Z.lor acc (Z.lxor (u8 p.1) (u8 p.2))) l acc = 0 <->
   acc = 0 /\ Forall (fun p => p.1 = p.2) l).
Proof.
  revert acc; induction l as [|[x y] l IH]; intros acc Ha; cbn [fold_left fst snd].
  - split; [done|]. split; [done|]. by intros [? _].
  - pose proof (u8_range x). pose proof (u8_range y).
    assert (0 <= Z.lxor (u8 x) (u8 y)) as Hx by (apply Z.lxor_nonneg; lia).
    destruct (IH (Z.lor acc (Z.lxor (u8 x) (u8 y)))) as [H1 ->]; [by apply Z.lor_nonneg|].
    split; [done|]. rewrite Z.lor_eq_0_iff, Z.lxor_eq_0_iff, Forall_cons. cbn [fst snd].
    split; [intros [[? ?%u8_inj] ?]|intros [? [-> ?]]]; done.
Qed.

Lemma zip_equal (a b : bytes) :
  length a = length b -> Forall (fun p => p.1 = p.2) (zip a b) <-> a = b.
Proof.
  revert b; induction a as [|x a IH]; intros [|y b] Hl; simpl in *; try done.
  rewrite Forall_cons, IH by lia. cbn. split; [by intros [-> ->]|by intros [= -> ->]].
Qed.

Lemma constant_time_compare_spec a b : constant_time_compare a b = bool_decide (a = b).
Proof.
  unfold constant_time_compare. case_bool_decide as Hl; simpl.
  - apply eq_true_iff_eq. rewrite Z.eqb_eq, bool_decide_eq_true.
    destruct (differences_spec (zip a b) 0) as [_ ->]; [done|]. rewrite zip_equal by done. tauto.
  - symmetry. apply bool_decide_eq_false_2. by intros ->.
Qed.

Lemma truncated_total digest :
  length digest = 32%nat -> exists b, truncated digest = Some b /\ 0 <= b.
Proof.
  intros Hl. unfold truncated. rewrite Hl.
  destruct (lookup_lt_is_Some_2 digest (32 - 1)) as [last ->]; [lia|]. cbn [mbind option_bind].
  set (off := Z.to_nat _). assert (off < 16)%nat as Ho.
  { subst off. change 0x0f with (Z.ones 4). rewrite Z.land_ones by lia.
    pose proof (Z.mod_pos_bound (u8 last) (2 ^ 4)). lia. }
  destruct (lookup_lt_is_Some_2 digest off) as [b0 ->]; [lia|]. cbn [mbind option_bind].
  destruct (lookup_lt_is_Some_2 digest (off + 1)) as [b1 ->]; [lia|]. cbn [mbind option_bind].
  destruct (lookup_lt_is_Some_2 digest (off + 2)) as [b2 ->]; [lia|]. cbn [mbind option_bind].
  destruct (lookup_lt_is_Some_2 digest (off + 3)) as [b3 ->]; [lia|]. cbn [mbind option_bind].
  eexists. split; [done|]. pose proof (u8_range b1). pose proof (u8_range b2). pose proof (u8_range b3).
  rewrite !Z.lor_nonneg, !Z.shiftl_nonneg, Z.land_nonneg. lia.
Qed.

Lemma pretty_N_go_length k x s :
  (x < 10 ^ N.of_nat k)%N -> (String.length (pretty_N_go x s) <= k + String.length s)%nat.
Proof.
  revert x s; induction k as [|k IH]; intros x s Hx.
  - assert (x = 0%N) as -> by (simpl in Hx; lia). by rewrite pretty_N_go_0.
  - destruct (decide (x = 0%N)) as [->|Hne]; [rewrite pretty_N_go_0; lia|].
    rewrite pretty_N_go_step by lia. etrans; [apply IH|simpl; lia].
    rewrite Nat2N.inj_succ, N.pow_succ_r' in Hx. apply N.Div0.div_lt_upper_bound. lia.
Qed.

Lemma pretty_Z_length k z :
  (0 < k)%nat -> 0 <= z < 10 ^ Z.of_nat k -> (String.length (pretty z) <= k)%nat.
Proof.
  intros Hk [H0 H1]. destruct z as [|p|p]; [by simpl; lia| |lia].
  change (pretty (Z.pos p)) with (pretty (N.pos p)).
  change (pretty (N.pos p)) with (if decide (N.pos p = 0%N) then "0" else pretty_N_go (N.pos p) "").
  rewrite decide_False by done.
  pose proof (pretty_N_go_length k (N.pos p) "") as H. simpl in H. rewrite Nat.add_0_r in H.
  apply H. apply N2Z.inj_lt. rewrite N2Z.inj_pow, nat_N_Z. exact H1.
Qed.

Lemma length_append a b : String.length (a +:+ b) = (String.length a + String.length b)%nat.
Proof.
  induction a as [|x a IH]; [done|].
  change (S (String.length (a +:+ b)) = S (String.length a + String.length b)). by rewrite IH.
Qed.

Lemma length_string_of_list l : String.length (String.string_of_list_ascii l) = length l.
Proof. induction l as [|x l IH]; [done|]. cbn. f_equal. apply IH. Qed.

Section TotpLemmas.
Context {P : PasswordCrypto} {PL : PasswordCryptoLaws P}.

(** A one-time code never panics; it is an error of the HMAC, or six characters. *)
Lemma generate_hotp_total secret counter :
  exists r, generate_hotp secret counter = Some r /\
    match r with
    | Ok code => String.length code = 6%nat
    | Err e => exists m, hmac_sha256 secret (be_bytes 8 counter) = Err m /\ e = TotpError ("HMAC error: " +:+ m)
    end.
Proof.
  unfold generate_hotp. destruct (hmac_sha256 secret (be_bytes 8 counter)) as [d|m] eqn:E;
    [|eexists; split; [done|by exists m]].
  apply hmac_length in E. destruct (truncated_total d E) as (b & -> & Hb). cbn [mbind option_bind].
  eexists. split; [done|]. unfold zero_padded, TOTP_CODE_LENGTH.
  rewrite length_append, length_string_of_list, repeat_length.
  pose proof (pretty_Z_length 6 (b mod 10 ^ Z.of_nat 6)) as H.
  pose proof (Z.mod_pos_bound b (10 ^ Z.of_nat 6)). lia.
Qed.

(** The code of a counter *)
Definition code_of (secret : bytes) (counter : Z) (code : string) : Prop :=
  generate_hotp secret (as_u64 counter) = Some (Ok code).

Lemma try_counters_spec secret code counters :
  (forall m, exists d, hmac_sha256 secret m = Ok d) ->
  exists b, try_counters secret code counters = Some (Ok b) /\
    (b = true <-> exists c, c ∈ counters /\ code_of secret c code).
Proof.
  intros Hok. induction counters as [|c counters IH]; cbn [try_counters].
  { exists false. split; [done|]. split; [done|]. intros (c & Hc & _). by apply not_elem_of_nil in Hc. }
  destruct (generate_hotp_total secret (as_u64 c)) as ([expected|e] & E & H); rewrite E; cbn [mbind option_bind].
  2: { destruct H as (m & Hm & _). destruct (Hok (be_bytes 8 (as_u64 c))) as [d Hd]. congruence. }
  rewrite constant_time_compare_spec. case_bool_decide as Hc.
  - apply as_bytes_inj in Hc as ->. exists true. split; [done|]. split; [|done]. intros _.
    exists c. split; [by left|]. done.
  - destruct IH as (b & -> & Hb). exists b. split; [done|]. rewrite Hb.
    setoid_rewrite elem_of_cons. split; [intros (c' & ? & ?); eauto|]. intros (c' & [->|?] & Hcode); [|eauto].
    unfold code_of in Hcode. rewrite E in Hcode. by injection Hcode as ->.
Qed.

(** A one-time code is accepted exactly when it is the six-character code of the
    current 30-second step or of one of its neighbours; checking it never panics, and
    the comparison that runs over all bytes decides equality. *)
Theorem verify_totp_spec secret code now :
  0 <= now -> (forall m, exists d, hmac_sha256 secret m = Ok d) ->
  let counter := as_secs now / TOTP_TIME_STEP_SECS in
  exists b, verify_totp secret code now = Some (Ok b) /\
    (b = true <-> exists d, -1 <= d <= 1 /\ code_of secret (counter + d) code) /\
    (b = true -> String.length code = 6%nat).
Proof.
  intros H0 Hok counter. unfold verify_totp. rewrite (proj2 (Z.ltb_ge _ _)) by done. fold counter.
  destruct (try_counters_spec secret code
    (Z.add counter <$> [- TOTP_CLOCK_DRIFT_STEPS; 0; TOTP_CLOCK_DRIFT_STEPS])) as (b & -> & Hb); [done|].
  exists b. split; [done|]. rewrite Hb. unfold TOTP_CLOCK_DRIFT_STEPS. split.
  - split.
    + intros (c & Hc & Hcode). apply list_elem_of_fmap in Hc as (d & -> & Hd).
      exists d. split; [|done]. apply list_elem_of_In in Hd. simpl in Hd. lia.
    + intros (d & Hd & Hcode). exists (counter + d). split; [|done]. apply list_elem_of_fmap.
      exists d. split; [done|]. apply list_elem_of_In. simpl. lia.
  - intros (c & _ & Hcode). unfold code_of in Hcode.
    destruct (generate_hotp_total secret (as_u64 c)) as (r & E & H). rewrite E in Hcode.
    by injection Hcode as ->.
Qed.

End TotpLemmas.

(** ** Base 32 *)

(** The [n] low bits of [x], the most significant first, and back *)
Fixpoint bits_of (n : nat) (x : Z) : list bool :=
  match n with
  | O => []
  | S n => Z.testbit x (Z.of_nat n) :: bits_of n x
  end.

Definition bits_to_Z (l : list bool) : Z := fold_left (fun acc b => 2 * acc + Z.b2z b) l 0.

Definition data_bits (data : bytes) : list bool := concat (bits_of 8 ∘ u8 <$> data).

(** RFC 4648: groups of five bits, the last one filled up with zeros *)
Fixpoint base32_bits (l : list bool) : list ascii :=
  match l with
  | [] => []
  | b0 :: b1 :: b2 :: b3 :: b4 :: l => symbol (bits_to_Z [b0; b1; b2; b3; b4]) :: base32_bits l
  | l => [symbol (bits_to_Z (l ++ repeat false (5 - length l)))]
  end.

Lemma length_bits_of n x : length (bits_of n x) = n.
Proof. induction n; simpl; [done|by f_equal]. Qed.

Lemma bits_of_app n m x : bits_of (n + m) x = bits_of n (Z.shiftr x (Z.of_nat m)) ++ bits_of m x.
Proof.
  induction n as [|n IH]; [done|]. cbn [Nat.add bits_of app]. f_equal; [|done].
  rewrite Z.shiftr_spec by lia. f_equal. lia.
Qed.

Lemma bits_of_ext n x y :
  (forall i, 0 <= i < Z.of_nat n -> Z.testbit x i = Z.testbit y i) -> bits_of n x = bits_of n y.
Proof.
  induction n as [|n IH]; intros H; [done|]. cbn [bits_of]. f_equal; [apply H; lia|].
  apply IH. intros. apply H. lia.
Qed.

Lemma fold_bits_of n x acc :
  fold_left (fun acc b => 2 * acc + Z.b2z b) (bits_of n x) acc =
  acc * 2 ^ Z.of_nat n + x mod 2 ^ Z.of_nat n.
Proof.
  revert acc; induction n as [|n IH]; intros acc; cbn [bits_of fold_left].
  - rewrite Z.mod_1_r. simpl. lia.
  - rewrite IH, Z.testbit_spec' by lia. rewrite Nat2Z.inj_succ, Z.pow_succ_r by lia.
    assert (0 < 2 ^ Z.of_nat n) as Hp by (apply Z.pow_pos_nonneg; lia).
    rewrite (Z.mul_comm 2 (2 ^ Z.of_nat n)), (Z.rem_mul_r x) by lia. lia.
Qed.

Lemma bits_to_Z_bits_of n x : bits_to_Z (bits_of n x) = x mod 2 ^ Z.of_nat n.
Proof. unfold bits_to_Z. rewrite fold_bits_of. lia. Qed.

Lemma index_bits x : Z.land x 0x1f = bits_to_Z (bits_of 5 x).
Proof. rewrite bits_to_Z_bits_of. change 0x1f with (Z.ones 5). by rewrite Z.land_ones. Qed.

Lemma emit_symbols_spec fuel buffer left (X : list bool) :
  0 <= left < 5 * (Z.of_nat fuel + 1) ->
  let '(out, remaining) := emit_symbols fuel buffer left in
  0 <= remaining < 5 /\
  base32_bits (bits_of (Z.to_nat left) buffer ++ X) =
  out ++ base32_bits (bits_of (Z.to_nat remaining) buffer ++ X).
Proof.
  revert left; induction fuel as [|fuel IH]; intros left Hl; cbn [emit_symbols];
    [split; [lia|done]|].
  destruct (Z.leb_spec 5 left) as [H5|H5]; [|split; [lia|done]].
  specialize (IH (left - 5)). destruct (emit_symbols fuel buffer (left - 5)) as [out remaining].
  destruct IH as [Hr IH]; [lia|]. split; [done|].
  replace (Z.to_nat left) with (5 + Z.to_nat (left - 5))%nat by lia.
  rewrite bits_of_app, index_bits, Z2Nat.id by lia. cbn [app]. rewrite <- IH.
  by rewrite <- app_assoc.
Qed.

Lemma testbit_u8_high b i : 8 <= i -> Z.testbit (u8 b) i = false.
Proof.
  intros Hi. pose proof (u8_range b). rewrite <- (Z.mod_small (u8 b) (2 ^ 8)) by done.
  apply Z.mod_pow2_bits_high. lia.
Qed.

Lemma testbit_shifted buffer k i :
  0 <= k -> 0 <= i < 64 -> Z.testbit (as_u64 (Z.shiftl buffer k)) i = Z.testbit buffer (i - k).
Proof.
  intros Hk Hi. unfold as_u64, u64_modulus. rewrite Z.mod_pow2_bits_low by lia.
  by rewrite Z.shiftl_spec by lia.
Qed.

Lemma bits_of_next_byte buffer left b :
  0 <= left < 5 ->
  bits_of (Z.to_nat (left + 8)) (Z.lor (as_u64 (Z.shiftl buffer 8)) (u8 b)) =
  bits_of (Z.to_nat left) buffer ++ bits_of 8 (u8 b).
Proof.
  intros Hl. rewrite Z2Nat.inj_add by lia. change (Z.to_nat 8) with 8%nat. rewrite bits_of_app.
  f_equal; apply bits_of_ext; intros i Hi.
  - rewrite Z.shiftr_spec, Z.lor_spec, testbit_shifted, testbit_u8_high, orb_false_r by lia.
    f_equal. lia.
  - rewrite Z.lor_spec, testbit_shifted by lia. by rewrite Z.testbit_neg_r by lia.
Qed.

Lemma bits_of_padded buffer left :
  0 < left < 5 ->
  bits_of 5 (as_u64 (Z.shiftl buffer (5 - left))) =
  bits_of (Z.to_nat left) buffer ++ repeat false (5 - Z.to_nat left).
Proof.
  intros Hl. replace 5%nat with (Z.to_nat left + (5 - Z.to_nat left))%nat at 1 by lia.
  rewrite bits_of_app. f_equal.
  - apply bits_of_ext. intros i Hi. rewrite Z.shiftr_spec, testbit_shifted by lia. f_equal. lia.
  - assert (forall n, (n <= 5 - Z.to_nat left)%nat ->
      bits_of n (as_u64 (Z.shiftl buffer (5 - left))) = repeat false n) as H; [|by apply H].
    induction n as [|n IH]; intros Hn; [done|]. cbn [bits_of repeat]. rewrite IH by lia.
    rewrite testbit_shifted, Z.testbit_neg_r by lia. done.
Qed.

Lemma base32_bits_short (l : list bool) :
  (0 < length l < 5)%nat -> base32_bits l = [symbol (bits_to_Z (l ++ repeat false (5 - length l)))].
Proof.
  intros Hl. destruct l as [|b0 [|b1 [|b2 [|b3 [|b4 l]]]]]; simpl in Hl; try lia; done.
Qed.

Lemma encode_bytes_spec data buffer left :
  0 <= left < 5 ->
  encode_bytes data buffer left = base32_bits (bits_of (Z.to_nat left) buffer ++ data_bits data).
Proof.
  revert buffer left; induction data as [|b data IH]; intros buffer left Hl; cbn [encode_bytes].
  - rewrite app_nil_r. destruct (Z.ltb_spec 0 left).
    + rewrite index_bits, bits_of_padded, base32_bits_short, length_bits_of
        by (rewrite ?length_bits_of; lia). done.
    + assert (left = 0) as -> by lia. done.
  - set (nb := Z.lor _ _).
    pose proof (emit_symbols_spec 2 nb (left + 8) (data_bits data)) as HE.
    destruct (emit_symbols 2 nb (left + 8)) as [out remaining]. destruct HE as [Hr HE]; [lia|].
    rewrite IH by done. rewrite <- HE. unfold nb. rewrite bits_of_next_byte by done.
    by rewrite <- app_assoc.
Qed.

(** A decoder: the value of each symbol, then bytes of eight bits *)
Definition symbol_value (c : ascii) : Z :=
  match list_find (fun x => x = c) ALPHABET with Some (i, _) => Z.of_nat i | None => 0 end.

Fixpoint bytes_of_bits (l : list bool) : bytes :=
  match l with
  | b0 :: b1 :: b2 :: b3 :: b4 :: b5 :: b6 :: b7 :: l =>
    as_u8 (bits_to_Z [b0; b1; b2; b3; b4; b5; b6; b7]) :: bytes_of_bits l
  | _ => []
  end.

Definition base32_decode (s : string) : bytes :=
  bytes_of_bits (concat (bits_of 5 ∘ symbol_value <$> String.list_ascii_of_string s)).

Lemma symbol_value_bits b0 b1 b2 b3 b4 :
  bits_of 5 (symbol_value (symbol (bits_to_Z [b0; b1; b2; b3; b4]))) = [b0; b1; b2; b3; b4].
Proof. by destruct b0, b1, b2, b3, b4. Qed.

Lemma decoded_bits l :
  exists pad, concat (bits_of 5 ∘ symbol_value <$> base32_bits l) = l ++ pad /\ (length pad < 5)%nat.
Proof.
  induction l as [l IH] using (induction_ltof1 _ length). unfold ltof in IH.
  destruct l as [|b0 [|b1 [|b2 [|b3 [|b4 l]]]]].
  - exists []. simpl. split; [done|lia].
  - exists [false; false; false; false]. split; [|simpl; lia]. by destruct b0.
  - exists [false; false; false]. split; [|simpl; lia]. by destruct b0, b1.
  - exists [false; false]. split; [|simpl; lia]. by destruct b0, b1, b2.
  - exists [false]. split; [|simpl; lia]. by destruct b0, b1, b2, b3.
  - destruct (IH l) as (pad & E & Hp); [simpl; lia|]. exists pad. split; [|done].
    cbn [base32_bits fmap list_fmap concat]. unfold compose at 1.
    rewrite symbol_value_bits. cbn [app]. by rewrite <- E.
Qed.

Lemma bytes_of_data_bits data pad : (length pad < 8)%nat -> bytes_of_bits (data_bits data ++ pad) = data.
Proof.
  intros Hp. induction data as [|b data IH].
  - by destruct pad as [|? [|? [|? [|? [|? [|? [|? [|? ?]]]]]]]]; simpl in *; try lia.
  - assert (data_bits (b :: data) ++ pad = bits_of 8 (u8 b) ++ (data_bits data ++ pad)) as ->.
    { unfold data_bits. cbn [fmap list_fmap concat]. by rewrite <- app_assoc. }
    assert (forall l, bytes_of_bits (bits_of 8 (u8 b) ++ l) =
      as_u8 (bits_to_Z (bits_of 8 (u8 b))) :: bytes_of_bits l) as -> by done.
    rewrite IH, bits_to_Z_bits_of, Z.mod_small by apply u8_range. by rewrite as_u8_u8.
Qed.

(** The base-32 text of a secret is the RFC 4648 encoding of its bits (groups of five,
    the last one filled up with zeros), although the buffer shifts old bits out of 64, and
    an authenticator application that decodes it gets the secret back. *)
Theorem base32_encode_correct data :
  base32_encode data = String.string_of_list_ascii (base32_bits (data_bits data)) /\
  base32_decode (base32_encode data) = data.
Proof.
  assert (encode_bytes data 0 0 = base32_bits (data_bits data)) as E by by apply encode_bytes_spec.
  unfold base32_encode. rewrite E. split; [done|]. unfold base32_decode.
  rewrite String.list_ascii_of_string_of_list_ascii.
  destruct (decoded_bits (data_bits data)) as (pad & -> & Hp). apply bytes_of_data_bits. lia.
Qed.

(** ** The local store obeys the laws *)

Definition local_ok (s : LocalUserStore) : Prop := forall u r, users s !! u = Some r -> record_name r = u.

Lemma insert_ok (m : gmap string UserRecord) r :
  (forall u r, m !! u = Some r -> record_name r = u) ->
  forall u r', <[record_name r := r]> m !! u = Some r' -> record_name r' = u.
Proof. intros Hm u r'. rewrite lookup_insert_Some. intros [[<- <-]|[_ ?]]; [done|by apply Hm]. Qed.

#[export] Instance local_user_store_laws : UserStoreLaws LocalUserStore.
Proof.
  refine {| store_ok := local_ok |}.
  - intros s u r Hs. apply Hs.
  - intros s r Hs. cbn. unfold local_store_user. destruct (users s !! record_name r); [done|].
    intros name r'. by apply insert_ok.
  - intros s r Hs. cbn. unfold local_update_user. destruct (users s !! record_name r); [|done].
    intros name r'. by apply insert_ok.
  - intros s u Hs. cbn. unfold local_delete_user. destruct (users s !! u) as [old|]; [|done].
    intros u' r'. cbn. intros [_ H]%lookup_delete_Some. by apply Hs.
  - intros s r u. cbn. unfold local_store_user, local_get_user.
    destruct (users s !! record_name r) eqn:E; cbn; [by rewrite decide_False by naive_solver|].
    case_decide as Hu; [destruct Hu as [_ ->]; by rewrite lookup_insert_eq|].
    rewrite lookup_insert_ne; [done|]. naive_solver.
  - intros s r. cbn. unfold local_store_user, local_get_user. by destruct (users s !! record_name r).
  - intros s r u. cbn. unfold local_update_user, local_get_user.
    destruct (users s !! record_name r) eqn:E; cbn; [|by rewrite decide_False by naive_solver].
    case_decide as Hu; [destruct Hu as [_ ->]; by rewrite lookup_insert_eq|].
    rewrite lookup_insert_ne; [done|]. naive_solver.
  - intros s r. cbn. unfold local_update_user, local_get_user. by destruct (users s !! record_name r).
  - intros s u u'. cbn. unfold local_delete_user, local_get_user.
    destruct (users s !! u) eqn:E; cbn; case_decide; subst.
    * by rewrite lookup_delete_eq.
    * by rewrite lookup_delete_ne.
    * done.
    * done.
Defined.

(** ** Accounts and sessions *)

Section AuthenticateLemmas.
Context {D : DeviceCrypto} {P : PasswordCrypto} {PL : PasswordCryptoLaws P}.
Context {St : Type} `{HS : UserStore St} {SL : UserStoreLaws St}.
Implicit Types (a : UserAuthenticator (St := St)) (user : UserRecord).

Lemma get_update_found s u user user' :
  store_ok s -> get_user s u = Some user -> record_name user' = record_name user ->
  get_user (snd (update_user s user')) u = Some user'.
Proof.
  intros Hs Hu Hn. rewrite get_update, Hn, (get_user_name _ _ _ Hs Hu), Hu. by rewrite decide_True.
Qed.

Lemma update_found s u user user' :
  store_ok s -> get_user s u = Some user -> record_name user' = record_name user ->
  fst (update_user s user') = Ok tt.
Proof. intros Hs Hu Hn. by rewrite update_result, Hn, (get_user_name _ _ _ Hs Hu), Hu. Qed.

Lemma get_update_other s u u' user user' :
  store_ok s -> get_user s u = Some user -> record_name user' = record_name user -> u' <> u ->
  get_user (snd (update_user s user')) u' = get_user s u'.
Proof.
  intros Hs Hu Hn Hne. rewrite get_update, Hn, (get_user_name _ _ _ Hs Hu).
  by rewrite decide_False by (by intros [_ ?]).
Qed.

(** What a granted session looks like, and what the call leaves behind *)
Lemma open_session_inv a user uuid login now s a' :
  open_session a user uuid login now = Some (Ok s, a') ->
  s = {| session_id := uuid; session_identity := identity user; session_device := None;
         session_created_at := now; session_expires_at := now + session_expiry a |} /\
  a' = set_sessions (set_store a (snd (update_user (user_store a) (logged_in user login))))
         (<[uuid := s]> (sessions a)).
Proof.
  unfold open_session, systemtime_add. cbn [session_expiry set_store]. case_decide; [|done].
  cbn [mbind option_bind]. intros E. injection E as <- <-. done.
Qed.

Lemma open_session_ok a user uuid login now r a' :
  open_session a user uuid login now = Some (r, a') -> is_ok r = true.
Proof.
  unfold open_session. destruct (systemtime_add _ _); [|done]. by intros [= <- _].
Qed.

(** A session is opened only for an active account whose credential verifies; the
    failed attempts are then forgotten, the session answers with the identity of the
    account up to the moment it expires, and after it with an error that removes it. *)
Theorem authenticated_session a u cred uuid t login now s a' :
  store_ok (user_store a) ->
  authenticate a u cred uuid t login now = Some (Ok s, a') ->
  exists user,
    get_user (user_store a) u = Some user /\ status user = Active /\
    verify_credentials (auth_method user) cred t = Some (Ok true) /\
    get_user (user_store a') u = Some (logged_in user login) /\
    forall later, validate_session a' (session_id s) later =
      if later <=? now + session_expiry a then (Ok (identity user), a')
      else (Err SessionExpired, invalidate_session a' (session_id s)).
Proof.
  intros Hs. unfold authenticate. destruct (get_user (user_store a) u) as [user|] eqn:Eu; [|done].
  unfold check_status. destruct (status user) eqn:Est; try done.
  destruct (verify_credentials (auth_method user) cred t) as [[[]|e]|] eqn:Ev; cbn [mbind option_bind];
    [|unfold fail_attempt; destruct (failed_record a user); done|done..].
  intros Ho. apply open_session_inv in Ho as [-> ->]. exists user. split_and!; [done..| |].
  - cbn. by apply (get_update_found _ u user).
  - intros later. unfold validate_session. cbn [sessions set_sessions session_id].
    rewrite lookup_insert_eq. unfold session_is_expired. cbn [session_expires_at session_identity].
    rewrite Z.ltb_antisym. by destruct (later <=? now + session_expiry a).
Qed.

(** ** Lockout *)

(** Attempts one after the other, with whatever they return *)
Fixpoint attempts a (u : string) (l : list (Credential * Z)) : option (UserAuthenticator (St := St)) :=
  match l with
  | [] => Some a
  | (cred, t) :: l =>
    r ← authenticate a u cred 0 t t t; attempts (snd r) u l
  end.

Definition refuted (m : AuthMethod) (p : Credential * Z) : Prop :=
  verify_credentials m p.1 p.2 = Some (Ok false).

Lemma locked_refuses a u user cred uuid t login now :
  get_user (user_store a) u = Some user -> status user = Locked ->
  authenticate a u cred uuid t login now = Some (Err (AccountLocked u), a).
Proof. intros Hu Hl. unfold authenticate, check_status. by rewrite Hu, Hl. Qed.

Lemma locked_stays a u user l :
  get_user (user_store a) u = Some user -> status user = Locked -> attempts a u l = Some a.
Proof.
  intros Hu Hl. induction l as [|[cred t] l IH]; [done|]. cbn [attempts].
  rewrite (locked_refuses a u user) by done. done.
Qed.

Lemma failed_authenticate a u user cred t :
  store_ok (user_store a) -> get_user (user_store a) u = Some user -> status user = Active ->
  refuted (auth_method user) (cred, t) -> failed_attempts user + 1 < u32_modulus ->
  exists user', authenticate a u cred 0 t t t =
      Some (Err (InvalidCredential u), set_store a (snd (update_user (user_store a) user'))) /\
    record_name user' = record_name user /\ auth_method user' = auth_method user /\
    failed_attempts user' = failed_attempts user + 1 /\
    status user' = if max_failed_attempts a <=? failed_attempts user + 1 then Locked else Active.
Proof.
  intros Hs Hu Ha Hr Hn. unfold authenticate, check_status. rewrite Hu, Ha.
  unfold refuted in Hr. cbn in Hr. rewrite Hr. cbn [mbind option_bind]. unfold fail_attempt, failed_record.
  rewrite decide_True by done. cbn [mbind option_bind]. eexists. split; [done|].
  cbn. rewrite Ha. by destruct (max_failed_attempts a <=? failed_attempts user + 1).
Qed.

(** C22: guessing passwords locks the account: once an active account has been tried with
    as many credentials that are refuted (a wrong password, card, PIN or certificate
    fingerprint for its method) as it may still have, it is locked, and from then on every credential is refused, also the
    right one, without a change to the state. A wrong one-time code with the right password
    is not such a credential ([wrong_codes_are_not_counted]). *)
Theorem lockout a u user l :
  store_ok (user_store a) -> get_user (user_store a) u = Some user -> status user = Active ->
  Forall (refuted (auth_method user)) l -> l <> [] ->
  max_failed_attempts a <= failed_attempts user + len l ->
  failed_attempts user + len l < u32_modulus ->
  exists a' user', attempts a u l = Some a' /\ get_user (user_store a') u = Some user' /\
    status user' = Locked /\
    forall cred uuid t login now,
      authenticate a' u cred uuid t login now = Some (Err (AccountLocked u), a').
Proof.
  intros Hs Hu Ha Hl. revert a user Hs Hu Ha Hl.
  induction l as [|[cred t] l IH]; intros a user Hs Hu Ha Hl Hne Hmax Hu32; [done|].
  apply Forall_cons in Hl as [Hr Hl]. rewrite len_cons in *. pose proof (len_nonneg l).
  destruct (failed_authenticate a u user cred t) as (user' & E & Hn & Hm & Hf & Hst); [done..|lia|].
  cbn [attempts]. rewrite E. cbn [mbind option_bind snd].
  set (a1 := set_store a _).
  assert (get_user (user_store a1) u = Some user') as Hu1 by by apply (get_update_found _ u user).
  destruct (Z.leb_spec (max_failed_attempts a) (failed_attempts user + 1)).
  - exists a1, user'. split_and!; [by apply (locked_stays _ _ user')|done|done|].
    intros. by apply (locked_refuses _ _ user').
  - destruct l as [|p l]; [unfold len in *; simpl in *; lia|].
    apply (IH a1 user'); [by apply update_user_ok|done|done|by rewrite Hm|done|cbn; lia|lia].
Qed.

(** One-time codes can be guessed without a limit. With the right password and a
    wrong code the call returns before the failed attempt is counted: any number of
    guesses leaves the authenticator as it was, and the account active. *)
Theorem wrong_codes_are_not_counted a u user hash secret parsed password guesses :
  get_user (user_store a) u = Some user -> status user = Active ->
  auth_method user = MethodPasswordMfa hash secret ->
  parse_hash hash = Ok parsed -> verify_password (as_bytes password) parsed = true ->
  Forall (fun g => verify_totp secret g.1 g.2 = Some (Ok false)) guesses ->
  attempts a u ((fun g => (PasswordMfa password g.1, g.2)) <$> guesses) = Some a.
Proof.
  intros Hu Ha Hm Hp Hv Hg. induction Hg as [|[code t] guesses Hg _ IH]; [done|].
  cbn [fmap list_fmap attempts]. unfold authenticate, check_status. rewrite Hu, Ha, Hm.
  cbn [verify_credentials fst snd]. rewrite Hp, Hv. cbn [negb fst snd] in *. rewrite Hg.
  cbn [mbind option_bind snd]. exact IH.
Qed.

(** ** Administration *)

Lemma invalidate_user_sessions_spec a u id s :
  get_session (invalidate_user_sessions a u) id = Some s <->
  get_session a id = Some s /\ id_username (session_identity s) <> u.
Proof. unfold get_session, invalidate_user_sessions. cbn. by rewrite map_lookup_filter_Some. Qed.

(** Disabling an account shuts it: no session of the user is left, the sessions of
    the others stay, and no credential opens a new one; but unlocking it, which is meant
    for accounts locked after failed attempts, makes it active again, as it does with an
    account that is still pending. *)
Theorem disable_then_unlock a u user :
  store_ok (user_store a) -> get_user (user_store a) u = Some user ->
  exists a1, disable_account a u = (Ok tt, a1) /\
    (forall id s, get_session a1 id = Some s <->
       get_session a id = Some s /\ id_username (session_identity s) <> u) /\
    (forall cred uuid t login now,
       authenticate a1 u cred uuid t login now = Some (Err (AccountDisabled u), a1)) /\
    exists a2 user', unlock_account a1 u = (Ok tt, a2) /\
      get_user (user_store a2) u = Some user' /\ status user' = Active.
Proof.
  intros Hs Hu. unfold disable_account. rewrite Hu.
  set (dis := with_status user Disabled (failed_attempts user)).
  pose proof (update_found _ u user dis Hs Hu eq_refl) as Hr.
  pose proof (get_update_found _ u user dis Hs Hu eq_refl) as Hg.
  pose proof (update_user_ok _ dis Hs) as Hok.
  destruct (update_user (user_store a) dis) as [r s1]. cbn in Hr, Hg, Hok. subst r.
  eexists. split; [done|]. split; [|split].
  - intros id s. by rewrite invalidate_user_sessions_spec.
  - intros. unfold authenticate, check_status. cbn. by rewrite Hg.
  - unfold unlock_account. cbn. rewrite Hg.
    pose proof (update_found _ u dis (with_status dis Active 0) Hok Hg eq_refl) as Hr'.
    pose proof (get_update_found _ u dis (with_status dis Active 0) Hok Hg eq_refl) as Hg'.
    destruct (update_user s1 (with_status dis Active 0)) as [r' s2]. cbn in Hr', Hg'. subst r'.
    eexists _, _. split_and!; [done|done|done].
Qed.

(** A password change takes effect: all sessions of the user end, those of the others
    stay, and the new password opens a session of the account if it is active. *)
Theorem change_password_effective a u user old new salt a' :
  store_ok (user_store a) -> get_user (user_store a) u = Some user ->
  change_password a u old new salt = (Ok tt, a') ->
  (forall id s, get_session a' id = Some s <->
     get_session a id = Some s /\ id_username (session_identity s) <> u) /\
  (status user = Active -> forall uuid login now,
     as_secs (now + session_expiry a) < 2 ^ 63 ->
     exists s a'', authenticate_password_only a' u new uuid login now = Some (Ok s, a'')).
Proof.
  intros Hs Hu. unfold change_password. rewrite Hu.
  destruct (auth_method user) as [hash secret| |] eqn:Em; [|done..].
  destruct (parse_hash hash) as [parsed|]; [|done]. destruct (verify_password (as_bytes old) parsed); [|done].
  cbn [negb]. destruct (hash_password (as_bytes new) salt) as [h|] eqn:Eh; [|done].
  set (user' := with_method user (MethodPasswordMfa h secret)).
  pose proof (update_found _ u user user' Hs Hu eq_refl) as Hr.
  pose proof (get_update_found _ u user user' Hs Hu eq_refl) as Hg.
  destruct (update_user (user_store a) user') as [r s1]. cbn in Hr, Hg. subst r.
  intros [= <-]. split; [intros; by rewrite invalidate_user_sessions_spec|].
  intros Ha uuid login now Hfit. unfold authenticate_password_only, check_status. cbn. rewrite Hg.
  unfold user'. cbn. rewrite Ha. destruct (hash_verifies _ _ _ Eh) as (parsed' & -> & ->). cbn [negb].
  unfold open_session, systemtime_add. cbn [session_expiry set_store invalidate_user_sessions set_sessions].
  rewrite decide_True by done. by do 2 eexists.
Qed.

End AuthenticateLemmas.

(** ** Invariant of the accounts *)

Section Invariant.
Context {D : DeviceCrypto} {P : PasswordCrypto} {St : Type} `{HS : UserStore St} {SL : UserStoreLaws St}.
Implicit Types (a : UserAuthenticator (St := St)).

Inductive auth_call : UserAuthenticator (St := St) -> UserAuthenticator (St := St) -> Prop :=
| call_register a u p i salt secret now :
    auth_call a (snd (register_user a u p i salt secret now))
| call_authenticate a u cred uuid t login now r a' :
    authenticate a u cred uuid t login now = Some (r, a') -> auth_call a a'
| call_password_only a u p uuid login now r a' :
    authenticate_password_only a u p uuid login now = Some (r, a') -> auth_call a a'
| call_validate a id now : auth_call a (snd (validate_session a id now))
| call_invalidate a id : auth_call a (invalidate_session a id)
| call_invalidate_user a u : auth_call a (invalidate_user_sessions a u)
| call_cleanup a now : auth_call a (cleanup_expired_sessions a now)
| call_bind a id d : auth_call a (snd (bind_session_to_device a id d))
| call_unlock a u : auth_call a (snd (unlock_account a u))
| call_disable a u : auth_call a (snd (disable_account a u))
| call_change_password a u old new salt : auth_call a (snd (change_password a u old new salt)).

(** An active account has failed attempts left. *)
Definition account_ok (max : Z) (r : UserRecord) : Prop :=
  0 <= failed_attempts r /\ (status r = Active -> failed_attempts r < max).

Record authenticator_ok a : Prop := {
  ok_store : store_ok (user_store a);
  ok_accounts : forall u r, get_user (user_store a) u = Some r -> account_ok (max_failed_attempts a) r;
  ok_sessions : forall id s, sessions a !! id = Some s -> session_id s = id;
  ok_max : 0 < max_failed_attempts a
}.

Lemma ok_update a r :
  authenticator_ok a -> account_ok (max_failed_attempts a) r ->
  authenticator_ok (set_store a (snd (update_user (user_store a) r))).
Proof.
  intros [H1 H2 H3 H4] Hr. split; cbn; [by apply update_user_ok| |done|done].
  intros u r'. rewrite get_update. case_decide; [by intros [= <-]|apply H2].
Qed.

Lemma ok_sessions_subset a m :
  authenticator_ok a -> (forall id s, m !! id = Some s -> session_id s = id) ->
  authenticator_ok (set_sessions a m).
Proof. intros [H1 H2 H3 H4] Hm. by split. Qed.

Lemma ok_filter a (Q : Z * UserSession -> Prop) `{!forall x, Decision (Q x)} :
  authenticator_ok a -> authenticator_ok (set_sessions a (filter Q (sessions a))).
Proof.
  intros Ha. apply ok_sessions_subset; [done|]. intros id s [? _]%map_lookup_filter_Some.
  by apply (ok_sessions _ Ha).
Qed.

Lemma ok_fail_attempt a u user username r a' :
  authenticator_ok a -> get_user (user_store a) u = Some user -> status user = Active ->
  fail_attempt a user username = Some (r, a') -> authenticator_ok a'.
Proof.
  intros Ha Hu Hst. unfold fail_attempt, failed_record. case_decide; [|done].
  cbn [mbind option_bind]. intros E. injection E as _ <-. apply ok_update; [done|].
  destruct (ok_accounts _ Ha _ _ Hu) as [H1 H2]. split; cbn; [lia|].
  destruct (Z.leb_spec (max_failed_attempts a) (failed_attempts user + 1)); [done|lia].
Qed.

Lemma ok_open_session a u user uuid login now r a' :
  authenticator_ok a -> get_user (user_store a) u = Some user ->
  open_session a user uuid login now = Some (r, a') -> authenticator_ok a'.
Proof.
  intros Ha Hu. unfold open_session. set (a1 := set_store a _).
  assert (authenticator_ok a1) as Ha1.
  { apply ok_update; [done|]. split; cbn; [done|]. intros. by apply ok_max. }
  destruct (systemtime_add now (session_expiry a1)); [|done]. cbn [mbind option_bind].
  intros E. injection E as _ <-. apply ok_sessions_subset; [done|]. intros id s. cbn.
  rewrite lookup_insert_Some. intros [[<- <-]|[_ ?]]; [done|by apply (ok_sessions _ Ha)].
Qed.


Lemma ok_register a u p i salt secret now :
  authenticator_ok a -> authenticator_ok (snd (register_user a u p i salt secret now)).
Proof.
  intros Ha. unfold register_user. destruct (hash_password _ _); [|done]. set (rec := Build_UserRecord _ _ _ _ _ _).
  pose proof (get_store (user_store a) rec) as Hg. pose proof (store_user_ok _ rec (ok_store _ Ha)) as Hok.
  destruct (store_user (user_store a) rec) as [r s]. cbn in *. destruct Ha as [H1 H2 H3 H4].
  split; cbn; [done| |done|done]. intros v rv. rewrite Hg. case_decide; [|apply H2].
  intros [= <-]. split; cbn; [done|]. by intros _.
Qed.

Lemma ok_change_password a u old new salt :
  authenticator_ok a -> authenticator_ok (snd (change_password a u old new salt)).
Proof.
  intros Ha. unfold change_password. destruct (get_user (user_store a) u) as [user|] eqn:Eu; [|done].
  destruct (auth_method user); [|done..]. destruct (parse_hash _); [|done].
  destruct (verify_password _ _); [|done]. cbn [negb]. destruct (hash_password _ _) as [h|]; [|done].
  pose proof (ok_update a (with_method user (MethodPasswordMfa h totp_secret)) Ha) as Hu.
  pose proof (ok_accounts _ Ha _ _ Eu) as Hok. destruct (update_user _ _) as [[] s].
  - by apply ok_filter, Hu.
  - by apply Hu.
Qed.

Lemma auth_call_ok a a' : auth_call a a' -> authenticator_ok a -> authenticator_ok a'.
Proof.
  destruct 1 as [a u p i salt secret now|a u cred uuid t login now r a' E|a u p uuid login now r a' E
    |a id now|a id|a u|a now|a id d|a u|a u|a u old new salt]; intros Ha.
  - by apply ok_register.
  - unfold authenticate in E. destruct (get_user (user_store a) u) as [user|] eqn:Eu; [|by simplify_eq].
    unfold check_status in E. destruct (status user) eqn:Est; [|by simplify_eq..].
    destruct (verify_credentials _ _ _) as [[[]|e]|]; cbn [mbind option_bind] in E; [| |by simplify_eq|done].
    + by apply (ok_open_session a u user) in E.
    + by apply (ok_fail_attempt a u user) in E.
  - unfold authenticate_password_only in E.
    destruct (get_user (user_store a) u) as [user|] eqn:Eu; [|by simplify_eq].
    unfold check_status in E. destruct (status user) eqn:Est; [|by simplify_eq..].
    destruct (auth_method user); [|by simplify_eq..]. destruct (parse_hash _); [|by simplify_eq].
    destruct (verify_password _ _); cbn [negb] in E.
    + by apply (ok_open_session a u user) in E.
    + by apply (ok_fail_attempt a u user) in E.
  - unfold validate_session. destruct (sessions a !! id); [|done].
    destruct (session_is_expired _ _); [|done]. apply ok_sessions_subset; [done|].
    intros id' s' [_ ?]%lookup_delete_Some. by apply (ok_sessions _ Ha).
  - apply ok_sessions_subset; [done|]. intros id' s' [_ ?]%lookup_delete_Some. by apply (ok_sessions _ Ha).
  - by apply ok_filter.
  - by apply ok_filter.
  - unfold bind_session_to_device. destruct (sessions a !! id) as [s|] eqn:E; [|done].
    apply ok_sessions_subset; [done|]. intros id' s'. rewrite lookup_insert_Some.
    intros [[<- <-]|[_ ?]]; [cbn|]; by apply (ok_sessions _ Ha).
  - unfold unlock_account. destruct (get_user (user_store a) u) as [user|] eqn:Eu; [|done].
    pose proof (ok_update a (with_status user Active 0) Ha) as Hu.
    destruct (update_user _ _) as [r s]. apply Hu. split; cbn; [done|]. intros. by apply ok_max.
  - unfold disable_account. destruct (get_user (user_store a) u) as [user|] eqn:Eu; [|done].
    pose proof (ok_update a (with_status user Disabled (failed_attempts user)) Ha) as Hu.
    destruct (ok_accounts _ Ha _ _ Eu) as [H1 _]. destruct (update_user _ _) as [[] s].
    + apply ok_filter, Hu. split; [done|done].
    + apply Hu. split; [done|done].
  - by apply ok_change_password.
Qed.

(** Whatever sequence of calls is made, an account that is active has failed attempts
    left, no account has a negative number of them, and every session is filed under its
    own identifier. *)
Theorem accounts_invariant a a' u r :
  authenticator_ok a -> rtc auth_call a a' -> get_user (user_store a') u = Some r ->
  0 <= failed_attempts r /\ (status r = Active -> failed_attempts r < max_failed_attempts a') /\
  forall id s, get_session a' id = Some s -> session_id s = id.
Proof.
  intros Ha Hcalls Hu. assert (authenticator_ok a') as Ha'.
  { clear Hu. induction Hcalls as [|a1 a2 a3 Hc _ IH]; [done|]. by apply IH, (auth_call_ok a1). }
  destruct (ok_accounts _ Ha' _ _ Hu) as [H1 H2]. split_and!; [done|done|]. apply (ok_sessions _ Ha').
Qed.

End Invariant.

(** ** Instances *)

Module SampleUsers.

(** Hashes that hide nothing, and a digest that is a polynomial of key and message *)
#[export] Instance toy_passwords : PasswordCrypto := {|
  PasswordHash := string;
  parse_hash h := Ok h;
  verify_password p h := bool_decide (as_bytes h = p);
  hash_password p salt := Ok (String.string_of_list_byte p);
  hmac_sha256 k m := Ok (le_bytes 32 (from_le_bytes k + 31 * from_le_bytes m))
|}.

#[export] Instance toy_passwords_laws : PasswordCryptoLaws toy_passwords.
Proof.
  split.
  - intros p salt h [= <-]. eexists. split; [done|]. apply bool_decide_eq_true_2.
    apply String.list_byte_of_string_of_list_byte.
  - intros k m d [= <-]. apply length_le_bytes.
Qed.

Definition smith : UserIdentity := build (builder_role (builder_new "alpha_6") Commander).

Definition secret : bytes := repeat x11 20.

Definition record : UserRecord :=
  {| identity := smith; auth_method := MethodPasswordMfa "password123" secret; status := Active;
     created_at := 0; last_login := None; failed_attempts := 0 |}.

Definition toy := ToyCrypto.toy_crypto.

Definition station : UserAuthenticator (D := toy) (St := LocalUserStore) :=
  with_max_failed_attempts (user_authenticator_new (with_users [record])) 2.

Lemma station_store_ok : store_ok (user_store station).
Proof. intros u r. cbn. rewrite lookup_insert_Some. by intros [[<- <-]|[_ ?]]. Qed.

Lemma station_user : get_user (user_store station) "alpha_6" = Some record.
Proof. reflexivity. Qed.

(** The clock stands at the step number 1000 *)
Definition clock : Z := 30000 * 1000000000.

Definition code : string := default "" (match generate_totp secret clock with
                                        | Some (Ok c) => Some c | _ => None end).

Lemma verify_totp_spec_witness :
  exists b, verify_totp secret code clock = Some (Ok b) /\
    (b = true <-> exists d, -1 <= d <= 1 /\ code_of secret (as_secs clock / TOTP_TIME_STEP_SECS + d) code) /\
    (b = true -> String.length code = 6%nat).
Proof. apply (verify_totp_spec secret code clock); [vm_compute; discriminate|]. intros m. by eexists. Defined.

Definition login : option (result SecurityError (UserSession (D := toy)) * UserAuthenticator) :=
  authenticate station "alpha_6" (PasswordMfa "password123" code) 77 clock clock clock.

Lemma login_succeeds : exists s a', login = Some (Ok s, a').
Proof.
  assert (match login with Some (r, _) => is_ok r | None => false end = true) as H
    by (vm_compute; reflexivity).
  destruct login as [[[s|e] a']|]; [by exists s, a'|discriminate..].
Qed.

Lemma authenticated_session_witness :
  exists user, get_user (user_store station) "alpha_6" = Some user /\ status user = Active.
Proof.
  destruct login_succeeds as (s & a' & E).
  destruct (authenticated_session station "alpha_6" (PasswordMfa "password123" code) 77 clock clock clock
    s a' station_store_ok E) as (user & Hu & Hst & _).
  exists user. split; assumption.
Defined.

Lemma lockout_witness :
  exists a' user', attempts station "alpha_6"
      [(PasswordMfa "guess" code, clock); (PasswordMfa "guess2" code, clock)] = Some a' /\
    get_user (user_store a') "alpha_6" = Some user' /\ status user' = Locked /\
    forall cred uuid t login now,
      authenticate a' "alpha_6" cred uuid t login now = Some (Err (AccountLocked "alpha_6"), a').
Proof.
  apply (lockout station "alpha_6" record); [apply station_store_ok|reflexivity|reflexivity| |discriminate|..].
  - repeat constructor; reflexivity.
  - vm_compute. discriminate.
  - vm_compute. reflexivity.
Defined.

Lemma wrong_codes_are_not_counted_witness :
  attempts station "alpha_6"
    ((fun g => (PasswordMfa "password123" g.1, g.2)) <$> [("000000", clock); ("000001", clock); ("000002", clock)])
  = Some station.
Proof.
  apply (wrong_codes_are_not_counted (P := toy_passwords) station "alpha_6" record "password123" secret
           ("password123"%string : PasswordHash (PasswordCrypto := toy_passwords)));
    [reflexivity..|].
  repeat constructor; vm_compute; reflexivity.
Defined.

Lemma disable_then_unlock_witness :
  exists a1, disable_account station "alpha_6" = (Ok tt, a1).
Proof.
  destruct (disable_then_unlock station "alpha_6" record station_store_ok eq_refl) as (a1 & H & _).
  exists a1. exact H.
Defined.

Lemma change_password_effective_witness :
  exists s a'', authenticate_password_only
    (snd (change_password station "alpha_6" "password123" "hunter2" "salt")) "alpha_6" "hunter2" 1 0 0 = Some (Ok s, a'').
Proof.
  apply (change_password_effective station "alpha_6" record "password123" "hunter2" "salt");
    [apply station_store_ok|reflexivity|reflexivity|reflexivity|vm_compute; reflexivity].
Defined.

Lemma station_ok : authenticator_ok station.
Proof.
  split; [apply station_store_ok| |done|done].
  intros u r. cbn. unfold local_get_user. cbn. rewrite lookup_insert_Some.
  intros [[<- <-]|[_ ?]]; [|done]. split; cbn; [done|]. by intros _.
Qed.

Lemma accounts_invariant_witness :
  0 <= failed_attempts record /\ (status record = Active -> failed_attempts record < 2) /\
  forall id s, get_session (invalidate_session station 3) id = Some s -> session_id s = id.
Proof.
  apply (accounts_invariant station (invalidate_session station 3) "alpha_6" record);
    [apply station_ok| |reflexivity].
  exact (rtc_once _ _ (call_invalidate station 3)).
Defined.

End SampleUsers.
