(* ===== verification/AuditLog.v ===== *)
(** * Audit logging

    Models peat-protocol/src/security/audit.rs: the entries the security components
    log, and the three loggers. The nine methods of the trait are the requests of the
    type [Request]; both real loggers build the same entry for a request. Taking a
    sequence number and appending the entry are two critical sections of the code, so
    besides the sequential operations there is a step relation in which the calls of
    several threads interleave. chrono's dates and serde's JSON are the class
    [LogFormat]; the outcome of a write to the file is an argument of the call. *)

From S2P Require Import Prelude Bytes Authorization Authenticator.
From stdpp Require Import pretty.
From Stdlib Require Import Ascii.

Open Scope Z_scope.

Inductive AuditEventType :=
| EventAuthentication | EventAuthorization | DataAccess | DataModification | KeyExchange
| CellFormation | LeaderElection | EventSecurityViolation | SessionManagement | EventEncryption.

#[export] Instance AuditEventType_eq_dec : EqDecision AuditEventType.
Proof. solve_decision. Defined.

Definition event_type_to_string (t : AuditEventType) : string :=
  match t with
  | EventAuthentication => "AUTHENTICATION" | EventAuthorization => "AUTHORIZATION"
  | DataAccess => "DATA_ACCESS" | DataModification => "DATA_MODIFICATION"
  | KeyExchange => "KEY_EXCHANGE" | CellFormation => "CELL_FORMATION"
  | LeaderElection => "LEADER_ELECTION" | EventSecurityViolation => "SECURITY_VIOLATION"
  | SessionManagement => "SESSION_MANAGEMENT" | EventEncryption => "ENCRYPTION"
  end.

Inductive SecurityViolation :=
| ViolationSignature | ReplayAttack | UnauthorizedAccess | CertificateError | TamperedMessage
| RateLimitExceeded | ViolationUnknownDevice | ExpiredCredentials | ProtocolViolation.

Definition violation_to_string (v : SecurityViolation) : string :=
  match v with
  | ViolationSignature => "INVALID_SIGNATURE" | ReplayAttack => "REPLAY_ATTACK"
  | UnauthorizedAccess => "UNAUTHORIZED_ACCESS" | CertificateError => "CERTIFICATE_ERROR"
  | TamperedMessage => "TAMPERED_MESSAGE" | RateLimitExceeded => "RATE_LIMIT_EXCEEDED"
  | ViolationUnknownDevice => "UNKNOWN_DEVICE" | ExpiredCredentials => "EXPIRED_CREDENTIALS"
  | ProtocolViolation => "PROTOCOL_VIOLATION"
  end.

Record AuditLogEntry := {
  timestamp : Z;
  timestamp_iso : string;
  event_type : AuditEventType;
  entity_id : string;
  success : bool;
  description : string;
  context : gmap string string;
  sequence : Z
}.

(** [chrono::DateTime::from_timestamp] and its formatting, [serde_json::to_string] *)
Class LogFormat := {
  DateTime : Type;
  from_timestamp : Z -> option DateTime;
  format_datetime : DateTime -> string;
  entry_json : AuditLogEntry -> result string string
}.

(** The Unix epoch is a date of chrono. *)
Class LogFormatLaws (F : LogFormat) := { epoch_is_date : is_Some (from_timestamp 0) }.

(** A call of one of the logging methods *)
Inductive Request :=
| log_authentication (entity_id : string) (success : bool) (reason : option string)
| log_grant (entity_id : string) (permission : Permission) (target : string)
| log_denial (entity_id permission target reason : string)
| log_operation (entity_id operation target : string) (success : bool)
| log_violation (entity_id : string) (violation : SecurityViolation) (details : string)
| log_cell_event (entity_id cell_id action : string) (success : bool)
| log_key_exchange (entity_id peer_id : string) (success : bool)
| log_session (entity_id session_id action : string) (success : bool)
| log_encryption (entity_id operation target : string) (success : bool).

Definition is_read (operation : string) : bool :=
  String.prefix "read" operation || String.prefix "get" operation || String.prefix "query" operation.

Section Entries.
Context `{F : LogFormat}.

(** [secs as i64], or the epoch when chrono has no such date; [expect] panics *)
Definition format_timestamp (secs : Z) : option string :=
  match from_timestamp (as_i64 secs), from_timestamp 0 with
  | Some dt, _ | None, Some dt => Some (format_datetime dt)
  | None, None => None
  end.

Definition entry_new (t : AuditEventType) (entity : string) (ok : bool) (text : string)
    (seq now : Z) : option AuditLogEntry :=
  let secs := as_secs (since_epoch now) in
  iso ← format_timestamp secs;
  Some {| timestamp := secs; timestamp_iso := iso; event_type := t; entity_id := entity;
          success := ok; description := text; context := ∅; sequence := seq |}.

Definition with_context (e : AuditLogEntry) (key value : string) : AuditLogEntry :=
  {| timestamp := timestamp e; timestamp_iso := timestamp_iso e; event_type := event_type e;
     entity_id := entity_id e; success := success e; description := description e;
     context := <[key := value]> (context e); sequence := sequence e |}.

Definition to_json (e : AuditLogEntry) : string :=
  match entry_json e with
  | Ok s => s
  | Err _ => "{" +:+ String "034"%char "error" +:+ String "034"%char ":" +:+
             String "034"%char "serialization failed for seq " +:+ pretty (sequence e) +:+
             String "034"%char "}"
  end.

(** The entry of a request; the contexts are added in the order of the code. *)
Definition entry_of (r : Request) (seq now : Z) : option AuditLogEntry :=
  match r with
  | log_authentication entity ok reason =>
    let text := match ok, reason with
                | true, Some r => "Authentication succeeded: " +:+ r
                | true, None => "Authentication succeeded"
                | false, Some r => "Authentication failed: " +:+ r
                | false, None => "Authentication failed"
                end in
    entry_new EventAuthentication entity ok text seq now
  | log_grant entity permission target =>
    e ← entry_new EventAuthorization entity true
          ("Permission granted: " +:+ permission_to_string permission) seq now;
    Some (with_context (with_context e "permission" (permission_to_string permission)) "target" target)
  | log_denial entity permission target reason =>
    e ← entry_new EventAuthorization entity false
          ("Permission denied: " +:+ permission +:+ " - " +:+ reason) seq now;
    Some (with_context (with_context (with_context e "permission" permission) "target" target)
            "reason" reason)
  | log_operation entity operation target ok =>
    e ← entry_new (if is_read operation then DataAccess else DataModification) entity ok
          (operation +:+ " on " +:+ target) seq now;
    Some (with_context (with_context e "operation" operation) "target" target)
  | log_violation entity violation details =>
    e ← entry_new EventSecurityViolation entity false
          ("Security violation: " +:+ violation_to_string violation +:+ " - " +:+ details) seq now;
    Some (with_context (with_context e "violation_type" (violation_to_string violation))
            "details" details)
  | log_cell_event entity cell action ok =>
    e ← entry_new CellFormation entity ok ("Cell " +:+ action +:+ ": " +:+ cell) seq now;
    Some (with_context (with_context e "cell_id" cell) "action" action)
  | log_key_exchange entity peer ok =>
    e ← entry_new KeyExchange entity ok ("Key exchange with peer: " +:+ peer) seq now;
    Some (with_context e "peer_id" peer)
  | log_session entity session action ok =>
    e ← entry_new SessionManagement entity ok ("Session " +:+ action +:+ ": " +:+ session) seq now;
    Some (with_context (with_context e "session_id" session) "action" action)
  | log_encryption entity operation target ok =>
    e ← entry_new EventEncryption entity ok ("Encryption " +:+ operation +:+ ": " +:+ target) seq now;
    Some (with_context (with_context e "operation" operation) "target" target)
  end.

(** ** The loggers *)

Class AuditLogger (St : Type) := {
  log : St -> Request -> Z -> option St;
  entry_count : St -> Z
}.

Record MemoryAuditLogger := { entries : list AuditLogEntry; memory_sequence : Z }.

Definition memory_new : MemoryAuditLogger := {| entries := []; memory_sequence := 0 |}.

Definition entries_by_type (l : MemoryAuditLogger) (t : AuditEventType) : list AuditLogEntry :=
  filter (fun e => event_type e = t) (entries l).

Definition memory_clear (l : MemoryAuditLogger) : MemoryAuditLogger :=
  {| entries := []; memory_sequence := memory_sequence l |}.

(** [*seq += 1; *seq] *)
Definition next_sequence (seq : Z) : option Z := checked (seq + 1).

(** The first half of a logging call, up to [add_entry]: the counter is advanced under
    its lock and the entry is built. *)
Definition number_entry (l : MemoryAuditLogger) (r : Request) (now : Z) :
    option (MemoryAuditLogger * AuditLogEntry) :=
  seq ← next_sequence (memory_sequence l);
  e ← entry_of r seq now;
  Some ({| entries := entries l; memory_sequence := seq |}, e).

Definition add_entry (l : MemoryAuditLogger) (e : AuditLogEntry) : MemoryAuditLogger :=
  {| entries := entries l ++ [e]; memory_sequence := memory_sequence l |}.

Definition memory_log (l : MemoryAuditLogger) (r : Request) (now : Z) : option MemoryAuditLogger :=
  '(l, e) ← number_entry l r now;
  Some (add_entry l e).

#[export] Instance memory_logger : AuditLogger MemoryAuditLogger := {|
  log := memory_log;
  entry_count l := len (entries l)
|}.

(** The file is the lines that reached it; [writable] is whether a write succeeds, which
    the code ignores. *)
Record FileAuditLogger := { lines : list string; file_sequence : Z; path : string; writable : bool }.

(** Opening in append mode keeps the lines that are already there. *)
Definition file_new (path : string) (existing : list string) : FileAuditLogger :=
  {| lines := existing; file_sequence := 0; path := path; writable := true |}.

Definition write_entry (l : FileAuditLogger) (e : AuditLogEntry) : list string :=
  if writable l then lines l ++ [to_json e] else lines l.

Definition file_log (l : FileAuditLogger) (r : Request) (now : Z) : option FileAuditLogger :=
  seq ← next_sequence (file_sequence l);
  e ← entry_of r seq now;
  Some {| lines := write_entry l e; file_sequence := seq; path := path l; writable := writable l |}.

#[export] Instance file_logger : AuditLogger FileAuditLogger := {|
  log := file_log;
  entry_count := file_sequence
|}.

Definition null_log (l : unit) (r : Request) (now : Z) : option unit := Some l.

#[export] Instance null_logger : AuditLogger unit := {| log := null_log; entry_count _ := 0 |}.

(** Calls one after the other *)
Fixpoint log_all {St} `{AuditLogger St} (l : St) (rs : list (Request * Z)) : option St :=
  match rs with
  | [] => Some l
  | (r, now) :: rs => l ← log l r now; log_all l rs
  end.

(** ** Threads

    A call in flight has its number and has not reached [add_entry] yet; [memory_log] is
    the case in which its two halves follow each other. *)
Record SharedLog := { logger : MemoryAuditLogger; in_flight : list AuditLogEntry }.

Definition shared_new : SharedLog := {| logger := memory_new; in_flight := [] |}.

Inductive log_step : SharedLog -> SharedLog -> Prop :=
| step_number l r now m e :
    number_entry (logger l) r now = Some (m, e) ->
    log_step l {| logger := m; in_flight := in_flight l ++ [e] |}
| step_add l before e after :
    in_flight l = before ++ e :: after ->
    log_step l {| logger := add_entry (logger l) e; in_flight := before ++ after |}.

End Entries.

(** ** Entries *)

Section EntryLemmas.
Context `{F : LogFormat}.

Lemma entry_new_Some t entity ok text seq now :
  LogFormatLaws F -> is_Some (entry_new t entity ok text seq now).
Proof.
  intros [[d Hd]]. unfold entry_new, format_timestamp. rewrite Hd.
  destruct (from_timestamp (as_i64 (as_secs (since_epoch now)))); by eexists.
Qed.

Lemma entry_new_sequence t entity ok text seq now e :
  entry_new t entity ok text seq now = Some e -> sequence e = seq.
Proof. unfold entry_new. destruct (format_timestamp _); [|done]. by intros [= <-]. Qed.

(** A logging call never fails once chrono knows the epoch. *)
Lemma entry_of_total r seq now : LogFormatLaws F -> is_Some (entry_of r seq now).
Proof.
  intros L. destruct r; cbn [entry_of]; try apply entry_new_Some; try done.
  all: match goal with |- context [entry_new ?t ?i ?ok ?s ?q ?n] =>
         destruct (entry_new_Some t i ok s q n L) as [e ->] end; by eexists.
Qed.

Lemma entry_of_sequence r seq now e : entry_of r seq now = Some e -> sequence e = seq.
Proof.
  destruct r; cbn [entry_of]; [apply entry_new_sequence|..].
  all: match goal with |- context [entry_new ?t ?i ?ok ?s ?q ?n] =>
         destruct (entry_new t i ok s q n) as [e'|] eqn:E; [|done] end.
  all: cbn [mbind option_bind]; intros [= <-]; by apply entry_new_sequence in E.
Qed.

(** The entries of a run of requests, numbered from [seq + 1] on *)
Fixpoint entries_of (seq : Z) (rs : list (Request * Z)) : option (list AuditLogEntry) :=
  match rs with
  | [] => Some []
  | (r, now) :: rs => e ← entry_of r (seq + 1) now; es ← entries_of (seq + 1) rs; Some (e :: es)
  end.

Lemma entries_of_total seq rs :
  LogFormatLaws F -> exists es, entries_of seq rs = Some es /\ length es = length rs.
Proof.
  intros L. revert seq; induction rs as [|[r now] rs IH]; intros seq; [by exists []|].
  destruct (entry_of_total r (seq + 1) now L) as [e He]. destruct (IH (seq + 1)) as (es & Hes & Hl).
  exists (e :: es). cbn [entries_of]. rewrite He. cbn [mbind option_bind]. rewrite Hes. cbn. by rewrite Hl.
Qed.

Lemma entries_of_sequence seq rs es :
  entries_of seq rs = Some es -> sequence <$> es = seqZ (seq + 1) (len rs).
Proof.
  revert seq es; induction rs as [|[r now] rs IH]; intros seq es; cbn [entries_of].
  { by intros [= <-]. }
  destruct (entry_of r (seq + 1) now) as [e|] eqn:E; [|done]. cbn [mbind option_bind].
  destruct (entries_of (seq + 1) rs) as [es'|] eqn:Es; [|done]. intros [= <-].
  rewrite len_cons, seqZ_cons by (pose proof (len_nonneg rs); lia). cbn. f_equal.
  - by apply entry_of_sequence in E.
  - rewrite (IH _ _ Es). f_equal; lia.
Qed.

Lemma memory_log_all seq l rs es :
  memory_sequence l = seq -> 0 <= seq -> seq + len rs < u64_modulus -> entries_of seq rs = Some es ->
  log_all l rs = Some {| entries := entries l ++ es; memory_sequence := seq + len rs |}.
Proof.
  revert seq l es; induction rs as [|[r now] rs IH]; intros seq l es Hl H0 Hu; cbn [entries_of log_all].
  { intros [= <-]. rewrite app_nil_r, Z.add_0_r, <- Hl. by destruct l. }
  rewrite len_cons in *. pose proof (len_nonneg rs).
  destruct (entry_of r (seq + 1) now) as [e|] eqn:E; [|done]. cbn [mbind option_bind].
  destruct (entries_of (seq + 1) rs) as [es'|] eqn:Es; [|done]. intros [= <-].
  cbn [log memory_logger]. unfold memory_log, number_entry, next_sequence. rewrite Hl.
  rewrite checked_Some by (unfold is_u64; lia). cbn [mbind option_bind]. rewrite E.
  cbn [mbind option_bind]. unfold add_entry. cbn [entries memory_sequence].
  rewrite (IH (seq + 1) {| entries := entries l ++ [e]; memory_sequence := seq + 1 |} es')
    by (done || lia).
  cbn. by rewrite <- app_assoc, Z.add_assoc.
Qed.

Lemma file_log_all seq l rs es :
  file_sequence l = seq -> writable l = true -> 0 <= seq -> seq + len rs < u64_modulus ->
  entries_of seq rs = Some es ->
  log_all l rs = Some {| lines := lines l ++ (to_json <$> es); file_sequence := seq + len rs;
                         path := path l; writable := true |}.
Proof.
  revert seq l es; induction rs as [|[r now] rs IH]; intros seq l es Hl Hw H0 Hu; cbn [entries_of log_all].
  { intros [= <-]. rewrite app_nil_r, Z.add_0_r, <- Hl, <- Hw. by destruct l. }
  rewrite len_cons in *. pose proof (len_nonneg rs).
  destruct (entry_of r (seq + 1) now) as [e|] eqn:E; [|done]. cbn [mbind option_bind].
  destruct (entries_of (seq + 1) rs) as [es'|] eqn:Es; [|done]. intros [= <-].
  cbn [log file_logger]. unfold file_log, next_sequence. rewrite Hl.
  rewrite checked_Some by (unfold is_u64; lia). cbn [mbind option_bind]. rewrite E. cbn [mbind option_bind].
  unfold write_entry. rewrite Hw.
  rewrite (IH (seq + 1) {| lines := lines l ++ [to_json e]; file_sequence := seq + 1; path := path l;
                           writable := true |} es') by (done || lia).
  cbn. by rewrite <- app_assoc, Z.add_assoc.
Qed.

(** The file logger is a refinement of the in-memory one: for the same requests at the
    same times neither fails, both number the entries 1, 2, 3 and so on, and the lines
    appended to the file are the JSON texts of the entries in memory, in their order. *)
Theorem file_logger_refines_memory path existing rs :
  LogFormatLaws F -> len rs < u64_modulus ->
  exists m f, log_all memory_new rs = Some m /\ log_all (file_new path existing) rs = Some f /\
    sequence <$> entries m = seqZ 1 (len rs) /\
    lines f = existing ++ (to_json <$> entries m) /\ entry_count f = entry_count m.
Proof.
  intros L Hu. destruct (entries_of_total 0 rs L) as (es & Hes & Hlen).
  pose proof (memory_log_all 0 memory_new rs es eq_refl) as Hm.
  pose proof (file_log_all 0 (file_new path existing) rs es eq_refl eq_refl) as Hf.
  do 2 eexists. split_and!; [by apply Hm|by apply Hf|cbn|done|].
  - by apply (entries_of_sequence 0).
  - cbn. unfold len. by rewrite Hlen.
Qed.

(** The numbering starts again whenever the file is opened: the first entry a new
    logger appends to an existing log has number 1, so the numbers do not order the log. *)
Theorem reopened_log_repeats_numbers path existing r now l :
  log (file_new path existing) r now = Some l ->
  exists e, entry_of r 1 now = Some e /\ sequence e = 1 /\ lines l = existing ++ [to_json e].
Proof.
  cbn [log file_logger]. unfold file_log, next_sequence. cbn [file_sequence file_new].
  rewrite checked_Some by done. cbn [mbind option_bind].
  destruct (entry_of r (0 + 1) now) as [e|] eqn:E; [|done]. cbn [mbind option_bind]. intros [= <-].
  exists e. split; [done|]. split; [|done]. by apply entry_of_sequence in E.
Qed.

(** ** Interleavings *)

Definition log_numbers (l : SharedLog) : list Z := sequence <$> (entries (logger l) ++ in_flight l).

(** What holds of the log between two steps of any threads *)
Definition log_ok (l : SharedLog) : Prop :=
  0 <= memory_sequence (logger l) /\ log_numbers l ≡ₚ seqZ 1 (memory_sequence (logger l)).

Lemma number_entry_inv l r now m e :
  number_entry l r now = Some (m, e) ->
  entries m = entries l /\ memory_sequence m = memory_sequence l + 1 /\ sequence e = memory_sequence m /\
  entry_of r (memory_sequence m) now = Some e.
Proof.
  unfold number_entry. destruct (next_sequence _) as [seq|] eqn:Hs; [|done]. cbn [mbind option_bind].
  destruct (entry_of r seq now) as [e'|] eqn:He; [|done]. intros [= <- <-].
  apply checked_inv in Hs as ->. cbn. split_and!; [done..| |done]. by apply entry_of_sequence in He.
Qed.

Lemma log_step_ok l l' : log_ok l -> log_step l l' -> log_ok l'.
Proof.
  intros [H0 H] Hs. destruct Hs as [l r now m e Hn|l before e after Hf]; unfold log_ok, log_numbers in *.
  - apply number_entry_inv in Hn as (He & Hm & Hq & _). cbn [logger in_flight].
    rewrite He, app_assoc, fmap_app, H, Hm. split; [lia|]. rewrite seqZ_app by lia. cbn.
    by rewrite Hq, Hm, Z.add_comm.
  - cbn [logger in_flight add_entry entries memory_sequence]. split; [done|]. rewrite <- H, Hf.
    rewrite !fmap_app, fmap_cons. cbn. rewrite <- !app_assoc. apply Permutation_app_head.
    cbn. by rewrite Permutation_middle.
Qed.

Lemma log_reachable_ok l l' : log_ok l -> rtc log_step l l' -> log_ok l'.
Proof. intros H Hr. induction Hr; [done|eauto using log_step_ok]. Qed.

(** A call in flight stays in flight or ends in the log, and no entry leaves the log. *)
Lemma log_step_keeps l l' e :
  log_step l l' -> (e ∈ entries (logger l) ++ in_flight l -> e ∈ entries (logger l') ++ in_flight l') /\
  (e ∈ entries (logger l) -> e ∈ entries (logger l')).
Proof.
  intros [l0 r now m e' Hn|l0 before e' after Hf]; cbn [logger in_flight add_entry entries].
  - apply number_entry_inv in Hn as (-> & _). rewrite !elem_of_app. tauto.
  - rewrite Hf, !elem_of_app, !elem_of_cons. tauto.
Qed.

Lemma log_reachable_keeps l l' e :
  rtc log_step l l' -> (e ∈ entries (logger l) ++ in_flight l -> e ∈ entries (logger l') ++ in_flight l') /\
  (e ∈ entries (logger l) -> e ∈ entries (logger l')).
Proof. intros Hr. induction Hr as [|l1 l2 l3 Hs _ IH]; [done|]. pose proof (log_step_keeps l1 l2 e Hs). tauto. Qed.

(** A call that is not interrupted is the two steps of it. *)
Lemma memory_log_steps l r now m :
  memory_log (logger l) r now = Some m -> rtc log_step l {| logger := m; in_flight := in_flight l |}.
Proof.
  unfold memory_log. destruct (number_entry (logger l) r now) as [[m' e]|] eqn:Hn; [|done]. intros [= <-].
  eapply rtc_l; [by apply (step_number _ r now m' e)|].
  eapply rtc_l; [by apply (step_add _ (in_flight l) e [])|]. rewrite app_nil_r. apply rtc_refl.
Qed.

(** C23: under any interleaving of the logging calls of several threads, starting from a
    new logger, nothing is lost and no number is given twice. The numbers of the entries
    in the log and of those still in flight are together exactly the numbers up to the
    counter; an entry a call has numbered is from then on in flight or in the log; and a
    call that runs without interruption ([memory_log]) adds the entry of its request, with the
    next number, and changes nothing else. *)
Theorem interleaved_log_loses_nothing l :
  rtc log_step shared_new l ->
  log_numbers l ≡ₚ seqZ 1 (memory_sequence (logger l)) /\ NoDup (sequence <$> entries (logger l)) /\
  (forall l' e, rtc log_step l l' -> e ∈ entries (logger l) ++ in_flight l ->
     e ∈ entries (logger l') ++ in_flight l') /\
  (forall r now m, memory_log (logger l) r now = Some m ->
     rtc log_step l {| logger := m; in_flight := in_flight l |} /\
     exists e, entry_of r (memory_sequence (logger l) + 1) now = Some e /\
       entries m = entries (logger l) ++ [e] /\ memory_sequence m = memory_sequence (logger l) + 1).
Proof.
  intros Hr. destruct (log_reachable_ok shared_new l) as [_ H]; [done..|]. split; [done|]. split_and!.
  - assert (NoDup (log_numbers l)) as Hn by (rewrite H; apply NoDup_seqZ).
    unfold log_numbers in Hn. rewrite fmap_app in Hn. by apply NoDup_app in Hn as [? _].
  - intros l' e Hr'. by apply log_reachable_keeps.
  - intros r now m Hm. split; [by apply memory_log_steps in Hm|]. unfold memory_log in Hm.
    destruct (number_entry (logger l) r now) as [[m' e]|] eqn:Hn; [|done]. injection Hm as <-.
    apply number_entry_inv in Hn as (He & Hs & _ & Hof). exists e. rewrite <- Hs. cbn. by rewrite He.
Qed.

(** But the log is not in the order of the numbers: two calls that overlap can append
    in the opposite order of their numbers. *)
Theorem overlapping_calls_reorder (r1 r2 : Request) (now1 now2 : Z) :
  LogFormatLaws F ->
  exists l e1 e2, rtc log_step shared_new l /\ entry_of r1 1 now1 = Some e1 /\
    entry_of r2 2 now2 = Some e2 /\ entries (logger l) = [e2; e1] /\ in_flight l = [] /\
    sequence <$> entries (logger l) = [2; 1].
Proof.
  intros L. destruct (entry_of_total r1 1 now1 L) as [e1 H1]. destruct (entry_of_total r2 2 now2 L) as [e2 H2].
  exists {| logger := {| entries := [e2; e1]; memory_sequence := 2 |}; in_flight := [] |}, e1, e2.
  split_and!; [|done..|].
  - eapply rtc_l; [apply (step_number _ r1 now1 {| entries := []; memory_sequence := 1 |} e1);
      unfold number_entry; change (next_sequence _) with (Some 1); cbn [mbind option_bind]; by rewrite H1|].
    eapply rtc_l; [apply (step_number _ r2 now2 {| entries := []; memory_sequence := 2 |} e2);
      unfold number_entry; change (next_sequence _) with (Some 2); cbn [mbind option_bind]; by rewrite H2|]. cbn.
    eapply rtc_l; [by apply (step_add _ [e1] e2 [])|]. cbn.
    eapply rtc_l; [by apply (step_add _ [] e1 [])|]. apply rtc_refl.
  - cbn. apply entry_of_sequence in H1 as ->. by apply entry_of_sequence in H2 as ->.
Qed.

End EntryLemmas.

(** ** Instances *)

Module SampleLog.

#[export] Instance toy_format : LogFormat := {|
  DateTime := Z;
  from_timestamp t := if t <? 8000000000000 then Some t else None;
  format_datetime t := pretty t;
  entry_json e := Ok (pretty (sequence e) +:+ " " +:+ description e)
|}.

#[export] Instance toy_format_laws : LogFormatLaws toy_format.
Proof. split. by eexists. Qed.

Definition requests : list (Request * Z) :=
  [(log_authentication "dev-1" true None, 5); (log_denial "dev-1" "VetoCommand" "cell-1" "role", 6)].

Lemma file_logger_refines_memory_witness :
  exists m f, log_all memory_new requests = Some m /\
    log_all (file_new "audit.log" ["old"]) requests = Some f /\
    sequence <$> entries m = seqZ 1 (len requests) /\
    lines f = ["old"] ++ (to_json <$> entries m) /\ entry_count f = entry_count m.
Proof. apply file_logger_refines_memory; [apply toy_format_laws|reflexivity]. Defined.

Lemma reopened_log_repeats_numbers_witness :
  exists e, entry_of (log_key_exchange "a" "b" true) 1 7 = Some e /\ sequence e = 1 /\
    ["1 Session create: s"; "1 Key exchange with peer: b"] = ["1 Session create: s"] ++ [to_json e].
Proof.
  apply (reopened_log_repeats_numbers "audit.log" ["1 Session create: s"] (log_key_exchange "a" "b" true) 7
    {| lines := ["1 Session create: s"; "1 Key exchange with peer: b"]; file_sequence := 1;
       path := "audit.log"; writable := true |}).
  vm_compute. reflexivity.
Defined.

Definition auth_entry (seq : Z) : AuditLogEntry :=
  {| timestamp := 0; timestamp_iso := "0"; event_type := EventAuthentication; entity_id := "dev-1";
     success := true; description := "Authentication succeeded"; context := ∅; sequence := seq |}.

(** Two threads: both take a number, the second appends first, and the first is still in
    flight. *)
Definition two_threads : SharedLog :=
  {| logger := {| entries := [auth_entry 2]; memory_sequence := 2 |}; in_flight := [auth_entry 1] |}.

Lemma two_threads_reachable : rtc log_step shared_new two_threads.
Proof.
  eapply rtc_l; [apply (step_number _ (log_authentication "dev-1" true None) 5
    {| entries := []; memory_sequence := 1 |} (auth_entry 1)); vm_compute; reflexivity|].
  eapply rtc_l; [apply (step_number _ (log_authentication "dev-1" true None) 6
    {| entries := []; memory_sequence := 2 |} (auth_entry 2)); vm_compute; reflexivity|].
  eapply rtc_l; [apply (step_add _ [auth_entry 1] (auth_entry 2) []); reflexivity|]. apply rtc_refl.
Qed.

Lemma interleaved_log_loses_nothing_witness :
  log_numbers two_threads ≡ₚ [1; 2] /\ NoDup (sequence <$> [auth_entry 2]).
Proof.
  destruct (interleaved_log_loses_nothing two_threads two_threads_reachable) as (H & Hn & _).
  exact (conj H Hn).
Defined.

Lemma overlapping_calls_reorder_witness :
  exists l e1 e2, rtc log_step shared_new l /\
    entry_of (log_key_exchange "a" "b" true) 1 7 = Some e1 /\
    entry_of (log_key_exchange "b" "a" true) 2 7 = Some e2 /\ entries (logger l) = [e2; e1] /\
    in_flight l = [] /\ sequence <$> entries (logger l) = [2; 1].
Proof. apply overlapping_calls_reorder. apply toy_format_laws. Defined.

End SampleLog.
