(* ===== verification/Recovery.v ===== *)
(** * Sync recovery after a partition

    Models peat-protocol/src/qos/recovery.rs: updates queued while the network is
    partitioned, the filter that drops those older than the window of their data type,
    and the iterator that hands the rest out by priority. [QoSClass::all_by_priority]
    belongs to the crate peat-mesh and is the class [PriorityOrder]. An [Instant] is a
    number of nanoseconds. The filter reads the clock once per batch: its argument [at_]
    is the reading each batch gets. A counter that leaves 64 bits panics ([None]). *)

From S2P Require Import Prelude Qos.
From Stdlib Require Import Init.Byte.

Open Scope Z_scope.

Definition classes_by_priority : list QoSClass := [QCritical; QHigh; QNormal; QLow; QBulk].

Class PriorityOrder := { all_by_priority : list QoSClass }.

(** Documented as the five classes from the highest priority to the lowest *)
Class PriorityOrderLaws `{PriorityOrder} : Prop := {
  by_priority : all_by_priority = classes_by_priority
}.

Record UpdateBatch := {
  id : Z;
  data : list byte;
  data_type : DataType;
  created_at : Z;
  qos_class : QoSClass
}.

Definition batch_with_time (id : Z) (data : list byte) (t : DataType) (c : QoSClass) (created_at : Z)
    : UpdateBatch :=
  {| id := id; data := data; data_type := t; created_at := created_at; qos_class := c |}.

Definition batch_new (now id : Z) (data : list byte) (t : DataType) (c : QoSClass) : UpdateBatch :=
  batch_with_time id data t c now.

(** [elapsed] of an instant in the future is zero. *)
Definition age (now : Z) (b : UpdateBatch) : Z := Z.max 0 (now - created_at b).

Definition batch_size (b : UpdateBatch) : Z := len (data b).

Record SyncRecovery := {
  queued_updates : gmap QoSClass (list UpdateBatch);
  obsolescence_windows : gmap DataType Z;
  total_bytes : Z;
  obsolete_filtered : Z;
  next_batch_id : Z;
  recovery_in_progress : bool
}.

Definition recovery_new : SyncRecovery :=
  {| queued_updates := ∅; obsolescence_windows := ∅; total_bytes := 0; obsolete_filtered := 0;
     next_batch_id := 0; recovery_in_progress := false |}.

Definition set_obsolescence (r : SyncRecovery) (t : DataType) (window : Z) : SyncRecovery :=
  {| queued_updates := queued_updates r;
     obsolescence_windows := <[t := window]> (obsolescence_windows r);
     total_bytes := total_bytes r; obsolete_filtered := obsolete_filtered r;
     next_batch_id := next_batch_id r; recovery_in_progress := recovery_in_progress r |}.

Definition from_secs (s : Z) : Z := s * 1000000000.

(** The windows of [default_military] in the order of the code, in seconds *)
Definition military_windows : list (DataType * Z) :=
  [(PositionUpdate, 300); (Heartbeat, 60); (SensorTelemetry, 30); (EnvironmentData, 600);
   (HealthStatus, 600); (CapabilityChange, 1800); (FormationUpdate, 1800); (TaskAssignment, 3600);
   (TargetImage, 3600); (AudioIntercept, 3600); (MissionRetasking, 7200); (FormationChange, 3600);
   (DebugLog, 86400); (HistoricalTrack, 604800)].

Definition default_military : SyncRecovery :=
  fold_left (fun r w => set_obsolescence r w.1 (from_secs w.2)) military_windows recovery_new.

Definition get_obsolescence (r : SyncRecovery) (t : DataType) : option Z := obsolescence_windows r !! t.

Definition is_obsolete (r : SyncRecovery) (t : DataType) (age : Z) : bool :=
  match obsolescence_windows r !! t with Some window => window <? age | None => false end.

Definition queue_of (r : SyncRecovery) (c : QoSClass) : list UpdateBatch :=
  default [] (queued_updates r !! c).

Definition set_queues (r : SyncRecovery) (m : gmap QoSClass (list UpdateBatch)) (bytes : Z)
    : SyncRecovery :=
  {| queued_updates := m; obsolescence_windows := obsolescence_windows r; total_bytes := bytes;
     obsolete_filtered := obsolete_filtered r; next_batch_id := next_batch_id r;
     recovery_in_progress := recovery_in_progress r |}.

Definition queue_update_with_time (r : SyncRecovery) (data : list byte) (t : DataType) (c : QoSClass)
    (created_at : Z) : option (Z * SyncRecovery) :=
  let id := next_batch_id r in
  next ← checked (id + 1);
  let batch := batch_with_time id data t c created_at in
  bytes ← checked (total_bytes r + batch_size batch);
  Some (id, {| queued_updates := <[c := queue_of r c ++ [batch]]> (queued_updates r);
               obsolescence_windows := obsolescence_windows r; total_bytes := bytes;
               obsolete_filtered := obsolete_filtered r; next_batch_id := next;
               recovery_in_progress := recovery_in_progress r |}).

Definition queue_update (r : SyncRecovery) (now : Z) (data : list byte) (t : DataType) (c : QoSClass)
    : option (Z * SyncRecovery) := queue_update_with_time r data t c now.

(** A batch is dropped by the filter. *)
Definition stale (r : SyncRecovery) (at_ : UpdateBatch -> Z) (b : UpdateBatch) : bool :=
  is_obsolete r (data_type b) (age (at_ b) b).

Definition bytes_of (l : list UpdateBatch) : Z := foldr Z.add 0 (batch_size <$> l).

Definition all_batches (r : SyncRecovery) : list UpdateBatch :=
  concat (map_to_list (queued_updates r)).*2.

Definition apply_obsolescence_filter (r : SyncRecovery) (at_ : UpdateBatch -> Z)
    : option (Z * SyncRecovery) :=
  let removed := filter (fun b => stale r at_ b = true) (all_batches r) in
  let filtered := len removed in
  count ← checked (obsolete_filtered r + filtered);
  Some (filtered,
    {| queued_updates := (filter (fun b => stale r at_ b = false)) <$> queued_updates r;
       obsolescence_windows := obsolescence_windows r;
       total_bytes := saturating_sub (total_bytes r) (bytes_of removed);
       obsolete_filtered := count; next_batch_id := next_batch_id r;
       recovery_in_progress := recovery_in_progress r |}).

Definition set_in_progress (r : SyncRecovery) (b : bool) : SyncRecovery :=
  {| queued_updates := queued_updates r; obsolescence_windows := obsolescence_windows r;
     total_bytes := total_bytes r; obsolete_filtered := obsolete_filtered r;
     next_batch_id := next_batch_id r; recovery_in_progress := b |}.

(** The iterator it returns is the manager itself. *)
Definition recover_from_partition (r : SyncRecovery) (at_ : UpdateBatch -> Z) : option SyncRecovery :=
  '(_, r) ← apply_obsolescence_filter (set_in_progress r true) at_; Some r.

Definition complete_recovery (r : SyncRecovery) : SyncRecovery := set_in_progress r false.

Definition is_recovering (r : SyncRecovery) : bool := recovery_in_progress r.

Definition queued_count_by_class (r : SyncRecovery) (c : QoSClass) : Z := len (queue_of r c).

Definition total_queued (r : SyncRecovery) : Z := len (all_batches r).

Definition recovery_clear (r : SyncRecovery) : SyncRecovery := set_queues r ∅ 0.

Section Ordered.
Context `{PriorityOrder}.

(** The first class with a batch, walking the classes as the code does *)
Fixpoint first_batch (r : SyncRecovery) (classes : list QoSClass)
    : option (QoSClass * UpdateBatch * list UpdateBatch) :=
  match classes with
  | [] => None
  | c :: classes =>
    match queued_updates r !! c with
    | Some (b :: rest) => Some (c, b, rest)
    | _ => first_batch r classes
    end
  end.

Definition next_recovery_batch (r : SyncRecovery) : option UpdateBatch * SyncRecovery :=
  match first_batch r all_by_priority with
  | Some (c, batch, rest) =>
    (Some batch, set_queues r (<[c := rest]> (queued_updates r))
                   (saturating_sub (total_bytes r) (batch_size batch)))
  | None => (None, r)
  end.

Definition peek_size (r : SyncRecovery) : option Z :=
  match first_batch r all_by_priority with Some (_, b, _) => Some (batch_size b) | None => None end.

Definition next_with_limit (r : SyncRecovery) (max_bytes : Z) : option UpdateBatch * SyncRecovery :=
  match peek_size r with
  | None => (None, r)
  | Some peek => if max_bytes <? peek then (None, r) else next_recovery_batch r
  end.

Definition has_more (r : SyncRecovery) : bool := 0 <? total_queued r.

Record RecoveryStats := {
  stats_total_queued : Z;
  stats_total_bytes : Z;
  stats_by_class : gmap QoSClass Z;
  stats_obsolete_filtered : Z;
  stats_in_progress : bool
}.

Definition recovery_stats (r : SyncRecovery) : RecoveryStats :=
  {| stats_total_queued := total_queued r; stats_total_bytes := total_bytes r;
     stats_by_class := fold_left (fun m c => <[c := queued_count_by_class r c]> m) all_by_priority ∅;
     stats_obsolete_filtered := obsolete_filtered r; stats_in_progress := recovery_in_progress r |}.

(** Draining the iterator; the fuel is the number of batches. *)
Fixpoint drain (fuel : nat) (r : SyncRecovery) : list UpdateBatch * SyncRecovery :=
  match fuel with
  | O => ([], r)
  | S fuel =>
    match next_recovery_batch r with
    | (None, r) => ([], r)
    | (Some b, r) => let '(bs, r) := drain fuel r in (b :: bs, r)
    end
  end.

End Ordered.

(** ** The queue as a list

    All batches by class and then in the order in which they were queued *)

Definition contents_of (r : SyncRecovery) (l : list QoSClass) : list UpdateBatch :=
  concat (queue_of r <$> l).

Definition contents (r : SyncRecovery) : list UpdateBatch := contents_of r classes_by_priority.

Lemma classes_NoDup : NoDup classes_by_priority.
Proof. by apply (bool_decide_unpack _). Qed.

Lemma classes_complete c : c ∈ classes_by_priority.
Proof. destruct c; by apply (bool_decide_unpack _). Qed.

Lemma elem_of_contents r b : b ∈ contents r <-> exists c, b ∈ queue_of r c.
Proof.
  unfold contents, contents_of. rewrite list_elem_of_In, in_concat. split.
  - intros (q & Hq & Hb). apply list_elem_of_In, list_elem_of_fmap in Hq as (c & -> & _).
    exists c. by apply list_elem_of_In.
  - intros (c & Hc). exists (queue_of r c). rewrite <- !list_elem_of_In. split; [|done].
    apply list_elem_of_fmap_2, classes_complete.
Qed.

Definition with_queue (r : SyncRecovery) (c : QoSClass) (q : list UpdateBatch) : SyncRecovery :=
  set_queues r (<[c := q]> (queued_updates r)) (total_bytes r).

Lemma queue_of_insert r r' c q c' :
  queued_updates r' = <[c := q]> (queued_updates r) ->
  queue_of r' c' = if decide (c' = c) then q else queue_of r c'.
Proof.
  unfold queue_of. intros ->. case_decide; subst; [by rewrite lookup_insert_eq|].
  by rewrite lookup_insert_ne.
Qed.

(** Changing one queue changes its part of the list. *)
Lemma contents_of_insert r r' c q l :
  queued_updates r' = <[c := q]> (queued_updates r) -> NoDup l -> c ∈ l ->
  exists before after, contents_of r l = before ++ queue_of r c ++ after /\
    contents_of r' l = before ++ q ++ after.
Proof.
  intros Hr Hl Hc. apply list_elem_of_split in Hc as (l1 & l2 & ->).
  apply NoDup_app in Hl as (_ & Hd & [Hc _]%NoDup_cons).
  assert (forall l, c ∉ l -> contents_of r' l = contents_of r l) as Hout.
  { intros l Hl. unfold contents_of. f_equal. apply list_fmap_ext. intros i c' Hi.
    rewrite (queue_of_insert r r' c q) by done. rewrite decide_False; [done|].
    intros ->. apply Hl. by eapply list_elem_of_lookup_2. }
  exists (contents_of r l1), (contents_of r l2). unfold contents_of in *.
  rewrite !fmap_app, !fmap_cons, !concat_app. cbn [concat].
  rewrite !Hout; [|done|intros H; apply (Hd _ H); by left].
  rewrite (queue_of_insert r r' c q) by done. by rewrite decide_True.
Qed.

Lemma all_batches_contents r : all_batches r ≡ₚ contents r.
Proof.
  destruct r as [m w t o n p]. unfold all_batches, contents. cbn [queued_updates].
  induction m as [|c q m Hc IH] using map_ind; [done|].
  rewrite map_to_list_insert by done. rewrite fmap_cons. cbn [concat snd]. rewrite IH.
  destruct (contents_of_insert {| queued_updates := m; obsolescence_windows := w; total_bytes := t;
    obsolete_filtered := o; next_batch_id := n; recovery_in_progress := p |}
    {| queued_updates := <[c := q]> m; obsolescence_windows := w; total_bytes := t;
    obsolete_filtered := o; next_batch_id := n; recovery_in_progress := p |} c q classes_by_priority)
    as (before & after & -> & ->); [done|apply classes_NoDup|apply classes_complete|].
  unfold queue_of. cbn [queued_updates]. rewrite Hc. cbn. by rewrite Permutation_app_swap_app.
Qed.

Lemma bytes_of_cons b l : bytes_of (b :: l) = batch_size b + bytes_of l.
Proof. done. Qed.

#[export] Instance bytes_of_proper : Proper ((≡ₚ) ==> (=)) bytes_of.
Proof. intros l k H. induction H; rewrite ?bytes_of_cons; lia. Qed.

Lemma bytes_of_nonneg l : 0 <= bytes_of l.
Proof.
  induction l as [|b l IH]; [done|]. rewrite bytes_of_cons.
  pose proof (len_nonneg (data b)). unfold batch_size. lia.
Qed.

Lemma bytes_of_filter (P Q : UpdateBatch -> Prop) `{!forall b, Decision (P b), !forall b, Decision (Q b)} l :
  (forall b, Q b <-> ~ P b) -> bytes_of (filter P l) + bytes_of (filter Q l) = bytes_of l.
Proof.
  intros HQ. induction l as [|b l IH]; [done|]. rewrite !filter_cons, bytes_of_cons. pose proof (HQ b).
  destruct (decide (P b)), (decide (Q b)); try tauto; rewrite bytes_of_cons; lia.
Qed.

(** ** The filter *)

Lemma filter_concat (P : UpdateBatch -> Prop) `{!forall b, Decision (P b)} ls :
  filter P (concat ls) = concat (filter P <$> ls).
Proof. induction ls as [|l ls IH]; [done|]. cbn [concat fmap list_fmap]. by rewrite filter_app, IH. Qed.

Definition live (r : SyncRecovery) (at_ : UpdateBatch -> Z) (b : UpdateBatch) : Prop := stale r at_ b = false.

#[export] Instance live_dec r at_ b : Decision (live r at_ b).
Proof. unfold live. apply _. Defined.

Lemma filter_queue_of r at_ n r' c :
  apply_obsolescence_filter r at_ = Some (n, r') -> queue_of r' c = filter (live r at_) (queue_of r c).
Proof.
  unfold apply_obsolescence_filter. destruct (checked _); [|done]. cbn [mbind option_bind].
  intros [= _ <-]. unfold queue_of. cbn [queued_updates]. rewrite lookup_fmap.
  by destruct (queued_updates r !! c).
Qed.

Lemma filter_contents r at_ n r' :
  apply_obsolescence_filter r at_ = Some (n, r') -> contents r' = filter (live r at_) (contents r).
Proof.
  intros H. unfold contents, contents_of. rewrite filter_concat, <- list_fmap_compose. f_equal.
  apply list_fmap_ext. intros i c _. by apply (filter_queue_of r at_ n).
Qed.

Lemma filter_bytes r at_ n r' :
  apply_obsolescence_filter r at_ = Some (n, r') -> total_bytes r = bytes_of (contents r) ->
  total_bytes r' = bytes_of (contents r').
Proof.
  intros H Hb. rewrite (filter_contents _ _ _ _ H). unfold apply_obsolescence_filter in H.
  destruct (checked _); [|done]. cbn [mbind option_bind] in H. injection H as _ <-. cbn [total_bytes].
  rewrite Hb, all_batches_contents. unfold saturating_sub.
  rewrite <- (bytes_of_filter (fun b => stale r at_ b = true) (live r at_) (contents r)).
  - pose proof (bytes_of_nonneg (filter (live r at_) (contents r))). lia.
  - intros b. unfold live. by destruct (stale r at_ b).
Qed.

(** ** The next batch *)

Lemma first_batch_spec r l :
  match first_batch r l with
  | Some (c, b, rest) => c ∈ l /\ queue_of r c = b :: rest /\
      forall r', queued_updates r' = <[c := rest]> (queued_updates r) -> NoDup l ->
        contents_of r l = b :: contents_of r' l
  | None => contents_of r l = []
  end.
Proof.
  induction l as [|c l IH]; [done|]. cbn [first_batch].
  destruct (queued_updates r !! c) as [[|b rest]|] eqn:E.
  2: { assert (queue_of r c = b :: rest) as Hq by (unfold queue_of; by rewrite E).
       split_and!; [by left|done|]. intros r' Hr' [Hc _]%NoDup_cons. unfold contents_of.
       rewrite !fmap_cons. cbn [concat]. rewrite Hq, (queue_of_insert r r' c rest) by done.
       rewrite decide_True by done. cbn [app]. do 2 f_equal.
       f_equal. apply list_fmap_ext. intros i c' Hi. rewrite (queue_of_insert r r' c rest) by done.
       rewrite decide_False; [done|]. intros ->. apply Hc. by eapply list_elem_of_lookup_2. }
  all: assert (queue_of r c = []) as Hq by (unfold queue_of; by rewrite E).
  all: destruct (first_batch r l) as [[[c0 b0] rest0]|];
    [|unfold contents_of; rewrite fmap_cons; cbn [concat]; by rewrite Hq].
  all: destruct IH as (H1 & H2 & H3); split_and!; [by right|done|].
  all: intros r' Hr' [Hc Hl]%NoDup_cons; unfold contents_of; rewrite !fmap_cons; cbn [concat].
  all: rewrite Hq, (queue_of_insert r r' c0 rest0 c) by done.
  all: rewrite decide_False by (by intros ->); rewrite Hq; by apply H3.
Qed.

Section Drain.
Context `{PriorityOrder, !PriorityOrderLaws}.

Lemma next_batch_spec r :
  match next_recovery_batch r with
  | (Some b, r') => contents r = b :: contents r' /\
      total_bytes r' = saturating_sub (total_bytes r) (batch_size b) /\
      exists c rest, queue_of r c = b :: rest /\ queued_updates r' = <[c := rest]> (queued_updates r) /\
        next_batch_id r' = next_batch_id r
  | (None, r') => r' = r /\ contents r = []
  end.
Proof.
  unfold next_recovery_batch. rewrite by_priority. pose proof (first_batch_spec r classes_by_priority) as Hf.
  destruct (first_batch r classes_by_priority) as [[[c b] rest]|]; [|done].
  destruct Hf as (_ & Hq & Hc). split_and!; [by apply Hc, classes_NoDup|done|]. by exists c, rest.
Qed.

Lemma drain_spec fuel r :
  (length (contents r) <= fuel)%nat -> total_bytes r = bytes_of (contents r) ->
  fst (drain fuel r) = contents r /\ contents (snd (drain fuel r)) = [] /\
  total_bytes (snd (drain fuel r)) = 0.
Proof.
  revert r; induction fuel as [|fuel IH]; intros r Hf Hb; cbn [drain].
  { destruct (contents r) eqn:E; [|simpl in Hf; lia]. cbn [fst snd]. by rewrite E, Hb. }
  pose proof (next_batch_spec r) as Hn. destruct (next_recovery_batch r) as [[b|] r'].
  - destruct Hn as (Hc & Ht & _). rewrite Hc in Hf, Hb. rewrite bytes_of_cons in Hb. cbn [length] in Hf.
    pose proof (bytes_of_nonneg (contents r')) as Hnn.
    destruct (IH r') as (D1 & D2 & D3); [lia|unfold saturating_sub in Ht; lia|].
    destruct (drain fuel r') as [bs r2]. cbn in *. rewrite Hc, D1. done.
  - destruct Hn as [-> Hc]. cbn [fst snd]. by rewrite Hb, Hc.
Qed.

End Drain.

(** ** Reachable queues *)

(** Every batch is in the queue of its class, the queues are in the order of queueing, and
    the byte counter is exact. *)
Record recovery_ok (r : SyncRecovery) : Prop := {
  ok_bytes : total_bytes r = bytes_of (contents r);
  ok_class : forall c b, b ∈ queue_of r c -> qos_class b = c;
  ok_order : forall c, StronglySorted Z.lt (id <$> queue_of r c);
  ok_ids : forall c b, b ∈ queue_of r c -> id b < next_batch_id r
}.

Section Reachable.
Context `{PriorityOrder, !PriorityOrderLaws}.

Inductive recovery_step : SyncRecovery -> SyncRecovery -> Prop :=
| step_queue r data t c created n r' :
    queue_update_with_time r data t c created = Some (n, r') -> recovery_step r r'
| step_filter r at_ n r' :
    apply_obsolescence_filter r at_ = Some (n, r') -> recovery_step r r'
| step_next r : recovery_step r (snd (next_recovery_batch r))
| step_next_limit r max_bytes : recovery_step r (snd (next_with_limit r max_bytes))
| step_window r t w : recovery_step r (set_obsolescence r t w)
| step_progress r b : recovery_step r (set_in_progress r b)
| step_clear r : recovery_step r (recovery_clear r).

Lemma sorted_snoc (l : list Z) x :
  StronglySorted Z.lt l -> (forall y, y ∈ l -> y < x) -> StronglySorted Z.lt (l ++ [x]).
Proof.
  induction 1 as [|y l Hs IH Hy]; intros Hx; cbn; [repeat constructor|].
  constructor; [apply IH; intros; apply Hx; by right|].
  apply Forall_app. split; [done|]. repeat constructor. apply Hx. by left.
Qed.

Lemma ok_queue r data t c created n r' :
  recovery_ok r -> queue_update_with_time r data t c created = Some (n, r') -> recovery_ok r'.
Proof.
  intros [Hb Hc Ho Hi] E. unfold queue_update_with_time in E.
  destruct (checked (next_batch_id r + 1)) as [next|] eqn:En; [|done]. cbn [mbind option_bind] in E.
  set (b := batch_with_time _ _ _ _ _) in E.
  destruct (checked (total_bytes r + batch_size b)) as [bytes|] eqn:Eb; [|done]. cbn [mbind option_bind] in E.
  injection E as _ <-. apply checked_inv in En as ->. apply checked_inv in Eb as ->.
  set (r' := Build_SyncRecovery _ _ _ _ _ _).
  assert (forall c', queue_of r' c' = if decide (c' = c) then queue_of r c ++ [b] else queue_of r c') as Hq.
  { intros. by apply queue_of_insert. }
  destruct (contents_of_insert r r' c (queue_of r c ++ [b]) classes_by_priority)
    as (before & after & E1 & E2); [done|apply classes_NoDup|apply classes_complete|].
  split.
  - change (total_bytes r + batch_size b = bytes_of (contents_of r' classes_by_priority)).
    rewrite E2, Hb. unfold contents. rewrite E1. assert (before ++ (queue_of r c ++ [b]) ++ after ≡ₚ b :: before ++ queue_of r c ++ after) as ->;
      [|rewrite bytes_of_cons; lia].
    rewrite (Permutation_app_comm (queue_of r c)), <- !app_assoc. cbn. by rewrite <- Permutation_middle.
  - intros c' b'. rewrite Hq. case_decide; [|apply Hc]. subst. rewrite elem_of_app.
    intros [?| ->%list_elem_of_singleton]; [by apply Hc|done].
  - intros c'. rewrite Hq. case_decide; [|apply Ho]. subst. rewrite fmap_app. cbn [fmap list_fmap].
    apply sorted_snoc; [apply Ho|]. intros y (b' & -> & Hb')%list_elem_of_fmap. by apply (Hi c).
  - intros c' b'. rewrite Hq. cbn [next_batch_id r']. case_decide; [subst|intros H'; apply Hi in H'; lia].
    rewrite elem_of_app. intros [H'| ->%list_elem_of_singleton]; [apply Hi in H'; lia|cbn; lia].
Qed.

Lemma ok_next r : recovery_ok r -> recovery_ok (snd (next_recovery_batch r)).
Proof.
  intros [Hb Hc Ho Hi]. pose proof (next_batch_spec r) as Hn.
  destruct (next_recovery_batch r) as [[b|] r']; [|destruct Hn as [-> _]; by split].
  destruct Hn as (E & Ht & c & rest & Hq & Hr & Hnext). cbn [snd].
  assert (forall c', queue_of r' c' = if decide (c' = c) then rest else queue_of r c') as Hq'.
  { intros. by apply queue_of_insert. }
  split.
  - rewrite Ht, Hb, E, bytes_of_cons. pose proof (bytes_of_nonneg (contents r')). unfold saturating_sub. lia.
  - intros c' b'. rewrite Hq'. case_decide; [subst|apply Hc]. intros. apply Hc. rewrite Hq. by right.
  - intros c'. rewrite Hq'. case_decide; [subst|apply Ho]. specialize (Ho c). rewrite Hq in Ho.
    by apply StronglySorted_inv in Ho as [? _].
  - intros c' b'. rewrite Hq', Hnext. case_decide; [subst|apply Hi]. intros. apply (Hi c).
    rewrite Hq. by right.
Qed.

Lemma ok_obsolescence_filter r at_ n r' :
  recovery_ok r -> apply_obsolescence_filter r at_ = Some (n, r') -> recovery_ok r'.
Proof.
  intros [Hb Hc Ho Hi] E. assert (next_batch_id r' = next_batch_id r) as Hn.
  { unfold apply_obsolescence_filter in E. destruct (checked _); [|done]. by injection E as _ <-. }
  split; [by apply (filter_bytes r at_ n)|..]; intros c.
  - intros b. rewrite (filter_queue_of _ _ _ _ _ E). intros [_ ?]%list_elem_of_filter. by apply Hc.
  - rewrite (filter_queue_of _ _ _ _ _ E). specialize (Ho c). revert Ho.
    generalize (queue_of r c). intros q Hq. induction q as [|b q IH]; [constructor|].
    rewrite fmap_cons in Hq. apply StronglySorted_inv in Hq as [Hs Hf]. rewrite filter_cons. case_decide; [|by apply IH].
    rewrite fmap_cons. constructor; [by apply IH|]. rewrite Forall_fmap, Forall_forall in *.
    intros b' [_ ?]%list_elem_of_filter. by apply Hf.
  - intros b. rewrite (filter_queue_of _ _ _ _ _ E), Hn. intros [_ ?]%list_elem_of_filter. by apply (Hi c).
Qed.

Lemma recovery_step_ok r r' : recovery_step r r' -> recovery_ok r -> recovery_ok r'.
Proof.
  destruct 1 as [r d t c created n r' E|r at_ n r' E|r|r max_bytes|r t w|r b|r]; intros Hr.
  - by apply (ok_queue r d t c created n).
  - by apply (ok_obsolescence_filter r at_ n).
  - by apply ok_next.
  - unfold next_with_limit. destruct (peek_size r) as [p|]; [|done].
    destruct (max_bytes <? p); [done|by apply ok_next].
  - by destruct Hr; split.
  - by destruct Hr; split.
  - split; [done| |constructor|]; intros c b; unfold queue_of; cbn; rewrite lookup_empty; cbn;
      by intros ?%not_elem_of_nil.
Qed.

Lemma recovery_new_ok : recovery_ok recovery_new.
Proof. split; [done| |constructor|]; intros c b ?%not_elem_of_nil; done. Qed.

Lemma recovery_reachable_ok r : rtc recovery_step recovery_new r -> recovery_ok r.
Proof.
  revert r. refine (rtc_ind_r (R := recovery_step) _ _ _ _); [apply recovery_new_ok|].
  intros r1 r2 _ Hs IH. by apply (recovery_step_ok r1).
Qed.

(** A batch goes before another. *)
Definition before (a b : UpdateBatch) : Prop :=
  qos_rank (qos_class a) < qos_rank (qos_class b) \/
  (qos_class a = qos_class b /\ id a < id b).

Lemma contents_sorted r l :
  recovery_ok r -> StronglySorted (fun c c' => qos_rank c < qos_rank c') l ->
  StronglySorted before (contents_of r l).
Proof.
  intros Hr. induction 1 as [|c l Hs IH Hc]; [constructor|].
  unfold contents_of. rewrite fmap_cons. cbn [concat]. fold (contents_of r l).
  assert (forall b b', b ∈ queue_of r c -> b' ∈ contents_of r l -> before b b') as Hcross.
  { intros b b' Hb (q & Hq & Hb')%list_elem_of_In%in_concat. left.
    apply list_elem_of_In, list_elem_of_fmap in Hq as (c' & -> & Hc').
    rewrite (ok_class _ Hr _ _ Hb), (ok_class _ Hr c') by (by apply list_elem_of_In).
    rewrite Forall_forall in Hc. by apply Hc. }
  pose proof (ok_order _ Hr c) as Ho.
  assert (forall b, b ∈ queue_of r c -> qos_class b = c) as Hcl by apply (ok_class _ Hr).
  induction (queue_of r c) as [|b q IHq]; [done|]. cbn [app].
  rewrite fmap_cons in Ho. apply StronglySorted_inv in Ho as [Ho Hb].
  constructor; [apply IHq; [|done|]; intros; [apply Hcross; [by right|done]|apply Hcl; by right]|].
  rewrite Forall_fmap, Forall_forall in Hb. apply Forall_forall. intros b' [Hb'|Hb']%elem_of_app.
  - right. rewrite !Hcl by (by left || by right). split; [done|]. by apply Hb.
  - apply Hcross; [by left|done].
Qed.

(** C17: recovery hands out what is worth sending and nothing else: from every reachable
    manager, whatever the clock reads, draining the iterator after the filter ends, returns
    exactly the queued batches that are not obsolete, by priority class and within a
    class in the order of queueing, and leaves an empty queue of zero bytes. *)
Theorem recovery_yields_live_by_priority r at_ r1 :
  rtc recovery_step recovery_new r -> recover_from_partition r at_ = Some r1 ->
  let '(sent, r2) := drain (length (contents r1)) r1 in
  sent = filter (live r at_) (contents r) /\ StronglySorted before sent /\
  contents r2 = [] /\ total_bytes r2 = 0.
Proof.
  intros Hok%recovery_reachable_ok Hrec.
  unfold recover_from_partition in Hrec.
  destruct (apply_obsolescence_filter (set_in_progress r true) at_) as [[n r']|] eqn:E; [|done].
  injection Hrec as ->. assert (recovery_ok r1) as Hok1.
  { eapply ok_obsolescence_filter; [|exact E]. destruct Hok. by split. }
  pose proof (drain_spec (length (contents r1)) r1 (le_n _) (ok_bytes _ Hok1)) as (H1 & H2 & H3).
  destruct (drain (length (contents r1)) r1) as [sent r2]. cbn [fst snd] in *. subst sent.
  split_and!; [by rewrite (filter_contents _ _ _ _ E)| |done|done].
  apply contents_sorted; [done|]. repeat constructor.
Qed.

(** The byte counter of a recovery manager is exact in every reachable state: it is
    the sum of the sizes of the queued batches, so none of its saturating subtractions
    ever cuts off. *)
Theorem recovery_bytes_exact r :
  rtc recovery_step recovery_new r ->
  total_bytes r = bytes_of (all_batches r) /\
  forall b r', next_recovery_batch r = (Some b, r') -> total_bytes r' = total_bytes r - batch_size b.
Proof.
  intros Hok%recovery_reachable_ok.
  rewrite all_batches_contents. split; [apply Hok|]. intros b r' E.
  pose proof (next_batch_spec r) as Hn. rewrite E in Hn. destruct Hn as (Hc & -> & _).
  rewrite (ok_bytes _ Hok), Hc, bytes_of_cons. pose proof (bytes_of_nonneg (contents r')) as Hnn.
  unfold saturating_sub. lia.
Qed.

(** With a bandwidth limit the next batch is handed out exactly when it fits; a batch
    that does not fit stays, and so does everything behind it. *)
Theorem next_with_limit_spec r max_bytes :
  match next_with_limit r max_bytes with
  | (Some b, r') => contents r = b :: contents r' /\ batch_size b <= max_bytes
  | (None, r') => r' = r /\ forall b rest, contents r = b :: rest -> max_bytes < batch_size b
  end.
Proof.
  unfold next_with_limit, peek_size. pose proof (next_batch_spec r) as Hn. unfold next_recovery_batch in *.
  destruct (first_batch r all_by_priority) as [[[c b] rest]|].
  - destruct Hn as (E & _). destruct (Z.ltb_spec max_bytes (batch_size b)); [|done].
    split; [done|]. intros b' rest' E'. rewrite E in E'. by injection E' as <- _.
  - destruct Hn as [_ E]. split; [done|]. by rewrite E.
Qed.

End Reachable.

(** ** The default windows *)

Lemma windows_spec l r t :
  (forall w, (t, w) ∉ l) ->
  obsolescence_windows (fold_left (fun r w => set_obsolescence r w.1 (from_secs w.2)) l r) !! t =
  obsolescence_windows r !! t.
Proof.
  revert r; induction l as [|[t' w] l IH]; intros r Ht; [done|]. cbn [fold_left fst snd].
  rewrite IH by (intros w' Hw'; apply (Ht w'); by right). cbn. rewrite lookup_insert_ne; [done|].
  intros ->. apply (Ht w). by left.
Qed.

(** The default windows never drop critical data: whatever its age, and whatever is
    queued, a batch whose data type is classified as critical survives the filter. *)
Theorem critical_data_never_obsolete at_ b :
  default_class (data_type b) = QCritical ->
  get_obsolescence default_military (data_type b) = None /\ live default_military at_ b.
Proof.
  intros Hc. assert (obsolescence_windows default_military !! data_type b = None) as E.
  { unfold default_military. rewrite windows_spec; [done|].
    intros w Hw%list_elem_of_In. revert Hc. unfold military_windows in Hw. simpl in Hw.
    repeat (destruct Hw as [Hw|Hw]; [injection Hw as <- _; done|]). done. }
  split; [done|]. unfold live, stale, is_obsolete. by rewrite E.
Qed.

(** ** Instances *)

Module SampleRecovery.

#[export] Instance mesh_order : PriorityOrder := {| all_by_priority := classes_by_priority |}.

#[export] Instance mesh_order_laws : PriorityOrderLaws.
Proof. by split. Qed.

Definition one_queued : SyncRecovery :=
  default recovery_new (snd <$> queue_update_with_time default_military [x00; x01] PositionUpdate QLow 0).

Definition two_queued : SyncRecovery :=
  default recovery_new (snd <$> queue_update_with_time one_queued [x02] Heartbeat QLow (from_secs 1000)).

Definition manager : SyncRecovery :=
  default recovery_new (snd <$> queue_update_with_time two_queued [x03; x04; x05] ContactReport QCritical 0).

Definition now : Z := from_secs 1010.

Definition recovered : SyncRecovery := default recovery_new (recover_from_partition manager (fun _ => now)).

Lemma windows_reachable l r :
  rtc recovery_step recovery_new r ->
  rtc recovery_step recovery_new (fold_left (fun r w => set_obsolescence r w.1 (from_secs w.2)) l r).
Proof.
  revert r; induction l as [|w l IH]; intros r Hr; [done|]. apply IH. eapply rtc_r; [done|apply step_window].
Qed.

Lemma manager_reachable : rtc recovery_step recovery_new manager.
Proof.
  pose proof (windows_reachable military_windows recovery_new (rtc_refl _ _)) as H.
  apply rtc_r with two_queued; [apply rtc_r with one_queued; [apply rtc_r with default_military; [exact H|]|]|].
  - by apply (step_queue _ [x00; x01] PositionUpdate QLow 0 0).
  - by apply (step_queue _ [x02] Heartbeat QLow (from_secs 1000) 1).
  - by apply (step_queue _ [x03; x04; x05] ContactReport QCritical 0 2).
Qed.

Lemma recovery_yields_live_by_priority_witness :
  let '(sent, r2) := drain (length (contents recovered)) recovered in
  sent = filter (live manager (fun _ => now)) (contents manager) /\ StronglySorted before sent /\
  contents r2 = [] /\ total_bytes r2 = 0.
Proof.
  apply (recovery_yields_live_by_priority manager (fun _ => now) recovered);
    [apply manager_reachable|reflexivity].
Defined.

Lemma recovery_bytes_exact_witness :
  total_bytes manager = bytes_of (all_batches manager) /\
  forall b r', next_recovery_batch manager = (Some b, r') -> total_bytes r' = total_bytes manager - batch_size b.
Proof. apply recovery_bytes_exact. apply manager_reachable. Defined.

Lemma critical_data_never_obsolete_witness :
  get_obsolescence default_military ContactReport = None /\
  live default_military (fun _ => now) (batch_with_time 0 [] ContactReport QBulk 0).
Proof.
  apply (critical_data_never_obsolete (fun _ => now) (batch_with_time 0 [] ContactReport QBulk 0)).
  reflexivity.
Defined.

End SampleRecovery.
