(* ===== verification/Json.v ===== *)
(** * JSON values

    The values of serde_json as the code builds them with [json!] and reads them with
    [get], [as_f64], [as_str], [as_bool] and [as_array]. Objects are lists of fields
    without repeated keys. Parsing and printing belong to serde_json and are the class
    [SerdeJson], with the documented round trip as its law. *)

From S2P Require Import Prelude Float Capability.
From Stdlib Require Import SpecFloat.

Open Scope Z_scope.

Inductive Json :=
| JNull
| JBool (b : bool)
| JInt (z : Z)
| JFloat (x : spec_float)
| JString (s : string)
| JArray (l : list Json)
| JObject (fields : list (string * Json)).

Fixpoint field (key : string) (fields : list (string * Json)) : option Json :=
  match fields with
  | [] => None
  | (k, v) :: rest => if decide (k = key) then Some v else field key rest
  end.

(** [v.get(key)]: a value that is not an object has no fields. *)
Definition json_get (key : string) (v : Json) : option Json :=
  match v with JObject fields => field key fields | _ => None end.

(** [v.as_f64()]: integers are converted. *)
Definition as_f64 (v : Json) : option spec_float :=
  match v with JFloat x => Some x | JInt z => Some (f64_of_Z z) | _ => None end.

Definition as_str (v : Json) : option string := match v with JString s => Some s | _ => None end.
Definition as_bool (v : Json) : option bool := match v with JBool b => Some b | _ => None end.
Definition as_array (v : Json) : option (list Json) := match v with JArray l => Some l | _ => None end.

(** [json!(x)] of a float: JSON has no infinities and no NaN. *)
Definition json_f64 (x : spec_float) : Json :=
  match x with S754_zero _ | S754_finite _ _ _ => JFloat x | _ => JNull end.
Definition json_f32 (x : spec_float) : Json := json_f64 (f32_as_f64 x).

Definition json_option {A} (f : A -> Json) (o : option A) : Json := match o with Some a => f a | None => JNull end.

(** Values serde_json can print and read back: finite numbers, integers of 64 bits and
    distinct keys *)
Fixpoint json_ok (v : Json) : bool :=
  match v with
  | JInt z => (- 2 ^ 63 <=? z) && (z <? 2 ^ 64)
  | JFloat x => match x with S754_zero _ | S754_finite _ _ _ => true | _ => false end
  | JArray l => forallb json_ok l
  | JObject fields => bool_decide (NoDup fields.*1) && forallb (fun f => json_ok (snd f)) fields
  | _ => true
  end.

Class SerdeJson := {
  from_str : string -> option Json;
  to_string : Json -> string
}.

(** Scalars whose text is read back exactly; the last bit of a float may differ. *)
Definition exact (v : Json) : bool :=
  match v with JNull | JBool _ | JInt _ | JString _ => true | _ => false end.

(** Printing a value and parsing the text gives the exact fields back, whatever order
    the keys are printed in; only valid values are parsed. *)
Class SerdeJsonLaws `{SerdeJson} : Prop := {
  from_to_str v : json_ok v = true -> exists v', from_str (to_string v) = Some v' /\
    forall k w, exact w = true -> json_get k v = Some w -> json_get k v' = Some w;
  parsed_ok s v : from_str s = Some v -> json_ok v = true
}.

Lemma field_ok fields k w :
  forallb (fun f => json_ok (snd f)) fields = true -> field k fields = Some w -> json_ok w = true.
Proof.
  induction fields as [|[k' v] fields IH]; [done|]. cbn [forallb field snd]. rewrite andb_true_iff. intros [Hv Hf].
  case_decide; [by intros [= <-]|by apply IH].
Qed.

Lemma binary_normalize_opp prec emax m e :
  binary_normalize prec emax (Zneg m) e false = SFopp (binary_normalize prec emax (Zpos m) e false).
Proof.
  cbn [binary_normalize]. unfold binary_round. destruct (shl_align _ _ _) as [mz ez]. unfold binary_round_aux.
  destruct (shr_fexp prec emax (Zpos mz) ez loc_Exact) as [r1 e1]. destruct (shr_fexp _ _ _ e1 _) as [r2 e2].
  destruct (shr_m r2); [done| |done]. by destruct (e2 <=? emax - prec).
Qed.

Lemma f64_of_Z_number z : f64_of_Z z <> S754_nan.
Proof.
  assert (forall p, f64_of_Z (Zpos p) <> S754_nan) as Hp.
  { intros p E. pose proof (binary_normalize_rounds 53 1024 ltac:(lia) ltac:(lia) (Zpos p) 0 ltac:(lia) ltac:(unfold scale; lia)) as Hr.
    apply rounds_nonneg in Hr. unfold f64_of_Z in E. by rewrite E in Hr. }
  destruct z as [|p|p]; [done|apply Hp|]. unfold f64_of_Z. rewrite binary_normalize_opp.
  specialize (Hp p). unfold f64_of_Z in Hp. by destruct (binary_normalize _ _ _ _ _).
Qed.

(** A number read from a document is never a NaN. *)
Lemma parsed_number `{SerdeJsonLaws} s v k w x :
  from_str s = Some v -> json_get k v = Some w -> as_f64 w = Some x -> x <> S754_nan.
Proof.
  intros Hs Hk Hx. apply parsed_ok in Hs. destruct v; try done. cbn in Hs, Hk.
  apply andb_true_iff in Hs as [_ Hf]. pose proof (field_ok _ _ _ Hf Hk) as Hw.
  destruct w; try done; injection Hx as <-; [apply f64_of_Z_number|by destruct x0].
Qed.

(** ** A concrete printer and parser

    Values are numbered and the number is written in binary, which is enough to show that
    the laws can hold. *)

Module SampleJson.

Definition leaf : Type := bool + Z + (spec_float + string).

Fixpoint to_tree (v : Json) : gen_tree leaf :=
  match v with
  | JNull => GenNode 0 []
  | JBool b => GenLeaf (inl (inl b))
  | JInt z => GenLeaf (inl (inr z))
  | JFloat x => GenLeaf (inr (inl x))
  | JString s => GenLeaf (inr (inr s))
  | JArray l => GenNode 1 (map to_tree l)
  | JObject fields => GenNode 2 (map (fun f => GenNode 3 [GenLeaf (inr (inr (fst f))); to_tree (snd f)]) fields)
  end.

Fixpoint of_tree (t : gen_tree leaf) : Json :=
  match t with
  | GenLeaf (inl (inl b)) => JBool b
  | GenLeaf (inl (inr z)) => JInt z
  | GenLeaf (inr (inl x)) => JFloat x
  | GenLeaf (inr (inr s)) => JString s
  | GenNode 1 l => JArray (map of_tree l)
  | GenNode 2 l =>
      JObject (map (fun t => match t with
                             | GenNode 3 [GenLeaf (inr (inr k)); t] => (k, of_tree t)
                             | _ => (EmptyString, JNull)
                             end) l)
  | _ => JNull
  end.

Fixpoint of_to_tree (v : Json) : of_tree (to_tree v) = v.
Proof.
  destruct v as [| | | | |l|fields]; try reflexivity; cbn [to_tree of_tree]; f_equal.
  - induction l as [|v l IH]; [reflexivity|]. cbn [map]. f_equal; [apply of_to_tree|exact IH].
  - induction fields as [|[k v] fields IH]; [reflexivity|]. cbn [map fst snd]. f_equal; [|exact IH]. f_equal. apply of_to_tree.
Qed.

Definition float_code (x : spec_float) : bool + bool + (unit + bool * positive * Z) :=
  match x with
  | S754_zero s => inl (inl s)
  | S754_infinity s => inl (inr s)
  | S754_nan => inr (inl tt)
  | S754_finite s m e => inr (inr (s, m, e))
  end.

Definition float_of_code (c : bool + bool + (unit + bool * positive * Z)) : spec_float :=
  match c with
  | inl (inl s) => S754_zero s
  | inl (inr s) => S754_infinity s
  | inr (inl tt) => S754_nan
  | inr (inr (s, m, e)) => S754_finite s m e
  end.

#[export] Instance float_eq_dec : EqDecision spec_float.
Proof. solve_decision. Defined.

#[export] Instance float_countable : Countable spec_float.
Proof. refine (inj_countable' float_code float_of_code _). by intros []. Defined.

#[export] Instance to_tree_inj : Inj (=) (=) to_tree.
Proof. intros v w E. by rewrite <- (of_to_tree v), E, of_to_tree. Qed.

#[export] Instance json_eq_dec : EqDecision Json.
Proof. apply (inj_eq_dec to_tree). Defined.

#[export] Instance json_countable : Countable Json := inj_countable' to_tree of_tree of_to_tree.

Fixpoint digits (p : positive) : string :=
  match p with
  | xH => EmptyString
  | xO p => String (Ascii.ascii_of_nat 48) (digits p)
  | xI p => String (Ascii.ascii_of_nat 49) (digits p)
  end.

Fixpoint undigits (s : string) : positive :=
  match s with
  | EmptyString => xH
  | String c s => if decide (c = Ascii.ascii_of_nat 48) then xO (undigits s) else xI (undigits s)
  end.

Lemma undigits_digits p : undigits (digits p) = p.
Proof. induction p as [p IH|p IH|]; cbn; by rewrite ?IH. Qed.

#[export] Instance sample_json : SerdeJson := {|
  from_str s := v ← decode (undigits s); if json_ok v then Some v else None;
  to_string v := digits (encode v)
|}.

(** Metadata printed by the sample printer reads back as it was. *)
Lemma sample_roundtrip v : json_ok v = true -> from_str (to_string v) = Some v.
Proof.
  intros Hv. unfold from_str, to_string, sample_json. rewrite undigits_digits, decode_encode.
  cbn [mbind option_bind]. by rewrite Hv.
Qed.

#[export] Instance sample_json_laws : SerdeJsonLaws.
Proof.
  split.
  - intros v Hv. exists v. split; [by apply sample_roundtrip|done].
  - intros s v. unfold from_str, sample_json. destruct (decode _) as [w|]; [|done]. cbn [mbind option_bind].
    destruct (json_ok w) eqn:E; [|done]. by intros [= <-].
Qed.

End SampleJson.
