(* ===== verification/Conversion.v ===== *)
(** * Conversion of messages to documents

    Models peat-protocol/src/storage/automerge_conversion.rs: a message is serialised to
    JSON, the JSON value is written into an Automerge document field by field, and a
    document is read back through JSON. Automerge is a library of its own: a document is
    seen through the fields its reader sees ([visible]), behind the class
    [AutomergeDoc]. The serialisation of a message type is the class [Serde]. Fields are
    listed in the order they were first written, which nothing depends on. A non-finite
    float in a document makes the reader panic ([None]). *)

From S2P Require Import Prelude CellState Node Float Bytes Json.
From stdpp Require Import pretty.
From Stdlib Require Import SpecFloat.

Open Scope Z_scope.

(** [automerge::ScalarValue] *)
Inductive Scalar :=
| ScBytes (b : bytes)
| ScStr (s : string)
| ScInt (z : Z)
| ScUint (z : Z)
| ScF64 (x : spec_float)
| ScCounter (z : Z)
| ScTimestamp (z : Z)
| ScBoolean (b : bool)
| ScNull
| ScUnknown.

(** What a reader finds under a key: a scalar or an object of one of four types *)
Inductive Obj :=
| OScalar (s : Scalar)
| OMap (fields : list (string * Obj))
| OList (items : list Obj)
| OText (s : string)
| OTable (rows : list (string * Obj)).

Definition Fields : Type := list (string * Obj).

Fixpoint lookup_obj (key : string) (fields : Fields) : option Obj :=
  match fields with
  | [] => None
  | (k, v) :: rest => if decide (k = key) then Some v else lookup_obj key rest
  end.

(** [tx.put(&obj, key, value)]: replaces what the key had *)
Fixpoint put (key : string) (v : Obj) (fields : Fields) : Fields :=
  match fields with
  | [] => [(key, v)]
  | (k, w) :: rest => if decide (k = key) then (k, v) :: rest else (k, w) :: put key v rest
  end.

(** [tx.insert(&list_id, idx, value)]: refused when the list is shorter than [idx] *)
Definition insert_at (idx : nat) (v : Obj) (items : list Obj) : result nat (list Obj) :=
  if decide (idx <= length items)%nat then Ok (take idx items ++ v :: drop idx items) else Err idx.

(** [n.as_i64()] then [n.as_f64()] *)
Definition number_obj (z : Z) : Obj :=
  if (- 2 ^ 63 <=? z) && (z <? 2 ^ 63) then OScalar (ScInt z) else OScalar (ScF64 (f64_of_Z z)).

(** [String::from_utf8_lossy]: the maximal prefix of a sequence that cannot be completed
    becomes U+FFFD. *)
Definition replacement : bytes := [xef; xbf; xbd].

(** Whether [c1] may follow the lead byte [b] of three or four bytes *)
Definition second_ok (b c1 : byte) : bool :=
  if u8 b =? 0xE0 then in_range 0xA0 0xBF c1
  else if u8 b =? 0xED then in_range 0x80 0x9F c1
  else if u8 b =? 0xF0 then in_range 0x90 0xBF c1
  else if u8 b =? 0xF4 then in_range 0x80 0x8F c1
  else is_continuation c1.

Fixpoint utf8_lossy (l : bytes) : bytes :=
  match l with
  | [] => []
  | b :: l1 =>
    if u8 b <? 0x80 then b :: utf8_lossy l1 else
    if in_range 0xC2 0xDF b then
      match l1 with
      | c1 :: l2 => if is_continuation c1 then b :: c1 :: utf8_lossy l2 else replacement ++ utf8_lossy l1
      | [] => replacement
      end
    else if in_range 0xE0 0xEF b then
      match l1 with
      | c1 :: l2 =>
          if second_ok b c1 then
            match l2 with
            | c2 :: l3 => if is_continuation c2 then b :: c1 :: c2 :: utf8_lossy l3 else replacement ++ utf8_lossy l2
            | [] => replacement
            end
          else replacement ++ utf8_lossy l1
      | [] => replacement
      end
    else if in_range 0xF0 0xF4 b then
      match l1 with
      | c1 :: l2 =>
          if second_ok b c1 then
            match l2 with
            | c2 :: l3 =>
                if is_continuation c2 then
                  match l3 with
                  | c3 :: l4 =>
                      if is_continuation c3 then b :: c1 :: c2 :: c3 :: utf8_lossy l4 else replacement ++ utf8_lossy l3
                  | [] => replacement
                  end
                else replacement ++ utf8_lossy l2
            | [] => replacement
            end
          else replacement ++ utf8_lossy l1
      | [] => replacement
      end
    else replacement ++ utf8_lossy l1
  end.

(** ** Writing *)

(** The loop over the items of an array; items that are neither strings nor objects are
    passed over, but keep their index. *)
Definition populate_items (populate : Json -> result nat Fields) : nat -> list Obj -> list Json -> result nat (list Obj) :=
  fix go idx items arr :=
    match arr with
    | [] => Ok items
    | item :: rest =>
        let? items' :=
          match item with
          | JString s => insert_at idx (OScalar (ScStr s)) items
          | JObject _ =>
              let? _ := insert_at idx (OMap []) items in
              let? nested := populate item in
              insert_at idx (OMap nested) items
          | _ => Ok items
          end in
        go (S idx) items' rest
    end.

(** The loop over the fields of an object; null fields are passed over. *)
Definition populate_fields (populate : Json -> result nat Fields) : Fields -> list (string * Json) -> result nat Fields :=
  fix go obj map :=
    match map with
    | [] => Ok obj
    | (key, value) :: rest =>
        let? obj' :=
          match value with
          | JNull => Ok obj
          | JBool b => Ok (put key (OScalar (ScBoolean b)) obj)
          | JInt z => Ok (put key (number_obj z) obj)
          | JFloat x => Ok (put key (OScalar (ScF64 x)) obj)
          | JString s => Ok (put key (OScalar (ScStr s)) obj)
          | JArray arr => let? items := populate_items populate 0 [] arr in Ok (put key (OList items) obj)
          | JObject _ => let? nested := populate value in Ok (put key (OMap nested) obj)
          end in
        go obj' rest
    end.

(** [populate_from_json]: the error is the index of a refused insertion. *)
Fixpoint populate_from_json (json : Json) (obj : Fields) : result nat Fields :=
  match json with
  | JObject map => populate_fields (fun v => populate_from_json v []) obj map
  | _ => Ok obj
  end.

(** ** Reading *)

Definition scalar_json (s : Scalar) : option Json :=
  match s with
  | ScBytes b => Some (JString (String.string_of_list_byte (utf8_lossy b)))
  | ScStr s => Some (JString s)
  | ScInt i => Some (JInt i)
  | ScUint u => Some (JInt u)
  | ScF64 x => match x with S754_zero _ | S754_finite _ _ _ => Some (JFloat x) | _ => None end
  | ScCounter _ => Some JNull
  | ScTimestamp ts => Some (JInt ts)
  | ScBoolean b => Some (JBool b)
  | ScNull => Some JNull
  | ScUnknown => Some JNull
  end.

Definition extract_items (extract : Obj -> option Json) : list Obj -> option (list Json) :=
  fix go items :=
    match items with
    | [] => Some []
    | val :: rest =>
        match val with
        | OScalar (ScStr s) => l ← go rest; Some (JString s :: l)
        | OMap _ => v ← extract val; l ← go rest; Some (v :: l)
        | _ => go rest
        end
    end.

Definition extract_fields (extract : Obj -> option Json) : Fields -> option (list (string * Json)) :=
  fix go fields :=
    match fields with
    | [] => Some []
    | (key, value) :: rest => v ← extract value; l ← go rest; Some ((key, v) :: l)
    end.

Fixpoint extract_value (value : Obj) : option Json :=
  match value with
  | OScalar s => scalar_json s
  | OMap fs => JObject <$> extract_fields extract_value fs
  | OList items => JArray <$> extract_items extract_value items
  | OText _ | OTable _ => Some JNull
  end.

Definition extract_to_json (fields : Fields) : option Json := extract_value (OMap fields).

(** Whether the field of a key is there and neither empty nor zero *)
Definition document_has_field (fields : Fields) (field_name : string) : bool :=
  match lookup_obj field_name fields with
  | Some (OScalar (ScStr s)) => negb (bool_decide (s = EmptyString))
  | Some (OScalar (ScBytes b)) => negb (bool_decide (b = []))
  | Some (OScalar (ScInt i)) => negb (i =? 0)
  | Some (OScalar (ScUint u)) => negb (u =? 0)
  | Some (OScalar (ScF64 x)) => match x with S754_zero _ => false | _ => true end
  | Some (OScalar (ScBoolean b)) => b
  | Some (OScalar ScNull) => false
  | Some _ => true
  | None => false
  end.

(** ** Messages *)

Class AutomergeDoc (Doc : Type) := {
  new_doc : Doc;
  fork : Doc -> Doc;
  visible : Doc -> Fields;
  (** the document after a transaction that leaves these fields *)
  committed : Doc -> Fields -> Doc;
  (** the error of an insertion past the end of a list, as [{:?}] prints it *)
  invalid_index : nat -> string
}.

(** A new document is empty, a fork has the fields of its origin and a transaction is
    seen by the next reader. *)
Class AutomergeDocLaws (Doc : Type) `{AutomergeDoc Doc} : Prop := {
  new_visible : visible new_doc = [];
  fork_visible d : visible (fork d) = visible d;
  committed_visible d fs : visible (committed d fs) = fs
}.

Class Serde (M : Type) := {
  to_value : M -> result string Json;
  from_value : Json -> result string M
}.

Section Messages.
Context {Doc : Type} `{AutomergeDoc Doc}.
Context {M : Type} `{Serde M}.

Definition message_to_automerge_into (message : M) (existing : option Doc) : result string Doc :=
  match to_value message with
  | Err e => Err ("Failed to serialize message to JSON: " +:+ e)
  | Ok json =>
      let doc := match existing with Some prev => fork prev | None => new_doc end in
      match populate_from_json json (visible doc) with
      | Ok fields => Ok (committed doc fields)
      | Err idx => Err ("Failed to populate Automerge document: " +:+ invalid_index idx)
      end
  end.

Definition message_to_automerge (message : M) : result string Doc := message_to_automerge_into message None.

Definition automerge_to_message (doc : Doc) : option (result string M) :=
  json ← extract_to_json (visible doc);
  Some (match from_value json with
        | Ok message => Ok message
        | Err e => Err ("Failed to deserialize JSON to message: " +:+ e)
        end).

Definition automerge_to_message_if_complete (doc : Doc) (required_field : string) : option (result string (option M)) :=
  if negb (document_has_field (visible doc) required_field) then Some (Ok None)
  else r ← automerge_to_message doc; Some (let? m := r in Ok (Some m)).

(** What [cell_state_to_automerge], [node_config_to_automerge] and
    [node_state_to_automerge] share *)
Definition state_to_automerge (name : string) (message : M) : result string Doc :=
  match to_value message with
  | Err e => Err ("Failed to serialize " +:+ name +:+ " to JSON: " +:+ e)
  | Ok json =>
      match populate_from_json json (visible new_doc) with
      | Ok fields => Ok (committed new_doc fields)
      | Err idx => Err ("Failed to populate Automerge document: " +:+ invalid_index idx)
      end
  end.

(** What [automerge_to_cell_state], [automerge_to_node_config] and
    [automerge_to_node_state] share *)
Definition automerge_to_state (name : string) (doc : Doc) : option (result string M) :=
  json ← extract_to_json (visible doc);
  Some (match from_value json with
        | Ok message => Ok message
        | Err e => Err ("Failed to deserialize JSON to " +:+ name +:+ ": " +:+ e)
        end).

End Messages.

Section States.
Context {Doc : Type} `{AutomergeDoc Doc, Serde CellState, Serde NodeConfig, Serde NodeState}.

Definition cell_state_to_automerge : CellState -> result string Doc := state_to_automerge "CellState".
Definition automerge_to_cell_state : Doc -> option (result string CellState) := automerge_to_state "CellState".
Definition node_config_to_automerge : NodeConfig -> result string Doc := state_to_automerge "NodeConfig".
Definition automerge_to_node_config : Doc -> option (result string NodeConfig) := automerge_to_state "NodeConfig".
Definition node_state_to_automerge : NodeState -> result string Doc := state_to_automerge "NodeState".
Definition automerge_to_node_state : Doc -> option (result string NodeState) := automerge_to_state "NodeState".

End States.

(** ** What a document keeps *)

Lemma Json_ind' (P : Json -> Prop) :
  P JNull -> (forall b, P (JBool b)) -> (forall z, P (JInt z)) -> (forall x, P (JFloat x)) ->
  (forall s, P (JString s)) -> (forall l, Forall P l -> P (JArray l)) ->
  (forall fs, Forall (fun f => P (snd f)) fs -> P (JObject fs)) -> forall v, P v.
Proof.
  intros Hn Hb Hi Hf Hs Ha Ho. fix IH 1. intros [|b|z|x|s|l|fs]; [done..| |].
  - apply Ha. induction l; constructor; [apply IH|done].
  - apply Ho. induction fs as [|[k v] fs IHfs]; constructor; [apply IH|done].
Qed.

Definition is_null (v : Json) : bool := match v with JNull => true | _ => false end.

(** Values a document can hold: signed 64-bit integers and finite floats, arrays of
    strings and objects only, objects without repeated keys *)
Fixpoint plain (v : Json) : bool :=
  match v with
  | JInt z => (- 2 ^ 63 <=? z) && (z <? 2 ^ 63)
  | JFloat x => match x with S754_zero _ | S754_finite _ _ _ => true | _ => false end
  | JArray l => forallb (fun w => match w with JString _ | JObject _ => plain w | _ => false end) l
  | JObject fs => bool_decide (NoDup fs.*1) && forallb (fun f => plain (snd f)) fs
  | _ => true
  end.

(** The value without its null fields *)
Fixpoint strip (v : Json) : Json :=
  match v with
  | JArray l => JArray (map strip l)
  | JObject fs => JObject (flat_map (fun f => if is_null (snd f) then [] else [(fst f, strip (snd f))]) fs)
  | _ => v
  end.

(** What writing a value leaves in the document *)
Fixpoint written (v : Json) : Obj :=
  match v with
  | JNull => OScalar ScNull
  | JBool b => OScalar (ScBoolean b)
  | JInt z => number_obj z
  | JFloat x => OScalar (ScF64 x)
  | JString s => OScalar (ScStr s)
  | JArray l => OList (map written l)
  | JObject fs => OMap (flat_map (fun f => if is_null (snd f) then [] else [(fst f, written (snd f))]) fs)
  end.

(** The fields of an object as they are written *)
Definition kept (fs : list (string * Json)) : Fields :=
  flat_map (fun f => if is_null (snd f) then [] else [(fst f, written (snd f))]) fs.

Definition overlay (obj new : Fields) : Fields := foldl (fun o f => put (fst f) (snd f) o) obj new.

Lemma put_fresh k v obj : k ∉ obj.*1 -> put k v obj = obj ++ [(k, v)].
Proof.
  induction obj as [|[k' w] obj IH]; [done|]. rewrite fmap_cons, not_elem_of_cons. intros [Hk Hn]. cbn [put app].
  rewrite decide_False by done. by rewrite IH.
Qed.

Lemma lookup_put k k' v obj : lookup_obj k' (put k v obj) = if decide (k = k') then Some v else lookup_obj k' obj.
Proof.
  induction obj as [|[k0 w] obj IH]; cbn [put lookup_obj]; [done|].
  destruct (decide (k0 = k)) as [->|Hk]; cbn [lookup_obj]; [by case_decide|].
  rewrite IH. destruct (decide (k0 = k')) as [->|]; [by rewrite (decide_False (P := k = k'))|done].
Qed.

Lemma kept_keys fs k : k ∈ (kept fs).*1 -> k ∈ fs.*1.
Proof.
  unfold kept. induction fs as [|[k' v] fs IH]; [done|]. cbn [flat_map fst snd]. rewrite fmap_app, elem_of_app, fmap_cons, elem_of_cons.
  cbn [fst]. destruct (is_null v); cbn; set_solver.
Qed.

Lemma kept_nodup fs : NoDup fs.*1 -> NoDup (kept fs).*1.
Proof.
  induction fs as [|[k v] fs IH]; [done|]. rewrite fmap_cons, NoDup_cons. intros [Hk Hn].
  unfold kept in *. cbn [flat_map fst snd]. destruct (is_null v); cbn [app]; [auto|].
  rewrite fmap_cons. apply NoDup_cons. split; [|auto]. intros Hin. apply Hk. by apply kept_keys.
Qed.

Lemma overlay_fresh obj new : NoDup new.*1 -> (forall k, k ∈ new.*1 -> k ∉ obj.*1) -> overlay obj new = obj ++ new.
Proof.
  unfold overlay. revert obj. induction new as [|[k v] new IH]; intros obj Hn Hd; [by rewrite app_nil_r|].
  rewrite fmap_cons, NoDup_cons in Hn. destruct Hn as [Hk Hn]. cbn [foldl fst snd].
  rewrite put_fresh by (apply Hd; by left). rewrite IH; [by rewrite <- app_assoc|done|].
  intros k' Hk'. rewrite fmap_app, elem_of_app. cbn. intros [?| ->%list_elem_of_singleton]; [|done].
  eapply Hd; [|done]. by right.
Qed.

Lemma insert_at_end v items : insert_at (length items) v items = Ok (items ++ [v]).
Proof.
  unfold insert_at. rewrite decide_True by done. by rewrite firstn_all, skipn_all.
Qed.

(** Plain objects and arrays are written without an error. *)
Lemma populate_plain v : plain v = true ->
  match v with
  | JObject fs => forall obj, populate_from_json v obj = Ok (overlay obj (kept fs))
  | JArray l => forall items, populate_items (fun v => populate_from_json v []) (length items) items l = Ok (items ++ map written l)
  | _ => True
  end.
Proof.
  induction v as [| | | | |l IH|fs IH] using Json_ind'; try done.
  - cbn [plain]. intros Hp. revert Hp. induction IH as [|v l Hv _ IHl]; intros Hp items; [by rewrite app_nil_r|].
    cbn [forallb] in Hp. apply andb_true_iff in Hp as [Hpv Hpl]. cbn [populate_items map].
    destruct v as [| | | |s| |fs0]; try done.
    + rewrite insert_at_end. specialize (IHl Hpl (items ++ [OScalar (ScStr s)])). rewrite length_app in IHl. cbn [length] in IHl.
      rewrite Nat.add_1_r in IHl. rewrite IHl. by rewrite <- app_assoc.
    + rewrite insert_at_end, (Hv Hpv []). rewrite insert_at_end.
      specialize (IHl Hpl (items ++ [OMap (overlay [] (kept fs0))])). rewrite length_app in IHl. cbn [length] in IHl.
      rewrite Nat.add_1_r in IHl. rewrite IHl, <- app_assoc. cbn [app written]. rewrite overlay_fresh; [done| |set_solver].
      apply kept_nodup. cbn [plain] in Hpv. apply andb_true_iff in Hpv as [Hn _]. by apply bool_decide_eq_true in Hn.
  - cbn [plain]. rewrite andb_true_iff. intros [_ Hp]. cbn [populate_from_json].
    induction IH as [|[k v] fs Hv _ IHfs]; intros obj; [done|].
    cbn [forallb snd] in Hp, Hv. apply andb_true_iff in Hp as [Hpv Hpf]. specialize (IHfs Hpf).
    cbn [populate_fields]. unfold kept, overlay in *. cbn [flat_map fst snd].
    destruct v as [|b|z|x|s|l|fs0]; cbn [is_null app foldl fst snd]; try (by apply IHfs).
    + rewrite (Hv Hpv [] : populate_items _ 0 [] l = _). by apply IHfs.
    + rewrite (Hv Hpv []). cbn [written]. rewrite <- IHfs. unfold kept in Hv.
      enough (overlay [] (kept fs0) = kept fs0) as E by (unfold overlay, kept in E; by rewrite E).
      apply overlay_fresh; [|set_solver]. apply kept_nodup. cbn [plain] in Hpv.
      apply andb_true_iff in Hpv as [Hn _]. by apply bool_decide_eq_true in Hn.
Qed.

(** What was written is read back. *)
Lemma extract_written v : plain v = true -> extract_value (written v) = Some (strip v).
Proof.
  induction v as [| |z|x| |l IH|fs IH] using Json_ind'; cbn [plain]; intros Hp; try done.
  - cbn [written]. unfold number_obj. by rewrite Hp.
  - cbn. by destruct x.
  - cbn [written extract_value strip]. enough (extract_items extract_value (map written l) = Some (map strip l)) as -> by done.
    induction IH as [|v l Hv _ IHl]; [done|]. cbn [forallb] in Hp. apply andb_true_iff in Hp as [Hpv Hpl].
    cbn [map extract_items]. destruct v as [| | | |s| |fs0]; try done.
    + cbn [written]. by rewrite (IHl Hpl).
    + specialize (Hv Hpv). cbn [written] in *. rewrite Hv. cbn [mbind option_bind]. by rewrite (IHl Hpl).
  - cbn [written extract_value strip]. apply andb_true_iff in Hp as [_ Hp].
    match goal with |- JObject <$> ?e = Some (JObject ?r) => enough (e = Some r) as -> by done end.
    induction IH as [|[k v] fs Hv _ IHfs]; [done|]. cbn [forallb snd] in Hp. apply andb_true_iff in Hp as [Hpv Hpf].
    cbn [flat_map fst snd] in *. destruct (is_null v) eqn:En; cbn [app]; [by apply IHfs|].
    cbn [extract_fields]. rewrite (Hv Hpv). cbn [mbind option_bind]. by rewrite (IHfs Hpf).
Qed.

(** ** Fields after a write *)

Definition extractable (fields : Fields) : Prop := Forall (fun f => is_Some (extract_value (snd f))) fields.

Lemma extract_fields_some fields : extractable fields -> exists gs, extract_fields extract_value fields = Some gs.
Proof.
  induction 1 as [|[k v] fields [w Hv] _ [gs IH]]; [by exists []|]. cbn [snd] in Hv. cbn [extract_fields].
  rewrite Hv. cbn [mbind option_bind]. rewrite IH. by eexists.
Qed.

Lemma extract_fields_extractable fields gs : extract_fields extract_value fields = Some gs -> extractable fields.
Proof.
  revert gs. induction fields as [|[k v] fields IH]; intros gs; [constructor|]. cbn [extract_fields].
  destruct (extract_value v) as [w|] eqn:Ev; [|done]. cbn [mbind option_bind].
  destruct (extract_fields extract_value fields) as [gs'|]; [|done]. intros _. constructor; [by exists w|by eapply IH].
Qed.

Lemma field_extracted fields gs k :
  extract_fields extract_value fields = Some gs -> field k gs = lookup_obj k fields ≫= extract_value.
Proof.
  revert gs. induction fields as [|[k' v] fields IH]; intros gs; [by intros [= <-]|]. cbn [extract_fields lookup_obj].
  destruct (extract_value v) as [w|] eqn:Ev; [|done]. cbn [mbind option_bind].
  destruct (extract_fields extract_value fields) as [gs'|]; [|done]. cbn [mbind option_bind]. intros [= <-]. cbn [field].
  case_decide; [by cbn [mbind option_bind]; rewrite Ev|by apply IH].
Qed.

Lemma put_extractable k v fields : extractable fields -> is_Some (extract_value v) -> extractable (put k v fields).
Proof.
  intros Hf Hv. induction Hf as [|[k' w] fields Hw Hf IH]; cbn [put]; [by repeat constructor|].
  case_decide; by constructor.
Qed.

Lemma overlay_extractable obj new : extractable obj -> extractable new -> extractable (overlay obj new).
Proof.
  unfold overlay. intros Ho Hn. revert obj Ho. induction Hn as [|[k v] new Hv _ IH]; intros obj Ho; [done|].
  cbn [foldl fst snd]. apply IH. by apply put_extractable.
Qed.

Lemma lookup_obj_none k (fields : Fields) : k ∉ fields.*1 -> lookup_obj k fields = None.
Proof.
  induction fields as [|[k' w] fields IH]; [done|]. rewrite fmap_cons, not_elem_of_cons. intros [Hk Hn].
  cbn [lookup_obj]. cbn [fst] in Hk. rewrite decide_False by done. by apply IH.
Qed.

Lemma lookup_overlay obj new k :
  NoDup new.*1 -> lookup_obj k (overlay obj new) = match lookup_obj k new with Some v => Some v | None => lookup_obj k obj end.
Proof.
  unfold overlay. revert obj. induction new as [|[k' v] new IH]; intros obj; [done|]. rewrite fmap_cons, NoDup_cons. intros [Hk Hn].
  cbn [foldl fst snd lookup_obj]. rewrite (IH _ Hn), lookup_put. case_decide; [|done]. subst k'.
  by rewrite lookup_obj_none.
Qed.

Lemma lookup_kept fs k :
  NoDup fs.*1 ->
  lookup_obj k (kept fs) = match field k fs with Some v => if is_null v then None else Some (written v) | None => None end.
Proof.
  induction fs as [|[k' v] fs IH]; [done|]. rewrite fmap_cons, NoDup_cons. intros [Hk Hn].
  unfold kept in *. cbn [flat_map field fst snd]. destruct (is_null v) eqn:En; cbn [app lookup_obj].
  - case_decide; [|by apply IH]. subst k'. rewrite En. apply lookup_obj_none. intros Hin. apply Hk. by apply kept_keys.
  - case_decide; [by rewrite En|by apply IH].
Qed.

Lemma field_elem fs k v : NoDup fs.*1 -> (k, v) ∈ fs <-> field k fs = Some v.
Proof.
  induction fs as [|[k' w] fs IH]; [intros _; split; [by intros ?%not_elem_of_nil|done]|].
  rewrite fmap_cons, NoDup_cons, elem_of_cons. intros [Hk Hn]. cbn [field fst] in *. rewrite (IH Hn).
  case_decide as E.
  - subst k'. split; [|intros [= ->]; by left]. intros [[= ->]|Hf]; [done|]. exfalso. apply Hk.
    apply (IH Hn) in Hf. apply list_elem_of_fmap. by exists (k, v).
  - split; [intros [[= -> ->]|?]; done|by right].
Qed.

(** How the value [v] of a field is found again *)
Definition reads_as (v : Json) (o : option Json) : Prop :=
  if is_null v then o = None \/ o = Some JNull else o = Some (strip v).

(** Writing an object into a document: its own fields are found again unless they are
    null and the document already had them. *)
Lemma populate_read fs obj :
  plain (JObject fs) = true -> extractable obj ->
  (forall k, field k fs = Some JNull -> reads_as JNull (lookup_obj k obj ≫= extract_value)) ->
  exists obj' gs, populate_from_json (JObject fs) obj = Ok obj' /\ extract_to_json obj' = Some (JObject gs) /\
    forall k v, field k fs = Some v -> reads_as v (field k gs).
Proof.
  intros Hp Hx Hnull. exists (overlay obj (kept fs)).
  assert (NoDup fs.*1 /\ forallb (fun f => plain (snd f)) fs = true) as [Hn Hf].
  { cbn [plain] in Hp. apply andb_true_iff in Hp as [Hn ?]. by apply bool_decide_eq_true in Hn. }
  assert (extractable (kept fs)) as Hk.
  { unfold kept, extractable. apply Forall_flat_map, Forall_forall. intros [k v] Hin. cbn [fst snd].
    destruct (is_null v); repeat constructor. cbn [snd]. rewrite extract_written; [by eexists|].
    apply list_elem_of_In in Hin. by apply (proj1 (forallb_forall _ _) Hf (k, v)). }
  destruct (extract_fields_some _ (overlay_extractable _ _ Hx Hk)) as [gs Hgs]. exists gs. split_and!.
  - apply (populate_plain (JObject fs) Hp).
  - unfold extract_to_json. cbn [extract_value]. by rewrite Hgs.
  - intros k v Hv. rewrite (field_extracted _ _ k Hgs), lookup_overlay by by apply kept_nodup.
    rewrite lookup_kept, Hv by done. unfold reads_as. destruct (is_null v) eqn:En.
    + destruct v; try done. by apply (Hnull k).
    + cbn [mbind option_bind]. apply extract_written.
      apply (field_elem _ _ _ Hn), list_elem_of_In in Hv. by apply (proj1 (forallb_forall _ _) Hf (k, v)).
Qed.

(** ** Messages in documents *)

(** What the code relies on of a serialised message type. The messages of which it holds
    are those whose JSON a document can hold ([faithful]). They have finite floats only
    (serde_json writes the others as null), integers within the signed 64-bit range, and no
    arrays but those of strings and of objects, so no byte fields and no lists of numbers;
    the theorems under Limits below show what happens to the others. The JSON of such a
    message is a plain object; reading needs the fields of the message only, and takes a
    missing field for a null one; a field that reads as null was missing or null. *)
Class SerdeLaws (M : Type) `{Serde M} := {
  faithful : M -> Prop;
  value_plain m : faithful m -> exists fs, to_value m = Ok (JObject fs) /\ plain (JObject fs) = true;
  value_read m fs gs : to_value m = Ok (JObject fs) -> faithful m ->
    (forall k v, field k fs = Some v -> reads_as v (field k gs)) -> from_value (JObject gs) = Ok m;
  null_read m fs gs k : from_value (JObject gs) = Ok m -> faithful m -> to_value m = Ok (JObject fs) ->
    field k fs = Some JNull -> reads_as JNull (field k gs)
}.

Section Reading.
Context {Doc : Type} `{AutomergeDocLaws Doc}.
Context {M : Type} `{SerdeLaws M}.

(** Every field set in [m0] is set in [m]. *)
Definition keeps (m0 m : M) : Prop :=
  forall fs0 fs k, to_value m0 = Ok (JObject fs0) -> to_value m = Ok (JObject fs) ->
    field k fs = Some JNull -> field k fs0 = Some JNull.

Lemma into_read m (existing : option Doc) :
  faithful m -> extractable (visible (match existing with Some d => fork d | None => new_doc end)) ->
  (forall fs k, to_value m = Ok (JObject fs) -> field k fs = Some JNull ->
     reads_as JNull (lookup_obj k (visible (match existing with Some d => fork d | None => new_doc end)) ≫= extract_value)) ->
  exists d, message_to_automerge_into m existing = Ok d /\ automerge_to_message d = Some (Ok m).
Proof.
  intros Hm Hx Hnull. destruct (value_plain m Hm) as (fs & Ev & Hp). unfold message_to_automerge_into. rewrite Ev.
  edestruct (populate_read fs _ Hp Hx (fun k => Hnull fs k Ev)) as (obj & gs & -> & Hg & Hr).
  eexists. split; [done|]. unfold automerge_to_message. rewrite committed_visible, Hg. cbn [mbind option_bind].
  by rewrite (value_read m fs gs).
Qed.

Lemma fresh_read m : faithful m -> exists d : Doc, message_to_automerge m = Ok d /\ automerge_to_message d = Some (Ok m).
Proof.
  intros Hm. apply into_read; [done| |]; rewrite new_visible; [constructor|]. intros fs k _ _. by left.
Qed.

Lemma rewritten_read m0 m (d : Doc) :
  automerge_to_message d = Some (Ok m0) -> faithful m0 -> faithful m -> keeps m0 m ->
  exists d', message_to_automerge_into m (Some d) = Ok d' /\ automerge_to_message d' = Some (Ok m).
Proof.
  intros Hd Hm0 Hm Hk. unfold automerge_to_message, extract_to_json in Hd. cbn [extract_value] in Hd.
  destruct (extract_fields extract_value (visible d)) as [gs|] eqn:Hg; [|done]. cbn [fmap option_fmap option_map mbind option_bind] in Hd.
  destruct (from_value (JObject gs)) as [m'|] eqn:Hv; [|done]. injection Hd as ->.
  destruct (value_plain m0 Hm0) as (fs0 & Ev0 & _).
  apply into_read; [done| |]; rewrite fork_visible.
  - by eapply extract_fields_extractable.
  - intros fs k Ev Hn. rewrite <- (field_extracted _ _ k Hg). eapply null_read; [done..|]. by apply (Hk fs0 fs k).
Qed.

(** A field that is set is seen in the document. *)
Lemma into_visible m fs k v (existing : option Doc) d :
  to_value m = Ok (JObject fs) -> plain (JObject fs) = true -> field k fs = Some v -> is_null v = false ->
  message_to_automerge_into m existing = Ok d -> lookup_obj k (visible d) = Some (written v).
Proof.
  intros Ev Hp Hf Hn. unfold message_to_automerge_into. rewrite Ev.
  assert (NoDup fs.*1) as Hnd by (cbn [plain] in Hp; apply andb_true_iff in Hp as [?%bool_decide_eq_true _]; done).
  rewrite (populate_plain (JObject fs) Hp). intros [= <-]. rewrite committed_visible.
  by rewrite lookup_overlay, lookup_kept, Hf, Hn by (done || by apply kept_nodup).
Qed.

(** C26: a message whose JSON a document can hold (finite floats, integers within the
    signed 64-bit range, arrays of strings or objects only, so no byte fields and no lists
    of numbers) survives the document: it is written without an error and read back, into a
    new document and over an older such message of its type that sets no field the new one
    leaves out; and the reader of such a document never panics. *)
Theorem message_survives_document m m0 (d : Doc) :
  faithful m ->
  (exists d', message_to_automerge m = Ok d' /\ automerge_to_message d' = Some (Ok m)) /\
  (faithful m0 -> keeps m0 m -> automerge_to_message d = Some (Ok m0) ->
   exists d', message_to_automerge_into m (Some d) = Ok d' /\ automerge_to_message d' = Some (Ok m)).
Proof. intros Hm. split; [by apply fresh_read|]. intros Hm0 Hk Hd. by eapply rewritten_read. Qed.

End Reading.

(** ** Limits *)

(** A null field writes nothing: what the document had under its key stays. *)
Theorem cleared_field_stays fs obj k :
  plain (JObject fs) = true -> field k fs = Some JNull ->
  exists obj', populate_from_json (JObject fs) obj = Ok obj' /\ lookup_obj k obj' = lookup_obj k obj.
Proof.
  intros Hp Hk. eexists. split; [apply (populate_plain (JObject fs) Hp)|].
  cbn [plain] in Hp. apply andb_true_iff in Hp as [Hn _]. apply bool_decide_eq_true in Hn.
  by rewrite lookup_overlay, lookup_kept, Hk by (done || by apply kept_nodup).
Qed.

(** An array of numbers, as bytes and enumerations are serialised, is stored empty. *)
Theorem number_arrays_lost k l obj :
  populate_from_json (JObject [(k, JArray (JInt <$> l))]) obj = Ok (put k (OList []) obj).
Proof.
  cbn [populate_from_json populate_fields].
  assert (forall idx, populate_items (fun v => populate_from_json v []) idx [] (JInt <$> l) = Ok []) as Hi
    by (induction l as [|z l IH]; intros idx; [done|]; by apply IH).
  by rewrite Hi.
Qed.

(** Skipped items keep their index, so a string after one is refused. *)
Theorem mixed_array_refused k z s obj :
  populate_from_json (JObject [(k, JArray [JInt z; JString s])]) obj = Err 1%nat.
Proof. done. Qed.

(** An unsigned integer above the signed range comes back as a float. *)
Theorem large_unsigned_becomes_float k z :
  2 ^ 63 <= z -> populate_from_json (JObject [(k, JInt z)]) [] = Ok [(k, OScalar (ScF64 (f64_of_Z z)))].
Proof. intros Hz. cbn. unfold number_obj. by rewrite (proj2 (Z.ltb_ge _ _)), andb_false_r by lia. Qed.

(** An infinite float in a document, which another writer may have put there, makes the
    reader panic. *)
Theorem infinite_float_panics b k rest : extract_to_json ((k, OScalar (ScF64 (S754_infinity b))) :: rest) = None.
Proof. done. Qed.

(** Valid text is not changed by the lossy reading of bytes. *)
Lemma utf8_lossy_valid l : utf8_valid l = true -> utf8_lossy l = l.
Proof.
  assert (forall n l, (length l <= n)%nat -> utf8_valid l = true -> utf8_lossy l = l) as H; [|by eapply H].
  clear l. intros n. induction n as [|n IH]; intros [|b l]; cbn [length]; intros Hl; [done|lia|done|].
  cbn [utf8_valid utf8_lossy]. destruct (u8 b <? 0x80) eqn:E1; [intros Hv; rewrite IH by (done || lia); done|].
  destruct l as [|c1 l]; [done|]. destruct (in_range 0xC2 0xDF b) eqn:E2.
  { rewrite andb_true_iff. intros [-> Hv]. cbn [length] in Hl. by rewrite IH by (done || lia). }
  destruct l as [|c2 l]; [done|]. cbn [length] in Hl. destruct (in_range 0xE0 0xEF b) eqn:E3.
  { rewrite !andb_true_iff. intros [[H1 ->] Hv]. replace (second_ok b c1) with true; [by rewrite IH by (done || lia)|].
    symmetry. unfold second_ok, in_range in *. apply andb_true_iff in E3 as [Ea Eb]. apply Z.leb_le in Ea, Eb.
    do 2 (case_match; [done|]). by rewrite !(proj2 (Z.eqb_neq _ _)) by lia. }
  destruct l as [|c3 l]; [done|]. cbn [length] in Hl.
  rewrite !andb_true_iff. intros [[[[E4 H1] ->] ->] Hv]. rewrite E4.
  replace (second_ok b c1) with true; [by rewrite IH by (done || lia)|].
  symmetry. unfold second_ok, in_range in *. apply andb_true_iff in E4 as [Ea Eb]. apply Z.leb_le in Ea, Eb.
  rewrite (proj2 (Z.eqb_neq (u8 b) 0xE0)), (proj2 (Z.eqb_neq (u8 b) 0xED)) by lia. done.
Qed.

(** ** Instances *)

Module SampleDocs.

(** A document that is just its fields *)
#[export] Instance plain_doc : AutomergeDoc Fields := {|
  new_doc := []; fork d := d; visible d := d; committed _ fs := fs;
  invalid_index n := "InvalidIndex(" +:+ pretty n +:+ ")"
|}.

#[export] Instance plain_doc_laws : AutomergeDocLaws Fields.
Proof. done. Qed.

Record Note := mkNote { title : string; remark : option string }.

#[export] Instance note_serde : Serde Note := {|
  to_value n := Ok (JObject [("title"%string, JString (title n)); ("remark"%string, json_option JString (remark n))]);
  from_value j :=
    match json_get "title" j, json_get "remark" j with
    | Some (JString t), None | Some (JString t), Some JNull => Ok (mkNote t None)
    | Some (JString t), Some (JString r) => Ok (mkNote t (Some r))
    | _, _ => Err "invalid type"%string
    end
|}.

#[export] Instance note_laws : SerdeLaws Note.
Proof.
  refine {| faithful _ := True |}.
  - intros [t r] _. eexists. split; [done|]. by destruct r.
  - intros [t r] fs gs [= <-] _ Hr.
    pose proof (Hr "title"%string (JString t) eq_refl) as Ht. specialize (Hr "remark"%string (json_option JString r) eq_refl).
    unfold reads_as in *. cbn in Ht. cbn [from_value note_serde json_get]. rewrite Ht.
    destruct r as [r|]; cbn in Hr; [by rewrite Hr|]. by destruct Hr as [-> | ->].
  - intros [t r] fs gs k Hf _ [= <-] Hk. cbn [field] in Hk. repeat case_decide; try done. subst k.
    destruct r; [done|]. unfold reads_as. cbn [is_null]. cbn [from_value note_serde json_get] in Hf.
    repeat case_match; simplify_eq; auto.
Defined.

Definition first : Note := mkNote "a" None.
Definition second : Note := mkNote "b" (Some "c"%string).
Definition stored : Fields := [("title"%string, OScalar (ScStr "a"))].

Lemma message_survives_document_witness :
  exists d', message_to_automerge_into second (Some stored) = Ok d' /\ automerge_to_message d' = Some (Ok second).
Proof.
  apply (message_survives_document second first stored); [done|done| |reflexivity].
  intros fs0 fs k [= <-] [= <-]. cbn. by repeat case_decide.
Defined.

(** The remark of the second note stays when the first one is written over it. *)
Example remark_not_cleared :
  exists d', message_to_automerge_into first (Some [("title"%string, OScalar (ScStr "b")); ("remark"%string, OScalar (ScStr "c"))]) = Ok d' /\
    automerge_to_message d' = Some (Ok (mkNote "a" (Some "c"%string))).
Proof. eexists. split; reflexivity. Qed.

End SampleDocs.
