(* ===== verification/StateAggregation.v ===== *)
(** * Summaries of the hierarchy

    Models peat-protocol/src/hierarchy/state_aggregation.rs: the summary of a cell from
    the states of its nodes, and of a cohort, a federation and a coalition from the
    summaries one tier below (messages of peat-schema/proto/hierarchy.proto). The three
    upper messages differ only in the names of their fields and share the record
    [TierSummary]; the helper functions that the source repeats for each tier are
    written once, over what they read of a summary ([Part]). Coordinates are binary64,
    averages binary32. A sum of 32-bit counts that overflows panics ([None]). The
    precision of trigonometric functions depends on the platform: they are the class
    [LibM]. The iteration orders of the hash maps are [HashOrder] and [ValueOrder], the
    readings of the clock are arguments. *)

From S2P Require Import Prelude Float Error Capability CellState Operator Node Formation.
From stdpp Require Import pretty.
From Stdlib Require Import SpecFloat Ascii.

Open Scope Z_scope.

Class LibM := {
  f64_sin : spec_float -> spec_float;
  f64_cos : spec_float -> spec_float;
  f64_atan2 : spec_float -> spec_float -> spec_float;
  f64_powi : spec_float -> Z -> spec_float
}.

(** [into_values()] of a hash map keyed by the number of a capability type *)
Class ValueOrder := {
  values : gmap Z Capability -> list Capability;
  values_perm m : values m ≡ₚ (map_to_list m).*2
}.

Definition add64 := SFadd 53 1024.
Definition sub64 := SFsub 53 1024.
Definition mul64 := SFmul 53 1024.
Definition div64 := SFdiv 53 1024.
Definition sqrt64 := SFsqrt 53 1024.

Definition infinity : spec_float := S754_infinity false.
Definition neg_infinity : spec_float := S754_infinity true.

(** [iter().sum::<u32>()] *)
Fixpoint sum_u32_from (acc : Z) (l : list Z) : option Z :=
  match l with
  | [] => Some acc
  | x :: l => acc ← checked_u32 (acc + x); sum_u32_from acc l
  end.

Definition sum_u32 (l : list Z) : option Z := sum_u32_from 0 l.

(** [iter().sum()] of floats starts from the negative zero. *)
Definition sum_f64 (l : list spec_float) : spec_float := fold_left add64 l (S754_zero true).
Definition sum_f32 (l : list spec_float) : spec_float := fold_left add32 l (S754_zero true).

(** ** Messages *)

Record BoundingBox := mkBoundingBox {
  southwest : option Position;
  northeast : option Position;
  max_altitude : spec_float;
  min_altitude : spec_float;
  radius_m : spec_float
}.

Record CellSummary := mkCellSummary {
  cs_cell_id : string;
  cs_leader_id : string;
  member_ids : list string;
  member_count : Z;
  cs_centroid : option Position;
  cs_fuel : spec_float;
  cs_worst_health : Z;
  cs_operational : Z;
  cs_capabilities : list Capability;
  cs_readiness : spec_float;
  cs_box : option BoundingBox;
  cs_aggregated_at : option Timestamp
}.

(** [CohortSummary], [FederationSummary] and [CoalitionSummary]: the parts are the
    cells, cohorts and federations. *)
Record TierSummary := mkTierSummary {
  tier_id : string;
  ts_leader_id : string;
  part_ids : list string;
  part_count : Z;
  total_member_count : Z;
  ts_centroid : option Position;
  ts_fuel : spec_float;
  ts_worst_health : Z;
  ts_operational : Z;
  ts_capabilities : list Capability;
  ts_readiness : spec_float;
  ts_box : option BoundingBox;
  ts_aggregated_at : option Timestamp
}.

Definition CohortSummary : Type := TierSummary.
Definition FederationSummary : Type := TierSummary.
Definition CoalitionSummary : Type := TierSummary.

(** What the next tier reads of a summary *)
Record Part := mkPart {
  p_id : string;
  p_members : Z;
  p_centroid : option Position;
  p_fuel : spec_float;
  p_health : Z;
  p_operational : Z;
  p_capabilities : list Capability;
  p_readiness : spec_float;
  p_box : option BoundingBox
}.

Definition cell_part (s : CellSummary) : Part :=
  mkPart (cs_cell_id s) (member_count s) (cs_centroid s) (cs_fuel s) (cs_worst_health s)
    (cs_operational s) (cs_capabilities s) (cs_readiness s) (cs_box s).

Definition tier_part (s : TierSummary) : Part :=
  mkPart (tier_id s) (total_member_count s) (ts_centroid s) (ts_fuel s) (ts_worst_health s)
    (ts_operational s) (ts_capabilities s) (ts_readiness s) (ts_box s).

(** ** Helpers *)

Definition NodeRecord : Type := NodeConfig * NodeState.

Definition positions (members : list NodeRecord) : list Position := omap (fun m => position (snd m)) members.

Definition centroid (ps : list Position) : Position :=
  let count := f64_of_Z (len ps) in
  mkPosition (div64 (sum_f64 (latitude <$> ps)) count) (div64 (sum_f64 (longitude <$> ps)) count)
    (div64 (sum_f64 (altitude <$> ps)) count).

Definition calculate_position_centroid (members : list NodeRecord) : result Error Position :=
  match positions members with
  | [] => Err (EHierarchicalOp "No valid positions to aggregate" "calculate_position_centroid")
  | ps => Ok (centroid ps)
  end.

Definition calculate_position_centroid_from_positions (ps : list Position) : result Error Position :=
  match ps with
  | [] => Err (EHierarchicalOp "No valid positions to aggregate" "calculate_position_centroid_from_positions")
  | ps => Ok (centroid ps)
  end.

Definition calculate_avg_fuel (members : list NodeRecord) : option spec_float :=
  match members with
  | [] => Some f32_zero
  | _ => sum ← sum_u32 ((fun m => fuel_minutes (snd m)) <$> members);
         Some (div32 (f32_of_Z sum) (f32_of_Z (len members)))
  end.

(** [calculate_weighted_avg_fuel] and [calculate_weighted_readiness] of every tier *)
Definition weighted_average (value : Part -> spec_float) (parts : list Part) : option spec_float :=
  match parts with
  | [] => Some f32_zero
  | _ =>
      let total := sum_f32 ((fun p => mul32 (value p) (f32_of_Z (p_members p))) <$> parts) in
      total_members ← sum_u32 (p_members <$> parts);
      Some (if total_members =? 0 then f32_zero else div32 total (f32_of_Z total_members))
  end.

Definition calculate_weighted_avg_fuel : list Part -> option spec_float := weighted_average p_fuel.
Definition calculate_weighted_readiness : list Part -> option spec_float := weighted_average p_readiness.

Definition decode_health (z : Z) : HealthStatus := default HealthFailed (health_try_from z).

(** [max_by_key(|h| *h as i32).unwrap_or(HealthStatus::Nominal)] *)
Definition worst_of (l : list Z) : HealthStatus :=
  default Nominal (max_by (fun a b => health_to_i32 a ?= health_to_i32 b) (decode_health <$> l)).

Definition find_worst_health (members : list NodeRecord) : HealthStatus :=
  worst_of ((fun m => health (snd m)) <$> members).

Definition find_worst_health_from_parts (parts : list Part) : HealthStatus := worst_of (p_health <$> parts).

Definition raise_confidence (existing : Capability) (c : spec_float) : Capability :=
  mkCapability (id existing) (name existing) (capability_type existing) c
    (metadata_json existing) (registered_at existing).

Definition merge_capability (m : gmap Z Capability) (cap : Capability) : gmap Z Capability :=
  match m !! capability_type cap with
  | Some existing =>
      if SFltb (confidence existing) (confidence cap)
      then <[capability_type cap := raise_confidence existing (confidence cap)]> m else m
  | None => <[capability_type cap := cap]> m
  end.

Definition merged_capabilities (parts : list Part) : gmap Z Capability :=
  fold_left (fun m p => fold_left merge_capability (p_capabilities p) m) parts ∅.

Definition min64 (l : list spec_float) : spec_float := fold_left float_min l infinity.
Definition max64 (l : list spec_float) : spec_float := fold_left float_max l neg_infinity.

Definition box_of (min_lat max_lat min_lon max_lon min_alt max_alt radius : spec_float) : BoundingBox :=
  mkBoundingBox (Some (mkPosition min_lat min_lon (f32_as_f64 min_alt)))
    (Some (mkPosition max_lat max_lon (f32_as_f64 max_alt))) max_alt min_alt radius.

Definition aggregate_boxes (boxes : list BoundingBox) (op_name : string) : result Error BoundingBox :=
  match boxes with
  | [] => Err (EHierarchicalOp "No valid bounding boxes to aggregate" op_name)
  | _ =>
      let sw := omap southwest boxes in
      let ne := omap northeast boxes in
      Ok (box_of (min64 (latitude <$> sw)) (max64 (latitude <$> ne))
            (min64 (longitude <$> sw)) (max64 (longitude <$> ne))
            (min64 (min_altitude <$> boxes)) (max64 (max_altitude <$> boxes))
            (fold_left float_max (radius_m <$> boxes) f32_zero))
  end.

Section Geometry.
Context `{LibM}.

(** [x.to_radians()] multiplies by the binary64 value of pi / 180. *)
Definition pi64 : spec_float := S754_finite false 7074237752028440 (-51).
Definition to_radians (x : spec_float) : spec_float := mul64 x (div64 pi64 (f64_of_Z 180)).

Definition haversine_distance (lat1 lon1 lat2 lon2 : spec_float) : spec_float :=
  let d_lat := to_radians (sub64 lat2 lat1) in
  let d_lon := to_radians (sub64 lon2 lon1) in
  let two := f64_of_Z 2 in
  let a := add64 (f64_powi (f64_sin (div64 d_lat two)) 2)
             (mul64 (mul64 (f64_cos (to_radians lat1)) (f64_cos (to_radians lat2)))
                (f64_powi (f64_sin (div64 d_lon two)) 2)) in
  let c := mul64 two (f64_atan2 (sqrt64 a) (sqrt64 (sub64 (f64_of_Z 1) a))) in
  f64_as_f32 (mul64 (f64_of_Z 6371000) c).

Definition box_around (ps : list Position) : BoundingBox :=
  let min_lat := min64 (latitude <$> ps) in
  let max_lat := max64 (latitude <$> ps) in
  let min_lon := min64 (longitude <$> ps) in
  let max_lon := max64 (longitude <$> ps) in
  let min_alt := f64_as_f32 (min64 (altitude <$> ps)) in
  let max_alt := f64_as_f32 (max64 (altitude <$> ps)) in
  let centroid_lat := div64 (add64 min_lat max_lat) (f64_of_Z 2) in
  let centroid_lon := div64 (add64 min_lon max_lon) (f64_of_Z 2) in
  let radius := fold_left float_max
    ((fun p => haversine_distance centroid_lat centroid_lon (latitude p) (longitude p)) <$> ps) f32_zero in
  box_of min_lat max_lat min_lon max_lon min_alt max_alt radius.

Definition calculate_bounding_box (members : list NodeRecord) : result Error BoundingBox :=
  match positions members with
  | [] => Err (EHierarchicalOp "No valid positions for bounding box" "calculate_bounding_box")
  | ps => Ok (box_around ps)
  end.

End Geometry.

(** ** Cells *)

Section Aggregators.
Context `{LibM, HashOrder, ValueOrder}.

Definition quote : string := String (ascii_of_nat 34) EmptyString.
Definition bool_text (b : bool) : string := if b then "true" else "false".

(** [at_ ty] is the reading of the clock for the capability of type [ty]. *)
Definition summary_capability (cell_id : string) (at_ : CapabilityType -> Timestamp)
    (entry : CapabilityType * AggregatedCapability) : Capability :=
  let '(ty, agg) := entry in
  mkCapability (cell_id +:+ "_" +:+ type_name ty) (type_name ty) (capability_type_to_i32 ty)
    (agg_confidence agg)
    ("{" +:+ quote +:+ "contributors" +:+ quote +:+ ":" +:+ pretty (contributor_count agg) +:+ "," +:+
     quote +:+ "requires_oversight" +:+ quote +:+ ":" +:+ bool_text (requires_oversight agg) +:+ "}")
    (Some (at_ ty)).

Definition aggregate_cell (cell_id leader_id : string) (members : list NodeRecord)
    (at_ : CapabilityType -> Timestamp) (now : Timestamp) : option (result Error CellSummary) :=
  let operational := filter (fun m => is_operational (snd m) = true) members in
  match operational with
  | [] => Some (Err (EHierarchicalOp "Cell has no operational members" "aggregate_cell"))
  | _ =>
      match calculate_position_centroid operational with
      | Err e => Some (Err e)
      | Ok position_centroid =>
          avg_fuel_minutes ← calculate_avg_fuel operational;
          Some (
            let? caps := aggregate_capabilities operational in
            let aggregated := summary_capability cell_id at_ <$> Formation.iter caps in
            let? caps' := aggregate_capabilities operational in
            let readiness_score := calculate_readiness_score caps' in
            let? bounding_box := calculate_bounding_box operational in
            Ok (mkCellSummary cell_id leader_id ((fun m => nc_id (fst m)) <$> operational)
                  (as_u32 (len operational)) (Some position_centroid) avg_fuel_minutes
                  (health_to_i32 (find_worst_health operational)) (as_u32 (len operational))
                  aggregated readiness_score (Some bounding_box) (Some now)))
      end
  end.

(** ** Cohorts, federations and coalitions *)

Definition aggregate_tier (none_message operation box_operation : string) (id leader_id : string)
    (parts : list Part) (now : Timestamp) : option (result Error TierSummary) :=
  match parts with
  | [] => Some (Err (EHierarchicalOp none_message operation))
  | _ =>
      total ← sum_u32 (p_members <$> parts);
      match calculate_position_centroid_from_positions (omap p_centroid parts) with
      | Err e => Some (Err e)
      | Ok position_centroid =>
          avg_fuel_minutes ← calculate_weighted_avg_fuel parts;
          operational ← sum_u32 (p_operational <$> parts);
          readiness_score ← calculate_weighted_readiness parts;
          Some (
            let? bounding_box := aggregate_boxes (omap p_box parts) box_operation in
            Ok (mkTierSummary id leader_id (p_id <$> parts) (as_u32 (len parts)) total
                  (Some position_centroid) avg_fuel_minutes
                  (health_to_i32 (find_worst_health_from_parts parts)) operational
                  (values (merged_capabilities parts)) readiness_score (Some bounding_box) (Some now)))
      end
  end.

Definition aggregate_cohort (cohort_id leader_id : string) (cells : list CellSummary) (now : Timestamp)
    : option (result Error CohortSummary) :=
  aggregate_tier "Cohort has no cells" "aggregate_cohort" "aggregate_bounding_boxes"
    cohort_id leader_id (cell_part <$> cells) now.

Definition aggregate_federation (federation_id leader_id : string) (cohorts : list CohortSummary)
    (now : Timestamp) : option (result Error FederationSummary) :=
  aggregate_tier "Federation has no cohorts" "aggregate_federation" "aggregate_bounding_boxes_from_cohorts"
    federation_id leader_id (tier_part <$> cohorts) now.

Definition aggregate_coalition (coalition_id leader_id : string) (federations : list FederationSummary)
    (now : Timestamp) : option (result Error CoalitionSummary) :=
  aggregate_tier "Coalition has no federations" "aggregate_coalition"
    "aggregate_bounding_boxes_from_federations" coalition_id leader_id (tier_part <$> federations) now.

End Aggregators.

(** ** Sums of counts *)

Definition total (l : list Z) : Z := foldr Z.add 0 l.

Lemma total_nonneg l : Forall (Z.le 0) l -> 0 <= total l.
Proof. induction 1; simpl; lia. Qed.

Lemma total_app l k : total (l ++ k) = total l + total k.
Proof. induction l; simpl; lia. Qed.

Lemma sum_u32_from_spec l : forall acc,
  0 <= acc -> Forall (Z.le 0) l -> sum_u32_from acc l = if l is [] then Some acc else checked_u32 (acc + total l).
Proof.
  induction l as [|x l IH]; intros acc Hacc Hl; [done|]. apply Forall_cons in Hl as [Hx Hl].
  pose proof (total_nonneg l Hl). cbn [sum_u32_from total foldr]. fold (total l).
  unfold checked_u32 at 1. case_decide as Hd; cbn [mbind option_bind].
  - rewrite IH by (done || lia). destruct l; [|f_equal; lia]. unfold checked_u32, total. cbn [foldr].
    rewrite Z.add_0_r. by rewrite decide_True.
  - unfold checked_u32. rewrite decide_False; [done|]. unfold is_u32 in *. lia.
Qed.

Lemma sum_u32_spec l : Forall (Z.le 0) l -> sum_u32 l = checked_u32 (total l).
Proof.
  intros Hl. unfold sum_u32. rewrite sum_u32_from_spec by done. destruct l; [|done].
  unfold checked_u32, total. by rewrite decide_True.
Qed.

(** ** Weighted averages *)

Local Abbreviation nonneg := (Float.nonneg 24 128).
Local Abbreviation value := (Float.value 128).
Local Opaque Float.ulp.

Lemma f32_of_Z_exact n :
  0 <= n < 2 ^ 24 -> nonneg (f32_of_Z n) /\ finite (f32_of_Z n) /\ value (f32_of_Z n) = n * ulp 128 0.
Proof.
  intros Hn. apply (rounds_representable 24 128 ltac:(lia) ltac:(lia) n 0); [lia|rewrite emin_eq; lia|].
  apply binary_normalize_rounds; unfold scale; lia.
Qed.

Lemma mul32_weight x n :
  unit32 x -> 0 <= n < 2 ^ 24 -> nonneg (mul32 x (f32_of_Z n)) /\ value (mul32 x (f32_of_Z n)) <= n * ulp 128 0.
Proof.
  intros (Hx & Fx & Lx) Hn. destruct (f32_of_Z_exact n Hn) as (Hy & Fy & Vy).
  destruct (SFmul_rounds 24 128 ltac:(lia) ltac:(lia) x (f32_of_Z n) Hx Fx Hy Fy) as (v & Hv & Hr).
  pose proof (ulp_pos 128 0 ltac:(unfold scale; lia)) as U. rewrite value_f32_one in Lx.
  pose proof (value_nonneg 24 128 ltac:(lia) ltac:(lia) x Hx). split; [apply (rounds_nonneg _ _ _ _ Hr)|].
  rewrite <- Vy. apply (rounds_upper _ _ _ _ Hr); [done|]. rewrite Vy in *.
  apply (Z.mul_le_mono_pos_r _ _ (ulp 128 0) U). rewrite Hv. nia.
Qed.

Lemma add32_count x y n :
  nonneg x -> nonneg y -> value x + value y <= n * ulp 128 0 -> 0 <= n < 2 ^ 24 ->
  nonneg (add32 x y) /\ value (add32 x y) <= n * ulp 128 0.
Proof.
  intros Hx Hy Hle Hn. pose proof (SFadd_rounds 24 128 ltac:(lia) ltac:(lia) x y Hx Hy) as Hr.
  destruct (f32_of_Z_exact n Hn) as (Hc & Fc & Vc). split; [apply (rounds_nonneg _ _ _ _ Hr)|].
  rewrite <- Vc. apply (rounds_upper _ _ _ _ Hr); [done|lia].
Qed.

Lemma add32_neg_zero x : nonneg x -> add32 (S754_zero true) x = x.
Proof.
  intros Hx. by destruct (nonneg_cases 24 128 ltac:(lia) ltac:(lia) x Hx) as [->|[->|(m & e & -> & _)]].
Qed.

Definition weighted (p : spec_float * Z) : spec_float := mul32 (fst p) (f32_of_Z (snd p)).

Lemma weighted_sum_bound l : forall k acc,
  Forall (fun p => unit32 (fst p) /\ 0 <= snd p) l -> 0 <= k -> k + total (snd <$> l) < 2 ^ 24 ->
  nonneg acc -> value acc <= k * ulp 128 0 ->
  let s := fold_left add32 (weighted <$> l) acc in
  nonneg s /\ value s <= (k + total (snd <$> l)) * ulp 128 0.
Proof.
  induction l as [|[x n] l IH]; intros k acc Hl Hk Hb Hacc Hv; cbn [fold_left fmap list_fmap total foldr fst snd] in *.
  { split; [done|]. by rewrite Z.add_0_r. }
  fold (total (snd <$> l)) in *. apply Forall_cons in Hl as [[Hx Hn] Hl]. cbn [fst snd] in *.
  assert (0 <= total (snd <$> l)) as Ht by (apply total_nonneg, Forall_fmap; eapply Forall_impl; [done|by intros ? [_ ?]]).
  destruct (mul32_weight x n Hx ltac:(lia)) as [Hm Lm].
  destruct (add32_count acc (mul32 x (f32_of_Z n)) (k + n) Hacc Hm ltac:(lia) ltac:(lia)) as [Ha La].
  destruct (IH (k + n) (add32 acc (mul32 x (f32_of_Z n))) Hl ltac:(lia) ltac:(lia) Ha La) as [Hs Ls].
  replace (k + (n + total (snd <$> l))) with (k + n + total (snd <$> l)) by lia. by split.
Qed.

(** Averages weighted with the numbers of nodes stay between zero and one. *)
Lemma weighted_average_unit f parts r :
  Forall (fun p => unit32 (f p) /\ 0 <= p_members p) parts -> total (p_members <$> parts) < 2 ^ 24 ->
  weighted_average f parts = Some r -> unit32 r.
Proof.
  intros Hf Ht E.
  assert (unit32 f32_zero) as Hz by (split_and!; [done|done|apply Z.leb_le; vm_compute; reflexivity]).
  unfold weighted_average in E. destruct parts as [|p parts]; [by injection E as <-|].
  assert (Forall (Z.le 0) (p_members <$> p :: parts)) as Hm.
  { apply Forall_fmap. eapply Forall_impl; [exact Hf|]. by intros ? [_ ?]. }
  pose proof (total_nonneg _ Hm) as Hp.
  rewrite sum_u32_spec in E by done. unfold checked_u32 in E. case_decide; [|done]. cbn [mbind option_bind] in E.
  apply (inj Some) in E. rewrite <- E. clear E r. destruct (Z.eqb_spec (total (p_members <$> p :: parts)) 0) as [E0|E0]; [exact Hz|].
  set (l := (fun p => (f p, p_members p)) <$> p :: parts).
  assert (total (p_members <$> p :: parts) = total (snd <$> l)) as El by (unfold l; by rewrite <- list_fmap_compose).
  assert (Forall (fun q => unit32 (fst q) /\ 0 <= snd q) l) as Hl by (by apply Forall_fmap).
  assert ((fun p => mul32 (f p) (f32_of_Z (p_members p))) <$> p :: parts = weighted <$> l) as Ew
    by (unfold l; by rewrite <- list_fmap_compose).
  rewrite Ew, El in *. destruct l as [|q l]; [done|]. apply Forall_cons in Hl as [[Hq Hn] Hl].
  cbn [fmap list_fmap total foldr] in *. fold (total (snd <$> l)) in *. unfold sum_f32. cbn [fold_left].
  assert (0 <= total (snd <$> l)) as Hr by (apply total_nonneg, Forall_fmap; eapply Forall_impl; [done|by intros ? [_ ?]]).
  destruct (mul32_weight (fst q) (snd q) Hq ltac:(lia)) as [Hw Lw]. unfold weighted at 2.
  rewrite add32_neg_zero by done.
  destruct (weighted_sum_bound l (snd q) (mul32 (fst q) (f32_of_Z (snd q))) Hl Hn ltac:(lia) Hw Lw) as [Hs Ls].
  destruct (f32_of_Z_exact _ (conj Hp Ht)) as (Hc & Fc & Vc).
  pose proof (ulp_pos 128 0 ltac:(unfold scale; lia)) as U.
  apply div32_unit; try done; [eapply nonneg_le_finite; [exact Hs|exact Hc|exact Fc|]; by rewrite Vc|rewrite Vc; nia|by rewrite Vc].
Qed.

(** ** Boxes *)

Definition in_range (lo hi x : spec_float) : Prop := SFleb lo x = true /\ SFleb x hi = true.

(** The coordinate [f] of a node *)
Definition has_coordinate (f : Position -> spec_float) (nodes : list NodeRecord) (x : spec_float) : Prop :=
  exists n pos, n ∈ nodes /\ position (snd n) = Some pos /\ f pos = x.

(** [lo] and [hi] are the tightest bounds of the coordinate [f] of the nodes. *)
Record bounds (f : Position -> spec_float) (nodes : list NodeRecord) (lo hi : spec_float) : Prop := {
  lo_number : lo <> S754_nan;
  hi_number : hi <> S754_nan;
  bounds_contain : forall x, has_coordinate f nodes x -> x <> S754_nan -> in_range lo hi x;
  lo_reached : lo = infinity \/ has_coordinate f nodes lo;
  hi_reached : hi = neg_infinity \/ has_coordinate f nodes hi
}.

Lemma has_coordinate_positions f nodes x : has_coordinate f nodes x <-> x ∈ f <$> positions nodes.
Proof.
  unfold has_coordinate, positions. rewrite list_elem_of_fmap. setoid_rewrite list_elem_of_omap. split.
  - intros (n & pos & Hn & E & <-). eauto 6.
  - intros (pos & -> & n & Hn & E). eauto 6.
Qed.

Lemma bounds_positions f nodes :
  bounds f nodes (min64 (f <$> positions nodes)) (max64 (f <$> positions nodes)).
Proof.
  unfold min64, max64.
  destruct (fold_min_spec (f <$> positions nodes) infinity) as (Hn & _ & Hlo & Hin); [done|].
  destruct (fold_max_spec (f <$> positions nodes) neg_infinity) as (Hn' & _ & Hhi & Hin'); [done|].
  split; [done|done| | |].
  - intros x Hx Hxn. rewrite has_coordinate_positions in Hx. split; auto.
  - apply elem_of_cons in Hin as [?|Hin]; [by left|right; by apply has_coordinate_positions].
  - apply elem_of_cons in Hin' as [?|Hin']; [by left|right; by apply has_coordinate_positions].
Qed.

Lemma has_coordinate_concat f nss x : has_coordinate f (concat nss) x <-> exists ns, ns ∈ nss /\ has_coordinate f ns x.
Proof.
  unfold has_coordinate. split.
  - intros (n & pos & Hn & E & Hx). apply list_elem_of_In, in_concat in Hn as (ns & Hns & Hn).
    exists ns. rewrite list_elem_of_In. split; [done|]. exists n, pos. by rewrite list_elem_of_In.
  - intros (ns & Hns & n & pos & Hn & E & Hx). exists n, pos. split; [|done].
    apply list_elem_of_In, in_concat. exists ns. by rewrite <- !list_elem_of_In.
Qed.

Lemma bounds_concat f nss (cs : list (spec_float * spec_float)) :
  Forall2 (fun ns c => bounds f ns c.1 c.2) nss cs ->
  bounds f (concat nss) (min64 (fst <$> cs)) (max64 (snd <$> cs)).
Proof.
  intros Hall. unfold min64, max64.
  destruct (fold_min_spec (fst <$> cs) infinity) as (Hn & _ & Hlo & Hin); [done|].
  destruct (fold_max_spec (snd <$> cs) neg_infinity) as (Hn' & _ & Hhi & Hin'); [done|].
  split; [done|done| | |].
  - intros x (ns & Hns & Hx)%has_coordinate_concat Hxn.
    apply list_elem_of_lookup in Hns as [i Hi]. destruct (Forall2_lookup_l _ _ _ _ _ Hall Hi) as (c & Hc & Hb).
    destruct (bounds_contain _ _ _ _ Hb x Hx Hxn) as [H1 H2].
    pose proof (list_elem_of_lookup_2 _ _ _ Hc) as Hin0. split.
    + eapply SFleb_trans; [|exact H1]. apply Hlo; [by apply list_elem_of_fmap_2|apply (lo_number _ _ _ _ Hb)].
    + eapply SFleb_trans; [exact H2|]. apply Hhi; [by apply list_elem_of_fmap_2|apply (hi_number _ _ _ _ Hb)].
  - apply elem_of_cons in Hin as [?|(c & -> & Hc)%list_elem_of_fmap]; [by left|].
    apply list_elem_of_lookup in Hc as [i Hi]. destruct (Forall2_lookup_r _ _ _ _ _ Hall Hi) as (ns & Hns & Hb).
    destruct (lo_reached _ _ _ _ Hb) as [?|?]; [by left|right]. apply has_coordinate_concat. exists ns.
    split; [by eapply list_elem_of_lookup_2|done].
  - apply elem_of_cons in Hin' as [?|(c & -> & Hc)%list_elem_of_fmap]; [by left|].
    apply list_elem_of_lookup in Hc as [i Hi]. destruct (Forall2_lookup_r _ _ _ _ _ Hall Hi) as (ns & Hns & Hb).
    destruct (hi_reached _ _ _ _ Hb) as [?|?]; [by left|right]. apply has_coordinate_concat. exists ns.
    split; [by eapply list_elem_of_lookup_2|done].
Qed.

(** The box of a summary is the smallest one around the nodes. *)
Definition encloses (nodes : list NodeRecord) (b : BoundingBox) (corners : Position * Position) : Prop :=
  southwest b = Some corners.1 /\ northeast b = Some corners.2 /\
  bounds latitude nodes (latitude corners.1) (latitude corners.2) /\
  bounds longitude nodes (longitude corners.1) (longitude corners.2).

Definition smallest_box (nodes : list NodeRecord) (b : option BoundingBox) : Prop :=
  exists box corners, b = Some box /\ encloses nodes box corners.

Lemma smallest_boxes nss (bs : list (option BoundingBox)) :
  Forall2 smallest_box nss bs ->
  exists cs, omap southwest (omap (fun b => b) bs) = cs.*1 /\ omap northeast (omap (fun b => b) bs) = cs.*2 /\
    length (omap (fun b => b) bs) = length bs /\
    Forall2 (fun ns c => bounds latitude ns (latitude c.1) (latitude c.2) /\
                         bounds longitude ns (longitude c.1) (longitude c.2)) nss cs.
Proof.
  induction 1 as [|ns b nss bs (box & corners & -> & E1 & E2 & Hlat & Hlon) _ (cs & I1 & I2 & I3 & I4)].
  { exists []. by split_and!. }
  exists (corners :: cs). cbn. rewrite E1, E2. cbn. split_and!; try (by f_equal). by constructor.
Qed.

(** ** Worst health *)

Definition severity (n : NodeRecord) : Z := health_to_i32 (decode_health (health (snd n))).

Lemma worst_of_spec l :
  l <> [] ->
  (forall z, z ∈ l -> health_to_i32 (decode_health z) <= health_to_i32 (worst_of l)) /\
  exists z, z ∈ l /\ health_to_i32 (decode_health z) = health_to_i32 (worst_of l).
Proof.
  intros Hne. unfold worst_of. set (cmp := fun a b => health_to_i32 a ?= health_to_i32 b).
  assert (cmp_ok (fun _ => True) cmp) as Hc.
  { split; unfold cmp; intros; [apply Z.compare_antisym|rewrite Z.compare_le_iff in *; lia]. }
  pose proof (max_by_last (fun _ => True) cmp (decode_health <$> l) Hc ltac:(by apply Forall_true)) as H.
  destruct (max_by cmp (decode_health <$> l)) as [b|]; cbn [from_option]; unfold Datatypes.id; [|by destruct l].
  destruct H as (l1 & l2 & E & H1 & H2). split.
  - intros z Hz. assert (decode_health z ∈ l1 ++ b :: l2) as Hin by (rewrite <- E; by apply list_elem_of_fmap_2).
    apply elem_of_app in Hin as [Hin|[Eb|Hin]%elem_of_cons]; [|rewrite Eb; done|].
    + apply H1 in Hin. unfold cmp in Hin. by rewrite Z.compare_le_iff in Hin.
    + apply H2 in Hin. unfold cmp in Hin. rewrite Z.compare_lt_iff in Hin. lia.
  - assert (b ∈ decode_health <$> l) as (z & -> & Hz)%list_elem_of_fmap by (rewrite E; set_solver). eauto.
Qed.

Lemma decode_health_encode h : decode_health (health_to_i32 h) = h.
Proof. by destruct h. Qed.

Definition worst_among (nodes : list NodeRecord) (h : Z) : Prop :=
  (forall n, n ∈ nodes -> severity n <= h) /\ exists n, n ∈ nodes /\ severity n = h.

Lemma worst_members nodes : nodes <> [] -> worst_among nodes (health_to_i32 (find_worst_health nodes)).
Proof.
  intros Hne. unfold find_worst_health.
  destruct (worst_of_spec ((fun m => health (snd m)) <$> nodes)) as [H1 (z & Hz & E)]; [by destruct nodes|].
  split; [intros n Hn; apply H1; by apply (list_elem_of_fmap_2 (fun m : NodeRecord => health (snd m)))|].
  apply list_elem_of_fmap in Hz as (n & -> & Hn). by exists n.
Qed.

Lemma worst_parts nss hs :
  nss <> [] -> Forall2 (fun ns h => worst_among ns h /\ exists st, h = health_to_i32 st) nss hs ->
  worst_among (concat nss) (health_to_i32 (worst_of hs)).
Proof.
  intros Hne Hall. assert (forall h st, h = health_to_i32 st -> health_to_i32 (decode_health h) = h) as Hd
    by (intros h st ->; by rewrite decode_health_encode).
  destruct (worst_of_spec hs) as [H1 (z & Hz & E)]; [by inversion Hall; simplify_eq|]. split.
  - intros n Hn. apply list_elem_of_In, in_concat in Hn as (ns & Hns & Hn).
    apply list_elem_of_In, list_elem_of_lookup in Hns as [i Hi]. apply list_elem_of_In in Hn.
    destruct (Forall2_lookup_l _ _ _ _ _ Hall Hi) as (h & Hh & [Hw _] & st & Est).
    etransitivity; [by apply Hw|]. rewrite <- (Hd h st Est). apply H1. by eapply list_elem_of_lookup_2.
  - apply list_elem_of_lookup in Hz as [i Hi].
    destruct (Forall2_lookup_r _ _ _ _ _ Hall Hi) as (ns & Hns & (_ & n & Hn & En) & st & Est).
    exists n. rewrite En, <- E, (Hd z st Est). split; [|done].
    apply list_elem_of_In, in_concat. exists ns. rewrite <- !list_elem_of_In. split; [by eapply list_elem_of_lookup_2|done].
Qed.

(** ** Union of capabilities *)

(** [m] holds the best capability of each type of [seen]. *)
Record best_of (seen : list Capability) (m : gmap Z Capability) : Prop := {
  best_types k : is_Some (m !! k) <-> k ∈ capability_type <$> seen;
  best_key k e : m !! k = Some e -> capability_type e = k;
  best_from k e : m !! k = Some e -> exists cap, cap ∈ seen /\ capability_type cap = k /\ confidence cap = confidence e;
  best_above cap e : Forall (fun c => confidence c <> S754_nan) seen -> cap ∈ seen ->
    m !! capability_type cap = Some e -> SFleb (confidence cap) (confidence e) = true
}.

Lemma SFleb_of_not_ltb x y : x <> S754_nan -> y <> S754_nan -> SFltb x y = false -> SFleb y x = true.
Proof.
  intros Hx Hy. destruct (SFcompare_Some x y Hx Hy) as [c E]. pose proof (SFcompare_swap _ _ _ E) as E'.
  unfold SFltb, SFleb. rewrite E, E'. by destruct c.
Qed.

Lemma SFleb_of_ltb x y : SFltb x y = true -> SFleb x y = true.
Proof. unfold SFltb, SFleb. destruct (SFcompare x y) as [[]|]; done. Qed.

Lemma merge_best_types seen m cap m' k :
  best_of seen m -> m' = merge_capability m cap -> is_Some (m' !! k) <-> k ∈ capability_type <$> seen ++ [cap].
Proof.
  intros Hb ->. rewrite fmap_app, elem_of_app, <- (best_types _ _ Hb). cbn. rewrite list_elem_of_singleton.
  unfold merge_capability. destruct (m !! capability_type cap) as [old|] eqn:E; [destruct (SFltb _ _)|].
  1, 3: destruct (decide (capability_type cap = k)) as [<-|Hk];
    [rewrite lookup_insert_eq; naive_solver|rewrite lookup_insert_ne by done; naive_solver].
  split; [by left|]. intros [?| ->]; [done|]. by rewrite E.
Qed.

Lemma merge_best seen m cap : best_of seen m -> best_of (seen ++ [cap]) (merge_capability m cap).
Proof.
  intros Hb. pose proof (fun k => merge_best_types seen m cap _ k Hb eq_refl) as Ht. revert Ht.
  unfold merge_capability. destruct (m !! capability_type cap) as [old|] eqn:E.
  - pose proof (best_key _ _ Hb _ _ E) as Eo. destruct (SFltb (confidence old) (confidence cap)) eqn:El; intros Ht.
    + split; [done| | |].
      * intros k e. destruct (decide (capability_type cap = k)) as [<-|Hk];
          [rewrite lookup_insert_eq; by intros [= <-]|rewrite lookup_insert_ne by done; apply (best_key _ _ Hb)].
      * intros k e. destruct (decide (capability_type cap = k)) as [<-|Hk].
        -- rewrite lookup_insert_eq. intros [= <-]. exists cap. split_and!; [set_solver|done|done].
        -- rewrite lookup_insert_ne by done. intros (c & Hc & ? & ?)%(best_from _ _ Hb). exists c. set_solver.
      * intros c e Hnan%Forall_app Hc. destruct Hnan as [Hnan Hnc]. rewrite Forall_singleton in Hnc.
        destruct (decide (capability_type cap = capability_type c)) as [Ec|Hk].
        -- rewrite <- Ec, lookup_insert_eq. intros [= <-]. cbn [raise_confidence confidence].
           apply elem_of_app in Hc as [Hc|Hc%list_elem_of_singleton]; [|subst; by apply SFleb_refl].
           eapply SFleb_trans; [|by apply SFleb_of_ltb]. apply (best_above _ _ Hb); [done|done|by rewrite <- Ec].
        -- rewrite lookup_insert_ne by done. apply elem_of_app in Hc as [Hc|Hc%list_elem_of_singleton]; [|by subst].
           by apply (best_above _ _ Hb).
    + split; [done|apply (best_key _ _ Hb)| |].
      * intros k e (c & Hc & ? & ?)%(best_from _ _ Hb). exists c. set_solver.
      * intros c e Hnan%Forall_app Hc He. destruct Hnan as [Hnan Hnc]. rewrite Forall_singleton in Hnc.
        apply elem_of_app in Hc as [Hc|Hc%list_elem_of_singleton]; [by apply (best_above _ _ Hb)|subst c].
        rewrite E in He. injection He as <-. apply SFleb_of_not_ltb; [|done|done].
        destruct (best_from _ _ Hb _ _ E) as (c & Hc & _ & <-). by apply (proj1 (Forall_forall _ _) Hnan).
  - intros Ht. split; [done| | |].
    + intros k e. destruct (decide (capability_type cap = k)) as [<-|Hk];
        [rewrite lookup_insert_eq; by intros [= <-]|rewrite lookup_insert_ne by done; apply (best_key _ _ Hb)].
    + intros k e. destruct (decide (capability_type cap = k)) as [<-|Hk].
      * rewrite lookup_insert_eq. intros [= <-]. exists cap. split_and!; [set_solver|done|done].
      * rewrite lookup_insert_ne by done. intros (c & Hc & ? & ?)%(best_from _ _ Hb). exists c. set_solver.
    + intros c e Hnan%Forall_app Hc. destruct Hnan as [Hnan Hnc]. rewrite Forall_singleton in Hnc.
      apply elem_of_app in Hc as [Hc|Hc%list_elem_of_singleton].
      * rewrite lookup_insert_ne; [by apply (best_above _ _ Hb)|]. intros Ec.
        assert (is_Some (m !! capability_type cap)) as [? ?]; [|congruence].
        apply (best_types _ _ Hb). rewrite Ec. by apply list_elem_of_fmap_2.
      * subst c. rewrite lookup_insert_eq. intros [= <-]. by apply SFleb_refl.
Qed.

Definition all_capabilities (parts : list Part) : list Capability := concat (p_capabilities <$> parts).

Lemma merged_fold parts : merged_capabilities parts = fold_left merge_capability (all_capabilities parts) ∅.
Proof.
  unfold merged_capabilities, all_capabilities. generalize (∅ : gmap Z Capability) as m.
  induction parts as [|p parts IH]; intros m; [done|]. cbn [fold_left fmap list_fmap concat].
  by rewrite fold_left_app, IH.
Qed.

Lemma merged_best parts : best_of (all_capabilities parts) (merged_capabilities parts).
Proof.
  rewrite merged_fold. induction (all_capabilities parts) as [|cap l IH] using rev_ind.
  - split; cbn; intros; try done. rewrite lookup_empty. split; [by intros []|by intros ?%not_elem_of_nil].
  - rewrite fold_left_app. by apply merge_best.
Qed.

Lemma value_types `{ValueOrder} (m : gmap Z Capability) :
  (forall k e, m !! k = Some e -> capability_type e = k) -> capability_type <$> values m ≡ₚ (map_to_list m).*1.
Proof.
  intros Hk. rewrite values_perm, <- list_fmap_compose.
  assert ((capability_type ∘ snd) <$> map_to_list m = (map_to_list m).*1) as ->; [|done]. apply list_fmap_ext.
  intros i [k e] Hi. apply (Hk k e), elem_of_map_to_list. by eapply list_elem_of_lookup_2.
Qed.

Lemma elem_of_values `{ValueOrder} (m : gmap Z Capability) e :
  (forall k e, m !! k = Some e -> capability_type e = k) -> e ∈ values m <-> m !! capability_type e = Some e.
Proof.
  intros Hk. rewrite values_perm, list_elem_of_fmap. split.
  - intros ([k e'] & -> & Hin%elem_of_map_to_list). cbn. by rewrite (Hk k e' Hin).
  - intros He. exists (capability_type e, e). by rewrite elem_of_map_to_list.
Qed.

Lemma value_types_spec `{ValueOrder} parts :
  NoDup (capability_type <$> values (merged_capabilities parts)) /\
  forall k, k ∈ capability_type <$> values (merged_capabilities parts) <-> k ∈ capability_type <$> all_capabilities parts.
Proof.
  pose proof (merged_best parts) as Hb. pose proof (value_types _ (best_key _ _ Hb)) as Hp. split.
  - rewrite Hp. apply NoDup_fst_map_to_list.
  - intros k. rewrite Hp, <- (best_types _ _ Hb), list_elem_of_fmap. split.
    + intros ([k' e] & -> & He%elem_of_map_to_list). by exists e.
    + intros [e He]. exists (k, e). by rewrite elem_of_map_to_list.
Qed.

(** The capabilities of a cohort, federation or coalition are one for each type that
    some part reports, with the highest confidence any part reports for that type. *)
Theorem tier_capabilities_best `{ValueOrder} parts :
  Forall (fun c => confidence c <> S754_nan) (all_capabilities parts) ->
  let caps := values (merged_capabilities parts) in
  NoDup (capability_type <$> caps) /\
  (forall k, k ∈ capability_type <$> caps <-> k ∈ capability_type <$> all_capabilities parts) /\
  forall e, e ∈ caps ->
    (exists cap, cap ∈ all_capabilities parts /\ capability_type cap = capability_type e /\ confidence cap = confidence e) /\
    forall cap, cap ∈ all_capabilities parts -> capability_type cap = capability_type e ->
      SFleb (confidence cap) (confidence e) = true.
Proof.
  intros Hnan. pose proof (merged_best parts) as Hb. destruct (value_types_spec parts) as [Hnd Hty].
  split_and!; [done|done|]. intros e He%(elem_of_values _ _ (best_key _ _ Hb)). split.
  - apply (best_from _ _ Hb _ _ He).
  - intros cap Hcap E. apply (best_above _ _ Hb); [done|done|by rewrite E].
Qed.

(** ** What a summary says about the nodes below it *)

Definition brings (nodes : list NodeRecord) (k : Z) : Prop :=
  exists n cap, n ∈ nodes /\ cap ∈ Node.capabilities (fst n) /\ k = capability_type_to_i32 (get_capability_type cap).

Definition sound_confidences (nodes : list NodeRecord) : Prop :=
  forall n cap, n ∈ nodes -> cap ∈ Node.capabilities (fst n) -> nonneg (confidence cap).

Record describes (nodes : list NodeRecord) (p : Part) : Prop := {
  d_members : p_members p = len nodes;
  d_operational : p_operational p = len nodes;
  d_worst : worst_among nodes (p_health p);
  d_status : exists st, p_health p = health_to_i32 st;
  d_box : smallest_box nodes (p_box p);
  d_centroid : is_Some (p_centroid p);
  d_one_per_type : NoDup (capability_type <$> p_capabilities p);
  d_types k : k ∈ capability_type <$> p_capabilities p <-> brings nodes k;
  d_readiness : unit32 (p_readiness p)
}.

Lemma contributions_brings nodes ty :
  (forall n, n ∈ nodes -> is_operational (snd n) = true) ->
  contributions ty nodes <> [] <-> brings nodes (capability_type_to_i32 ty).
Proof.
  intros Hop. unfold contributions, brings. split.
  - intros Hne. destruct (flat_map _ nodes) as [|c l] eqn:E; [done|]. clear Hne.
    assert (In c (c :: l)) as Hc by (by left). rewrite <- E in Hc.
    apply in_flat_map in Hc as ([cfg st] & Hn & Hc). apply list_elem_of_In in Hn.
    rewrite (Hop _ Hn) in Hc. apply list_elem_of_In, list_elem_of_fmap in Hc as (cap & -> & Hcap).
    apply list_elem_of_filter in Hcap as [Ety Hcap]. exists (cfg, st), cap. by rewrite Ety.
  - intros ([cfg st] & cap & Hn & Hcap & Ek) Hnil. apply (f_equal capability_type_try_from) in Ek.
    rewrite !capability_type_decode_encode in Ek. injection Ek as ->.
    pose proof (Hop _ Hn) as Hst.
    eapply (in_nil (A := Contribution)). rewrite <- Hnil. apply in_flat_map. exists (cfg, st).
    split; [by apply list_elem_of_In|]. rewrite Hst. apply list_elem_of_In, list_elem_of_fmap_2.
    by apply list_elem_of_filter.
Qed.

Lemma cell_types `{HashOrder} nodes caps cell_id at_ :
  (forall n, n ∈ nodes -> is_operational (snd n) = true) -> aggregate_capabilities nodes = Ok caps ->
  let l := summary_capability cell_id at_ <$> Formation.iter caps in
  NoDup (capability_type <$> l) /\ forall k, k ∈ capability_type <$> l <-> brings nodes k.
Proof.
  intros Hop Hcaps.
  assert (forall ty, caps !! ty = aggregate_of ty <$> nonempty (contributions ty nodes)) as Hlk.
  { destruct (aggregate_capabilities_spec nodes) as (m & E & Hm). rewrite Hcaps in E. by injection E as ->. }
  cbv zeta. assert (capability_type <$> (summary_capability cell_id at_ <$> Formation.iter caps) =
    capability_type_to_i32 <$> (Formation.iter caps).*1) as ->.
  { rewrite <- !list_fmap_compose. apply list_fmap_ext. by intros i [ty agg]. }
  split.
  - apply NoDup_fmap_2_strong; [|rewrite iter_perm; apply NoDup_fst_map_to_list].
    intros x y _ _ E. apply (f_equal capability_type_try_from) in E. rewrite !capability_type_decode_encode in E.
    by injection E.
  - intros k. rewrite list_elem_of_fmap. split.
    + intros (ty & -> & Hty). rewrite iter_perm in Hty.
      apply list_elem_of_fmap in Hty as ([ty' agg] & -> & Hin%elem_of_map_to_list). cbn [fst].
      apply contributions_brings; [done|]. intros E. rewrite Hlk, E in Hin. done.
    + intros Hb. pose proof Hb as (n & cap & Hn & Hcap & ->). eexists. split; [done|].
      rewrite iter_perm, list_elem_of_fmap.
      apply contributions_brings in Hb; [|done]. pose proof (Hlk (get_capability_type cap)) as E.
      destruct (contributions (get_capability_type cap) nodes) as [|c l]; [done|]. cbn in E.
      eexists (_, _). split; [|by apply elem_of_map_to_list, E]. done.
Qed.


Section Describe.
Context `{LibM, HashOrder, ValueOrder}.

Definition operational_of (members : list NodeRecord) : list NodeRecord :=
  filter (fun m => is_operational (snd m) = true) members.

Lemma operational_all members n : n ∈ operational_of members -> is_operational (snd n) = true.
Proof. by intros [? _]%list_elem_of_filter. Qed.

Lemma cell_describes cell_id leader_id members at_ now s :
  aggregate_cell cell_id leader_id members at_ now = Some (Ok s) ->
  len (operational_of members) < 2 ^ 24 -> sound_confidences (operational_of members) ->
  describes (operational_of members) (cell_part s).
Proof.
  unfold aggregate_cell. fold (operational_of members). intros E Hsmall Hconf.
  pose proof (operational_all members) as Hop. set (nodes := operational_of members) in *.
  assert (as_u32 (len nodes) = len nodes) as El.
  { apply as_u32_small. pose proof (len_nonneg nodes). unfold is_u32, u32_modulus. lia. }
  destruct nodes as [|n0 rest] eqn:En; [done|]. rewrite <- En in *. assert (nodes <> []) as Hne by (by rewrite En).
  unfold calculate_position_centroid, calculate_bounding_box in E.
  destruct (positions nodes) as [|p0 ps] eqn:Ep; [done|]. rewrite <- Ep in E.
  destruct (calculate_avg_fuel nodes) as [fuel|]; [|done]. cbn [mbind option_bind] in E.
  destruct (aggregate_capabilities nodes) as [caps|] eqn:Ec; [|done]. injection E as <-.
  destruct (cell_types nodes caps cell_id at_ Hop Ec) as [Hnd Hty].
  split; cbn [cell_part p_members p_operational p_health p_box p_centroid p_capabilities p_readiness
    member_count cs_operational cs_worst_health cs_box cs_centroid cs_capabilities cs_readiness]; try done.
  - by apply worst_members.
  - eauto.
  - exists (box_around (positions nodes)). eexists (_, _). split; [done|].
    split_and!; [reflexivity|reflexivity|apply bounds_positions|apply bounds_positions].
  - by apply (readiness_unit nodes).
Qed.

Lemma len_concat {A} (nss : list (list A)) : len (concat nss) = total (len <$> nss).
Proof. induction nss as [|ns nss IH]; [done|]. cbn [concat fmap list_fmap total foldr]. fold (total (len <$> nss)). rewrite <- IH. unfold len. rewrite length_app. lia. Qed.

Lemma brings_concat nss k : brings (concat nss) k <-> exists ns, ns ∈ nss /\ brings ns k.
Proof.
  unfold brings. split.
  - intros (n & cap & Hn & Hc). apply list_elem_of_In, in_concat in Hn as (ns & Hns & Hn).
    apply list_elem_of_In in Hns, Hn. exists ns. split; [done|]. by exists n, cap.
  - intros (ns & Hns & n & cap & Hn & Hc). exists n, cap. split; [|done].
    apply list_elem_of_In, in_concat. exists ns. by rewrite <- !list_elem_of_In.
Qed.

Lemma part_counts (nss : list (list NodeRecord)) parts (f : Part -> Z) :
  Forall2 (fun ns p => f p = len ns) nss parts -> total (f <$> parts) = len (concat nss).
Proof.
  rewrite len_concat. induction 1 as [|ns p nss parts E _ IH]; [done|].
  cbn [fmap list_fmap total foldr]. fold (total (f <$> parts)) (total (len <$> nss)). lia.
Qed.

Lemma part_types nss parts k :
  Forall2 describes nss parts -> k ∈ capability_type <$> all_capabilities parts <-> brings (concat nss) k.
Proof.
  intros Hall. rewrite brings_concat. unfold all_capabilities. split.
  - intros (cap & -> & Hin)%list_elem_of_fmap. apply list_elem_of_In, in_concat in Hin as (l & Hl & Hcap).
    apply list_elem_of_In, list_elem_of_fmap in Hl as (p & -> & Hp). apply list_elem_of_In in Hcap.
    apply list_elem_of_lookup in Hp as [i Hi]. destruct (Forall2_lookup_r _ _ _ _ _ Hall Hi) as (ns & Hns & Hd).
    exists ns. split; [by eapply list_elem_of_lookup_2|]. apply (d_types _ _ Hd). by apply list_elem_of_fmap_2.
  - intros (ns & [i Hi]%list_elem_of_lookup & Hb). destruct (Forall2_lookup_l _ _ _ _ _ Hall Hi) as (p & Hp & Hd).
    pose proof (proj2 (d_types _ _ Hd k) Hb) as Hk. apply list_elem_of_fmap in Hk as (cap & Ek & Hcap). rewrite Ek. apply list_elem_of_fmap_2.
    apply list_elem_of_In, in_concat. exists (p_capabilities p). rewrite <- !list_elem_of_In.
    split; [apply list_elem_of_fmap_2; by eapply list_elem_of_lookup_2|done].
Qed.

Lemma tier_boxes nss parts op :
  parts <> [] -> Forall2 describes nss parts ->
  exists b, aggregate_boxes (omap p_box parts) op = Ok b /\ smallest_box (concat nss) (Some b).
Proof.
  intros Hne Hall. assert (Forall2 smallest_box nss (p_box <$> parts)) as Hb.
  { apply Forall2_fmap_r. eapply Forall2_impl; [exact Hall|]. intros ns p Hd. apply (d_box _ _ Hd). }
  destruct (smallest_boxes nss (p_box <$> parts) Hb) as (cs & E1 & E2 & E3 & Hcs).
  assert (omap (fun b => b) (p_box <$> parts) = omap p_box parts) as Eo by (clear; induction parts as [|p parts IH]; [done|]; cbn; by rewrite IH).
  rewrite Eo in *. rewrite length_fmap in E3. unfold aggregate_boxes.
  destruct (omap p_box parts) as [|b0 bs] eqn:Ebs; [by destruct parts|]. rewrite <- Ebs in *. rewrite E1, E2.
  eexists. split; [done|]. eexists _, (_, _). split; [done|]. split_and!; [reflexivity|reflexivity| |].
  all: cbn [fst snd latitude longitude box_of].
  all: rewrite <- !list_fmap_compose.
  - pose proof (bounds_concat latitude nss ((fun c => (latitude c.1, latitude c.2)) <$> cs)) as Hbc.
    rewrite <- !list_fmap_compose in Hbc. apply Hbc, Forall2_fmap_r. eapply Forall2_impl; [exact Hcs|]. by intros ns c [? _].
  - pose proof (bounds_concat longitude nss ((fun c => (longitude c.1, longitude c.2)) <$> cs)) as Hbc.
    rewrite <- !list_fmap_compose in Hbc. apply Hbc, Forall2_fmap_r. eapply Forall2_impl; [exact Hcs|]. by intros ns c [_ ?].
Qed.

Lemma sum_counts (nss : list (list NodeRecord)) parts (f : Part -> Z) :
  Forall2 (fun ns p => f p = len ns) nss parts -> len (concat nss) < 2 ^ 24 ->
  sum_u32 (f <$> parts) = Some (len (concat nss)).
Proof.
  intros Hf Hs. rewrite sum_u32_spec.
  - rewrite (part_counts nss parts f Hf). unfold checked_u32. rewrite decide_True; [done|].
    pose proof (len_nonneg (concat nss)). unfold is_u32, u32_modulus. lia.
  - apply Forall_fmap. clear Hs. induction Hf as [|ns p nss parts E _ IH]; constructor; [|done]. cbn. rewrite E. apply len_nonneg.
Qed.

(** A tier over summaries that describe their nodes succeeds and describes them all. *)
Lemma tier_describes m op bop id leader_id nss parts now :
  parts <> [] -> Forall2 describes nss parts -> len (concat nss) < 2 ^ 24 ->
  exists t, aggregate_tier m op bop id leader_id parts now = Some (Ok t) /\ describes (concat nss) (tier_part t).
Proof.
  intros Hne Hall Hs.
  assert (forall (P : list NodeRecord -> Part -> Prop), (forall ns p, describes ns p -> P ns p) -> Forall2 P nss parts) as Himp
    by (intros P HP; eapply Forall2_impl; [exact Hall|done]).
  assert (sum_u32 (p_members <$> parts) = Some (len (concat nss))) as Em by (apply sum_counts; [apply Himp; by intros ? ? []|done]).
  assert (sum_u32 (p_operational <$> parts) = Some (len (concat nss))) as Eo by (apply sum_counts; [apply Himp; by intros ? ? []|done]).
  assert (total (p_members <$> parts) < 2 ^ 24) as Ht.
  { erewrite part_counts; [exact Hs|]. apply Himp. by intros ? ? []. }
  assert (exists c, calculate_position_centroid_from_positions (omap p_centroid parts) = Ok c) as [c Ec].
  { destruct parts as [|p parts]; [done|]. inversion Hall as [|ns ? nss' ? Hd]; subst. destruct (d_centroid _ _ Hd) as [c0 E0].
    cbn. rewrite E0. cbn. eauto. }
  assert (forall f, exists x, weighted_average f parts = Some x) as Hwa.
  { intros f. unfold weighted_average. destruct parts; [done|]. rewrite Em. cbn. eauto. }
  destruct (Hwa p_fuel) as [fuel Ef], (Hwa p_readiness) as [ready Er].
  destruct (tier_boxes nss parts bop Hne Hall) as (b & Eb & Hb).
  eexists. split.
  - unfold aggregate_tier. destruct parts as [|p0 ps]; [done|]. rewrite Em. cbn [mbind option_bind]. rewrite Ec.
    unfold calculate_weighted_avg_fuel, calculate_weighted_readiness. rewrite Ef. cbn [mbind option_bind].
    rewrite Eo. cbn [mbind option_bind]. rewrite Er. cbn [mbind option_bind]. rewrite Eb. reflexivity.
  - destruct (value_types_spec parts) as [Hnd Hty].
    split; cbn [tier_part p_members p_operational p_health p_box p_centroid p_capabilities p_readiness total_member_count
      ts_operational ts_worst_health ts_box ts_centroid ts_capabilities ts_readiness]; try done.
    + apply worst_parts; [intros ->; inversion Hall; by subst|]. apply Forall2_fmap_r, Himp. by intros ? ? [].
    + eauto.
    + intros k. by rewrite Hty, (part_types nss).
    + apply (weighted_average_unit p_readiness parts); [|done|done]. clear -Hall.
      induction Hall as [|ns p nss parts Hd _ IH]; constructor; [|done].
      split; [apply (d_readiness _ _ Hd)|]. rewrite (d_members _ _ Hd). apply len_nonneg.
Qed.

(** ** The hierarchy *)

(** [summarises nodes p]: the summary [p] was computed tier by tier from the states of
    nodes of which [nodes] are the operational ones. *)
Inductive summarises : list NodeRecord -> Part -> Prop :=
| cell_summarises cell_id leader_id members at_ now s :
    aggregate_cell cell_id leader_id members at_ now = Some (Ok s) ->
    summarises (operational_of members) (cell_part s)
| cohort_summarises nodes cohort_id leader_id cells now t :
    summarise_all nodes (cell_part <$> cells) -> aggregate_cohort cohort_id leader_id cells now = Some (Ok t) ->
    summarises nodes (tier_part t)
| federation_summarises nodes federation_id leader_id cohorts now t :
    summarise_all nodes (tier_part <$> cohorts) ->
    aggregate_federation federation_id leader_id cohorts now = Some (Ok t) -> summarises nodes (tier_part t)
| coalition_summarises nodes coalition_id leader_id federations now t :
    summarise_all nodes (tier_part <$> federations) ->
    aggregate_coalition coalition_id leader_id federations now = Some (Ok t) -> summarises nodes (tier_part t)
with summarise_all : list NodeRecord -> list Part -> Prop :=
| summarise_nil : summarise_all [] []
| summarise_cons nodes p rest parts :
    summarises nodes p -> summarise_all rest parts -> summarise_all (nodes ++ rest) (p :: parts).

Scheme summarises_mut := Induction for summarises Sort Prop
  with summarise_all_mut := Induction for summarise_all Sort Prop.
Combined Scheme summarises_both from summarises_mut, summarise_all_mut.

Definition fits (nodes : list NodeRecord) : Prop := len nodes < 2 ^ 24 /\ sound_confidences nodes.

Lemma fits_app l k : fits (l ++ k) -> fits l /\ fits k.
Proof.
  intros [Hl Hc]. unfold fits, len, sound_confidences in *. rewrite length_app in Hl.
  split; (split; [lia|]); intros n cap Hn; apply (Hc n cap); apply elem_of_app; auto.
Qed.

Lemma tier_step m op bop id leader_id parts now t nodes :
  aggregate_tier m op bop id leader_id parts now = Some (Ok t) ->
  (fits nodes -> exists nss, nodes = concat nss /\ Forall2 describes nss parts) -> fits nodes ->
  describes nodes (tier_part t).
Proof.
  intros E Hall Hf. destruct (Hall Hf) as (nss & -> & Hd).
  destruct (tier_describes m op bop id leader_id nss parts now) as (t' & E' & Ht); [by destruct parts|done|apply Hf|].
  rewrite E in E'. by injection E' as ->.
Qed.

Lemma summaries_describe :
  (forall nodes p, summarises nodes p -> fits nodes -> describes nodes p) /\
  (forall nodes parts, summarise_all nodes parts -> fits nodes ->
    exists nss, nodes = concat nss /\ Forall2 describes nss parts).
Proof.
  apply summarises_both.
  - intros cell_id leader_id members at_ now s E [Hs Hc]. by eapply cell_describes.
  - intros nodes i l cells now t _ IH E. by eapply tier_step.
  - intros nodes i l cells now t _ IH E. by eapply tier_step.
  - intros nodes i l cells now t _ IH E. by eapply tier_step.
  - intros _. exists []. by split; [|constructor].
  - intros nodes p rest parts _ IH _ IHs [F1 F2]%fits_app. destruct (IHs F2) as (nss & -> & Hall).
    exists (nodes :: nss). split; [done|]. constructor; [by apply IH|done].
Qed.

(** C25: whatever tier it belongs to, a summary describes exactly the operational nodes
    below it: its member and operational counts are their number, its worst health the
    worst of theirs, its box the smallest around their positions, its capability types
    exactly those they bring, once each, and its readiness is between zero and one on
    binary32, for up to 2^24 nodes. *)
Theorem summaries_describe_nodes nodes p :
  summarises nodes p -> fits nodes -> describes nodes p.
Proof. apply summaries_describe. Qed.

(** A tier above successful summaries never fails: no error and no overflow. *)
Theorem tiers_never_fail m op bop id leader_id nodes parts now :
  summarise_all nodes parts -> parts <> [] -> fits nodes ->
  exists t, aggregate_tier m op bop id leader_id parts now = Some (Ok t) /\ total_member_count t = len nodes.
Proof.
  intros Hall Hne Hf. destruct (proj2 summaries_describe nodes parts Hall Hf) as (nss & -> & Hd).
  destruct (tier_describes m op bop id leader_id nss parts now Hne Hd (proj1 Hf)) as (t & E & Ht).
  exists t. split; [done|]. apply (d_members _ _ Ht).
Qed.

(** The outcome of a cell summary in every case: an error without operational
    members or without a position among them, a panic when the fuel of the operational
    members overflows 32 bits, and a summary otherwise. *)
Theorem aggregate_cell_outcome cell_id leader_id members at_ now :
  Forall (fun m => 0 <= fuel_minutes (snd m)) members ->
  let nodes := operational_of members in
  match aggregate_cell cell_id leader_id members at_ now with
  | Some (Ok s) => positions nodes <> [] /\ total ((fun m => fuel_minutes (snd m)) <$> nodes) < 2 ^ 32 /\
                   member_ids s = (fun m => nc_id (fst m)) <$> nodes
  | Some (Err e) =>
      nodes = [] /\ e = EHierarchicalOp "Cell has no operational members" "aggregate_cell" \/
      nodes <> [] /\ positions nodes = [] /\
        e = EHierarchicalOp "No valid positions to aggregate" "calculate_position_centroid"
  | None => positions nodes <> [] /\ 2 ^ 32 <= total ((fun m => fuel_minutes (snd m)) <$> nodes)
  end.
Proof.
  intros Hf. unfold aggregate_cell. fold (operational_of members). cbv zeta.
  assert (Forall (Z.le 0) ((fun m => fuel_minutes (snd m)) <$> operational_of members)) as Hn.
  { apply Forall_fmap, Forall_forall. intros m [_ Hm]%list_elem_of_filter. by apply (proj1 (Forall_forall _ _) Hf). }
  destruct (operational_of members) as [|n0 rest] eqn:En; [by left|]. rewrite <- En in *.
  unfold calculate_position_centroid, calculate_bounding_box.
  destruct (positions (operational_of members)) as [|p0 ps] eqn:Ep; [right; by rewrite En|].
  set (fuels := (fun m => fuel_minutes (snd m)) <$> operational_of members) in *.
  assert (calculate_avg_fuel (operational_of members) =
    sum ← sum_u32 fuels; Some (div32 (f32_of_Z sum) (f32_of_Z (len (operational_of members))))) as ->.
  { unfold fuels, calculate_avg_fuel. by rewrite En. }
  rewrite sum_u32_spec by done. unfold checked_u32. pose proof (total_nonneg _ Hn) as Ht.
  case_decide as Hd; cbn [mbind option_bind].
  - destruct (aggregate_capabilities_spec (operational_of members)) as (m & -> & _). cbn.
    split_and!; [done|unfold is_u32, u32_modulus in Hd; lia|done].
  - split; [done|]. unfold is_u32, u32_modulus in Hd. lia.
Qed.

(** ** What summaries do not show *)

(** A failed node leaves no trace in the summary of its cell, neither in the member
    count nor in the worst health: removing it from the members changes nothing. *)
Theorem failed_nodes_invisible cell_id leader_id members at_ now cfg st :
  get_health st = HealthFailed ->
  aggregate_cell cell_id leader_id ((cfg, st) :: members) at_ now =
  aggregate_cell cell_id leader_id members at_ now.
Proof.
  intros Hh. unfold aggregate_cell. rewrite filter_cons_False; [done|].
  cbn [snd]. unfold is_operational. rewrite bool_decide_eq_true_2 by done. done.
Qed.

(** A health number the schema does not have counts as operational and at the same time
    as the worst failure. *)
Theorem unknown_health_reported_failed cell_id leader_id members at_ now s cfg st :
  health_try_from (health st) = None -> 0 < fuel_minutes st ->
  aggregate_cell cell_id leader_id ((cfg, st) :: members) at_ now = Some (Ok s) ->
  len (operational_of ((cfg, st) :: members)) < 2 ^ 24 ->
  sound_confidences (operational_of ((cfg, st) :: members)) ->
  cs_worst_health s = health_to_i32 HealthFailed /\ nc_id cfg ∈ member_ids s.
Proof.
  intros Hh Hfuel E Hs Hc. pose proof (cell_describes _ _ _ _ _ _ E Hs Hc) as Hd.
  assert ((cfg, st) ∈ operational_of ((cfg, st) :: members)) as Hin.
  { apply list_elem_of_filter. split; [|by left]. cbn [snd]. unfold is_operational, get_health. rewrite Hh.
    cbn [from_option]. rewrite bool_decide_eq_false_2 by done. by apply Z.ltb_lt. }
  split.
  - destruct (d_worst _ _ Hd) as [Hw _]. specialize (Hw _ Hin). unfold severity, decode_health in Hw. cbn [snd] in Hw.
    rewrite Hh in Hw. cbn [from_option Datatypes.id health_to_i32] in Hw. destruct (d_status _ _ Hd) as [h Eh].
    cbn [cell_part p_health] in *. rewrite Eh in *. destruct h; cbn in *; done || lia.
  - unfold aggregate_cell in E. fold (operational_of ((cfg, st) :: members)) in E.
    set (nodes := operational_of ((cfg, st) :: members)) in *.
    assert (nc_id cfg ∈ (fun m : NodeRecord => nc_id (fst m)) <$> nodes) as Hid by (by apply (list_elem_of_fmap_2 (fun m : NodeRecord => nc_id (fst m)) nodes (cfg, st))).
    destruct nodes as [|n0 rest] eqn:En; [done|]. rewrite <- En in *.
    destruct (calculate_position_centroid nodes); [|done]. destruct (calculate_avg_fuel nodes); [|done].
    cbn [mbind option_bind] in E. destruct (aggregate_capabilities nodes); [|done].
    destruct (calculate_bounding_box nodes); [|done]. by injection E as <-.
Qed.

End Describe.

(** The radius of a tier is the largest radius of its parts, whatever their distance:
    two cells of one node each at opposite ends of the equator make a cohort of radius
    zero, although it is documented as the distance from the centre to the furthest
    member. *)
Theorem tier_radius_ignores_distance :
  let at_lon lon := box_of f32_zero f32_zero lon lon f32_zero f32_zero f32_zero in
  exists b sw ne, aggregate_boxes [at_lon (f64_of_Z (-90)); at_lon (f64_of_Z 90)] "" = Ok b /\
    southwest b = Some sw /\ northeast b = Some ne /\
    longitude sw = f64_of_Z (-90) /\ longitude ne = f64_of_Z 90 /\ radius_m b = f32_zero.
Proof. vm_compute. do 3 eexists. split_and!; reflexivity. Qed.

(** ** Instances *)

Module SampleHierarchy.

#[export] Instance flat_libm : LibM :=
  {| f64_sin x := x; f64_cos _ := f64_of_Z 1; f64_atan2 y _ := y; f64_powi x _ := mul64 x x |}.

#[export] Instance some_values : ValueOrder := {| values m := (map_to_list m).*2; values_perm m := reflexivity _ |}.

#[local] Existing Instance order1.

Definition node (id : string) (lat lon : Z) (h : HealthStatus) : NodeRecord :=
  (mkNodeConfig id "UGV" [capability_new id "c" Sensor (f32_lit 7 10)] f32_zero f32_zero None None,
   mkNodeState (Some (mkPosition (f64_of_Z lat) (f64_of_Z lon) (f64_of_Z 10))) 60 (health_to_i32 h) 0 None None None None None).

Definition cell_members : list NodeRecord := [node "n1" (-3) 10 Nominal; node "n2" 4 20 Degraded; node "n3" 0 0 HealthFailed].

Definition noon : Timestamp := mkTimestamp 43200 0.

Definition cell_result : option (result Error CellSummary) :=
  aggregate_cell "c1" "n1" cell_members (fun _ => noon) noon.

Definition blank : CellSummary := mkCellSummary "" "" [] 0 None f32_zero 0 0 [] f32_zero None None.

Definition cell : CellSummary := match cell_result with Some (Ok s) => s | _ => blank end.

Lemma cell_computes : cell_result = Some (Ok cell).
Proof.
  assert (match cell_result with Some (Ok _) => true | _ => false end = true) as H by (vm_compute; reflexivity).
  unfold cell. destruct cell_result as [[s|e]|]; done.
Qed.

Definition two_nodes : list NodeRecord := operational_of cell_members.

Lemma two_nodes_fit : fits (two_nodes ++ two_nodes ++ []).
Proof.
  split; [vm_compute; reflexivity|]. intros n cap Hn Hc.
  assert (Node.capabilities (fst n) = [capability_new (nc_id (fst n)) "c" Sensor (f32_lit 7 10)]) as E.
  { change (two_nodes ++ two_nodes ++ []) with
      [node "n1" (-3) 10 Nominal; node "n2" 4 20 Degraded; node "n1" (-3) 10 Nominal; node "n2" 4 20 Degraded] in Hn.
    rewrite !elem_of_cons in Hn. destruct Hn as [->|[->|[->|[->|[]%not_elem_of_nil]]]]; reflexivity. }
  rewrite E in Hc. apply list_elem_of_singleton in Hc as ->. vm_compute. auto.
Qed.

Lemma cell_summary : summarises two_nodes (cell_part cell).
Proof. apply (cell_summarises "c1" "n1" cell_members (fun _ => noon) noon). apply cell_computes. Qed.

Lemma two_cells : summarise_all (two_nodes ++ two_nodes ++ []) [cell_part cell; cell_part cell].
Proof. repeat (constructor; [apply cell_summary|]). constructor. Qed.

Lemma summaries_describe_nodes_witness : describes two_nodes (cell_part cell).
Proof.
  apply summaries_describe_nodes; [apply cell_summary|]. destruct (fits_app _ _ two_nodes_fit) as [H _]. exact H.
Defined.

Lemma tiers_never_fail_witness :
  exists t, aggregate_tier "" "" "" "k1" "n1" [cell_part cell; cell_part cell] noon = Some (Ok t) /\ total_member_count t = 4.
Proof.
  apply (tiers_never_fail "" "" "" "k1" "n1" (two_nodes ++ two_nodes ++ []) [cell_part cell; cell_part cell] noon);
    [apply two_cells|done|apply two_nodes_fit].
Defined.

Lemma aggregate_cell_outcome_witness :
  positions two_nodes <> [] /\ total ((fun m => fuel_minutes (snd m)) <$> two_nodes) < 2 ^ 32 /\
  member_ids cell = ["n1"; "n2"]%string.
Proof.
  pose proof (aggregate_cell_outcome "c1" "n1" cell_members (fun _ => noon) noon) as H.
  rewrite (cell_computes : aggregate_cell _ _ _ _ _ = _) in H.
  destruct H as (H1 & H2 & H3); [repeat constructor; cbn; lia|]. split_and!; [exact H1|exact H2|rewrite H3; reflexivity].
Defined.

Lemma tier_capabilities_best_witness :
  NoDup (capability_type <$> values (merged_capabilities [cell_part cell; cell_part blank])).
Proof.
  apply tier_capabilities_best. apply Forall_forall. intros c Hc Hn.
  assert (forallb (fun c => match confidence c with S754_nan => false | _ => true end)
    (all_capabilities [cell_part cell; cell_part blank]) = true) as H by (vm_compute; reflexivity).
  rewrite forallb_forall in H. apply list_elem_of_In, H in Hc. by rewrite Hn in Hc.
Defined.

Lemma failed_nodes_invisible_witness :
  aggregate_cell "c1" "n1" (node "n3" 0 0 HealthFailed :: two_nodes) (fun _ => noon) noon =
  aggregate_cell "c1" "n1" two_nodes (fun _ => noon) noon.
Proof. apply failed_nodes_invisible. reflexivity. Defined.

End SampleHierarchy.
