(* ===== verification/Deltas.v ===== *)
(** * Field updates of summaries

    Models peat-protocol/src/hierarchy/deltas.rs (updates of single fields of a summary
    document and the delta that a whole summary turns into) and the functions of
    storage/automerge_summary_storage.rs that apply a delta to a stored summary. The
    updates of the three upper tiers differ only in names and share
    [TierFieldUpdate]. How a message is turned into JSON is generated code: the class
    [MessageJson]. Sizes are estimates of what fits in memory and do not overflow. *)

From S2P Require Import Prelude Float Capability Node StateAggregation Json.
From Stdlib Require Import SpecFloat.

Open Scope Z_scope.

(** [serde_json::to_value] of the messages *)
Class MessageJson := {
  position_json : Position -> option Json;
  capability_json : Capability -> option Json;
  box_json : BoundingBox -> option Json;
  timestamp_json : Timestamp -> option Json
}.

Inductive CellFieldUpdate :=
| SetLeaderId (id : string)
| SetMemberCount (n : Z)
| SetOperationalCount (n : Z)
| SetAvgFuelMinutes (x : spec_float)
| SetWorstHealth (h : Z)
| SetReadinessScore (x : spec_float)
| UpdatePositionCentroid (p : Position)
| AddMemberId (id : string)
| RemoveMemberId (id : string)
| AddCapability (c : Capability)
| RemoveCapability (id : string)
| UpdateBoundingBox (b : BoundingBox)
| UpdateAggregatedAt (t : Timestamp).

Record CellDelta := mkCellDelta {
  cd_cell_id : string;
  cd_timestamp_us : Z;
  cd_sequence : Z;
  cd_updates : list CellFieldUpdate
}.

(** [CohortFieldUpdate], [FederationFieldUpdate] and [CoalitionFieldUpdate] *)
Inductive TierFieldUpdate :=
| TSetLeaderId (id : string)
| TSetPartCount (n : Z)
| TSetTotalMemberCount (n : Z)
| TSetOperationalCount (n : Z)
| TSetAvgFuelMinutes (x : spec_float)
| TSetWorstHealth (h : Z)
| TSetReadinessScore (x : spec_float)
| TUpdatePositionCentroid (p : Position)
| TAddPartId (id : string)
| TRemovePartId (id : string)
| TAddCapability (c : Capability)
| TRemoveCapability (id : string)
| TUpdateBoundingBox (b : BoundingBox)
| TUpdateAggregatedAt (t : Timestamp).

Record TierDelta := mkTierDelta {
  td_id : string;
  td_timestamp_us : Z;
  td_sequence : Z;
  td_updates : list TierFieldUpdate
}.

Definition CohortDelta : Type := TierDelta.
Definition FederationDelta : Type := TierDelta.
Definition CoalitionDelta : Type := TierDelta.

(** ** Updates as paths and values *)

Section Ditto.
Context `{MessageJson}.

Definition or_null (o : option Json) : Json := default JNull o.

Definition cell_update_op (u : CellFieldUpdate) : string * Json :=
  match u with
  | SetLeaderId id => ("leader_id", JString id)
  | SetMemberCount n => ("member_count", JInt n)
  | SetOperationalCount n => ("operational_count", JInt n)
  | SetAvgFuelMinutes x => ("avg_fuel_minutes", json_f32 x)
  | SetWorstHealth h => ("worst_health", JInt h)
  | SetReadinessScore x => ("readiness_score", json_f32 x)
  | UpdatePositionCentroid p => ("position_centroid", or_null (position_json p))
  | AddMemberId id => ("member_ids.$add", JString id)
  | RemoveMemberId id => ("member_ids.$remove", JString id)
  | AddCapability c => ("aggregated_capabilities.$add", or_null (capability_json c))
  | RemoveCapability id => ("aggregated_capabilities.$remove", JString id)
  | UpdateBoundingBox b => ("bounding_box", or_null (box_json b))
  | UpdateAggregatedAt t => ("aggregated_at", or_null (timestamp_json t))
  end%string.

Definition metadata_ops (timestamp_us sequence : Z) : list (string * Json) :=
  [("last_update_us", JInt timestamp_us); ("sequence", JInt sequence)]%string.

Definition cell_into_ditto_updates (d : CellDelta) : list (string * Json) :=
  (cell_update_op <$> cd_updates d) ++ metadata_ops (cd_timestamp_us d) (cd_sequence d).

(** [part] names the parts of the tier: cell, cohort or federation. *)
Definition tier_update_op (part : string) (u : TierFieldUpdate) : string * Json :=
  match u with
  | TSetLeaderId id => ("leader_id", JString id)
  | TSetPartCount n => (part +:+ "_count", JInt n)
  | TSetTotalMemberCount n => ("total_member_count", JInt n)
  | TSetOperationalCount n => ("operational_count", JInt n)
  | TSetAvgFuelMinutes x => ("avg_fuel_minutes", json_f32 x)
  | TSetWorstHealth h => ("worst_health", JInt h)
  | TSetReadinessScore x => ("readiness_score", json_f32 x)
  | TUpdatePositionCentroid p => ("position_centroid", or_null (position_json p))
  | TAddPartId id => (part +:+ "_ids.$add", JString id)
  | TRemovePartId id => (part +:+ "_ids.$remove", JString id)
  | TAddCapability c => ("aggregated_capabilities.$add", or_null (capability_json c))
  | TRemoveCapability id => ("aggregated_capabilities.$remove", JString id)
  | TUpdateBoundingBox b => ("bounding_box", or_null (box_json b))
  | TUpdateAggregatedAt t => ("aggregated_at", or_null (timestamp_json t))
  end%string.

Definition tier_into_ditto_updates (part : string) (d : TierDelta) : list (string * Json) :=
  (tier_update_op part <$> td_updates d) ++ metadata_ops (td_timestamp_us d) (td_sequence d).

Definition cohort_into_ditto_updates : CohortDelta -> list (string * Json) := tier_into_ditto_updates "cell".
Definition federation_into_ditto_updates : FederationDelta -> list (string * Json) := tier_into_ditto_updates "cohort".
Definition coalition_into_ditto_updates : CoalitionDelta -> list (string * Json) := tier_into_ditto_updates "federation".

End Ditto.

(** ** Estimated sizes *)

Definition str_len (s : string) : Z := Z.of_nat (String.length s).

Definition cell_update_size (u : CellFieldUpdate) : Z :=
  match u with
  | SetLeaderId s | AddMemberId s | RemoveMemberId s | RemoveCapability s => str_len s
  | SetMemberCount _ | SetOperationalCount _ | SetAvgFuelMinutes _ | SetWorstHealth _ | SetReadinessScore _ => 4
  | UpdatePositionCentroid _ => 24
  | AddCapability _ => 128
  | UpdateBoundingBox _ => 64
  | UpdateAggregatedAt _ => 16
  end + 16.

Definition cell_size_bytes (d : CellDelta) : Z := 64 + total (cell_update_size <$> cd_updates d).

Definition tier_update_size (u : TierFieldUpdate) : Z :=
  match u with
  | TSetLeaderId s | TAddPartId s | TRemovePartId s | TRemoveCapability s => str_len s
  | TSetPartCount _ | TSetTotalMemberCount _ | TSetOperationalCount _ | TSetAvgFuelMinutes _
  | TSetWorstHealth _ | TSetReadinessScore _ => 4
  | TUpdatePositionCentroid _ => 24
  | TAddCapability _ => 128
  | TUpdateBoundingBox _ => 64
  | TUpdateAggregatedAt _ => 16
  end + 16.

Definition tier_size_bytes (d : TierDelta) : Z := 64 + total (tier_update_size <$> td_updates d).

Definition cohort_size_bytes : CohortDelta -> Z := tier_size_bytes.
Definition federation_size_bytes : FederationDelta -> Z := tier_size_bytes.
Definition coalition_size_bytes : CoalitionDelta -> Z := tier_size_bytes.

Definition cell_is_empty (d : CellDelta) : bool := match cd_updates d with [] => true | _ => false end.
Definition tier_is_empty (d : TierDelta) : bool := match td_updates d with [] => true | _ => false end.

(** ** Deltas of whole summaries *)

Definition optional {A B} (f : A -> B) (o : option A) : list B := match o with Some a => [f a] | None => [] end.

Definition cell_from_summary (s : CellSummary) (now_us sequence : Z) : CellDelta :=
  mkCellDelta (cs_cell_id s) now_us sequence
    ([SetLeaderId (cs_leader_id s); SetMemberCount (member_count s); SetOperationalCount (cs_operational s);
      SetAvgFuelMinutes (cs_fuel s); SetWorstHealth (cs_worst_health s); SetReadinessScore (cs_readiness s)] ++
     optional UpdatePositionCentroid (cs_centroid s) ++
     (AddMemberId <$> member_ids s) ++ (AddCapability <$> cs_capabilities s) ++
     optional UpdateBoundingBox (cs_box s) ++ optional UpdateAggregatedAt (cs_aggregated_at s)).

Definition tier_from_summary (s : TierSummary) (now_us sequence : Z) : TierDelta :=
  mkTierDelta (tier_id s) now_us sequence
    ([TSetLeaderId (ts_leader_id s); TSetPartCount (part_count s); TSetTotalMemberCount (total_member_count s);
      TSetOperationalCount (ts_operational s); TSetAvgFuelMinutes (ts_fuel s);
      TSetWorstHealth (ts_worst_health s); TSetReadinessScore (ts_readiness s)] ++
     optional TUpdatePositionCentroid (ts_centroid s) ++
     (TAddPartId <$> part_ids s) ++ (TAddCapability <$> ts_capabilities s) ++
     optional TUpdateBoundingBox (ts_box s) ++ optional TUpdateAggregatedAt (ts_aggregated_at s)).

Definition cohort_from_summary : CohortSummary -> Z -> Z -> CohortDelta := tier_from_summary.
Definition federation_from_summary : FederationSummary -> Z -> Z -> FederationDelta := tier_from_summary.
Definition coalition_from_summary : CoalitionSummary -> Z -> Z -> CoalitionDelta := tier_from_summary.

(** ** Applying a delta to a stored summary *)

Definition add_id (ids : list string) (id : string) : list string := if decide (id ∈ ids) then ids else ids ++ [id].
Definition remove_id (ids : list string) (id : string) : list string := filter (fun m => m <> id) ids.
Definition remove_capability (caps : list Capability) (cap_id : string) : list Capability :=
  filter (fun c => id c <> cap_id) caps.

Definition apply_cell_update (s : CellSummary) (u : CellFieldUpdate) : CellSummary :=
  let 'mkCellSummary cell leader ids count centroid fuel health operational caps readiness box at_ := s in
  match u with
  | SetLeaderId id => mkCellSummary cell id ids count centroid fuel health operational caps readiness box at_
  | SetMemberCount n => mkCellSummary cell leader ids n centroid fuel health operational caps readiness box at_
  | SetOperationalCount n => mkCellSummary cell leader ids count centroid fuel health n caps readiness box at_
  | SetAvgFuelMinutes x => mkCellSummary cell leader ids count centroid x health operational caps readiness box at_
  | SetWorstHealth h => mkCellSummary cell leader ids count centroid fuel h operational caps readiness box at_
  | SetReadinessScore x => mkCellSummary cell leader ids count centroid fuel health operational caps x box at_
  | UpdatePositionCentroid p => mkCellSummary cell leader ids count (Some p) fuel health operational caps readiness box at_
  | AddMemberId id => mkCellSummary cell leader (add_id ids id) count centroid fuel health operational caps readiness box at_
  | RemoveMemberId id => mkCellSummary cell leader (remove_id ids id) count centroid fuel health operational caps readiness box at_
  | AddCapability c => mkCellSummary cell leader ids count centroid fuel health operational (caps ++ [c]) readiness box at_
  | RemoveCapability id => mkCellSummary cell leader ids count centroid fuel health operational (remove_capability caps id) readiness box at_
  | UpdateBoundingBox b => mkCellSummary cell leader ids count centroid fuel health operational caps readiness (Some b) at_
  | UpdateAggregatedAt t => mkCellSummary cell leader ids count centroid fuel health operational caps readiness box (Some t)
  end.

Definition cell_update_bytes (u : CellFieldUpdate) : Z :=
  match u with
  | SetLeaderId _ => 16
  | SetMemberCount _ | SetOperationalCount _ | SetAvgFuelMinutes _ | SetWorstHealth _ | SetReadinessScore _ => 4
  | UpdatePositionCentroid _ => 24
  | AddMemberId _ => 16
  | RemoveMemberId _ => 8
  | AddCapability _ => 100
  | RemoveCapability _ => 8
  | UpdateBoundingBox _ => 40
  | UpdateAggregatedAt _ => 16
  end.

Definition apply_cell_delta (s : CellSummary) (d : CellDelta) : CellSummary * Z :=
  (fold_left apply_cell_update (cd_updates d) s, total (cell_update_bytes <$> cd_updates d)).

(** Shared by the three upper tiers *)
Definition apply_tier_update (s : TierSummary) (u : TierFieldUpdate) : TierSummary :=
  let 'mkTierSummary tier leader ids count members centroid fuel health operational caps readiness box at_ := s in
  match u with
  | TSetLeaderId id => mkTierSummary tier id ids count members centroid fuel health operational caps readiness box at_
  | TSetPartCount n => mkTierSummary tier leader ids n members centroid fuel health operational caps readiness box at_
  | TSetTotalMemberCount n => mkTierSummary tier leader ids count n centroid fuel health operational caps readiness box at_
  | TSetOperationalCount n => mkTierSummary tier leader ids count members centroid fuel health n caps readiness box at_
  | TSetAvgFuelMinutes x => mkTierSummary tier leader ids count members centroid x health operational caps readiness box at_
  | TSetWorstHealth h => mkTierSummary tier leader ids count members centroid fuel h operational caps readiness box at_
  | TSetReadinessScore x => mkTierSummary tier leader ids count members centroid fuel health operational caps x box at_
  | TUpdatePositionCentroid p => mkTierSummary tier leader ids count members (Some p) fuel health operational caps readiness box at_
  | TAddPartId id => mkTierSummary tier leader (add_id ids id) count members centroid fuel health operational caps readiness box at_
  | TRemovePartId id => mkTierSummary tier leader (remove_id ids id) count members centroid fuel health operational caps readiness box at_
  | TAddCapability c => mkTierSummary tier leader ids count members centroid fuel health operational (caps ++ [c]) readiness box at_
  | TRemoveCapability id => mkTierSummary tier leader ids count members centroid fuel health operational (remove_capability caps id) readiness box at_
  | TUpdateBoundingBox b => mkTierSummary tier leader ids count members centroid fuel health operational caps readiness (Some b) at_
  | TUpdateAggregatedAt t => mkTierSummary tier leader ids count members centroid fuel health operational caps readiness box (Some t)
  end.

Definition tier_update_bytes (u : TierFieldUpdate) : Z :=
  match u with
  | TSetLeaderId _ => 16
  | TSetPartCount _ | TSetTotalMemberCount _ | TSetOperationalCount _ | TSetAvgFuelMinutes _
  | TSetWorstHealth _ | TSetReadinessScore _ => 4
  | TUpdatePositionCentroid _ => 24
  | TAddPartId _ => 16
  | TRemovePartId _ => 8
  | TAddCapability _ => 100
  | TRemoveCapability _ => 8
  | TUpdateBoundingBox _ => 40
  | TUpdateAggregatedAt _ => 16
  end.

Definition apply_tier_delta (s : TierSummary) (d : TierDelta) : TierSummary * Z :=
  (fold_left apply_tier_update (td_updates d) s, total (tier_update_bytes <$> td_updates d)).

Definition apply_cohort_delta : CohortSummary -> CohortDelta -> CohortSummary * Z := apply_tier_delta.
Definition apply_federation_delta : FederationSummary -> FederationDelta -> FederationSummary * Z := apply_tier_delta.
Definition apply_coalition_delta : CoalitionSummary -> CoalitionDelta -> CoalitionSummary * Z := apply_tier_delta.

(** ** Membership under a sequence of updates *)

(** Whether an update adds or removes the member [x], if it is about it *)
Definition member_op (x : string) (u : CellFieldUpdate) : option bool :=
  match u with
  | AddMemberId y => if decide (x = y) then Some true else None
  | RemoveMemberId y => if decide (x = y) then Some false else None
  | _ => None
  end.

Fixpoint last_op (x : string) (us : list CellFieldUpdate) : option bool :=
  match us with
  | [] => None
  | u :: us => match last_op x us with Some b => Some b | None => member_op x u end
  end.

Lemma elem_of_add_id ids y x : x ∈ add_id ids y <-> x ∈ ids \/ x = y.
Proof. unfold add_id. case_decide; set_solver. Qed.

Lemma elem_of_remove_id ids y x : x ∈ remove_id ids y <-> x ∈ ids /\ x <> y.
Proof. unfold remove_id. rewrite list_elem_of_filter. tauto. Qed.

Lemma add_id_NoDup ids y : NoDup ids -> NoDup (add_id ids y).
Proof. intros Hnd. unfold add_id. case_decide; [done|]. apply NoDup_app. split_and!; [done|set_solver|apply NoDup_singleton]. Qed.

Definition member_after (x : string) (op : option bool) (ids : list string) : Prop :=
  match op with Some b => b = true | None => x ∈ ids end.

Lemma member_after_update x s u :
  x ∈ member_ids (apply_cell_update s u) <-> member_after x (member_op x u) (member_ids s).
Proof.
  destruct s as [c l ids n ce f h o ca r b at_]. destruct u; cbn [apply_cell_update member_ids member_op member_after]; try done;
    rewrite ?elem_of_add_id, ?elem_of_remove_id; case_decide; cbn [member_after]; naive_solver.
Qed.

Lemma update_NoDup s u : NoDup (member_ids s) -> NoDup (member_ids (apply_cell_update s u)).
Proof. destruct s, u; cbn; try done; intros; [by apply add_id_NoDup|by apply NoDup_filter]. Qed.

(** Members under any delta: a node is a member afterwards exactly when the last
    update about it adds it, or when there is none and it was a member before; members
    stay without duplicates. *)
Theorem delta_membership s d x :
  NoDup (member_ids s) ->
  let s' := fst (apply_cell_delta s d) in
  NoDup (member_ids s') /\ (x ∈ member_ids s' <-> member_after x (last_op x (cd_updates d)) (member_ids s)).
Proof.
  destruct d as [c t q us]. cbn. revert s. induction us as [|u us IH]; intros s Hnd; cbn [fold_left last_op]; [done|].
  destruct (IH (apply_cell_update s u) (update_NoDup s u Hnd)) as [IH1 IH2]. split; [done|]. rewrite IH2.
  destruct (last_op x us) as [b|]; [done|]. apply member_after_update.
Qed.

(** ** Refreshing a document with a whole summary *)

Lemma fold_add_members ids s :
  fold_left apply_cell_update (AddMemberId <$> ids) s =
  mkCellSummary (cs_cell_id s) (cs_leader_id s) (fold_left add_id ids (member_ids s)) (member_count s) (cs_centroid s)
    (cs_fuel s) (cs_worst_health s) (cs_operational s) (cs_capabilities s) (cs_readiness s) (cs_box s) (cs_aggregated_at s).
Proof. revert s. induction ids as [|y ids IH]; intros s; destruct s; [done|]. cbn [fmap list_fmap fold_left]. by rewrite IH. Qed.

Lemma fold_add_capabilities caps s :
  fold_left apply_cell_update (AddCapability <$> caps) s =
  mkCellSummary (cs_cell_id s) (cs_leader_id s) (member_ids s) (member_count s) (cs_centroid s)
    (cs_fuel s) (cs_worst_health s) (cs_operational s) (cs_capabilities s ++ caps) (cs_readiness s) (cs_box s) (cs_aggregated_at s).
Proof.
  revert s. induction caps as [|c caps IH]; intros s; destruct s; cbn [fmap list_fmap fold_left]; [by rewrite app_nil_r|].
  rewrite IH. cbn. by rewrite <- app_assoc.
Qed.

Definition newer {A} (new old : option A) : option A := match new with Some a => Some a | None => old end.

(** What a refresh leaves in the document, field by field *)
Lemma cell_refresh d s now_us sequence :
  fst (apply_cell_delta d (cell_from_summary s now_us sequence)) =
  mkCellSummary (cs_cell_id d) (cs_leader_id s) (fold_left add_id (member_ids s) (member_ids d)) (member_count s)
    (newer (cs_centroid s) (cs_centroid d)) (cs_fuel s) (cs_worst_health s) (cs_operational s)
    (cs_capabilities d ++ cs_capabilities s) (cs_readiness s) (newer (cs_box s) (cs_box d))
    (newer (cs_aggregated_at s) (cs_aggregated_at d)).
Proof.
  unfold apply_cell_delta, cell_from_summary. cbn [fst cd_updates]. rewrite !fold_left_app.
  destruct d as [? ? ? ? ? ? ? ? ? ? ? ?], s as [? ? ? ? cen ? ? ? ? ? box at_]. cbn [fold_left apply_cell_update].
  destruct cen; cbn [optional fold_left apply_cell_update]; rewrite fold_add_members, fold_add_capabilities;
    destruct box, at_; reflexivity.
Qed.

Lemma fold_add_id_new ids acc : NoDup (acc ++ ids) -> fold_left add_id ids acc = acc ++ ids.
Proof.
  revert acc. induction ids as [|y ids IH]; intros acc Hnd; cbn [fold_left]; [by rewrite app_nil_r|].
  assert (y ∉ acc) as Hy by (apply NoDup_app in Hnd as (_ & Hd & _); intros Hin; apply (Hd y Hin); by left).
  unfold add_id at 2. rewrite decide_False by done. rewrite IH by (by rewrite <- app_assoc). by rewrite <- app_assoc.
Qed.

Lemma fold_add_id_elem ids acc x : x ∈ fold_left add_id ids acc <-> x ∈ acc \/ x ∈ ids.
Proof.
  revert acc. induction ids as [|y ids IH]; intros acc; cbn [fold_left]; [set_solver|].
  rewrite IH, elem_of_add_id. set_solver.
Qed.

Definition empty_cell (id : string) : CellSummary :=
  mkCellSummary id "" [] 0 None f32_zero 0 0 [] f32_zero None None.

(** The delta of a summary carries all of it: applied to the empty document of the
    cell it recreates the summary. *)
Theorem delta_recreates_summary s now_us sequence :
  NoDup (member_ids s) ->
  fst (apply_cell_delta (empty_cell (cs_cell_id s)) (cell_from_summary s now_us sequence)) = s.
Proof.
  intros Hnd. rewrite cell_refresh. cbn [empty_cell cs_cell_id member_ids cs_capabilities cs_centroid cs_box cs_aggregated_at app].
  rewrite fold_add_id_new by done. destruct s as [? ? ? ? cen ? ? ? ? ? box at_]. by destruct cen, box, at_.
Qed.

Fixpoint refreshed (n : nat) (d s : CellSummary) (now_us sequence : Z) : CellSummary :=
  match n with
  | O => d
  | S n => fst (apply_cell_delta (refreshed n d s now_us sequence) (cell_from_summary s now_us sequence))
  end.

(** Refreshing a document never removes a member: nodes that have left stay listed,
    while the member count next to the list is the new one. *)
Theorem refresh_keeps_departed_members d s now_us sequence x :
  x ∈ member_ids d -> x ∉ member_ids s ->
  let d' := fst (apply_cell_delta d (cell_from_summary s now_us sequence)) in
  x ∈ member_ids d' /\ member_count d' = member_count s.
Proof. intros Hd Hs. rewrite cell_refresh. cbn. split; [apply fold_add_id_elem; by left|done]. Qed.

(** Every refresh appends the capabilities once more. *)
Theorem refreshes_pile_up_capabilities n d s now_us sequence :
  len (cs_capabilities (refreshed n d s now_us sequence)) = len (cs_capabilities d) + Z.of_nat n * len (cs_capabilities s).
Proof.
  induction n as [|n IH]; cbn [refreshed]; [lia|]. rewrite cell_refresh. cbn [cs_capabilities].
  unfold len in *. rewrite length_app. lia.
Qed.

(** The sequence number and the time of a delta play no role: an old delta that
    arrives late overwrites what a newer one has written. *)
Theorem late_delta_wins s c1 t1 q1 us1 c2 t2 q2 us2 :
  fst (apply_cell_delta (fst (apply_cell_delta s (mkCellDelta c2 t2 q2 us2))) (mkCellDelta c1 t1 q1 us1)) =
  fold_left apply_cell_update (us2 ++ us1) s.
Proof. cbn. by rewrite fold_left_app. Qed.

Lemma fold_add_parts ids s :
  fold_left apply_tier_update (TAddPartId <$> ids) s =
  mkTierSummary (tier_id s) (ts_leader_id s) (fold_left add_id ids (part_ids s)) (part_count s) (total_member_count s)
    (ts_centroid s) (ts_fuel s) (ts_worst_health s) (ts_operational s) (ts_capabilities s) (ts_readiness s) (ts_box s)
    (ts_aggregated_at s).
Proof. revert s. induction ids as [|y ids IH]; intros s; destruct s; [done|]. cbn [fmap list_fmap fold_left]. by rewrite IH. Qed.

Lemma fold_add_tier_capabilities caps s :
  fold_left apply_tier_update (TAddCapability <$> caps) s =
  mkTierSummary (tier_id s) (ts_leader_id s) (part_ids s) (part_count s) (total_member_count s)
    (ts_centroid s) (ts_fuel s) (ts_worst_health s) (ts_operational s) (ts_capabilities s ++ caps) (ts_readiness s) (ts_box s)
    (ts_aggregated_at s).
Proof.
  revert s. induction caps as [|c caps IH]; intros s; destruct s; cbn [fmap list_fmap fold_left]; [by rewrite app_nil_r|].
  rewrite IH. cbn. by rewrite <- app_assoc.
Qed.

Lemma tier_refresh d s now_us sequence :
  fst (apply_tier_delta d (tier_from_summary s now_us sequence)) =
  mkTierSummary (tier_id d) (ts_leader_id s) (fold_left add_id (part_ids s) (part_ids d)) (part_count s)
    (total_member_count s) (newer (ts_centroid s) (ts_centroid d)) (ts_fuel s) (ts_worst_health s) (ts_operational s)
    (ts_capabilities d ++ ts_capabilities s) (ts_readiness s) (newer (ts_box s) (ts_box d))
    (newer (ts_aggregated_at s) (ts_aggregated_at d)).
Proof.
  unfold apply_tier_delta, tier_from_summary. cbn [fst td_updates]. rewrite !fold_left_app.
  destruct d, s as [? ? ? ? ? cen ? ? ? ? ? box at_]. cbn [fold_left apply_tier_update].
  destruct cen; cbn [optional fold_left apply_tier_update]; rewrite fold_add_parts, fold_add_tier_capabilities;
    destruct box, at_; reflexivity.
Qed.

Definition empty_tier (id : string) : TierSummary :=
  mkTierSummary id "" [] 0 0 None f32_zero 0 0 [] f32_zero None None.

(** The same for cohorts, federations and coalitions. *)
Theorem tier_delta_recreates_summary s now_us sequence :
  NoDup (part_ids s) ->
  fst (apply_tier_delta (empty_tier (tier_id s)) (tier_from_summary s now_us sequence)) = s.
Proof.
  intros Hnd. rewrite tier_refresh. cbn [empty_tier tier_id part_ids ts_capabilities ts_centroid ts_box ts_aggregated_at app].
  rewrite fold_add_id_new by done. destruct s as [? ? ? ? ? cen ? ? ? ? ? box at_]. by destruct cen, box, at_.
Qed.

(** ** Paths *)

(** The constructor of an update *)
Definition cell_field (u : CellFieldUpdate) : nat :=
  match u with
  | SetLeaderId _ => 0 | SetMemberCount _ => 1 | SetOperationalCount _ => 2 | SetAvgFuelMinutes _ => 3
  | SetWorstHealth _ => 4 | SetReadinessScore _ => 5 | UpdatePositionCentroid _ => 6 | AddMemberId _ => 7
  | RemoveMemberId _ => 8 | AddCapability _ => 9 | RemoveCapability _ => 10 | UpdateBoundingBox _ => 11
  | UpdateAggregatedAt _ => 12
  end.

Definition tier_field (u : TierFieldUpdate) : nat :=
  match u with
  | TSetLeaderId _ => 0 | TSetPartCount _ => 1 | TSetTotalMemberCount _ => 2 | TSetOperationalCount _ => 3
  | TSetAvgFuelMinutes _ => 4 | TSetWorstHealth _ => 5 | TSetReadinessScore _ => 6 | TUpdatePositionCentroid _ => 7
  | TAddPartId _ => 8 | TRemovePartId _ => 9 | TAddCapability _ => 10 | TRemoveCapability _ => 11
  | TUpdateBoundingBox _ => 12 | TUpdateAggregatedAt _ => 13
  end.

Section Paths.
Context `{MessageJson}.

(** In the list of paths and values of a delta every path belongs to one kind of
    update, at every tier, and none collides with the time and the sequence number
    appended at the end: no update can overwrite another field. *)
Theorem ditto_paths_distinct :
  (forall u v, fst (cell_update_op u) = fst (cell_update_op v) -> cell_field u = cell_field v) /\
  (forall u t q, fst (cell_update_op u) ∉ (metadata_ops t q).*1) /\
  forall part, part ∈ ["cell"; "cohort"; "federation"]%string ->
    (forall u v, fst (tier_update_op part u) = fst (tier_update_op part v) -> tier_field u = tier_field v) /\
    forall u t q, fst (tier_update_op part u) ∉ (metadata_ops t q).*1.
Proof.
  assert (forall (s : string) t q, s <> "last_update_us"%string -> s <> "sequence"%string -> s ∉ (metadata_ops t q).*1) as Hm.
  { intros s t q H1 H2. cbn. set_solver. }
  split_and!.
  - by intros [] [].
  - intros u t q. destruct u; by apply Hm.
  - intros part Hp. rewrite !elem_of_cons in Hp.
    destruct Hp as [->|[->|[->|[]%not_elem_of_nil]]]; (split; [by intros [] []|intros u t q; destruct u; by apply Hm]).
Qed.

End Paths.

(** ** Instances *)

Module SampleDelta.

Definition camera : Capability := capability_new "c1_Sensor" "Sensor" Sensor f32_one.

Definition before : CellSummary :=
  mkCellSummary "c1" "n1" ["n1"; "n2"]%string 2 None f32_zero 1 2 [camera] f32_one None None.

Definition after : CellSummary :=
  mkCellSummary "c1" "n1" ["n1"]%string 1 None f32_zero 1 1 [camera] f32_one None None.

Lemma delta_membership_witness :
  NoDup (member_ids (fst (apply_cell_delta before (mkCellDelta "c1" 0 0 [AddMemberId "n3"; RemoveMemberId "n2"])))) /\
  ("n3"%string ∈ member_ids (fst (apply_cell_delta before (mkCellDelta "c1" 0 0 [AddMemberId "n3"; RemoveMemberId "n2"])))
   <-> true = true).
Proof.
  apply (delta_membership before (mkCellDelta "c1" 0 0 [AddMemberId "n3"; RemoveMemberId "n2"]) "n3").
  by apply (bool_decide_unpack _).
Defined.

Lemma delta_recreates_summary_witness :
  fst (apply_cell_delta (empty_cell "c1") (cell_from_summary before 5 1)) = before.
Proof. apply (delta_recreates_summary before 5 1). by apply (bool_decide_unpack _). Defined.

Lemma tier_delta_recreates_summary_witness :
  fst (apply_tier_delta (empty_tier "k1") (tier_from_summary (empty_tier "k1") 5 1)) = empty_tier "k1".
Proof. apply (tier_delta_recreates_summary (empty_tier "k1") 5 1). apply NoDup_nil_2. Defined.

Lemma refresh_keeps_departed_members_witness :
  "n2"%string ∈ member_ids (fst (apply_cell_delta before (cell_from_summary after 5 1))) /\
  member_count (fst (apply_cell_delta before (cell_from_summary after 5 1))) = 1.
Proof. apply (refresh_keeps_departed_members before after 5 1 "n2"); by apply (bool_decide_unpack _). Defined.

End SampleDelta.
