(* ===== verification/SummaryStorage.v ===== *)
(** * Storage of summaries

    Models peat-protocol/src/storage/automerge_summary_storage.rs (documents created
    once and updated by deltas, with lifecycle metrics), the metrics of
    hierarchy/storage_trait.rs and the coordinator of
    hierarchy/aggregation_coordinator.rs. The four families of operations of the source
    differ in names only and are written once for a [SummaryKind]. The document store
    belongs to peat-mesh: it is the class [AutomergeStore], with what the code relies on
    as laws. Messages are turned into documents by [Conversion]. A counter that overflows
    and a document that cannot be turned into JSON panic ([None]). *)

From S2P Require Import Prelude Float Error Capability StateAggregation Json Conversion Deltas.
From stdpp Require Import pretty.
From Stdlib Require Import SpecFloat.

Open Scope Z_scope.

Class AutomergeStore (St Doc : Type) := {
  store_get : St -> string -> result string (option Doc);
  store_put : St -> string -> Doc -> result string St;
  store_delete : St -> string -> result string St;
  saved_len : Doc -> Z
}.

(** A store is a map from keys to documents; it may fail to read or write. *)
Class AutomergeStoreLaws (St Doc : Type) `{AutomergeStore St Doc} := {
  view : St -> string -> option Doc;
  get_view st k d : store_get st k = Ok d -> d = view st k;
  put_view st k d st' : store_put st k d = Ok st' ->
    forall k', view st' k' = if decide (k' = k) then Some d else view st k';
  delete_view st k st' : store_delete st k = Ok st' ->
    forall k', view st' k' = if decide (k' = k) then None else view st k'
}.

(** ** The storage *)

(** Which of the four families: "Cell" and "cell", and so on *)
Record SummaryKind := mkKind { k_name : string; k_lower : string }.

Definition cell_kind : SummaryKind := mkKind "Cell" "cell".
Definition cohort_kind : SummaryKind := mkKind "Cohort" "cohort".
Definition federation_kind : SummaryKind := mkKind "Federation" "federation".
Definition coalition_kind : SummaryKind := mkKind "Coalition" "coalition".

Definition kinds : list SummaryKind := [cell_kind; cohort_kind; federation_kind; coalition_kind].

(** [cell_key], [cohort_key], [federation_key] and [coalition_key] *)
Definition summary_key (k : SummaryKind) (id : string) : string := k_lower k +:+ "-summary:" +:+ id.

Definition type_name (k : SummaryKind) : string := k_name k +:+ "Summary".
Definition operation (verb : string) (k : SummaryKind) : string := verb +:+ "_" +:+ k_lower k +:+ "_summary".

Record DocumentMetricsInternal := mkInternal {
  i_created_at_us : Z;
  i_create_count : Z;
  i_update_count : Z;
  i_last_update_us : Z;
  i_total_delta_bytes : Z
}.

Record DocumentMetrics := mkMetrics {
  document_id : string;
  created_at_us : Z;
  create_count : Z;
  update_count : Z;
  last_update_us : Z;
  total_delta_bytes : Z;
  full_doc_size : Z;
  compression_ratio : spec_float;
  sequence : Z
}.

Record AutomergeSummaryStorage (St : Type) := mkStorage {
  store : St;
  metrics : gmap string DocumentMetricsInternal
}.
Arguments mkStorage {St} _ _.
Arguments store {St} _.
Arguments metrics {St} _.

Definition storage_new {St} (s : St) : AutomergeSummaryStorage St := mkStorage s ∅.

Definition record_create (now : Z) (m : gmap string DocumentMetricsInternal) (doc_id : string)
    : gmap string DocumentMetricsInternal :=
  <[doc_id := mkInternal now 1 0 now 0]> m.

Definition record_update (now : Z) (m : gmap string DocumentMetricsInternal) (doc_id : string) (delta_bytes : Z)
    : option (gmap string DocumentMetricsInternal) :=
  match m !! doc_id with
  | Some i =>
      count ← checked (i_update_count i + 1);
      bytes ← checked (i_total_delta_bytes i + delta_bytes);
      Some (<[doc_id := mkInternal (i_created_at_us i) (i_create_count i) count now bytes]> m)
  | None => Some m
  end.

Section Storage.
Context {St Doc : Type} `{AutomergeStore St Doc}.

Definition Storage : Type := AutomergeSummaryStorage St.

Section Kind.
Context {S D : Type} `{!AutomergeDoc Doc, !Serde S}.
Variable k : SummaryKind.
Variable apply_delta : S -> D -> S * Z.

(** [self.store.get(&key).ok().flatten().is_some()] *)
Definition exists_doc (st : St) (key : string) : bool :=
  match store_get st key with Ok (Some _) => true | _ => false end.

Definition create_summary (st : Storage) (id : string) (initial_state : S) (now : Z) : result Error string * Storage :=
  let key := summary_key k id in
  let op := operation "create" k in
  if exists_doc (store st) key
  then (Err (storage_error (k_name k +:+ " summary " +:+ id +:+ " already exists") op (Some key)), st)
  else
    match message_to_automerge initial_state with
    | Err e => (Err (storage_error ("Failed to convert " +:+ type_name k +:+ " to Automerge: " +:+ e) op (Some key)), st)
    | Ok doc =>
        match store_put (store st) key doc with
        | Err e => (Err (storage_error ("Failed to store " +:+ k_lower k +:+ " summary: " +:+ e) op (Some key)), st)
        | Ok st' => (Ok key, mkStorage st' (record_create now (metrics st) key))
        end
    end.

Definition update_summary (st : Storage) (id : string) (delta : D) (now : Z) : option (result Error unit * Storage) :=
  let key := summary_key k id in
  let fail m := Some (Err (storage_error m (operation "update" k) (Some key)), st) in
  match store_get (store st) key with
  | Err e => fail ("Failed to get " +:+ k_lower k +:+ " summary: " +:+ e)
  | Ok None => fail (k_name k +:+ " summary " +:+ id +:+ " not found")
  | Ok (Some doc) =>
      match automerge_to_message doc with
      | None => None
      | Some (Err e) => fail ("Failed to deserialize " +:+ type_name k +:+ ": " +:+ e)
      | Some (Ok summary) =>
          let '(summary', delta_bytes) := apply_delta summary delta in
          match message_to_automerge_into summary' (Some doc) with
          | Err e => fail ("Failed to convert updated " +:+ type_name k +:+ " to Automerge: " +:+ e)
          | Ok updated_doc =>
              match store_put (store st) key updated_doc with
              | Err e => fail ("Failed to store updated " +:+ k_lower k +:+ " summary: " +:+ e)
              | Ok st' =>
                  m ← record_update now (metrics st) key delta_bytes;
                  Some (Ok tt, mkStorage st' m)
              end
          end
      end
  end.

Definition get_summary (st : Storage) (id : string) : option (result Error (option S)) :=
  let key := summary_key k id in
  let op := operation "get" k in
  match store_get (store st) key with
  | Ok (Some doc) =>
      r ← automerge_to_message_if_complete doc (k_lower k +:+ "_id");
      Some (match r with
            | Ok summary => Ok summary
            | Err e => Err (storage_error ("Failed to deserialize " +:+ type_name k +:+ ": " +:+ e) op (Some key))
            end)
  | Ok None => Some (Ok None)
  | Err e => Some (Err (storage_error ("Failed to get " +:+ k_lower k +:+ " summary: " +:+ e) op (Some key)))
  end.

Definition delete_summary (st : Storage) (id : string) : result Error unit * Storage :=
  let key := summary_key k id in
  match store_delete (store st) key with
  | Err e => (Err (storage_error ("Failed to delete " +:+ k_lower k +:+ " summary: " +:+ e) (operation "delete" k) (Some key)), st)
  | Ok st' => (Ok tt, mkStorage st' (delete key (metrics st)))
  end.

(** [upsert_cell_summary] and [upsert_cohort_summary] of the coordinator *)
Definition upsert_summary (st : Storage) (id : string) (summary : S) (now : Z) : option (result Error string * Storage) :=
  r ← get_summary st id;
  Some (match r with
        | Err e => (Err e, st)
        | Ok (Some _existing) => (Ok (id +:+ "-summary"), st)
        | Ok None => create_summary st id summary now
        end).

End Kind.

Definition get_document_metrics (st : Storage) (doc_id : string) : result Error DocumentMetrics :=
  match metrics st !! doc_id with
  | None => Err (storage_error ("No metrics found for document " +:+ doc_id) "get_document_metrics" (Some doc_id))
  | Some i =>
      let full_doc_size := match store_get (store st) doc_id with Ok (Some doc) => saved_len doc | _ => 0 end in
      let avg_delta_size := if 0 <? i_update_count i then i_total_delta_bytes i / i_update_count i else 0 in
      let ratio := if 0 <? avg_delta_size then SFdiv 24 128 (f32_of_Z full_doc_size) (f32_of_Z avg_delta_size) else f32_zero in
      Ok (mkMetrics doc_id (i_created_at_us i) (i_create_count i) (i_update_count i) (i_last_update_us i)
            (i_total_delta_bytes i) full_doc_size ratio (i_update_count i))
  end.

(** The warning on poor compression is logged only. *)
Definition validate_metrics (m : DocumentMetrics) : result Error unit :=
  if create_count m =? 1 then Ok tt
  else Err (storage_error ("Document " +:+ document_id m +:+ " violated create-once invariant: create_count=" +:+
              pretty (create_count m)) "validate_metrics" (Some (document_id m))).

Definition avg_delta_size (m : DocumentMetrics) : Z :=
  if update_count m =? 0 then 0 else total_delta_bytes m / update_count m.

Definition validate_document (st : Storage) (doc_id : string) : result Error unit :=
  match get_document_metrics st doc_id with Ok m => validate_metrics m | Err e => Err e end.

End Storage.

(** The families of the source *)

Section Families.
Context {St Doc : Type} `{AutomergeStore St Doc, AutomergeDoc Doc, Serde CellSummary}.
Context (cohort_serde : Serde CohortSummary) (federation_serde : Serde FederationSummary)
  (coalition_serde : Serde CoalitionSummary).

Definition create_cell_summary := create_summary (S := CellSummary) (Doc := Doc) (St := St) cell_kind.
Definition update_cell_summary := update_summary (Doc := Doc) (St := St) cell_kind apply_cell_delta.
Definition get_cell_summary := get_summary (S := CellSummary) (Doc := Doc) (St := St) cell_kind.
Definition delete_cell_summary := delete_summary (Doc := Doc) (St := St) cell_kind.

Definition create_cohort_summary := create_summary (S := CohortSummary) (Serde0 := cohort_serde) (Doc := Doc) (St := St) cohort_kind.
Definition update_cohort_summary := update_summary (S := CohortSummary) (Serde0 := cohort_serde) (Doc := Doc) (St := St) cohort_kind apply_cohort_delta.
Definition get_cohort_summary := get_summary (S := CohortSummary) (Serde0 := cohort_serde) (Doc := Doc) (St := St) cohort_kind.
Definition delete_cohort_summary := delete_summary (Doc := Doc) (St := St) cohort_kind.

Definition create_federation_summary := create_summary (S := FederationSummary) (Serde0 := federation_serde) (Doc := Doc) (St := St) federation_kind.
Definition update_federation_summary := update_summary (S := FederationSummary) (Serde0 := federation_serde) (Doc := Doc) (St := St) federation_kind apply_federation_delta.
Definition get_federation_summary := get_summary (S := FederationSummary) (Serde0 := federation_serde) (Doc := Doc) (St := St) federation_kind.
Definition delete_federation_summary := delete_summary (Doc := Doc) (St := St) federation_kind.

Definition create_coalition_summary := create_summary (S := CoalitionSummary) (Serde0 := coalition_serde) (Doc := Doc) (St := St) coalition_kind.
Definition update_coalition_summary := update_summary (S := CoalitionSummary) (Serde0 := coalition_serde) (Doc := Doc) (St := St) coalition_kind apply_coalition_delta.
Definition get_coalition_summary := get_summary (S := CoalitionSummary) (Serde0 := coalition_serde) (Doc := Doc) (St := St) coalition_kind.
Definition delete_coalition_summary := delete_summary (Doc := Doc) (St := St) coalition_kind.

(** The calls that change the storage *)
Inductive StorageCall :=
| CreateCell (id : string) (s : CellSummary) (now : Z)
| UpdateCell (id : string) (d : CellDelta) (now : Z)
| DeleteCell (id : string)
| CreateCohort (id : string) (s : CohortSummary) (now : Z)
| UpdateCohort (id : string) (d : CohortDelta) (now : Z)
| DeleteCohort (id : string)
| CreateFederation (id : string) (s : FederationSummary) (now : Z)
| UpdateFederation (id : string) (d : FederationDelta) (now : Z)
| DeleteFederation (id : string)
| CreateCoalition (id : string) (s : CoalitionSummary) (now : Z)
| UpdateCoalition (id : string) (d : CoalitionDelta) (now : Z)
| DeleteCoalition (id : string).

(** Whether a call succeeded, and the storage it leaves *)
Definition outcome {A} (p : result Error A * Storage (St := St)) : bool * Storage (St := St) := (is_ok (fst p), snd p).

Definition storage_call (st : Storage (St := St)) (c : StorageCall) : option (bool * Storage (St := St)) :=
  match c with
  | CreateCell id s now => Some (outcome (create_cell_summary st id s now))
  | UpdateCell id d now => outcome <$> update_cell_summary st id d now
  | DeleteCell id => Some (outcome (delete_cell_summary st id))
  | CreateCohort id s now => Some (outcome (create_cohort_summary st id s now))
  | UpdateCohort id d now => outcome <$> update_cohort_summary st id d now
  | DeleteCohort id => Some (outcome (delete_cohort_summary st id))
  | CreateFederation id s now => Some (outcome (create_federation_summary st id s now))
  | UpdateFederation id d now => outcome <$> update_federation_summary st id d now
  | DeleteFederation id => Some (outcome (delete_federation_summary st id))
  | CreateCoalition id s now => Some (outcome (create_coalition_summary st id s now))
  | UpdateCoalition id d now => outcome <$> update_coalition_summary st id d now
  | DeleteCoalition id => Some (outcome (delete_coalition_summary st id))
  end.

Definition storage_step (st st' : Storage (St := St)) : Prop := exists c b, storage_call st c = Some (b, st').

End Families.

(** ** Keys *)

Lemma summary_key_inj k k' id id' :
  k ∈ kinds -> k' ∈ kinds -> summary_key k id = summary_key k' id' -> k = k' /\ id = id'.
Proof.
  intros Hk Hk'. unfold kinds in *. rewrite !elem_of_cons in *.
  destruct Hk as [->|[->|[->|[->|[]%not_elem_of_nil]]]], Hk' as [->|[->|[->|[->|[]%not_elem_of_nil]]]];
    unfold summary_key; cbn; intros E; try discriminate E; by simplify_eq.
Qed.

(** ** One operation *)

Section Specs.
Context {St Doc S D : Type} `{AutomergeStoreLaws St Doc, !AutomergeDoc Doc, !Serde S}.
Variable k : SummaryKind.
Variable apply_delta : S -> D -> S * Z.

(** Nothing but the document of [key] changes. *)
Definition frame (st st' : Storage (St := St)) (key : string) : Prop :=
  forall key', key' <> key -> view (store st') key' = view (store st) key' /\ metrics st' !! key' = metrics st !! key'.

Lemma create_summary_spec st id s now :
  let key := summary_key k id in
  match create_summary k st id s now with
  | (Ok r, st') =>
      r = key /\ frame st st' key /\
      (exists doc, message_to_automerge s = Ok doc /\ view (store st') key = Some doc) /\
      metrics st' !! key = Some (mkInternal now 1 0 now 0) /\
      (forall d, store_get (store st) key = Ok d -> view (store st) key = None)
  | (Err _, st') => st' = st
  end.
Proof.
  cbv zeta. unfold create_summary, exists_doc.
  destruct (store_get (store st) (summary_key k id)) as [[d0|]|e0] eqn:Eg; [done| |].
  all: destruct (message_to_automerge s) as [doc|] eqn:Em; [|done].
  all: destruct (store_put (store st) (summary_key k id) doc) as [st'|] eqn:Ep; [|done].
  all: pose proof (put_view _ _ _ _ Ep) as Hv; split_and!; [done| | | |].
  all: cbn [store metrics]; unfold frame, record_create; cbn [store metrics].
  all: try (exists doc; by rewrite Hv, decide_True by done).
  all: rewrite ?lookup_insert_eq; eauto.
  all: try (intros key' Hk; rewrite Hv, decide_False, lookup_insert_ne by done; done).
  - intros d _. symmetry. by apply get_view.
  - done.
Qed.

Lemma update_summary_spec st id d now r st' :
  update_summary k apply_delta st id d now = Some (r, st') ->
  let key := summary_key k id in
  match r with
  | Ok _ =>
      exists doc old doc' i', view (store st) key = Some doc /\ automerge_to_message doc = Some (Ok old) /\
        message_to_automerge_into (fst (apply_delta old d)) (Some doc) = Ok doc' /\ view (store st') key = Some doc' /\
        frame st st' key /\ metrics st' !! key = i' /\
        match metrics st !! key with
        | Some i => i' = Some (mkInternal (i_created_at_us i) (i_create_count i) (i_update_count i + 1) now
                                 (i_total_delta_bytes i + snd (apply_delta old d)))
        | None => i' = None
        end
  | Err _ => st' = st
  end.
Proof.
  cbv zeta. unfold update_summary. destruct (store_get (store st) (summary_key k id)) as [[doc|]|] eqn:Eg; [|by intros [= <- <-]..].
  destruct (automerge_to_message doc) as [[old|]|] eqn:Em; [|by intros [= <- <-]|done].
  destruct (apply_delta old d) as [s' bytes] eqn:Ea.
  destruct (message_to_automerge_into s' (Some doc)) as [doc'|] eqn:Ei; [|by intros [= <- <-]].
  destruct (store_put (store st) (summary_key k id) doc') as [st1|] eqn:Ep; [|by intros [= <- <-]].
  pose proof (put_view _ _ _ _ Ep) as Hv. apply get_view in Eg.
  destruct (record_update now (metrics st) (summary_key k id) bytes) as [m|] eqn:Er; [|done]. intros [= <- <-].
  exists doc, old, doc', (m !! summary_key k id). unfold frame. cbn [store metrics]. rewrite Hv, decide_True by done.
  rewrite Ea. cbn [fst snd].
  assert ((forall key', key' <> summary_key k id -> m !! key' = metrics st !! key') /\
    match metrics st !! summary_key k id with
    | Some i => m !! summary_key k id = Some (mkInternal (i_created_at_us i) (i_create_count i) (i_update_count i + 1) now (i_total_delta_bytes i + bytes))
    | None => m !! summary_key k id = None
    end) as [Hm1 Hm2].
  { unfold record_update in Er. destruct (metrics st !! summary_key k id) as [i|] eqn:E; [|by injection Er as <-].
    destruct (checked (i_update_count i + 1)) as [c|] eqn:E1; [|done]. cbn [mbind option_bind] in Er.
    destruct (checked (i_total_delta_bytes i + bytes)) as [b|] eqn:E2; [|done]. injection Er as <-.
    apply checked_inv in E1 as ->, E2 as ->. split; [|by rewrite lookup_insert_eq].
    intros key' Hk. by rewrite lookup_insert_ne. }
  split_and!; try done. intros key' Hk. rewrite Hv, decide_False by done. by rewrite Hm1.
Qed.

Lemma delete_summary_spec st id :
  let key := summary_key k id in
  match delete_summary k st id with
  | (Ok _, st') => frame st st' key /\ view (store st') key = None /\ metrics st' !! key = None
  | (Err _, st') => st' = st
  end.
Proof.
  cbv zeta. unfold delete_summary. destruct (store_delete (store st) (summary_key k id)) as [st'|] eqn:Ed; [|done].
  pose proof (delete_view _ _ _ Ed) as Hv. unfold frame. cbn [store metrics].
  rewrite Hv, decide_True by done. split_and!; [|done|apply lookup_delete_eq].
  intros key' Hk. by rewrite Hv, decide_False, lookup_delete_ne by done.
Qed.

End Specs.

(** ** Runs of the storage *)

(** The fields of a cell summary that are null: the optional ones that are not set *)
Definition unset (s : CellSummary) (k : string) : Prop :=
  if decide (k = "position_centroid"%string) then cs_centroid s = None
  else if decide (k = "bounding_box"%string) then cs_box s = None
  else if decide (k = "aggregated_at"%string) then cs_aggregated_at s = None
  else False.

(** The serialisation of a cell summary: its identifier is a text field, and its null
    fields are the optional ones that are not set. *)
Class CellSerdeLaws `{Serde CellSummary} := {
  cell_serde :: SerdeLaws CellSummary;
  cell_id_field s fs : faithful s -> to_value s = Ok (JObject fs) ->
    field "cell_id" fs = Some (JString (cs_cell_id s));
  cell_nulls s fs k : faithful s -> to_value s = Ok (JObject fs) -> field k fs = Some JNull <-> unset s k
}.

Section Runs.
Context {St Doc : Type} `{!AutomergeStore St Doc, !AutomergeStoreLaws St Doc, !AutomergeDoc Doc, !AutomergeDocLaws Doc}.
Context `{!Serde CellSummary}.
Context {cohort_serde : Serde CohortSummary} {federation_serde : Serde FederationSummary}
  {coalition_serde : Serde CoalitionSummary}.

Abbreviation call := (storage_call cohort_serde federation_serde coalition_serde).
Abbreviation step := (storage_step cohort_serde federation_serde coalition_serde).

(** The effect of a step on the document of [key] and its metrics *)
Inductive effect (st st' : Storage (St := St)) (key : string) : Prop :=
| effect_created now :
    is_Some (view (store st') key) -> metrics st' !! key = Some (mkInternal now 1 0 now 0) -> effect st st' key
| effect_updated now bytes :
    is_Some (view (store st') key) ->
    metrics st' !! key = (fun i => mkInternal (i_created_at_us i) (i_create_count i) (i_update_count i + 1) now
                                     (i_total_delta_bytes i + bytes)) <$> metrics st !! key ->
    effect st st' key
| effect_deleted : view (store st') key = None -> metrics st' !! key = None -> effect st st' key.

Lemma create_effect {S} (I : Serde S) k st id (s : S) now :
  snd (create_summary k st id s now) = st \/
  frame st (snd (create_summary k st id s now)) (summary_key k id) /\
  effect st (snd (create_summary k st id s now)) (summary_key k id).
Proof.
  pose proof (create_summary_spec k st id s now) as Hs. destruct (create_summary k st id s now) as [[r|] st']; [|by left].
  destruct Hs as (_ & Hf & (doc & _ & Hv) & Hm & _). right. split; [done|]. eapply effect_created; [by exists doc|done].
Qed.

Lemma update_effect {S D} (I : Serde S) k (f : S -> D -> S * Z) st id d now r st' :
  update_summary k f st id d now = Some (r, st') ->
  st' = st \/ frame st st' (summary_key k id) /\ effect st st' (summary_key k id).
Proof.
  intros E. pose proof (update_summary_spec k f st id d now r st' E) as Hs. destruct r; [|by left].
  destruct Hs as (doc & old & doc' & i' & _ & _ & _ & Hv & Hf & <- & Hm). right. split; [done|].
  eapply (effect_updated _ _ _ now); [by exists doc'|]. by destruct (metrics st !! summary_key k id); rewrite Hm.
Qed.

Lemma delete_effect k st id :
  snd (delete_summary k st id) = st \/
  frame st (snd (delete_summary k st id)) (summary_key k id) /\
  effect st (snd (delete_summary k st id)) (summary_key k id).
Proof.
  pose proof (delete_summary_spec k st id) as Hs. destruct (delete_summary k st id) as [[r|] st']; [|by left].
  destruct Hs as (Hf & Hv & Hm). right. split; [done|]. by apply effect_deleted.
Qed.

(** The document a call is about *)
Definition call_document (c : StorageCall) : SummaryKind * string :=
  match c with
  | CreateCell id _ _ | UpdateCell id _ _ | DeleteCell id => (cell_kind, id)
  | CreateCohort id _ _ | UpdateCohort id _ _ | DeleteCohort id => (cohort_kind, id)
  | CreateFederation id _ _ | UpdateFederation id _ _ | DeleteFederation id => (federation_kind, id)
  | CreateCoalition id _ _ | UpdateCoalition id _ _ | DeleteCoalition id => (coalition_kind, id)
  end.

Definition call_key (c : StorageCall) : string := summary_key (call_document c).1 (call_document c).2.

Ltac family_effect :=
  unfold create_cell_summary, create_cohort_summary, create_federation_summary, create_coalition_summary,
    update_cell_summary, update_cohort_summary, update_federation_summary, update_coalition_summary,
    delete_cell_summary, delete_cohort_summary, delete_federation_summary, delete_coalition_summary in *;
  first [eapply create_effect
        |match goal with E : _ = Some (_, _) |- _ => exact (update_effect _ _ _ _ _ _ _ _ _ E) end
        |eapply delete_effect].

(** A call changes the document it is about, or nothing. *)
Lemma call_effect st c b st' :
  call st c = Some (b, st') -> st' = st \/ frame st st' (call_key c) /\ effect st st' (call_key c).
Proof.
  destruct c; cbn [storage_call]; unfold call_key; cbn [call_document fst snd]; intros E;
    try (injection E as <- <-; family_effect).
  all: match type of E with outcome <$> ?u = _ => destruct u as [[r st1]|] eqn:Eu; [|done] end.
  all: injection E as <- <-; cbn [snd]; family_effect.
Qed.

Definition metrics_ok (st : Storage (St := St)) : Prop :=
  forall key i, metrics st !! key = Some i -> i_create_count i = 1 /\ is_Some (view (store st) key).

Lemma step_metrics_ok st st' : step st st' -> metrics_ok st -> metrics_ok st'.
Proof.
  intros (c & b & Hc) Hok. destruct (call_effect st c b st' Hc) as [->|[Hf He]]; [done|].
  generalize dependent (call_key c). intros key Hf He.
  intros key' i Hi. destruct (decide (key' = key)) as [->|Hk].
  - destruct He as [now Hv Hm|now bytes Hv Hm|Hv Hm]; rewrite Hm in Hi; [by injection Hi as <-| |done].
    destruct (metrics st !! key) as [i0|] eqn:E; [|done]. injection Hi as <-. split; [|done]. apply (Hok key i0 E).
  - destruct (Hf key' Hk) as [Ev Em]. rewrite Ev. apply Hok. by rewrite <- Em.
Qed.

(** Whatever calls are made, and whichever of them fail, every document with metrics
    exists and has been created once by its metrics: the validation of the lifecycle
    never fails. *)
Theorem documents_always_validate s0 st doc_id m :
  rtc step (storage_new s0) st -> get_document_metrics st doc_id = Ok m ->
  validate_metrics m = Ok tt /\ is_Some (view (store st) doc_id) /\ sequence m = update_count m.
Proof.
  intros Hr Hm. assert (metrics_ok st) as Hok.
  { revert st Hr Hm. intros st Hr _. revert st Hr. refine (rtc_ind_r (R := step) _ _ _ _).
    - intros key i Hi. unfold storage_new in Hi. cbn [metrics] in Hi. by rewrite lookup_empty in Hi.
    - intros st1 st2 _ Hstep IH. by eapply step_metrics_ok. }
  unfold get_document_metrics in Hm. destruct (metrics st !! doc_id) as [i|] eqn:E; [|done].
  destruct (Hok doc_id i E) as [E1 Hv]. injection Hm as <-. unfold validate_metrics. cbn. by rewrite E1.
Qed.

(** *** The summaries of the cells *)

Definition readable (st : Storage (St := St)) : Prop := forall key, exists d, store_get (store st) key = Ok d.

Context `{!CellSerdeLaws}.

(** The abstract storage is a map from cell identifiers to summaries. A call that is
    reported as successful creates a summary that is not there, applies its delta to the
    summary that is there, or removes it; the calls of the other families do nothing to it.
    [None] is a success that is not possible. *)
Definition cells_after (cells : gmap string CellSummary) (c : StorageCall) : option (gmap string CellSummary) :=
  match c with
  | CreateCell id s _ => match cells !! id with None => Some (<[id := s]> cells) | Some _ => None end
  | UpdateCell id d _ => s ← cells !! id; Some (<[id := fst (apply_cell_delta s d)]> cells)
  | DeleteCell id => Some (delete id cells)
  | _ => Some cells
  end.

(** The successes of a run, one after the other; a failed call does nothing. *)
Fixpoint replay (cells : gmap string CellSummary) (l : list (StorageCall * bool)) : option (gmap string CellSummary) :=
  match l with
  | [] => Some cells
  | (c, true) :: l => cells' ← cells_after cells c; replay cells' l
  | (_, false) :: l => replay cells l
  end.

(** A run of calls, each with whether it reported success, on a store that can be read *)
Inductive runs : Storage (St := St) -> list (StorageCall * bool) -> Storage (St := St) -> Prop :=
| runs_nil st : runs st [] st
| runs_cons st c b st1 l st2 :
    readable st -> call st c = Some (b, st1) -> runs st1 l st2 -> runs st ((c, b) :: l) st2.

(** The summaries given to the calls, and those their deltas make, fit into a document. *)
Definition call_faithful (c : StorageCall) : Prop :=
  match c with
  | CreateCell _ s _ => faithful s
  | UpdateCell _ d _ => forall s, faithful s -> faithful (fst (apply_cell_delta s d))
  | _ => True
  end.

(** A document holds a summary: it is read back, and its identifier is seen. *)
Definition holds (s : CellSummary) (d : Doc) : Prop :=
  automerge_to_message d = Some (Ok s) /\ faithful s /\
  lookup_obj "cell_id" (visible d) = Some (OScalar (ScStr (cs_cell_id s))).

Definition represents (cells : gmap string CellSummary) (st : Storage (St := St)) : Prop :=
  forall cid, option_Forall2 holds (cells !! cid) (view (store st) (summary_key cell_kind cid)).

(** What [get_cell_summary] shows of a summary: one without an identifier counts as a
    document that has not been synced yet. *)
Definition shown (o : option CellSummary) : option CellSummary :=
  s ← o; if decide (cs_cell_id s = EmptyString) then None else Some s.

(** A delta never clears a field. *)
Lemma delta_keeps s d : faithful s -> faithful (fst (apply_cell_delta s d)) -> keeps s (fst (apply_cell_delta s d)).
Proof.
  intros Hs Hs' fs0 fs k E0 E. rewrite (cell_nulls _ fs k Hs' E), (cell_nulls _ fs0 k Hs E0).
  clear. unfold apply_cell_delta. cbn [fst]. generalize (cd_updates d). intros us. revert s.
  induction us as [|u us IH]; intros s; [done|]. cbn [fold_left]. intros Hu. apply IH in Hu.
  unfold unset in *. destruct s, u; cbn in *; repeat case_decide; try done.
Qed.

Lemma holds_written s existing d :
  faithful s -> automerge_to_message d = Some (Ok s) -> message_to_automerge_into s existing = Ok d -> holds s d.
Proof.
  intros Hs Hd Hi. split_and!; [done..|]. destruct (value_plain s Hs) as (fs & Ev & Hp).
  by apply (into_visible s fs "cell_id" (JString (cs_cell_id s)) existing d Ev Hp (cell_id_field s fs Hs Ev)).
Qed.

Lemma summary_key_cell cid id : summary_key cell_kind cid = summary_key cell_kind id <-> cid = id.
Proof. split; [|by intros ->]. intros E. apply summary_key_inj in E as [_ ->]; [done|by left..]. Qed.

(** Changing the document of one cell, on both sides *)
Lemma represents_changed cells cells' st st' id :
  represents cells st -> frame st st' (summary_key cell_kind id) ->
  option_Forall2 holds (cells' !! id) (view (store st') (summary_key cell_kind id)) ->
  (forall cid, cid <> id -> cells' !! cid = cells !! cid) -> represents cells' st'.
Proof.
  intros Hr Hf Hid Hne cid. destruct (decide (cid = id)) as [->|Hc]; [done|].
  rewrite Hne by done. rewrite (proj1 (Hf (summary_key cell_kind cid) (fun E => Hc (proj1 (summary_key_cell _ _) E)))).
  apply Hr.
Qed.

Lemma create_refines cells st id s now :
  faithful s -> readable st -> represents cells st ->
  match create_cell_summary st id s now with
  | (Ok _, st') => cells !! id = None /\ represents (<[id := s]> cells) st'
  | (Err _, st') => st' = st
  end.
Proof.
  intros Hs Hr Hc. pose proof (create_summary_spec cell_kind st id s now) as Hspec. unfold create_cell_summary.
  destruct (create_summary cell_kind st id s now) as [[r|] st']; [|exact Hspec].
  destruct Hspec as (_ & Hf & (doc & Em & Hv) & _ & Hn). destruct (Hr (summary_key cell_kind id)) as [d Eg].
  split. { specialize (Hc id). rewrite (Hn d Eg) in Hc. by inversion Hc. }
  apply (represents_changed cells _ st st' id); [done..| |intros; by apply lookup_insert_ne].
  rewrite lookup_insert_eq, Hv. constructor. destruct (fresh_read (Doc := Doc) s Hs) as (doc' & Em' & Hd).
  rewrite Em in Em'. injection Em' as <-. by apply (holds_written s None).
Qed.

Lemma update_refines cells st id d now r st' :
  (forall s, faithful s -> faithful (fst (apply_cell_delta s d))) -> represents cells st ->
  update_cell_summary st id d now = Some (r, st') ->
  match r with
  | Ok _ => exists s, cells !! id = Some s /\ represents (<[id := fst (apply_cell_delta s d)]> cells) st'
  | Err _ => st' = st
  end.
Proof.
  intros Hd Hc E. pose proof (update_summary_spec cell_kind apply_cell_delta st id d now r st' E) as Hs.
  destruct r; [|exact Hs]. destruct Hs as (doc & old & doc' & i' & Ho & Em & Ei & Hn & Hf & _).
  pose proof (Hc id) as Hid. rewrite Ho in Hid. inversion Hid as [s ? [Hm [Hfs _]]|]; subst.
  rewrite Em in Hm. injection Hm as <-. exists old. split; [done|].
  apply (represents_changed cells _ st st' id); [done..| |intros; by apply lookup_insert_ne].
  rewrite lookup_insert_eq, Hn. constructor. specialize (Hd old Hfs).
  destruct (rewritten_read old (fst (apply_cell_delta old d)) doc Em Hfs Hd (delta_keeps _ _ Hfs Hd)) as (doc1 & Ei1 & Hr).
  rewrite Ei in Ei1. injection Ei1 as <-. by apply (holds_written _ (Some doc)).
Qed.

Lemma delete_refines cells st id :
  represents cells st ->
  match delete_cell_summary st id with
  | (Ok _, st') => represents (delete id cells) st'
  | (Err _, st') => st' = st
  end.
Proof.
  intros Hc. pose proof (delete_summary_spec cell_kind st id) as Hs. unfold delete_cell_summary.
  destruct (delete_summary cell_kind st id) as [[r|] st']; [|exact Hs]. destruct Hs as (Hf & Hv & _).
  apply (represents_changed cells _ st st' id); [done..| |intros; by apply lookup_delete_ne].
  rewrite lookup_delete_eq, Hv. constructor.
Qed.

Lemma other_family_refines cells st c b st' :
  (call_document c).1 <> cell_kind -> represents cells st -> call st c = Some (b, st') -> represents cells st'.
Proof.
  intros Hk Hc E. destruct (call_effect st c b st' E) as [->|[Hf _]]; [done|]. intros cid.
  assert (summary_key cell_kind cid <> call_key c) as Hne; [|rewrite (proj1 (Hf _ Hne)); apply Hc].
  intros Ek. apply summary_key_inj in Ek as [Ek _]; [by rewrite <- Ek in Hk|by left|].
  destruct c; cbn; set_solver.
Qed.

Lemma storage_call_refines cells st c b st' :
  call_faithful c -> readable st -> represents cells st -> call st c = Some (b, st') ->
  exists cells', replay cells [(c, b)] = Some cells' /\ represents cells' st'.
Proof.
  intros Hf Hr Hc E. assert ((call_document c).1 <> cell_kind -> exists cells', replay cells [(c, b)] = Some cells' /\ represents cells' st') as Ho.
  { intros Hk. pose proof (other_family_refines cells st c b st' Hk Hc E). exists cells. split; [|done].
    by destruct b, c. }
  destruct c as [id s now|id d now|id| | | | | | | | |]; try (apply Ho; discriminate).
  all: cbn [storage_call call_faithful] in *.
  - pose proof (create_refines cells st id s now Hf Hr Hc) as Hcr. destruct (create_cell_summary st id s now) as [[?|?] st1];
      injection E as <- <-; cbn; [|by subst; eauto]. destruct Hcr as [-> Hcr]. eauto.
  - destruct (update_cell_summary st id d now) as [[r st1]|] eqn:Eu; [|done]. injection E as <- <-.
    pose proof (update_refines cells st id d now r st1 Hf Hc Eu) as Hu. destruct r; cbn; [|by subst; eauto].
    destruct Hu as (s & -> & Hu). cbn. eauto.
  - pose proof (delete_refines cells st id Hc) as Hd. destruct (delete_cell_summary st id) as [[?|?] st1];
      injection E as <- <-; cbn; [eauto|by subst; eauto].
Qed.

Lemma get_shown cells st cid :
  represents cells st -> readable st -> get_cell_summary st cid = Some (Ok (shown (cells !! cid))).
Proof.
  intros Hc Hr. unfold get_cell_summary, get_summary. destruct (Hr (summary_key cell_kind cid)) as [o Eg].
  pose proof (get_view _ _ _ Eg) as ->. rewrite Eg. specialize (Hc cid).
  destruct Hc as [s d (Hm & _ & Hl)|]; [|done]. unfold automerge_to_message_if_complete, document_has_field, shown.
  change (k_lower cell_kind +:+ "_id") with "cell_id"%string. rewrite Hl. cbn [mbind option_bind].
  case_decide as Hd; [by rewrite bool_decide_eq_true_2 by done|]. rewrite bool_decide_eq_false_2 by done. cbn [negb].
  by rewrite Hm.
Qed.

(** C29: the storage refines a map from cell identifiers to summaries. Take any run of the
    twelve calls that change it, on a store that can be read (its writes may fail) and with
    summaries a document can hold. Replaying the calls that reported success on the map,
    where a creation is possible for an absent summary only, an update applies its delta
    to the summary that is there, a deletion removes it, and the calls of the other three
    families do nothing, never gets stuck, and every read afterwards shows what the map
    has (a summary whose own identifier is empty is shown as absent). A call that reports an
    error has changed nothing. *)
Theorem storage_refines_map cells st l st' :
  represents cells st -> Forall call_faithful (l.*1) -> runs st l st' ->
  exists cells', replay cells l = Some cells' /\ represents cells' st' /\
    (readable st' -> forall cid, get_cell_summary st' cid = Some (Ok (shown (cells' !! cid)))).
Proof.
  intros Hc Hf Hr. revert cells Hc. induction Hr as [st|st c b st1 l st2 Hrd Hcall _ IH]; intros cells Hc.
  { exists cells. split_and!; [done..|]. intros ? cid. by apply get_shown. }
  rewrite fmap_cons, Forall_cons in Hf. destruct Hf as [Hfc Hfl].
  destruct (storage_call_refines cells st c b st1 Hfc Hrd Hc Hcall) as (cells1 & E1 & H1).
  destruct (IH Hfl cells1 H1) as (cells2 & E2 & H2). exists cells2. split; [|done].
  cbn [replay] in *. destruct b; [|by injection E1 as ->]. destruct (cells_after cells c); [|done].
  by injection E1 as ->.
Qed.

End Runs.

(** ** Limits *)

Section Limits.
Context {St Doc S : Type} `{AutomergeStoreLaws St Doc, !AutomergeDoc Doc, !Serde S}.

(** Creation is documented to fail when the document exists; a store that cannot be read
    counts as empty, and the existing document is overwritten. *)
Theorem unreadable_document_overwritten k st id (s : S) now e doc st' :
  store_get (store st) (summary_key k id) = Err e -> message_to_automerge s = Ok doc ->
  store_put (store st) (summary_key k id) doc = Ok st' ->
  fst (create_summary k st id s now) = Ok (summary_key k id) /\
  view (store (snd (create_summary k st id s now))) (summary_key k id) = Some doc.
Proof.
  intros Eg Em Ep. pose proof (create_summary_spec k st id s now) as Hs.
  assert (fst (create_summary k st id s now) = Ok (summary_key k id)) as E.
  { unfold create_summary, exists_doc. by rewrite Eg, Em, Ep. }
  destruct (create_summary k st id s now) as [r st1]. cbn in E. subst r.
  destruct Hs as (_ & _ & (doc' & Em' & Hv) & _). rewrite Em in Em'. injection Em' as <-. by split.
Qed.

Lemma string_length_app (s t : string) : String.length (s +:+ t) = (String.length s + String.length t)%nat.
Proof. induction s as [|c s IH]; [done|]. cbn. by rewrite <- IH. Qed.

(** An upsert of an existing summary changes nothing and returns an identifier that is
    not the one the document is stored under. *)
Theorem upsert_drops_changes k st id s now old :
  get_summary k st id = Some (Ok (Some old)) ->
  upsert_summary (S := S) k st id s now = Some (Ok (id +:+ "-summary"), st) /\
  (k ∈ kinds -> id +:+ "-summary" <> summary_key k id).
Proof.
  intros Hg. unfold upsert_summary. rewrite Hg. split; [done|]. intros Hk E.
  apply (f_equal String.length) in E. unfold summary_key, kinds in *. rewrite !string_length_app in E. cbn in E.
  rewrite !elem_of_cons in Hk. destruct Hk as [->|[->|[->|[->|[]%not_elem_of_nil]]]]; cbn in E; lia.
Qed.

(** The metrics are kept in memory only: after a restart existing documents have none
    and cannot be validated. *)
Theorem restart_loses_metrics s0 doc_id :
  exists e, validate_document (storage_new (s0 : St)) doc_id = Err e.
Proof. eexists. reflexivity. Qed.

End Limits.

(** ** Instances *)

Module SampleStore.

Import SampleDocs.

Record ToyStore := mkToy { online : bool; docs : gmap string Fields }.

#[export] Instance toy_store : AutomergeStore ToyStore Fields := {|
  store_get st k := if online st then Ok (docs st !! k) else Err "offline"%string;
  store_put st k d := Ok (mkToy (online st) (<[k := d]> (docs st)));
  store_delete st k := Ok (mkToy (online st) (delete k (docs st)));
  saved_len _ := 2000
|}.

#[export] Instance toy_store_laws : AutomergeStoreLaws ToyStore Fields.
Proof.
  refine {| view st k := docs st !! k |}.
  - intros [[] m] k d E; [by injection E|done].
  - intros st k d st' [= <-] k'. cbn. case_decide; subst; [apply lookup_insert_eq|by apply lookup_insert_ne].
  - intros st k st' [= <-] k'. cbn. case_decide; subst; [apply lookup_delete_eq|by apply lookup_delete_ne].
Defined.

(** A serialisation of summaries that differ in the number of members *)
Definition alpha (n : Z) : CellSummary :=
  mkCellSummary "c1" "n1" ["n1"; "n2"]%string n None f32_zero 1 2 [SampleDelta.camera] f32_one None None.

Definition alpha_fields (n : Z) : list (string * Json) :=
  [("cell_id", JString "c1"); ("member_count", JInt n); ("position_centroid", JNull); ("bounding_box", JNull);
   ("aggregated_at", JNull)]%string.

Definition nothing_at (j : Json) (k : string) : bool :=
  match json_get k j with None | Some JNull => true | _ => false end.

#[export] Instance alpha_serde : Serde CellSummary := {|
  to_value s := Ok (JObject (alpha_fields (member_count s)));
  from_value j :=
    match json_get "cell_id" j, json_get "member_count" j with
    | Some (JString s), Some (JInt n) =>
        if bool_decide (s = "c1"%string) && forallb (nothing_at j) ["position_centroid"; "bounding_box"; "aggregated_at"]%string
        then Ok (alpha n) else Err "unknown"%string
    | _, _ => Err "missing field"%string
    end
|}.

#[export] Instance alpha_laws : SerdeLaws CellSummary.
Proof.
  refine {| faithful s := s = alpha (member_count s) /\ - 2 ^ 63 <= member_count s < 2 ^ 63 |}.
  - intros m [_ Hn]. exists (alpha_fields (member_count m)). split; [done|]. cbn [plain alpha_fields].
    rewrite bool_decide_eq_true_2 by (apply (bool_decide_unpack _); vm_compute; exact I).
    unfold alpha_fields. cbn [forallb plain snd andb]. apply andb_true_iff. split; [|done].
    apply andb_true_iff. by rewrite Z.leb_le, Z.ltb_lt.
  - intros m fs gs [= <-] [Hm _] Hr. cbn [from_value alpha_serde json_get].
    rewrite (Hr "cell_id"%string (JString "c1") eq_refl), (Hr "member_count"%string (JInt (member_count m)) eq_refl).
    cbn [strip]. assert (forall k, field k (alpha_fields (member_count m)) = Some JNull -> nothing_at (JObject gs) k = true) as Hn.
    { intros k Hk. unfold nothing_at. cbn [json_get]. by destruct (Hr k JNull Hk) as [-> | ->]. }
    cbn [forallb]. by rewrite !Hn, <- Hm.
  - intros m fs gs k Hf _ [= <-] Hk. cbn [from_value alpha_serde] in Hf.
    repeat (case_match; try done). match goal with E : _ && _ = true |- _ => apply andb_true_iff in E as [_ E];
      assert (nothing_at (JObject gs) k = true) as Hn by (apply (proj1 (forallb_forall _ _) E);
        cbn in Hk; repeat case_decide; subst; cbn; tauto || done) end.
    unfold nothing_at in Hn. cbn [json_get] in Hn. unfold reads_as. cbn [is_null]. repeat case_match; auto; done.
Defined.

#[export] Instance alpha_cell_laws : CellSerdeLaws.
Proof.
  refine {| cell_serde := alpha_laws |}.
  - intros s fs [-> _] [= <-]. reflexivity.
  - intros s fs k [-> _] [= <-]. unfold unset. cbn. repeat case_decide; subst; try done.
Defined.

Definition tier_serde : Serde TierSummary := {|
  to_value s := Ok (JObject [("cohort_id"%string, JString (tier_id s))]);
  from_value j :=
    match json_get "cohort_id" j with Some (JString i) => Ok (empty_tier i) | _ => Err "missing field"%string end
|}.

Definition start : Storage (St := ToyStore) := storage_new (mkToy true ∅).

Definition created : Storage (St := ToyStore) := snd (create_cell_summary start "c1" (alpha 2) 100).

Definition grow : CellDelta := mkCellDelta "c1" 0 0 [SetMemberCount 5].

(** A summary is created and updated, a cohort of the same identifier is created in
    between, and a second creation is refused. *)
Definition session : list (StorageCall * bool) :=
  [(CreateCell "c1" (alpha 2) 100, true); (CreateCohort "c1" (empty_tier "c1") 101, true);
   (UpdateCell "c1" grow 102, true); (CreateCell "c1" (alpha 9) 103, false)].

Abbreviation toy_call := (storage_call tier_serde tier_serde tier_serde).

Definition after_session : Storage (St := ToyStore) :=
  fold_left (fun st c => match toy_call st c with Some (_, st') => st' | None => st end) session.*1 start.

Lemma online_readable st : online (store st) = true -> readable st.
Proof. intros H key. cbn. rewrite H. by eexists. Qed.

Lemma session_runs : runs (cohort_serde := tier_serde) (federation_serde := tier_serde) (coalition_serde := tier_serde)
  start session after_session.
Proof.
  repeat (eapply runs_cons; [by apply online_readable|vm_compute; reflexivity|]). 
  assert (forall st st', st' = st -> runs (cohort_serde := tier_serde) (federation_serde := tier_serde)
    (coalition_serde := tier_serde) st [] st') as Hn by (intros ? ? ->; constructor).
  apply Hn. vm_compute. reflexivity.
Qed.

Lemma storage_refines_map_witness :
  exists cells', replay ∅ session = Some cells' /\
    get_cell_summary after_session "c1" = Some (Ok (shown (cells' !! "c1"))) /\
    get_cell_summary after_session "c1" = Some (Ok (Some (alpha 5))).
Proof.
  destruct (storage_refines_map (cohort_serde := tier_serde) (federation_serde := tier_serde)
    (coalition_serde := tier_serde) ∅ start session after_session) as (cells' & E & _ & Hg).
  - intros cid. rewrite lookup_empty. cbn. rewrite lookup_empty. constructor.
  - repeat apply Forall_cons_2; [split; [reflexivity|cbn; lia]|exact I| |split; [reflexivity|cbn; lia]|apply Forall_nil_2].
    intros s [-> _]. split; [reflexivity|cbn; lia].
  - exact session_runs.
  - exists cells'. split_and!; [exact E| |vm_compute; reflexivity]. apply Hg. by apply online_readable.
Defined.

Lemma documents_always_validate_witness :
  exists m, get_document_metrics created "cell-summary:c1" = Ok m /\ validate_metrics m = Ok tt.
Proof.
  assert (exists m, get_document_metrics created "cell-summary:c1" = Ok m) as [m E].
  { assert (is_ok (get_document_metrics created "cell-summary:c1") = true) as Hok by (vm_compute; reflexivity).
    destruct (get_document_metrics created "cell-summary:c1") as [m|]; [by exists m|done]. }
  exists m. split; [exact E|].
  eapply (documents_always_validate (cohort_serde := tier_serde) (federation_serde := tier_serde)
    (coalition_serde := tier_serde) (mkToy true ∅) created); [|exact E].
  apply rtc_once. by exists (CreateCell "c1" (alpha 2) 100), true.
Defined.

Definition offline : Storage (St := ToyStore) := mkStorage (mkToy false (docs (store created))) ∅.

Lemma unreadable_document_overwritten_witness :
  fst (create_summary cell_kind offline "c1" SampleDelta.after 200) = Ok "cell-summary:c1"%string.
Proof.
  apply (unreadable_document_overwritten cell_kind offline "c1" SampleDelta.after 200
    "offline"%string (kept (alpha_fields 1)) (mkToy false (<["cell-summary:c1"%string := kept (alpha_fields 1)]> (docs (store created)))));
    reflexivity.
Defined.

Lemma upsert_drops_changes_witness :
  upsert_summary cell_kind created "c1" SampleDelta.after 300 = Some (Ok "c1-summary"%string, created).
Proof.
  assert (exists old, get_cell_summary created "c1" = Some (Ok (Some old))) as [old E] by (eexists; vm_compute; reflexivity).
  destruct (upsert_drops_changes cell_kind created "c1" SampleDelta.after 300 old E) as [-> _]. reflexivity.
Defined.

End SampleStore.
