(* ===== verification/CommandStore.v ===== *)
(** * Storage of commands

    Models peat-protocol/src/storage/automerge_command_storage.rs: the implementation of
    the storage trait of commands, with commands, acknowledgments and statuses as
    documents under three prefixes, and the observers that poll for new ones. The store
    is the class of [SummaryStorage] with its scan by prefix; the readings of the clock
    are [clock], one after the other. Reading a document that is not JSON panics
    ([None]). *)

From S2P Require Import Prelude Error Capability Command Coordinator Json Conversion SummaryStorage.
From Stdlib Require Import Ascii.

Open Scope Z_scope.

Class PrefixScan (St Doc : Type) := scan_prefix : St -> string -> result string (list (string * Doc)).

(** A scan returns the documents whose keys start with the prefix, each once. *)
Class PrefixScanLaws (St Doc : Type) `{AutomergeStoreLaws St Doc, PrefixScan St Doc} : Prop := {
  scan_elem st p (l : list (string * Doc)) k d :
    scan_prefix st p = Ok l -> (k, d) ∈ l <-> view st k = Some d /\ String.prefix p k = true;
  scan_once st p (l : list (string * Doc)) : scan_prefix st p = Ok l -> NoDup l.*1
}.

Definition COMMANDS_PREFIX : string := "cmd:".
Definition ACKS_PREFIX : string := "ack:".
Definition STATUS_PREFIX : string := "status:".

Definition command_key (command_id : string) : string := COMMANDS_PREFIX +:+ command_id.
Definition ack_key (command_id node_id : string) : string := ACKS_PREFIX +:+ command_id +:+ "-" +:+ node_id.
Definition ack_prefix (command_id : string) : string := ACKS_PREFIX +:+ command_id +:+ "-".
Definition status_key (command_id : string) : string := STATUS_PREFIX +:+ command_id.

Record CommandWrapper := mkCommandWrapper { wrapped_command : HierarchicalCommand; published_at_us : Z }.
Record AckWrapper := mkAckWrapper { acknowledgment : CommandAcknowledgment; received_at_us : Z }.
Record StatusWrapper := mkStatusWrapper { wrapped_status : CommandStatus; updated_at_us : Z }.

Record AutomergeCommandStorage (St : Type) := mkCommandStore { documents : St; readings : nat }.
Arguments mkCommandStore {St} _ _.
Arguments documents {St} _.
Arguments readings {St} _.

Section Storage.
Context {St Doc : Type} `{!AutomergeStore St Doc, !AutomergeDoc Doc, !PrefixScan St Doc}.
Context `{!Serde CommandWrapper, !Serde AckWrapper, !Serde StatusWrapper}.
(** nanoseconds since the epoch *)
Context (clock : nat -> Z).

Abbreviation Store := (AutomergeCommandStorage St).

Definition command_storage_new (st : St) : Store := mkCommandStore st 0.

(** [now_us]: [as_micros() as u64] *)
Definition now_us (st : Store) : Z := as_u64 (clock (readings st) / 1000).

Definition tick (st : Store) : Store := mkCommandStore (documents st) (S (readings st)).

(** Store a document built from a message; [what] names it in the errors. *)
Definition put_message {W} `{!Serde W} (st : Store) (key : string) (w : W) (existing : option Doc)
    (what op : string) : result Error unit * Store :=
  match message_to_automerge_into w existing with
  | Err e => (Err (storage_error ("Failed to convert " +:+ what +:+ " to Automerge: " +:+ e) op (Some key)), st)
  | Ok doc =>
      match store_put (documents st) key doc with
      | Err e => (Err (storage_error ("Failed to store " +:+ what +:+ ": " +:+ e) op (Some key)), st)
      | Ok docs' => (Ok tt, mkCommandStore docs' (readings st))
      end
  end.

(** Retrieve a document and read it as a message. *)
Definition get_message {W} `{!Serde W} (st : Store) (key what op : string) : option (result Error (option W)) :=
  match store_get (documents st) key with
  | Ok None => Some (Ok None)
  | Err e => Some (Err (storage_error ("Failed to get " +:+ what +:+ ": " +:+ e) op (Some key)))
  | Ok (Some doc) =>
      r ← automerge_to_message doc;
      Some (match r with
            | Ok w => Ok (Some w)
            | Err e => Err (storage_error ("Failed to deserialize " +:+ what +:+ ": " +:+ e) op (Some key))
            end)
  end.

(** Unwrap what was read. *)
Definition unwrapped {W A} (f : W -> A) (r : option (result Error (option W))) : option (result Error (option A)) :=
  match r with
  | Some (Ok o) => Some (Ok (f <$> o))
  | Some (Err e) => Some (Err e)
  | None => None
  end.

(** The messages of scanned documents; those that cannot be read are passed over. *)
Fixpoint read_all {W} `{!Serde W} (l : list (string * Doc)) : option (list W) :=
  match l with
  | [] => Some []
  | (_, doc) :: rest =>
      r ← automerge_to_message doc;
      ws ← read_all rest;
      Some (match r with Ok w => w :: ws | Err _ => ws end)
  end.

Definition am_publish_command (st : Store) (command : HierarchicalCommand) : result Error string * Store :=
  let key := command_key (command_id command) in
  let wrapper := mkCommandWrapper command (now_us st) in
  let '(r, st') := put_message (tick st) key wrapper None "command" "publish_command" in
  (let? _ := r in Ok key, st').

Definition am_get_command (st : Store) (id : string) : option (result Error (option HierarchicalCommand)) :=
  unwrapped wrapped_command (get_message st (command_key id) "command" "get_command").

(** [target.target_ids.contains(&id)] *)
Definition targets (id : string) (command : HierarchicalCommand) : bool :=
  match target command with Some t => bool_decide (id ∈ target_ids t) | None => false end.

Definition am_query_commands_by_target (st : Store) (target_id : string) : option (result Error (list HierarchicalCommand)) :=
  match scan_prefix (documents st) COMMANDS_PREFIX with
  | Err e => Some (Err (storage_error ("Failed to scan commands: " +:+ e) "query_commands_by_target" None))
  | Ok l => ws ← read_all (W := CommandWrapper) l; Some (Ok (filter (fun c => targets target_id c = true) (map wrapped_command ws)))
  end.

Definition am_delete_command (st : Store) (id : string) : result Error unit * Store :=
  let key := command_key id in
  match store_delete (documents st) key with
  | Err e => (Err (storage_error ("Failed to delete command: " +:+ e) "delete_command" (Some key)), st)
  | Ok docs' => (Ok tt, mkCommandStore docs' (readings st))
  end.

Definition am_publish_acknowledgment (st : Store) (ack : CommandAcknowledgment) : result Error string * Store :=
  let key := ack_key (ack_command_id ack) (ack_node_id ack) in
  let wrapper := mkAckWrapper ack (now_us st) in
  let '(r, st') := put_message (tick st) key wrapper None "acknowledgment" "publish_acknowledgment" in
  (let? _ := r in Ok key, st').

Definition am_get_acknowledgments (st : Store) (id : string) : option (result Error (list CommandAcknowledgment)) :=
  match scan_prefix (documents st) (ack_prefix id) with
  | Err e => Some (Err (storage_error ("Failed to scan acknowledgments: " +:+ e) "get_acknowledgments" (Some id)))
  | Ok l => ws ← read_all (W := AckWrapper) l; Some (Ok (map acknowledgment ws))
  end.

Definition am_update_command_status (st : Store) (status : CommandStatus) : result Error unit * Store :=
  let key := status_key (status_command_id status) in
  let wrapper := mkStatusWrapper status (now_us st) in
  let st := tick st in
  match store_get (documents st) key with
  | Err e => (Err (storage_error ("Failed to read existing status doc: " +:+ e) "update_command_status" (Some key)), st)
  | Ok existing => put_message st key wrapper existing "status" "update_command_status"
  end.

Definition am_get_command_status (st : Store) (id : string) : option (result Error (option CommandStatus)) :=
  unwrapped wrapped_status (get_message st (status_key id) "status" "get_command_status").

(** ** Observers

    The callback is called for the documents of a scan that are wanted and were not seen
    before; the first scan, which starts with nothing seen, does not check. *)
Fixpoint visit_docs {W} `{!Serde W} (check : bool) (wanted : W -> bool) (seen : gset string) (l : list (string * Doc))
    : option (gset string * list (string * W)) :=
  match l with
  | [] => Some (seen, [])
  | (key, doc) :: rest =>
      if check && bool_decide (key ∈ seen) then visit_docs check wanted seen rest
      else
        r ← automerge_to_message doc;
        match r with
        | Ok w =>
            if wanted w then
              '(seen', calls) ← visit_docs check wanted ({[key]} ∪ seen) rest;
              Some (seen', (key, w) :: calls)
            else visit_docs check wanted seen rest
        | Err _ => visit_docs check wanted seen rest
        end
  end.

Definition visit {W} `{!Serde W} (check : bool) (prefix : string) (wanted : W -> bool) (seen : gset string) (st : St)
    : option (gset string * list (string * W)) :=
  match scan_prefix st prefix with Ok l => visit_docs check wanted seen l | Err _ => Some (seen, []) end.

(** The polling loop against the contents of the store at each of its turns *)
Fixpoint polls {W} `{!Serde W} (prefix : string) (wanted : W -> bool) (seen : gset string) (turns : list St)
    : option (gset string * list (string * W)) :=
  match turns with
  | [] => Some (seen, [])
  | st :: rest =>
      '(seen1, calls1) ← visit true prefix wanted seen st;
      '(seen2, calls2) ← polls prefix wanted seen1 rest;
      Some (seen2, calls1 ++ calls2)
  end.

Definition observe {W} `{!Serde W} (prefix : string) (wanted : W -> bool) (first : St) (turns : list St)
    : option (gset string * list (string * W)) :=
  '(seen1, calls1) ← visit false prefix wanted ∅ first;
  '(seen2, calls2) ← polls prefix wanted seen1 turns;
  Some (seen2, calls1 ++ calls2).

Definition observe_commands (node_id : string) := observe COMMANDS_PREFIX (fun w => targets node_id (wrapped_command w)).
Definition observe_acknowledgments (issuer_id : string) := observe (W := AckWrapper) ACKS_PREFIX (fun _ => true).

(** ** The storage trait

    A call that panics returns nothing to the coordinator; it is given an error of its
    own here. *)
Definition returned {A} (r : option (result Error A)) : result Error A := default (Err (EInternal "panicked")) r.

#[export] Instance automerge_command_storage : CommandStorage Store := {|
  publish_command := am_publish_command;
  get_command st id := returned (am_get_command st id);
  query_commands_by_target st id := returned (am_query_commands_by_target st id);
  delete_command := am_delete_command;
  publish_acknowledgment := am_publish_acknowledgment;
  get_acknowledgments st id := returned (am_get_acknowledgments st id);
  update_command_status := am_update_command_status;
  storage_command_status st id := returned (am_get_command_status st id)
|}.

End Storage.

(** ** Keys *)

Lemma string_app_assoc (a b c : string) : a +:+ (b +:+ c) = (a +:+ b) +:+ c.
Proof. induction a as [|x a IH]; [done|]. change (String x (a +:+ (b +:+ c)) = String x ((a +:+ b) +:+ c)). by rewrite IH. Qed.

(** The three families of keys *)
Inductive Key :=
| KeyCommand (id : string)
| KeyAck (suffix : string)
| KeyStatus (id : string).

#[export] Instance Key_eq_dec : EqDecision Key.
Proof. solve_decision. Defined.

Definition key_text (k : Key) : string :=
  match k with KeyCommand id => "cmd:" +:+ id | KeyAck s => "ack:" +:+ s | KeyStatus id => "status:" +:+ id end.

Lemma key_text_inj k k' : key_text k = key_text k' -> k = k'.
Proof. destruct k, k'; cbn; intros E; try discriminate E; by simplify_eq. Qed.

Definition dash_free (s : string) : Prop := "-"%char ∉ String.list_ascii_of_string s.

#[export] Instance dash_free_dec s : Decision (dash_free s).
Proof. unfold dash_free. apply _. Defined.

Lemma dash_split a b x y : dash_free a -> dash_free b -> a +:+ "-" +:+ x = b +:+ "-" +:+ y -> a = b /\ x = y.
Proof.
  unfold dash_free. revert b. induction a as [|c a IH]; intros [|c' b]; cbn; rewrite ?not_elem_of_cons; intros Ha Hb E.
  - by injection E.
  - injection E as <- _. by destruct Hb.
  - injection E as -> _. by destruct Ha.
  - injection E as <- E. destruct (IH b) as [-> ->]; [by destruct Ha|by destruct Hb|done|done].
Qed.

(** ** Refinement of three tables *)

(** Neither field of a wrapped status is optional. *)
Class StatusSerdeLaws `{Serde StatusWrapper} := {
  status_serde :: SerdeLaws StatusWrapper;
  status_not_null w fs k : faithful w -> to_value w = Ok (JObject fs) -> field k fs <> Some JNull
}.

Section Tables.
Context {St Doc : Type} `{!AutomergeStore St Doc, !AutomergeStoreLaws St Doc, !AutomergeDoc Doc, !AutomergeDocLaws Doc}.
Context `{!PrefixScan St Doc, !PrefixScanLaws St Doc}.
Context `{!Serde CommandWrapper, !SerdeLaws CommandWrapper, !Serde AckWrapper, !SerdeLaws AckWrapper}.
Context `{!Serde StatusWrapper, !StatusSerdeLaws}.
Context (clock : nat -> Z).

Abbreviation Store := (AutomergeCommandStorage St).

(** The message found under a key *)
Definition at_key {W} `{!Serde W} (st : Store) (k : Key) : option W :=
  d ← view (documents st) (key_text k); match automerge_to_message d with Some (Ok w) => Some w | _ => None end.

(** Every document can be read as JSON. *)
Definition panic_free (st : Store) : Prop := forall k d, view (documents st) k = Some d -> extractable (visible d).

Lemma read_extractable {W} `{!Serde W} (d : Doc) (r : result string W) :
  automerge_to_message d = Some r -> extractable (visible d).
Proof.
  unfold automerge_to_message, extract_to_json. cbn [extract_value].
  destruct (extract_fields extract_value (visible d)) eqn:E; [|done]. intros _. by eapply extract_fields_extractable.
Qed.

Lemma extractable_read {W} `{!Serde W} (d : Doc) : extractable (visible d) -> exists r : result string W, automerge_to_message d = Some r.
Proof.
  intros [gs Hg]%extract_fields_some. unfold automerge_to_message, extract_to_json. cbn [extract_value]. rewrite Hg. by eexists.
Qed.

(** Only the message under [k] changes. *)
Definition writes {W} `{!Serde W} (st st' : Store) (k : Key) (w : W) : Prop :=
  panic_free st' /\ (forall k', k' <> k -> view (documents st') (key_text k') = view (documents st) (key_text k')) /\ at_key st' k = Some w.

Lemma put_message_spec {W} `{!Serde W, !SerdeLaws W} st k (w : W) existing what op :
  panic_free st -> faithful w -> (existing = None \/ existing = view (documents st) (key_text k)) ->
  (existing <> None -> forall fs i, to_value w = Ok (JObject fs) -> field i fs <> Some JNull) ->
  match put_message st (key_text k) w existing what op with
  | (Ok _, st') => writes st st' k w
  | (Err _, st') => st' = st
  end.
Proof.
  intros Hst Hw He Hn. unfold put_message.
  assert (exists d, message_to_automerge_into w existing = Ok d /\ automerge_to_message d = Some (Ok w)) as (d & -> & Hd).
  { destruct existing as [d0|]; [|by apply fresh_read]. destruct He as [|He]; [done|].
    apply into_read; [done| |]; rewrite fork_visible; [by eapply Hst|].
    intros fs i Ev Hi. by destruct (Hn ltac:(done) fs i Ev). }
  destruct (store_put (documents st) (key_text k) d) as [docs'|] eqn:Ep; [|done]. pose proof (put_view _ _ _ _ Ep) as Hv.
  split_and!; cbn [documents].
  - intros k' d' Hk'. cbn [documents] in Hk'. rewrite Hv in Hk'. case_decide; [|by eapply Hst].
    injection Hk' as <-. by eapply read_extractable.
  - intros k' Hk. rewrite Hv, decide_False; [done|]. by intros ?%key_text_inj.
  - unfold at_key. cbn [documents]. rewrite Hv, decide_True by done. cbn [mbind option_bind]. by rewrite Hd.
Qed.

(** What the trait promises: tables of commands, of acknowledgments and of statuses *)
Record Tables := mkTables {
  t_commands : string -> option HierarchicalCommand;
  t_acks : string -> option CommandAcknowledgment;
  t_statuses : string -> option CommandStatus
}.

Definition tables (st : Store) : Tables :=
  mkTables (fun id => wrapped_command <$> at_key st (KeyCommand id)) (fun s => acknowledgment <$> at_key st (KeyAck s))
    (fun id => wrapped_status <$> at_key st (KeyStatus id)).

Definition same_tables (t t' : Tables) : Prop :=
  (forall id, t_commands t id = t_commands t' id) /\ (forall s, t_acks t s = t_acks t' s) /\
  (forall id, t_statuses t id = t_statuses t' id).

Inductive Call :=
| CallPublish (c : HierarchicalCommand)
| CallDelete (id : string)
| CallAcknowledge (a : CommandAcknowledgment)
| CallStatus (s : CommandStatus).

Definition done_with {A} (r : result Error A * Store) : result Error unit * Store := (let? _ := fst r in Ok tt, snd r).

Definition run_call (c : Call) (st : Store) : result Error unit * Store :=
  match c with
  | CallPublish c => done_with (am_publish_command clock st c)
  | CallDelete id => am_delete_command st id
  | CallAcknowledge a => done_with (am_publish_acknowledgment clock st a)
  | CallStatus s => am_update_command_status clock st s
  end.

Definition ack_suffix (a : CommandAcknowledgment) : string := ack_command_id a +:+ "-" +:+ ack_node_id a.

Definition set_at {A} (k : string) (o : option A) (t : string -> option A) : string -> option A :=
  fun k' => if decide (k' = k) then o else t k'.

Definition apply_call (c : Call) (t : Tables) : Tables :=
  match c with
  | CallPublish c => mkTables (set_at (command_id c) (Some c) (t_commands t)) (t_acks t) (t_statuses t)
  | CallDelete id => mkTables (set_at id None (t_commands t)) (t_acks t) (t_statuses t)
  | CallAcknowledge a => mkTables (t_commands t) (set_at (ack_suffix a) (Some a) (t_acks t)) (t_statuses t)
  | CallStatus s => mkTables (t_commands t) (t_acks t) (set_at (status_command_id s) (Some s) (t_statuses t))
  end.

(** The message the call stores can be read back. *)
Definition call_faithful (c : Call) (st : Store) : Prop :=
  match c with
  | CallPublish c => faithful (mkCommandWrapper c (now_us clock st))
  | CallDelete _ => True
  | CallAcknowledge a => faithful (mkAckWrapper a (now_us clock st))
  | CallStatus s => faithful (mkStatusWrapper s (now_us clock st))
  end.

Lemma at_key_frame {W} `{!Serde W} st st' k' :
  view (documents st') (key_text k') = view (documents st) (key_text k') -> at_key (W := W) st' k' = at_key st k'.
Proof. unfold at_key. by intros ->. Qed.

Lemma writes_tables {W} `{!Serde W} st st' k (w : W) : writes st st' k w ->
  (forall id, k <> KeyCommand id -> t_commands (tables st') id = t_commands (tables st) id) /\
  (forall s, k <> KeyAck s -> t_acks (tables st') s = t_acks (tables st) s) /\
  (forall id, k <> KeyStatus id -> t_statuses (tables st') id = t_statuses (tables st) id).
Proof.
  intros (_ & Hf & _). cbn. split_and!; intros i Hi; by rewrite (at_key_frame st st' _ (Hf _ (not_eq_sym Hi))).
Qed.

Lemma at_key_written {W} `{!Serde W} st st' k (w : W) : writes st st' k w -> at_key st' k = Some w.
Proof. by intros (_ & _ & ?). Qed.

(** Tables that agree with the store but for the entry of [k], where [t] has [w] *)
Lemma writes_refines {W} `{!Serde W} st st' k (w : W) t :
  writes st st' k w ->
  (forall id, t_commands t id = if decide (k = KeyCommand id) then wrapped_command <$> at_key st' k else t_commands (tables st) id) ->
  (forall s, t_acks t s = if decide (k = KeyAck s) then acknowledgment <$> at_key st' k else t_acks (tables st) s) ->
  (forall id, t_statuses t id = if decide (k = KeyStatus id) then wrapped_status <$> at_key st' k else t_statuses (tables st) id) ->
  panic_free st' /\ same_tables (tables st') t.
Proof.
  intros Hp Hc Ha Hs. pose proof (writes_tables _ _ _ _ Hp) as (Hc' & Ha' & Hs'). split; [apply Hp|].
  split_and!; intros i; [rewrite Hc|rewrite Ha|rewrite Hs]; case_decide; subst; auto.
Qed.

Ltac entry Hp :=
  eapply (writes_refines _ _ _ _ _ Hp); intros i; cbn [apply_call t_commands t_acks t_statuses]; unfold set_at;
  repeat case_decide; simplify_eq; try done; by rewrite (at_key_written _ _ _ _ Hp).

Lemma call_refines c st :
  panic_free st -> call_faithful c st ->
  let '(r, st') := run_call c st in
  panic_free st' /\ same_tables (tables st') (if is_ok r then apply_call c (tables st) else tables st).
Proof.
  intros Hst Hc. destruct c as [c|id|a|s]; cbn [run_call call_faithful] in *.
  - pose proof (put_message_spec (tick st) (KeyCommand (command_id c)) _ None "command" "publish_command" Hst Hc (or_introl eq_refl) ltac:(done)) as Hp.
    unfold am_publish_command, done_with. change (command_key (command_id c)) with (key_text (KeyCommand (command_id c))).
    destruct (put_message (tick st) _ _ None "command" "publish_command") as [[[]|e] st']; cbn [fst snd is_ok]; [entry Hp|by subst st'].
  - unfold am_delete_command. change (command_key id) with (key_text (KeyCommand id)).
    destruct (store_delete (documents st) (key_text (KeyCommand id))) as [docs'|] eqn:Ed; cbn [is_ok]; [|done].
    pose proof (delete_view _ _ _ Ed) as Hv. split.
    + intros k d. cbn [documents]. rewrite Hv. case_decide; [done|]. apply Hst.
    + split_and!; intros i; cbn [apply_call t_commands t_acks t_statuses tables]; unfold at_key, set_at; cbn [documents]; rewrite Hv;
        repeat case_decide; subst; try done;
        match goal with H : key_text _ = key_text _ |- _ => by apply key_text_inj in H; simplify_eq end.
  - pose proof (put_message_spec (tick st) (KeyAck (ack_suffix a)) _ None "acknowledgment" "publish_acknowledgment" Hst Hc (or_introl eq_refl) ltac:(done)) as Hp.
    unfold am_publish_acknowledgment, done_with. change (ack_key _ _) with (key_text (KeyAck (ack_suffix a))).
    destruct (put_message (tick st) _ _ None "acknowledgment" "publish_acknowledgment") as [[[]|e] st']; cbn [fst snd is_ok]; [entry Hp|by subst st'].
  - unfold am_update_command_status. change (status_key _) with (key_text (KeyStatus (status_command_id s))).
    destruct (store_get (documents (tick st)) (key_text (KeyStatus (status_command_id s)))) as [existing|] eqn:Eg; [|done].
    pose proof (put_message_spec (tick st) (KeyStatus (status_command_id s)) _ existing "status" "update_command_status" Hst Hc
      (or_intror (get_view _ _ _ Eg)) (fun _ fs i Ev => status_not_null _ fs i Hc Ev)) as Hp.
    destruct (put_message (tick st) _ _ existing "status" "update_command_status") as [[[]|e] st']; cbn [fst snd is_ok]; [entry Hp|by subst st'].
Qed.

(** C27: the storage is three tables, one of commands, one of acknowledgments and one of
    statuses: a call that succeeds changes exactly its own entry, whatever was stored
    before, and one that fails changes none; no document that cannot be read is left
    behind. *)
Theorem command_storage_refines_tables c st :
  panic_free st -> call_faithful c st ->
  let '(r, st') := run_call c st in
  panic_free st' /\ same_tables (tables st') (if is_ok r then apply_call c (tables st) else tables st).
Proof. apply call_refines. Qed.

(** ** Reading the tables *)

Lemma get_message_spec {W} `{!Serde W} st k what op (o : option W) :
  get_message st (key_text k) what op = Some (Ok o) -> o = at_key st k.
Proof.
  unfold get_message, at_key. destruct (store_get (documents st) (key_text k)) as [[d|]|] eqn:Eg; [| |done].
  - apply get_view in Eg as <-. cbn [mbind option_bind]. destruct (automerge_to_message d) as [[w|e]|]; [|done|done].
    cbn [mbind option_bind]. by intros [= <-].
  - intros [= <-]. by apply get_view in Eg as <-.
Qed.

Lemma read_all_elem {W} `{!Serde W} l (ws : list W) w :
  read_all (Doc := Doc) l = Some ws -> w ∈ ws <-> exists k d, (k, d) ∈ l /\ automerge_to_message d = Some (Ok w).
Proof.
  revert ws. induction l as [|[k d] l IH]; intros ws; cbn [read_all].
  - intros [= <-]. split; [by intros ?%not_elem_of_nil|by intros (? & ? & ?%not_elem_of_nil & _)].
  - destruct (automerge_to_message d) as [r|] eqn:Ed; [|done]. cbn [mbind option_bind].
    destruct (read_all l) as [ws'|] eqn:El; [|done]. cbn [mbind option_bind]. intros [= <-].
    specialize (IH ws' eq_refl). destruct r as [w'|e]; rewrite ?elem_of_cons, IH; setoid_rewrite elem_of_cons; naive_solver.
Qed.

(** The messages of a scan in the family of keys [family] *)
Lemma scan_messages {W} `{!Serde W} st family q l (ws : list W) w :
  (forall i, key_text (family i) = key_text (family EmptyString) +:+ i) ->
  scan_prefix (documents st) (key_text (family q)) = Ok l -> read_all (Doc := Doc) l = Some ws ->
  w ∈ ws <-> exists i, at_key st (family (q +:+ i)) = Some w.
Proof.
  intros Hk Hl Hw. rewrite (read_all_elem _ _ _ Hw). setoid_rewrite (scan_elem st.(documents) _ l _ _ Hl).
  setoid_rewrite string_prefix_iff. unfold at_key. split.
  - intros (k & d & [Hv [i ->]] & Hd). exists i. rewrite Hk, string_app_assoc, <- Hk, Hv. cbn [mbind option_bind]. by rewrite Hd.
  - intros [i Hi]. destruct (view (documents st) (key_text (family (q +:+ i)))) as [d|] eqn:Hv; [|done]. cbn [mbind option_bind] in Hi.
    destruct (automerge_to_message d) as [[w'|]|] eqn:Hd; [|done|done]. injection Hi as <-.
    exists (key_text (family (q +:+ i))), d. split; [split; [done|]|done]. exists i. by rewrite Hk, (Hk q), string_app_assoc.
Qed.

(** The stores that calls make of an empty one *)
Definition reachable (st : Store) : Prop :=
  exists st0, (forall k, view st0 k = None) /\
    rtc (fun a b => exists c, call_faithful c a /\ snd (run_call c a) = b) (command_storage_new st0) st.

(** Acknowledgments are filed under their own identifiers. *)
Definition filed (st : Store) : Prop := forall s a, t_acks (tables st) s = Some a -> s = ack_suffix a.

Lemma reachable_filed st : reachable st -> panic_free st /\ filed st.
Proof.
  intros (st0 & He & Hr). revert st Hr. refine (rtc_ind_r _ _ _ _).
  - split; [intros k d; cbn [command_storage_new documents]; by rewrite He|].
    intros s a. cbn. unfold at_key. cbn [command_storage_new documents]. by rewrite He.
  - intros a b _ (c & Hc & <-) [Hp Hf]. pose proof (call_refines c a Hp Hc) as Hs.
    destruct (run_call c a) as [r b]. destruct Hs as [Hp' (_ & Ha & _)]. split; [done|]. intros s x. cbn [snd]. rewrite Ha.
    destruct r; cbn [is_ok]; [|apply Hf]. destruct c as [| |x'|]; cbn [apply_call t_acks]; [apply Hf..| |apply Hf].
    unfold set_at. case_decide; [|apply Hf]. by intros [= <-].
Qed.

(** Reading returns the tables: a command and a status by identifier, the commands
    that name a target, and, when no identifier of a command contains a dash, exactly
    the acknowledgments of a command. *)
Theorem command_storage_reads_tables st id :
  (forall o, am_get_command st id = Some (Ok o) -> o = t_commands (tables st) id) /\
  (forall o, am_get_command_status st id = Some (Ok o) -> o = t_statuses (tables st) id) /\
  (forall l c, am_query_commands_by_target st id = Some (Ok l) ->
     c ∈ l <-> targets id c = true /\ exists i, t_commands (tables st) i = Some c) /\
  (forall l a, reachable st -> dash_free id -> (forall s a, t_acks (tables st) s = Some a -> dash_free (ack_command_id a)) ->
     am_get_acknowledgments st id = Some (Ok l) ->
     a ∈ l <-> ack_command_id a = id /\ exists s, t_acks (tables st) s = Some a).
Proof.
  split_and!.
  - intros o. unfold am_get_command, unwrapped.
    destruct (get_message st (command_key id) "command" "get_command") as [[w|]|] eqn:E; [|done|done]. intros [= <-].
    by apply (get_message_spec st (KeyCommand id)) in E as ->.
  - intros o. unfold am_get_command_status, unwrapped.
    destruct (get_message st (status_key id) "status" "get_command_status") as [[w|]|] eqn:E; [|done|done]. intros [= <-].
    by apply (get_message_spec st (KeyStatus id)) in E as ->.
  - intros l c. unfold am_query_commands_by_target. destruct (scan_prefix (documents st) COMMANDS_PREFIX) as [ds|] eqn:Es; [|done].
    destruct (read_all ds) as [ws|] eqn:Ew; [|done]. cbn [mbind option_bind]. intros [= <-].
    rewrite list_elem_of_filter, list_elem_of_fmap. apply and_iff_compat_l.
    setoid_rewrite (scan_messages st KeyCommand EmptyString _ _ _ (fun _ => eq_refl) Es Ew). cbn [tables t_commands].
    setoid_rewrite fmap_Some. naive_solver.
  - intros l a [_ Hf]%reachable_filed Hid Hdash. unfold am_get_acknowledgments.
    destruct (scan_prefix (documents st) (ack_prefix id)) as [ds|] eqn:Es; [|done].
    destruct (read_all ds) as [ws|] eqn:Ew; [|done]. cbn [mbind option_bind]. intros [= <-].
    rewrite list_elem_of_fmap. setoid_rewrite (scan_messages st KeyAck (id +:+ "-") _ _ _ (fun _ => eq_refl) Es Ew). split.
    + intros (w & -> & i & Hi). assert (t_acks (tables st) ((id +:+ "-") +:+ i) = Some (acknowledgment w)) as Ha by (cbn; by rewrite Hi).
      split; [|by eexists]. pose proof (Hf _ _ Ha) as E. unfold ack_suffix in E. rewrite <- string_app_assoc in E.
      by apply dash_split in E as [<- _]; [|done|by eapply Hdash].
    + intros [<- [s Hs]]. pose proof (Hf _ _ Hs) as ->. cbn [tables t_acks] in Hs. apply fmap_Some in Hs as (w & Hw & ->).
      exists w. split; [done|]. exists (ack_node_id (acknowledgment w)). by rewrite <- string_app_assoc.
Qed.

(** ** Limits of the keys *)

(** The acknowledgments of a command include those of every command whose identifier
    continues its own after a dash. *)
Theorem foreign_acknowledgments_listed st id x a l :
  t_acks (tables st) (ack_suffix a) = Some a -> ack_command_id a = id +:+ "-" +:+ x ->
  am_get_acknowledgments st id = Some (Ok l) -> a ∈ l.
Proof.
  intros Ha Hid. unfold am_get_acknowledgments. destruct (scan_prefix (documents st) (ack_prefix id)) as [ds|] eqn:Es; [|done].
  destruct (read_all ds) as [ws|] eqn:Ew; [|done]. cbn [mbind option_bind]. intros [= <-].
  rewrite list_elem_of_fmap. setoid_rewrite (scan_messages st KeyAck (id +:+ "-") _ _ _ (fun _ => eq_refl) Es Ew).
  cbn in Ha. apply fmap_Some in Ha as (w & Hw & ->). exists w. split; [done|].
  unfold ack_suffix in Hw. rewrite Hid, <- !string_app_assoc in Hw. exists (x +:+ "-" +:+ ack_node_id (acknowledgment w)).
  by rewrite <- string_app_assoc.
Qed.

(** Two acknowledgments of different commands share a key when a dash can be read both
    ways, and the later one replaces the earlier. *)
Theorem acknowledgments_collide id x n : ack_key id (x +:+ "-" +:+ n) = ack_key (id +:+ "-" +:+ x) n.
Proof. unfold ack_key. by rewrite <- !string_app_assoc. Qed.

End Tables.

(** ** Observers *)

Section Observers.
Context {St Doc : Type} `{!AutomergeStore St Doc, !AutomergeStoreLaws St Doc, !AutomergeDoc Doc}.
Context `{!PrefixScan St Doc, !PrefixScanLaws St Doc}.
Context {W : Type} `{!Serde W}.
Variable wanted : W -> bool.

(** What a pass does: the keys it calls are new, wanted and all of the wanted ones. *)
Record pass_ok (l : list (string * Doc)) (seen seen' : gset string) (calls : list (string * W)) : Prop := {
  pass_seen : seen' = list_to_set calls.*1 ∪ seen;
  pass_once : NoDup calls.*1;
  pass_new k : k ∈ calls.*1 -> k ∉ seen;
  pass_sound k w : (k, w) ∈ calls -> wanted w = true /\ exists d, (k, d) ∈ l /\ automerge_to_message d = Some (Ok w);
  pass_complete k d w : (k, d) ∈ l -> automerge_to_message d = Some (Ok w) -> wanted w = true -> k ∈ seen'
}.

Lemma pass_skip k d l seen seen' calls :
  (forall w, automerge_to_message d = Some (Ok w) -> wanted w = true -> k ∈ seen) ->
  pass_ok l seen seen' calls -> pass_ok ((k, d) :: l) seen seen' calls.
Proof.
  intros Hk [-> H1 H2 H3 H4]. split; [done..| |].
  - intros k' w' Hin. destruct (H3 k' w' Hin) as (? & d' & ? & ?). split; [done|]. exists d'. split; [by right|done].
  - intros k' d' w'. rewrite elem_of_cons. intros [[= -> ->]|Hin] Hd Hw; [|by eapply H4]. apply elem_of_union_r. by eapply Hk.
Qed.

Lemma pass_call k d w l seen seen' calls :
  automerge_to_message d = Some (Ok w) -> wanted w = true -> k ∉ seen -> k ∉ l.*1 ->
  pass_ok l ({[k]} ∪ seen) seen' calls -> pass_ok ((k, d) :: l) seen seen' ((k, w) :: calls).
Proof.
  intros Hd Hw Hk Hl [-> H1 H2 H3 H4]. split.
  - rewrite fmap_cons. cbn [list_to_set fst]. set_solver.
  - rewrite fmap_cons, NoDup_cons. split; [|done]. cbn [fst]. intros Hin. specialize (H2 k Hin). set_solver.
  - intros k'. rewrite fmap_cons, elem_of_cons. cbn [fst]. intros [->|Hin]; [done|]. specialize (H2 k' Hin). set_solver.
  - intros k' w'. rewrite elem_of_cons. intros [[= -> ->]|Hin].
    + split; [done|]. exists d. split; [by left|done].
    + destruct (H3 k' w' Hin) as (? & d' & ? & ?). split; [done|]. exists d'. split; [by right|done].
  - intros k' d' w'. rewrite elem_of_cons. intros [[= -> ->]|Hin] ? ?; [set_solver|by eapply H4].
Qed.

Lemma visit_docs_ok check l seen seen' calls :
  NoDup l.*1 -> (check = true \/ forall k, k ∈ l.*1 -> k ∉ seen) ->
  visit_docs check wanted seen l = Some (seen', calls) -> pass_ok l seen seen' calls.
Proof.
  revert seen seen' calls. induction l as [|[k d] l IH]; intros seen seen' calls; cbn [visit_docs].
  { intros _ _ [= <- <-]. split; [set_solver|constructor|set_solver|intros ? ? ?%not_elem_of_nil; done|intros ? ? ? ?%not_elem_of_nil; done]. }
  rewrite fmap_cons, NoDup_cons. cbn [fst]. intros [Hk Hn] Hc.
  assert (check = true \/ forall k', k' ∈ l.*1 -> k' ∉ seen) as Hc1 by (destruct Hc; [by left|right; set_solver]).
  destruct (check && bool_decide (k ∈ seen)) eqn:Es.
  { intros E. apply andb_true_iff in Es as [_ Es%bool_decide_eq_true]. apply pass_skip; [done|by apply (IH _ _ _ Hn Hc1)]. }
  destruct (automerge_to_message d) as [[w|e]|] eqn:Ed; [| |done]; cbn [mbind option_bind].
  2: { intros E. apply pass_skip; [congruence|by apply (IH _ _ _ Hn Hc1)]. }
  destruct (wanted w) eqn:Ew; [|intros E; apply pass_skip; [congruence|by apply (IH _ _ _ Hn Hc1)]].
  destruct (visit_docs check wanted ({[k]} ∪ seen) l) as [[s1 c1]|] eqn:E; [|done]. cbn [mbind option_bind]. intros [= <- <-].
  assert (k ∉ seen) as Hks.
  { destruct Hc as [->|Hc]; [|set_solver]. cbn [andb] in Es. by apply bool_decide_eq_false in Es. }
  apply pass_call; [done..|]. apply (IH _ _ _ Hn); [|done]. destruct Hc1 as [|Hc1]; [by left|right]. set_solver.
Qed.

(** What the observer has called after its turns against the contents [turns] *)
Record observed (prefix : string) (turns : list St) (seen : gset string) (calls : list (string * W)) : Prop := {
  obs_seen : seen = list_to_set calls.*1;
  obs_once : NoDup calls.*1;
  obs_sound k w : (k, w) ∈ calls -> wanted w = true /\ exists st d, st ∈ turns /\ view st k = Some d /\
    String.prefix prefix k = true /\ automerge_to_message d = Some (Ok w);
  obs_complete st k d w : st ∈ turns -> (exists l, scan_prefix (Doc := Doc) st prefix = Ok l) -> view st k = Some d ->
    String.prefix prefix k = true -> automerge_to_message d = Some (Ok w) -> wanted w = true -> k ∈ calls.*1
}.

Lemma visit_observed check prefix turns seen seen' calls calls' st :
  observed prefix turns seen calls -> (check = true \/ seen = ∅) -> visit check prefix wanted seen st = Some (seen', calls') ->
  observed prefix (turns ++ [st]) seen' (calls ++ calls').
Proof.
  intros [-> Ho Hs Hc] Hch. unfold visit. destruct (scan_prefix st prefix) as [l|e] eqn:El.
  2: { intros [= <- <-]. rewrite app_nil_r. split; [done..| |].
       - intros k w Hin. destruct (Hs k w Hin) as (? & st' & d & ? & ?). split; [done|]. exists st', d. split; [set_solver|done].
       - intros st' k d w. rewrite elem_of_app, list_elem_of_singleton. intros [Hin| ->]; [by apply Hc|]. intros [l El']. congruence. }
  intros E. apply visit_docs_ok in E; [|by eapply scan_once|destruct Hch as [?|Hch]; [by left|right; set_solver]].
  destruct E as [-> H1 H2 H3 H4]. pose proof (scan_elem st prefix l) as Hl. split.
  - rewrite fmap_app, list_to_set_app_L. set_solver.
  - rewrite fmap_app. apply NoDup_app. split_and!; [done| |done]. intros k Hk Hk'. apply (H2 k Hk'). by apply elem_of_list_to_set.
  - intros k w. rewrite elem_of_app. intros [Hin|Hin].
    + destruct (Hs k w Hin) as (? & st' & d & ? & ?). split; [done|]. exists st', d. split; [set_solver|done].
    + destruct (H3 k w Hin) as (? & d & Hd & ?). split; [done|]. apply (Hl k d El) in Hd as [? ?]. exists st, d. split; [set_solver|done].
  - intros st' k d w. rewrite elem_of_app, list_elem_of_singleton, fmap_app, elem_of_app. intros [Hin| ->] Hsc Hv Hp Hm Hw.
    + left. by eapply Hc.
    + specialize (H4 k d w (proj2 (Hl k d El) (conj Hv Hp)) Hm Hw). rewrite elem_of_union, !elem_of_list_to_set in H4. tauto.
Qed.

Lemma polls_observed prefix more : forall turns seen seen' calls calls',
  observed prefix turns seen calls -> polls prefix wanted seen more = Some (seen', calls') ->
  observed prefix (turns ++ more) seen' (calls ++ calls').
Proof.
  induction more as [|st more IH]; intros turns seen seen' calls calls' Ho; cbn [polls].
  { intros [= <- <-]. by rewrite !app_nil_r. }
  destruct (visit true prefix wanted seen st) as [[s1 c1]|] eqn:E1; [|done]. cbn [mbind option_bind].
  destruct (polls prefix wanted s1 more) as [[s2 c2]|] eqn:E2; [|done]. cbn [mbind option_bind]. intros [= <- <-].
  rewrite cons_middle, !app_assoc. eapply IH; [|exact E2]. eapply visit_observed; [exact Ho|by left|exact E1].
Qed.

Lemma observe_observed prefix first turns seen calls :
  observe prefix wanted first turns = Some (seen, calls) -> observed prefix (first :: turns) seen calls.
Proof.
  unfold observe. destruct (visit false prefix wanted ∅ first) as [[s1 c1]|] eqn:E1; [|done]. cbn [mbind option_bind].
  destruct (polls prefix wanted s1 turns) as [[s2 c2]|] eqn:E2; [|done]. cbn [mbind option_bind]. intros [= <- <-].
  apply (polls_observed prefix turns [first] s1); [|exact E2]. apply (visit_observed false prefix [] ∅ s1 [] c1); [|by right|exact E1].
  split; [done|constructor|intros ? ? ?%not_elem_of_nil; done|intros ? ? ? ? ?%not_elem_of_nil; done].
Qed.

End Observers.

(** C28: an observer of commands calls back for every command that names its node and is
    in the store at one of its readable turns, exactly once for each identifier however
    the store changes between the turns, and for nothing else. *)
Theorem observer_calls_once {St Doc} `{!AutomergeStore St Doc, !AutomergeStoreLaws St Doc, !AutomergeDoc Doc,
    !PrefixScan St Doc, !PrefixScanLaws St Doc, !Serde CommandWrapper} node first turns seen calls :
  observe_commands (Doc := Doc) node first turns = Some (seen, calls) ->
  NoDup calls.*1 /\
  (forall k w, (k, w) ∈ calls -> targets node (wrapped_command w) = true /\
     exists st d, st ∈ first :: turns /\ view st k = Some d /\ automerge_to_message d = Some (Ok w)) /\
  (forall st id d w, st ∈ first :: turns -> (exists l, scan_prefix (Doc := Doc) st COMMANDS_PREFIX = Ok l) ->
     view st (command_key id) = Some d -> automerge_to_message d = Some (Ok w) ->
     targets node (wrapped_command w) = true -> command_key id ∈ calls.*1).
Proof.
  intros [_ Ho Hs Hc]%observe_observed. split_and!; [done| |].
  - intros k w Hin. destruct (Hs k w Hin) as (? & st & d & ? & ? & ? & ?). eauto 10.
  - intros st id d w Hst Hsc Hv Hd Hw. eapply Hc; try done. apply string_prefix_iff. by exists id.
Qed.

(** ** Instances *)

Module SampleCommands.

Import SampleDocs SampleStore.

#[export] Instance toy_scan : PrefixScan ToyStore Fields := fun st p =>
  if online st then Ok (map_to_list (filter (fun kd => String.prefix p kd.1 = true) (SampleStore.docs st))) else Err "offline"%string.

#[export] Instance toy_scan_laws : PrefixScanLaws ToyStore Fields.
Proof.
  split.
  - intros [[] m] p l k d E; [|done]. injection E as <-. by rewrite elem_of_map_to_list, map_lookup_filter_Some.
  - intros [[] m] p l E; [|done]. injection E as <-. apply NoDup_fst_map_to_list.
Qed.

Lemma toy_scan_online st p : online st = true -> exists l, scan_prefix (Doc := Fields) st p = Ok l.
Proof. intros H. unfold scan_prefix, toy_scan. rewrite H. by eexists. Qed.

(** A serialisation that knows one message *)
Section Only.
Context {M : Type} (m : M) (tag : string).

Definition only : Serde M := {|
  to_value _ := Ok (JObject [("id"%string, JString tag)]);
  from_value j :=
    match json_get "id" j with
    | Some (JString s) => if decide (s = tag) then Ok m else Err "unknown"%string
    | _ => Err "missing field"%string
    end
|}.

Lemma only_read fs gs :
  (forall k v, field k fs = Some v -> reads_as v (field k gs)) -> fs = [("id"%string, JString tag)] -> @from_value M only (JObject gs) = Ok m.
Proof.
  intros Hr ->. cbn [from_value only json_get]. specialize (Hr "id"%string (JString tag) eq_refl). cbn in Hr. rewrite Hr.
  by rewrite decide_True.
Qed.

Definition only_laws : @SerdeLaws M only.
Proof.
  refine (@Build_SerdeLaws M only (fun x => x = m) _ _ _).
  - intros x _. eexists. by split.
  - intros x fs gs [= <-] -> Hr. by eapply only_read.
  - intros x fs gs k _ _ [= <-]. cbn. by case_decide.
Defined.

End Only.

Definition order : HierarchicalCommand :=
  mkHierarchicalCommand "c1" "hq" (Some (mkCommandTarget 1 ["n1"]%string)) None 1 0 0 0 0 None None 1.
Definition answer : CommandAcknowledgment := mkCommandAcknowledgment "c1-b" "n1" 1 None None.
Definition progress : CommandStatus := mkCommandStatus "c1" 1 [] None.

Definition clock0 : nat -> Z := fun _ => 5000.

#[export] Instance order_serde : Serde CommandWrapper := only (mkCommandWrapper order 5) "c1".
#[export] Instance order_laws : SerdeLaws CommandWrapper := only_laws _ _.
#[export] Instance answer_serde : Serde AckWrapper := only (mkAckWrapper answer 5) "a1".
#[export] Instance answer_laws : SerdeLaws AckWrapper := only_laws _ _.
#[export] Instance progress_serde : Serde StatusWrapper := only (mkStatusWrapper progress 5) "s1".
#[export] Instance progress_laws : StatusSerdeLaws.
Proof. refine {| status_serde := only_laws _ _ |}. intros w fs k _ [= <-]. cbn. by case_decide. Defined.

Abbreviation ToyCommands := (AutomergeCommandStorage ToyStore).

Definition empty : ToyCommands := command_storage_new (mkToy true ∅).
Definition published : ToyCommands := snd (run_call clock0 (CallPublish order) empty).
Definition answered : ToyCommands := snd (run_call clock0 (CallAcknowledge answer) published).

Lemma empty_panic_free : panic_free empty.
Proof. intros k d. cbn. by rewrite lookup_empty. Qed.

Lemma command_storage_refines_tables_witness :
  t_commands (tables published) "c1" = Some order /\ t_commands (tables published) "c2" = None.
Proof.
  pose proof (command_storage_refines_tables clock0 (CallPublish order) empty empty_panic_free eq_refl) as H.
  change (run_call clock0 (CallPublish order) empty) with (@Ok Error unit tt, published) in H.
  destruct H as [_ (H & _ & _)]. split; rewrite H; reflexivity.
Defined.

Lemma published_reachable : reachable clock0 published.
Proof. exists (mkToy true ∅). split; [intros k; cbn; apply lookup_empty|]. apply rtc_once. exists (CallPublish order). by split. Qed.

Lemma command_storage_reads_tables_witness :
  am_get_command (Doc := Fields) published "c1" = Some (Ok (t_commands (tables published) "c1")).
Proof.
  destruct (command_storage_reads_tables clock0 published "c1") as [H _].
  rewrite <- (H (Some order)) by (vm_compute; reflexivity). vm_compute. reflexivity.
Defined.

(** An observer of two turns: it is called when the command appears and not again when it
    is still there. *)
Definition two_turns := observe_commands (Doc := Fields) "n1" (documents empty) [documents published; documents answered].

Lemma observer_calls_once_witness :
  exists seen calls, two_turns = Some (seen, calls) /\ NoDup calls.*1 /\ command_key "c1" ∈ calls.*1.
Proof.
  assert (exists sc, two_turns = Some sc) as [[seen calls] E].
  { assert (bool_decide (is_Some two_turns) = true) as H by (vm_compute; reflexivity). apply bool_decide_eq_true in H as [sc H]. by exists sc. }
  exists seen, calls. destruct (observer_calls_once "n1" (documents empty) [documents published; documents answered] seen calls E) as (Ho & _ & Hc).
  split_and!; [done|done|].
  assert (documents published ∈ [documents empty; documents published; documents answered]) as Hin by (right; left).
  apply (Hc (documents published) "c1" [("id"%string, OScalar (ScStr "c1"))] (mkCommandWrapper order 5) Hin);
    [apply toy_scan_online|..]; vm_compute; reflexivity.
Defined.

Lemma foreign_acknowledgments_listed_witness :
  exists l, am_get_acknowledgments (Doc := Fields) answered "c1" = Some (Ok l) /\ answer ∈ l.
Proof.
  assert (exists l, am_get_acknowledgments (Doc := Fields) answered "c1" = Some (Ok l)) as [l E] by (eexists; vm_compute; reflexivity).
  exists l. split; [exact E|].
  apply (foreign_acknowledgments_listed answered "c1" "b" answer l); [vm_compute; reflexivity|reflexivity|exact E].
Defined.

(** A command that stays in the store is called back once. *)
Example standing_command_called_once :
  (fun r => len (snd r)) <$> observe_commands (Doc := Fields) "n1" (documents published) [documents published] = Some 1.
Proof. vm_compute. reflexivity. Qed.

End SampleCommands.
