(* ===== verification/Domain.v ===== *)
(** * Operational domains

    Models peat-protocol/src/models/domain.rs: the layers nodes operate in, sets of
    them, sensor types and the check whether a sensor sees a target. Words are compared
    in lower case: of the letters outside ASCII only the Kelvin sign (bytes E2 84 AA)
    has an ASCII lower case, and the result is only compared with ASCII words. *)

From S2P Require Import Prelude.
From Stdlib Require Import Ascii.

Open Scope Z_scope.

Inductive Domain := DomainUnspecified | Subsurface | Surface | Air.

#[export] Instance Domain_eq_dec : EqDecision Domain.
Proof. solve_decision. Defined.

Definition domain_name (d : Domain) : string :=
  match d with
  | DomainUnspecified => "Unspecified" | Subsurface => "Subsurface" | Surface => "Surface" | Air => "Air"
  end.

Definition domain_code (d : Domain) : string :=
  match d with DomainUnspecified => "UNK" | Subsurface => "SUB" | Surface => "SFC" | Air => "AIR" end.

(** Unspecified stands for the surface on either side. *)
Definition can_detect (source target : Domain) : bool :=
  match source, target with
  | Subsurface, Subsurface | Surface, Surface | Air, Air => true
  | Air, Surface => true
  | Surface, Air => true
  | Subsurface, Surface => true
  | Surface, Subsurface => true
  | Air, Subsurface => false
  | Subsurface, Air => false
  | DomainUnspecified, Subsurface | DomainUnspecified, Surface | DomainUnspecified, Air => true
  | DomainUnspecified, DomainUnspecified => true
  | Subsurface, DomainUnspecified | Surface, DomainUnspecified | Air, DomainUnspecified => true
  end.

Definition can_engage (source target : Domain) : bool :=
  match source, target with
  | Subsurface, Subsurface | Surface, Surface | Air, Air => true
  | Air, Surface => true
  | Surface, Air => true
  | Surface, Subsurface => true
  | Subsurface, Surface => true
  | Air, Subsurface => true
  | Subsurface, Air => false
  | DomainUnspecified, Subsurface | DomainUnspecified, Surface | DomainUnspecified, Air => true
  | DomainUnspecified, DomainUnspecified => true
  | Subsurface, DomainUnspecified | Surface, DomainUnspecified | Air, DomainUnspecified => true
  end.

Definition all_domains : list Domain := [Subsurface; Surface; Air].

Definition lower_ascii (c : ascii) : ascii :=
  let n := nat_of_ascii c in if (65 <=? n)%nat && (n <=? 90)%nat then ascii_of_nat (n + 32) else c.

Definition kelvin : string :=
  String (ascii_of_nat 226) (String (ascii_of_nat 132) (String (ascii_of_nat 170) EmptyString)).

Fixpoint to_lowercase (s : string) : string :=
  match s with
  | EmptyString => EmptyString
  | String c1 ((String c2 (String c3 rest)) as s') =>
      if bool_decide (String c1 (String c2 (String c3 EmptyString)) = kelvin)
      then String "k" (to_lowercase rest) else String (lower_ascii c1) (to_lowercase s')
  | String c s' => String (lower_ascii c) (to_lowercase s')
  end.

Definition one_of (s : string) (words : list string) : bool := bool_decide (s ∈ words).

Definition domain_parse (s : string) : option Domain :=
  let s := to_lowercase s in
  if one_of s ["subsurface"; "sub"; "underwater"; "underground"]%string then Some Subsurface
  else if one_of s ["surface"; "sfc"; "ground"; "sea"]%string then Some Surface
  else if one_of s ["air"; "airborne"; "aerial"; "sky"]%string then Some Air
  else None.

Definition domain_try_from (z : Z) : option Domain :=
  match z with
  | 0 => Some DomainUnspecified | 1 => Some Subsurface | 2 => Some Surface | 3 => Some Air | _ => None
  end.

Definition domain_to_i32 (d : Domain) : Z :=
  match d with DomainUnspecified => 0 | Subsurface => 1 | Surface => 2 | Air => 3 end.

(** ** Sets *)

Record DomainSet := mkDomainSet { subsurface : bool; surface : bool; air : bool }.

#[export] Instance DomainSet_eq_dec : EqDecision DomainSet.
Proof. solve_decision. Defined.

Definition empty_set : DomainSet := mkDomainSet false false false.
Definition all_set : DomainSet := mkDomainSet true true true.

Definition set_add (s : DomainSet) (d : Domain) : DomainSet :=
  match d with
  | Subsurface => mkDomainSet true (surface s) (air s)
  | Surface => mkDomainSet (subsurface s) true (air s)
  | Air => mkDomainSet (subsurface s) (surface s) true
  | DomainUnspecified => s
  end.

Definition single (d : Domain) : DomainSet := set_add empty_set d.
Definition from_domains (l : list Domain) : DomainSet := fold_left set_add l empty_set.

Definition set_remove (s : DomainSet) (d : Domain) : DomainSet :=
  match d with
  | Subsurface => mkDomainSet false (surface s) (air s)
  | Surface => mkDomainSet (subsurface s) false (air s)
  | Air => mkDomainSet (subsurface s) (surface s) false
  | DomainUnspecified => s
  end.

Definition set_contains (s : DomainSet) (d : Domain) : bool :=
  match d with Subsurface => subsurface s | Surface => surface s | Air => air s | DomainUnspecified => true end.

Definition set_is_empty (s : DomainSet) : bool := negb (subsurface s) && negb (surface s) && negb (air s).
Definition set_count (s : DomainSet) : Z := Z.b2z (subsurface s) + Z.b2z (surface s) + Z.b2z (air s).
Definition is_multi_domain (s : DomainSet) : bool := 1 <? set_count s.

Definition set_intersection (s t : DomainSet) : DomainSet :=
  mkDomainSet (subsurface s && subsurface t) (surface s && surface t) (air s && air t).
Definition set_union (s t : DomainSet) : DomainSet :=
  mkDomainSet (subsurface s || subsurface t) (surface s || surface t) (air s || air t).

(** [iter] and [to_vec] *)
Definition set_to_vec (s : DomainSet) : list Domain := filter (fun d => set_contains s d = true) all_domains.

Definition set_to_string (s : DomainSet) : string :=
  match set_to_vec s with [] => "NONE" | l => String.concat "+" (domain_code <$> l) end.

(** ** Sensors *)

Inductive SensorType := ElectroOptical | Infrared | Radar | Sonar | Acoustic | Sigint | Mad.

Definition operating_domains (t : SensorType) : DomainSet :=
  match t with
  | ElectroOptical | Infrared | Radar => from_domains [Surface; Air]
  | Sonar => from_domains [Subsurface; Surface]
  | Acoustic | Sigint => all_set
  | Mad => from_domains [Surface; Air]
  end.

Definition detection_domains (t : SensorType) : DomainSet :=
  match t with
  | ElectroOptical | Infrared | Radar => from_domains [Surface; Air]
  | Sonar => from_domains [Subsurface; Surface]
  | Acoustic | Sigint => all_set
  | Mad => single Subsurface
  end.

Definition sensor_name (t : SensorType) : string :=
  match t with
  | ElectroOptical => "Electro-Optical" | Infrared => "Infrared" | Radar => "Radar" | Sonar => "Sonar"
  | Acoustic => "Acoustic" | Sigint => "SIGINT" | Mad => "MAD"
  end.

Definition sensor_code (t : SensorType) : string :=
  match t with
  | ElectroOptical => "EO" | Infrared => "IR" | Radar => "RAD" | Sonar => "SON" | Acoustic => "ACO"
  | Sigint => "SIG" | Mad => "MAD"
  end.

Record DetectionCheck := mkCheck { dc_can_detect : bool; reason : string; modifier : Z }.

Definition cross_domain_modifier (source target : Domain) : Z :=
  if bool_decide (source = target) then 0
  else match source, target with
       | Air, Surface => 1
       | Surface, Air => -1
       | Air, Subsurface => -2
       | Surface, Subsurface => -1
       | Subsurface, Surface => -1
       | _, _ => 0
       end.

Definition detection_check (sensor_domain : Domain) (t : SensorType) (target_domain : Domain) : DetectionCheck :=
  if negb (set_contains (operating_domains t) sensor_domain)
  then mkCheck false (sensor_name t +:+ " cannot operate in " +:+ domain_name sensor_domain +:+ " domain") 0
  else if negb (set_contains (detection_domains t) target_domain)
  then mkCheck false (sensor_name t +:+ " cannot detect targets in " +:+ domain_name target_domain +:+ " domain") 0
  else mkCheck true (sensor_name t +:+ " in " +:+ domain_name sensor_domain +:+ " can detect " +:+
                     domain_name target_domain +:+ " targets") (cross_domain_modifier sensor_domain target_domain).

(** ** Theorems *)

(** Names and codes of the three domains are read back, in any case; nothing is read as
    unspecified. *)
Theorem domain_parse_roundtrip d :
  (d <> DomainUnspecified -> domain_parse (domain_name d) = Some d /\ domain_parse (domain_code d) = Some d) /\
  (forall s, domain_parse s <> Some DomainUnspecified) /\
  domain_try_from (domain_to_i32 d) = Some d.
Proof.
  split_and!; [by destruct d|..|by destruct d]. intros s. unfold domain_parse. by repeat case_match.
Qed.

Definition named (d : Domain) : Prop := d <> DomainUnspecified.

Lemma set_ext s t : (forall d, named d -> set_contains s d = set_contains t d) -> s = t.
Proof.
  destruct s as [a b c], t as [a' b' c']. intros H. f_equal; [apply (H Subsurface)|apply (H Surface)|apply (H Air)]; done.
Qed.

Lemma contains_add s d x : named x -> set_contains (set_add s d) x = bool_decide (x = d) || set_contains s x.
Proof. by destruct s, d, x. Qed.

Lemma contains_remove s d x : named x -> set_contains (set_remove s d) x = negb (bool_decide (x = d)) && set_contains s x.
Proof. by destruct s, d, x. Qed.

Lemma contains_union s t x : set_contains (set_union s t) x = set_contains s x || set_contains t x.
Proof. by destruct x. Qed.

Lemma contains_intersection s t x : set_contains (set_intersection s t) x = set_contains s x && set_contains t x.
Proof. by destruct x. Qed.

Lemma contains_fold l s x : named x -> set_contains (fold_left set_add l s) x = bool_decide (x ∈ l) || set_contains s x.
Proof.
  intros Hx. revert s. induction l as [|d l IH]; intros s; cbn [fold_left]; [done|]. rewrite IH, contains_add by done.
  destruct (decide (x = d)) as [->|Hd].
  - rewrite (bool_decide_eq_true_2 (d = d)), (bool_decide_eq_true_2 (d ∈ d :: l)) by (done || by left).
    by rewrite orb_true_r.
  - rewrite (bool_decide_eq_false_2 (x = d)) by done.
    by rewrite (bool_decide_ext (x ∈ d :: l) (x ∈ l)) by set_solver.
Qed.

(** The three flags are the powerset of the named domains: conversion to a vector and
    back is the identity, the vector has no repetitions, its length is the count, and
    the operations are those of sets. *)
Theorem domain_set_is_powerset s t d :
  from_domains (set_to_vec s) = s /\ NoDup (set_to_vec s) /\ len (set_to_vec s) = set_count s /\
  (set_is_empty s = true <-> s = empty_set) /\
  (named d -> (d ∈ set_to_vec (set_add s d)) /\ (d ∉ set_to_vec (set_remove s d))) /\
  (forall x, x ∈ set_to_vec (set_union s t) <-> x ∈ set_to_vec s \/ x ∈ set_to_vec t) /\
  (forall x, x ∈ set_to_vec (set_intersection s t) <-> x ∈ set_to_vec s /\ x ∈ set_to_vec t).
Proof.
  assert (forall s x, x ∈ set_to_vec s <-> set_contains s x = true /\ x ∈ all_domains) as Hv
    by (intros s0 x; unfold set_to_vec; by rewrite list_elem_of_filter).
  assert (forall x, named x -> x ∈ all_domains) as Hall by (intros [] Hx; [done|unfold all_domains; set_solver..]).
  split_and!.
  - apply set_ext. intros x Hx. unfold from_domains. rewrite contains_fold by done.
    destruct (bool_decide_reflect (x ∈ set_to_vec s)) as [Hin|Hin]; [symmetry; by apply Hv in Hin as [-> _]|].
    destruct (set_contains s x) eqn:E; [|by destruct x]. destruct Hin. apply Hv. auto.
  - apply NoDup_filter. by apply (bool_decide_unpack _).
  - by destruct s as [[] [] []].
  - by destruct s as [[] [] []].
  - intros Hd. split; [|rewrite Hv, contains_remove, bool_decide_eq_true_2 by done; naive_solver].
    apply Hv. rewrite contains_add, bool_decide_eq_true_2 by done. auto.
  - intros x. rewrite !Hv, contains_union, orb_true_iff. tauto.
  - intros x. rewrite !Hv, contains_intersection, andb_true_iff. tauto.
Qed.

(** A check succeeds exactly when the sensor works where it is and sees where the target
    is; an unspecified target, documented as a surface one, is seen by every sensor. *)
Theorem detection_check_spec source t target :
  dc_can_detect (detection_check source t target) =
    set_contains (operating_domains t) source && set_contains (detection_domains t) target /\
  -2 <= modifier (detection_check source t target) <= 1 /\
  dc_can_detect (detection_check Air Mad DomainUnspecified) = true /\
  dc_can_detect (detection_check Air Mad Surface) = false.
Proof.
  split_and!; [| | |done..].
  - unfold detection_check. by destruct (set_contains (operating_domains t) source), (set_contains (detection_domains t) target).
  - destruct source, t, target; apply Z.leb_le; reflexivity.
  - destruct source, t, target; apply Z.leb_le; reflexivity.
Qed.
