(* ===== verification/Composition.v ===== *)
(** * Composition of capabilities

    Models peat-protocol/src/composition: the rule trait and its context (rules.rs), the
    engine (engine.rs) and the eleven rules (additive.rs, redundant.rs, constraint.rs,
    emergent.rs). A rule is a record of its methods, as the code keeps rules behind
    [Arc<dyn CompositionRule>]. Metadata is parsed and printed through [SerdeJson].
    Fresh identifiers are an argument of [compose]. [unwrap] on a missing value and on
    the comparison with a NaN panics: the outcome of [compose] is an [option]. *)

From S2P Require Import Prelude Float Error Capability Operator Node Formation Json Domain.
From stdpp Require Import pretty.
From Stdlib Require Import SpecFloat.

Open Scope Z_scope.

(** ** Comparisons that may panic *)

(** [max_by(|a, b| a.partial_cmp(b).unwrap())]: the last of the greatest; comparing with
    a NaN panics. *)
Fixpoint max_from {A} (key : A -> spec_float) (best : A) (l : list A) : option A :=
  match l with
  | [] => Some best
  | x :: l => c ← SFcompare (key best) (key x);
              max_from key (match c with Gt => best | _ => x end) l
  end.

Definition max_by_float {A} (key : A -> spec_float) (l : list A) : option (option A) :=
  match l with [] => Some None | x :: l => Some <$> max_from key x l end.

(** [min_by]: the first of the least *)
Fixpoint min_from {A} (key : A -> spec_float) (best : A) (l : list A) : option A :=
  match l with
  | [] => Some best
  | x :: l => c ← SFcompare (key best) (key x);
              min_from key (match c with Gt => x | _ => best end) l
  end.

Definition min_by_float {A} (key : A -> spec_float) (l : list A) : option (option A) :=
  match l with [] => Some None | x :: l => Some <$> min_from key x l end.

(** ** Rules *)

Record CompositionContext := mkContext {
  ctx_node_ids : list string;
  ctx_cell_id : option string;
  ctx_timestamp : Z;
  node_configs : list NodeConfig
}.

Definition context_new (ids : list string) (now : Z) : CompositionContext := mkContext ids None now [].
Definition with_cell_id (c : CompositionContext) (id : string) : CompositionContext :=
  mkContext (ctx_node_ids c) (Some id) (ctx_timestamp c) (node_configs c).
Definition with_node_configs (c : CompositionContext) (configs : list NodeConfig) : CompositionContext :=
  mkContext (ctx_node_ids c) (ctx_cell_id c) (ctx_timestamp c) configs.

Definition node_authority (n : NodeConfig) : option AuthorityLevel := b ← operator_binding n; max_authority b.

Definition ctx_max_authority (c : CompositionContext) : option AuthorityLevel :=
  max_by (fun a b => authority_to_i32 a ?= authority_to_i32 b) (omap node_authority (node_configs c)).

Definition has_commander (c : CompositionContext) : bool := bool_decide (ctx_max_authority c = Some Commander).

(** [x.round() as i32] of a small non-negative number: halves away from zero *)
Definition round_i32 (x : spec_float) : Z :=
  match x with
  | S754_finite s m e =>
      let r := if 0 <=? e then Zpos m * 2 ^ e else (2 * Zpos m + 2 ^ (- e)) / (2 * 2 ^ (- e)) in
      if s then - r else r
  | _ => 0
  end.

Definition authorization_bonus (c : CompositionContext) : Z :=
  match ctx_max_authority c with
  | Some auth => round_i32 (SFmul 53 1024 (authority_to_score auth) (f64_of_Z 5))
  | None => 0
  end.

Record CompositionResult := mkResult {
  composed_capabilities : list Capability;
  cr_confidence : spec_float;
  contributing_capabilities : list string
}.

Definition result_new (caps : list Capability) (confidence : spec_float) : CompositionResult :=
  mkResult caps confidence [].
Definition with_contributors (r : CompositionResult) (ids : list string) : CompositionResult :=
  mkResult (composed_capabilities r) (cr_confidence r) ids.
Definition has_compositions (r : CompositionResult) : bool :=
  match composed_capabilities r with [] => false | _ => true end.

Definition nothing : CompositionResult := result_new [] f32_zero.

Record CompositionRule := mkRule {
  rule_name : string;
  rule_description : string;
  applies_to : list Capability -> bool;
  compose : list Capability -> CompositionContext -> string -> option (result Error CompositionResult)
}.

(** ** Engine *)

Record CompositionEngine := mkEngine { rules : list CompositionRule }.

Definition engine_new : CompositionEngine := mkEngine [].
Definition register_rule (e : CompositionEngine) (r : CompositionRule) : CompositionEngine := mkEngine (rules e ++ [r]).
Definition rule_count (e : CompositionEngine) : Z := len (rules e).

(** [uuids] is the supply of fresh identifiers, one for each rule. *)
Fixpoint apply_rules (rs : list CompositionRule) (caps : list Capability) (ctx : CompositionContext)
    (uuids : nat -> string) : option (result Error (list CompositionResult)) :=
  match rs with
  | [] => Some (Ok [])
  | r :: rs =>
      let rest := apply_rules rs caps ctx (fun n => uuids (S n)) in
      if applies_to r caps then
        res ← compose r caps ctx (uuids O);
        match res with
        | Err e => Some (Err e)
        | Ok c => (fun rest => match rest with
                               | Ok l => Ok (if has_compositions c then c :: l else l)
                               | Err e => Err e
                               end) <$> rest
        end
      else rest
  end.

Definition engine_compose (e : CompositionEngine) := apply_rules (rules e).

Definition compose_all (e : CompositionEngine) (caps : list Capability) (ctx : CompositionContext)
    (uuids : nat -> string) : option (result Error (list Capability)) :=
  res ← engine_compose e caps ctx uuids;
  Some (let? results := res in Ok (concat (composed_capabilities <$> results))).

(** ** Metadata *)

Section Rules.
Context `{SerdeJson}.

Definition metadata (c : Capability) : option Json := from_str (metadata_json c).
Definition meta (key : string) (c : Capability) : option Json := v ← metadata c; json_get key v.
Definition meta_f64 (key : string) (c : Capability) : option spec_float := v ← meta key c; as_f64 v.
Definition meta_str (key : string) (c : Capability) : option string := v ← meta key c; as_str v.
Definition meta_bool (key : string) (c : Capability) : option bool := v ← meta key c; as_bool v.
Definition has_meta (key : string) (c : Capability) : bool := bool_decide (is_Some (meta key c)).

Definition of_type (ty : CapabilityType) (c : Capability) : bool := bool_decide (get_capability_type c = ty).
Definition select (P : Capability -> bool) (caps : list Capability) : list Capability := filter (fun c => P c = true) caps.

Definition with_metadata (c : Capability) (v : Json) : Capability :=
  mkCapability (id c) (name c) (capability_type c) (confidence c) (to_string v) (registered_at c).

Definition composed (prefix uuid title : string) (conf : spec_float) (v : Json) : Capability :=
  with_metadata (capability_new (prefix +:+ uuid) title Emergent conf) v.

Definition sum64 (l : list spec_float) : spec_float := fold_left (SFadd 53 1024) l (S754_zero true).

Definition average_confidence (caps : list Capability) : spec_float :=
  div32 (fold_left add32 (confidence <$> caps) (S754_zero true)) (f32_of_Z (len caps)).

Definition compose_ok (c : Capability) (conf : spec_float) (contributors : list Capability)
    : option (result Error CompositionResult) :=
  Some (Ok (with_contributors (result_new [c] conf) (id <$> contributors))).

(** ** Additive rules *)

Definition additive_compose (ty : CapabilityType) (key count_key prefix title : string) (minimum : Z)
    (caps : list Capability) (uuid : string) : option (result Error CompositionResult) :=
  let found := select (of_type ty) caps in
  if len found <? minimum then Some (Ok nothing)
  else
    let total := sum64 (omap (meta_f64 key) found) in
    let avg := average_confidence found in
    let c := composed prefix uuid title avg
      (JObject [(key, json_f64 total); (count_key, JInt (len found)); ("composition_type"%string, JString "additive")]) in
    compose_ok c avg found.

Definition SensorCoverageRule (min_sensors : Z) : CompositionRule :=
  mkRule "sensor_coverage" "Composes additive sensor coverage from multiple sensor capabilities"
    (fun caps => min_sensors <=? len (select (of_type Sensor) caps))
    (fun caps _ => additive_compose Sensor "coverage_area" "sensor_count" "composed_sensor_coverage_"
       "Aggregate Sensor Coverage" min_sensors caps).

Definition PayloadCapacityRule (min_payloads : Z) : CompositionRule :=
  mkRule "payload_capacity" "Composes additive payload capacity from multiple payload capabilities"
    (fun caps => min_payloads <=? len (select (of_type Payload) caps))
    (fun caps _ => additive_compose Payload "lift_capacity" "payload_count" "composed_payload_capacity_"
       "Aggregate Payload Capacity" min_payloads caps).

Definition CommunicationBandwidthRule (min_comms : Z) : CompositionRule :=
  mkRule "communication_bandwidth"
    "Composes additive communication bandwidth from multiple communication capabilities"
    (fun caps => min_comms <=? len (select (of_type Communication) caps))
    (fun caps _ => additive_compose Communication "bandwidth" "comm_count" "composed_comm_bandwidth_"
       "Aggregate Communication Bandwidth" min_comms caps).

(** ** Redundant rules *)

Definition sub32 := SFsub 24 128.

(** [combined_confidence] and [system_reliability] *)
Definition combined_confidence (confidences : list spec_float) : spec_float :=
  sub32 f32_one (fold_left mul32 ((fun c => sub32 f32_one c) <$> confidences) f32_one).

Definition qualified (ty : CapabilityType) (minimum : spec_float) (c : Capability) : bool :=
  of_type ty c && SFleb minimum (confidence c).

Definition detection_compose (min_sensors : Z) (min_confidence : spec_float) (caps : list Capability) (uuid : string)
    : option (result Error CompositionResult) :=
  let sensors := select (qualified Sensor min_confidence) caps in
  if len sensors <? min_sensors then Some (Ok nothing)
  else
    let confidences := confidence <$> sensors in
    let combined := combined_confidence confidences in
    let total := sum64 (omap (meta_f64 "coverage_area") sensors) in
    let c := composed "redundant_detection_" uuid "Redundant Detection" combined
      (JObject [("composition_type", JString "redundant"); ("pattern", JString "detection_reliability");
                ("sensor_count", JInt (len sensors)); ("coverage_area", json_f64 total);
                ("individual_confidences", JArray (json_f32 <$> confidences));
                ("reliability_improvement", json_f32 (sub32 combined (fold_left float_max confidences f32_zero)));
                ("description", JString "Improved detection through sensor redundancy")]%string) in
    compose_ok c combined sensors.

Definition DetectionReliabilityRule (min_sensors : Z) (min_confidence : spec_float) : CompositionRule :=
  mkRule "detection_reliability" "Improves detection confidence through redundant sensor coverage"
    (fun caps => min_sensors <=? len (select (qualified Sensor min_confidence) caps))
    (fun caps _ => detection_compose min_sensors min_confidence caps).

Definition covering (c : Capability) : bool := of_type Sensor c && has_meta "coverage_area" c.

Definition overlap_factor (n : Z) : spec_float :=
  if 1 <? n then add32 (f32_lit 2 10) (mul32 (sub32 (f32_of_Z n) f32_one) (f32_lit 1 10)) else f32_zero.

Definition coverage_compose (min_nodes : Z) (caps : list Capability) (ctx : CompositionContext) (uuid : string)
    : option (result Error CompositionResult) :=
  let sensors := select covering caps in
  if len sensors <? min_nodes then Some (Ok nothing)
  else
    let total := sum64 (omap (meta_f64 "coverage_area") sensors) in
    let overlap := overlap_factor (len sensors) in
    let conf := float_min (add32 (average_confidence sensors) (mul32 overlap (f32_lit 2 10))) f32_one in
    let c := composed "continuous_coverage_" uuid "Continuous Coverage" conf
      (JObject [("composition_type", JString "redundant"); ("pattern", JString "continuous_coverage");
                ("node_count", JInt (len sensors)); ("total_coverage_area", json_f64 total);
                ("estimated_overlap", json_f32 overlap);
                ("coverage_redundancy", json_f32 (mul32 (f32_of_Z (len sensors)) overlap));
                ("cell_id", json_option JString (ctx_cell_id ctx));
                ("description", JString "Continuous monitoring through overlapping coverage")]%string) in
    compose_ok c conf sensors.

(** The minimum overlap is stored and never used. *)
Definition ContinuousCoverageRule (min_nodes : Z) : CompositionRule :=
  mkRule "continuous_coverage" "Ensures continuous area coverage through temporal overlap of multiple nodes"
    (fun caps => min_nodes <=? len (select covering caps)) (coverage_compose min_nodes).

Definition fault_compose (min_redundancy : Z) (ty : CapabilityType) (caps : list Capability) (uuid : string)
    : option (result Error CompositionResult) :=
  let found := select (of_type ty) caps in
  if len found <? min_redundancy then Some (Ok nothing)
  else
    let confidences := confidence <$> found in
    let reliability := combined_confidence confidences in
    let t := type_name ty in
    let c := composed ("fault_tolerant_" +:+ t +:+ "_") uuid ("Fault-Tolerant " +:+ t) reliability
      (JObject [("composition_type", JString "redundant"); ("pattern", JString "fault_tolerance");
                ("base_capability_type", JString t); ("redundancy_level", JInt (len found));
                ("system_reliability", json_f32 reliability);
                ("individual_reliabilities", JArray (json_f32 <$> confidences));
                ("description", JString ("Fault-tolerant " +:+ t +:+ " with " +:+ pretty (len found) +:+ "-way redundancy"))]%string) in
    compose_ok c reliability found.

Definition FaultToleranceRule (min_redundancy : Z) (ty : CapabilityType) : CompositionRule :=
  mkRule "fault_tolerance" "Provides fault-tolerant capability through redundant systems"
    (fun caps => min_redundancy <=? len (select (of_type ty) caps))
    (fun caps _ => fault_compose min_redundancy ty caps).

(** ** Constraint rules *)

Definition constrained (ty : option CapabilityType) (key : string) (c : Capability) : bool :=
  match ty with Some ty => of_type ty c | None => true end && has_meta key c.

Definition value_or_zero (key : string) (c : Capability) : spec_float := default (S754_zero false) (meta_f64 key c).

Definition slowest_compose (ty : option CapabilityType) (key prefix title pattern value_key list_key description : string)
    (min_nodes : Z) (caps : list Capability) (uuid : string) : option (result Error CompositionResult) :=
  let found := select (constrained ty key) caps in
  if len found <? min_nodes then Some (Ok nothing)
  else
    let values := omap (meta_f64 key) found in
    let least := fold_left float_min values (S754_infinity false) in
    limiting ← mjoin (min_by_float (value_or_zero key) found);
    let c := composed prefix uuid title (confidence limiting)
      (JObject [("composition_type", JString "constraint"); ("pattern", JString pattern); (value_key, json_f64 least);
                ("node_count", JInt (len found)); ("limiting_node", JString (id limiting));
                (list_key, JArray (json_f64 <$> values)); ("description", JString description)]%string) in
    compose_ok c (confidence limiting) found.

Definition TeamSpeedConstraintRule (min_nodes : Z) : CompositionRule :=
  mkRule "team_speed_constraint" "Determines team movement speed based on slowest member constraint"
    (fun caps => min_nodes <=? len (select (constrained (Some Mobility) "max_speed") caps))
    (fun caps _ => slowest_compose (Some Mobility) "max_speed" "constraint_team_speed_" "Team Speed" "team_speed"
       "team_speed" "individual_speeds" "Team movement speed constrained by slowest member" min_nodes caps).

Definition MissionDurationConstraintRule (min_nodes : Z) : CompositionRule :=
  mkRule "mission_duration_constraint" "Determines maximum mission duration based on shortest node endurance"
    (fun caps => min_nodes <=? len (select (constrained None "endurance_minutes") caps))
    (fun caps _ => slowest_compose None "endurance_minutes" "constraint_mission_duration_" "Team Mission Duration"
       "mission_duration" "mission_duration_minutes" "individual_endurances"
       "Mission duration constrained by shortest endurance" min_nodes caps).

Definition range_compose (min_nodes : Z) (has_mesh : bool) (caps : list Capability) (uuid : string)
    : option (result Error CompositionResult) :=
  let found := select (constrained (Some Communication) "range") caps in
  if len found <? min_nodes then Some (Ok nothing)
  else
    let ranges := omap (meta_f64 "range") found in
    let effective := if has_mesh then fold_left float_max ranges (S754_zero false)
                     else fold_left float_min ranges (S754_infinity false) in
    limiting ← mjoin ((if has_mesh then max_by_float else min_by_float) (value_or_zero "range") found);
    let avg := average_confidence found in
    let c := composed "constraint_comm_range_" uuid "Team Communication Range" avg
      (JObject [("composition_type", JString "constraint"); ("pattern", JString "communication_range");
                ("effective_range", json_f64 effective); ("mesh_enabled", JBool has_mesh);
                ("limiting_factor", JString (if has_mesh then "mesh_enabled" else "direct_comms_only"));
                ("limiting_node", JString (id limiting)); ("node_count", JInt (len found));
                ("individual_ranges", JArray (json_f64 <$> ranges));
                ("description", JString (if has_mesh then "Extended range through mesh networking"
                                         else "Range constrained by weakest link"))]%string) in
    compose_ok c avg found.

Definition CommunicationRangeConstraintRule (min_nodes : Z) (has_mesh : bool) : CompositionRule :=
  mkRule "communication_range_constraint" "Determines effective communication range based on mesh capability"
    (fun caps => min_nodes <=? len (select (constrained (Some Communication) "range") caps))
    (fun caps _ => range_compose min_nodes has_mesh caps).

(** ** Emergent rules *)

Definition best_of_type (ty : CapabilityType) (caps : list Capability) : option (option Capability) :=
  max_by_float confidence (select (of_type ty) caps).

Definition chain (prefix title pattern description : string) (parts : list (string * Capability)) (extra : list (string * Json))
    (uuid : string) (first : Capability) (others : list Capability) : option (result Error CompositionResult) :=
  let conf := fold_left (fun acc c => float_min acc (confidence c)) others (confidence first) in
  let c := composed prefix uuid title conf
    (JObject ([("composition_type", JString "emergent"); ("pattern", JString pattern);
               ("components", JObject ((fun p => (fst p, JString (id (snd p)))) <$> parts));
               ("description", JString description)]%string ++ extra)) in
  compose_ok c conf (first :: others).

Definition isr_compose (caps : list Capability) (uuid : string) : option (result Error CompositionResult) :=
  best_sensor ← best_of_type Sensor caps;
  best_compute ← best_of_type Compute caps;
  best_comms ← best_of_type Communication caps;
  match best_sensor, best_compute, best_comms with
  | Some sensor, Some compute, Some comms =>
      chain "emergent_isr_chain_" "ISR Chain" "isr_chain" "Complete intelligence gathering capability"
        [("sensor", sensor); ("compute", compute); ("communication", comms)]%string [] uuid sensor [compute; comms]
  | _, _, _ => Some (Ok nothing)
  end.

Definition IsrChainRule (min_confidence : spec_float) : CompositionRule :=
  mkRule "isr_chain" "Detects emergent ISR chain capability from sensor + compute + communication"
    (fun caps => existsb (qualified Sensor min_confidence) caps && existsb (qualified Compute min_confidence) caps &&
                 existsb (qualified Communication min_confidence) caps)
    (fun caps _ => isr_compose caps).

Definition sensor_is (kind : string) (c : Capability) : bool := bool_decide (meta_str "sensor_type" c = Some kind).

Definition mapping_compose (caps : list Capability) (uuid : string) : option (result Error CompositionResult) :=
  let camera := find (fun c => of_type Sensor c && sensor_is "camera" c) caps in
  let lidar := find (fun c => of_type Sensor c && sensor_is "lidar" c) caps in
  best_compute ← best_of_type Compute caps;
  match camera, lidar, best_compute with
  | Some camera, Some lidar, Some compute =>
      chain "emergent_3d_mapping_" "3D Mapping" "3d_mapping" "Real-time 3D environment mapping"
        [("camera", camera); ("lidar", lidar); ("compute", compute)]%string [] uuid camera [lidar; compute]
  | _, _, _ => Some (Ok nothing)
  end.

Definition Mapping3dRule (min_confidence : spec_float) : CompositionRule :=
  mkRule "mapping_3d" "Detects emergent 3D mapping capability from camera + lidar + compute"
    (fun caps => existsb (fun c => qualified Sensor min_confidence c && sensor_is "camera" c) caps &&
                 existsb (fun c => qualified Sensor min_confidence c && sensor_is "lidar" c) caps &&
                 existsb (qualified Compute min_confidence) caps)
    (fun caps _ => mapping_compose caps).

Definition is_isr_pattern (c : Capability) : bool := bool_decide (meta_str "pattern" c = Some "isr_chain"%string).
Definition is_isr_capable (c : Capability) : bool := default false (meta_bool "isr_capable" c).
Definition is_strike_capable (c : Capability) : bool := default false (meta_bool "strike_capable" c).

Definition strike_compose (caps : list Capability) (uuid : string) : option (result Error CompositionResult) :=
  let isr := find (fun c => of_type Emergent c && is_isr_pattern c) caps in
  strike ← max_by_float confidence (select (fun c => of_type Payload c && is_strike_capable c) caps);
  bda ← best_of_type Sensor caps;
  match isr, strike, bda with
  | Some isr, Some strike, Some bda =>
      chain "emergent_strike_chain_" "Strike Chain" "strike_chain" "Complete targeting cycle with assessment"
        [("isr", isr); ("strike", strike); ("bda", bda)]%string [("requires_human_approval"%string, JBool true)]
        uuid isr [strike; bda]
  | _, _, _ => Some (Ok nothing)
  end.

Definition StrikeChainRule (min_confidence : spec_float) : CompositionRule :=
  mkRule "strike_chain" "Detects emergent strike chain capability from ISR + strike + BDA"
    (fun caps =>
       existsb (fun c => qualified Emergent min_confidence c &&
                         bool_decide (is_Some (metadata c)) && (is_isr_pattern c || is_isr_capable c)) caps &&
       existsb (fun c => qualified Payload min_confidence c && is_strike_capable c) caps &&
       existsb (qualified Sensor min_confidence) caps)
    (fun caps _ => strike_compose caps).

Definition authority_ge (a b : AuthorityLevel) : bool := authority_to_i32 b <=? authority_to_i32 a.

Definition authority_name (a : AuthorityLevel) : string :=
  match a with
  | AuthorityUnspecified => "Unspecified" | Observer => "Observer" | Advisor => "Advisor"
  | Supervisor => "Supervisor" | Commander => "Commander"
  end.

Definition authorizes (min_authority : AuthorityLevel) (n : NodeConfig) : bool :=
  match node_authority n with Some a => authority_ge a min_authority | None => false end.

Definition authorization_compose (min_authority : AuthorityLevel) (caps : list Capability) (ctx : CompositionContext)
    (uuid : string) : option (result Error CompositionResult) :=
  best_comms ← best_of_type Communication caps;
  match best_comms, ctx_max_authority ctx with
  | Some comms, Some authority =>
      if authority_ge authority min_authority then
        let auth_score := f64_as_f32 (authority_to_score authority) in
        let conf := float_min (add32 (mul32 (confidence comms) (f32_lit 4 10)) (mul32 auth_score (f32_lit 6 10))) f32_one in
        let authorizing_node := nc_id <$> find (authorizes min_authority) (node_configs ctx) in
        let c := composed "emergent_auth_coverage_" uuid "Authorization Coverage" conf
          (JObject [("composition_type", JString "emergent"); ("pattern", JString "authorization_coverage");
                    ("components", JObject [("communication", JString (id comms));
                                            ("authorizing_node", json_option JString authorizing_node)]);
                    ("authority_level", JString (authority_name authority));
                    ("authorization_bonus", JInt (authorization_bonus ctx));
                    ("can_authorize_strike", JBool (bool_decide (authority = Commander)));
                    ("description", JString "Human-in-the-loop authorization capability")]%string) in
        compose_ok c conf [comms]
      else Some (Ok nothing)
  | _, _ => Some (Ok nothing)
  end.

Definition AuthorizationCoverageRule (min_authority : AuthorityLevel) : CompositionRule :=
  mkRule "authorization_coverage"
    "Detects authorization coverage from communication + human operator with sufficient authority"
    (existsb (of_type Communication)) (authorization_compose min_authority).

Definition commander_required : CompositionRule := AuthorizationCoverageRule Commander.
Definition supervisor_required : CompositionRule := AuthorizationCoverageRule Supervisor.

(** *** Several domains *)

Definition sensor_type_of (s : string) : option SensorType :=
  let s := to_lowercase s in
  if one_of s ["electro_optical"; "eo"; "camera"]%string then Some ElectroOptical
  else if one_of s ["infrared"; "ir"; "thermal"]%string then Some Infrared
  else if one_of s ["radar"; "rad"]%string then Some Radar
  else if one_of s ["sonar"; "son"]%string then Some Sonar
  else if one_of s ["acoustic"; "aco"]%string then Some Acoustic
  else if one_of s ["sigint"; "sig"; "signals_intelligence"]%string then Some Sigint
  else if one_of s ["mad"; "magnetic"]%string then Some Mad
  else None.

Definition explicit_domains (l : list Json) : DomainSet :=
  fold_left (fun set d => match as_str d ≫= domain_parse with Some domain => set_add set domain | None => set end) l empty_set.

Definition get_sensor_domains (c : Capability) : DomainSet :=
  if of_type Sensor c then
    match meta_str "sensor_type" c ≫= sensor_type_of with
    | Some t => detection_domains t
    | None => match meta "detection_domains" c ≫= as_array with
              | Some l => explicit_domains l
              | None => from_domains [Surface; Air]
              end
    end
  else empty_set.

(** [if cap.confidence < self.min_confidence { continue }] *)
Definition trusted (min_confidence : spec_float) (c : Capability) : bool := negb (SFltb (confidence c) min_confidence).

Definition covered_domains (min_confidence : spec_float) (caps : list Capability) : DomainSet :=
  fold_left (fun s c => set_union s (get_sensor_domains c)) (select (trusted min_confidence) caps) empty_set.

Definition coverage_name (n : Z) : string :=
  match n with 3 => "Full Spectrum Coverage" | 2 => "Dual-Domain Coverage" | _ => "Domain Coverage" end.

Definition multi_domain_compose (min_domains : Z) (min_confidence : spec_float) (caps : list Capability) (uuid : string)
    : option (result Error CompositionResult) :=
  let contributors := select (fun c => trusted min_confidence c && negb (set_is_empty (get_sensor_domains c))) caps in
  let covered := fold_left (fun s c => fold_left set_add (set_to_vec (get_sensor_domains c)) s) contributors empty_set in
  let lowest := fold_left (fun m c => float_min m (confidence c)) contributors f32_one in
  let n := set_count covered in
  if n <? min_domains then Some (Ok nothing)
  else
    let bonus := if n =? 3 then 3 else if n =? 2 then 2 else 1 in
    let conf := float_min (add32 lowest (mul32 (f32_of_Z bonus) (f32_lit 5 100))) f32_one in
    let sensors d := select (fun c => set_contains (get_sensor_domains c) d) contributors in
    let c := composed "emergent_multi_domain_" uuid (coverage_name n) conf
      (JObject [("composition_type", JString "emergent"); ("pattern", JString "multi_domain_coverage");
                ("domains_covered", JArray ((fun d => JString (domain_name d)) <$> set_to_vec covered));
                ("domain_count", JInt n); ("coverage_bonus", JInt bonus);
                ("domain_sensors", JObject ((fun d => (to_lowercase (domain_name d),
                   JArray ((fun c => JString (id c)) <$> sensors d))) <$> set_to_vec covered));
                ("is_full_spectrum", JBool (n =? 3)%Z); ("can_detect_subsurface", JBool (set_contains covered Subsurface));
                ("description", JString ("Multi-domain awareness across " +:+ pretty n +:+ " domains"))]%string) in
    compose_ok c conf contributors.

(** [new] raises the required number of domains to at least two. *)
Definition MultiDomainCoverageRule (min_domains : Z) (min_confidence : spec_float) : CompositionRule :=
  let min_domains := Z.max min_domains 2 in
  mkRule "multi_domain_coverage" "Detects multi-domain coverage from sensors spanning air, surface, and/or subsurface"
    (fun caps => min_domains <=? set_count (covered_domains min_confidence caps))
    (fun caps _ => multi_domain_compose min_domains min_confidence caps).

Definition full_spectrum : CompositionRule := MultiDomainCoverageRule 3 (f32_lit 7 10).
Definition dual_domain : CompositionRule := MultiDomainCoverageRule 2 (f32_lit 7 10).

(** The rules with the defaults of the source *)
Definition default_rules : list CompositionRule :=
  [SensorCoverageRule 2; PayloadCapacityRule 2; CommunicationBandwidthRule 2;
   DetectionReliabilityRule 2 (f32_lit 6 10); ContinuousCoverageRule 2; FaultToleranceRule 3 Communication;
   TeamSpeedConstraintRule 2; CommunicationRangeConstraintRule 2 false; MissionDurationConstraintRule 2;
   IsrChainRule (f32_lit 7 10); Mapping3dRule (f32_lit 7 10); StrikeChainRule (f32_lit 8 10);
   commander_required; dual_domain].

End Rules.

(** ** Choosing the best and the least *)

Lemma max_from_spec {A} (key : A -> spec_float) best (l : list A) :
  key best <> S754_nan -> (forall x, x ∈ l -> key x <> S754_nan) ->
  exists m, max_from key best l = Some m /\ m ∈ best :: l /\
    forall x, x ∈ best :: l -> SFleb (key x) (key m) = true.
Proof.
  revert best. induction l as [|x l IH]; intros best Hb Hl; cbn [max_from].
  { exists best. split_and!; [done|by left|]. intros y Hy. apply list_elem_of_singleton in Hy as ->. by apply SFleb_refl. }
  destruct (SFcompare_Some (key best) (key x) Hb (Hl x ltac:(by left))) as [c E]. rewrite E. cbn [mbind option_bind].
  set (next := match c with Gt => best | _ => x end).
  assert (next ∈ [best; x] /\ SFleb (key best) (key next) = true /\ SFleb (key x) (key next) = true) as (Hn & H1 & H2).
  { pose proof (SFcompare_swap _ _ _ E) as E'. pose proof (SFleb_refl _ Hb). pose proof (SFleb_refl _ (Hl x ltac:(by left))).
    subst next. unfold SFleb in *. destruct c; rewrite ?E, ?E'; (split_and!; [by repeat constructor|done..]). }
  destruct (IH next) as (m & Hm & Hin & Hmax); [apply (SFleb_not_nan _ _ H1)|intros y Hy; apply Hl; by right|].
  exists m. split_and!; [done| |]; [clear - Hn Hin; set_solver|]. intros y [->|[->|Hy]%elem_of_cons]%elem_of_cons.
  - eapply SFleb_trans; [exact H1|]. apply Hmax. by left.
  - eapply SFleb_trans; [exact H2|]. apply Hmax. by left.
  - apply Hmax. by right.
Qed.

Lemma min_from_spec {A} (key : A -> spec_float) best (l : list A) :
  key best <> S754_nan -> (forall x, x ∈ l -> key x <> S754_nan) ->
  exists m, min_from key best l = Some m /\ m ∈ best :: l /\
    forall x, x ∈ best :: l -> SFleb (key m) (key x) = true.
Proof.
  revert best. induction l as [|x l IH]; intros best Hb Hl; cbn [min_from].
  { exists best. split_and!; [done|by left|]. intros y Hy. apply list_elem_of_singleton in Hy as ->. by apply SFleb_refl. }
  destruct (SFcompare_Some (key best) (key x) Hb (Hl x ltac:(by left))) as [c E]. rewrite E. cbn [mbind option_bind].
  set (next := match c with Gt => x | _ => best end).
  assert (next ∈ [best; x] /\ SFleb (key next) (key best) = true /\ SFleb (key next) (key x) = true) as (Hn & H1 & H2).
  { pose proof (SFcompare_swap _ _ _ E) as E'. pose proof (SFleb_refl _ Hb). pose proof (SFleb_refl _ (Hl x ltac:(by left))).
    subst next. unfold SFleb in *. destruct c; rewrite ?E, ?E'; (split_and!; [by repeat constructor|done..]). }
  destruct (IH next) as (m & Hm & Hin & Hmin); [apply (SFleb_not_nan _ _ H1)|intros y Hy; apply Hl; by right|].
  exists m. split_and!; [done| |]; [clear - Hn Hin; set_solver|]. intros y [->|[->|Hy]%elem_of_cons]%elem_of_cons.
  - eapply SFleb_trans; [|exact H1]. apply Hmin. by left.
  - eapply SFleb_trans; [|exact H2]. apply Hmin. by left.
  - apply Hmin. by right.
Qed.

(** [is_best key l o]: the outcome of [max_by] on numbers *)
Definition is_best {A} (key : A -> spec_float) (l : list A) (o : option A) : Prop :=
  match o with
  | Some m => m ∈ l /\ forall x, x ∈ l -> SFleb (key x) (key m) = true
  | None => l = []
  end.

Lemma max_by_float_spec {A} (key : A -> spec_float) (l : list A) :
  (forall x, x ∈ l -> key x <> S754_nan) -> exists o, max_by_float key l = Some o /\ is_best key l o.
Proof.
  intros Hl. destruct l as [|x l]; [by exists None|].
  destruct (max_from_spec key x l) as (m & Hm & Hin & Hmax); [apply Hl; by left|intros y Hy; apply Hl; by right|].
  exists (Some m). cbn [max_by_float]. by rewrite Hm.
Qed.

Lemma max_from_elem {A} (key : A -> spec_float) best (l : list A) m : max_from key best l = Some m -> m ∈ best :: l.
Proof.
  revert best. induction l as [|x l IH]; intros best; cbn [max_from]; [intros [= ->]; by left|].
  destruct (SFcompare _ _) as [c|]; [|done]. cbn [mbind option_bind]. intros E%IH. destruct c; set_solver.
Qed.

Lemma min_from_elem {A} (key : A -> spec_float) best (l : list A) m : min_from key best l = Some m -> m ∈ best :: l.
Proof.
  revert best. induction l as [|x l IH]; intros best; cbn [min_from]; [intros [= ->]; by left|].
  destruct (SFcompare _ _) as [c|]; [|done]. cbn [mbind option_bind]. intros E%IH. destruct c; set_solver.
Qed.

Lemma max_by_float_elem {A} (key : A -> spec_float) (l : list A) m : max_by_float key l = Some (Some m) -> m ∈ l.
Proof.
  destruct l as [|x l]; [done|]. cbn [max_by_float]. destruct (max_from key x l) eqn:E; [|done]. intros [= <-].
  by apply max_from_elem in E.
Qed.

Lemma min_by_float_elem {A} (key : A -> spec_float) (l : list A) m : min_by_float key l = Some (Some m) -> m ∈ l.
Proof.
  destruct l as [|x l]; [done|]. cbn [min_by_float]. destruct (min_from key x l) eqn:E; [|done]. intros [= <-].
  by apply min_from_elem in E.
Qed.

(** ** The built-in rules *)

Section Outcomes.
Context `{SerdeJson}.

(** The rules of the library, with any parameters; the constraint rules ask for at least
    one node. *)
Inductive built_in : CompositionRule -> Prop :=
| b_sensors n : built_in (SensorCoverageRule n)
| b_payload n : built_in (PayloadCapacityRule n)
| b_bandwidth n : built_in (CommunicationBandwidthRule n)
| b_detection n t : built_in (DetectionReliabilityRule n t)
| b_coverage n : built_in (ContinuousCoverageRule n)
| b_fault n ty : built_in (FaultToleranceRule n ty)
| b_speed n : 0 < n -> built_in (TeamSpeedConstraintRule n)
| b_range n mesh : 0 < n -> built_in (CommunicationRangeConstraintRule n mesh)
| b_duration n : 0 < n -> built_in (MissionDurationConstraintRule n)
| b_isr t : built_in (IsrChainRule t)
| b_mapping t : built_in (Mapping3dRule t)
| b_strike t : built_in (StrikeChainRule t)
| b_authorization a : built_in (AuthorizationCoverageRule a)
| b_domains n t : built_in (MultiDomainCoverageRule n t).

(** What a rule may return: nothing, or one emergent capability with the input
    capabilities it was built from; the reported confidence is the one the capability
    carries before it is clamped. *)
Definition sound_result (caps : list Capability) (r : CompositionResult) : Prop :=
  r = nothing \/
  exists c contributors, composed_capabilities r = [c] /\ contributing_capabilities r = id <$> contributors /\
    contributors ⊆ caps /\ get_capability_type c = Emergent /\
    confidence c = f32_clamp (cr_confidence r) f32_zero f32_one.

Definition sound_outcome (caps : list Capability) (o : option (result Error CompositionResult)) : Prop :=
  forall x, o = Some x -> exists r, x = Ok r /\ sound_result caps r.

Lemma sound_nothing caps : sound_outcome caps (Some (Ok nothing)).
Proof. intros x [= <-]. exists nothing. split; [done|by left]. Qed.

Lemma sound_panic caps : sound_outcome caps None.
Proof. by intros x. Qed.

Lemma sound_ok caps prefix uuid title conf v contributors :
  contributors ⊆ caps -> sound_outcome caps (compose_ok (composed prefix uuid title conf v) conf contributors).
Proof.
  intros Hc x [= <-]. eexists. split; [done|]. right. eexists _, contributors. by split_and!.
Qed.

Lemma elem_of_select P caps c : c ∈ select P caps <-> c ∈ caps /\ P c = true.
Proof. unfold select. rewrite list_elem_of_filter. tauto. Qed.

Lemma select_subseteq P caps : select P caps ⊆ caps.
Proof. intros c. rewrite elem_of_select. tauto. Qed.

Lemma best_of_type_elem ty caps c : best_of_type ty caps = Some (Some c) -> c ∈ caps /\ of_type ty c = true.
Proof. intros Hc%max_by_float_elem. by apply elem_of_select in Hc. Qed.

Lemma find_elem (P : Capability -> bool) caps c : find P caps = Some c -> c ∈ caps /\ P c = true.
Proof. intros [Hin HP]%List.find_some. by rewrite list_elem_of_In. Qed.
End Outcomes.

Create HintDb composition.
#[export] Hint Resolve sound_nothing sound_panic sound_ok select_subseteq : composition.

Section RuleTheorems.
Context `{HJ : SerdeJson}.

Lemma sound_if caps (b : bool) x y : sound_outcome caps x -> sound_outcome caps y -> sound_outcome caps (if b then x else y).
Proof. by destruct b. Qed.

Lemma sound_bind {A} caps (o : option A) f :
  (forall a, o = Some a -> sound_outcome caps (f a)) -> sound_outcome caps (o ≫= f).
Proof. destruct o; [intros Hf; by apply Hf|intros _; apply sound_panic]. Qed.

Lemma additive_sound ty key count_key prefix title n caps uuid :
  sound_outcome caps (additive_compose ty key count_key prefix title n caps uuid).
Proof. unfold additive_compose. apply sound_if; auto with composition. Qed.

Lemma slowest_sound ty key prefix title pattern value_key list_key description n caps uuid :
  sound_outcome caps (slowest_compose ty key prefix title pattern value_key list_key description n caps uuid).
Proof.
  unfold slowest_compose. apply sound_if; [auto with composition|]. apply sound_bind. auto with composition.
Qed.

Lemma chain_sound caps prefix title pattern description parts extra uuid first others :
  first :: others ⊆ caps -> sound_outcome caps (chain prefix title pattern description parts extra uuid first others).
Proof. intros. unfold chain. auto with composition. Qed.

Lemma isr_sound caps uuid : sound_outcome caps (isr_compose caps uuid).
Proof.
  unfold isr_compose. apply sound_bind. intros s Hs. apply sound_bind. intros c Hc. apply sound_bind. intros m Hm.
  destruct s as [s|], c as [c|], m as [m|]; try apply sound_nothing.
  apply best_of_type_elem in Hs as [? _], Hc as [? _], Hm as [? _]. apply chain_sound. set_solver.
Qed.

Lemma mapping_sound caps uuid : sound_outcome caps (mapping_compose caps uuid).
Proof.
  unfold mapping_compose. apply sound_bind. intros c Hc.
  destruct (find _ caps) as [cam|] eqn:Hcam; [|apply sound_nothing].
  destruct (find _ caps) as [lid|] eqn:Hlid in |- *; [|apply sound_nothing].
  destruct c as [c|]; [|apply sound_nothing].
  apply best_of_type_elem in Hc as [? _]. apply find_elem in Hcam as [? _], Hlid as [? _]. apply chain_sound. set_solver.
Qed.

Lemma strike_sound caps uuid : sound_outcome caps (strike_compose caps uuid).
Proof.
  unfold strike_compose. apply sound_bind. intros st Hst. apply sound_bind. intros b Hb.
  destruct (find _ caps) as [isr|] eqn:Hisr; [|apply sound_nothing].
  destruct st as [st|], b as [b|]; try apply sound_nothing.
  apply max_by_float_elem, elem_of_select in Hst as [? _]. apply best_of_type_elem in Hb as [? _].
  apply find_elem in Hisr as [? _]. apply chain_sound. set_solver.
Qed.

Lemma authorization_sound a caps ctx uuid : sound_outcome caps (authorization_compose a caps ctx uuid).
Proof.
  unfold authorization_compose. apply sound_bind. intros [c|] Hc; [|apply sound_nothing].
  apply best_of_type_elem in Hc as [? _].
  destruct (ctx_max_authority ctx); [|apply sound_nothing]. apply sound_if; [|apply sound_nothing].
  apply sound_ok. set_solver.
Qed.

(** Every rule of the library answers with nothing or with one emergent capability built
    from capabilities it was given; none returns an error. *)
Lemma rule_sound r caps ctx uuid : built_in r -> sound_outcome caps (compose r caps ctx uuid).
Proof.
  destruct 1; cbn [compose]; first
    [apply additive_sound | apply slowest_sound | apply isr_sound | apply mapping_sound | apply strike_sound
    | apply authorization_sound | idtac].
  - unfold detection_compose. apply sound_if; auto with composition.
  - unfold coverage_compose. apply sound_if; auto with composition.
  - unfold fault_compose. apply sound_if; auto with composition.
  - unfold range_compose. apply sound_if; [auto with composition|]. apply sound_bind. auto with composition.
  - unfold multi_domain_compose. apply sound_if; auto with composition.
Qed.

(** *** Rules do not panic on numbers *)

Definition numbers (caps : list Capability) : Prop := forall c, c ∈ caps -> confidence c <> S754_nan.

Lemma best_of_type_spec ty caps :
  numbers caps -> exists o, best_of_type ty caps = Some o /\ is_best confidence (select (of_type ty) caps) o.
Proof. intros Hn. apply max_by_float_spec. intros c [Hc _]%elem_of_select. by apply Hn. Qed.

Lemma value_or_zero_number `{!SerdeJsonLaws} key c : value_or_zero key c <> S754_nan.
Proof.
  unfold value_or_zero, meta_f64, meta, metadata. destruct (from_str _) as [v|] eqn:Ev; [|done].
  cbn [mbind option_bind]. destruct (json_get key v) as [w|] eqn:Ew; [|done]. cbn [mbind option_bind].
  destruct (as_f64 w) as [x|] eqn:Ex; [|done]. by apply (parsed_number (metadata_json c) v key w x).
Qed.

Lemma extreme_total `{!SerdeJsonLaws} (mesh : bool) key (l : list Capability) :
  l <> [] -> exists m, mjoin ((if mesh then max_by_float else min_by_float) (value_or_zero key) l) = Some m.
Proof.
  intros Hl. destruct l as [|x l]; [done|]. destruct mesh; cbn [max_by_float min_by_float].
  - destruct (max_from_spec (value_or_zero key) x l) as (m & -> & _); [intros; apply value_or_zero_number..|]. by exists m.
  - destruct (min_from_spec (value_or_zero key) x l) as (m & -> & _); [intros; apply value_or_zero_number..|]. by exists m.
Qed.

Lemma len_pos {A} (l : list A) n : 0 < n -> (len l <? n) = false -> l <> [].
Proof. intros Hn Hl ->. change (len []) with 0 in Hl. lia. Qed.

Lemma slowest_total `{!SerdeJsonLaws} ty key prefix title pattern value_key list_key description n caps uuid :
  0 < n -> is_Some (slowest_compose ty key prefix title pattern value_key list_key description n caps uuid).
Proof.
  intros Hn. unfold slowest_compose. destruct (_ <? _) eqn:E; [done|]. apply (len_pos _ _ Hn) in E.
  by destruct (extreme_total false key _ E) as (m & ->).
Qed.

(** A rule panics neither on the confidences nor on the metadata it reads. *)
Lemma rule_total `{!SerdeJsonLaws} r caps ctx uuid :
  built_in r -> numbers caps -> is_Some (compose r caps ctx uuid).
Proof.
  intros Hr Hn. destruct Hr as [| | | | | | |n mesh Hpos| | | | | |]; try by apply slowest_total.
  all: cbn [compose SensorCoverageRule PayloadCapacityRule CommunicationBandwidthRule DetectionReliabilityRule ContinuousCoverageRule
    FaultToleranceRule CommunicationRangeConstraintRule IsrChainRule Mapping3dRule StrikeChainRule
    AuthorizationCoverageRule MultiDomainCoverageRule].
  - unfold additive_compose. cbv zeta; by destruct (_ <? _).
  - unfold additive_compose. cbv zeta; by destruct (_ <? _).
  - unfold additive_compose. cbv zeta; by destruct (_ <? _).
  - unfold detection_compose. cbv zeta; by destruct (_ <? _).
  - unfold coverage_compose. cbv zeta; by destruct (_ <? _).
  - unfold fault_compose. cbv zeta; by destruct (_ <? _).
  - unfold range_compose. destruct (_ <? _) eqn:E; [done|]. apply (len_pos _ _ Hpos) in E.
    by destruct (extreme_total mesh "range" _ E) as (m & ->).
  - unfold isr_compose. destruct (best_of_type_spec Sensor caps Hn) as (s & -> & _),
      (best_of_type_spec Compute caps Hn) as (c & -> & _), (best_of_type_spec Communication caps Hn) as (m & -> & _).
    by destruct s, c, m.
  - unfold mapping_compose. destruct (best_of_type_spec Compute caps Hn) as (c & -> & _).
    cbv zeta. cbn [mbind option_bind]. by repeat case_match.
  - unfold strike_compose. destruct (best_of_type_spec Sensor caps Hn) as (s & -> & _).
    destruct (max_by_float_spec confidence (select (fun c => of_type Payload c && is_strike_capable c) caps)) as (st & -> & _).
    { intros c [Hc _]%elem_of_select. by apply Hn. }
    cbv zeta. cbn [mbind option_bind]. by repeat case_match.
  - unfold authorization_compose. destruct (best_of_type_spec Communication caps Hn) as (c & -> & _).
    destruct c; [|done]. cbn. destruct (ctx_max_authority ctx); [|done]. by destruct (authority_ge _ _).
  - unfold multi_domain_compose. cbv zeta; by destruct (_ <? _).
Qed.

Lemma rule_answers `{!SerdeJsonLaws} r caps ctx uuid :
  built_in r -> numbers caps -> exists res, compose r caps ctx uuid = Some (Ok res) /\ sound_result caps res.
Proof.
  intros Hr Hn. destruct (rule_total r caps ctx uuid Hr Hn) as [x Hx].
  destruct (rule_sound r caps ctx uuid Hr x Hx) as (res & -> & Hs). by exists res.
Qed.
End RuleTheorems.

(** ** The engine *)

Section EngineTheorems.
Context `{HJ : SerdeJson}.

(** The rules that apply, with the identifiers they are given *)
Fixpoint applicable (rs : list CompositionRule) (caps : list Capability) (uuids : nat -> string)
    : list (CompositionRule * string) :=
  match rs with
  | [] => []
  | r :: rs => let rest := applicable rs caps (fun n => uuids (S n)) in
               if applies_to r caps then (r, uuids O) :: rest else rest
  end.

Lemma apply_rules_spec `{!SerdeJsonLaws} rs caps ctx uuids :
  Forall built_in rs -> numbers caps ->
  exists answers,
    Forall2 (fun r res => compose (fst r) caps ctx (snd r) = Some (Ok res) /\ sound_result caps res)
      (applicable rs caps uuids) answers /\
    apply_rules rs caps ctx uuids = Some (Ok (filter (fun res => has_compositions res = true) answers)).
Proof.
  intros Hrs Hn. revert uuids. induction Hrs as [|r rs Hr _ IH]; intros uuids; cbn [applicable apply_rules].
  { exists []. by split; [constructor|]. }
  destruct (IH (fun n => uuids (S n))) as (answers & Hall & ->). destruct (applies_to r caps); [|by exists answers].
  destruct (rule_answers r caps ctx (uuids O) Hr Hn) as (res & Hc & Hs). rewrite Hc.
  exists (res :: answers). split; [by constructor|]. cbn [mbind option_bind fmap option_fmap option_map].
  rewrite filter_cons. destruct (has_compositions res) eqn:E; by destruct (decide _).
Qed.

(** With the rules of the library and confidences that are numbers, the engine never
    fails or panics: its answer is, in the order the rules were registered, exactly the
    non-empty results of the rules that apply, and each is one emergent capability built
    from capabilities of the input. *)
Theorem engine_answers `{!SerdeJsonLaws} e caps ctx uuids :
  Forall built_in (rules e) -> numbers caps ->
  exists answers,
    Forall2 (fun r res => compose (fst r) caps ctx (snd r) = Some (Ok res) /\ sound_result caps res)
      (applicable (rules e) caps uuids) answers /\
    engine_compose e caps ctx uuids = Some (Ok (filter (fun res => has_compositions res = true) answers)) /\
    compose_all e caps ctx uuids =
      Some (Ok (concat (composed_capabilities <$> filter (fun res => has_compositions res = true) answers))).
Proof.
  intros Hr Hn. destruct (apply_rules_spec (rules e) caps ctx uuids Hr Hn) as (answers & Hall & E).
  exists answers. split_and!; [done|done|]. unfold compose_all, engine_compose. by rewrite E.
Qed.

(** *** Chains *)

(** A scalar field of the metadata a composed capability is given can be read back. *)
Lemma composed_meta `{!SerdeJsonLaws} prefix uuid title conf v k w :
  json_ok v = true -> exact w = true -> json_get k v = Some w -> meta k (composed prefix uuid title conf v) = Some w.
Proof.
  intros Hv Hw Hk. destruct (from_to_str v Hv) as (v' & Ev' & Hget). unfold meta, metadata.
  cbn [metadata_json composed with_metadata]. rewrite Ev'. cbn [mbind option_bind]. by apply Hget.
Qed.

Lemma chain_metadata `{!SerdeJsonLaws} prefix title pattern description parts extra uuid first others c r k w :
  chain prefix title pattern description parts extra uuid first others = Some (Ok r) -> c ∈ composed_capabilities r ->
  let v := JObject ([("composition_type", JString "emergent"); ("pattern", JString pattern);
               ("components", JObject ((fun p => (fst p, JString (id (snd p)))) <$> parts));
               ("description", JString description)]%string ++ extra) in
  json_ok v = true -> exact w = true -> json_get k v = Some w -> meta k c = Some w.
Proof.
  intros [= <-] Hc v Hv Hw Hk. cbn in Hc. apply list_elem_of_singleton in Hc as ->. by apply (composed_meta _ _ _ _ v).
Qed.

Lemma chain_confidence prefix title pattern description parts extra uuid first others c r :
  chain prefix title pattern description parts extra uuid first others = Some (Ok r) -> c ∈ composed_capabilities r ->
  numbers (first :: others) ->
  cr_confidence r <> S754_nan /\ (forall x, x ∈ first :: others -> SFleb (cr_confidence r) (confidence x) = true) /\
  (exists x, x ∈ first :: others /\ cr_confidence r = confidence x) /\
  contributing_capabilities r = id <$> first :: others.
Proof.
  intros [= <-] _ Hn. cbn [cr_confidence with_contributors result_new contributing_capabilities].
  assert (forall l acc, fold_left (fun acc c => float_min acc (confidence c)) l acc = fold_left float_min (confidence <$> l) acc) as E.
  { intros l. induction l as [|x l IH]; intros acc; [done|]. cbn. apply IH. }
  rewrite E. destruct (fold_min_spec (confidence <$> others) (confidence first)) as (H1 & H2 & H3 & H4); [apply Hn; by left|].
  split_and!; [done| | |done].
  - intros x [->|Hx]%elem_of_cons; [done|]. apply H3; [by apply list_elem_of_fmap_2|apply Hn; by right].
  - change (confidence first :: (confidence <$> others)) with (confidence <$> first :: others) in H4.
    apply list_elem_of_fmap in H4 as (x & -> & Hx). by exists x.
Qed.

Lemma exists_select (P Q : Capability -> bool) caps :
  existsb P caps = true -> (forall c, P c = true -> Q c = true) -> exists c, c ∈ select Q caps /\ P c = true.
Proof.
  intros [c [Hc HP]]%existsb_exists HPQ. exists c. rewrite elem_of_select, list_elem_of_In. auto.
Qed.

Lemma qualified_spec ty t c : qualified ty t c = true <-> of_type ty c = true /\ SFleb t (confidence c) = true.
Proof. apply andb_true_iff. Qed.

(** The best capability of a type that has one above the threshold is above it too. *)
Lemma best_qualified ty t caps :
  numbers caps -> existsb (qualified ty t) caps = true ->
  exists m, best_of_type ty caps = Some (Some m) /\ m ∈ caps /\ of_type ty m = true /\ SFleb t (confidence m) = true /\
    forall c, c ∈ caps -> of_type ty c = true -> SFleb (confidence c) (confidence m) = true.
Proof.
  intros Hn Hex. destruct (best_of_type_spec ty caps Hn) as (o & Ho & Hbest).
  destruct (exists_select (qualified ty t) (of_type ty) caps Hex) as (c & Hc & HP); [intros ? ?%qualified_spec; tauto|].
  apply qualified_spec in HP as [_ Ht]. destruct o as [m|]; cbn [is_best] in Hbest; [|rewrite Hbest in Hc; by apply not_elem_of_nil in Hc].
  destruct Hbest as [Hin Hmax]. exists m. apply elem_of_select in Hin as [Hin Hty]. split_and!; [done..| |].
  - eapply SFleb_trans; [exact Ht|by apply Hmax].
  - intros c' Hc' Hty'. apply Hmax, elem_of_select. auto.
Qed.

Lemma float_min_mono a b x y :
  SFleb a x = true -> SFleb b y = true -> SFleb (float_min a b) (float_min x y) = true.
Proof.
  intros Ha Hb. pose proof (SFleb_not_nan _ _ Ha) as [Na Nx]. pose proof (SFleb_not_nan _ _ Hb) as [Nb Ny].
  destruct (float_min_spec a b Na) as (_ & H1 & H2 & _), (float_min_spec x y Nx) as (_ & _ & _ & [-> | ->]).
  - by eapply SFleb_trans.
  - eapply SFleb_trans; [by apply H2|done].
Qed.

Lemma float_min_ge t x y : SFleb t x = true -> SFleb t y = true -> SFleb t (float_min x y) = true.
Proof.
  intros Hx Hy. pose proof (SFleb_not_nan _ _ Hx) as [_ Nx]. by destruct (float_min_spec x y Nx) as (_ & _ & _ & [-> | ->]).
Qed.

(** When the ISR rule applies it composes one ISR chain, which carries the pattern the
    strike rule looks for; its confidence reaches the threshold, and no other choice of a
    sensor, a computer and a radio among the capabilities has a stronger weakest link. *)
Theorem isr_chain_optimal `{!SerdeJsonLaws} t caps ctx uuid :
  numbers caps -> applies_to (IsrChainRule t) caps = true ->
  exists r c, compose (IsrChainRule t) caps ctx uuid = Some (Ok r) /\ composed_capabilities r = [c] /\
    get_capability_type c = Emergent /\ is_isr_pattern c = true /\ SFleb t (cr_confidence r) = true /\
    forall s p m, s ∈ caps -> p ∈ caps -> m ∈ caps ->
      of_type Sensor s = true -> of_type Compute p = true -> of_type Communication m = true ->
      SFleb (float_min (float_min (confidence s) (confidence p)) (confidence m)) (cr_confidence r) = true.
Proof.
  intros Hn Ha. cbn [applies_to IsrChainRule] in Ha. rewrite !andb_true_iff in Ha. destruct Ha as [[Hs Hp] Hm].
  destruct (best_qualified _ _ _ Hn Hs) as (s & Es & _ & _ & Ts & Bs), (best_qualified _ _ _ Hn Hp) as (p & Ep & _ & _ & Tp & Bp),
    (best_qualified _ _ _ Hn Hm) as (m & Em & _ & _ & Tm & Bm).
  cbn [compose IsrChainRule]. unfold isr_compose. rewrite Es, Ep, Em. cbn [mbind option_bind].
  destruct (chain _ _ _ _ _ _ _ _ _) as [[r|]|] eqn:E; [|discriminate E..].
  assert (exists c, composed_capabilities r = [c]) as [c Hc] by (injection E as <-; by eexists).
  exists r, c. split_and!; [done|done|injection E as <-; by injection Hc as <-| | |].
  - unfold is_isr_pattern, meta_str.
    rewrite (chain_metadata _ _ _ _ _ _ _ _ _ c r "pattern" (JString "isr_chain") E); [done|rewrite Hc; by left|done..].
  - injection E as <-. cbn. by apply float_min_ge; [apply float_min_ge|].
  - injection E as <-. cbn. intros. apply float_min_mono; [apply float_min_mono|]; auto.
Qed.

(** C30: a strike chain is only composed from an emergent ISR chain, a strike-capable
    payload and a sensor of the input, it is never more confident than any of the three,
    and its metadata always demands the approval of a human. *)
Theorem strike_chain_guarded `{!SerdeJsonLaws} t caps ctx uuid r c :
  numbers caps -> compose (StrikeChainRule t) caps ctx uuid = Some (Ok r) -> c ∈ composed_capabilities r ->
  meta_bool "requires_human_approval" c = Some true /\
  exists isr strike bda, contributing_capabilities r = [id isr; id strike; id bda] /\
    (isr ∈ caps /\ of_type Emergent isr = true /\ is_isr_pattern isr = true) /\
    (strike ∈ caps /\ of_type Payload strike = true /\ is_strike_capable strike = true) /\
    (bda ∈ caps /\ of_type Sensor bda = true) /\
    Forall (fun x => SFleb (cr_confidence r) (confidence x) = true) [isr; strike; bda].
Proof.
  intros Hn Hr Hc. cbn [compose StrikeChainRule] in Hr. unfold strike_compose in Hr. cbv zeta in Hr.
  destruct (max_by_float _ _) as [st|] eqn:Est; [|done]. destruct (best_of_type Sensor caps) as [b|] eqn:Eb; [|done].
  cbn [mbind option_bind] in Hr. destruct (find _ caps) as [isr|] eqn:Ei; [|injection Hr as <-; by apply not_elem_of_nil in Hc].
  destruct st as [st|], b as [b|]; try (injection Hr as <-; by apply not_elem_of_nil in Hc).
  apply max_by_float_elem, elem_of_select in Est as [Hst Pst]. apply best_of_type_elem in Eb as [Hb Pb].
  apply find_elem in Ei as [Hi Pi]. apply andb_true_iff in Pst as [], Pi as []. split.
  - unfold meta_bool. by rewrite (chain_metadata _ _ _ _ _ _ _ _ _ c r "requires_human_approval" (JBool true) Hr).
  - destruct (chain_confidence _ _ _ _ _ _ _ _ _ c r Hr Hc) as (_ & Hle & _ & Hids).
    { intros x Hx. apply Hn. set_solver. }
    exists isr, st, b. split_and!; [done..|]. apply Forall_forall. exact Hle.
Qed.
End EngineTheorems.

(** ** Redundancy *)

Local Abbreviation nonneg := (Float.nonneg 24 128).
Local Abbreviation value := (Float.value 128).
Local Opaque Float.ulp.

Lemma unit32_one : unit32 f32_one.
Proof. split_and!; [apply nonneg_f32_one|done|apply Z.le_refl]. Qed.

Lemma one_minus_rounds c : unit32 c -> rounds 24 128 (value f32_one - value c) (sub32 f32_one c).
Proof. intros (Hn & Hf & Hv). apply SFsub_rounds; (lia || done || apply nonneg_f32_one). Qed.

Lemma one_minus_unit c : unit32 c -> unit32 (sub32 f32_one c).
Proof.
  intros Hc. pose proof (one_minus_rounds c Hc) as Hr. destruct Hc as (Hn & Hf & Hv).
  pose proof (value_nonneg 24 128 ltac:(lia) ltac:(lia) c Hn). pose proof nonneg_f32_one.
  assert (value (sub32 f32_one c) <= value f32_one) by (apply (rounds_upper _ _ _ _ Hr); [done|lia]).
  pose proof (rounds_nonneg _ _ _ _ Hr). split_and!; [done| |done]. by apply (nonneg_le_finite _ f32_one).
Qed.

Lemma one_minus_antitone c d : unit32 c -> unit32 d -> value c <= value d -> value (sub32 f32_one d) <= value (sub32 f32_one c).
Proof.
  intros Hc Hd Hle. destruct (Z.eq_dec (value c) (value d)) as [E|Hne].
  - rewrite (value_inj 24 128 ltac:(lia) ltac:(lia) c d); [done|apply Hc|apply Hd|done].
  - destruct (one_minus_unit d Hd) as (_ & Fd & _).
    apply (rounds_mono 24 128 ltac:(lia) ltac:(lia) _ _ _ _ (one_minus_rounds d Hd) (one_minus_rounds c Hc)); [done|lia].
Qed.

Lemma mul_unit a b : unit32 a -> unit32 b -> unit32 (mul32 a b) /\ value (mul32 a b) <= value a /\ value (mul32 a b) <= value b.
Proof.
  intros (Ha & Fa & Va) (Hb & Fb & Vb).
  destruct (SFmul_rounds 24 128 ltac:(lia) ltac:(lia) a b Ha Fa Hb Fb) as (v & Hv & Hr).
  pose proof (value_nonneg 24 128 ltac:(lia) ltac:(lia) a Ha). pose proof (value_nonneg 24 128 ltac:(lia) ltac:(lia) b Hb).
  pose proof (ulp_pos 128 0 ltac:(unfold scale; lia)) as U. rewrite value_f32_one in *.
  assert (v <= value a) by nia. assert (v <= value b) by nia.
  pose proof (rounds_upper _ _ _ _ Hr a Ha ltac:(done)) as Ua. pose proof (rounds_upper _ _ _ _ Hr b Hb ltac:(done)) as Ub.
  pose proof (rounds_nonneg _ _ _ _ Hr) as Hn. change (SFmul 24 128 a b) with (mul32 a b) in *.
  split; [|done]. unfold unit32. rewrite value_f32_one. split_and!; [done|by apply (nonneg_le_finite _ a)|lia].
Qed.

Lemma fold_mul_unit l acc :
  Forall unit32 l -> unit32 acc ->
  unit32 (fold_left mul32 l acc) /\ value (fold_left mul32 l acc) <= value acc /\
  forall x, x ∈ l -> value (fold_left mul32 l acc) <= value x.
Proof.
  intros Hl. revert acc. induction Hl as [|x l Hx Hl IH]; intros acc Hacc; cbn [fold_left].
  { split_and!; [done|apply Z.le_refl|by intros x Hx%not_elem_of_nil]. }
  destruct (mul_unit acc x Hacc Hx) as (Hu & H1 & H2). destruct (IH _ Hu) as (Hf & H3 & H4).
  split_and!; [done|lia|]. intros y [->|Hy]%elem_of_cons; [lia|by apply H4].
Qed.

(** From one half on, subtracting from one is exact, so that doing it twice is the identity. *)
Lemma one_minus_twice c : unit32 c -> ulp 128 (-1) <= value c -> value (sub32 f32_one (sub32 f32_one c)) = value c.
Proof.
  intros Hc Hhalf. pose proof (one_minus_rounds c Hc) as Hr. pose proof (one_minus_unit c Hc) as Hu.
  pose proof (one_minus_rounds _ Hu) as Hr'. destruct Hc as (Hn & Hf & Hv).
  enough (value f32_one - value (sub32 f32_one c) = value c) as E.
  { rewrite E in Hr'. by apply (rounds_exact _ _ _ _ c Hr' Hn Hf). }
  clear Hr' Hu. rewrite value_f32_one in *.
  destruct (nonneg_cases 24 128 ltac:(lia) ltac:(lia) c Hn) as [->|[->|(m & e & -> & Hb & _)]].
  { pose proof (ulp_pos 128 (-1) ltac:(unfold scale; lia)). change (value (S754_zero false)) with 0 in Hhalf. lia. }
  { done. }
  change (value (S754_finite false m e)) with (Zpos m * ulp 128 e) in *.
  pose proof (bounded_facts 24 128 m e Hb) as (He & Hm & _).
  assert (-24 <= e <= 0) as He'.
  { split.
    - destruct (Z.le_gt_cases (-24) e); [done|]. pose proof (ulp_le 128 e (-25) ltac:(unfold scale, SpecFloat.emin in *; lia)).
      pose proof (ulp_pos 128 (-25) ltac:(unfold scale; lia)).
      rewrite (ulp_shift 128 (-25) (-1)) in Hhalf by (unfold scale; lia). change (2 ^ (-1 - -25)) with (2 ^ 24) in Hhalf. nia.
    - destruct (Z.le_gt_cases e 0); [done|]. pose proof (ulp_pos 128 0 ltac:(unfold scale; lia)).
      pose proof (ulp_le 128 1 e ltac:(unfold scale; lia)). rewrite (ulp_shift 128 0 1) in * by (unfold scale; lia).
      change (2 ^ (1 - 0)) with 2 in *. nia. }
  rewrite (ulp_shift 128 (-24) e), (ulp_shift 128 (-24) 0) in * by (unfold scale; lia).
  pose proof (ulp_pos 128 (-24) ltac:(unfold scale; lia)) as U.
  change (0 - -24) with 24 in *. rewrite Z.mul_assoc in *. set (k := Zpos m * 2 ^ (e - -24)) in *.
  assert (0 < k) by (pose proof (Z.pow_pos_nonneg 2 (e - -24)); nia).
  destruct (rounds_representable 24 128 ltac:(lia) ltac:(lia) (2 ^ 24 - k) (-24) (sub32 f32_one (S754_finite false m e)))
    as (_ & _ & E); [nia|by vm_compute|by rewrite Z.mul_sub_distr_r|]. rewrite E. lia.
Qed.

(** Adding a sensor never lowers the combined confidence, which stays between zero and
    one and is not below the confidence of any sensor that is right half of the time. *)
Lemma combined_spec l :
  Forall unit32 l ->
  unit32 (combined_confidence l) /\
  (forall c, unit32 c -> value (combined_confidence l) <= value (combined_confidence (l ++ [c]))) /\
  (forall c, c ∈ l -> ulp 128 (-1) <= value c -> value c <= value (combined_confidence l)).
Proof.
  intros Hl. unfold combined_confidence.
  assert (Forall unit32 ((fun c => sub32 f32_one c) <$> l)) as Hm.
  { apply Forall_fmap. eapply Forall_impl; [exact Hl|]. intros c Hc. by apply one_minus_unit. }
  destruct (fold_mul_unit _ f32_one Hm unit32_one) as (Hp & _ & Hbelow). split_and!.
  - by apply one_minus_unit.
  - intros c Hc. rewrite fmap_app, fold_left_app. cbn [fmap list_fmap fold_left].
    destruct (mul_unit _ _ Hp (one_minus_unit c Hc)) as (Hq & Hle & _). by apply one_minus_antitone.
  - intros c Hc Hhalf. assert (unit32 c) as Hu by (rewrite Forall_forall in Hl; by apply Hl).
    rewrite <- (one_minus_twice c Hu Hhalf). apply one_minus_antitone; [done|by apply one_minus_unit|].
    apply Hbelow. by apply (list_elem_of_fmap_2 (fun c => sub32 f32_one c)).
Qed.

Lemma clamp_unit x : unit32 x -> f32_clamp x f32_zero f32_one = x.
Proof.
  intros (Hn & _ & Hv). pose proof nonneg_f32_one. unfold f32_clamp.
  rewrite (SFltb_value 24 128 ltac:(lia) ltac:(lia) x f32_zero) by done. change (value f32_zero) with 0.
  pose proof (value_nonneg 24 128 ltac:(lia) ltac:(lia) x Hn).
  destruct (Z.ltb_spec (value x) 0); [lia|].
  rewrite (SFltb_value 24 128 ltac:(lia) ltac:(lia) f32_one x) by done. by destruct (Z.ltb_spec (value f32_one) (value x)); [lia|].
Qed.

(** With a threshold of at least one half, redundant detection is at least as
    confident as every sensor it is composed of and never above one: rounding in the
    product of the error probabilities does not spoil it. *)
Theorem redundant_detection_improves `{SerdeJson} n t caps ctx uuid r c :
  (forall cap, cap ∈ caps -> unit32 (confidence cap)) -> SFleb (f32_lit 1 2) t = true ->
  compose (DetectionReliabilityRule n t) caps ctx uuid = Some (Ok r) -> c ∈ composed_capabilities r ->
  SFleb (confidence c) f32_one = true /\
  forall s, s ∈ caps -> qualified Sensor t s = true -> SFleb (confidence s) (confidence c) = true.
Proof.
  intros Hu Ht Hr Hc. cbn [compose DetectionReliabilityRule] in Hr. unfold detection_compose in Hr. cbv zeta in Hr.
  set (sensors := select (qualified Sensor t) caps) in *.
  destruct (len sensors <? n); injection Hr as <-; [by apply not_elem_of_nil in Hc|].
  cbn in Hc. apply list_elem_of_singleton in Hc as ->. cbn [confidence composed with_metadata capability_new].
  destruct (combined_spec (confidence <$> sensors)) as (Hunit & _ & Hge).
  { apply Forall_fmap, Forall_forall. intros s [Hs _]%elem_of_select. by apply Hu. }
  rewrite clamp_unit by done. split; [by apply unit32_leb|]. intros s Hs Hq.
  pose proof (Hu s Hs) as (Hn & _). destruct Hunit as (Hcn & _). rewrite (SFleb_value 24 128) by (lia || done).
  apply Z.leb_le, Hge; [apply list_elem_of_fmap_2, elem_of_select; auto|].
  apply qualified_spec in Hq as [_ Hq]. pose proof (SFleb_trans _ _ _ Ht Hq) as Hhalf.
  rewrite (SFleb_value 24 128) in Hhalf by (lia || done || by vm_compute). by apply Z.leb_le in Hhalf.
Qed.

(** ** Authority *)

Section AuthorityTheorems.
Context `{HJ : SerdeJson}.

Lemma authority_cmp_ok : cmp_ok (fun _ => True) (fun a b => authority_to_i32 a ?= authority_to_i32 b).
Proof.
  split.
  - intros x y _ _. rewrite Z.compare_antisym. done.
  - intros x y z _ _ _. rewrite !Z.compare_le_iff. lia.
Qed.

(** The greatest authority of the context belongs to an operator of one of its nodes, and
    no operator of them has more. *)
Lemma ctx_max_authority_spec ctx a :
  ctx_max_authority ctx = Some a ->
  (exists n, n ∈ node_configs ctx /\ node_authority n = Some a) /\
  (forall n b, n ∈ node_configs ctx -> node_authority n = Some b -> authority_to_i32 b <= authority_to_i32 a).
Proof.
  unfold ctx_max_authority. set (l := omap node_authority (node_configs ctx)). intros E.
  pose proof (max_by_last _ _ l authority_cmp_ok ltac:(by apply Forall_true)) as Hm. rewrite E in Hm.
  destruct Hm as (l1 & l2 & Hl & H1 & H2). split.
  - assert (a ∈ l) as Ha by (rewrite Hl; set_solver). apply list_elem_of_omap in Ha as (n & Hn & Hna). by exists n.
  - intros n b Hn Hb. assert (b ∈ l) as Hbl by (apply list_elem_of_omap; by exists n).
    rewrite Hl in Hbl. apply elem_of_app in Hbl as [Hb1|[->|Hb2]%elem_of_cons]; [|lia|].
    + specialize (H1 b Hb1). cbn in H1. by rewrite Z.compare_le_iff in H1.
    + specialize (H2 b Hb2). cbn in H2. rewrite Z.compare_lt_iff in H2. lia.
Qed.

Lemma authorization_bonus_small ctx : 0 <= authorization_bonus ctx <= 5.
Proof. unfold authorization_bonus. destruct (ctx_max_authority ctx) as [[]|]; by vm_compute. Qed.

(** Authorization coverage is only composed when an operator bound to a node of the
    context has the authority asked for, and it says that a strike can be authorized
    exactly when one of these operators is a commander. *)
Theorem authorization_needs_operator `{!SerdeJsonLaws} a caps ctx uuid r c :
  compose (AuthorizationCoverageRule a) caps ctx uuid = Some (Ok r) -> c ∈ composed_capabilities r ->
  (exists n, n ∈ node_configs ctx /\ authorizes a n = true) /\
  (meta_bool "can_authorize_strike" c = Some true <-> exists n, n ∈ node_configs ctx /\ node_authority n = Some Commander).
Proof.
  intros Hr Hc. cbn [compose AuthorizationCoverageRule] in Hr. unfold authorization_compose in Hr.
  destruct (best_of_type Communication caps) as [o|]; [|done]. cbn [mbind option_bind] in Hr.
  destruct o as [m|]; [|injection Hr as <-; by apply not_elem_of_nil in Hc].
  destruct (ctx_max_authority ctx) as [auth|] eqn:Ea; [|injection Hr as <-; by apply not_elem_of_nil in Hc].
  destruct (authority_ge auth a) eqn:Ege; [|injection Hr as <-; by apply not_elem_of_nil in Hc].
  destruct (ctx_max_authority_spec ctx auth Ea) as [(n & Hn & Hna) Hmax]. split.
  { exists n. split; [done|]. unfold authorizes. by rewrite Hna. }
  apply (inj Some), (f_equal (fun x => match x with Ok y => y | Err _ => r end)) in Hr. cbv beta iota in Hr. subst r. apply list_elem_of_singleton in Hc as ->. cbv zeta.
  match goal with |- context [composed _ _ _ _ ?w] => set (v := w) end.
  assert (json_ok v = true) as Hv.
  { subst v. pose proof (authorization_bonus_small ctx). generalize dependent (authorization_bonus ctx). intros b Hb.
    cbn -[bool_decide]. rewrite (proj2 (Z.leb_le _ _)), (proj2 (Z.ltb_lt _ _)) by lia.
    by destruct (nc_id <$> find (authorizes a) (node_configs ctx)). }
  unfold meta_bool. rewrite (composed_meta _ _ _ _ v "can_authorize_strike" (JBool (bool_decide (auth = Commander))) Hv eq_refl eq_refl).
  cbn [mbind option_bind as_bool]. split.
  - intros [= ->%bool_decide_eq_true]. by exists n.
  - intros (n' & Hn' & Hc'). specialize (Hmax n' Commander Hn' Hc'). by destruct auth.
Qed.
End AuthorityTheorems.

(** ** Behaviour at the edges *)

Section EdgeTheorems.
Context `{HJ : SerdeJson}.

(** The strike rule accepts an ISR source by its pattern or by its flag [isr_capable], but
    composes with the pattern only: with a source that merely has the flag it applies and
    composes nothing. *)
Theorem flagged_isr_composes_nothing t caps ctx uuid :
  numbers caps -> (forall c, c ∈ caps -> of_type Emergent c = true -> is_isr_pattern c = false) ->
  compose (StrikeChainRule t) caps ctx uuid = Some (Ok nothing).
Proof.
  intros Hn Hno. cbn [compose StrikeChainRule]. unfold strike_compose. cbv zeta.
  destruct (best_of_type_spec Sensor caps Hn) as (b & -> & _).
  destruct (max_by_float_spec confidence (select (fun c => of_type Payload c && is_strike_capable c) caps)) as (st & -> & _).
  { intros c [Hc _]%elem_of_select. by apply Hn. }
  cbn [mbind option_bind]. destruct (find _ caps) as [isr|] eqn:E; [|done].
  apply find_elem in E as [Hin [Ht Hp]%andb_true_iff]. by rewrite (Hno isr Hin Ht) in Hp.
Qed.

(** A constraint rule that asks for no node applies to nothing and then panics. *)
Theorem constraint_without_nodes_panics ctx uuid :
  Forall (fun r => applies_to r [] = true /\ compose r [] ctx uuid = None)
    [TeamSpeedConstraintRule 0; MissionDurationConstraintRule 0; CommunicationRangeConstraintRule 0 true].
Proof. by repeat constructor. Qed.

(** One confidence that is not a number makes a rule panic as soon as it compares it. *)
Theorem nan_confidence_panics s s' caps ctx uuid t :
  of_type Sensor s = true -> of_type Sensor s' = true -> confidence s = S754_nan ->
  compose (IsrChainRule t) (s :: s' :: caps) ctx uuid = None.
Proof.
  intros Hs Hs' Hnan. cbn [compose IsrChainRule]. unfold isr_compose, best_of_type, select.
  cbn [filter list_filter]. rewrite (decide_True _ _ Hs), (decide_True _ _ Hs').
  cbn [max_by_float max_from]. by rewrite Hnan, SFcompare_nan_l.
Qed.
End EdgeTheorems.

Module SampleTeam.
Import SampleJson.
Local Open Scope string_scope.

Definition cap (i : string) (ty : CapabilityType) (c : spec_float) (v : Json) : Capability :=
  mkCapability i i (capability_type_to_i32 ty) c (to_string v) None.

Definition camera := cap "camera" Sensor (f32_lit 9 10) (JObject [("sensor_type", JString "camera")]).
Definition lidar := cap "lidar" Sensor (f32_lit 6 10) (JObject [("sensor_type", JString "lidar")]).
Definition computer := cap "computer" Compute (f32_lit 8 10) (JObject []).
Definition radio := cap "radio" Communication (f32_lit 85 100) (JObject [("range", JInt 500)]).
Definition effector := cap "effector" Payload (f32_lit 9 10) (JObject [("strike_capable", JBool true)]).
Definition isr := cap "isr" Emergent (f32_lit 9 10) (JObject [("pattern", JString "isr_chain")]).
Definition flagged := cap "flagged" Emergent (f32_lit 9 10) (JObject [("isr_capable", JBool true)]).

Definition team : list Capability := [camera; lidar; computer; radio; effector; isr].
Definition context : CompositionContext :=
  with_node_configs (context_new ["n1"] 0)
    [mkNodeConfig "n1" "UGV" [] f32_zero f32_zero
       (Some (mkHumanMachinePair [mkOperator "op" "Op" 5 4 "" ""] ["n1"] 1 None)) None].

Lemma numbers_of (caps : list Capability) :
  forallb (fun c => match confidence c with S754_nan => false | _ => true end) caps = true -> numbers caps.
Proof. intros Hall c Hc E. rewrite forallb_forall in Hall. apply list_elem_of_In, Hall in Hc. by rewrite E in Hc. Qed.

Lemma units_of (caps : list Capability) :
  forallb (fun c => match confidence c with
                    | S754_finite false m e => bounded 24 128 m e && SFleb (confidence c) f32_one | _ => false end) caps = true ->
  forall c, c ∈ caps -> unit32 (confidence c).
Proof.
  intros Hall c Hc. rewrite forallb_forall in Hall. apply list_elem_of_In, Hall in Hc.
  destruct (confidence c) as [| | |[] m e] eqn:E; try done. apply andb_true_iff in Hc as [Hb Hle].
  assert (nonneg (S754_finite false m e)) as Hn by done. split_and!; [done|done|].
  rewrite (SFleb_value 24 128) in Hle by (lia || done || apply nonneg_f32_one). by apply Z.leb_le in Hle.
Qed.

Lemma defaults_built_in : Forall built_in default_rules.
Proof. by repeat (constructor; [first [by constructor | constructor; lia]|]). Qed.

Lemma engine_answers_witness :
  exists answers, engine_compose (mkEngine default_rules) team context (fun _ => "u") =
    Some (Ok (filter (fun res => has_compositions res = true) answers)).
Proof.
  destruct (engine_answers (mkEngine default_rules) team context (fun _ => "u") defaults_built_in
    (numbers_of team ltac:(vm_compute; reflexivity))) as (answers & _ & E & _).
  exists answers. exact E.
Defined.

Lemma isr_chain_optimal_witness :
  exists r, compose (IsrChainRule (f32_lit 7 10)) team context "u" = Some (Ok r) /\ SFleb (f32_lit 7 10) (cr_confidence r) = true.
Proof.
  destruct (isr_chain_optimal (f32_lit 7 10) team context "u" (numbers_of team ltac:(vm_compute; reflexivity))
    ltac:(vm_compute; reflexivity)) as (r & c & E & _ & _ & _ & Ht & _).
  exists r. exact (conj E Ht).
Defined.

Definition first_composed (o : option (result Error CompositionResult)) : CompositionResult :=
  match o with Some (Ok r) => r | _ => nothing end.

Definition strike_result := first_composed (compose (StrikeChainRule (f32_lit 8 10)) team context "u").
Definition strike_capability := nth 0 (composed_capabilities strike_result) camera.

Lemma strike_chain_guarded_witness : meta_bool "requires_human_approval" strike_capability = Some true.
Proof.
  refine (proj1 (strike_chain_guarded (f32_lit 8 10) team context "u" strike_result strike_capability
    (numbers_of team ltac:(vm_compute; reflexivity)) ltac:(vm_compute; reflexivity) _)).
  apply list_elem_of_In. left. reflexivity.
Defined.

Definition detection_result := first_composed (compose (DetectionReliabilityRule 2 (f32_lit 6 10)) team context "u").
Definition detection := nth 0 (composed_capabilities detection_result) camera.

Lemma redundant_detection_improves_witness : SFleb (f32_lit 9 10) (confidence detection) = true.
Proof.
  refine (proj2 (redundant_detection_improves 2 (f32_lit 6 10) team context "u" detection_result detection _
    ltac:(vm_compute; reflexivity) ltac:(vm_compute; reflexivity) _) camera _ ltac:(vm_compute; reflexivity)).
  - apply units_of. vm_compute. reflexivity.
  - apply list_elem_of_In. left. reflexivity.
  - apply list_elem_of_In. left. reflexivity.
Defined.

Definition auth_result := first_composed (compose commander_required team context "u").
Definition authorization := nth 0 (composed_capabilities auth_result) camera.

Lemma authorization_needs_operator_witness : meta_bool "can_authorize_strike" authorization = Some true.
Proof.
  refine (proj2 (proj2 (authorization_needs_operator (HJ := sample_json) Commander team context "u" auth_result authorization
    ltac:(vm_compute; reflexivity) _)) _).
  - apply list_elem_of_In. left. reflexivity.
  - eexists. split; [apply list_elem_of_In; left; reflexivity|reflexivity].
Defined.

(** The rule applies to a team whose only ISR source has the flag, and composes nothing. *)
Lemma flagged_isr_composes_nothing_witness :
  let caps := [camera; effector; flagged] in
  applies_to (StrikeChainRule (f32_lit 8 10)) caps = true /\
  compose (StrikeChainRule (f32_lit 8 10)) caps context "u" = Some (Ok nothing).
Proof.
  split; [vm_compute; reflexivity|]. apply flagged_isr_composes_nothing; [apply numbers_of; vm_compute; reflexivity|].
  intros c Hc. apply list_elem_of_In in Hc as [<-|[<-|[<-|[]]]]; vm_compute; done.
Defined.

Lemma nan_confidence_panics_witness :
  compose (IsrChainRule (f32_lit 7 10)) [cap "broken" Sensor S754_nan JNull; camera; computer; radio] context "u" = None.
Proof. apply nan_confidence_panics; vm_compute; reflexivity. Defined.

(** Mapping applies because of a good camera and uses the first one, below the threshold. *)
Example mapping_picks_weak_camera :
  let weak := cap "weak" Sensor (f32_lit 1 10) (JObject [("sensor_type", JString "camera")]) in
  let caps := [weak; camera; lidar; computer] in
  let r := first_composed (compose (Mapping3dRule (f32_lit 6 10)) caps context "u") in
  applies_to (Mapping3dRule (f32_lit 6 10)) caps = true /\ cr_confidence r = f32_lit 1 10 /\
  contributing_capabilities r = ["weak"; "lidar"; "computer"].
Proof. vm_compute. auto. Qed.

(** A speed that is not a number is left out of the team's speed, but its owner is named
    as the limiting node. *)
Example textual_speed_limits_team :
  let fast := cap "fast" Mobility (f32_lit 9 10) (JObject [("max_speed", JInt 20)]) in
  let odd := cap "odd" Mobility (f32_lit 8 10) (JObject [("max_speed", JString "12")]) in
  let r := first_composed (compose (TeamSpeedConstraintRule 2) [fast; odd] context "u") in
  let c := nth 0 (composed_capabilities r) camera in
  meta_f64 "team_speed" c = Some (f64_of_Z 20) /\ meta_str "limiting_node" c = Some "odd".
Proof. vm_compute. auto. Qed.

End SampleTeam.
