(* ===== verification/Geohash.v ===== *)
(** * Geohashes

    Models peat-protocol/src/geohash.rs: the base-32 tables, the interleaving of bits
    ([spread], [squash]), [encode], [decode] and [neighbor]. Machine words are integers
    with their wrap-around, and coordinates are binary64 numbers; a shift by the whole
    width, which panics in a checked build, makes the outcome [None]. *)

From S2P Require Import Prelude Float Error.
From Stdlib Require Import SpecFloat.
From Stdlib Require Ascii.

Open Scope Z_scope.

(** ** binary64 as bits *)

Definition two52 : Z := 2 ^ 52.

(** [x.to_bits()] *)
Definition to_bits (x : spec_float) : Z :=
  match x with
  | S754_zero s => Z.shiftl (Z.b2z s) 63
  | S754_infinity s => Z.lor (Z.shiftl (Z.b2z s) 63) (Z.shiftl 2047 52)
  | S754_nan => Z.shiftl 4095 51
  | S754_finite s m e =>
      let sign := Z.shiftl (Z.b2z s) 63 in
      if Zpos m <? two52 then Z.lor sign (Zpos m) else Z.lor sign (Z.lor (Z.shiftl (e + 1075) 52) (Zpos m - two52))
  end.

(** [f64::from_bits(b)] of the bits of a normal number *)
Definition from_bits (b : Z) : spec_float :=
  let m := Z.land b (two52 - 1) + two52 in
  let e := Z.land (Z.shiftr b 52) 2047 - 1075 in
  match m with Zpos m => S754_finite (Z.testbit b 63) m e | _ => S754_nan end.

Definition f64_add := SFadd 53 1024.
Definition f64_sub := SFsub 53 1024.
Definition f64_mul := SFmul 53 1024.
Definition f64_div := SFdiv 53 1024.

(** [x % y] of finite numbers: exact, with the sign of [x] *)
Definition f64_rem (x y : spec_float) : spec_float :=
  match x, y with
  | S754_finite s m e, S754_finite _ m' e' =>
      let ez := Z.min e e' in
      let r := Z.rem (Zpos m * 2 ^ (e - ez)) (Zpos m' * 2 ^ (e' - ez)) in
      if r =? 0 then S754_zero s else binary_normalize 53 1024 (if s then - r else r) ez s
  | S754_zero s, S754_finite _ _ _ => x
  | S754_zero s, S754_infinity _ | S754_finite s _ _, S754_infinity _ => x
  | _, _ => S754_nan
  end.

(** [x.rem_euclid(y)] *)
Definition rem_euclid (x y : spec_float) : spec_float :=
  let r := f64_rem x y in if SFltb r (S754_zero false) then f64_add r (SFabs y) else r.

(** [2f64.powi(n)]: a power of two is exact. *)
Definition pow2_f64 (n : Z) : spec_float := binary_normalize 53 1024 1 n false.

Definition c180 : spec_float := f64_of_Z 180.
Definition c90 : spec_float := f64_of_Z 90.

(** ** Errors and directions *)

Inductive GeohashError :=
| InvalidHashCharacter (c : Ascii.ascii)
| InvalidCoordinateRange (lon lat : spec_float)
| InvalidLength (n : Z)
| InvalidHash (msg : string).

Inductive Direction := N | NE | E | SE | S_ | SW | W | NW.

Definition to_tuple (d : Direction) : spec_float * spec_float :=
  let m := f64_of_Z (-1) in let z := S754_zero false in let p := f64_of_Z 1 in
  match d with
  | SW => (m, m) | S_ => (m, z) | SE => (m, p) | W => (z, m) | E => (z, p) | NW => (p, m) | N => (p, z) | NE => (p, p)
  end.

Record Neighbors := mkNeighbors { n_sw : string; n_s : string; n_se : string; n_w : string;
                                  n_e : string; n_nw : string; n_n : string; n_ne : string }.

(** ** Tables *)

Definition BASE32_CODES : list Ascii.ascii := String.list_ascii_of_string "0123456789bcdefghjkmnpqrstuvwxyz".

Definition ff (n : nat) : list Z := replicate n 255.

Definition DECODER : list Z :=
  ff 48 ++ [0; 1; 2; 3; 4; 5; 6; 7; 8; 9] ++ ff 6 ++
  ff 32 ++
  ff 2 ++ [10; 11; 12; 13; 14; 15; 16] ++ ff 1 ++ [17; 18] ++ ff 1 ++ [19; 20] ++ ff 1 ++
  [21; 22; 23; 24; 25; 26; 27; 28; 29; 30; 31] ++ ff 5 ++ ff 128.

Definition code_char (code : Z) : Ascii.ascii := nth (Z.to_nat code) BASE32_CODES (Ascii.ascii_of_nat 0).
Definition char_code (c : Ascii.ascii) : Z := nth (Ascii.nat_of_ascii c) DECODER 255.

(** ** Interleaving *)

(** [(v | (v << k)) & mask] on [u64] *)
Definition spread_step (k mask v : Z) : Z := Z.land (Z.lor v (as_u64 (Z.shiftl v k))) mask.

Definition spread (x : Z) : Z :=
  let v := spread_step 16 0x0000ffff0000ffff x in
  let v := spread_step 8 0x00ff00ff00ff00ff v in
  let v := spread_step 4 0x0f0f0f0f0f0f0f0f v in
  let v := spread_step 2 0x3333333333333333 v in
  spread_step 1 0x5555555555555555 v.

Definition interleave (x y : Z) : Z := Z.lor (spread x) (as_u64 (Z.shiftl (spread y) 1)).

Definition squash_step (k mask v : Z) : Z := Z.land (Z.lor v (Z.shiftr v k)) mask.

Definition squash (x : Z) : Z :=
  let v := Z.land x 0x5555555555555555 in
  let v := squash_step 1 0x3333333333333333 v in
  let v := squash_step 2 0x0f0f0f0f0f0f0f0f v in
  let v := squash_step 4 0x00ff00ff00ff00ff v in
  let v := squash_step 8 0x0000ffff0000ffff v in
  as_u32 (squash_step 16 0x00000000ffffffff v).

Definition deinterleave (x : Z) : Z * Z := (squash x, squash (Z.shiftr x 1)).

(** ** Encoding and decoding *)

Definition in_range (bound x : spec_float) : bool := SFleb (SFopp bound) x && SFleb x bound.

(** The upper 32 bits of the mantissa of [x / (2 * range) + 1.5] *)
Definition lat_bits32 (lat : spec_float) : Z :=
  as_u32 (Z.shiftr (to_bits (f64_add (f64_mul lat (f64_lit 5555555555555556 (10 ^ 18))) (f64_lit 3 2))) 20).
Definition lon_bits32 (lon : spec_float) : Z :=
  as_u32 (Z.shiftr (to_bits (f64_add (f64_mul lon (f64_lit 2777777777777778 (10 ^ 18))) (f64_lit 3 2))) 20).

(** The loop of [encode]: five bits for each character, from the top *)
Fixpoint emit (n : nat) (interleaved : Z) : string :=
  match n with
  | O => EmptyString
  | S n => String (code_char (Z.land (Z.shiftr interleaved 59) 0x1f)) (emit n (as_u64 (Z.shiftl interleaved 5)))
  end.

Definition encode (lon lat : spec_float) (n : Z) : result GeohashError string :=
  if negb (in_range c180 lon) || negb (in_range c90 lat) then Err (InvalidCoordinateRange lon lat)
  else if negb ((1 <=? n) && (n <=? 12)) then Err (InvalidLength n)
  else Ok (emit (Z.to_nat n) (interleave (lat_bits32 lat) (lon_bits32 lon))).

Definition decode_range (x : Z) (r : spec_float) : spec_float :=
  let p := from_bits (Z.lor (Z.shiftl x 20) (Z.shiftl 1023 52)) in
  f64_sub (f64_mul (f64_mul (f64_of_Z 2) r) (f64_sub p (f64_of_Z 1))) r.

Definition error_with_precision (bits : Z) : spec_float * spec_float :=
  let lat_bits := bits / 2 in
  let lon_bits := bits - lat_bits in
  (f64_mul c180 (pow2_f64 (- lat_bits)), f64_mul (f64_of_Z 360) (pow2_f64 (- lon_bits))).

(** The loop of [decode] *)
Fixpoint absorb (s : string) (int_hash : Z) : result GeohashError Z :=
  match s with
  | EmptyString => Ok int_hash
  | String c s =>
      let val := char_code c in
      if val =? 255 then Err (InvalidHashCharacter c) else absorb s (Z.lor (as_u64 (Z.shiftl int_hash 5)) val)
  end.

(** [int_hash << (64 - bits)]: a shift by 64 panics. *)
Definition full_hash (bits int_hash : Z) : option Z :=
  if bits =? 0 then None else Some (as_u64 (Z.shiftl int_hash (64 - bits))).

Definition str_len (s : string) : Z := Z.of_nat (String.length s).

Definition decode (hash_str : string) : option (result GeohashError (spec_float * spec_float * spec_float * spec_float)) :=
  let bits := str_len hash_str * 5 in
  if 12 <? str_len hash_str then Some (Err (InvalidHash "hash length exceeds maximum of 12"))
  else match absorb hash_str 0 with
       | Err e => Some (Err e)
       | Ok int_hash =>
           full ← full_hash bits int_hash;
           let '(lat_int, lon_int) := deinterleave full in
           let lat := decode_range lat_int c90 in
           let lon := decode_range lon_int c180 in
           let '(lat_err, lon_err) := error_with_precision bits in
           let half x := f64_div x (f64_of_Z 2) in
           Some (Ok (f64_add lon (half lon_err), f64_add lat (half lat_err), half lon_err, half lat_err))
       end.

Definition neighbor (hash_str : string) (d : Direction) : option (result GeohashError string) :=
  r ← decode hash_str;
  match r with
  | Err e => Some (Err e)
  | Ok (lon, lat, lon_err, lat_err) =>
      let '(dlat, dlon) := to_tuple d in
      let move x err dx bound full :=
        f64_sub (rem_euclid (f64_add (f64_add x (f64_mul (f64_mul (f64_of_Z 2) (SFabs err)) dx)) bound) full) bound in
      Some (encode (move lon lon_err dlon c180 (f64_of_Z 360)) (move lat lat_err dlat c90 c180) (str_len hash_str))
  end.

Definition neighbors (hash_str : string) : option (result GeohashError Neighbors) :=
  let at_ d (k : string -> option (result GeohashError Neighbors)) :=
    r ← neighbor hash_str d; match r with Err e => Some (Err e) | Ok s => k s end in
  at_ SW (fun sw => at_ S_ (fun s => at_ SE (fun se => at_ W (fun w => at_ E (fun e =>
  at_ NW (fun nw => at_ N (fun n => at_ NE (fun ne =>
    Some (Ok (mkNeighbors sw s se w e nw n ne)))))))))).

(** ** Bits *)

Lemma as_u64_bit v i : 0 <= i -> Z.testbit (as_u64 v) i = (i <? 64) && Z.testbit v i.
Proof.
  intros Hi. unfold as_u64, u64_modulus. destruct (Z.ltb_spec i 64).
  - by rewrite Z.mod_pow2_bits_low by lia.
  - by rewrite Z.mod_pow2_bits_high by lia.
Qed.

Lemma as_u32_bit v i : 0 <= i -> Z.testbit (as_u32 v) i = (i <? 32) && Z.testbit v i.
Proof.
  intros Hi. unfold as_u32, u32_modulus. destruct (Z.ltb_spec i 32).
  - by rewrite Z.mod_pow2_bits_low by lia.
  - by rewrite Z.mod_pow2_bits_high by lia.
Qed.

(** A shift-and-mask routine copies bits: each bit of its result is a disjunction of bits
    of its argument, whose positions a program computes from the masks alone. *)
Definition sources (v : Z) (src : Z -> list Z) (x : Z) : Prop :=
  forall i, 0 <= i -> Z.testbit v i = existsb (Z.testbit x) (src i).

Definition spread_src (k mask : Z) (src : Z -> list Z) (i : Z) : list Z :=
  if Z.testbit mask i then src i ++ (if (i <? 64) && (k <=? i) then src (i - k) else []) else [].

Definition squash_src (k mask : Z) (src : Z -> list Z) (i : Z) : list Z :=
  if Z.testbit mask i then src i ++ src (i + k) else [].

Lemma spread_step_sources k mask v src x :
  0 <= k -> sources v src x -> sources (spread_step k mask v) (spread_src k mask src) x.
Proof.
  intros Hk Hv i Hi. unfold spread_step, spread_src. rewrite Z.land_spec, Z.lor_spec, as_u64_bit, Z.shiftl_spec by lia.
  destruct (Z.testbit mask i); [|apply andb_false_r]. rewrite andb_true_r, existsb_app, (Hv i Hi). f_equal.
  destruct (i <? 64); [|done]. cbn [andb]. destruct (Z.leb_spec k i); [by rewrite (Hv (i - k)) by lia|].
  by rewrite Z.testbit_neg_r by lia.
Qed.

Lemma squash_step_sources k mask v src x :
  0 <= k -> sources v src x -> sources (squash_step k mask v) (squash_src k mask src) x.
Proof.
  intros Hk Hv i Hi. unfold squash_step, squash_src. rewrite Z.land_spec, Z.lor_spec, Z.shiftr_spec by lia.
  destruct (Z.testbit mask i); [|apply andb_false_r]. by rewrite andb_true_r, existsb_app, (Hv i Hi), (Hv (i + k)) by lia.
Qed.

Lemma word_bit n x i : 0 <= x < 2 ^ n -> n <= i -> 0 <= n -> Z.testbit x i = false.
Proof. intros Hx Hi Hn. rewrite <- (Z.mod_small x (2 ^ n)) by lia. by apply Z.mod_pow2_bits_high. Qed.

Definition bits_of (n : Z) (i : Z) : list Z := if i <? n then [i] else [].

Lemma word_sources n x : 0 <= n -> 0 <= x < 2 ^ n -> sources x (bits_of n) x.
Proof.
  intros Hn Hx i Hi. unfold bits_of. destruct (Z.ltb_spec i n); [cbn; by rewrite orb_false_r|].
  by apply (word_bit n).
Qed.

Definition same (a b : list Z) : bool := bool_decide (a = b).

(** An index below a bound is checked for all indices by computation. *)
Lemma all_below (P : Z -> bool) n :
  forallb P (map Z.of_nat (seq 0 n)) = true -> forall i, 0 <= i < Z.of_nat n -> P i = true.
Proof.
  intros Hall i Hi. rewrite forallb_forall in Hall. apply Hall, in_map_iff. exists (Z.to_nat i).
  split; [lia|]. apply in_seq. lia.
Qed.

Definition spread_sources : Z -> list Z :=
  spread_src 1 0x5555555555555555 (spread_src 2 0x3333333333333333 (spread_src 4 0x0f0f0f0f0f0f0f0f
    (spread_src 8 0x00ff00ff00ff00ff (spread_src 16 0x0000ffff0000ffff (bits_of 32))))).

Definition squash_sources : Z -> list Z :=
  squash_src 16 0x00000000ffffffff (squash_src 8 0x0000ffff0000ffff (squash_src 4 0x00ff00ff00ff00ff
    (squash_src 2 0x0f0f0f0f0f0f0f0f (squash_src 1 0x3333333333333333
      (fun i => if Z.testbit 0x5555555555555555 i then [i] else []))))).

(** [spread] puts bit [j] of a word at position [2 * j]. *)
Lemma spread_bit x i :
  is_u32 x -> 0 <= i -> Z.testbit (spread x) i = (i <? 64) && Z.even i && Z.testbit x (i / 2).
Proof.
  intros Hx Hi. assert (sources (spread x) spread_sources x) as Hs.
  { unfold spread. do 5 (apply spread_step_sources; [lia|]). by apply word_sources. }
  rewrite (Hs i Hi). destruct (Z.ltb_spec i 64) as [Hlt|Hge]; cbn [andb].
  - assert (same (spread_sources i) (if Z.even i then [i / 2] else []) = true) as E%bool_decide_eq_true.
    { apply (all_below (fun i => same (spread_sources i) (if Z.even i then [i / 2] else [])) 64); [by vm_compute|lia]. }
    rewrite E. destruct (Z.even i); [cbn; by rewrite orb_false_r|done].
  - unfold spread_sources, spread_src at 1. by rewrite (word_bit 64 0x5555555555555555 i) by (done || lia).
Qed.

(** [squash] collects the bits at even positions. *)
Lemma squash_bit x i : 0 <= i -> Z.testbit (squash x) i = (i <? 32) && Z.testbit x (2 * i).
Proof.
  intros Hi. unfold squash. cbv zeta. rewrite as_u32_bit by done.
  set (v := squash_step 16 _ _). assert (sources v squash_sources x) as Hs.
  { subst v. do 5 (apply squash_step_sources; [lia|]). intros j Hj. rewrite Z.land_spec.
    destruct (Z.testbit 0x5555555555555555 j); [cbn; by rewrite andb_true_r, orb_false_r|apply andb_false_r]. }
  destruct (Z.ltb_spec i 32); [|done]. cbn [andb]. rewrite (Hs i Hi).
  assert (same (squash_sources i) [2 * i] = true) as E%bool_decide_eq_true.
  { apply (all_below (fun i => same (squash_sources i) [2 * i]) 32); [by vm_compute|lia]. }
  rewrite E. cbn. apply orb_false_r.
Qed.

Lemma shiftl_one_bit v i : 0 <= i -> Z.testbit (Z.shiftl v 1) i = (0 <? i) && Z.testbit v (i - 1).
Proof.
  intros Hi. rewrite Z.shiftl_spec by done. destruct (Z.ltb_spec 0 i); [done|]. by rewrite Z.testbit_neg_r by lia.
Qed.

Lemma interleave_bit x y i :
  is_u32 x -> is_u32 y -> 0 <= i ->
  Z.testbit (interleave x y) i = (i <? 64) && Z.testbit (if Z.even i then x else y) (i / 2).
Proof.
  intros Hx Hy Hi. unfold interleave. rewrite Z.lor_spec, as_u64_bit, shiftl_one_bit, spread_bit by done.
  destruct (Z.ltb_spec i 64); [|done]. cbn [andb]. destruct (Z.even i) eqn:Ev.
  - cbn [andb]. destruct (Z.ltb_spec 0 i); cbn [andb]; [|by rewrite orb_false_r].
    rewrite spread_bit by (done || lia). replace (Z.even (i - 1)) with false by (rewrite Z.even_sub, Ev; done).
    by rewrite andb_false_r, orb_false_r.
  - cbn [andb orb]. assert (0 < i) by (destruct (Z.eq_dec i 0) as [->|]; [done|lia]).
    destruct (Z.ltb_spec 0 i); [|lia]. cbn [andb]. rewrite spread_bit by (done || lia).
    replace (Z.even (i - 1)) with true by (rewrite Z.even_sub, Ev; done).
    destruct (Z.ltb_spec (i - 1) 64); [|lia]. cbn [andb]. f_equal.
    rewrite <- Z.negb_odd in Ev. apply negb_false_iff, Z.odd_spec in Ev as [k ->].
    rewrite (Z.mul_comm 2 k), Z.add_simpl_r, Z.div_mul by lia. by rewrite Z.div_add_l, Z.add_0_r by lia.
Qed.

Lemma word_from_bits n v : 0 <= n -> (forall i, n <= i -> Z.testbit v i = false) -> 0 <= v -> v < 2 ^ n.
Proof.
  intros Hn Hv Hp. destruct (Z.lt_ge_cases v (2 ^ n)) as [|Hge]; [done|]. exfalso.
  pose proof (Z.pow_pos_nonneg 2 n). assert (n <= Z.log2 v) as Hl by (rewrite <- (Z.log2_pow2 n) by done; by apply Z.log2_le_mono).
  specialize (Hv _ Hl). by rewrite Z.bit_log2 in Hv by lia.
Qed.

Lemma spread_nonneg x : 0 <= spread x.
Proof. unfold spread, spread_step. apply Z.land_nonneg. right. lia. Qed.

Lemma as_u64_range v : is_u64 (as_u64 v).
Proof. unfold is_u64, as_u64, u64_modulus. apply Z.mod_pos_bound. lia. Qed.

Lemma interleave_range x y : is_u32 x -> is_u32 y -> is_u64 (interleave x y).
Proof.
  intros Hx Hy. assert (0 <= interleave x y) as Hn.
  { apply Z.lor_nonneg. split; [apply spread_nonneg|apply as_u64_range]. }
  split; [done|]. apply word_from_bits; [done| |done]. intros i Hi. rewrite interleave_bit by (done || lia).
  by destruct (Z.ltb_spec i 64); [lia|].
Qed.

Lemma squash_nonneg x : 0 <= squash x.
Proof. apply as_u32_range. Qed.

(** Two words are recovered from their interleaving. *)
Lemma deinterleave_interleave x y : is_u32 x -> is_u32 y -> deinterleave (interleave x y) = (x, y).
Proof.
  intros Hx Hy. unfold deinterleave. f_equal; apply Z.bits_inj'; intros i Hi; rewrite squash_bit by done.
  - rewrite interleave_bit by (done || lia). rewrite Z.even_mul. cbn [orb]. rewrite (Z.mul_comm 2), Z.div_mul by lia.
    destruct (Z.ltb_spec i 32); destruct (Z.ltb_spec (i * 2) 64); try lia; cbn [andb]; [done|].
    symmetry. apply (word_bit 32); [exact Hx|lia|lia].
  - rewrite Z.shiftr_spec, interleave_bit by (done || lia). rewrite Z.even_add, Z.even_mul, (Z.mul_comm 2 i), Z.div_add_l by lia.
    change (1 / 2) with 0. rewrite Z.add_0_r. cbn [Z.even orb Bool.eqb].
    destruct (Z.ltb_spec i 32); destruct (Z.ltb_spec (i * 2 + 1) 64); try lia; cbn [andb]; [done|].
    symmetry. apply (word_bit 32); [exact Hy|lia|lia].
Qed.

(** ** Characters *)

Lemma code_roundtrip c : 0 <= c < 32 -> char_code (code_char c) = c.
Proof.
  intros Hc. apply Z.eqb_eq. apply (all_below (fun c => char_code (code_char c) =? c) 32); [by vm_compute|lia].
Qed.

Lemma char_roundtrip c : char_code c <> 255 -> 0 <= char_code c < 32 /\ code_char (char_code c) = c.
Proof.
  destruct c as [b0 b1 b2 b3 b4 b5 b6 b7].
  destruct b0, b1, b2, b3, b4, b5, b6, b7; vm_compute; intros H; (done || (by destruct H) || by split).
Qed.

Lemma lor_small a b : 0 <= b < 32 -> Z.lor (Z.shiftl a 5) b = a * 32 + b.
Proof.
  intros Hb. rewrite Z.shiftl_mul_pow2 by lia. change (2 ^ 5) with 32.
  rewrite <- Z.lxor_lor, <- Z.add_nocarry_lxor; [done| |].
  all: apply Z.bits_inj'; intros i Hi; rewrite Z.land_spec, Z.bits_0; change 32 with (2 ^ 5) at 1;
    rewrite <- Z.shiftl_mul_pow2, Z.shiftl_spec by lia; destruct (Z.lt_ge_cases i 5).
  all: try by rewrite Z.testbit_neg_r by lia.
  all: rewrite (word_bit 5 b i) by (change (2 ^ 5) with 32; lia); apply andb_false_r.
Qed.

(** The five bits of a character and the rest of a word *)
Lemma top_bits v : is_u64 v -> Z.land (Z.shiftr v 59) 0x1f = v / 2 ^ 59 /\ as_u64 (Z.shiftl v 5) = v mod 2 ^ 59 * 32.
Proof.
  unfold is_u64, u64_modulus. intros Hv. split.
  - rewrite Z.shiftr_div_pow2 by lia. change 0x1f with (Z.ones 5). rewrite Z.land_ones by lia. apply Z.mod_small.
    split; [apply Z.div_pos; lia|]. apply Z.div_lt_upper_bound; [lia|]. change (2 ^ 59 * 2 ^ 5) with (2 ^ 64). lia.
  - unfold as_u64, u64_modulus. rewrite Z.shiftl_mul_pow2 by lia. change (2 ^ 64) with (2 ^ 59 * 2 ^ 5).
    by rewrite Z.mul_mod_distr_r by lia.
Qed.

(** Reading the characters of a word gives its leading bits. *)
Lemma absorb_emit n v acc :
  is_u64 v -> (n <= 12)%nat -> 0 <= acc < 2 ^ (64 - 5 * Z.of_nat n) ->
  absorb (emit n v) acc = Ok (acc * 2 ^ (5 * Z.of_nat n) + v / 2 ^ (64 - 5 * Z.of_nat n)).
Proof.
  revert v acc. induction n as [|n IH]; intros v acc Hv Hn Hacc.
  { cbn [emit absorb]. change (5 * Z.of_nat 0) with 0. rewrite Z.pow_0_r, Z.sub_0_r, (Z.div_small v) by exact Hv. f_equal. lia. }
  cbn [emit absorb]. destruct (top_bits v Hv) as [-> ->]. unfold is_u64, u64_modulus in Hv.
  assert (0 <= v / 2 ^ 59 < 32) as Ht.
  { split; [apply Z.div_pos; lia|]. apply Z.div_lt_upper_bound; [lia|]. change (2 ^ 59 * 32) with (2 ^ 64). lia. }
  rewrite code_roundtrip by done. destruct (Z.eqb_spec (v / 2 ^ 59) 255); [lia|].
  set (k := 64 - 5 * Z.of_nat (S n)) in *. assert (4 <= k <= 59) by lia.
  pose proof (Z.mod_pos_bound v (2 ^ 59) ltac:(lia)) as Hm. pose proof (Z.pow_pos_nonneg 2 k ltac:(lia) ltac:(lia)) as Pk.
  assert (as_u64 (Z.shiftl acc 5) = Z.shiftl acc 5) as ->.
  { unfold as_u64, u64_modulus. rewrite Z.shiftl_mul_pow2 by lia. apply Z.mod_small.
    assert (2 ^ k <= 2 ^ 59) by (apply Z.pow_le_mono_r; lia). change (2 ^ 64) with (2 ^ 59 * 2 ^ 5). nia. }
  assert (64 - 5 * Z.of_nat n = k + 5) as E by lia.
  rewrite lor_small by done. rewrite IH; [|unfold is_u64, u64_modulus; change (2 ^ 64) with (2 ^ 59 * 32); nia|lia|].
  2: { rewrite E, Z.pow_add_r by lia. change (2 ^ 5) with 32. nia. }
  rewrite E. f_equal. replace (5 * Z.of_nat (S n)) with (5 * Z.of_nat n + 5) by lia. rewrite !Z.pow_add_r by lia.
  change (2 ^ 5) with 32. rewrite Z.div_mul_cancel_r by lia.
  assert (v / 2 ^ k = v / 2 ^ 59 * 2 ^ (5 * Z.of_nat n) + v mod 2 ^ 59 / 2 ^ k) as ->; [|lia].
  replace (5 * Z.of_nat n) with (59 - k) by lia. rewrite <- Z.div_add_l by lia. f_equal.
  rewrite <- Z.mul_assoc, <- Z.pow_add_r by lia. replace (59 - k + k) with 59 by lia.
  pose proof (Z.div_mod v (2 ^ 59)). lia.
Qed.

(** Printing the bits read from a text gives the text back. *)
Lemma emit_absorb s acc h :
  absorb s acc = Ok h -> (String.length s <= 12)%nat -> 0 <= acc < 2 ^ (64 - 5 * str_len s) ->
  exists r, 0 <= r < 2 ^ (5 * str_len s) /\ h = acc * 2 ^ (5 * str_len s) + r /\
    emit (String.length s) (r * 2 ^ (64 - 5 * str_len s)) = s.
Proof.
  unfold str_len. revert acc. induction s as [|c s IH]; intros acc; cbn [absorb String.length].
  { intros [= <-] _ _. exists 0. change (5 * Z.of_nat 0) with 0. rewrite Z.pow_0_r. split_and!; (done || lia). }
  destruct (Z.eqb_spec (char_code c) 255) as [|Hc]; [done|]. intros E Hl Hacc.
  destruct (char_roundtrip c Hc) as [Hr Hcc]. set (n := String.length s) in *.
  set (k := 64 - 5 * Z.of_nat (S n)) in *. assert (4 <= k <= 59) by lia.
  pose proof (Z.pow_pos_nonneg 2 k ltac:(lia) ltac:(lia)) as Pk.
  assert (as_u64 (Z.shiftl acc 5) = Z.shiftl acc 5) as E5.
  { unfold as_u64, u64_modulus. rewrite Z.shiftl_mul_pow2 by lia. apply Z.mod_small.
    assert (2 ^ k <= 2 ^ 59) by (apply Z.pow_le_mono_r; lia). change (2 ^ 64) with (2 ^ 59 * 2 ^ 5). nia. }
  rewrite E5, lor_small in E by done. apply IH in E as (r & Hrr & -> & Hem); [|lia|].
  2: { replace (64 - 5 * Z.of_nat n) with (k + 5) by lia. rewrite Z.pow_add_r by lia. change (2 ^ 5) with 32. nia. }
  set (p := 2 ^ (5 * Z.of_nat n)) in *. assert (2 ^ (5 * Z.of_nat (S n)) = p * 32) as Ep.
  { subst p. change 32 with (2 ^ 5). rewrite <- Z.pow_add_r by lia. f_equal. lia. }
  exists (char_code c * p + r). rewrite Ep. split_and!; [nia|nia|lia|].
  assert (p * 2 ^ k = 2 ^ 59) as Epk by (subst p; rewrite <- Z.pow_add_r by lia; f_equal; lia).
  assert (0 <= r * 2 ^ k < 2 ^ 59) as Hlow by nia.
  rewrite Z.mul_add_distr_r, <- Z.mul_assoc, Epk.
  assert (is_u64 (char_code c * 2 ^ 59 + r * 2 ^ k)) as Hu.
  { unfold is_u64, u64_modulus. change (2 ^ 64) with (32 * 2 ^ 59). nia. }
  cbn [emit]. destruct (top_bits _ Hu) as [-> ->].
  rewrite Z.div_add_l, (Z.div_small (r * 2 ^ k)), Z.add_0_r, Hcc by lia. f_equal.
  rewrite Z.add_comm, Z.mod_add, Z.mod_small by lia. etransitivity; [|exact Hem]. f_equal.
  replace (64 - 5 * Z.of_nat n) with (k + 5) by lia. rewrite Z.pow_add_r by lia. change (2 ^ 5) with 32. lia.
Qed.

Lemma emit_length n v : String.length (emit n v) = n.
Proof. revert v. induction n as [|n IH]; intros v; [done|]. cbn. by rewrite IH. Qed.

Lemma emit_prefix n m v : (n <= m)%nat -> String.prefix (emit n v) (emit m v) = true.
Proof.
  revert m v. induction n as [|n IH]; intros m v Hm; [by destruct (emit m v)|]. destruct m as [|m]; [lia|].
  cbn [emit String.prefix]. destruct (Ascii.ascii_dec _ _); [|done]. apply IH. lia.
Qed.

Lemma encode_ok lon lat n s :
  encode lon lat n = Ok s -> 1 <= n <= 12 /\ s = emit (Z.to_nat n) (interleave (lat_bits32 lat) (lon_bits32 lon)).
Proof.
  unfold encode. destruct (_ || _); [done|]. destruct (Z.leb_spec 1 n), (Z.leb_spec n 12); cbn [andb negb]; try done.
  by intros [= <-].
Qed.

Lemma lat_bits32_range lat : is_u32 (lat_bits32 lat).
Proof. apply as_u32_range. Qed.
Lemma lon_bits32_range lon : is_u32 (lon_bits32 lon).
Proof. apply as_u32_range. Qed.

(** The words a hash text stands for: the cell [decode] works with *)
Definition cell_of (s : string) : option (Z * Z) :=
  match absorb s 0 with
  | Ok h => deinterleave <$> full_hash (str_len s * 5) h
  | Err _ => None
  end.

Definition clear_low (k x : Z) : Z := x / 2 ^ k * 2 ^ k.

Lemma clear_low_bit k x i : 0 <= k -> 0 <= i -> Z.testbit (clear_low k x) i = (k <=? i) && Z.testbit x i.
Proof.
  intros Hk Hi. unfold clear_low. rewrite <- Z.shiftr_div_pow2, <- Z.shiftl_mul_pow2, Z.shiftl_spec by lia.
  destruct (Z.leb_spec k i); [|by rewrite Z.testbit_neg_r by lia]. rewrite Z.shiftr_spec by lia. cbn [andb]. f_equal. lia.
Qed.

(** The words of the hash of a coordinate are its own with the low bits cleared. *)
Lemma cell_of_encode lon lat n s :
  encode lon lat n = Ok s ->
  let lat_bits := 5 * n / 2 in
  let lon_bits := 5 * n - lat_bits in
  cell_of s = Some (clear_low (32 - lat_bits) (lat_bits32 lat), clear_low (32 - lon_bits) (lon_bits32 lon)).
Proof.
  intros [Hn ->]%encode_ok lat_bits lon_bits. unfold cell_of.
  pose proof (lat_bits32_range lat) as Hx. pose proof (lon_bits32_range lon) as Hy.
  set (x := lat_bits32 lat) in *. set (y := lon_bits32 lon) in *. pose proof (interleave_range x y Hx Hy) as Hv.
  rewrite absorb_emit; [|done|lia|]. 2: { split; [lia|]. apply Z.pow_pos_nonneg; lia. }
  unfold str_len. rewrite emit_length, Z2Nat.id by lia. unfold full_hash. destruct (Z.eqb_spec (n * 5) 0); [lia|].
  rewrite Z.mul_0_l, Z.add_0_l, (Z.mul_comm n). cbn [fmap option_fmap option_map]. f_equal.
  set (v := interleave x y) in *. set (j := 64 - 5 * n).
  assert (forall i, 0 <= i -> Z.testbit (as_u64 (Z.shiftl (v / 2 ^ j) j)) i = (j <=? i) && Z.testbit v i) as Hf.
  { intros i Hi. rewrite as_u64_bit, Z.shiftl_mul_pow2 by lia. fold (clear_low j v). rewrite clear_low_bit by lia.
    destruct (Z.ltb_spec i 64); [done|]. by rewrite (word_bit 64 v i), andb_false_r by (done || lia). }
  subst lat_bits lon_bits. unfold deinterleave. f_equal; apply Z.bits_inj'; intros i Hi.
  - rewrite squash_bit, Hf, clear_low_bit by (done || (Z.div_mod_to_equations; lia)).
    unfold v. rewrite interleave_bit by (done || lia). rewrite Z.even_mul. cbn [orb]. rewrite (Z.mul_comm 2 i), Z.div_mul by lia.
    destruct (Z.ltb_spec i 32); cbn [andb].
    + destruct (Z.ltb_spec (i * 2) 64); [|lia]. cbn [andb]. f_equal. apply eq_true_iff_eq. rewrite !Z.leb_le.
      Z.div_mod_to_equations. lia.
    + by rewrite (word_bit 32 x i), andb_false_r by (done || lia).
  - rewrite squash_bit, Z.shiftr_spec, Hf, clear_low_bit by (done || (Z.div_mod_to_equations; lia)).
    unfold v. rewrite interleave_bit by (done || lia). rewrite Z.even_add, Z.even_mul, (Z.mul_comm 2 i), Z.div_add_l by lia.
    change (1 / 2) with 0. rewrite Z.add_0_r. cbn [Z.even orb Bool.eqb]. destruct (Z.ltb_spec i 32); cbn [andb].
    + destruct (Z.ltb_spec (i * 2 + 1) 64); [|lia]. cbn [andb]. f_equal. apply eq_true_iff_eq. rewrite !Z.leb_le.
      Z.div_mod_to_equations. lia.
    + by rewrite (word_bit 32 y i), andb_false_r by (done || lia).
Qed.

Lemma decode_cell s lat_int lon_int :
  str_len s <= 12 -> cell_of s = Some (lat_int, lon_int) ->
  decode s =
    let '(lat_err, lon_err) := error_with_precision (str_len s * 5) in
    let half x := f64_div x (f64_of_Z 2) in
    Some (Ok (f64_add (decode_range lon_int c180) (half lon_err), f64_add (decode_range lat_int c90) (half lat_err),
              half lon_err, half lat_err)).
Proof.
  intros Hl. unfold cell_of, decode. destruct (Z.ltb_spec 12 (str_len s)); [lia|].
  destruct (absorb s 0) as [h|]; [|done]. destruct (full_hash (str_len s * 5) h) as [full|]; [|done].
  cbn [fmap option_fmap option_map mbind option_bind]. intros Hd%(inj Some). by rewrite Hd.
Qed.

(** C31: encoding and decoding fit together. Every coordinate in range has a hash of
    every length [n] from one to twelve characters, and decoding it yields the middle
    of the cell whose corner is at the leading [5 n / 2] bits of the 32-bit latitude word and
    the leading [5 n - 5 n / 2] bits of the 32-bit longitude word of the coordinate, with
    half the sides of that cell as the error. *)
Theorem decode_encoded_point lon lat n :
  in_range c180 lon = true -> in_range c90 lat = true -> 1 <= n <= 12 ->
  let lat_bits := 5 * n / 2 in
  let lon_bits := 5 * n - lat_bits in
  let lat_corner := decode_range (clear_low (32 - lat_bits) (lat_bits32 lat)) c90 in
  let lon_corner := decode_range (clear_low (32 - lon_bits) (lon_bits32 lon)) c180 in
  let '(lat_side, lon_side) := error_with_precision (5 * n) in
  let half x := f64_div x (f64_of_Z 2) in
  exists s, encode lon lat n = Ok s /\ str_len s = n /\
    decode s = Some (Ok (f64_add lon_corner (half lon_side), f64_add lat_corner (half lat_side),
                         half lon_side, half lat_side)).
Proof.
  intros Hlon Hlat Hn. cbv zeta. destruct (error_with_precision (5 * n)) as [lat_side lon_side] eqn:Ee.
  destruct (encode lon lat n) as [s|e] eqn:E.
  2: { unfold encode in E. rewrite Hlon, Hlat in E. cbn [negb orb] in E.
       destruct (Z.leb_spec 1 n), (Z.leb_spec n 12); try lia. discriminate E. }
  exists s. pose proof (cell_of_encode lon lat n s E) as Hc. apply encode_ok in E as [_ ->].
  assert (str_len (emit (Z.to_nat n) (interleave (lat_bits32 lat) (lon_bits32 lon))) = n) as El
    by (unfold str_len; rewrite emit_length; lia).
  apply decode_cell in Hc; [|by rewrite El; lia]. split_and!; [done..|]. rewrite Hc, El, (Z.mul_comm n). by rewrite Ee.
Qed.

(** Hash texts and cells correspond: a text of one to twelve characters that the
    decoder accepts is exactly what the encoder prints for the words it was decoded to. *)
Theorem hash_text_roundtrip s h full :
  (1 <= String.length s <= 12)%nat -> absorb s 0 = Ok h -> full_hash (str_len s * 5) h = Some full ->
  emit (String.length s) full = s /\
  exists lat lon, is_u32 lat /\ is_u32 lon /\ deinterleave full = (lat, lon) /\ interleave lat lon = full.
Proof.
  intros Hl Hs Hf. assert (0 < str_len s <= 12) as Hn by (unfold str_len; lia).
  destruct (emit_absorb s 0 h Hs ltac:(lia)) as (r & Hr & -> & Hem); [split; [lia|]; apply Z.pow_pos_nonneg; lia|].
  rewrite Z.mul_0_l, Z.add_0_l in *. unfold full_hash in Hf. destruct (Z.eqb_spec (str_len s * 5) 0); [lia|].
  rewrite (Z.mul_comm _ 5) in Hf. apply (inj Some) in Hf. subst full.
  set (k := 64 - 5 * str_len s) in *. pose proof (Z.pow_pos_nonneg 2 k ltac:(lia) ltac:(lia)).
  assert (as_u64 (Z.shiftl r k) = r * 2 ^ k) as ->.
  { unfold as_u64, u64_modulus. rewrite Z.shiftl_mul_pow2 by lia. apply Z.mod_small.
    replace (2 ^ 64) with (2 ^ (5 * str_len s) * 2 ^ k) by (rewrite <- Z.pow_add_r by lia; f_equal; lia). nia. }
  split; [done|]. set (v := r * 2 ^ k). exists (squash v), (squash (Z.shiftr v 1)).
  split_and!; [apply as_u32_range..|done|]. apply Z.bits_inj'. intros i Hi.
  rewrite interleave_bit by (done || apply as_u32_range). destruct (Z.ltb_spec i 64); cbn [andb].
  - destruct (Z.even i) eqn:Ev; rewrite squash_bit by (apply Z.div_pos; lia).
    + apply Z.even_spec in Ev as [j ->]. rewrite (Z.mul_comm 2 j), Z.div_mul by lia.
      destruct (Z.ltb_spec j 32); [|lia]. cbn [andb]. f_equal. lia.
    + rewrite <- Z.negb_odd in Ev. apply negb_false_iff, Z.odd_spec in Ev as [j ->].
      rewrite (Z.mul_comm 2 j), Z.div_add_l, Z.add_0_r by lia. rewrite Z.shiftr_spec by lia.
      destruct (Z.ltb_spec j 32); [|lia]. cbn [andb]. f_equal. lia.
  - symmetry. apply (word_bit 64); [|lia|lia]. subst v.
    replace (2 ^ 64) with (2 ^ (5 * str_len s) * 2 ^ k) by (rewrite <- Z.pow_add_r by lia; f_equal; lia). nia.
Qed.

(** A coarser hash of a point is a prefix of every finer one, so cells nest. *)
Theorem hashes_nest lon lat n m s t :
  encode lon lat n = Ok s -> encode lon lat m = Ok t -> n <= m -> String.prefix s t = true /\ str_len s = n.
Proof.
  intros [Hn ->]%encode_ok [Hm ->]%encode_ok Hle. split; [apply emit_prefix; lia|].
  unfold str_len. rewrite emit_length. lia.
Qed.

(** The two poles share their hashes at every longitude and precision: at 90 degrees the
    sum whose mantissa is taken reaches 2. *)
Theorem poles_share_hashes lon n : in_range c180 lon = true -> encode lon c90 n = encode lon (SFopp c90) n.
Proof.
  intros Hlon. unfold encode. rewrite Hlon. change (in_range c90 c90) with true. change (in_range c90 (SFopp c90)) with true.
  change (lat_bits32 c90) with 0. change (lat_bits32 (SFopp c90)) with 0. done.
Qed.

(** The empty text is not rejected: decoding it shifts a word by its whole width. *)
Theorem empty_hash_panics : decode "" = None.
Proof. done. Qed.

Module SampleHash.
Definition lon := f64_lit (-5603) 1000.
Definition lat := f64_lit 42605 1000.

Lemma decode_encoded_point_witness :
  exists s, encode lon lat 5 = Ok s /\ str_len s = 5 /\
    decode s = Some (Ok (f64_lit (-560302734375) 100000000000, f64_lit 4260498046875 100000000000,
                         f64_lit 2197265625 100000000000, f64_lit 2197265625 100000000000)).
Proof. apply (decode_encoded_point lon lat 5); [vm_compute; reflexivity..|lia]. Defined.

Lemma hash_text_roundtrip_witness : emit 5 (Z.shiftl 14672002 39) = "ezs42"%string.
Proof.
  refine (proj1 (hash_text_roundtrip "ezs42" 14672002 (Z.shiftl 14672002 39) _ _ _)); [split; apply Nat.leb_le; reflexivity|vm_compute; reflexivity..].
Defined.

Lemma hashes_nest_witness : String.prefix "ezs42" "ezs42s00" = true.
Proof. refine (proj1 (hashes_nest lon lat 5 8 "ezs42" "ezs42s00" _ _ _)); [vm_compute; reflexivity..|lia]. Defined.

Lemma poles_share_hashes_witness : encode lon c90 7 = encode lon (SFopp c90) 7 /\ encode lon c90 7 = Ok "5bh0080"%string.
Proof. split; [apply poles_share_hashes|]; vm_compute; reflexivity. Defined.
End SampleHash.
