(* ===== verification/Geo.v ===== *)
(** * Places and geographic self-organisation

    Models peat-protocol/src/discovery/geo.rs (coordinates and operational boxes) and
    geographic.rs (beacons, clusters of a geohash cell, and the manager that decides
    which node forms a cell). Sines, cosines and arc tangents come from [LibM]; the order
    in which a hash map is iterated is [ClusterOrder]; times are arguments. A failed
    [unwrap] is [None]. *)

From S2P Require Import Prelude Float Error Capability StateAggregation Geohash.
From stdpp Require Import pretty.
From Stdlib Require Import SpecFloat.

Open Scope Z_scope.

(** ** Coordinates *)

Record GeoCoordinate := mkCoordinate { lat : spec_float; lon : spec_float; alt : spec_float }.

Definition coordinate_new (la lo al : spec_float) : result string GeoCoordinate :=
  if negb (in_range c90 la) then Err "Latitude must be between -90 and 90 degrees"%string
  else if negb (in_range c180 lo) then Err "Longitude must be between -180 and 180 degrees"%string
  else Ok (mkCoordinate la lo al).

Section Distances.
Context `{LibM}.

Definition distance_to (p q : GeoCoordinate) : spec_float :=
  let two := f64_of_Z 2 in
  let delta_lat := to_radians (sub64 (lat q) (lat p)) in
  let delta_lon := to_radians (sub64 (lon q) (lon p)) in
  let a := add64 (f64_powi (f64_sin (div64 delta_lat two)) 2)
             (mul64 (mul64 (f64_cos (to_radians (lat p))) (f64_cos (to_radians (lat q))))
                (f64_powi (f64_sin (div64 delta_lon two)) 2)) in
  let c := mul64 two (f64_atan2 (SFsqrt 53 1024 a) (SFsqrt 53 1024 (sub64 (f64_of_Z 1) a))) in
  mul64 (f64_of_Z 6371000) c.

Definition distance_3d (p q : GeoCoordinate) : spec_float :=
  SFsqrt 53 1024 (add64 (f64_powi (distance_to p q) 2) (f64_powi (SFabs (sub64 (alt q) (alt p))) 2)).

(** [x.to_degrees()] multiplies by the binary64 value of 180 / pi. *)
Definition to_degrees (x : spec_float) : spec_float := mul64 x (div64 (f64_of_Z 180) pi64).

Definition bearing_to (p q : GeoCoordinate) : spec_float :=
  let lat1 := to_radians (lat p) in
  let lat2 := to_radians (lat q) in
  let delta_lon := to_radians (sub64 (lon q) (lon p)) in
  let y := mul64 (f64_sin delta_lon) (f64_cos lat2) in
  let x := sub64 (mul64 (f64_cos lat1) (f64_sin lat2)) (mul64 (mul64 (f64_sin lat1) (f64_cos lat2)) (f64_cos delta_lon)) in
  f64_rem (add64 (to_degrees (f64_atan2 y x)) (f64_of_Z 360)) (f64_of_Z 360).
End Distances.

(** ** Operational boxes *)

Record OperationalBox := mkBox {
  box_id : string;
  southwest : GeoCoordinate;
  northeast : GeoCoordinate;
  min_altitude : spec_float;
  max_altitude : spec_float;
  box_name : option string
}.

Definition box_new (i : string) (sw ne : GeoCoordinate) (lo hi : spec_float) : result string OperationalBox :=
  if SFleb (lat ne) (lat sw) then Err "Southwest latitude must be less than northeast latitude"%string
  else if SFleb (lon ne) (lon sw) then Err "Southwest longitude must be less than northeast longitude"%string
  else if SFleb hi lo then Err "Minimum altitude must be less than maximum altitude"%string
  else Ok (mkBox i sw ne lo hi None).

Definition from_center `{LibM} (i : string) (center : GeoCoordinate) (width height lo hi : spec_float)
    : result string OperationalBox :=
  let meters_per_degree_lat := f64_of_Z 111320 in
  let meters_per_degree_lon := mul64 (f64_of_Z 111320) (f64_cos (to_radians (lat center))) in
  let half_width := div64 (div64 width (f64_of_Z 2)) meters_per_degree_lon in
  let half_height := div64 (div64 height (f64_of_Z 2)) meters_per_degree_lat in
  let? sw := coordinate_new (sub64 (lat center) half_height) (sub64 (lon center) half_width) lo in
  let? ne := coordinate_new (add64 (lat center) half_height) (add64 (lon center) half_width) hi in
  box_new i sw ne lo hi.

Definition box_contains (b : OperationalBox) (c : GeoCoordinate) : bool :=
  SFleb (lat (southwest b)) (lat c) && SFleb (lat c) (lat (northeast b)) &&
  SFleb (lon (southwest b)) (lon c) && SFleb (lon c) (lon (northeast b)) &&
  SFleb (min_altitude b) (alt c) && SFleb (alt c) (max_altitude b).

Definition center (b : OperationalBox) : GeoCoordinate :=
  let mid x y := div64 (add64 x y) (f64_of_Z 2) in
  mkCoordinate (mid (lat (southwest b)) (lat (northeast b))) (mid (lon (southwest b)) (lon (northeast b)))
    (mid (min_altitude b) (max_altitude b)).

(** [Result::unwrap] *)
Definition unwrap {E A} (r : result E A) : option A := match r with Ok a => Some a | Err _ => None end.

Section Sizes.
Context `{LibM}.

Definition width (b : OperationalBox) : option spec_float :=
  c ← unwrap (coordinate_new (lat (southwest b)) (lon (northeast b)) (S754_zero false));
  Some (distance_to (southwest b) c).

Definition height (b : OperationalBox) : option spec_float :=
  c ← unwrap (coordinate_new (lat (northeast b)) (lon (southwest b)) (S754_zero false));
  Some (distance_to (southwest b) c).

Definition area (b : OperationalBox) : option spec_float :=
  w ← width b; h ← height b; Some (mul64 w h).

Definition volume (b : OperationalBox) : option spec_float :=
  a ← area b; Some (mul64 a (sub64 (max_altitude b) (min_altitude b))).
End Sizes.

Definition sub_box (b : OperationalBox) (lat_step lon_step : spec_float) (row col : Z) : option OperationalBox :=
  let sw_lat := add64 (lat (southwest b)) (mul64 (f64_of_Z row) lat_step) in
  let sw_lon := add64 (lon (southwest b)) (mul64 (f64_of_Z col) lon_step) in
  sw ← unwrap (coordinate_new sw_lat sw_lon (min_altitude b));
  ne ← unwrap (coordinate_new (add64 sw_lat lat_step) (add64 sw_lon lon_step) (max_altitude b));
  unwrap (box_new (box_id b +:+ "_" +:+ pretty row +:+ "_" +:+ pretty col) sw ne (min_altitude b) (max_altitude b)).

Definition upto (n : Z) : list Z := Z.of_nat <$> seq 0 (Z.to_nat n).

Definition subdivide (b : OperationalBox) (rows cols : Z) : option (list OperationalBox) :=
  let lat_step := div64 (sub64 (lat (northeast b)) (lat (southwest b))) (f64_of_Z rows) in
  let lon_step := div64 (sub64 (lon (northeast b)) (lon (southwest b))) (f64_of_Z cols) in
  mapM (fun rc => sub_box b lat_step lon_step (fst rc) (snd rc))
    (rows_cols ← upto rows; (fun col => (rows_cols, col)) <$> upto cols).

(** ** Beacons and clusters *)

Definition DEFAULT_GEOHASH_PRECISION : Z := 7.
Definition BEACON_TTL_SECONDS : Z := 30.
Definition MIN_CELL_SIZE : Z := 2.

Record GeographicBeacon := mkBeacon {
  beacon_node : string;
  beacon_position : GeoCoordinate;
  geohash_cell : string;
  operational : bool;
  beacon_time : Z;
  beacon_capabilities : list string
}.

(** [encode(..).expect("Valid coordinate")] *)
Definition encode_geohash (c : GeoCoordinate) (precision : Z) : option string := unwrap (encode (lon c) (lat c) precision).

Definition decode_geohash (hash : string) : option (result string GeoCoordinate) :=
  r ← decode hash;
  Some (match r with
        | Ok (lo, la, _, _) => coordinate_new la lo (S754_zero false)
        | Err _ => Err "Invalid geohash"%string
        end).

Definition beacon_new (node : string) (p : GeoCoordinate) (caps : list Capability) (now : Z) : option GeographicBeacon :=
  cell ← encode_geohash p DEFAULT_GEOHASH_PRECISION;
  Some (mkBeacon node p cell true now (id <$> caps)).

Definition beacon_is_expired (b : GeographicBeacon) (current_time : Z) : bool :=
  BEACON_TTL_SECONDS <? saturating_sub current_time (beacon_time b).

Record GeographicCluster := mkCluster {
  cluster_cell : string;
  nodes : list GeographicBeacon;
  cluster_center : GeoCoordinate
}.

Definition cluster_new (cell : string) : option (result string GeographicCluster) :=
  r ← decode_geohash cell;
  Some (let? c := r in Ok (mkCluster cell [] c)).

Definition with_nodes (c : GeographicCluster) (l : list GeographicBeacon) : GeographicCluster :=
  mkCluster (cluster_cell c) l (cluster_center c).

Definition add_beacon (c : GeographicCluster) (b : GeographicBeacon) : GeographicCluster := with_nodes c (nodes c ++ [b]).

Definition remove_expired (c : GeographicCluster) (current_time : Z) : GeographicCluster :=
  with_nodes c (filter (fun b => beacon_is_expired b current_time = false) (nodes c)).

Definition can_form_cell (c : GeographicCluster) (min_size : Z) : bool := min_size <=? len (nodes c).

Definition cluster_node_ids (c : GeographicCluster) : list string := beacon_node <$> nodes c.

(** ** Discovery *)

Record GeographicDiscovery := mkDiscovery { clusters : gmap string GeographicCluster; my_node_id : string }.

(** The order of [clusters.values()] *)
Class ClusterOrder := {
  cluster_values : gmap string GeographicCluster -> list GeographicCluster;
  cluster_values_perm m : cluster_values m ≡ₚ (map_to_list m).*2
}.

Definition discovery_new (node_id : string) : GeographicDiscovery := mkDiscovery ∅ node_id.

(** [entry(geohash).or_insert_with(|| GeographicCluster::new(geohash).unwrap())] *)
Definition process_beacon (d : GeographicDiscovery) (b : GeographicBeacon) : option GeographicDiscovery :=
  c ← match clusters d !! geohash_cell b with
      | Some c => Some c
      | None => r ← cluster_new (geohash_cell b); unwrap r
      end;
  Some (mkDiscovery (<[geohash_cell b := add_beacon c b]> (clusters d)) (my_node_id d)).

Definition cleanup_expired (d : GeographicDiscovery) (current_time : Z) : GeographicDiscovery :=
  mkDiscovery
    (filter (fun kc => nodes (snd kc) <> []) ((fun c => remove_expired c current_time) <$> clusters d)) (my_node_id d).

Section Discovery.
Context `{ClusterOrder}.

Definition find_formable_cells (d : GeographicDiscovery) (min_size : Z) : list GeographicCluster :=
  filter (fun c => can_form_cell c min_size = true) (cluster_values (clusters d)).

Definition has_node (n : string) (c : GeographicCluster) : bool :=
  existsb (fun b => bool_decide (beacon_node b = n)) (nodes c).

Definition my_cluster (d : GeographicDiscovery) : option GeographicCluster :=
  find (has_node (my_node_id d)) (cluster_values (clusters d)).

(** [iter().min()] of strings *)
Fixpoint min_string (best : string) (l : list string) : string :=
  match l with
  | [] => best
  | x :: l => min_string (match String.compare best x with Gt => x | _ => best end) l
  end.

Definition lowest_id (c : GeographicCluster) : option string :=
  match cluster_node_ids c with [] => None | x :: l => Some (min_string x l) end.

Definition should_initiate_cell_formation (d : GeographicDiscovery) : bool :=
  match my_cluster d with
  | Some cluster => can_form_cell cluster MIN_CELL_SIZE && bool_decide (lowest_id cluster = Some (my_node_id d))
  | None => false
  end.

Definition get_cell_members (d : GeographicDiscovery) (max_size : Z) : option (list string) :=
  cluster ← my_cluster d;
  if can_form_cell cluster MIN_CELL_SIZE
  then Some (take (Z.to_nat max_size) (sort_by String.compare (cluster_node_ids cluster)))
  else None.

Definition total_nodes (d : GeographicDiscovery) : Z :=
  fold_left Z.add ((fun c => len (nodes c)) <$> cluster_values (clusters d)) 0.

Definition cluster_count (d : GeographicDiscovery) : Z := Z.of_nat (size (clusters d)).
End Discovery.

(** ** Theorems *)

(** A box that is accepted contains its corners. *)
Lemma SFleb_total x y : x <> S754_nan -> y <> S754_nan -> SFleb y x = false -> SFleb x y = true.
Proof.
  intros Hx Hy. destruct (SFcompare_Some x y Hx Hy) as [c E]. pose proof (SFcompare_swap _ _ _ E) as E'.
  unfold SFleb. rewrite E, E'. by destruct c.
Qed.

Lemma in_range_number b x : in_range b x = true -> x <> S754_nan.
Proof. unfold in_range. rewrite andb_true_iff. intros [_ Hx]. apply (SFleb_not_nan _ _ Hx). Qed.

Lemma coordinate_new_ok la lo al c :
  coordinate_new la lo al = Ok c -> c = mkCoordinate la lo al /\ in_range c90 la = true /\ in_range c180 lo = true.
Proof.
  unfold coordinate_new. destruct (in_range c90 la), (in_range c180 lo); cbn [negb]; try done. by intros [= <-].
Qed.

Theorem box_contains_corners la lo al la' lo' al' i sw ne b :
  coordinate_new la lo al = Ok sw -> coordinate_new la' lo' al' = Ok ne ->
  al <> S754_nan -> al' <> S754_nan -> box_new i sw ne al al' = Ok b ->
  box_contains b sw = true /\ box_contains b ne = true.
Proof.
  intros (-> & Hla & Hlo)%coordinate_new_ok (-> & Hla' & Hlo')%coordinate_new_ok Ha Ha'.
  apply in_range_number in Hla, Hlo, Hla', Hlo'. unfold box_new. cbn [lat lon].
  destruct (SFleb la' la) eqn:E1; [done|]. destruct (SFleb lo' lo) eqn:E2; [done|]. destruct (SFleb al' al) eqn:E3; [done|].
  intros [= <-]. unfold box_contains. cbn [southwest northeast min_altitude max_altitude lat lon alt].
  by rewrite !SFleb_refl, !SFleb_total by done.
Qed.

(** *** Clusters *)

(** The map keeps the beacons of a cell under the hash they carry. *)
Definition discovery_wf (d : GeographicDiscovery) : Prop :=
  forall k c, clusters d !! k = Some c -> cluster_cell c = k /\ nodes c <> [] /\ forall b, b ∈ nodes c -> geohash_cell b = k.

Lemma cluster_new_cell cell c : (r ← cluster_new cell; unwrap r) = Some c -> cluster_cell c = cell /\ nodes c = [].
Proof.
  unfold cluster_new. destruct (decode_geohash cell) as [[p|]|]; cbn; try done. by intros [= <-].
Qed.

Lemma process_beacon_wf d b d' : discovery_wf d -> process_beacon d b = Some d' -> discovery_wf d'.
Proof.
  intros Hwf Hp. unfold process_beacon in Hp.
  destruct (match clusters d !! geohash_cell b with Some c => Some c | None => _ end) as [c|] eqn:Ec; [|done].
  injection Hp as <-. intros k c'. cbn [clusters]. rewrite lookup_insert_Some. intros [[<- <-]|[_ Hk]]; [|by apply Hwf].
  assert (cluster_cell c = geohash_cell b /\ forall x, x ∈ nodes c -> geohash_cell x = geohash_cell b) as [Hc Hx].
  { destruct (clusters d !! geohash_cell b) as [c0|] eqn:E0.
    - injection Ec as <-. apply Hwf in E0 as (? & _ & ?). done.
    - apply cluster_new_cell in Ec as [? ->]. split; [done|]. by intros x ?%not_elem_of_nil. }
  cbn. split_and!; [done|by destruct (nodes c)|]. intros x [Hin|Hin]%elem_of_app; [by apply Hx|]. by apply list_elem_of_singleton in Hin as ->.
Qed.

(** Cleaning up keeps exactly the beacons that have not expired and drops the cells that
    are left without any. *)
Lemma cleanup_lookup d now k c :
  clusters (cleanup_expired d now) !! k = Some c <->
  exists c0, clusters d !! k = Some c0 /\ c = remove_expired c0 now /\ nodes c <> [].
Proof.
  unfold cleanup_expired. cbn [clusters]. rewrite map_lookup_filter_Some, lookup_fmap_Some. cbn [snd]. naive_solver.
Qed.

(** Beacons known for a cell *)
Definition known (d : GeographicDiscovery) (b : GeographicBeacon) : Prop :=
  exists c, clusters d !! geohash_cell b = Some c /\ b ∈ nodes c.

(** The cache of beacons stays organised by geohash cell through every sequence of
    received beacons and clean-ups; a clean-up forgets exactly the beacons that are
    older than the time to live, and a received beacon is known afterwards. *)
Theorem beacon_cache_correct d :
  discovery_wf d ->
  (forall now, discovery_wf (cleanup_expired d now) /\
     forall b, known (cleanup_expired d now) b <-> known d b /\ beacon_is_expired b now = false) /\
  (forall b d', process_beacon d b = Some d' -> discovery_wf d' /\ forall x, known d' x <-> known d x \/ x = b).
Proof.
  intros Hwf. split.
  - intros now. split.
    + intros k c (c0 & Hk & -> & Hne)%cleanup_lookup. apply Hwf in Hk as (Hc & _ & Hall). split_and!; [done|done|].
      intros b Hb. apply Hall. cbn in Hb. by apply list_elem_of_filter in Hb as [_ ?].
    + intros b. unfold known. split.
      * intros (c & (c0 & Hk & -> & _)%cleanup_lookup & Hb). cbn in Hb. apply list_elem_of_filter in Hb as [He Hin]. eauto.
      * intros [(c & Hk & Hin) He]. exists (remove_expired c now).
        assert (b ∈ nodes (remove_expired c now)) as Hb by (cbn; by apply list_elem_of_filter).
        split; [|done]. apply cleanup_lookup. exists c. split_and!; [done..|]. intros E. rewrite E in Hb. by apply not_elem_of_nil in Hb.
  - intros b d' Hp. split; [by apply (process_beacon_wf d b)|]. intros x. unfold process_beacon in Hp.
    destruct (match clusters d !! geohash_cell b with Some c => Some c | None => _ end) as [c|] eqn:Ec; [|done].
    injection Hp as <-. unfold known. cbn [clusters].
    assert (forall y, y ∈ nodes c <-> exists c0, clusters d !! geohash_cell b = Some c0 /\ y ∈ nodes c0) as Hc.
    { destruct (clusters d !! geohash_cell b) as [c0|]; [injection Ec as ->; naive_solver|].
      apply cluster_new_cell in Ec as [_ ->]. intros y. rewrite elem_of_nil. naive_solver. }
    destruct (decide (geohash_cell x = geohash_cell b)) as [E|Hne].
    + rewrite E, lookup_insert. split.
      * intros (c' & E' & Hin). case_decide; [|done]. injection E' as <-. cbn in Hin.
        apply elem_of_app in Hin as [Hin|Hin]; [left; by apply Hc|right; by apply list_elem_of_singleton in Hin].
      * case_decide; [|done]. intros Hor. exists (add_beacon c b). split; [done|]. cbn. apply elem_of_app.
        destruct Hor as [Hk| ->]; [left; by apply Hc|right; by left].
    + rewrite lookup_insert_ne by done. naive_solver.
Qed.

(** *** Who forms the cell *)

Lemma min_string_spec best l :
  min_string best l ∈ best :: l /\ forall x, x ∈ best :: l -> String.compare (min_string best l) x <> Gt.
Proof.
  revert best. induction l as [|x l IH]; intros best; cbn [min_string].
  { split; [by left|]. intros y Hy. apply list_elem_of_singleton in Hy as ->. by rewrite str_cmp_refl. }
  set (next := match String.compare best x with Gt => x | _ => best end). destruct (IH next) as [Hin Hmin].
  assert (next = best \/ next = x) as Hn by (subst next; destruct (String.compare best x); auto). split.
  { apply elem_of_cons in Hin as [->|Hin]; [destruct Hn as [-> | ->]; set_solver|set_solver]. }
  assert (String.compare next best <> Gt /\ String.compare next x <> Gt) as [H1 H2].
  { subst next. destruct (String.compare best x) eqn:E; (split; [|rewrite ?E, ?str_cmp_refl; done]).
    - by rewrite str_cmp_refl.
    - by rewrite str_cmp_refl.
    - apply str_gt_lt in E. by rewrite E. }
  assert (forall y, String.compare next y <> Gt -> String.compare (min_string next l) y <> Gt) as Htrans.
  { intros y Hy. specialize (Hmin next ltac:(by left)).
    destruct (String.compare (min_string next l) next) eqn:E1, (String.compare next y) eqn:E2; try done.
    - apply String.compare_eq_iff in E1. rewrite E1. by rewrite E2.
    - apply String.compare_eq_iff in E1. rewrite E1. by rewrite E2.
    - apply String.compare_eq_iff in E2. by rewrite <- E2, E1.
    - by rewrite (str_lt_trans _ _ _ E1 E2). }
  intros y [->|[->|Hy]%elem_of_cons]%elem_of_cons; [by apply Htrans..|]. apply Hmin. by right.
Qed.

Section Initiators.
Context `{ClusterOrder}.

Lemma cluster_values_elem m c : c ∈ cluster_values m <-> exists k, m !! k = Some c.
Proof.
  rewrite cluster_values_perm, list_elem_of_fmap. split.
  - intros ([k c'] & -> & Hin%elem_of_map_to_list). by exists k.
  - intros [k Hk%elem_of_map_to_list]. by exists (k, c).
Qed.

Lemma has_node_spec n c : has_node n c = true <-> n ∈ cluster_node_ids c.
Proof.
  unfold has_node, cluster_node_ids. rewrite existsb_exists, list_elem_of_fmap. split.
  - intros (b & Hin & <-%bool_decide_eq_true). exists b. by rewrite list_elem_of_In.
  - intros (b & -> & Hin%list_elem_of_In). exists b. by rewrite bool_decide_eq_true.
Qed.

(** Each node is seen in one cell. *)
Definition one_place (m : gmap string GeographicCluster) : Prop :=
  forall k k' c c' n, m !! k = Some c -> m !! k' = Some c' ->
    n ∈ cluster_node_ids c -> n ∈ cluster_node_ids c' -> c = c'.

Lemma my_cluster_spec m n k c :
  one_place m -> m !! k = Some c -> n ∈ cluster_node_ids c -> my_cluster (mkDiscovery m n) = Some c.
Proof.
  intros Hone Hk Hn. unfold my_cluster. cbn [clusters my_node_id].
  destruct (find (has_node n) (cluster_values m)) as [c'|] eqn:E.
  - apply List.find_some in E as [Hin Hn']. apply list_elem_of_In, cluster_values_elem in Hin as [k' Hk'].
    apply has_node_spec in Hn'. f_equal. by apply (Hone k' k c' c n).
  - exfalso. assert (c ∈ cluster_values m) as Hin by (apply cluster_values_elem; by exists k).
    apply list_elem_of_In in Hin. pose proof (List.find_none _ _ E _ Hin) as Hf. apply has_node_spec in Hn. by rewrite Hn in Hf.
Qed.

(** The proposed members are nodes of the cell, in order, and no more than asked for. *)
Theorem cell_members_sorted d max l :
  0 <= max -> get_cell_members d max = Some l ->
  len l <= max /\ exists c, my_cluster d = Some c /\ l ⊆ cluster_node_ids c /\
    StronglySorted (fun a b => String.compare a b <> Gt) l.
Proof.
  intros Hmax. unfold get_cell_members. destruct (my_cluster d) as [c|]; [|done]. cbn [mbind option_bind].
  destruct (can_form_cell c MIN_CELL_SIZE); [|done]. intros [= <-].
  assert (cmp_ok (fun _ => True) String.compare) as Hok.
  { split; [intros; apply String.compare_antisym|]. intros x y z _ _ _ H1 H2 H3. apply str_gt_lt in H3.
    destruct (String.compare x y) eqn:E1; try done.
    - apply String.compare_eq_iff in E1 as ->. apply H2. by apply str_gt_lt.
    - pose proof (str_lt_trans _ _ _ H3 E1) as H4. apply H2. by apply str_gt_lt. }
  split; [unfold len; rewrite length_take; lia|]. exists c. split_and!; [done| |].
  - intros x Hx. apply elem_of_take in Hx as (i & Hx & _). apply list_elem_of_lookup_2 in Hx. by rewrite sort_by_perm in Hx.
  - pose proof (sort_by_sorted _ _ Hok (cluster_node_ids c) ltac:(by apply Forall_true)) as Hs.
    rewrite <- (take_drop (Z.to_nat max) (sort_by _ _)) in Hs. by apply StronglySorted_app_1_l in Hs.
Qed.
End Initiators.

(** C32: take nodes that have the same beacons cached, each of them seen in one cell
    only. In every cell with enough nodes to be formed there is one node that initiates the
    formation, and no other node of the cell does, even when every node iterates over its
    hash map in an order of its own. *)
Theorem one_initiator_per_cell m k c :
  one_place m -> m !! k = Some c -> can_form_cell c MIN_CELL_SIZE = true ->
  exists leader, leader ∈ cluster_node_ids c /\
    forall (order : string -> ClusterOrder) n, n ∈ cluster_node_ids c ->
      should_initiate_cell_formation (H := order n) (mkDiscovery m n) = bool_decide (n = leader).
Proof.
  intros Hone Hk Hf.
  assert (exists leader, lowest_id c = Some leader /\ leader ∈ cluster_node_ids c) as (leader & Hl & Hin).
  { unfold lowest_id. destruct (cluster_node_ids c) as [|x l] eqn:E.
    - unfold can_form_cell, cluster_node_ids, MIN_CELL_SIZE in *. apply fmap_nil_inv in E. by rewrite E in Hf.
    - exists (min_string x l). split; [done|]. apply min_string_spec. }
  exists leader. split; [done|]. intros order n Hn. unfold should_initiate_cell_formation.
  rewrite (my_cluster_spec (H := order n) m n k c), Hf, Hl by done. cbn [andb my_node_id].
  apply bool_decide_ext. naive_solver.
Qed.

(** *** Edges *)

(** A beacon whose hash cannot be decoded stops the receiver: the result of creating its
    cluster is unwrapped. *)
Theorem unreadable_beacon_panics d b :
  clusters d !! geohash_cell b = None -> (forall c, decode_geohash (geohash_cell b) <> Some (Ok c)) ->
  process_beacon d b = None.
Proof.
  intros Hk Hbad. unfold process_beacon, cluster_new. rewrite Hk.
  destruct (decode_geohash (geohash_cell b)) as [[c|e]|]; [by destruct (Hbad c)|done..].
Qed.

(** A node that repeats its beacon is counted once for each of them: two beacons of one
    node make a cell that can be formed. *)
Theorem repeated_beacons_form_cell d b b' d1 d2 :
  geohash_cell b' = geohash_cell b -> process_beacon d b = Some d1 -> process_beacon d1 b' = Some d2 ->
  exists c, clusters d2 !! geohash_cell b = Some c /\ can_form_cell c MIN_CELL_SIZE = true.
Proof.
  intros E H1 H2. unfold process_beacon in H1.
  destruct (match clusters d !! geohash_cell b with Some c => Some c | None => _ end) as [c|]; [|done]. injection H1 as <-.
  unfold process_beacon in H2. cbn [clusters] in H2. rewrite E, lookup_insert in H2.
  destruct (decide _) in H2; [|done]. cbn [mbind option_bind] in H2. injection H2 as <-. cbn [clusters]. rewrite lookup_insert.
  destruct (decide _); [|done]. eexists. split; [done|]. unfold can_form_cell, MIN_CELL_SIZE, len. cbn.
  rewrite !length_app. cbn. apply Z.leb_le. lia.
Qed.

Module SampleGeo.
Definition coord (la lo : Z) : GeoCoordinate := mkCoordinate (f64_of_Z la) (f64_of_Z lo) (S754_zero false).

Definition beacon (n cell : string) (t : Z) : GeographicBeacon := mkBeacon n (coord 10 20) cell true t [].

#[export] Instance by_key : ClusterOrder.
Proof. refine {| cluster_values m := (map_to_list m).*2 |}. done. Defined.

Definition two_cells : GeographicDiscovery :=
  mkDiscovery (<["ezs42" := mkCluster "ezs42" [beacon "b" "ezs42" 5; beacon "a" "ezs42" 90] (coord 10 20)]>
              (<["ezs43" := mkCluster "ezs43" [beacon "c" "ezs43" 95] (coord 10 20)]> ∅)) "a".

Lemma two_cells_wf : discovery_wf two_cells.
Proof.
  intros k c. cbn [clusters two_cells]. rewrite !lookup_insert_Some.
  intros [[<- <-]|[_ [[<- <-]|[_ Hk]]]]; [| |done].
  all: split_and!; [done|done|]; intros b Hb; cbn [nodes] in Hb; apply list_elem_of_In in Hb; cbn in Hb; naive_solver.
Qed.

Lemma beacon_cache_correct_witness :
  known (cleanup_expired two_cells 100) (beacon "a" "ezs42" 90) /\ ~ known (cleanup_expired two_cells 100) (beacon "b" "ezs42" 5).
Proof.
  pose proof (proj2 (proj1 (beacon_cache_correct two_cells two_cells_wf) 100)) as Hk. split.
  - apply Hk. split; [|reflexivity]. eexists. split; [reflexivity|]. cbn. right. by left.
  - intros [_ He]%Hk. discriminate He.
Defined.

Lemma two_cells_one_place : one_place (clusters two_cells).
Proof.
  intros k k' c c' n. cbn [clusters two_cells]. rewrite !lookup_insert_Some.
  intros [[<- <-]|[_ [[<- <-]|[_ Hk]]]] [[<- <-]|[_ [[<- <-]|[_ Hk']]]]; try done.
  all: cbn; rewrite !elem_of_cons, !elem_of_nil; naive_solver.
Qed.

(** Another order: the last cell first *)
Definition by_key_reversed : ClusterOrder.
Proof. refine {| cluster_values m := rev (map_to_list m).*2 |}. intros m. symmetry. apply Permutation_rev. Defined.

Definition either_order (n : string) : ClusterOrder := if decide (n = "b"%string) then by_key_reversed else by_key.

Lemma one_initiator_per_cell_witness :
  exists leader, leader ∈ ["b"; "a"]%string /\
    should_initiate_cell_formation (H := either_order leader) (mkDiscovery (clusters two_cells) leader) = true.
Proof.
  destruct (one_initiator_per_cell (clusters two_cells) "ezs42"
    (mkCluster "ezs42" [beacon "b" "ezs42" 5; beacon "a" "ezs42" 90] (coord 10 20))
    two_cells_one_place ltac:(reflexivity) ltac:(reflexivity)) as (leader & Hin & Hall).
  exists leader. split; [exact Hin|]. rewrite (Hall either_order leader Hin). by apply bool_decide_eq_true.
Defined.

(** The node "d" has moved from the cell "ezs43" to the cell "ezs42", and its old beacon is
    still cached. *)
Definition moved : gmap string GeographicCluster :=
  <["ezs42" := mkCluster "ezs42" [beacon "d" "ezs42" 90; beacon "e" "ezs42" 90] (coord 10 20)]>
  (<["ezs43" := mkCluster "ezs43" [beacon "c" "ezs43" 80; beacon "d" "ezs43" 80] (coord 10 20)]> ∅).

(** The premise is needed: beacons of a node that has moved stay until they expire, and in
    one of the orders of the hash map no node of its new cell initiates the formation. *)
Example moved_node_blocks_formation :
  (should_initiate_cell_formation (H := by_key) (mkDiscovery moved "d") = false \/
   should_initiate_cell_formation (H := by_key_reversed) (mkDiscovery moved "d") = false) /\
  should_initiate_cell_formation (H := by_key) (mkDiscovery moved "e") = false /\
  should_initiate_cell_formation (H := by_key_reversed) (mkDiscovery moved "e") = false /\
  ~ one_place moved.
Proof.
  split_and!; [first [left; vm_compute; reflexivity|right; vm_compute; reflexivity]|vm_compute; reflexivity..|].
  intros Hone. discriminate (Hone "ezs42" "ezs43" _ _ "d"%string eq_refl eq_refl ltac:(left) ltac:(right; left)).
Qed.

Lemma cell_members_sorted_witness : exists c, my_cluster two_cells = Some c /\ ["a"; "b"]%string ⊆ cluster_node_ids c.
Proof.
  destruct (cell_members_sorted (H := by_key) two_cells 5 ["a"; "b"]%string ltac:(lia) ltac:(vm_compute; reflexivity)) as (_ & c & Hc & Hs & _).
  exists c. exact (conj Hc Hs).
Defined.

Lemma unreadable_beacon_panics_witness : process_beacon two_cells (beacon "x" "not a hash" 1) = None.
Proof. apply unreadable_beacon_panics; [reflexivity|]. intros c. vm_compute. discriminate. Defined.

Definition alone (n : nat) : option GeographicDiscovery :=
  Nat.iter n (fun d => d ≫= fun d => process_beacon d (beacon "a" "ezs42" 90)) (Some (discovery_new "a")).

Definition answered {A} (o : option A) : bool := match o with Some _ => true | None => false end.

Lemma answered_default {A} (o : option A) d : answered o = true -> o = Some (default d o).
Proof. by destruct o. Qed.

Definition once : GeographicDiscovery := default (discovery_new "a") (process_beacon (discovery_new "a") (beacon "a" "ezs42" 90)).
Definition twice : GeographicDiscovery := default (discovery_new "a") (process_beacon once (beacon "a" "ezs42" 90)).

Lemma repeated_beacons_form_cell_witness :
  exists c, clusters twice !! "ezs42"%string = Some c /\ can_form_cell c MIN_CELL_SIZE = true.
Proof.
  apply (repeated_beacons_form_cell (discovery_new "a") (beacon "a" "ezs42" 90) (beacon "a" "ezs42" 90) once twice);
    [reflexivity|apply answered_default; vm_compute; reflexivity..].
Defined.

(** One node with two beacons proposes a cell with itself. *)
Example node_teams_with_itself : (alone 2 ≫= fun d => get_cell_members d 5) = Some ["a"; "a"]%string.
Proof. vm_compute. reflexivity. Qed.

Definition polar : result string OperationalBox := box_new "polar" (coord (-89) 0) (mkCoordinate (f64_of_Z 90) (f64_of_Z 10) (f64_of_Z 100)) (f64_of_Z 0) (f64_of_Z 100).

(** Dividing a box that reaches a pole into seven rows panics: the last row ends above
    90 degrees by rounding. *)
Example subdivide_panics_at_pole : match polar with Ok b => subdivide b 7 1 = None | Err _ => False end.
Proof. vm_compute. reflexivity. Qed.

Lemma box_contains_corners_witness :
  match polar with Ok b => box_contains b (mkCoordinate (f64_of_Z (-89)) (f64_of_Z 0) (f64_of_Z 0)) = true | Err _ => False end.
Proof.
  assert (polar = Ok (mkBox "polar" (coord (-89) 0) (mkCoordinate (f64_of_Z 90) (f64_of_Z 10) (f64_of_Z 100)) (f64_of_Z 0) (f64_of_Z 100) None)) as E by (vm_compute; reflexivity).
  rewrite E. refine (proj1 (box_contains_corners (f64_of_Z (-89)) (f64_of_Z 0) (f64_of_Z 0) (f64_of_Z 90) (f64_of_Z 10) (f64_of_Z 100)
    "polar" _ (mkCoordinate (f64_of_Z 90) (f64_of_Z 10) (f64_of_Z 100)) _ _ _ _ _ _)); vm_compute; (reflexivity || discriminate).
Defined.
End SampleGeo.
