(* ===== verification/CellStore.v ===== *)
(** * The store of cells

    Models peat-protocol/src/storage/cell_store.rs over the document store of a
    synchronisation backend. The trait of the backend ([DocumentStore]) and the serde
    conversion of a cell ([CellDocument], derived code) are classes whose laws state what
    the store relies on; every call of the backend may fail. A backend keeps only some
    documents as they were written ([storable]): [AutomergeBackend.v] models the one of
    sync/automerge.rs and proves the laws of it. The clock read by a change of a cell is the
    argument [now]. *)

From S2P Require Import Prelude Error Capability CellState Json Conversion.

Open Scope Z_scope.

Record Document := mkDocument { doc_id : option string; fields : gmap string Json; updated_at : Z }.

Inductive Query := QAll | QEq (name : string) (v : Json).

Definition CELL_COLLECTION : string := "cells".

(** The trait of a synchronisation backend; the errors of its calls are texts. *)
Class DocumentStore (B : Type) := {
  upsert : B -> string -> Document -> result string (string * B);
  query : B -> string -> Query -> result string (list Document);
  remove : B -> string -> string -> result string B
}.

(** [?] on an error of the backend *)
Definition from_backend (e : string) : Error := EInternal e.

Class CellDocument := {
  cell_to_fields : CellState -> result Error (gmap string Json);
  fields_to_cell : gmap string Json -> result Error CellState
}.

Section Store.
Context {B : Type} `{DocumentStore B} `{CellDocument}.

(** [Document::new] leaves the choice of the identifier to the backend. *)
Definition cell_to_document (c : CellState) (now : Z) : result Error Document :=
  let? f := cell_to_fields c in
  match get_id c with
  | Some i => Ok (mkDocument (Some i) (<["cell_id" := JString i]> f) now)
  | None => Ok (mkDocument None f now)
  end.

Definition document_to_cell (d : Document) : result Error CellState := fields_to_cell (fields d).

Definition query_cells (b : B) (q : Query) : result Error (list Document) :=
  match query b CELL_COLLECTION q with Ok l => Ok l | Err e => Err (from_backend e) end.

Definition store_cell (b : B) (c : CellState) (now : Z) : result Error (string * B) :=
  let? d := cell_to_document c now in
  match upsert b CELL_COLLECTION d with
  | Ok r => Ok r
  | Err e => Err (storage_error ("Failed to store cell: " +:+ e) "upsert" (Some CELL_COLLECTION))
  end.

(** The newest of the documents that carry the identifier *)
Definition get_cell (b : B) (cell_id : string) : result Error (option CellState) :=
  let? docs := query_cells b (QEq "cell_id" (JString cell_id)) in
  match sort_by (cmp_desc updated_at) docs with
  | [] => Ok None
  | d :: _ => let? c := document_to_cell d in Ok (Some c)
  end.

Definition decoded (docs : list Document) : list CellState :=
  omap (fun d => match document_to_cell d with Ok c => Some c | Err _ => None end) docs.

Definition cells_where (b : B) (q : Query) (P : CellState -> bool) : result Error (list CellState) :=
  let? docs := query_cells b q in Ok (filter (fun c => P c = true) (decoded docs)).

Definition get_valid_cells (b : B) : result Error (list CellState) := cells_where b QAll cell_is_valid.

Definition get_cells_by_zone (b : B) (cohort : string) : result Error (list CellState) :=
  let? docs := query_cells b (QEq "cohort_id" (JString cohort)) in Ok (decoded docs).

Definition get_cells_with_capability (b : B) (ty : CapabilityType) : result Error (list CellState) :=
  cells_where b QAll (fun c => has_capability_type c ty).

Definition get_available_cells (b : B) : result Error (list CellState) :=
  cells_where b QAll (fun c => negb (cell_is_full c)).

Definition existing_cell (b : B) (cell_id : string) : result Error CellState :=
  let? c := get_cell b cell_id in
  match c with Some c => Ok c | None => Err (ENotFound "Cell" cell_id) end.

Definition stored (b : B) (c : CellState) (now : Z) : result Error B :=
  let? r := store_cell b c now in Ok (snd r).

Definition store_add_member (b : B) (cell_id node_id : string) (now : Z) : result Error B :=
  let? c := existing_cell b cell_id in
  let '(added, c) := add_member now c node_id in
  if added then stored b c now else Err (EInternal "Failed to add member to cell").

Definition store_remove_member (b : B) (cell_id node_id : string) (now : Z) : result Error B :=
  let? c := existing_cell b cell_id in
  let '(removed, c) := remove_member now c node_id in
  if removed then stored b c now else Err (EInternal "Failed to remove member from cell").

Definition store_set_leader (b : B) (cell_id node_id : string) (now : Z) : result Error B :=
  let? c := existing_cell b cell_id in
  let '(r, c) := set_leader now c node_id in
  match r with Ok _ => stored b c now | Err e => Err (EInternal e) end.

Definition store_add_capability (b : B) (cell_id : string) (cap : Capability) (now : Z) : result Error B :=
  let? c := existing_cell b cell_id in stored b (add_capability now c cap) now.

Definition delete_cell (b : B) (cell_id : string) : result Error B :=
  match remove b CELL_COLLECTION cell_id with Ok b' => Ok b' | Err e => Err (from_backend e) end.
End Store.

(** ** What the store relies on *)

Definition selects (q : Query) (f : gmap string Json) : Prop :=
  match q with QAll => True | QEq name v => f !! name = Some v end.

#[export] Instance json_decision : EqDecision Json := SampleJson.json_eq_dec.

#[export] Instance selects_dec q f : Decision (selects q f).
Proof. destruct q; cbn [selects]; apply _. Defined.

(** Fields as a backend gives them back: without those that are null, and without the null
    fields of the objects in them *)
Definition read_field (o o' : option Json) : Prop :=
  match o with Some v => reads_as v o' | None => o' = None end.

Definition kept_as (f g : gmap string Json) : Prop := forall k, read_field (f !! k) (g !! k).

(** The collection of cells is a map from identifiers to the fields readers see. An upsert
    with an identifier replaces what is under it; without one it adds a document under a
    new identifier. Fields are given back as they were written when the backend can hold
    them ([storable]). A query returns the documents it selects, in some order; nothing
    is said of the time of change they carry, which one backend sets when it is asked. *)
Class DocumentStoreLaws (B : Type) `{DocumentStore B} := {
  storable : gmap string Json -> Prop;
  contents : B -> string -> option (gmap string Json);
  upsert_contents b d i b' : upsert b CELL_COLLECTION d = Ok (i, b') -> storable (fields d) ->
    (forall k, doc_id d = Some k -> i = k) /\ (doc_id d = None -> contents b i = None) /\
    exists f, kept_as (fields d) f /\ forall k, contents b' k = if decide (k = i) then Some f else contents b k;
  query_contents b q l f : query b CELL_COLLECTION q = Ok l ->
    f ∈ map fields l <-> selects q f /\ exists k, contents b k = Some f;
  remove_contents b k b' : remove b CELL_COLLECTION k = Ok b' ->
    forall k', contents b' k' = if decide (k' = k) then None else contents b k'
}.

(** A cell that JSON can express ([portable]: the confidences of its capabilities are
    finite and its numbers within 64 signed bits) is read back from its fields, where a
    field that is missing counts as null and the added identifier is ignored. *)
Class CellDocumentLaws `{CellDocument} := {
  portable : CellState -> Prop;
  cell_fields_read c f g : portable c -> cell_to_fields c = Ok f ->
    (forall k, k <> "cell_id"%string -> read_field (f !! k) (g !! k)) -> fields_to_cell g = Ok c;
  cell_fields_no_id c f : cell_to_fields c = Ok f -> f !! "cell_id"%string = None
}.

Section Theorems.
Context {B : Type} `{DocumentStoreLaws B} `{CellDocumentLaws}.

(** The cells the backend holds, by identifier *)
Definition cell_at (b : B) (k : string) : option CellState :=
  f ← contents b k;
  match fields_to_cell f with Ok c => if decide (get_id c = Some k) then Some c else None | Err _ => None end.

(** Every document describes a cell; one that has an identifier is stored and indexed
    under it. *)
Definition store_wf (b : B) : Prop :=
  forall k f, contents b k = Some f ->
    exists c, fields_to_cell f = Ok c /\ f !! "cell_id"%string = JString <$> get_id c /\
      forall i, get_id c = Some i -> i = k.

(** A cell that JSON can express and whose document the backend can hold *)
Definition keepable (c : CellState) : Prop :=
  portable c /\ forall now d, cell_to_document c now = Ok d -> storable (fields d).

Lemma store_cell_ok b c now i b' :
  keepable c -> store_cell b c now = Ok (i, b') ->
  (forall k, get_id c = Some k -> i = k) /\ (get_id c = None -> contents b i = None) /\
  exists f, fields_to_cell f = Ok c /\ f !! "cell_id"%string = JString <$> get_id c /\
    forall k, contents b' k = if decide (k = i) then Some f else contents b k.
Proof.
  intros [Hp Hst] Hs. unfold store_cell in Hs. destruct (cell_to_document c now) as [d|] eqn:Ed; [|done]. cbn in Hs.
  destruct (upsert _ _ _) as [[i' b'']|] eqn:Eu; [|done]. injection Hs as -> ->.
  destruct (upsert_contents _ _ _ _ Eu (Hst now d Ed)) as (Hk & Hn & f & Hf & Hc).
  unfold cell_to_document in Ed. destruct (cell_to_fields c) as [f0|] eqn:Ef; [|done]. cbn in Ed.
  pose proof (cell_fields_no_id c f0 Ef) as Hno. pose proof (Hf "cell_id"%string) as Hid.
  destruct (get_id c) as [k|]; injection Ed as <-; cbn [doc_id fields] in *.
  - split_and!; [by intros ? [= <-]; apply Hk|done|]. exists f. split_and!; [|by rewrite lookup_insert_eq in Hid|done].
    apply (cell_fields_read c f0 f Hp Ef). intros k' Hne. specialize (Hf k'). by rewrite lookup_insert_ne in Hf by done.
  - split_and!; [done|by intros _; apply Hn|]. exists f. rewrite Hno in Hid. split_and!; [|done|done].
    by apply (cell_fields_read c f0 f Hp Ef).
Qed.

Lemma store_cell_wf b c now i b' : store_wf b -> keepable c -> store_cell b c now = Ok (i, b') -> store_wf b'.
Proof.
  intros Hwf Hp Hs. destruct (store_cell_ok b c now i b' Hp Hs) as (Hi & _ & f & Hf & Hid & Hc).
  intros k g. rewrite Hc. destruct (decide (k = i)) as [->|]; [|by apply Hwf]. intros [= <-]. exists c.
  split_and!; [done..|]. intros i' Hi'. by rewrite (Hi i' Hi').
Qed.

Lemma store_cell_at b c now i b' k :
  keepable c -> store_cell b c now = Ok (i, b') -> get_id c = Some k ->
  forall k', cell_at b' k' = if decide (k' = k) then Some c else cell_at b k'.
Proof.
  intros Hp Hs Hid k'. destruct (store_cell_ok b c now i b' Hp Hs) as (Hi & _ & f & Hf & _ & Hc).
  rewrite (Hi k Hid) in Hc. unfold cell_at. rewrite Hc. destruct (decide (k' = k)) as [->|]; [|done].
  cbn [mbind option_bind]. rewrite Hf. by destruct (decide _).
Qed.

Lemma query_cells_elem b q docs f :
  query_cells b q = Ok docs -> f ∈ map fields docs <-> selects q f /\ exists k, contents b k = Some f.
Proof.
  unfold query_cells. destruct (query _ _ _) as [l|] eqn:Eq; [|done]. intros [= <-]. by apply query_contents.
Qed.

(** Reading a cell gives the one the store holds under the identifier. *)
Lemma get_cell_at b k o : store_wf b -> get_cell b k = Ok o -> o = cell_at b k.
Proof.
  intros Hwf Hg. unfold get_cell in Hg. destruct (query_cells _ _) as [docs|] eqn:Eq; [|done]. cbn in Hg.
  assert (forall f, f ∈ map fields docs <-> contents b k = Some f /\ f !! "cell_id"%string = Some (JString k)) as Hd.
  { intros f. rewrite (query_cells_elem _ _ _ f Eq). cbn [selects]. split; [|naive_solver].
    intros [Hf [k' Hk']]. split; [|done]. destruct (Hwf _ _ Hk') as (c & _ & Hi & Huniq).
    rewrite Hf in Hi. destruct (get_id c) as [i|]; [|done]. injection Hi as <-. by rewrite (Huniq k eq_refl). }
  unfold cell_at. destruct (sort_by (cmp_desc updated_at) docs) as [|d l] eqn:Es.
  - injection Hg as <-. apply sort_by_nil_inv in Es. subst docs.
    destruct (contents b k) as [f|] eqn:Ek; [|done]. cbn [mbind option_bind]. destruct (Hwf _ _ Ek) as (c & -> & Hi & _).
    destruct (decide _) as [E|]; [|done]. rewrite E in Hi. exfalso. apply (not_elem_of_nil f). by apply Hd.
  - assert (fields d ∈ map fields docs) as Hin.
    { apply list_elem_of_fmap_2. rewrite <- (sort_by_perm (cmp_desc updated_at) docs), Es. by left. }
    apply Hd in Hin as [Hk Hf]. destruct (Hwf _ _ Hk) as (c & Hc & Hi & _).
    unfold document_to_cell in Hg. rewrite Hc in Hg. cbn in Hg. injection Hg as <-.
    rewrite Hk. cbn [mbind option_bind]. rewrite Hc, Hf in *. destruct (get_id c) as [i|]; [|done]. injection Hi as <-.
    by destruct (decide _).
Qed.

Lemma cell_at_id b k c : cell_at b k = Some c -> get_id c = Some k.
Proof.
  unfold cell_at. destruct (contents b k) as [f|]; [|done]. cbn [mbind option_bind].
  destruct (fields_to_cell f) as [c'|]; [|done]. destruct (decide _); [|done]. by intros [= <-].
Qed.

(** A query over all cells finds, of the cells with an identifier, exactly those the
    store holds. *)
Lemma cells_where_elem b P l c k :
  store_wf b -> cells_where b QAll P = Ok l -> get_id c = Some k -> c ∈ l <-> cell_at b k = Some c /\ P c = true.
Proof.
  intros Hwf Hc Hid. unfold cells_where in Hc. destruct (query_cells b QAll) as [docs|] eqn:Eq; [|done]. cbn in Hc. injection Hc as <-.
  rewrite list_elem_of_filter. unfold decoded. rewrite list_elem_of_omap.
  assert ((exists d, d ∈ docs /\ match document_to_cell d with Ok c => Some c | Err _ => None end = Some c) <-> cell_at b k = Some c) as ->;
    [|tauto]. split.
  - intros (d & Hin & Ed). assert (fields d ∈ map fields docs) as Hf by by apply list_elem_of_fmap_2.
    apply (query_cells_elem _ _ _ _ Eq) in Hf as [_ [k' Hk']]. unfold document_to_cell in Ed.
    destruct (Hwf _ _ Hk') as (c' & Ec & _ & Huniq). rewrite Ec in Ed. injection Ed as ->.
    rewrite <- (Huniq k Hid) in Hk'. unfold cell_at. rewrite Hk'. cbn [mbind option_bind]. rewrite Ec. by destruct (decide _).
  - unfold cell_at. destruct (contents b k) as [f|] eqn:Ek; [|done]. cbn [mbind option_bind].
    destruct (fields_to_cell f) as [c'|] eqn:Ec; [|done]. destruct (decide _); [|done]. intros [= ->].
    assert (f ∈ map fields docs) as (d & -> & Hin)%list_elem_of_fmap.
    { apply (query_cells_elem _ _ _ f Eq). split; [done|by exists k]. }
    exists d. unfold document_to_cell. by rewrite Ec.
Qed.

(** *** Changing a cell *)

Inductive CellChange :=
| ChAddMember (n : string)
| ChRemoveMember (n : string)
| ChSetLeader (n : string)
| ChAddCapability (cap : Capability).

(** The change on a cell in memory; [None] when the cell refuses it *)
Definition change_cell (now : Z) (ch : CellChange) (c : CellState) : option CellState :=
  match ch with
  | ChAddMember n => let '(ok, c) := add_member now c n in if ok then Some c else None
  | ChRemoveMember n => let '(ok, c) := remove_member now c n in if ok then Some c else None
  | ChSetLeader n => let '(r, c) := set_leader now c n in match r with Ok _ => Some c | Err _ => None end
  | ChAddCapability cap => Some (add_capability now c cap)
  end.

Definition change_stored (b : B) (k : string) (ch : CellChange) (now : Z) : result Error B :=
  match ch with
  | ChAddMember n => store_add_member b k n now
  | ChRemoveMember n => store_remove_member b k n now
  | ChSetLeader n => store_set_leader b k n now
  | ChAddCapability cap => store_add_capability b k cap now
  end.

Lemma change_cell_id now ch c c' : change_cell now ch c = Some c' -> get_id c' = get_id c.
Proof.
  destruct ch; cbn [change_cell]; unfold add_member, remove_member, set_leader, add_capability; repeat case_match;
    intros; simplify_eq; done.
Qed.

(** A change of the stored cell reads it, changes it in memory and writes it back. *)
Lemma change_stored_ok b k ch now b' :
  change_stored b k ch now = Ok b' ->
  exists c c', get_cell b k = Ok (Some c) /\ change_cell now ch c = Some c' /\ exists i, store_cell b c' now = Ok (i, b').
Proof.
  destruct ch; cbn [change_stored change_cell];
    unfold store_add_member, store_remove_member, store_set_leader, store_add_capability, existing_cell;
    destruct (get_cell b k) as [[c|]|]; cbn; try done; intros E; exists c;
    [destruct (add_member now c n) as [[] c'] | destruct (remove_member now c n) as [[] c']
    | destruct (set_leader now c n) as [[] c'] | set (c' := add_capability now c cap) in *]; try done;
    exists c'; unfold stored in E; destruct (store_cell b c' now) as [[i b'']|]; try done; cbn in E; injection E as <-; eauto.
Qed.

Lemma change_stored_spec b k ch now b' :
  store_wf b -> change_stored b k ch now = Ok b' ->
  exists c c', cell_at b k = Some c /\ change_cell now ch c = Some c' /\
    (keepable c' -> store_wf b' /\ (forall o, get_cell b' k = Ok o -> o = Some c') /\
      forall k', cell_at b' k' = if decide (k' = k) then Some c' else cell_at b k').
Proof.
  intros Hwf (c & c' & Hg & Hc & i & Hs)%change_stored_ok. exists c, c'.
  pose proof (get_cell_at _ _ _ Hwf Hg) as Hat. symmetry in Hat. split_and!; [done..|]. intros Hp.
  pose proof (store_cell_wf _ _ _ _ _ Hwf Hp Hs) as Hwf'.
  assert (get_id c' = Some k) as Hid by (rewrite (change_cell_id _ _ _ _ Hc); by apply (cell_at_id b)).
  pose proof (store_cell_at _ _ _ _ _ _ Hp Hs Hid) as Hall. split_and!; [done| |done].
  intros o Ho. rewrite (get_cell_at _ _ _ Hwf' Ho), Hall. by destruct (decide _).
Qed.

(** C33: over a backend that obeys its laws the store of cells behaves as a map from
    identifiers to cells. A read that succeeds returns the cell under the identifier. A
    change that succeeds applies the change of the cell in memory to the cell stored under
    the identifier; when the backend can hold the changed cell, a read afterwards returns
    it, and every other cell is as before. Storing a cell the backend can hold puts it under its
    identifier, and deleting removes exactly that cell. *)
Theorem cell_store_refines_map b k :
  store_wf b ->
  (forall o, get_cell b k = Ok o -> o = cell_at b k) /\
  (forall c now i b', keepable c -> get_id c = Some k -> store_cell b c now = Ok (i, b') ->
     i = k /\ store_wf b' /\ forall k', cell_at b' k' = if decide (k' = k) then Some c else cell_at b k') /\
  (forall ch now b', change_stored b k ch now = Ok b' ->
     exists c c', cell_at b k = Some c /\ change_cell now ch c = Some c' /\
       (keepable c' -> store_wf b' /\ (forall o, get_cell b' k = Ok o -> o = Some c') /\
         forall k', cell_at b' k' = if decide (k' = k) then Some c' else cell_at b k')) /\
  (forall b', delete_cell b k = Ok b' ->
     store_wf b' /\ forall k', cell_at b' k' = if decide (k' = k) then None else cell_at b k').
Proof.
  intros Hwf. split_and!.
  - intros o. by apply get_cell_at.
  - intros c now i b' Hp Hid Hs. destruct (store_cell_ok b c now i b' Hp Hs) as (Hi & _).
    split_and!; [by apply Hi|by apply (store_cell_wf b c now i)|by apply (store_cell_at b c now i)].
  - intros ch now b'. by apply change_stored_spec.
  - intros b' Hd. unfold delete_cell in Hd. destruct (remove _ _ _) as [b''|] eqn:E; [|done]. injection Hd as ->.
    pose proof (remove_contents _ _ _ E) as Hc. split.
    + intros k' f. rewrite Hc. destruct (decide _); [done|]. by apply Hwf.
    + intros k'. unfold cell_at. rewrite Hc. by destruct (decide (k' = k)).
Qed.
End Theorems.

(** ** A concrete backend

    Documents in a map; a cell is written as one text field. *)

Module SampleBackend.
Import SampleJson.

#[export] Instance timestamp_countable : Countable Timestamp.
Proof. refine (inj_countable' (fun t => (seconds t, nanos t)) (fun p => mkTimestamp (fst p) (snd p)) _). by intros []. Defined.

#[export] Instance capability_countable : Countable Capability.
Proof.
  refine (inj_countable' (fun c => (id c, name c, (capability_type c, confidence c), (metadata_json c, registered_at c)))
    (fun '(i, n, (ty, x), (m, r)) => mkCapability i n ty x m r) _). by intros [].
Defined.

#[export] Instance config_countable : Countable CellConfig.
Proof.
  refine (inj_countable' (fun c => (cfg_id c, max_size c, (min_size c, created_at c)))
    (fun '(i, mx, (mn, t)) => mkCellConfig i mx mn t) _). by intros [].
Defined.

#[export] Instance cell_countable : Countable CellState.
Proof.
  refine (inj_countable' (fun c => (config c, leader_id c, members c, (capabilities c, cohort_id c, timestamp c)))
    (fun '(cfg, l, ms, (caps, co, t)) => mkCellState cfg l ms caps co t) _). by intros [].
Defined.

#[export] Instance sample_cells : CellDocument := {|
  cell_to_fields c := Ok {["state"%string := JString (digits (encode c))]};
  fields_to_cell f :=
    match f !! "state"%string with
    | Some (JString s) => match decode (undigits s) with Some c => Ok c | None => Err (ESerialization "state") end
    | _ => Err (ESerialization "state")
    end
|}.

Lemma sample_read (c : CellState) : match decode (undigits (digits (encode c))) with Some c => Ok c | None => Err (ESerialization "state") end = Ok c.
Proof. by rewrite undigits_digits, decode_encode. Qed.

#[export] Instance sample_cells_laws : CellDocumentLaws.
Proof.
  refine {| portable _ := True |}; intros c f; cbn [cell_to_fields fields_to_cell sample_cells].
  - intros g _ [= <-] Hg. specialize (Hg "state"%string ltac:(discriminate)). rewrite lookup_singleton_eq in Hg.
    cbn [read_field reads_as is_null strip] in Hg. rewrite Hg. apply sample_read.
  - intros [= <-]. by apply lookup_singleton_ne.
Defined.

#[export] Instance sample_store : DocumentStore (gmap string Document) := {|
  upsert b _ d := match doc_id d with Some k => Ok (k, <[k := d]> b) | None => Err "a document needs an identifier"%string end;
  query b _ q := Ok (filter (fun d => selects q (fields d)) ((map_to_list b).*2));
  remove b _ k := Ok (delete k b)
|}.

(** The backend gives texts back. *)
Definition is_text (v : Json) : Prop := match v with JString _ => True | _ => False end.

#[export] Instance sample_store_laws : DocumentStoreLaws (gmap string Document).
Proof.
  refine {| storable f := forall k v, f !! k = Some v -> is_text v; contents b k := fields <$> b !! k |}.
  - intros b d i b'. cbn. destruct (doc_id d) as [k|]; [|done]. intros [= <- <-] Hf. split_and!; [by intros ? [= <-]|done|].
    exists (fields d). split.
    + intros k'. unfold read_field. destruct (fields d !! k') as [v|] eqn:E; [|done]. apply Hf in E. by destruct v.
    + intros k'. destruct (decide (k' = k)) as [->|]; [by rewrite lookup_insert_eq|by rewrite lookup_insert_ne].
  - intros b q l f. cbn. intros [= <-]. rewrite list_elem_of_fmap. split.
    + intros (d & -> & [Hs Hin]%list_elem_of_filter). split; [done|].
      apply list_elem_of_fmap in Hin as ([k d'] & -> & Hk%elem_of_map_to_list). exists k. by rewrite Hk.
    + intros [Hs [k Hk]]. destruct (b !! k) as [d|] eqn:E; [|done]. injection Hk as <-. exists d. split; [done|].
      apply list_elem_of_filter. split; [done|]. apply list_elem_of_fmap. exists (k, d). by rewrite elem_of_map_to_list.
  - intros b k b'. cbn. intros [= <-] k'. destruct (decide (k' = k)) as [->|]; [by rewrite lookup_delete_eq|by rewrite lookup_delete_ne].
Defined.

Lemma sample_keepable c : keepable (B := gmap string Document) c.
Proof.
  split; [done|]. intros now d. unfold cell_to_document. cbn. destruct (get_id c); intros [= <-] k v; cbn [fields].
  - rewrite lookup_insert_Some, lookup_singleton_Some. by intros [[_ <-]|[_ [_ <-]]].
  - rewrite lookup_singleton_Some. by intros [_ <-].
Qed.

Definition cell (k : string) (ms : list string) : CellState :=
  mkCellState (Some (mkCellConfig k 5 2 None)) None ms [] None None.

Definition ok_or {E A} (d : A) (r : result E A) : A := match r with Ok a => a | Err _ => d end.

Definition store_all (cells : list CellState) : gmap string Document :=
  fold_left (fun b c => ok_or b (let? r := store_cell b c 0 in Ok (snd r))) cells ∅.

Lemma empty_wf : store_wf (∅ : gmap string Document).
Proof. intros k f Hk. cbn in Hk. by rewrite lookup_empty in Hk. Qed.

Lemma store_all_wf cells b :
  store_wf b -> store_wf (fold_left (fun b c => ok_or b (let? r := store_cell b c 0 in Ok (snd r))) cells b).
Proof.
  revert b. induction cells as [|c cells IH]; intros b Hb; [done|]. cbn [fold_left]. apply IH.
  destruct (store_cell b c 0) as [[i b']|] eqn:E; [|done]. apply (store_cell_wf b c 0 i b'); [done|apply sample_keepable|done].
Qed.

Definition fleet : gmap string Document := store_all [cell "alpha" ["n1"; "n2"]; cell "bravo" ["n3"]]%string.
Definition fleet' : gmap string Document := ok_or fleet (store_add_member fleet "bravo" "n4" 7).

Lemma fleet_wf : store_wf fleet.
Proof. apply store_all_wf, empty_wf. Qed.

Definition succeeded {E A} (r : result E A) : bool := match r with Ok _ => true | Err _ => false end.

Lemma succeeded_ok {E A} (d : A) (r : result E A) : succeeded r = true -> r = Ok (ok_or d r).
Proof. by destruct r. Qed.

Lemma fleet_added : store_add_member fleet "bravo" "n4" 7 = Ok fleet'.
Proof. apply succeeded_ok. vm_compute. reflexivity. Qed.

Lemma cell_store_refines_map_witness :
  exists c', cell_at fleet' "bravo" = Some c' /\ forall k, k <> "bravo"%string -> cell_at fleet' k = cell_at fleet k.
Proof.
  destruct (proj1 (proj2 (proj2 (cell_store_refines_map fleet "bravo" fleet_wf))) (ChAddMember "n4") 7 fleet'
    fleet_added) as (c & c' & _ & _ & Hk). destruct (Hk (sample_keepable c')) as (_ & _ & Hall).
  exists c'. split; [by rewrite Hall|]. intros k Hne. rewrite Hall. by destruct (decide _).
Defined.
End SampleBackend.
