(* ===== verification/AutomergeBackend.v ===== *)
(** * The in-memory Automerge backend

    Models the documents of peat-protocol/src/sync/automerge.rs: the conversion of a
    document of JSON fields to Automerge and back, and the operations of the trait
    [DocumentStore] on a map of Automerge documents, with the observers they notify. The
    queries are those of the store of cells. An Automerge document is seen through
    [AutomergeDoc] of [Conversion]; new identifiers, the clock and the deletion state that
    peat-mesh reads off a query are the class [BackendEnv]. The laws of
    [DocumentStore] are proved of it for the documents it gives back unchanged. *)

From stdpp Require Import pretty.
From Stdlib Require Import SpecFloat Ascii.
From S2P Require Import Prelude Float Bytes Error CellState Json Conversion CellStore.

Open Scope Z_scope.

(** ** Writing *)

Section Writing.
Context `{SerdeJson}.

(** The item of a list: nested arrays and objects become text. *)
Definition insert_json_value (items : list Obj) (index : nat) (value : Json) : result nat (list Obj) :=
  match value with
  | JString s => insert_at index (OScalar (ScStr s)) items
  | JInt z => insert_at index (number_obj z) items
  | JFloat x => insert_at index (OScalar (ScF64 x)) items
  | JBool b => insert_at index (OScalar (ScBoolean b)) items
  | JNull => Ok items
  | JArray _ | JObject _ => insert_at index (OScalar (ScStr (to_string value))) items
  end.

Fixpoint insert_json_values (items : list Obj) (index : nat) (arr : list Json) : result nat (list Obj) :=
  match arr with
  | [] => Ok items
  | item :: rest => let? items' := insert_json_value items index item in insert_json_values items' (S index) rest
  end.

(** The fields of a map after writing [value] under [key]; the error is the index of a
    refused insertion. *)
Fixpoint put_json_value (obj : Fields) (key : string) (value : Json) : result nat Fields :=
  match value with
  | JString s => Ok (put key (OScalar (ScStr s)) obj)
  | JInt z => Ok (put key (number_obj z) obj)
  | JFloat x => Ok (put key (OScalar (ScF64 x)) obj)
  | JBool b => Ok (put key (OScalar (ScBoolean b)) obj)
  | JNull => Ok obj
  | JArray arr => let? items := insert_json_values [] 0 arr in Ok (put key (OList items) obj)
  | JObject map =>
      let? nested :=
        (fix go nested map :=
           match map with
           | [] => Ok nested
           | (k, v) :: rest => let? nested' := put_json_value nested k v in go nested' rest
           end) [] map in
      Ok (put key (OMap nested) obj)
  end.

(** The loop over the fields of a document, in the order of its hash map *)
Fixpoint put_fields (obj : Fields) (fields : list (string * Json)) : result nat Fields :=
  match fields with
  | [] => Ok obj
  | (key, value) :: rest => let? obj' := put_json_value obj key value in put_fields obj' rest
  end.

(** The map under "root" is created anew. *)
Definition apply_document_to_automerge {Doc} `{AutomergeDoc Doc} (doc : Doc) (document : Document) : result Error Doc :=
  match put_fields [] (map_to_list (fields document)) with
  | Ok root => Ok (committed doc (put "root" (OMap root) (visible doc)))
  | Err index => Err (EInternal ("Transaction failed: " +:+ invalid_index index))
  end.
End Writing.

(** ** Reading *)

Definition automerge_scalar_to_json (scalar : Scalar) : Json :=
  match scalar with
  | ScStr s => JString s
  | ScInt i => JInt i
  | ScUint u => JInt u
  | ScF64 x => json_f64 x
  | ScBoolean b => JBool b
  | ScNull => JNull
  | ScBytes bytes => JArray (map (fun b => JInt (u8 b)) bytes)
  | ScCounter c => JInt c
  | ScTimestamp ts => JInt ts
  | ScUnknown => JNull
  end.

Fixpoint automerge_value_to_json (value : Obj) : Json :=
  match value with
  | OScalar scalar => automerge_scalar_to_json scalar
  | OMap fields | OTable fields => JObject (map (fun f => (fst f, automerge_value_to_json (snd f))) fields)
  | OList items => JArray (map automerge_value_to_json items)
  | OText s => JString s
  end.

(** The fields of the map under "root", if it is there *)
Definition document_fields {Doc} `{AutomergeDoc Doc} (doc : Doc) : gmap string Json :=
  match lookup_obj "root" (visible doc) with
  | Some (OMap fs) => list_to_map (map (fun f => (fst f, automerge_value_to_json (snd f))) fs)
  | _ => ∅
  end.

(** The time of change is the time of reading. *)
Definition automerge_to_document {Doc} `{AutomergeDoc Doc} (doc : Doc) (id : string) (now : Z) : Document :=
  mkDocument (Some id) (document_fields doc) now.

(** ** The backend *)

Inductive ChangeEvent :=
| Initial (collection : string) (documents : list Document)
| Updated (collection : string) (document : Document) (origin : option string)
| Removed (collection : string) (id : string) (origin : option string).

(** Of the fields of the struct those these operations use: the documents by key, and
    what each observer has been sent *)
Record AutomergeBackend (Doc : Type) := mkBackend {
  documents : gmap string Doc;
  observers : list (list ChangeEvent)
}.
Arguments mkBackend {Doc} _ _.
Arguments documents {Doc} _.
Arguments observers {Doc} _.

Definition backend_new {Doc} : AutomergeBackend Doc := mkBackend ∅ [].

Definition doc_key (collection id : string) : string := collection +:+ ":" +:+ id.

Definition notify {Doc} (b : AutomergeBackend Doc) (e : ChangeEvent) : AutomergeBackend Doc :=
  mkBackend (documents b) (map (fun sent => sent ++ [e]) (observers b)).

(** [key.split(':').nth(1).unwrap_or("")]: between the first two colons *)
Fixpoint until_colon (s : string) : string :=
  match s with
  | EmptyString => EmptyString
  | String c s => if ascii_dec c ":" then EmptyString else String c (until_colon s)
  end.

Fixpoint second_part (s : string) : string :=
  match s with
  | EmptyString => EmptyString
  | String c s => if ascii_dec c ":" then until_colon s else second_part s
  end.

(** What the backend takes from outside: [Uuid::new_v4], the clock, and
    [Query::matches_deletion_state] *)
Class BackendEnv (Doc : Type) := {
  new_v4 : AutomergeBackend Doc -> string;
  clock : AutomergeBackend Doc -> Z;
  matches_deletion_state : Query -> Document -> bool
}.

Section Backend.
Context {Doc : Type} `{AutomergeDoc Doc, !SerdeJson, !BackendEnv Doc}.

Definition upsert_with_origin (b : AutomergeBackend Doc) (collection : string) (document : Document) (origin : option string)
    : result Error (string * AutomergeBackend Doc) :=
  let id := match doc_id document with Some id => id | None => new_v4 b end in
  let key := doc_key collection id in
  let? doc := apply_document_to_automerge (match documents b !! key with Some existing => existing | None => new_doc end) document in
  Ok (id, notify (mkBackend (<[key := doc]> (documents b)) (observers b))
            (Updated collection (mkDocument (Some id) (fields document) (updated_at document)) origin)).

(** [matches_query] for the queries of the store of cells *)
Definition matches_query (d : Document) (q : Query) : bool :=
  match q with
  | QAll => true
  | QEq name value => match fields d !! name with Some v => bool_decide (v = value) | None => false end
  end.

(** The documents of a collection *)
Definition collection_documents (b : AutomergeBackend Doc) (collection : string) : list Document :=
  omap (fun '(key, doc) =>
          if String.prefix (collection +:+ ":") key then Some (automerge_to_document doc (second_part key) (clock b)) else None)
    (map_to_list (documents b)).

Definition backend_query (b : AutomergeBackend Doc) (collection : string) (q : Query) : list Document :=
  filter (fun d => matches_deletion_state q d = true /\ matches_query d q = true) (collection_documents b collection).

Definition backend_remove (b : AutomergeBackend Doc) (collection id : string) : result Error (AutomergeBackend Doc) :=
  let key := doc_key collection id in
  match documents b !! key with
  | None => Err (ENotFound "Document" id)
  | Some _ => Ok (notify (mkBackend (delete key (documents b)) (observers b)) (Removed collection id None))
  end.

Definition backend_get (b : AutomergeBackend Doc) (collection id : string) : option Document :=
  doc ← documents b !! doc_key collection id; Some (automerge_to_document doc id (clock b)).

Definition backend_count (b : AutomergeBackend Doc) (collection : string) (q : Query) : Z := len (backend_query b collection q).

(** The deletion state plays no part in the snapshot. *)
Definition observe (b : AutomergeBackend Doc) (collection : string) (q : Query) : AutomergeBackend Doc :=
  let initial := filter (fun d => matches_query d q = true) (collection_documents b collection) in
  mkBackend (documents b) (observers b ++ [[Initial collection initial]]).
End Backend.

(** [Error] as text *)
Definition error_text (e : Error) : string :=
  match e with
  | EDiscovery m => "Discovery error: " +:+ m
  | ECellFormation m _ => "Cell formation error: " +:+ m
  | EHierarchicalOp m _ => "Hierarchical operation error: " +:+ m
  | EComposition m _ => "Capability composition error: " +:+ m
  | EStorage m _ _ => "Storage error: " +:+ m
  | ENetwork m _ => "Network error: " +:+ m
  | ESerialization m => "Serialization error: " +:+ m
  | EInvalidTransition from to reason => "Invalid state transition from " +:+ from +:+ " to " +:+ to +:+ ": " +:+ reason
  | ENotFound ty id => "Resource not found: " +:+ ty +:+ " with id " +:+ id
  | EConfiguration m _ => "Configuration error: " +:+ m
  | ETimeout op ms => "Operation timed out after " +:+ pretty ms +:+ "ms: " +:+ op
  | EDitto m _ => "Ditto error: " +:+ m
  | EInternal m => "Internal error: " +:+ m
  | EInvalidInput m => "Invalid input: " +:+ m
  | EConflictDetected m => "Command conflict detected: " +:+ m
  | ESecurity m => "Security error: " +:+ m
  | EEventOp m _ => "Event operation error: " +:+ m
  end.

(** The trait, whose [upsert] gives no origin *)
#[export] Instance automerge_backend {Doc} `{AutomergeDoc Doc, !SerdeJson, !BackendEnv Doc} :
    DocumentStore (AutomergeBackend Doc) := {|
  upsert b collection d :=
    match upsert_with_origin b collection d None with Ok r => Ok r | Err e => Err (error_text e) end;
  query b collection q := Ok (backend_query b collection q);
  remove b collection id :=
    match backend_remove b collection id with Ok b' => Ok b' | Err e => Err (error_text e) end
|}.

(** ** What the backend keeps *)

(** An item of a list that is kept: a text, a truth value, a signed 64-bit integer or a
    finite float *)
Definition item_held (v : Json) : bool :=
  match v with
  | JString _ | JBool _ => true
  | JInt z => (- 2 ^ 63 <=? z) && (z <? 2 ^ 63)
  | JFloat x => match x with S754_zero _ | S754_finite _ _ _ => true | _ => false end
  | _ => false
  end.

(** Values that are read back as they were written, up to null fields *)
Fixpoint held (v : Json) : bool :=
  match v with
  | JNull => true
  | JArray l => forallb item_held l
  | JObject fs => bool_decide (NoDup fs.*1) && forallb (fun f => held (snd f)) fs
  | _ => item_held v
  end.

Section Values.
Context `{SerdeJson}.

Lemma insert_items_held l items :
  forallb item_held l = true -> insert_json_values items (length items) l = Ok (items ++ map written l).
Proof.
  revert items. induction l as [|v l IH]; intros items; [by rewrite app_nil_r|].
  cbn [forallb insert_json_values map]. rewrite andb_true_iff. intros [Hv Hl].
  assert (insert_json_value items (length items) v = Ok (items ++ [written v])) as ->.
  { destruct v; try done; cbn [insert_json_value written]; apply insert_at_end. }
  specialize (IH (items ++ [written v]) Hl). rewrite length_app, Nat.add_1_r in IH. by rewrite IH, <- app_assoc.
Qed.

Lemma put_held v obj key :
  held v = true -> put_json_value obj key v = Ok (if is_null v then obj else put key (written v) obj).
Proof.
  revert obj key. induction v as [|b|z|x|s|l _|fs IH] using Json_ind'; intros obj key Hv; try done.
  - cbn [put_json_value is_null written]. pose proof (insert_items_held l [] Hv) as E. cbn [length] in E. by rewrite E.
  - cbn [held] in Hv. apply andb_true_iff in Hv as [Hn%bool_decide_eq_true Hv]. cbn [put_json_value is_null written].
    match goal with |- context [(?g [] fs)] => assert (forall nested, g nested fs = Ok (overlay nested (kept fs))) as -> end.
    + clear Hn. induction fs as [|[k v] fs IHfs]; intros nested; [done|]. apply Forall_cons in IH as [Hk IH].
      cbn [forallb snd] in Hv. apply andb_true_iff in Hv as [Hv Hvs]. cbn [snd] in Hk. rewrite (Hk nested k Hv).
      cbn. rewrite (IHfs IH Hvs). unfold kept. cbn [flat_map fst snd]. by destruct (is_null v).
    + rewrite overlay_fresh; [done|by apply kept_nodup|intros ? _; apply not_elem_of_nil].
Qed.

Lemma put_fields_held l obj :
  forallb (fun f => held (snd f)) l = true -> put_fields obj l = Ok (overlay obj (kept l)).
Proof.
  revert obj. induction l as [|[k v] l IH]; intros obj; [done|]. cbn [forallb snd put_fields]. rewrite andb_true_iff.
  intros [Hv Hl]. rewrite (put_held v obj k Hv). cbn. rewrite (IH _ Hl). unfold kept. cbn [flat_map fst snd].
  by destruct (is_null v).
Qed.

Lemma read_item v : item_held v = true -> automerge_value_to_json (written v) = strip v.
Proof.
  destruct v as [|b|z|x|s|l|fs]; try done; cbn [item_held written strip].
  - intros Hz. unfold number_obj. by rewrite Hz.
  - by destruct x.
Qed.

Lemma read_held v : held v = true -> automerge_value_to_json (written v) = strip v.
Proof.
  induction v as [|b|z|x|s|l _|fs IH] using Json_ind'; intros Hv; try (by apply read_item); [done|..].
  - cbn [held] in Hv. cbn [written automerge_value_to_json strip]. f_equal. rewrite map_map. apply map_ext_in.
    intros v Hin. apply read_item. by apply (proj1 (forallb_forall _ _) Hv).
  - cbn [held] in Hv. apply andb_true_iff in Hv as [_ Hv]. cbn [written automerge_value_to_json strip]. f_equal.
    induction fs as [|[k v] fs IHfs]; [done|]. apply Forall_cons in IH as [Hk IH]. cbn [forallb snd] in Hv, Hk.
    apply andb_true_iff in Hv as [Hv Hvs]. cbn [flat_map fst snd]. destruct (is_null v); cbn [app map fst snd]; [by apply IHfs|].
    rewrite (Hk Hv). f_equal. by apply IHfs.
Qed.
End Values.

Lemma list_to_map_read (fs : Fields) k :
  (list_to_map (map (fun f => (fst f, automerge_value_to_json (snd f))) fs) : gmap string Json) !! k =
  automerge_value_to_json <$> lookup_obj k fs.
Proof.
  induction fs as [|[k' o] fs IH]; [done|]. cbn [map fst snd list_to_map foldr lookup_obj]. case_decide as E.
  - subst k'. apply lookup_insert_eq.
  - rewrite lookup_insert_ne by done. apply IH.
Qed.

Lemma field_map_to_list (f : gmap string Json) k : field k (map_to_list f) = f !! k.
Proof.
  apply option_eq. intros v. rewrite <- field_elem by apply NoDup_fst_map_to_list. apply elem_of_map_to_list.
Qed.

(** Fields whose values are kept and that do not mark the document as deleted *)
Definition fields_held (f : gmap string Json) : Prop :=
  (forall k v, f !! k = Some v -> held v = true) /\ f !! "_deleted"%string = None.

Section Documents.
Context {Doc : Type} `{AutomergeDocLaws Doc, !SerdeJson}.

(** A document of kept values is written without an error and read back up to null
    fields, whatever document was there before. *)
Lemma document_read (doc : Doc) d :
  fields_held (fields d) ->
  exists doc', apply_document_to_automerge doc d = Ok doc' /\ kept_as (fields d) (document_fields doc').
Proof.
  intros [Hf _]. unfold apply_document_to_automerge.
  rewrite put_fields_held.
  2: { apply forallb_forall. intros [k v] Hin. apply list_elem_of_In, elem_of_map_to_list in Hin. by apply (Hf k). }
  eexists. split; [done|]. intros k. unfold document_fields. rewrite committed_visible, lookup_put, decide_True by done.
  rewrite list_to_map_read. pose proof (NoDup_fst_map_to_list (fields d)) as Hn.
  rewrite lookup_overlay, lookup_kept, field_map_to_list by (done || by apply kept_nodup).
  destruct (fields d !! k) as [v|] eqn:Ek; [|done]. cbn [read_field]. unfold reads_as. destruct (is_null v); [by left|].
  cbn. f_equal. apply read_held. by apply (Hf k).
Qed.
End Documents.

(** ** The laws of a document store *)

Definition soft_deleted (f : gmap string Json) : bool := bool_decide (f !! "_deleted"%string = Some (JBool true)).

(** New identifiers are new; a query of the store of cells leaves out the documents that
    are marked as deleted. *)
Class BackendEnvLaws (Doc : Type) `{BackendEnv Doc} : Prop := {
  new_v4_fresh b : documents b !! doc_key CELL_COLLECTION (new_v4 b) = None;
  deletion_state q d : matches_deletion_state q d = negb (soft_deleted (fields d))
}.

Section Laws.
Context {Doc : Type} `{!AutomergeDoc Doc, !AutomergeDocLaws Doc, !SerdeJson, !BackendEnv Doc, !BackendEnvLaws Doc}.

Definition backend_contents (b : AutomergeBackend Doc) (k : string) : option (gmap string Json) :=
  doc ← documents b !! doc_key CELL_COLLECTION k;
  if soft_deleted (document_fields doc) then None else Some (document_fields doc).

Lemma doc_key_inj c k k' : doc_key c k = doc_key c k' -> k = k'.
Proof.
  unfold doc_key. intros E. induction c as [|a c IH]; cbn in E; [by injection E|]. injection E as E. by apply IH.
Qed.

Lemma doc_key_prefix c key : String.prefix (c +:+ ":") key = true <-> exists k, key = doc_key c k.
Proof.
  rewrite string_prefix_iff. unfold doc_key. assert (forall t, (c +:+ ":") +:+ t = c +:+ ":" +:+ t) as Ha.
  { intros t. clear. induction c as [|a c IH]; [done|]. exact (f_equal (String a) IH). }
  split; intros [t E]; exists t; by rewrite E, ?Ha.
Qed.

Lemma selects_matches q d : matches_query d q = true <-> selects q (fields d).
Proof.
  destruct q as [|name v]; [done|]. cbn. destruct (fields d !! name) as [w|]; [|done]. rewrite bool_decide_eq_true. naive_solver.
Qed.

#[export] Instance automerge_backend_laws : DocumentStoreLaws (AutomergeBackend Doc).
Proof.
  refine {| storable := fields_held; contents := backend_contents |}.
  - intros b d i b'. cbn [upsert automerge_backend]. unfold upsert_with_origin. intros E Hf.
    set (id := match doc_id d with Some id => id | None => new_v4 b end) in *.
    set (old := match documents b !! doc_key CELL_COLLECTION id with Some existing => existing | None => new_doc end) in *.
    destruct (document_read old d Hf) as (doc & Ed & Hk). rewrite Ed in E. cbn in E. injection E as <- <-.
    split_and!; [intros k Hid; subst id; by rewrite Hid| |].
    + intros Hid. unfold backend_contents. subst id. rewrite Hid. by rewrite new_v4_fresh.
    + exists (document_fields doc). split; [done|]. intros k. unfold backend_contents. cbn [documents notify].
      destruct (decide (k = id)) as [->|Hne].
      * rewrite lookup_insert_eq. cbn [mbind option_bind]. unfold soft_deleted. pose proof (Hk "_deleted"%string) as Hd.
        rewrite (proj2 Hf) in Hd. cbn in Hd. by rewrite Hd.
      * rewrite lookup_insert_ne; [done|]. intros ?%doc_key_inj. done.
  - intros b q l f [= <-]. rewrite list_elem_of_fmap. unfold backend_query, collection_documents. setoid_rewrite list_elem_of_filter.
    setoid_rewrite list_elem_of_omap. split.
    + intros (d & -> & [Hd Hm] & [key doc] & Hin & Hp). apply elem_of_map_to_list in Hin. case_match eqn:Hpre; [|done].
      injection Hp as <-. rewrite deletion_state in Hd. split; [by apply selects_matches|].
      apply doc_key_prefix in Hpre as [k ->]. exists k. unfold backend_contents. rewrite Hin. cbn [mbind option_bind].
      cbn in Hd. by destruct (soft_deleted _).
    + intros [Hs [k Hk]]. unfold backend_contents in Hk. destruct (documents b !! _) as [doc|] eqn:Ek; [|done]. cbn in Hk.
      destruct (soft_deleted (document_fields doc)) eqn:Es; [done|]. injection Hk as <-.
      exists (automerge_to_document doc (second_part (doc_key CELL_COLLECTION k)) (clock b)). split; [done|].
      rewrite deletion_state, selects_matches. cbn [fields automerge_to_document]. rewrite Es. split; [done|].
      exists (doc_key CELL_COLLECTION k, doc). split; [by apply elem_of_map_to_list|]. cbn beta iota.
      by rewrite (proj2 (doc_key_prefix CELL_COLLECTION _)) by by exists k.
  - intros b k b'. cbn [remove automerge_backend]. unfold backend_remove. destruct (documents b !! _) as [doc|] eqn:Ek; [|done].
    intros [= <-] k'. unfold backend_contents. cbn [documents notify]. destruct (decide (k' = k)) as [->|Hne].
    + by rewrite lookup_delete_eq.
    + rewrite lookup_delete_ne; [done|]. intros ?%doc_key_inj. done.
Defined.
End Laws.

(** ** One document *)

Section OneDocument.
Context {Doc : Type} `{!AutomergeDoc Doc, !AutomergeDocLaws Doc, !SerdeJson, !BackendEnv Doc}.

(** A document whose values are kept is stored under its identifier and found there by
    [get], up to null fields; the other documents stay, and every observer is told once. *)
Theorem document_survives_backend b collection d id origin :
  doc_id d = Some id -> fields_held (fields d) ->
  exists b' d', upsert_with_origin b collection d origin = Ok (id, b') /\
    backend_get b' collection id = Some d' /\ doc_id d' = Some id /\ kept_as (fields d) (fields d') /\
    (forall key, key <> doc_key collection id -> documents b' !! key = documents b !! key) /\
    observers b' = map (fun sent => sent ++ [Updated collection d origin]) (observers b).
Proof.
  intros Hid Hf. unfold upsert_with_origin. rewrite Hid.
  destruct (document_read (match documents b !! doc_key collection id with Some existing => existing | None => new_doc end) d Hf)
    as (doc & -> & Hk). cbn.
  eexists _, _. split_and!; [done|unfold backend_get; cbn [documents notify]; by rewrite lookup_insert_eq|done|done| |].
  - intros key Hne. by apply lookup_insert_ne.
  - cbn. destruct d. cbn in *. by subst.
Qed.

Lemma put_json_value_shape v key obj obj' :
  put_json_value obj key v = Ok obj' ->
  v = JNull /\ obj' = obj \/ v <> JNull /\ exists o, put_json_value [] key v = Ok [(key, o)] /\ obj' = put key o obj.
Proof.
  destruct v as [|b|z|x|s|l|fs]; cbn [put_json_value]; try (intros [= <-]; eauto; by right; split; [|eexists]).
  - destruct (insert_json_values [] 0 l) as [items|]; [|done]. cbn. intros [= <-]. right. split; [done|]. by eexists.
  - match goal with |- match ?r with _ => _ end = _ -> _ => destruct r as [nested|]; [|done] end.
    intros [= <-]. right. split; [done|]. by eexists.
Qed.

(** A written field is what its value alone writes, whatever the other fields are. *)
Lemma put_fields_lookup l obj obj' k v :
  put_fields obj l = Ok obj' -> NoDup l.*1 -> field k l = Some v -> v <> JNull ->
  exists o, put_json_value [] k v = Ok [(k, o)] /\ lookup_obj k obj' = Some o.
Proof.
  revert obj. induction l as [|[k' w] l IH]; intros obj; [done|]. cbn [put_fields field fst].
  destruct (put_json_value obj k' w) as [obj1|] eqn:E; [|done]. rewrite fmap_cons, NoDup_cons. cbn [fst].
  intros Hl [Hk Hn] Hf Hv. case_decide as Ek; [|by apply (IH obj1)]. subst k'. injection Hf as ->.
  apply put_json_value_shape in E as [[? _]|(_ & o & Ho & ->)]; [done|]. exists o. split; [done|].
  assert (lookup_obj k (put k o obj) = Some o) as Hin by (by rewrite lookup_put, decide_True).
  revert Hl Hin. generalize (put k o obj). clear -Hk. induction l as [|[k' w] l IH]; intros obj; [by intros [= <-]|].
  rewrite fmap_cons, not_elem_of_cons in Hk. destruct Hk as [Hne Hk]. cbn [put_fields].
  destruct (put_json_value obj k' w) as [obj1|] eqn:E; [|done]. intros Hl Hin. apply (IH Hk obj1 Hl).
  apply put_json_value_shape in E as [[_ ->]|(_ & o' & _ & ->)]; [done|]. rewrite lookup_put. by rewrite decide_False.
Qed.

Lemma insert_keeps_head l o items index items' :
  (0 < index)%nat -> insert_json_values (o :: items) index l = Ok items' -> exists rest, items' = o :: rest.
Proof.
  revert items index. induction l as [|v l IH]; intros items index Hi; cbn [insert_json_values]; [intros [= <-]; by eexists|].
  assert (forall w items1, insert_at index w (o :: items) = Ok items1 -> exists rest, items1 = o :: rest) as Hw.
  { intros w items1. unfold insert_at. case_decide; [|done]. intros [= <-]. destruct index; [lia|]. by eexists. }
  assert (forall items1, insert_json_value (o :: items) index v = Ok items1 -> exists rest, items1 = o :: rest) as Hv.
  { intros items1. destruct v; cbn [insert_json_value]; try apply Hw. intros [= <-]. by eexists. }
  destruct (insert_json_value (o :: items) index v) as [items1|]; [|done]. destruct (Hv items1 eq_refl) as [rest ->].
  apply IH. lia.
Qed.

(** Objects in lists do not survive: the list is read back with their JSON text in their
    place. This is how the capabilities of a cell are written, so a cell that has
    any is given back with texts where its capabilities were. *)
Theorem objects_in_lists_become_text (doc doc' : Doc) d k fs rest :
  apply_document_to_automerge doc d = Ok doc' -> fields d !! k = Some (JArray (JObject fs :: rest)) ->
  exists items, document_fields doc' !! k = Some (JArray (JString (to_string (JObject fs)) :: items)).
Proof.
  intros E Hk. unfold apply_document_to_automerge in E. destruct (put_fields _ _) as [root|] eqn:Ep; [|done]. injection E as <-.
  apply (put_fields_lookup _ _ _ k (JArray (JObject fs :: rest))) in Ep as (o & Ho & Hl);
    [|apply NoDup_fst_map_to_list|by rewrite field_map_to_list|done].
  unfold document_fields. rewrite committed_visible, lookup_put, decide_True by done. rewrite list_to_map_read, Hl.
  cbn [put_json_value insert_json_values insert_json_value] in Ho.
  pose proof (insert_at_end (OScalar (ScStr (to_string (JObject fs)))) []) as E0. cbn [length app] in E0. rewrite E0 in Ho. cbn in Ho.
  destruct (insert_json_values _ 1 rest) as [items|] eqn:Ei; [|done]. injection Ho as <-.
  apply insert_keeps_head in Ei as [more ->]; [|lia]. by eexists.
Qed.

(** A null in a list is passed over without its index: the next item is refused, and with it
    the document. *)
Theorem null_before_item_refused (doc : Doc) d k s :
  fields d = {[k := JArray [JNull; JString s]]} ->
  apply_document_to_automerge doc d = Err (EInternal ("Transaction failed: " +:+ invalid_index 1%nat)).
Proof. intros E. unfold apply_document_to_automerge. by rewrite E, map_to_list_singleton. Qed.
End OneDocument.

(** ** A concrete backend *)

Module SampleAutomerge.
Import SampleDocs SampleJson SampleBackend.

(** A name longer than every key *)
Fixpoint name_of (n : nat) : string := match n with O => EmptyString | S n => String "u" (name_of n) end.

Definition total_length (keys : list string) : nat := foldr (fun k n => String.length k + n)%nat 0%nat keys.

Lemma length_le_total k keys : k ∈ keys -> (String.length k <= total_length keys)%nat.
Proof.
  unfold total_length. induction keys as [|k' keys IH]; [by intros ?%not_elem_of_nil|].
  intros [->|Hk%IH]%elem_of_cons; cbn [foldr]; lia.
Qed.

Lemma name_length n : String.length (name_of n) = n.
Proof. induction n as [|n IH]; [done|]. cbn. by rewrite IH. Qed.

#[export] Instance sample_env : BackendEnv Fields := {|
  new_v4 b := name_of (total_length (map_to_list (documents b)).*1);
  clock _ := 0;
  matches_deletion_state _ d := negb (soft_deleted (fields d))
|}.

#[export] Instance sample_env_laws : BackendEnvLaws Fields.
Proof.
  split; [|done]. intros b. destruct (documents b !! _) as [doc|] eqn:E; [|done]. exfalso.
  apply elem_of_map_to_list in E. apply (list_elem_of_fmap_2 fst) in E. apply length_le_total in E. revert E.
  cbn [fst new_v4 sample_env]. set (n := total_length _). change (String.length (doc_key CELL_COLLECTION (name_of n)))
    with (6 + String.length (name_of n))%nat. rewrite name_length. lia.
Qed.

Definition store_cells (cells : list CellState) : AutomergeBackend Fields :=
  fold_left (fun b c => ok_or b (let? r := store_cell b c 0 in Ok (snd r))) cells backend_new.

(** The store of cells over this backend: a cell is stored, changed and read back. *)
Example cells_over_automerge :
  match store_add_member (store_cells [cell "alpha" ["n1"]]%string) "alpha" "n2" 5 with
  | Ok b => get_cell b "alpha" = Ok (Some (snd (add_member 5 (cell "alpha" ["n1"]%string) "n2"%string)))
  | Err _ => False
  end.
Proof. vm_compute. reflexivity. Qed.

Definition report : Document :=
  mkDocument (Some "r1"%string) (<["title"%string := JString "a"]> (<["note"%string := JNull]> {["tags"%string := JArray [JString "x"; JInt 5]]})) 7.

Lemma report_held : fields_held (fields report).
Proof.
  split; [|vm_compute; reflexivity]. intros k v. cbn [fields report]. rewrite !lookup_insert_Some, lookup_singleton_Some.
  by intros [[_ <-]|[_ [[_ <-]|[_ [_ <-]]]]].
Qed.

Lemma document_survives_backend_witness :
  exists b' d', upsert_with_origin (backend_new (Doc := Fields)) "reports" report None = Ok ("r1"%string, b') /\
    backend_get b' "reports" "r1" = Some d' /\ kept_as (fields report) (fields d').
Proof.
  destruct (document_survives_backend (Doc := Fields) backend_new "reports" report "r1" None eq_refl report_held)
    as (b' & d' & E & Hg & _ & Hk & _). exists b', d'. exact (conj E (conj Hg Hk)).
Defined.

Definition armed : Document :=
  mkDocument (Some "c1"%string) {["capabilities"%string := JArray [JObject [("id"%string, JString "cam")]]]} 7.

Lemma objects_in_lists_become_text_witness :
  exists items, document_fields (ok_or [] (apply_document_to_automerge (Doc := Fields) [] armed)) !! "capabilities"%string =
    Some (JArray (JString (to_string (JObject [("id"%string, JString "cam")])) :: items)).
Proof.
  apply (objects_in_lists_become_text (Doc := Fields) [] _ armed "capabilities" [("id"%string, JString "cam")] []);
    [|reflexivity]. apply succeeded_ok. vm_compute. reflexivity.
Defined.

Lemma null_before_item_refused_witness :
  apply_document_to_automerge (Doc := Fields) [] (mkDocument None {["tags"%string := JArray [JNull; JString "x"]]} 0) =
  Err (EInternal ("Transaction failed: " +:+ invalid_index (Doc := Fields) 1%nat)).
Proof. apply (null_before_item_refused (Doc := Fields) [] _ "tags" "x"). reflexivity. Defined.
End SampleAutomerge.
