(* ===== verification/Discovery.v ===== *)
(** * Discovery of nodes and cells

    Models peat-protocol/src/discovery: the queries by capability (capability_query.rs),
    the coordinator of the bootstrap phase (coordinator.rs) and the assignments directed
    by command and control (directed.rs), over the store of cells. Instants are
    nanoseconds; the clock is the argument [now]. A comparison with a NaN that is
    unwrapped, and a counter that overflows, panic ([None]). *)

From S2P Require Import Prelude Float Error Capability CellState Operator Node Formation Json Composition CellStore.
From Stdlib Require Import SpecFloat.

Open Scope Z_scope.

(** ** Queries by capability *)

Record CapabilityQuery := mkQuery {
  required_types : list CapabilityType;
  optional_types : list CapabilityType;
  min_confidence : spec_float;
  min_capability_count : option Z;
  limit : option Z
}.

(** The builder has the fields of the query. *)
Definition builder_new : CapabilityQuery := mkQuery [] [] f32_zero None None.
Definition require_type (q : CapabilityQuery) (ty : CapabilityType) : CapabilityQuery :=
  mkQuery (required_types q ++ [ty]) (optional_types q) (min_confidence q) (min_capability_count q) (limit q).
Definition prefer_type (q : CapabilityQuery) (ty : CapabilityType) : CapabilityQuery :=
  mkQuery (required_types q) (optional_types q ++ [ty]) (min_confidence q) (min_capability_count q) (limit q).
Definition with_min_confidence (q : CapabilityQuery) (c : spec_float) : CapabilityQuery :=
  mkQuery (required_types q) (optional_types q) (f32_clamp c f32_zero f32_one) (min_capability_count q) (limit q).
Definition with_min_capability_count (q : CapabilityQuery) (n : Z) : CapabilityQuery :=
  mkQuery (required_types q) (optional_types q) (min_confidence q) (Some n) (limit q).
Definition with_limit (q : CapabilityQuery) (n : Z) : CapabilityQuery :=
  mkQuery (required_types q) (optional_types q) (min_confidence q) (min_capability_count q) (Some n).

Definition matches (q : CapabilityQuery) (caps : list Capability) : bool :=
  match min_capability_count q with Some n => n <=? len caps | None => true end &&
  forallb (fun ty => existsb (qualified ty (min_confidence q)) caps) (required_types q).

(** The best confidence for a type, or zero *)
Definition best_confidence (caps : list Capability) (ty : CapabilityType) : option spec_float :=
  best ← max_by_float (fun x => x) (confidence <$> select (of_type ty) caps);
  Some (default f32_zero best).

Definition mean32 (l : list spec_float) : spec_float := div32 (fold_left add32 l (S754_zero true)) (f32_of_Z (len l)).

(** The average over the types asked for, or full marks when there are none *)
Definition types_score (weight : spec_float) (types : list CapabilityType) (caps : list Capability) : option spec_float :=
  match types with
  | [] => Some weight
  | _ => best ← mapM (best_confidence caps) types; Some (mul32 (mean32 best) weight)
  end.

Definition score (q : CapabilityQuery) (caps : list Capability) : option spec_float :=
  match caps with
  | [] => Some f32_zero
  | _ =>
      required ← types_score (f32_lit 6 10) (required_types q) caps;
      optional ← types_score (f32_lit 3 10) (optional_types q) caps;
      let s := add32 (add32 f32_zero required) optional in
      Some (f32_clamp (add32 s (mul32 (mean32 (confidence <$> caps)) (f32_lit 1 10))) f32_zero f32_one)
  end.

Record QueryMatch (T : Type) := mkMatch { entity : T; match_score : spec_float }.
Arguments mkMatch {T} _ _.
Arguments entity {T} _.
Arguments match_score {T} _.

Definition is_nan (x : spec_float) : bool := match x with S754_nan => true | _ => false end.

(** [sort_by(|a, b| b.score.partial_cmp(&a.score).unwrap())]: stable; a NaN panics as
    soon as there is something to compare it with. *)
Definition sort_matches {T} (l : list (QueryMatch T)) : option (list (QueryMatch T)) :=
  if (2 <=? len l) && existsb (fun m => is_nan (match_score m)) l then None
  else Some (sort_by (fun a b => cmp_float (match_score b) (match_score a)) l).

(** [query_nodes] and [query_cells] *)
Definition query_entities {T} (caps : T -> list Capability) (q : CapabilityQuery) (l : list T) : option (list (QueryMatch T)) :=
  found ← mapM (fun x => s ← score q (caps x); Some (mkMatch x s)) (filter (fun x => matches q (caps x) = true) l);
  sorted ← sort_matches found;
  Some (match limit q with Some n => take (Z.to_nat n) sorted | None => sorted end).

Definition query_nodes := query_entities Node.capabilities.
Definition query_cells := query_entities CellState.capabilities.

Record CapabilityStats := mkStats {
  st_count : Z;
  st_avg : spec_float;
  st_min : spec_float;
  st_max : spec_float
}.

Definition from_confidences (l : list spec_float) : option CapabilityStats :=
  lo ← min_by_float (fun x => x) l;
  hi ← max_by_float (fun x => x) l;
  Some (mkStats (len l) (if 0 <? len l then mean32 l else f32_zero) (default f32_zero lo) (default f32_zero hi)).

Definition confidences_of (nodes : list NodeConfig) (ty : CapabilityType) : list spec_float :=
  confidence <$> select (of_type ty) (concat (Node.capabilities <$> nodes)).

(** The statistics of a type, absent when no node has it *)
Definition node_capability_stats (nodes : list NodeConfig) (ty : CapabilityType) : option (option CapabilityStats) :=
  match confidences_of nodes ty with [] => Some None | l => Some <$> from_confidences l end.

(** ** The bootstrap coordinator *)

Inductive BootstrapStrategy := Geographic | Directed | CapabilityBased.
Inductive BootstrapStatus := NotStarted | InProgress | Completed | Failed | PartiallyCompleted.

#[export] Instance BootstrapStatus_eq_dec : EqDecision BootstrapStatus.
Proof. solve_decision. Defined.

#[export] Instance Phase_eq_dec : EqDecision Phase.
Proof. solve_decision. Defined.

Definition strategy_to_string (s : BootstrapStrategy) : string :=
  match s with Geographic => "geographic" | Directed => "directed" | CapabilityBased => "capability_based" end.

Definition status_name (s : BootstrapStatus) : string :=
  match s with
  | NotStarted => "NotStarted" | InProgress => "InProgress" | Completed => "Completed"
  | Failed => "Failed" | PartiallyCompleted => "PartiallyCompleted"
  end.
Definition phase_name (p : Phase) : string :=
  match p with PhaseUnspecified => "Unspecified" | Operator.Discovery => "Discovery" | PhaseCell => "Cell" | Hierarchy => "Hierarchy" end.

Record DiscoveryMetrics := mkMetrics {
  m_total_nodes : Z;
  m_assigned_nodes : Z;
  m_unassigned_nodes : Z;
  m_cells_formed : Z;
  m_elapsed_seconds : spec_float;
  m_strategy : BootstrapStrategy;
  m_status : BootstrapStatus;
  m_messages_sent : option Z
}.

(** [a as f32 / b as f32] of counts *)
Definition ratio (a b : Z) : spec_float := div32 (f32_of_Z a) (f32_of_Z b).

Definition assignment_rate (m : DiscoveryMetrics) : spec_float :=
  if m_total_nodes m =? 0 then f32_zero else ratio (m_assigned_nodes m) (m_total_nodes m).
Definition avg_cell_size (m : DiscoveryMetrics) : spec_float :=
  if m_cells_formed m =? 0 then f32_zero else ratio (m_assigned_nodes m) (m_cells_formed m).
Definition is_successful (m : DiscoveryMetrics) : bool :=
  SFltb (f32_lit 9 10) (assignment_rate m) && bool_decide (m_status m = Completed).

Record DiscoveryCoordinator := mkCoordinator {
  current_phase : Phase;
  strategy : BootstrapStrategy;
  timeout : Z;
  start_time : option Z;
  status : BootstrapStatus;
  tracked_nodes : gset string;
  assignments : gmap string string;
  message_count : Z
}.

Definition DEFAULT_BOOTSTRAP_TIMEOUT_SECS : Z := 60.
Definition nanos_per_sec : Z := 1000000000.

Definition coordinator_new (s : BootstrapStrategy) : DiscoveryCoordinator :=
  mkCoordinator Operator.Discovery s (DEFAULT_BOOTSTRAP_TIMEOUT_SECS * nanos_per_sec) None NotStarted ∅ ∅ 0.

Definition coordinator_with_timeout (c : DiscoveryCoordinator) (secs : Z) : DiscoveryCoordinator :=
  mkCoordinator (current_phase c) (strategy c) (secs * nanos_per_sec) (start_time c) (status c) (tracked_nodes c)
    (assignments c) (message_count c).

Definition set_status (c : DiscoveryCoordinator) (s : BootstrapStatus) : DiscoveryCoordinator :=
  mkCoordinator (current_phase c) (strategy c) (timeout c) (start_time c) s (tracked_nodes c) (assignments c) (message_count c).

Definition start_bootstrap (c : DiscoveryCoordinator) (node_ids : list string) (now : Z) : result Error DiscoveryCoordinator :=
  if bool_decide (status c = NotStarted) then
    Ok (mkCoordinator (current_phase c) (strategy c) (timeout c) (Some now) InProgress (list_to_set node_ids)
          (assignments c) (message_count c))
  else Err (EInvalidTransition (status_name (status c)) "InProgress" "Discovery already started").

Definition register_assignment (c : DiscoveryCoordinator) (node_id cell_id : string) : result Error DiscoveryCoordinator :=
  if negb (bool_decide (status c = InProgress)) then
    Err (EInvalidTransition (status_name (status c)) "Assignment" "Discovery not in progress")
  else if bool_decide (node_id ∈ tracked_nodes c) then
    Ok (mkCoordinator (current_phase c) (strategy c) (timeout c) (start_time c) (status c) (tracked_nodes c)
          (<[node_id := cell_id]> (assignments c)) (message_count c))
  else Ok c.

Definition increment_messages (c : DiscoveryCoordinator) (count : Z) : option DiscoveryCoordinator :=
  n ← checked (message_count c + count);
  Some (mkCoordinator (current_phase c) (strategy c) (timeout c) (start_time c) (status c) (tracked_nodes c) (assignments c) n).

(** [start_time.elapsed()] of a monotonic clock *)
Definition elapsed (start now : Z) : Z := saturating_sub now start.

Definition has_timed_out (c : DiscoveryCoordinator) (now : Z) : bool :=
  match start_time c with Some start => timeout c <=? elapsed start now | None => false end.

(** The identifiers of the vectors that the source collects from its hash tables, whose
    order is unspecified *)
Definition unassigned_nodes (c : DiscoveryCoordinator) : gset string := tracked_nodes c ∖ dom (assignments c).
Definition assigned_nodes (c : DiscoveryCoordinator) : gset string := dom (assignments c).

Definition count_of {K} `{Countable K} (s : gset K) : Z := Z.of_nat (size s).

Definition check_completion (c : DiscoveryCoordinator) (now : Z) : bool * DiscoveryCoordinator :=
  if negb (bool_decide (status c = InProgress)) then (false, c)
  else if bool_decide (unassigned_nodes c = ∅) then (true, set_status c Completed)
  else if has_timed_out c now then
    let rate := ratio (Z.of_nat (size (assignments c))) (count_of (tracked_nodes c)) in
    (true, set_status c (if SFltb (f32_lit 9 10) rate then Completed
                         else if SFltb (f32_lit 5 10) rate then PartiallyCompleted else Failed))
  else (false, c).

Definition transition_to_cell_phase (c : DiscoveryCoordinator) : result Error DiscoveryCoordinator :=
  if negb (bool_decide (current_phase c = Operator.Discovery)) then
    Err (EInvalidTransition (phase_name (current_phase c)) "Cell" "Not in Discovery phase")
  else if bool_decide (status c = InProgress) then
    Err (EInvalidTransition (status_name (status c)) "Cell" "Discovery still in progress")
  else Ok (mkCoordinator PhaseCell (strategy c) (timeout c) (start_time c) (status c) (tracked_nodes c) (assignments c) (message_count c)).

Definition reset_for_retry (c : DiscoveryCoordinator) : result Error DiscoveryCoordinator :=
  if bool_decide (status c = InProgress) then
    Err (EInvalidTransition "InProgress" "Reset" "Cannot reset while bootstrap is in progress")
  else Ok (mkCoordinator (current_phase c) (strategy c) (timeout c) None NotStarted (tracked_nodes c) ∅ 0).

Definition force_complete (c : DiscoveryCoordinator) : result Error DiscoveryCoordinator :=
  if bool_decide (status c = InProgress) then Ok (set_status c Completed)
  else Err (EInvalidTransition (status_name (status c)) "Completed" "Discovery not in progress").

(** [as_secs_f64()] *)
Definition as_secs_f64 (nanos : Z) : spec_float :=
  SFadd 53 1024 (f64_of_Z (nanos / nanos_per_sec)) (SFdiv 53 1024 (f64_of_Z (nanos mod nanos_per_sec)) (f64_of_Z nanos_per_sec)).

Section Metrics.
Context {B : Type} `{DocumentStore B} `{CellDocument}.

Definition cells_formed (b : B) : result Error Z := let? cells := get_valid_cells b in Ok (len cells).

Definition get_metrics (b : B) (c : DiscoveryCoordinator) (now : Z) : result Error DiscoveryMetrics :=
  let seconds := match start_time c with Some start => as_secs_f64 (elapsed start now) | None => S754_zero false end in
  let? formed := cells_formed b in
  Ok (mkMetrics (count_of (tracked_nodes c)) (Z.of_nat (size (assignments c))) (count_of (unassigned_nodes c)) formed seconds
        (strategy c) (status c) (Some (message_count c))).
End Metrics.

(** ** Directed assignments *)

Inductive AssignmentPriority := PriLow | PriNormal | PriHigh | PriCritical.
Inductive AssignmentStatus := AsgPending | AsgInProgress | AsgCompleted | AsgFailed (reason : string).

Record CellAssignment := mkAssignment {
  assignment_id : string;
  asg_cell_id : string;
  node_ids : list string;
  issued_by : string;
  asg_timestamp : Z;
  asg_priority : AssignmentPriority;
  asg_status : AssignmentStatus;
  asg_context : option string
}.

Definition assignment_new (i cell : string) (ids : list string) (issuer : string) (p : AssignmentPriority) (now : Z) : CellAssignment :=
  mkAssignment i cell ids issuer now p AsgPending None.

Definition with_asg_status (a : CellAssignment) (s : AssignmentStatus) : CellAssignment :=
  mkAssignment (assignment_id a) (asg_cell_id a) (node_ids a) (issued_by a) (asg_timestamp a) (asg_priority a) s (asg_context a).

Definition with_context (a : CellAssignment) (context : string) : CellAssignment :=
  mkAssignment (assignment_id a) (asg_cell_id a) (node_ids a) (issued_by a) (asg_timestamp a) (asg_priority a) (asg_status a) (Some context).

Definition includes_node (a : CellAssignment) (node_id : string) : bool :=
  existsb (fun i => bool_decide (i = node_id)) (node_ids a).

Definition mark_in_progress (a : CellAssignment) : CellAssignment := with_asg_status a AsgInProgress.
Definition mark_completed (a : CellAssignment) : CellAssignment := with_asg_status a AsgCompleted.
Definition mark_failed (a : CellAssignment) (reason : string) : CellAssignment := with_asg_status a (AsgFailed reason).

Definition is_active (a : CellAssignment) : bool :=
  match asg_status a with AsgPending | AsgInProgress => true | _ => false end.

Inductive ValidationResult :=
| Valid | CellNotFound | CellFull | NodeAlreadyAssigned (current_cell : string) | Unauthorized | Expired | Invalid (reason : string).

#[export] Instance ValidationResult_eq_dec : EqDecision ValidationResult.
Proof. solve_decision. Defined.

Record DirectedAssignmentManager := mkManager {
  asgs : gmap string CellAssignment;
  my_node_id : string;
  assignment_timeout : Z
}.

Definition manager_new (my_node_id : string) : DirectedAssignmentManager := mkManager ∅ my_node_id 300.
Definition manager_with_timeout (m : DirectedAssignmentManager) (secs : Z) : DirectedAssignmentManager :=
  mkManager (asgs m) (my_node_id m) secs.

Definition put_assignment (m : DirectedAssignmentManager) (a : CellAssignment) : DirectedAssignmentManager :=
  mkManager (<[assignment_id a := a]> (asgs m)) (my_node_id m) (assignment_timeout m).

(** ["{:?}"] of a validation result: the text of the error *)
Class DebugValidation := { debug_validation : ValidationResult -> string }.

Section DirectedAssignments.
Context {B : Type} `{DocumentStore B} `{CellDocument} `{DebugValidation}.

(** The first valid cell that has the node *)
Definition get_current_cell (b : B) (node_id : string) : result Error (option string) :=
  let? cells := get_valid_cells b in
  Ok (match find (fun c => is_member c node_id) cells with Some c => get_id c | None => None end).

Definition validate_assignment (b : B) (m : DirectedAssignmentManager) (a : CellAssignment) (now : Z) : result Error ValidationResult :=
  if assignment_timeout m <? saturating_sub now (asg_timestamp a) then Ok Expired
  else
    let? cell := get_cell b (asg_cell_id a) in
    match cell with
    | None => Ok CellNotFound
    | Some cell =>
        if cell_is_full cell then Ok CellFull
        else
          let? current := get_current_cell b (my_node_id m) in
          match current with
          | Some current => if bool_decide (current = asg_cell_id a) then Ok Valid else Ok (NodeAlreadyAssigned current)
          | None => Ok Valid
          end
    end.

(** The state that an operation leaves behind also when it fails *)
Definition execute_assignment (b : B) (m : DirectedAssignmentManager) (a : CellAssignment) (now : Z)
    : result Error unit * (B * DirectedAssignmentManager) :=
  let a := mark_in_progress a in
  match store_add_member b (asg_cell_id a) (my_node_id m) now with
  | Err e => (Err e, (b, m))
  | Ok b => (Ok tt, (b, put_assignment m (mark_completed a)))
  end.

Definition process_assignment (b : B) (m : DirectedAssignmentManager) (a : CellAssignment) (now : Z)
    : result Error unit * (B * DirectedAssignmentManager) :=
  if negb (includes_node a (my_node_id m)) then (Ok tt, (b, m))
  else match validate_assignment b m a now with
       | Err e => (Err e, (b, m))
       | Ok v =>
           if bool_decide (v = Valid) then execute_assignment b (put_assignment m a) a now
           else (Err (EInvalidTransition "Pending assignment" "Executed assignment"
                        ("Assignment validation failed: " +:+ debug_validation v)), (b, m))
       end.
End DirectedAssignments.

Definition get_assignment (m : DirectedAssignmentManager) (i : string) : option CellAssignment := asgs m !! i.

Definition active_assignments (m : DirectedAssignmentManager) : gmap string CellAssignment :=
  filter (fun ia => is_active (snd ia) = true) (asgs m).

Definition cleanup_assignments (m : DirectedAssignmentManager) (now : Z) : DirectedAssignmentManager :=
  mkManager (filter (fun ia => saturating_sub now (asg_timestamp (snd ia)) <= assignment_timeout m) (asgs m))
    (my_node_id m) (assignment_timeout m).

(** ** Scores *)

Local Abbreviation nonneg := (Float.nonneg 24 128).
Local Abbreviation value := (Float.value 128).
Local Opaque Float.ulp.

Definition big : spec_float := f32_of_Z (2 ^ 40).

(** However long the list, the rounded sum of numbers up to one stays below a bound that
    absorbs them. *)
Lemma sum_units_bounded l acc :
  Forall unit32 l -> nonneg acc -> finite acc -> value acc <= value big ->
  nonneg (fold_left add32 l acc) /\ finite (fold_left add32 l acc).
Proof.
  intros Hl. revert acc. induction Hl as [|x l (Hx & Fx & Vx) _ IH]; intros acc Hn Hf Hv; [done|]. cbn [fold_left].
  assert (nonneg big /\ finite big /\ add32 big f32_one = big) as (Hb & Fb & Eb) by (vm_compute; auto).
  pose proof nonneg_f32_one as H1.
  destruct (SFadd_le 24 128 ltac:(lia) ltac:(lia) acc x big f32_one 42 Hn Hx Hb H1 Hv Vx) as (Hn' & Hf' & Hv').
  - vm_compute. split; discriminate.
  - apply Z.leb_le. vm_compute. reflexivity.
  - change (SFadd 24 128) with add32 in *. rewrite Eb in Hv'. by apply IH.
Qed.

Lemma count_positive n : 0 < n -> nonneg (f32_of_Z n) /\ f32_of_Z n <> S754_zero false.
Proof.
  intros Hn. split; [apply f32_of_Z_nonneg; lia|]. intros E.
  pose proof (binary_normalize_rounds 24 128 ltac:(lia) ltac:(lia) n 0 ltac:(lia) ltac:(unfold scale; lia)) as Hr.
  unfold f32_of_Z in E. rewrite E in Hr. pose proof (rounds_lower _ _ _ _ Hr f32_one nonneg_f32_one I) as Hlo.
  rewrite value_f32_one in Hlo. pose proof (ulp_pos 128 0 ltac:(unfold scale; lia)).
  specialize (Hlo ltac:(nia)). change (value (S754_zero false)) with 0 in Hlo. lia.
Qed.

Lemma div32_number x y : nonneg x -> finite x -> nonneg y -> y <> S754_zero false -> nonneg (div32 x y).
Proof.
  intros Hx Fx Hy Hz. destruct (div32_nonneg x y Hx Hy) as [|E]; [done|].
  destruct (nonneg_cases 24 128 ltac:(lia) ltac:(lia) x Hx) as [->|[->|(m & e & -> & _ & Px)]]; [|done|].
  all: destruct (nonneg_cases 24 128 ltac:(lia) ltac:(lia) y Hy) as [->|[->|(m' & e' & -> & _ & Py)]]; try done.
  apply (SFdiv_lower 24 128 ltac:(lia) ltac:(lia) (S754_finite false m e) (S754_finite false m' e') (S754_zero false)); try done.
  all: cbn [Float.value]; pose proof (ulp_pos 128 0 ltac:(unfold scale; lia)); lia || nia.
Qed.

Lemma mean_units l : l <> [] -> Forall unit32 l -> nonneg (mean32 l).
Proof.
  intros Hne Hl. unfold mean32. assert (0 < len l) as Hp by (destruct l; [done|unfold len; cbn; lia]).
  destruct (count_positive (len l) Hp) as [Hc Hz]. destruct Hl as [|x l Hx Hl]; [done|]. cbn [fold_left].
  assert (nonneg (add32 (S754_zero true) x) /\ finite (add32 (S754_zero true) x) /\ value (add32 (S754_zero true) x) <= value big) as (H1 & H2 & H3).
  { assert (add32 (S754_zero true) x = x) as ->.
    { destruct Hx as (Hn & _). by destruct (nonneg_cases 24 128 ltac:(lia) ltac:(lia) x Hn) as [->|[->|(m & e & -> & _)]]. }
    destruct Hx as (? & ? & Hv). split_and!; [done..|]. eapply Z.le_trans; [exact Hv|]. apply Z.leb_le. vm_compute. reflexivity. }
  destruct (sum_units_bounded l _ Hl H1 H2 H3) as [Hn Hf]. by apply div32_number.
Qed.

Lemma mul_lit_nonneg x y : nonneg x -> nonneg y -> finite y -> y <> S754_zero false -> nonneg (mul32 x y).
Proof.
  intros Hx Hy Fy Hz. destruct (nonneg_cases 24 128 ltac:(lia) ltac:(lia) x Hx) as [->|[->|(m & e & -> & _)]].
  - by apply mul32_nonneg.
  - by destruct (nonneg_cases 24 128 ltac:(lia) ltac:(lia) y Hy) as [->|[->|(m' & e' & -> & _)]].
  - by apply mul32_nonneg.
Qed.

Lemma clamp_nonneg x : nonneg x -> unit32 (f32_clamp x f32_zero f32_one).
Proof.
  intros Hx. pose proof nonneg_f32_one. pose proof (value_nonneg 24 128 ltac:(lia) ltac:(lia) x Hx). unfold f32_clamp.
  rewrite (SFltb_value 24 128 ltac:(lia) ltac:(lia) x f32_zero) by done. change (value f32_zero) with 0.
  destruct (Z.ltb_spec (value x) 0); [lia|].
  rewrite (SFltb_value 24 128 ltac:(lia) ltac:(lia) f32_one x) by done.
  destruct (Z.ltb_spec (value f32_one) (value x)); [apply unit32_one|]. split_and!; [done| |done]. by apply (nonneg_le_finite x f32_one).
Qed.

Lemma unit_number x : unit32 x -> x <> S754_nan.
Proof. intros (Hn & _) ->. done. Qed.

Definition units (caps : list Capability) : Prop := forall c, c ∈ caps -> unit32 (confidence c).

Lemma best_confidence_unit caps ty : units caps -> exists x, best_confidence caps ty = Some x /\ unit32 x.
Proof.
  intros Hu. unfold best_confidence.
  destruct (max_by_float_spec (fun x => x) (confidence <$> select (of_type ty) caps)) as (o & -> & Hb).
  { intros x (c & -> & [Hc _]%elem_of_select)%list_elem_of_fmap. apply unit_number, Hu, Hc. }
  cbn [mbind option_bind]. eexists. split; [done|]. destruct o as [m|]; [|split_and!; [done|done|apply Z.leb_le; vm_compute; reflexivity]].
  destruct Hb as [(c & -> & [Hc _]%elem_of_select)%list_elem_of_fmap _]. by apply Hu.
Qed.

Lemma types_score_nonneg w types caps :
  units caps -> nonneg w -> finite w -> w <> S754_zero false -> exists x, types_score w types caps = Some x /\ nonneg x.
Proof.
  intros Hu Hn Hf Hz. destruct types as [|ty types]; [by exists w|]. unfold types_score.
  assert (exists l, mapM (best_confidence caps) (ty :: types) = Some l /\ Forall unit32 l /\ l <> []) as (l & -> & Hl & Hne).
  { destruct (mapM (best_confidence caps) (ty :: types)) as [l|] eqn:E.
    - exists l. apply mapM_Some in E. split_and!; [done| |intros ->; by inversion E].
      clear -E Hu. induction E as [|ty' x tys l Ex _ IH]; [constructor|]. constructor; [|done].
      destruct (best_confidence_unit caps ty' Hu) as (x' & Ex' & Hx'). congruence.
    - exfalso. apply mapM_None in E. apply Exists_exists in E as (ty' & _ & E).
      destruct (best_confidence_unit caps ty' Hu) as (x' & Ex' & _). congruence. }
  cbn [mbind option_bind]. eexists. split; [done|]. apply mul_lit_nonneg; [by apply mean_units|done..].
Qed.

(** The score of a set of capabilities is a number between zero and one. *)
Lemma score_unit q caps : units caps -> exists s, score q caps = Some s /\ unit32 s.
Proof.
  intros Hu. unfold score. destruct caps as [|c caps].
  { exists f32_zero. split; [done|]. split_and!; [done|done|apply Z.leb_le; vm_compute; reflexivity]. }
  destruct (types_score_nonneg (f32_lit 6 10) (required_types q) (c :: caps) Hu) as (r & -> & Hr); [by vm_compute..|].
  destruct (types_score_nonneg (f32_lit 3 10) (optional_types q) (c :: caps) Hu) as (o & -> & Ho); [by vm_compute..|].
  cbn [mbind option_bind]. eexists. split; [done|]. apply clamp_nonneg, add32_nonneg.
  - apply add32_nonneg; [by apply add32_nonneg|done].
  - apply mul_lit_nonneg; [|by vm_compute..]. apply mean_units; [done|].
    apply Forall_fmap, Forall_forall. exact Hu.
Qed.

Definition by_score {T} (a b : QueryMatch T) : comparison := cmp_float (match_score b) (match_score a).

Lemma by_score_ok {T} : cmp_ok (fun m : QueryMatch T => nonneg (match_score m)) by_score.
Proof.
  pose proof (cmp_float_ok 24 128 ltac:(lia) ltac:(lia)) as [Ha Ht]. split; unfold by_score.
  - intros x y Hx Hy. by apply Ha.
  - intros x y z Hx Hy Hz H1 H2. by apply (Ht _ (match_score y)).
Qed.

Lemma by_score_le {T} (a b : QueryMatch T) :
  unit32 (match_score a) -> unit32 (match_score b) -> by_score a b <> Gt -> SFleb (match_score b) (match_score a) = true.
Proof.
  intros Ha%unit_number Hb%unit_number. unfold by_score, cmp_float, SFleb.
  destruct (SFcompare_Some (match_score b) (match_score a) Hb Ha) as [c ->]. by destruct c.
Qed.

Lemma StronglySorted_weaken {A} (R S : A -> A -> Prop) (P : A -> Prop) l :
  (forall a b, P a -> P b -> R a b -> S a b) -> Forall P l -> StronglySorted R l -> StronglySorted S l.
Proof.
  intros HRS HP Hs. induction Hs as [|a l Hs IH Hall]; [constructor|]. apply Forall_cons in HP as [Ha Hl].
  constructor; [by apply IH|]. rewrite Forall_forall in Hl, Hall |- *. intros b Hb. apply HRS; [done|by apply Hl|by apply Hall].
Qed.

(** A query over entities whose confidences lie between zero and one never panics
    and answers with a ranking: exactly the entities that match are scored, each score
    lies between zero and one, they are listed by descending score, and the limit keeps
    the first of them. *)
Theorem query_ranks_matches {T} (caps : T -> list Capability) q l :
  (forall x, x ∈ l -> units (caps x)) ->
  exists found ranked,
    Forall2 (fun x m => entity m = x /\ score q (caps x) = Some (match_score m) /\ unit32 (match_score m))
      (filter (fun x => matches q (caps x) = true) l) found /\
    ranked ≡ₚ found /\ StronglySorted (fun a b => SFleb (match_score b) (match_score a) = true) ranked /\
    query_entities caps q l = Some (match limit q with Some n => take (Z.to_nat n) ranked | None => ranked end).
Proof.
  intros Hu. unfold query_entities. set (hits := filter (fun x => matches q (caps x) = true) l).
  assert (exists found, mapM (fun x => s ← score q (caps x); Some (mkMatch x s)) hits = Some found /\
    Forall2 (fun x m => entity m = x /\ score q (caps x) = Some (match_score m) /\ unit32 (match_score m)) hits found)
    as (found & E & Hf).
  { assert (forall x, x ∈ hits -> units (caps x)) as Hh.
    { intros x Hx. apply Hu. by apply list_elem_of_filter in Hx as [_ ?]. }
    clearbody hits. induction hits as [|x hits IH]; [by exists []|].
    destruct IH as (found & E & Hf); [intros y Hy; apply Hh; by right|].
    destruct (score_unit q (caps x) (Hh x ltac:(by left))) as (s & Hs & Hsu).
    exists (mkMatch x s :: found). split; [|by constructor]. apply mapM_Some. constructor; [by rewrite Hs|by apply mapM_Some]. }
  rewrite E. cbn [mbind option_bind].
  assert (Forall (fun m => unit32 (match_score m)) found) as Hunits.
  { clear -Hf. induction Hf as [|x m hits found (_ & _ & Hm) _ IH]; by constructor. }
  assert (existsb (fun m => is_nan (match_score m)) found = false) as Hnan.
  { clear -Hunits. induction Hunits as [|m found Hm _ IH]; [done|]. cbn [existsb]. rewrite IH, orb_false_r.
    apply unit_number in Hm. by destruct (match_score m). }
  unfold sort_matches. rewrite Hnan, andb_false_r. cbn [mbind option_bind].
  exists found, (sort_by by_score found). split_and!; [done|apply sort_by_perm| |done].
  assert (Forall (fun m => unit32 (match_score m)) (sort_by by_score found)) as Hsu by (by rewrite sort_by_perm).
  apply (StronglySorted_weaken (fun a b => by_score a b <> Gt) _ (fun m => unit32 (match_score m))); [|done|].
  - intros a b Ha Hb. by apply by_score_le.
  - apply (sort_by_sorted (fun m => nonneg (match_score m))); [apply by_score_ok|].
    eapply Forall_impl; [exact Hunits|]. by intros m (? & _).
Qed.

(** ** The coordinator *)

(** What its operations do to a coordinator, apart from the reset *)
Inductive coordinator_work : DiscoveryCoordinator -> DiscoveryCoordinator -> Prop :=
| cs_timeout c secs : coordinator_work c (coordinator_with_timeout c secs)
| cs_start c ids now c' : start_bootstrap c ids now = Ok c' -> coordinator_work c c'
| cs_register c n k c' : register_assignment c n k = Ok c' -> coordinator_work c c'
| cs_messages c k c' : increment_messages c k = Some c' -> coordinator_work c c'
| cs_check c now : coordinator_work c (snd (check_completion c now))
| cs_transition c c' : transition_to_cell_phase c = Ok c' -> coordinator_work c c'
| cs_force c c' : force_complete c = Ok c' -> coordinator_work c c'.

Inductive coordinator_step : DiscoveryCoordinator -> DiscoveryCoordinator -> Prop :=
| cs_work c c' : coordinator_work c c' -> coordinator_step c c'
| cs_reset c c' : reset_for_retry c = Ok c' -> coordinator_step c c'.

(** Only tracked nodes are assigned, before the start none is, and a discovery in progress
    has a start. *)
Record coordinator_wf (c : DiscoveryCoordinator) : Prop := {
  wf_tracked : dom (assignments c) ⊆ tracked_nodes c;
  wf_fresh : status c = NotStarted -> assignments c = ∅ /\ start_time c = None;
  wf_running : status c = InProgress -> is_Some (start_time c)
}.

Lemma coordinator_work_wf c c' : coordinator_wf c -> coordinator_work c c' -> coordinator_wf c'.
Proof.
  intros [Ht Hf Hr]. destruct 1 as [c secs|c ids now c' E|c n k c' E|c k c' E|c now|c c' E|c c' E].
  - by split.
  - unfold start_bootstrap in E. case_bool_decide as Hs; [|done]. injection E as <-. destruct (Hf Hs) as [Ha _].
    split; cbn; [rewrite Ha, dom_empty_L; set_solver|done|by eexists].
  - unfold register_assignment in E. case_bool_decide; [|done]. cbn [negb] in E. case_bool_decide as Hin.
    + injection E as <-. split; cbn; [rewrite dom_insert_L; set_solver|congruence|done].
    + injection E as <-. by split.
  - unfold increment_messages in E. destruct (checked _) as [n|]; [|done]. injection E as <-. by split.
  - unfold check_completion. case_bool_decide as Hs; [|by split]. cbn [negb].
    case_bool_decide; [by split|]. destruct (has_timed_out c now); [|by split].
    split; cbn; [done| |]; repeat case_match; done.
  - unfold transition_to_cell_phase in E. repeat case_match; try done. injection E as <-. by split.
  - unfold force_complete in E. case_match; [|done]. injection E as <-. by split.
Qed.

Lemma coordinator_step_wf c c' : coordinator_wf c -> coordinator_step c c' -> coordinator_wf c'.
Proof.
  intros Hwf Hs. destruct Hs as [c c' Hw|c c' E]; [by apply (coordinator_work_wf c)|]. destruct Hwf as [Ht Hf Hr].
  unfold reset_for_retry in E. case_match; [done|]. injection E as <-. split; cbn; [rewrite dom_empty_L; set_solver|done|done].
Qed.

Lemma coordinator_reachable s c : rtc coordinator_step (coordinator_new s) c -> coordinator_wf c.
Proof.
  intros Hr. assert (coordinator_wf (coordinator_new s)) as H0 by (split; cbn; [rewrite dom_empty_L; set_solver|done|done]).
  remember (coordinator_new s) as c0. clear Heqc0. induction Hr as [|c0 c1 c2 Hs _ IH]; [done|].
  apply IH. by apply (coordinator_step_wf c0).
Qed.

Lemma count_rounds n : 0 <= n -> rounds 24 128 (n * ulp 128 0) (f32_of_Z n).
Proof. intros Hn. apply binary_normalize_rounds; unfold scale; lia. Qed.

Lemma count_finite n : is_u64 n -> nonneg (f32_of_Z n) /\ finite (f32_of_Z n).
Proof.
  unfold is_u64, u64_modulus. intros Hn. pose proof (count_rounds n ltac:(lia)) as Hr. split; [apply (rounds_nonneg _ _ _ _ Hr)|].
  apply (rounds_le_finite 24 128 ltac:(lia) ltac:(lia) _ _ 64 Hr); [vm_compute; split; discriminate|].
  rewrite (ulp_shift 128 0 64) by (unfold scale; lia). pose proof (ulp_pos 128 0 ltac:(unfold scale; lia)).
  change (2 ^ (64 - 0)) with (2 ^ 64). nia.
Qed.

(** The ratio of a part to the whole is between zero and one. *)
Lemma ratio_unit a b : 0 <= a <= b -> 0 < b -> is_u64 b -> unit32 (ratio a b).
Proof.
  intros Hab Hb Hu. assert (is_u64 a) as Ha by (unfold is_u64 in *; lia).
  destruct (count_finite a Ha) as [Na Fa], (count_finite b Hu) as [Nb Fb]. apply div32_unit; try done.
  - destruct (count_positive b Hb) as [_ Hz]. pose proof (value_nonneg 24 128 ltac:(lia) ltac:(lia) _ Nb).
    destruct (Z.eq_dec (value (f32_of_Z b)) 0) as [E|]; [|lia]. exfalso. apply Hz.
    by apply (value_inj 24 128 ltac:(lia) ltac:(lia)).
  - destruct (Z.eq_dec a b) as [->|Hne]; [lia|]. pose proof (ulp_pos 128 0 ltac:(unfold scale; lia)).
    apply (rounds_mono 24 128 ltac:(lia) ltac:(lia) _ _ _ _ (count_rounds a ltac:(lia)) (count_rounds b ltac:(lia))); [done|nia].
Qed.

(** In every reachable state of the coordinator the counts of the metrics add up: the
    tracked nodes are the assigned and the unassigned ones, so the rate of assignment is
    between zero and one. *)
Theorem metrics_add_up {B} `{DocumentStore B} `{CellDocument} s c (b : B) now m :
  rtc coordinator_step (coordinator_new s) c -> is_u64 (count_of (tracked_nodes c)) -> get_metrics b c now = Ok m ->
  m_total_nodes m = m_assigned_nodes m + m_unassigned_nodes m /\
  SFleb f32_zero (assignment_rate m) = true /\ SFleb (assignment_rate m) f32_one = true.
Proof.
  intros Hr Hu Hm. apply coordinator_reachable in Hr as [Ht _ _]. unfold get_metrics in Hm.
  destruct (cells_formed b) as [n|]; [|done]. cbn in Hm. injection Hm as <-.
  assert (count_of (tracked_nodes c) = Z.of_nat (size (assignments c)) + count_of (unassigned_nodes c)) as Hsum.
  { unfold count_of, unassigned_nodes. rewrite <- size_dom, <- Nat2Z.inj_add. f_equal.
    rewrite size_difference by done. pose proof (subseteq_size _ _ Ht). lia. }
  cbn [m_total_nodes m_assigned_nodes m_unassigned_nodes]. split; [done|]. apply unit32_leb.
  unfold assignment_rate. cbn [m_total_nodes m_assigned_nodes]. destruct (Z.eqb_spec (count_of (tracked_nodes c)) 0) as [|Hne].
  { split_and!; [done|done|apply Z.leb_le; vm_compute; reflexivity]. }
  apply ratio_unit; [unfold count_of in *; lia|unfold count_of in *; lia|done].
Qed.

(** A discovery that has ended *)
Definition ended (c : DiscoveryCoordinator) : Prop := status c ∈ [Completed; PartiallyCompleted; Failed].

(** The outcome of a discovery: how it ended, when it was started, and which of the nodes
    it tracked were assigned where *)
Definition same_outcome (c c' : DiscoveryCoordinator) : Prop :=
  status c' = status c /\ start_time c' = start_time c /\ tracked_nodes c' = tracked_nodes c /\ assignments c' = assignments c.

Lemma ended_not c : ended c -> status c <> NotStarted /\ status c <> InProgress.
Proof. unfold ended. rewrite list_elem_of_In. cbn. intros [<-|[<-|[<-|[]]]]; done. Qed.

Lemma ended_check c now : ended c -> check_completion c now = (false, c).
Proof. intros [_ Hn]%ended_not. unfold check_completion. by rewrite bool_decide_eq_false_2. Qed.

Lemma ended_work c c' : ended c -> coordinator_work c c' -> same_outcome c c'.
Proof.
  intros He Hw. pose proof (ended_not c He) as [Hn Hi].
  destruct Hw as [c secs|c ids now c' E|c n k c' E|c k c' E|c now|c c' E|c c' E].
  - done.
  - unfold start_bootstrap in E. by rewrite bool_decide_eq_false_2 in E.
  - unfold register_assignment in E. by rewrite bool_decide_eq_false_2 in E.
  - unfold increment_messages in E. destruct (checked _); [|done]. by injection E as <-.
  - by rewrite ended_check.
  - unfold transition_to_cell_phase in E. repeat case_match; try done. by injection E as <-.
  - unfold force_complete in E. by rewrite bool_decide_eq_false_2 in E.
Qed.

Lemma ended_kept c c' : ended c -> rtc coordinator_work c c' -> same_outcome c c'.
Proof.
  intros He Hr. induction Hr as [c|c0 c1 c2 Hw _ IH]; [done|]. pose proof (ended_work c0 c1 He Hw) as (E1 & E2 & E3 & E4).
  destruct IH as (E5 & E6 & E7 & E8); [unfold ended; by rewrite E1|]. unfold same_outcome. split_and!; congruence.
Qed.

(** C34: a discovery ends, in every reachable state of a coordinator and for whatever
    timeout it was given. Checking one that is in progress reports completion exactly when
    its time is up or every tracked node is assigned; it is then completed, partially
    completed or failed, and otherwise as before. One that has ended keeps its outcome
    (status, start, tracked nodes and assignments) under every sequence of operations but a
    reset: it cannot be started again, completed by force or given further assignments. *)
Theorem discovery_ends s c now :
  rtc coordinator_step (coordinator_new s) c ->
  (status c = InProgress ->
     exists start, start_time c = Some start /\ (start <= now ->
     let '(done, c') := check_completion c now in
     (done = true <-> start + timeout c <= now \/ unassigned_nodes c = ∅) /\
     (done = true -> ended c') /\ (done = false -> c' = c))) /\
  (ended c -> check_completion c now = (false, c) /\ forall c', rtc coordinator_work c c' -> same_outcome c c').
Proof.
  intros [_ _ Hrun]%coordinator_reachable. split.
  - intros Hs. destruct (Hrun Hs) as [start Est]. exists start. split; [done|]. intros Hle. unfold check_completion.
    rewrite bool_decide_eq_true_2 by done. cbn [negb]. case_bool_decide as He.
    + split_and!; [split; [by right|done]|intros _; by left|done].
    + unfold has_timed_out, elapsed, saturating_sub. rewrite Est. destruct (Z.leb_spec (timeout c) (Z.max 0 (now - start))).
      * split_and!; [split; [left; lia|done]| |done]. intros _. unfold ended. cbn [status set_status].
        repeat case_match; [by left|by right; left|by right; right; left].
      * split_and!; [split; [done|intros [|]; [lia|done]]|done|done].
  - intros He. split; [by apply ended_check|]. intros c'. by apply ended_kept.
Qed.

(** The move to the cell phase does not ask for a discovery: a coordinator that was never
    started moves on, and so does one whose discovery failed. *)
Theorem cell_phase_without_discovery s :
  exists c, transition_to_cell_phase (coordinator_new s) = Ok c /\ current_phase c = PhaseCell /\ status c = NotStarted.
Proof. by eexists. Qed.

(** A reset for a retry leaves the phase: after the move to the cell phase no later
    discovery can move there again. *)
Theorem retry_cannot_reenter_cell_phase c c' :
  current_phase c <> Operator.Discovery -> rtc coordinator_step c c' -> forall c'', transition_to_cell_phase c' <> Ok c''.
Proof.
  intros Hp Hr. assert (current_phase c' <> Operator.Discovery) as Hp'.
  { induction Hr as [|c0 c1 c2 Hs _ IH]; [done|]. apply IH.
    destruct Hs as [c c' Hw|c c' E]; [|unfold reset_for_retry in E; case_match; [done|]; by injection E as <-].
    destruct Hw as [c secs|c ids now c' E|c n k c' E|c k c' E|c now|c c' E|c c' E]; [done|..].
    - unfold start_bootstrap in E. case_match; [|done]. by injection E as <-.
    - unfold register_assignment in E. repeat case_match; try done; by injection E as <-.
    - unfold increment_messages in E. destruct (checked _); [|done]. by injection E as <-.
    - unfold check_completion. by repeat case_match.
    - unfold transition_to_cell_phase in E. repeat case_match; try done. by injection E as <-.
    - unfold force_complete in E. case_match; [|done]. by injection E as <-. }
  intros c''. unfold transition_to_cell_phase. by rewrite bool_decide_eq_false_2.
Qed.

(** ** Directed assignments *)

Section DirectedTheorems.
Context {B : Type} `{DocumentStoreLaws B} `{CellDocumentLaws} `{DebugValidation}.

Lemma is_member_spec c n : is_member c n = true <-> n ∈ members c.
Proof.
  unfold is_member. rewrite existsb_exists. split.
  - intros (x & Hin & ->%bool_decide_eq_true). by apply list_elem_of_In.
  - intros Hin. exists n. rewrite bool_decide_eq_true. by apply list_elem_of_In in Hin.
Qed.

Lemma valid_has_id c : cell_is_valid c = true -> exists k, get_id c = Some k.
Proof. unfold cell_is_valid, get_id. destruct (config c); [by eexists|done]. Qed.

(** When no current cell is found, no valid cell has the node. *)
Lemma get_current_cell_spec b n o :
  store_wf b -> get_current_cell b n = Ok o ->
  match o with
  | Some k => exists c, cell_at b k = Some c /\ cell_is_valid c = true /\ n ∈ members c
  | None => forall k c, cell_at b k = Some c -> cell_is_valid c = true -> n ∉ members c
  end.
Proof.
  intros Hwf. unfold get_current_cell. destruct (get_valid_cells b) as [cells|] eqn:Ev; [|done]. cbn. intros [= <-].
  assert (forall c k, get_id c = Some k -> c ∈ cells <-> cell_at b k = Some c /\ cell_is_valid c = true) as Hc.
  { intros c k Hid. by apply (cells_where_elem b cell_is_valid cells c k). }
  assert (forall c, c ∈ cells -> cell_is_valid c = true) as Hv.
  { intros c Hin. unfold get_valid_cells, cells_where in Ev. destruct (CellStore.query_cells b QAll); [|done]. cbn in Ev.
    injection Ev as <-. by apply list_elem_of_filter in Hin as [? _]. }
  destruct (find _ cells) as [c|] eqn:Ef.
  - apply List.find_some in Ef as [Hin Hm]. apply list_elem_of_In in Hin. destruct (valid_has_id c (Hv c Hin)) as [k Hk].
    rewrite Hk. apply (Hc c k Hk) in Hin as [? ?]. exists c. by rewrite <- is_member_spec.
  - intros k c Hat Hval Hm. pose proof (cell_at_id b k c Hat) as Hid.
    assert (c ∈ cells) as Hin%list_elem_of_In by (by apply (Hc c k Hid)).
    pose proof (List.find_none _ _ Ef _ Hin) as Hno. cbn in Hno. apply is_member_spec in Hm. congruence.
Qed.

(** An assignment that is carried out on a store that can hold the changed cell puts the
    node into the assigned cell and into no other: of all cells large enough to be valid only the assigned one has the node
    afterwards, every other cell is as before, the cell was known and had room, and the
    manager remembers the assignment as completed; an assignment that does not name the
    node changes nothing. *)
Theorem assignment_joins_one_cell b m a now b' m' :
  store_wf b -> (forall c c', cell_at b (asg_cell_id a) = Some c -> change_cell now (ChAddMember (my_node_id m)) c = Some c' ->
    keepable (B := B) c') -> process_assignment b m a now = (Ok tt, (b', m')) ->
  if includes_node a (my_node_id m) then
   (store_wf b' /\
    (exists c c', cell_at b (asg_cell_id a) = Some c /\ cell_is_full c = false /\ (my_node_id m ∉ members c) /\
       cell_at b' (asg_cell_id a) = Some c' /\ members c' = members c ++ [my_node_id m]) /\
    (forall k, k <> asg_cell_id a -> cell_at b' k = cell_at b k) /\
    (forall k c, cell_at b' k = Some c -> cell_is_valid c = true -> my_node_id m ∈ members c -> k = asg_cell_id a) /\
    get_assignment m' (assignment_id a) = Some (mark_completed a))
  else b' = b /\ m' = m.
Proof.
  intros Hwf Hkeep. unfold process_assignment.
  destruct (includes_node a (my_node_id m)); cbn [negb]; [|by intros [= <- <-]].
  destruct (validate_assignment b m a now) as [v|] eqn:Ev; [|done]. case_bool_decide as Hv; [|done]. subst v.
  unfold execute_assignment. destruct (store_add_member _ _ _ _) as [b''|] eqn:Ea; [|done]. intros [= -> <-].
  destruct (change_stored_spec b (asg_cell_id a) (ChAddMember (my_node_id m)) now b' Hwf Ea)
    as (c & c' & Hc & Hch & Hst). destruct (Hst (Hkeep c c' Hc Hch)) as (Hwf' & _ & Hall). clear Hst.
  cbn [change_cell] in Hch. unfold add_member in Hch. destruct (cell_is_full c) eqn:Hfull; [done|].
  case_bool_decide as Hnm; [done|]. injection Hch as <-.
  split_and!; [done| | | |].
  - eexists c, _. rewrite Hall. destruct (decide _); [|done]. by split_and!.
  - intros k Hk. rewrite Hall. by destruct (decide _).
  - intros k c0 Hk Hval Hm. destruct (decide (k = asg_cell_id a)) as [|Hne]; [done|]. exfalso.
    rewrite Hall in Hk. destruct (decide _); [done|].
    unfold validate_assignment in Ev. destruct (_ <? _); [done|].
    destruct (get_cell b (asg_cell_id a)) as [[cell|]|] eqn:Eg; try done. cbn in Ev. destruct (cell_is_full cell); [done|].
    destruct (get_current_cell b (my_node_id m)) as [o|] eqn:Ec; [|done]. cbn in Ev.
    apply (get_current_cell_spec b (my_node_id m) o Hwf) in Ec. destruct o as [cur|].
    + case_bool_decide as Hcur; [|done]. subst cur. destruct Ec as (c1 & Hc1 & _ & Hm1). congruence.
    + by apply (Ec k c0).
  - unfold get_assignment. cbn. rewrite lookup_insert. by destruct (decide _).
Qed.

(** No issuer and no priority plays a part: the manager never answers that an assignment
    is unauthorized, and assignments that differ only in these fields are validated
    alike. *)
Theorem assignments_are_never_unauthorized b m a now issuer p :
  validate_assignment b m a now <> Ok Unauthorized /\
  validate_assignment b m (mkAssignment (assignment_id a) (asg_cell_id a) (node_ids a) issuer (asg_timestamp a) p
    (asg_status a) (asg_context a)) now = validate_assignment b m a now.
Proof.
  split; [|done]. unfold validate_assignment. destruct (_ <? _); [done|].
  destruct (get_cell b (asg_cell_id a)) as [[cell|]|]; try done. cbn. destruct (cell_is_full cell); [done|].
  destruct (get_current_cell b (my_node_id m)) as [[cur|]|]; cbn; try done. by case_bool_decide.
Qed.

(** An assignment whose execution fails stays pending: nothing marks it as failed. *)
Theorem failed_assignment_stays_pending b m a now e b' m' :
  includes_node a (my_node_id m) = true -> validate_assignment b m a now = Ok Valid ->
  process_assignment b m a now = (Err e, (b', m')) ->
  get_assignment m' (assignment_id a) = Some a.
Proof.
  intros Hi Hv. unfold process_assignment. rewrite Hi, Hv. cbn [negb]. rewrite bool_decide_eq_true_2 by done.
  unfold execute_assignment. destruct (store_add_member _ _ _ _); [done|]. intros [= _ _ <-].
  unfold get_assignment. cbn. rewrite lookup_insert. by destruct (decide _).
Qed.
End DirectedTheorems.

Module SampleDiscovery.
Import SampleBackend.
Local Open Scope string_scope.

Definition cap (i : string) (ty : CapabilityType) (c : spec_float) : Capability := capability_new i i ty c.

Definition node (i : string) (caps : list Capability) : NodeConfig := mkNodeConfig i "UAV" caps f32_zero f32_zero None None.

Definition nodes : list NodeConfig :=
  [node "a" [cap "s" Sensor (f32_lit 7 10)]; node "b" [cap "s" Sensor (f32_lit 9 10); cap "c" Compute (f32_lit 5 10)];
   node "c" [cap "p" Payload (f32_lit 9 10)]].

Definition sensors : CapabilityQuery := with_limit (with_min_confidence (require_type builder_new Sensor) (f32_lit 6 10)) 5.

Lemma units_nodes : forall x, x ∈ nodes -> units (Node.capabilities x).
Proof.
  intros x Hx. apply list_elem_of_In in Hx. cbn [In nodes] in Hx.
  destruct Hx as [<-|[<-|[<-|[]]]]; unfold units; apply SampleTeam.units_of; vm_compute; reflexivity.
Qed.

Lemma query_ranks_matches_witness : exists res, query_nodes sensors nodes = Some res.
Proof.
  destruct (query_ranks_matches Node.capabilities sensors nodes units_nodes) as (found & ranked & _ & _ & _ & E).
  eexists. exact E.
Defined.

Definition running : DiscoveryCoordinator := ok_or (coordinator_new Directed) (start_bootstrap (coordinator_new Directed) ["a"; "b"] 10).
Definition assigned : DiscoveryCoordinator := ok_or running (register_assignment running "a" "alpha").

Lemma assigned_reachable : rtc coordinator_step (coordinator_new Directed) assigned.
Proof.
  eapply rtc_l; [apply cs_work, (cs_timeout _ 60)|].
  eapply rtc_l; [apply cs_work, (cs_start _ ["a"; "b"] 10 running); reflexivity|].
  eapply rtc_l; [apply cs_work, (cs_register running "a" "alpha" assigned); reflexivity|]. apply rtc_refl.
Qed.

Definition metrics : DiscoveryMetrics :=
  ok_or (mkMetrics 0 0 0 0 f32_zero Directed Failed None) (get_metrics fleet assigned 20).

Lemma metrics_ok : get_metrics fleet assigned 20 = Ok metrics.
Proof. apply succeeded_ok. vm_compute. reflexivity. Qed.

Lemma tracked_u64 : is_u64 (count_of (tracked_nodes assigned)).
Proof. vm_compute. split; [discriminate|reflexivity]. Qed.

Lemma metrics_add_up_witness : m_total_nodes metrics = (m_assigned_nodes metrics + m_unassigned_nodes metrics)%Z.
Proof. exact (proj1 (metrics_add_up Directed assigned fleet 20 metrics assigned_reachable tracked_u64 metrics_ok)). Defined.

(** A discovery with a timeout of ten seconds that fails, and attempts to change that *)
Definition short : DiscoveryCoordinator := coordinator_with_timeout running 10.
Definition over : DiscoveryCoordinator := snd (check_completion short (10 + 10 * nanos_per_sec)).

Lemma over_reachable : rtc coordinator_step (coordinator_new Directed) over.
Proof.
  eapply rtc_l; [apply cs_work, (cs_start _ ["a"; "b"] 10 running); reflexivity|].
  eapply rtc_l; [apply cs_work, (cs_timeout running 10)|].
  eapply rtc_l; [apply cs_work, (cs_check short (10 + 10 * nanos_per_sec))|]. apply rtc_refl.
Qed.

Lemma discovery_ends_witness :
  fst (check_completion assigned (10 + 60 * nanos_per_sec)) = true /\ status over = Failed /\
  same_outcome over (snd (check_completion (coordinator_with_timeout over 1000) 11)).
Proof.
  split_and!; [|vm_compute; reflexivity|].
  - destruct (discovery_ends Directed assigned (10 + 60 * nanos_per_sec) assigned_reachable) as [Hrun _].
    destruct (Hrun ltac:(reflexivity)) as (start & Hs & Hc). assert (start = 10) as -> by (vm_compute in Hs; congruence).
    specialize (Hc ltac:(unfold nanos_per_sec; lia)). destruct (check_completion assigned _) as [done c'].
    apply Hc. left. vm_compute. discriminate.
  - apply (discovery_ends Directed over 11 over_reachable).
    + right. right. left.
    + eapply rtc_l; [apply cs_timeout|]. apply rtc_once, cs_check.
Defined.

Definition moved : DiscoveryCoordinator := ok_or running (transition_to_cell_phase (coordinator_new Directed)).

Lemma moved_phase : current_phase moved <> Operator.Discovery.
Proof. discriminate. Qed.

Lemma retry_cannot_reenter_cell_phase_witness : transition_to_cell_phase moved <> Ok moved.
Proof. exact (retry_cannot_reenter_cell_phase moved moved moved_phase (rtc_refl _ moved) moved). Defined.

#[export] Instance debug_sample : DebugValidation := {| debug_validation _ := "" |}.

Definition order : CellAssignment := assignment_new "order-1" "bravo" ["n9"; "n4"] "c2" PriHigh 100.
Definition manager : DirectedAssignmentManager := manager_new "n4".

Definition outcome := process_assignment fleet manager order 120.
Definition after := snd outcome.

Lemma outcome_ok : process_assignment fleet manager order 120 = (Ok tt, (fst after, snd after)).
Proof.
  change (process_assignment fleet manager order 120) with outcome.
  assert (succeeded (fst outcome) = true) as Hs by (vm_compute; reflexivity).
  unfold after. destruct outcome as [[[]|e] [b m]]; [done|discriminate Hs].
Qed.

Lemma assignment_joins_one_cell_witness : get_assignment (snd after) "order-1" = Some (mark_completed order).
Proof.
  pose proof (assignment_joins_one_cell fleet manager order 120 (fst after) (snd after) fleet_wf
    (fun c c' _ _ => sample_keepable c') outcome_ok) as Hj.
  change (includes_node order (my_node_id manager)) with true in Hj. apply Hj.
Defined.

(** A node in a cell that is still too small to be valid is not seen there: it is added
    to a second cell. *)
Definition lonely : gmap string Document := store_all [cell "alpha" ["n1"; "n2"]; cell "bravo" ["n4"]].
Definition order2 : CellAssignment := assignment_new "order-2" "alpha" ["n4"] "c2" PriLow 100.

Definition has_member (b : gmap string Document) (k n : string) : bool :=
  match cell_at b k with Some c => is_member c n | None => false end.

Example small_cell_not_seen :
  let '(r, (b, _)) := process_assignment lonely manager order2 120 in
  succeeded r = true /\ has_member b "alpha" "n4" = true /\ has_member b "bravo" "n4" = true.
Proof. vm_compute. auto. Qed.

(** A node that is already in the cell it is assigned to: valid, refused by the store,
    and left pending. *)
Definition order3 : CellAssignment := assignment_new "order-3" "alpha" ["n1"] "c2" PriLow 100.

Definition refused := process_assignment fleet (manager_new "n1") order3 120.
Definition refusal : Error := match fst refused with Err e => e | Ok _ => EInternal "" end.

Lemma refused_eq : process_assignment fleet (manager_new "n1") order3 120 = (Err refusal, (fst (snd refused), snd (snd refused))).
Proof.
  change (process_assignment fleet (manager_new "n1") order3 120) with refused.
  assert (succeeded (fst refused) = false) as Hs by (vm_compute; reflexivity).
  unfold refusal. destruct refused as [[[]|e] [b m]]; [discriminate Hs|done].
Qed.

Lemma failed_assignment_stays_pending_witness : get_assignment (snd (snd refused)) "order-3" = Some order3.
Proof.
  refine (failed_assignment_stays_pending fleet (manager_new "n1") order3 120 refusal (fst (snd refused)) (snd (snd refused)) _ _ refused_eq);
    vm_compute; reflexivity.
Defined.
End SampleDiscovery.
