(* ===== verification/Validation.v ===== *)
(** * Schema validation: core messages, advertisements, commands and tracks

    Models peat-schema/src/validation (mod.rs, core.rs, capability.rs, command.rs and
    track.rs). A validator is the list of its checks: [all_of] runs them in order and
    returns the error of the first that fails, as the early returns of the code do. The
    text [{}] prints for a float belongs to the standard library and is the class
    [FloatText]; comparisons are those of IEEE numbers, so every comparison with a NaN is
    false.

    The theorems relate the validators to the components whose messages they check: the
    local operations of a cell keep it valid, a merge need not; what the router does with a
    valid command; and what an accepted track or number guarantees. *)

From S2P Require Import Prelude Float Capability CellState Node Command CommandRouting.
From Stdlib Require Import SpecFloat.
From stdpp Require Import pretty.

Open Scope Z_scope.

Inductive ValidationError :=
| InvalidConfidence (x : spec_float)
| MissingField (f : string)
| InvalidValue (msg : string)
| ConstraintViolation (msg : string).

#[export] Instance ValidationError_eq_dec : EqDecision ValidationError.
Proof. solve_decision. Defined.

Abbreviation validation := (result ValidationError unit).

Class FloatText := float_text : spec_float -> string.

(** ** Text *)

(** [s.len()], in bytes *)
Definition str_len (s : string) : Z := Z.of_nat (String.length s).

(** [s.contains(sub)] *)
Fixpoint str_contains (sub s : string) : bool :=
  String.prefix sub s || match s with EmptyString => false | String _ rest => str_contains sub rest end.

(** [s.bytes().all(p)]; a predicate of ASCII characters is false on every byte of a
    character beyond ASCII, so this is also [s.chars().all(p)]. *)
Definition str_all (p : Ascii.ascii -> bool) (s : string) : bool := forallb p (String.list_ascii_of_string s).

Definition is_ascii_hexdigit (c : Ascii.ascii) : bool :=
  let n := Z.of_N (Ascii.N_of_ascii c) in
  ((48 <=? n) && (n <=? 57)) || ((65 <=? n) && (n <=? 70)) || ((97 <=? n) && (n <=? 102)).

Definition is_empty (s : string) : bool := bool_decide (s = EmptyString).

(** ** Checks *)

(** [if bad { return Err(e) }] *)
Definition reject (bad : bool) (e : ValidationError) : validation := if bad then Err e else Ok tt.

(** Early returns in sequence *)
Fixpoint all_of (checks : list validation) : validation :=
  match checks with
  | [] => Ok tt
  | c :: rest => let? _ := c in all_of rest
  end.

(** [for x in list { check(x)?; }] *)
Definition each {A} (check : A -> validation) (l : list A) : validation := all_of (map check l).

(** [if let Some(ref x) = o { check(x)?; }] *)
Definition if_some {A} (o : option A) (check : A -> validation) : validation :=
  match o with Some x => check x | None => Ok tt end.

(** [let x = o.as_ref().ok_or_else(|| e)?;] *)
Definition require {A} (o : option A) (e : ValidationError) (check : A -> validation) : validation :=
  match o with Some x => check x | None => Err e end.

(** [if s.is_empty() { return Err(MissingField(f)) }] *)
Definition present (s f : string) : validation := reject (is_empty s) (MissingField f).

(** [if o.is_none() { return Err(MissingField(f)) }] *)
Definition given {A} (o : option A) (f : string) : validation := require o (MissingField f) (fun _ => Ok tt).

(** [if e == T::Unspecified as i32 { return Err(InvalidValue(msg)) }] *)
Definition specified (e : Z) (msg : string) : validation := reject (e =? 0) (InvalidValue msg).

(** [x < lo || x > hi] *)
Definition outside (lo hi x : spec_float) : bool := SFltb x lo || SFltb hi x.
Definition negative (x : spec_float) : bool := SFltb x f32_zero.
Definition not_positive (x : spec_float) : bool := SFleb x f32_zero.
Definition unit_interval (x : spec_float) : bool := negb (outside f32_zero f32_one x).

(** [expires.seconds < issued.seconds || (expires.seconds == issued.seconds && expires.nanos < issued.nanos)] *)
Definition earlier (a b : Timestamp) : bool :=
  (seconds a <? seconds b) || ((seconds a =? seconds b) && (nanos a <? nanos b)).

(** [if let (Some(start), Some(expires)) = (start, expires) { ... }] *)
Definition not_before (start expires : option Timestamp) (msg : string) : validation :=
  match start, expires with
  | Some s, Some e => reject (earlier e s) (ConstraintViolation msg)
  | _, _ => Ok tt
  end.

Definition f32_neg (z : Z) : spec_float := SFopp (f32_of_Z z).
Definition f64_neg (z : Z) : spec_float := SFopp (f64_of_Z z).

(** ** core.rs *)

Definition validate_capability (cap : Capability) : validation :=
  all_of [reject (outside f32_zero f32_one (confidence cap)) (InvalidConfidence (confidence cap));
          present (id cap) "id";
          present (name cap) "name"].

Definition validate_node_config (config : NodeConfig) : validation :=
  all_of [present (nc_id config) "id";
          present (node_type config) "node_type";
          each validate_capability (Node.capabilities config);
          reject (not_positive (comm_range_m config)) (InvalidValue "comm_range_m must be positive");
          reject (not_positive (max_speed_mps config)) (InvalidValue "max_speed_mps must be positive")].

Definition validate_node_state (state : NodeState) : validation :=
  if_some (Node.position state) (fun pos =>
    all_of [reject (outside (f64_neg 90) (f64_of_Z 90) (Node.latitude pos))
              (InvalidValue "latitude must be between -90 and 90");
            reject (outside (f64_neg 180) (f64_of_Z 180) (Node.longitude pos))
              (InvalidValue "longitude must be between -180 and 180")]).

Definition validate_cell_config (config : CellConfig) : validation :=
  all_of [present (cfg_id config) "id";
          reject (max_size config <? min_size config) (ConstraintViolation "max_size must be >= min_size");
          reject (min_size config <? 2) (ConstraintViolation "min_size must be at least 2")].

Definition validate_cell_state (state : CellState) : validation :=
  all_of [if_some (CellState.config state) (fun config =>
            all_of [validate_cell_config config;
                    reject (max_size config <? len (members state))
                      (ConstraintViolation ("member count (" +:+ pretty (len (members state)) +:+
                         ") exceeds max_size (" +:+ pretty (max_size config) +:+ ")"))]);
          each validate_capability (CellState.capabilities state);
          if_some (leader_id state) (fun leader =>
            reject (negb (bool_decide (leader ∈ members state)))
              (ConstraintViolation "leader_id must be in members list"))].

(** ** capability.rs *)

Record ResourceStatus := mkResourceStatus {
  compute_utilization : spec_float;
  memory_utilization : spec_float;
  power_level : spec_float;
  storage_utilization : spec_float;
  bandwidth_utilization : spec_float;
  extra_json : string
}.

Record CapabilityAdvertisement := mkCapabilityAdvertisement {
  ad_node_id : string;
  advertised_at : option Timestamp;
  ad_capabilities : list Capability;
  resources : option ResourceStatus;
  operational_status : Z
}.

(** ** track.rs *)

Record Velocity := mkVelocity {
  vel_bearing : spec_float; speed_mps : spec_float; vertical_speed_mps : spec_float
}.

Record TrackPosition := mkTrackPosition {
  tp_latitude : spec_float;
  tp_longitude : spec_float;
  tp_altitude : spec_float;
  cep_m : spec_float;
  vertical_error_m : spec_float
}.

Record TrackSource := mkTrackSource {
  src_node_id : string;
  sensor_id : string;
  model_version : string;
  source_type : Z
}.

Record Track := mkTrack {
  track_id : string;
  classification : string;
  tr_confidence : spec_float;
  tr_position : option TrackPosition;
  tr_velocity : option Velocity;
  tr_state : Z;
  source : option TrackSource;
  attributes_json : string;
  first_seen : option Timestamp;
  last_seen : option Timestamp;
  observation_count : Z;
  tr_kinematics : option Kinematics;
  tr_position_error : option PositionError
}.

Inductive UpdateType := UpdateUnspecified | UpdateNew | Update | Drop | Merge | Split.

Definition update_type_to_i32 (u : UpdateType) : Z :=
  match u with
  | UpdateUnspecified => 0 | UpdateNew => 1 | Update => 2 | Drop => 3 | Merge => 4 | Split => 5
  end.

Record TrackUpdate := mkTrackUpdate {
  tu_update_type : Z;
  track : option Track;
  previous_track_id : string;
  tu_timestamp : option Timestamp
}.

Section Validators.
Context `{FloatText}.

(** [InvalidValue(format!("{field} {x} must be {range}"))] *)
Definition in_range (lo hi x : spec_float) (field range : string) : validation :=
  reject (outside lo hi x) (InvalidValue (field +:+ " " +:+ float_text x +:+ " must be " +:+ range)).

Definition utilization (x : spec_float) (field : string) : validation :=
  in_range f32_zero f32_one x field "between 0.0 and 1.0".

Definition validate_resource_status (r : ResourceStatus) : validation :=
  all_of [utilization (compute_utilization r) "compute_utilization";
          utilization (memory_utilization r) "memory_utilization";
          utilization (power_level r) "power_level";
          utilization (storage_utilization r) "storage_utilization";
          utilization (bandwidth_utilization r) "bandwidth_utilization"].

Definition validate_capability_advertisement (ad : CapabilityAdvertisement) : validation :=
  all_of [present (ad_node_id ad) "node_id";
          given (advertised_at ad) "advertised_at";
          each validate_capability (ad_capabilities ad);
          if_some (resources ad) validate_resource_status;
          specified (operational_status ad) "operational_status must be specified"].

(** command.rs *)
Definition validate_hierarchical_command (cmd : HierarchicalCommand) : validation :=
  all_of [present (command_id cmd) "command_id";
          present (originator_id cmd) "originator_id";
          require (target cmd) (MissingField "target") (fun t =>
            all_of [reject (bool_decide (target_ids t = []) && negb (scope t =? 4))
                      (MissingField "target.target_ids (required for non-broadcast commands)");
                    given (issued_at cmd) "issued_at";
                    not_before (issued_at cmd) (expires_at cmd) "expires_at must be after issued_at";
                    given (command_type cmd) "command_type"])].

Definition validate_track_position (pos : TrackPosition) : validation :=
  all_of [in_range (f64_neg 90) (f64_of_Z 90) (tp_latitude pos) "latitude" "between -90 and 90";
          in_range (f64_neg 180) (f64_of_Z 180) (tp_longitude pos) "longitude" "between -180 and 180";
          reject (negative (cep_m pos))
            (InvalidValue ("cep_m " +:+ float_text (cep_m pos) +:+ " must be non-negative"))].

(** [!x.is_finite()] *)
Definition finite_number (x : spec_float) (field : string) : validation :=
  reject (negb (match x with S754_zero _ | S754_finite _ _ _ => true | _ => false end))
    (InvalidValue (field +:+ " must be finite")).

Definition not_negative (x : spec_float) (field : string) : validation :=
  reject (negative x) (InvalidValue (field +:+ " " +:+ float_text x +:+ " must be non-negative")).

Definition validate_kinematics (kin : Kinematics) : validation :=
  all_of [finite_number (velocity kin) "kinematics.velocity";
          not_negative (velocity kin) "kinematics.velocity";
          finite_number (heading kin) "kinematics.heading";
          in_range f32_zero (f32_of_Z 360) (heading kin) "kinematics.heading" "between 0 and 360";
          finite_number (acceleration kin) "kinematics.acceleration";
          finite_number (vertical_speed kin) "kinematics.vertical_speed"].

Definition validate_position_error (pe : PositionError) : validation :=
  all_of [finite_number (circular_error pe) "position_error.circular_error";
          not_negative (circular_error pe) "position_error.circular_error";
          finite_number (linear_error pe) "position_error.linear_error";
          not_negative (linear_error pe) "position_error.linear_error";
          finite_number (vertical_error pe) "position_error.vertical_error";
          not_negative (vertical_error pe) "position_error.vertical_error"].

Definition validate_track (t : Track) : validation :=
  all_of [present (track_id t) "track_id";
          reject (outside f32_zero f32_one (tr_confidence t)) (InvalidConfidence (tr_confidence t));
          require (tr_position t) (MissingField "position") validate_track_position;
          if_some (tr_kinematics t) validate_kinematics;
          if_some (tr_position_error t) validate_position_error;
          require (source t) (MissingField "source") (fun s => present (src_node_id s) "source.node_id")].

Definition validate_track_update (u : TrackUpdate) : validation :=
  all_of [specified (tu_update_type u) "update_type must be specified";
          require (track u) (MissingField "track") validate_track;
          given (tu_timestamp u) "timestamp";
          reject ((tu_update_type u =? update_type_to_i32 Merge) && is_empty (previous_track_id u))
            (MissingField "previous_track_id (required for MERGE updates)")].

End Validators.

(** ** What a passed check says *)

Lemma reject_ok b e : reject b e = Ok tt <-> b = false.
Proof. by destruct b. Qed.

Lemma all_of_nil : all_of [] = Ok tt <-> True.
Proof. done. Qed.

Lemma all_of_cons c rest : all_of (c :: rest) = Ok tt <-> c = Ok tt /\ all_of rest = Ok tt.
Proof. cbn [all_of]. destruct c as [[]|e]; naive_solver. Qed.

Lemma each_ok {A} (check : A -> validation) l : each check l = Ok tt <-> Forall (fun x => check x = Ok tt) l.
Proof.
  unfold each. induction l as [|x l IH]; [by split|]. cbn [map]. by rewrite all_of_cons, IH, Forall_cons.
Qed.

Lemma if_some_ok {A} (o : option A) check : if_some o check = Ok tt <-> forall x, o = Some x -> check x = Ok tt.
Proof. destruct o; cbn [if_some]; naive_solver. Qed.

Lemma require_ok {A} (o : option A) e check :
  require o e check = Ok tt <-> exists x, o = Some x /\ check x = Ok tt.
Proof. destruct o; cbn [require]; naive_solver. Qed.

Lemma is_empty_false s : is_empty s = false <-> s <> EmptyString.
Proof. apply bool_decide_eq_false. Qed.

Lemma present_ok s f : present s f = Ok tt <-> s <> EmptyString.
Proof. unfold present. rewrite reject_ok. apply is_empty_false. Qed.

Lemma given_ok {A} (o : option A) f : given o f = Ok tt <-> is_Some o.
Proof. destruct o; cbn; split; try done; intros [? ?]; done. Qed.

Lemma specified_ok e msg : specified e msg = Ok tt <-> e <> 0.
Proof. unfold specified. rewrite reject_ok. apply Z.eqb_neq. Qed.

Lemma not_before_ok start expires msg :
  not_before start expires msg = Ok tt <->
  forall s e, start = Some s -> expires = Some e -> earlier e s = false.
Proof. destruct start, expires; cbn [not_before]; rewrite ?reject_ok; naive_solver. Qed.

(** A number outside no interval is inside it, or not a number. *)
Lemma outside_ok lo hi x :
  lo <> S754_nan -> hi <> S754_nan ->
  outside lo hi x = false <-> x = S754_nan \/ SFleb lo x = true /\ SFleb x hi = true.
Proof.
  intros Hlo Hhi. unfold outside, SFltb, SFleb. rewrite orb_false_iff.
  destruct (decide (x = S754_nan)) as [->|Hx].
  { rewrite SFcompare_nan_l, SFcompare_nan_r. split; [by left|done]. }
  destruct (SFcompare_Some lo x Hlo Hx) as [c Hc]. destruct (SFcompare_Some x hi Hx Hhi) as [d Hd].
  rewrite Hc, Hd, (SFcompare_swap _ _ _ Hc), (SFcompare_swap _ _ _ Hd).
  destruct c, d; cbn; naive_solver.
Qed.

Lemma negative_ok x : negative x = false <-> x = S754_nan \/ SFleb f32_zero x = true.
Proof.
  unfold negative, SFltb, SFleb. destruct (decide (x = S754_nan)) as [->|Hx]; [naive_solver|].
  destruct (SFcompare_Some f32_zero x ltac:(done) Hx) as [c Hc].
  rewrite Hc, (SFcompare_swap _ _ _ Hc). destruct c; cbn; naive_solver.
Qed.

Lemma outside_unit x : outside f32_zero f32_one x = false <-> x = S754_nan \/ SFleb f32_zero x = true /\ SFleb x f32_one = true.
Proof. by apply outside_ok. Qed.

Lemma finite_number_ok x f : finite_number x f = Ok tt <-> finite x.
Proof. by destruct x. Qed.

(** [checks] reads a passed validator as the conjunction of its conditions. *)
Create Rewrite HintDb checks.

#[export] Hint Rewrite all_of_nil all_of_cons @each_ok @if_some_ok @require_ok present_ok @given_ok specified_ok
  not_before_ok reject_ok finite_number_ok andb_false_iff orb_false_iff negb_false_iff Z.ltb_ge Z.eqb_neq Z.eqb_eq
  bool_decide_eq_false bool_decide_eq_true is_empty_false : checks.

Ltac checks := autorewrite with checks.

(** The error is that of the first failed check. *)
Theorem first_error_reported checks e :
  all_of checks = Err e <-> exists before after, checks = before ++ Err e :: after /\ Forall (fun c => c = Ok tt) before.
Proof.
  induction checks as [|c checks IH]; [split; [done|by intros ([] & ? & ? & _)]|].
  cbn [all_of]. destruct c as [[]|e'].
  - rewrite IH. split.
    + intros (b & a & -> & Hb). exists (Ok tt :: b), a. by split; [|constructor].
    + intros ([|c b] & a & [= <- Heq] & Hb). exists b, a. split; [done|]. by inversion Hb.
  - split; [intros [= ->]; by exists [], checks|].
    intros ([|c b] & a & [= <- Heq] & Hb); [by subst|by inversion Hb].
Qed.

Lemma prefix_spec sub s : String.prefix sub s = true <-> exists rest, s = sub +:+ rest.
Proof.
  revert s. induction sub as [|c sub IH]; intros s; [split; [by exists s|by destruct s]|].
  destruct s as [|d s]; [split; [done|by intros [? ?]]|]. cbn [String.prefix].
  destruct (Ascii.ascii_dec c d) as [->|Hne].
  - rewrite IH. split; intros [rest E]; exists rest; [by rewrite E|by injection E].
  - split; [done|]. intros [rest [= E _]]. by symmetry in E.
Qed.

Lemma str_contains_spec sub s : str_contains sub s = true <-> exists before after, s = before +:+ sub +:+ after.
Proof.
  induction s as [|c s IH]; cbn [str_contains]; rewrite orb_true_iff, prefix_spec.
  - split; [intros [[r E]|]; [by exists EmptyString, r|done]|]. intros ([|d b] & a & E); [by left; exists a|discriminate E].
  - rewrite IH. split.
    + intros [[r E]|(b & a & ->)]; [by exists EmptyString, r|by exists (String c b), a].
    + intros ([|d b] & a & E); [left; by exists a|]. injection E as -> ->. right. by exists b, a.
Qed.

(** ** Cells *)

Lemma validate_cell_config_ok cfg :
  validate_cell_config cfg = Ok tt <-> cfg_id cfg <> EmptyString /\ 2 <= min_size cfg <= max_size cfg.
Proof. unfold validate_cell_config. checks. naive_solver lia. Qed.

Lemma validate_cell_state_ok c :
  validate_cell_state c = Ok tt <->
  (forall cfg, CellState.config c = Some cfg ->
     cfg_id cfg <> EmptyString /\ 2 <= min_size cfg <= max_size cfg /\ len (members c) <= max_size cfg) /\
  Forall (fun cap => validate_capability cap = Ok tt) (CellState.capabilities c) /\ leader_ok c.
Proof.
  unfold validate_cell_state, leader_ok.
  destruct (CellState.config c) as [cfg|], (leader_id c) as [l|]; cbn [if_some]; checks;
    rewrite ?validate_cell_config_ok.
  all: split; intros (Hcfg & Hall & Hl); try specialize (Hcfg _ eq_refl); destruct_and?; split_and!; try done.
  all: by intros ? [= <-].
Qed.

(** A local operation that adds only validated capabilities *)
Definition validated_step (c c' : CellState) : Prop :=
  local_step c c' /\
  forall cap, cap ∈ CellState.capabilities c' -> cap ∈ CellState.capabilities c \/ validate_capability cap = Ok tt.

Lemma local_step_cell_step c c' : local_step c c' -> cell_step c c'.
Proof. destruct 1; constructor. Qed.

Lemma local_step_config c c' : local_step c c' -> CellState.config c' = CellState.config c.
Proof.
  destruct 1; try done.
  - unfold add_member. destruct (cell_is_full c); [done|]. by case_bool_decide.
  - apply remove_member_config.
  - unfold set_leader. by case_bool_decide.
  - unfold CellState.add_capability. by destruct (has_key id (CellState.capabilities c) (id cap)).
Qed.

(** C35: cells built from a valid configuration by local operations that add validated
    capabilities always pass validation. *)
Theorem valid_cells_stay_valid now cfg c :
  validate_cell_config cfg = Ok tt -> rtc validated_step (cell_new now cfg) c -> validate_cell_state c = Ok tt.
Proof.
  intros [Hid Hsz]%validate_cell_config_ok Hrun. rewrite validate_cell_state_ok.
  enough (CellState.config c = Some cfg /\ within_capacity c /\ cell_wf c /\
          Forall (fun cap => validate_capability cap = Ok tt) (CellState.capabilities c)) as (Hc & Hcap & Hwf & Hall).
  { split_and!; [|done|apply Hwf]. unfold within_capacity in Hcap. rewrite Hc in *. intros ? [= <-]. naive_solver lia. }
  assert (within_capacity (cell_new now cfg)) as H0 by (unfold within_capacity, len; simpl; lia).
  revert Hrun H0. generalize (cell_wf_new now cfg).
  assert (CellState.config (cell_new now cfg) = Some cfg) as Hc0 by done.
  assert (Forall (fun cap => validate_capability cap = Ok tt) (CellState.capabilities (cell_new now cfg))) as Hall0
    by constructor.
  revert Hc0 Hall0. generalize (cell_new now cfg). intros c0 Hc0 Hall0 Hwf0 Hrun H0.
  induction Hrun as [|a b d [Hl Hn] _ IH]; [done|]. apply IH.
  - by rewrite (local_step_config _ _ Hl).
  - rewrite Forall_forall in *. intros cap Hin. destruct (Hn cap Hin); auto.
  - eauto using cell_step_wf, local_step_cell_step.
  - eauto using local_step_capacity.
Qed.

(** Validated replicas of one cell can merge into a cell that is not valid. *)
Theorem merged_cell_fails_validation :
  let c := cell_new 0 (config_with_id 0 "cell-1" 2) in
  let a := snd (add_member 2 (snd (add_member 1 c "n1")) "n2") in
  let b := snd (add_member 4 (snd (add_member 3 c "n3")) "n4") in
  validate_cell_state a = Ok tt /\ validate_cell_state b = Ok tt /\
  validate_cell_state (cell_merge a b) = Err (ConstraintViolation "member count (4) exceeds max_size (2)").
Proof. by vm_compute. Qed.

(** ** Commands *)

Lemma validate_command_ok c :
  validate_hierarchical_command c = Ok tt <->
  command_id c <> EmptyString /\ originator_id c <> EmptyString /\
  (exists t, target c = Some t /\ (target_ids t <> [] \/ scope t = 4)) /\
  is_Some (issued_at c) /\
  (forall s e, issued_at c = Some s -> expires_at c = Some e -> earlier e s = false) /\
  is_Some (command_type c).
Proof.
  unfold validate_hierarchical_command. destruct (target c) as [t|]; cbn [require]; checks; naive_solver.
Qed.

(** The scopes a router acts on *)
Definition routed_scope (z : Z) : bool :=
  match Scope_try_from z with Some (Individual | Cell | Cohort | Broadcast) => true | _ => false end.

(** A router at whose node a command with this target arrives *)
Definition addressee (t : CommandTarget) : CommandRouter :=
  let who := hd EmptyString (target_ids t) in mkCommandRouter who (Some who) [] (Some who).

Lemma addressee_acts c t :
  target c = Some t -> routed_scope (scope t) = true -> target_ids t <> [] \/ scope t = 4 ->
  resolve_target (addressee t) c <> NotApplicable.
Proof.
  intros Ht Hs Hids. unfold resolve_target, routed_scope in *. rewrite Ht.
  assert (target_ids t <> [] -> hd EmptyString (target_ids t) ∈ target_ids t) as Hin
    by (destruct (target_ids t); [done|intros _; by left]).
  assert (Scope_try_from (scope t) <> Some Broadcast -> target_ids t <> []) as Hne
    by (destruct Hids as [|E]; [done|rewrite E; by intros []]).
  destruct (Scope_try_from (scope t)) as [[]|]; try done; cbn -[list_to_set bool_decide hd].
  - rewrite bool_decide_eq_true_2; [done|]. rewrite elem_of_list_to_set. by apply Hin, Hne.
  - rewrite bool_decide_eq_true_2; [by vm_compute|]. by apply Hin, Hne.
  - rewrite bool_decide_eq_true_2; [by vm_compute|]. by apply Hin, Hne.
Qed.

Lemma unrouted_scope_ignored r c t :
  target c = Some t -> routed_scope (scope t) = false -> resolve_target r c = NotApplicable.
Proof.
  intros Ht. unfold resolve_target, routed_scope. rewrite Ht. by destruct (Scope_try_from (scope t)) as [[]|].
Qed.

Lemma scope_broadcast z : Scope_try_from z = Some Broadcast -> z = 4.
Proof. unfold Scope_try_from. by repeat (case_match; try done). Qed.

Lemma nobody_denoted r c : (forall n, ~ denotes r c n) -> resolve_target r c = NotApplicable.
Proof.
  intros Hn. pose proof (resolve_target_cases r c) as Hd.
  destruct (resolve_target r c) as [|ns|ns|]; [by destruct (Hn _ Hd)| | |done]; exfalso.
  - destruct ns as [|n ns]; destruct Hd as (? & _ & Hd); [done|]. apply (Hn n), Hd. by left.
  - destruct Hd as (_ & _ & Hd). apply (Hn EmptyString), Hd.
Qed.

Lemma no_targets_ignored r c z :
  target c = Some (mkCommandTarget z []) -> z <> 4 -> resolve_target r c = NotApplicable.
Proof.
  intros Ht Hz. apply nobody_denoted. intros n. unfold denotes. rewrite Ht. cbn [scope target_ids].
  destruct (Scope_try_from z) as [[]|] eqn:E; try by intros [].
  - apply not_elem_of_nil.
  - intros (k & _ & []%not_elem_of_nil).
  - intros (k & _ & []%not_elem_of_nil).
  - by apply scope_broadcast in E.
Qed.

(** A command that passes validation is acted on by some node exactly when its scope is
    one of individual, cell, cohort and broadcast; a command that names no target is
    refused unless it is broadcast, and no router acts on the ones refused for that. *)
Theorem valid_command_has_addressee c t :
  validate_hierarchical_command c = Ok tt -> target c = Some t ->
  ((exists r, resolve_target r c <> NotApplicable) <-> routed_scope (scope t) = true) /\
  (forall r c', target c' = Some (mkCommandTarget (scope t) []) -> scope t <> 4 ->
     validate_hierarchical_command c' <> Ok tt /\ resolve_target r c' = NotApplicable).
Proof.
  intros (_ & _ & (t' & Ht' & Hids) & _)%validate_command_ok Ht. rewrite Ht in Ht'. injection Ht' as <-.
  split; [split|].
  - intros [r Hr]. destruct (routed_scope (scope t)) eqn:E; [done|]. by rewrite (unrouted_scope_ignored _ _ _ Ht E) in Hr.
  - intros Hs. exists (addressee t). by apply addressee_acts.
  - intros r c' Hc' Hs. split.
    + rewrite validate_command_ok. rewrite Hc'. naive_solver.
    + by apply (no_targets_ignored r c' (scope t)).
Qed.

(** An unspecified scope is accepted by the validator and ignored by every router. *)
Theorem unspecified_scope_accepted_and_dropped r :
  let c := mkHierarchicalCommand "cmd-1" "hq" (Some (mkCommandTarget 0 ["n1"]))
             (Some (CTConfigurationUpdate (mkConfigurationUpdate 0 ""))) 0 0 0 0 0 (timestamp_now 5) (timestamp_now 5) 1 in
  validate_hierarchical_command c = Ok tt /\ resolve_target r c = NotApplicable.
Proof. done. Qed.

(** ** Tracks *)

Section Tracks.
Context `{FloatText}.

(** A finite number that is not below zero *)
Definition measure (x : spec_float) : Prop := finite x /\ SFleb f32_zero x = true.

Lemma measure_ok x f g : finite_number x f = Ok tt /\ not_negative x g = Ok tt <-> measure x.
Proof.
  unfold not_negative, measure. rewrite finite_number_ok, reject_ok, negative_ok.
  split; intros [Hf Hn]; (split; [done|]); [|by right]. destruct Hn as [->|]; done.
Qed.

Lemma validate_kinematics_ok k :
  validate_kinematics k = Ok tt <->
  measure (velocity k) /\ (measure (heading k) /\ SFleb (heading k) (f32_of_Z 360) = true) /\
  finite (acceleration k) /\ finite (vertical_speed k).
Proof.
  unfold validate_kinematics, not_negative, in_range, measure. checks.
  rewrite negative_ok, (outside_ok f32_zero (f32_of_Z 360)) by done.
  destruct (velocity k), (heading k); naive_solver.
Qed.

Lemma validate_position_error_ok p :
  validate_position_error p = Ok tt <->
  measure (circular_error p) /\ measure (linear_error p) /\ measure (vertical_error p).
Proof.
  unfold validate_position_error, not_negative, measure. checks. rewrite !negative_ok.
  destruct (circular_error p), (linear_error p), (vertical_error p); naive_solver.
Qed.

(** Where a position may lie; a NaN is not excluded. *)
Definition on_globe (p : TrackPosition) : Prop :=
  (tp_latitude p = S754_nan \/ SFleb (f64_neg 90) (tp_latitude p) = true /\ SFleb (tp_latitude p) (f64_of_Z 90) = true) /\
  (tp_longitude p = S754_nan \/ SFleb (f64_neg 180) (tp_longitude p) = true /\ SFleb (tp_longitude p) (f64_of_Z 180) = true).

Lemma validate_track_ok t :
  validate_track t = Ok tt <->
  track_id t <> EmptyString /\
  (tr_confidence t = S754_nan \/ SFleb f32_zero (tr_confidence t) = true /\ SFleb (tr_confidence t) f32_one = true) /\
  (exists p, tr_position t = Some p /\ on_globe p /\ (cep_m p = S754_nan \/ SFleb f32_zero (cep_m p) = true)) /\
  (forall k, tr_kinematics t = Some k -> validate_kinematics k = Ok tt) /\
  (forall e, tr_position_error t = Some e -> validate_position_error e = Ok tt) /\
  (exists s, source t = Some s /\ src_node_id s <> EmptyString).
Proof.
  unfold validate_track, validate_track_position, in_range, on_globe. checks. rewrite outside_unit.
  assert (forall p, all_of [reject (outside (f64_neg 90) (f64_of_Z 90) (tp_latitude p))
      (InvalidValue ("latitude" +:+ " " +:+ float_text (tp_latitude p) +:+ " must be " +:+ "between -90 and 90"));
    reject (outside (f64_neg 180) (f64_of_Z 180) (tp_longitude p))
      (InvalidValue ("longitude" +:+ " " +:+ float_text (tp_longitude p) +:+ " must be " +:+ "between -180 and 180"));
    reject (negative (cep_m p)) (InvalidValue ("cep_m " +:+ float_text (cep_m p) +:+ " must be non-negative"))] = Ok tt
    <-> on_globe p /\ (cep_m p = S754_nan \/ SFleb f32_zero (cep_m p) = true)) as Hp.
  { intros p. unfold on_globe. checks. rewrite negative_ok, !outside_ok by done. tauto. }
  setoid_rewrite Hp. setoid_rewrite present_ok. tauto.
Qed.

(** A track update that passes validation carries a track with an identifier and an
    origin, positioned on the globe, whose velocity, heading and errors are finite and not
    negative; a merge names the track it replaces. *)
Theorem accepted_track_update_sound u :
  validate_track_update u = Ok tt ->
  tu_update_type u <> 0 /\ is_Some (tu_timestamp u) /\
  (tu_update_type u = update_type_to_i32 Merge -> previous_track_id u <> EmptyString) /\
  exists t p s, track u = Some t /\ track_id t <> EmptyString /\
    tr_position t = Some p /\ on_globe p /\ source t = Some s /\ src_node_id s <> EmptyString /\
    (forall k, tr_kinematics t = Some k -> measure (velocity k) /\ measure (heading k) /\ SFleb (heading k) (f32_of_Z 360) = true) /\
    (forall e, tr_position_error t = Some e -> measure (circular_error e) /\ measure (linear_error e) /\ measure (vertical_error e)).
Proof.
  unfold validate_track_update. checks. intros (Hty & (t & Ht & Hok) & Hts & Hm & _).
  apply validate_track_ok in Hok as (Hid & _ & (p & Hp & Hg & _) & Hk & He & (s & Hs & Hn)).
  split_and!; [done|done|tauto|]. exists t, p, s. split_and!; [done..| |].
  - intros k Hkin. pose proof (Hk k Hkin) as (? & [? ?] & _)%validate_kinematics_ok. done.
  - intros e Her. by apply validate_position_error_ok, He.
Qed.

(** A NaN passes the range checks of capabilities, tracks and positions. *)
Theorem nan_passes_validation first last n :
  validate_capability (mkCapability "cam" "Camera" 1 S754_nan "" None) = Ok tt /\
  validate_track (mkTrack "T1" "" S754_nan (Some (mkTrackPosition S754_nan S754_nan S754_nan S754_nan S754_nan))
    None 0 (Some (mkTrackSource "n1" "" "" 0)) "" first last n None None) = Ok tt.
Proof. done. Qed.

End Tracks.

(** ** Examples *)

Module SampleMessages.

#[local] Instance no_text : FloatText := fun _ => EmptyString.

Definition cell : CellState := snd (add_member 1 (cell_new 0 (config_with_id 0 "cell-1" 3)) "n1").

Lemma valid_cells_stay_valid_witness : validate_cell_state cell = Ok tt.
Proof.
  apply (valid_cells_stay_valid 0 (config_with_id 0 "cell-1" 3)); [by vm_compute|].
  apply rtc_once. split; [constructor|]. intros cap Hin. by left.
Defined.

Definition order : HierarchicalCommand :=
  mkHierarchicalCommand "cmd-1" "hq" (Some (mkCommandTarget 1 ["n1"]))
    (Some (CTConfigurationUpdate (mkConfigurationUpdate 0 ""))) 0 0 0 0 0 (timestamp_now 5) None 1.

Lemma valid_command_has_addressee_witness : exists r, resolve_target r order <> NotApplicable.
Proof.
  apply (proj1 (valid_command_has_addressee order (mkCommandTarget 1 ["n1"]) ltac:(by vm_compute) eq_refl)).
  by vm_compute.
Defined.

Definition seen : Track :=
  mkTrack "T1" "person" (f32_lit 9 10)
    (Some (mkTrackPosition (f64_of_Z 38) (f64_neg 77) f32_zero (f32_of_Z 5) (f32_of_Z 2))) None 2
    (Some (mkTrackSource "n1" "camera-1" "1.2.0" 2)) "" None None 5
    (Some (mkKinematics (f32_of_Z 3) (f32_of_Z 90) f32_zero f32_zero)) None.

Definition sighting : TrackUpdate := mkTrackUpdate 1 (Some seen) "" (timestamp_now 7).

Lemma accepted_track_update_sound_witness : is_Some (tu_timestamp sighting).
Proof. apply (accepted_track_update_sound sighting). by vm_compute. Defined.

End SampleMessages.
