(* ===== verification/DeviceValidation.v ===== *)
(** * Schema validation: effectors, sensors and actuators

    Models peat-schema/src/validation/effector.rs, sensor.rs and actuator.rs with the
    messages of effector.proto, sensor.proto and actuator.proto, as lists of checks
    ([Validation.v]). Protobuf enums are their [i32]; the numbers the validators compare
    with have names.

    The theorems are the guarantees a device can rely on: no command to arm or to engage is
    accepted without a complete authorization, and no accepted description of a sensor or
    an actuator places a moving part outside the limits it declares. *)

From S2P Require Import Prelude Float Capability Node Validation.
From Stdlib Require Import SpecFloat.

Open Scope Z_scope.

(** ** Effectors *)

Module Effector.

Record SafetyInterlocks := mkSafetyInterlocks {
  master_arm_enabled : bool;
  firing_circuit_ready : bool;
  muzzle_clear : bool;
  feed_ready : bool;
  thermal_ok : bool;
  authorization_valid : bool;
  roe_compliant : bool;
  engagement_zone_valid : bool;
  friendly_clear : bool;
  human_confirmed : bool
}.

Record AmmunitionStatus := mkAmmunitionStatus {
  rounds_ready : Z;
  rounds_total : Z;
  magazine_capacity : Z;
  magazines_available : Z;
  ammunition_type : string;
  reloading : bool;
  reload_time_remaining_s : spec_float;
  malfunction : bool;
  malfunction_detail : string
}.

Record EnergyCapacity := mkEnergyCapacity {
  charge_level : spec_float;
  max_capacity : spec_float;
  power_available_kw : spec_float;
  thermal_level : spec_float;
  charging : bool;
  charge_time_remaining_s : spec_float;
  shots_remaining : Z
}.

Record DispenserCapacity := mkDispenserCapacity {
  units_remaining : Z;
  total_capacity : Z;
  unit_type : string;
  disp_ready : bool
}.

Inductive Capacity :=
| Ammunition (a : AmmunitionStatus)
| Energy (e : EnergyCapacity)
| Dispenser (d : DispenserCapacity).

Record TargetDesignation := mkTargetDesignation {
  target_track_id : string;
  target_classification : string;
  target_position : option Position;
  target_velocity_mps : spec_float;
  bearing_deg : spec_float;
  range_m : spec_float;
  designation_source : string;
  designated_at : option Timestamp
}.

Record FiringSolution := mkFiringSolution {
  fs_valid : bool;
  quality : spec_float;
  hit_probability : spec_float;
  lead_angle_deg : spec_float;
  elevation_deg : spec_float;
  time_to_impact_s : spec_float;
  computed_at : option Timestamp;
  valid_until : option Timestamp
}.

Inductive AuthorizationLevel := LevelUnspecified | Autonomous | OperatorLevel | Commander | Higher | Hold.

Definition level_to_i32 (l : AuthorizationLevel) : Z :=
  match l with
  | LevelUnspecified => 0 | Autonomous => 1 | OperatorLevel => 2 | Commander => 3 | Higher => 4 | Hold => 5
  end.

Record Authorization := mkAuthorization {
  authorization_id : string;
  authorized_by : string;
  level : Z;
  authorized_at : option Timestamp;
  auth_expires_at : option Timestamp;
  authorized_target_classes : list string;
  engagement_zone_id : string;
  roe_reference : string;
  special_instructions : string
}.

Record RoeStatus := mkRoeStatus {
  roe_id : string;
  roe_description : string;
  weapons_status : string;
  engagement_authorized : bool;
  denial_reason : string;
  roe_updated_at : option Timestamp
}.

Record EffectorSpec := mkEffectorSpec {
  spec_effector_id : string;
  spec_name : string;
  effector_type : Z;
  category : Z;
  effector_class : string;
  max_range_m : spec_float;
  min_range_m : spec_float;
  rate_of_fire : spec_float;
  safety_state : Z;
  interlocks : option SafetyInterlocks;
  capacity : option Capacity;
  engagement_state : Z;
  current_target : option TargetDesignation;
  firing_solution : option FiringSolution;
  required_authorization : Z;
  current_authorization : option Authorization;
  roe_status : option RoeStatus;
  mount_actuator_id : string;
  spec_updated_at : option Timestamp;
  spec_metadata_json : string
}.

Record EffectorStateUpdate := mkEffectorStateUpdate {
  upd_node_id : string;
  upd_effector : option EffectorSpec;
  upd_status : Z;
  upd_timestamp : option Timestamp
}.

Inductive EffectorCommandType :=
| CommandUnspecified | SafeCommand | Arm | Designate | ClearTarget | Engage | CeaseFire | Reload | WarningCommand | Deploy.

Definition command_type_to_i32 (c : EffectorCommandType) : Z :=
  match c with
  | CommandUnspecified => 0 | SafeCommand => 1 | Arm => 2 | Designate => 3 | ClearTarget => 4 | Engage => 5
  | CeaseFire => 6 | Reload => 7 | WarningCommand => 8 | Deploy => 9
  end.

Record EffectorCommand := mkEffectorCommand {
  cmd_command_id : string;
  cmd_node_id : string;
  cmd_effector_id : string;
  cmd_command_type : Z;
  cmd_target : option TargetDesignation;
  cmd_authorization : option Authorization;
  rounds_authorized : Z;
  cmd_issued_by : string;
  cmd_priority : Z;
  cmd_issued_at : option Timestamp;
  cmd_expires_at : option Timestamp
}.

Section Effectors.
Context `{FloatText}.

(** [format!("{field} {x} must be in range [0.0, 1.0]")] *)
Definition fraction (x : spec_float) (field : string) : validation :=
  in_range f32_zero f32_one x field "in range [0.0, 1.0]".

Definition validate_safety_interlocks (_ : SafetyInterlocks) : validation := Ok tt.

Definition validate_ammunition_status (s : AmmunitionStatus) : validation :=
  all_of [reject (rounds_total s <? rounds_ready s) (ConstraintViolation "rounds_ready cannot exceed rounds_total");
          reject ((magazine_capacity s =? 0) && (0 <? magazines_available s))
            (InvalidValue "magazine_capacity must be > 0 if magazines_available > 0");
          reject (negative (reload_time_remaining_s s)) (InvalidValue "reload_time_remaining_s must be non-negative")].

Definition validate_firing_solution (s : FiringSolution) : validation :=
  all_of [fraction (quality s) "quality";
          fraction (hit_probability s) "hit_probability";
          reject (negative (time_to_impact_s s)) (InvalidValue "time_to_impact_s must be non-negative")].

Definition validate_target_designation (t : TargetDesignation) : validation :=
  all_of [present (target_track_id t) "target_track_id";
          reject (negative (range_m t)) (InvalidValue "range_m must be non-negative")].

Definition validate_authorization (a : Authorization) : validation :=
  all_of [present (authorization_id a) "authorization_id";
          present (authorized_by a) "authorized_by";
          specified (level a) "authorization level must be specified";
          given (authorized_at a) "authorized_at";
          not_before (authorized_at a) (auth_expires_at a) "expires_at must be after authorized_at"].

Definition validate_capacity (c : Capacity) : validation :=
  match c with
  | Ammunition ammo => validate_ammunition_status ammo
  | Energy e => all_of [fraction (charge_level e) "charge_level"; fraction (thermal_level e) "thermal_level"]
  | Dispenser d =>
      reject (total_capacity d <? units_remaining d) (ConstraintViolation "units_remaining cannot exceed total_capacity")
  end.

Definition validate_effector_spec (s : EffectorSpec) : validation :=
  all_of [present (spec_effector_id s) "effector_id";
          present (spec_name s) "name";
          specified (effector_type s) "effector_type must be specified";
          specified (category s) "category must be specified";
          reject (negative (min_range_m s)) (InvalidValue "min_range_m must be non-negative");
          reject (SFltb (max_range_m s) (min_range_m s)) (ConstraintViolation "max_range_m must be >= min_range_m");
          if_some (interlocks s) validate_safety_interlocks;
          if_some (capacity s) validate_capacity;
          if_some (current_target s) validate_target_designation;
          if_some (firing_solution s) validate_firing_solution;
          if_some (current_authorization s) validate_authorization].

Definition validate_effector_state_update (u : EffectorStateUpdate) : validation :=
  all_of [present (upd_node_id u) "node_id";
          require (upd_effector u) (MissingField "effector") validate_effector_spec;
          specified (upd_status u) "status must be specified";
          given (upd_timestamp u) "timestamp"].

Definition requires_auth (c : EffectorCommand) : bool :=
  (cmd_command_type c =? command_type_to_i32 Arm) || (cmd_command_type c =? command_type_to_i32 Engage).

Definition validate_effector_command (c : EffectorCommand) : validation :=
  all_of [present (cmd_command_id c) "command_id";
          present (cmd_node_id c) "node_id";
          present (cmd_effector_id c) "effector_id";
          specified (cmd_command_type c) "command_type must be specified";
          given (cmd_issued_at c) "issued_at";
          not_before (cmd_issued_at c) (cmd_expires_at c) "expires_at must be after issued_at";
          reject (requires_auth c && negb (bool_decide (is_Some (cmd_authorization c))))
            (MissingField "authorization (required for ARM/ENGAGE commands)");
          if_some (cmd_authorization c) validate_authorization;
          if cmd_command_type c =? command_type_to_i32 Engage then
            all_of [given (cmd_target c) "target (required for ENGAGE command)";
                    if_some (cmd_target c) validate_target_designation]
          else Ok tt].

(** What a complete authorization carries *)
Definition authorizes (a : Authorization) : Prop :=
  authorization_id a <> EmptyString /\ authorized_by a <> EmptyString /\ level a <> 0 /\
  is_Some (authorized_at a) /\
  (forall s e, authorized_at a = Some s -> auth_expires_at a = Some e -> earlier e s = false).

Lemma validate_authorization_ok a : validate_authorization a = Ok tt <-> authorizes a.
Proof. unfold validate_authorization, authorizes. checks. naive_solver. Qed.

Lemma validate_target_ok t :
  validate_target_designation t = Ok tt <->
  target_track_id t <> EmptyString /\ (range_m t = S754_nan \/ SFleb f32_zero (range_m t) = true).
Proof. unfold validate_target_designation. checks. rewrite negative_ok. tauto. Qed.

(** C36: a command that passes validation to arm or to engage an effector carries an
    authorization with its identifier, its issuer, its level and its time; one to engage
    also names the track to engage. Conversely a command to stand down needs none of it. *)
Theorem armed_only_when_authorized c :
  (validate_effector_command c = Ok tt ->
     (cmd_command_type c = command_type_to_i32 Arm \/ cmd_command_type c = command_type_to_i32 Engage ->
        exists a, cmd_authorization c = Some a /\ authorizes a) /\
     (cmd_command_type c = command_type_to_i32 Engage ->
        exists t, cmd_target c = Some t /\ target_track_id t <> EmptyString)) /\
  (cmd_command_type c = command_type_to_i32 SafeCommand \/ cmd_command_type c = command_type_to_i32 CeaseFire ->
   cmd_command_id c <> EmptyString -> cmd_node_id c <> EmptyString -> cmd_effector_id c <> EmptyString ->
   is_Some (cmd_issued_at c) -> cmd_expires_at c = None -> cmd_authorization c = None ->
   validate_effector_command c = Ok tt).
Proof.
  split.
  - unfold validate_effector_command. checks.
    intros (_ & _ & _ & _ & _ & _ & Hreq & Hauth & Heng & _). split.
    + intros Hty. assert (requires_auth c = true) as Hr.
      { unfold requires_auth. rewrite orb_true_iff, !Z.eqb_eq. done. }
      destruct Hreq as [E|[a Ha]]; [congruence|]. exists a. split; [done|].
      by apply validate_authorization_ok, Hauth.
    + intros Hty. rewrite Hty, Z.eqb_refl in Heng. revert Heng. checks. intros ([t Ht] & Hok & _).
      exists t. split; [done|]. by apply validate_target_ok, Hok.
  - intros Hty H1 H2 H3 [ts Hts] Hexp Hno. unfold validate_effector_command, requires_auth.
    rewrite Hts, Hexp, Hno. destruct Hty as [->| ->]; checks; cbn; naive_solver.
Qed.

End Effectors.

Module SampleEngagement.

#[local] Instance no_text : FloatText := fun _ => EmptyString.

(** Hold is the level of "no engagement authorized"; the authorization expires with the
    second it was given in, long before the command is issued. *)
Definition order : EffectorCommand :=
  mkEffectorCommand "c1" "n1" "e1" (command_type_to_i32 Engage)
    (Some (mkTargetDesignation "T1" "" None f32_zero f32_zero (f32_of_Z 100) "" None))
    (Some (mkAuthorization "a1" "ops" (level_to_i32 Hold) (timestamp_now 100) (timestamp_now 100) [] "" "" "")) 1
    "ops" 0 (timestamp_now 90000) None.

Lemma armed_only_when_authorized_witness : exists a, cmd_authorization order = Some a /\ authorizes a.
Proof.
  apply (proj1 (armed_only_when_authorized order) ltac:(by vm_compute)). by right.
Defined.

(** An order to engage is accepted under an authorization to hold that expired before the
    order was issued. *)
Theorem hold_and_expired_accepted :
  validate_effector_command order = Ok tt /\
  exists a e i, cmd_authorization order = Some a /\ level a = level_to_i32 Hold /\
    auth_expires_at a = Some e /\ cmd_issued_at order = Some i /\ earlier e i = true.
Proof. split; [by vm_compute|]. by eexists _, _, _. Qed.

End SampleEngagement.

End Effector.

(** ** Numbers within limits *)

(** [x < lo || x > hi] rejected with the limits in the message *)
Definition within `{FloatText} (x lo hi : spec_float) (field : string) : validation :=
  reject (outside lo hi x)
    (ConstraintViolation (field +:+ " " +:+ float_text x +:+ " must be within limits [" +:+ float_text lo +:+ ", " +:+
                          float_text hi +:+ "]")).

(** No comparison shows [x] outside; for numbers this is [lo <= x <= hi]. *)
Definition between (lo hi x : spec_float) : Prop :=
  lo <> S754_nan -> hi <> S754_nan -> x <> S754_nan -> SFleb lo x = true /\ SFleb x hi = true.

Lemma outside_between lo hi x : outside lo hi x = false -> between lo hi x.
Proof. intros Ho Hlo Hhi Hx. by destruct (proj1 (outside_ok lo hi x Hlo Hhi) Ho). Qed.

(** ** Sensors *)

Module Sensor.

Record SensorOrientation := mkSensorOrientation {
  bearing_offset_deg : spec_float;
  elevation_offset_deg : spec_float;
  roll_offset_deg : spec_float
}.

Record FieldOfView := mkFieldOfView {
  horizontal_deg : spec_float;
  vertical_deg : spec_float;
  diagonal_deg : spec_float;
  fov_max_range_m : spec_float
}.

Record GimbalLimits := mkGimbalLimits {
  pan_min_deg : spec_float;
  pan_max_deg : spec_float;
  tilt_min_deg : spec_float;
  tilt_max_deg : spec_float;
  roll_min_deg : spec_float;
  roll_max_deg : spec_float;
  zoom_min : spec_float;
  zoom_max : spec_float;
  pan_rate_max : spec_float;
  tilt_rate_max : spec_float
}.

Record GimbalState := mkGimbalState {
  pan_deg : spec_float;
  tilt_deg : spec_float;
  roll_deg : spec_float;
  zoom : spec_float;
  tracking : bool;
  tracked_target_id : string
}.

Inductive SensorMountType := MountUnspecified | FixedMount | Ptz | Gimbal | Turret.

Definition mount_to_i32 (m : SensorMountType) : Z :=
  match m with MountUnspecified => 0 | FixedMount => 1 | Ptz => 2 | Gimbal => 3 | Turret => 4 end.

Record SensorSpec := mkSensorSpec {
  spec_sensor_id : string;
  sensor_name : string;
  mount_type : Z;
  base_orientation : option SensorOrientation;
  field_of_view : option FieldOfView;
  modality : Z;
  resolution_width : Z;
  resolution_height : Z;
  frame_rate_fps : spec_float;
  gimbal_limits : option GimbalLimits;
  current_state : option GimbalState;
  sensor_updated_at : option Timestamp
}.

Record SensorStateUpdate := mkSensorStateUpdate {
  su_node_id : string;
  su_sensor : option SensorSpec;
  su_status : Z;
  su_timestamp : option Timestamp
}.

Section Sensors.
Context `{FloatText}.

(** [x < 0.0 || x >= hi] *)
Definition bearing_range (x : spec_float) : bool := SFltb x f32_zero || SFleb (f32_of_Z 360) x.

Definition validate_sensor_orientation (o : SensorOrientation) : validation :=
  all_of [reject (bearing_range (bearing_offset_deg o))
            (InvalidValue ("bearing_offset_deg " +:+ float_text (bearing_offset_deg o) +:+ " must be in range [0, 360)"));
          in_range (f32_neg 90) (f32_of_Z 90) (elevation_offset_deg o) "elevation_offset_deg" "in range [-90, 90]";
          in_range (f32_neg 180) (f32_of_Z 180) (roll_offset_deg o) "roll_offset_deg" "in range [-180, 180]"].

(** [x <= 0.0 || x >= hi] *)
Definition open_range (hi x : spec_float) : bool := SFleb x f32_zero || SFleb hi x.

Definition validate_field_of_view (f : FieldOfView) : validation :=
  all_of [reject (open_range (f32_of_Z 360) (horizontal_deg f))
            (InvalidValue ("horizontal_deg " +:+ float_text (horizontal_deg f) +:+ " must be in range (0, 360)"));
          reject (open_range (f32_of_Z 180) (vertical_deg f))
            (InvalidValue ("vertical_deg " +:+ float_text (vertical_deg f) +:+ " must be in range (0, 180)"));
          reject (negative (fov_max_range_m f)) (InvalidValue "max_range_m must be non-negative")].

Definition validate_gimbal_limits (l : GimbalLimits) : validation :=
  all_of [reject (SFltb (pan_max_deg l) (pan_min_deg l)) (ConstraintViolation "pan_min_deg must be <= pan_max_deg");
          reject (SFltb (tilt_max_deg l) (tilt_min_deg l)) (ConstraintViolation "tilt_min_deg must be <= tilt_max_deg");
          reject (SFltb (roll_max_deg l) (roll_min_deg l)) (ConstraintViolation "roll_min_deg must be <= roll_max_deg");
          reject (not_positive (zoom_min l)) (InvalidValue "zoom_min must be positive");
          reject (SFltb (zoom_max l) (zoom_min l)) (ConstraintViolation "zoom_max must be >= zoom_min")].

Definition validate_gimbal_state (s : GimbalState) (limits : option GimbalLimits) : validation :=
  all_of [reject (not_positive (zoom s)) (InvalidValue "zoom must be positive");
          if_some limits (fun l =>
            all_of [within (pan_deg s) (pan_min_deg l) (pan_max_deg l) "pan_deg";
                    within (tilt_deg s) (tilt_min_deg l) (tilt_max_deg l) "tilt_deg";
                    within (zoom s) (zoom_min l) (zoom_max l) "zoom"])].

Definition validate_sensor_spec (s : SensorSpec) : validation :=
  all_of [present (spec_sensor_id s) "sensor_id";
          present (sensor_name s) "name";
          specified (mount_type s) "mount_type must be specified";
          if_some (base_orientation s) validate_sensor_orientation;
          require (field_of_view s) (MissingField "field_of_view") validate_field_of_view;
          if negb (mount_type s =? mount_to_i32 FixedMount) then
            all_of [given (gimbal_limits s) "gimbal_limits (required for non-fixed mount types)";
                    if_some (gimbal_limits s) validate_gimbal_limits;
                    if_some (current_state s) (fun st => validate_gimbal_state st (gimbal_limits s))]
          else Ok tt;
          reject ((0 <? resolution_width s) && (resolution_height s =? 0))
            (InvalidValue "resolution_height must be positive when resolution_width is set");
          reject ((0 <? resolution_height s) && (resolution_width s =? 0))
            (InvalidValue "resolution_width must be positive when resolution_height is set");
          reject (negative (frame_rate_fps s)) (InvalidValue "frame_rate_fps must be non-negative")].

Definition validate_sensor_state_update (u : SensorStateUpdate) : validation :=
  all_of [present (su_node_id u) "node_id";
          require (su_sensor u) (MissingField "sensor") validate_sensor_spec;
          specified (su_status u) "status must be specified";
          given (su_timestamp u) "timestamp"].

Lemma gimbal_state_ok s l :
  validate_gimbal_state s (Some l) = Ok tt ->
  between (pan_min_deg l) (pan_max_deg l) (pan_deg s) /\
  between (tilt_min_deg l) (tilt_max_deg l) (tilt_deg s) /\ between (zoom_min l) (zoom_max l) (zoom s).
Proof.
  unfold validate_gimbal_state, within. cbn [if_some]. checks. intros (_ & (Hp & Ht & Hz & _) & _).
  by split_and!; apply outside_between.
Qed.

(** A sensor whose update passes validation and whose mount moves declares its limits,
    and the pan, tilt and zoom it reports lie within them. *)
Theorem moving_sensor_within_limits u s :
  validate_sensor_state_update u = Ok tt -> su_sensor u = Some s -> mount_type s <> mount_to_i32 FixedMount ->
  exists l, gimbal_limits s = Some l /\ validate_gimbal_limits l = Ok tt /\
    forall st, current_state s = Some st ->
      between (pan_min_deg l) (pan_max_deg l) (pan_deg st) /\
      between (tilt_min_deg l) (tilt_max_deg l) (tilt_deg st) /\ between (zoom_min l) (zoom_max l) (zoom st).
Proof.
  unfold validate_sensor_state_update. checks. intros (_ & (s' & Hs' & Hok) & _) Hs Hm.
  rewrite Hs in Hs'. injection Hs' as <-. revert Hok. unfold validate_sensor_spec.
  rewrite (proj2 (Z.eqb_neq _ _) Hm). cbn [negb]. checks.
  intros (_ & _ & _ & _ & _ & ([l Hl] & Hlim & Hst & _) & _). exists l. rewrite Hl in *.
  split_and!; [done|by apply Hlim|]. intros st Hcur. by apply gimbal_state_ok, Hst.
Qed.

(** Documented to be without limits and state, a fixed sensor is accepted with both, and
    they are not looked at. *)
Theorem fixed_sensor_limits_ignored f l st :
  validate_field_of_view f = Ok tt ->
  validate_sensor_spec
    (mkSensorSpec "s1" "camera" (mount_to_i32 FixedMount) None (Some f) 1 0 0 f32_zero (Some l) (Some st) None) = Ok tt.
Proof.
  intros Hf. unfold validate_sensor_spec. checks. split_and!; try done; [by exists f|by left..].
Qed.

End Sensors.

Module SampleSensor.

#[local] Instance no_text : FloatText := fun _ => EmptyString.

Definition limits : GimbalLimits :=
  mkGimbalLimits (f32_neg 170) (f32_of_Z 170) (f32_neg 30) (f32_of_Z 90) f32_zero f32_zero f32_one (f32_of_Z 20) f32_one
    f32_one.
Definition pose : GimbalState := mkGimbalState (f32_of_Z 45) (f32_neg 10) f32_zero (f32_of_Z 4) false "".
Definition view : FieldOfView := mkFieldOfView (f32_of_Z 60) (f32_of_Z 40) f32_zero (f32_of_Z 2000).
Definition ptz : SensorSpec :=
  mkSensorSpec "s1" "camera" (mount_to_i32 Ptz) None (Some view) 1 1920 1080 (f32_of_Z 30) (Some limits) (Some pose) None.
Definition report : SensorStateUpdate := mkSensorStateUpdate "n1" (Some ptz) 1 (timestamp_now 3).

Lemma moving_sensor_within_limits_witness :
  exists l, gimbal_limits ptz = Some l /\ validate_gimbal_limits l = Ok tt /\
    forall st, current_state ptz = Some st ->
      between (pan_min_deg l) (pan_max_deg l) (pan_deg st) /\
      between (tilt_min_deg l) (tilt_max_deg l) (tilt_deg st) /\ between (zoom_min l) (zoom_max l) (zoom st).
Proof. apply (moving_sensor_within_limits report ptz); [by vm_compute|done|done]. Defined.

End SampleSensor.

End Sensor.

(** ** Actuators *)

Module Actuator.

Record LinearLimits := mkLinearLimits {
  position_min_m : spec_float; position_max_m : spec_float; velocity_max_mps : spec_float;
  lin_acceleration_max : spec_float; force_max_n : spec_float
}.

Record RotaryLimits := mkRotaryLimits {
  angle_min_deg : spec_float; angle_max_deg : spec_float; velocity_max_dps : spec_float;
  rot_acceleration_max : spec_float; torque_max_nm : spec_float; continuous_rotation : bool
}.

Record GripperLimits := mkGripperLimits {
  aperture_min_m : spec_float; aperture_max_m : spec_float; grip_force_max_n : spec_float;
  grip_payload_max_kg : spec_float
}.

Record ValveLimits := mkValveLimits {
  valve_position_min : spec_float; valve_position_max : spec_float; full_travel_time_s : spec_float;
  flow_rate_max : spec_float; pressure_max_pa : spec_float
}.

Record BarrierLimits := mkBarrierLimits {
  barrier_position_min : spec_float; barrier_position_max : spec_float; full_cycle_time_s : spec_float;
  clear_width_m : spec_float; clear_height_m : spec_float
}.

Record WinchLimits := mkWinchLimits {
  cable_min_m : spec_float; cable_max_m : spec_float; line_speed_max_mps : spec_float;
  tension_max_n : spec_float; winch_payload_max_kg : spec_float
}.

Record LinearState := mkLinearState { position_m : spec_float; velocity_mps : spec_float; force_n : spec_float }.
Record RotaryState := mkRotaryState { angle_deg : spec_float; velocity_dps : spec_float; torque_nm : spec_float }.
Record GripperState := mkGripperState {
  aperture_m : spec_float; grip_force_n : spec_float; object_detected : bool; grip_payload_kg : spec_float
}.
Record ValveState := mkValveState { valve_position : spec_float; flow_rate : spec_float; pressure_pa : spec_float }.
Record BarrierState := mkBarrierState {
  barrier_position : spec_float; is_closed : bool; is_open : bool; obstruction_detected : bool
}.
Record WinchState := mkWinchState {
  cable_out_m : spec_float; line_speed_mps : spec_float; tension_n : spec_float; winch_payload_kg : spec_float
}.
Record LockState := mkLockState {
  is_locked : bool; bolt_extended : bool; last_unlock_time : option Timestamp; last_lock_time : option Timestamp
}.

Inductive Limits :=
| LLinear (l : LinearLimits) | LRotary (l : RotaryLimits) | LGripper (l : GripperLimits)
| LValve (l : ValveLimits) | LBarrier (l : BarrierLimits) | LWinch (l : WinchLimits).

Inductive State :=
| SLinear (s : LinearState) | SRotary (s : RotaryState) | SGripper (s : GripperState) | SValve (s : ValveState)
| SBarrier (s : BarrierState) | SWinch (s : WinchState) | SLock (s : LockState).

Record ActuatorSpec := mkActuatorSpec {
  spec_actuator_id : string;
  actuator_name : string;
  actuator_type : Z;
  mount : Z;
  drive : Z;
  limits : option Limits;
  state : option State;
  actuator_updated_at : option Timestamp;
  actuator_metadata_json : string
}.

Record ActuatorStateUpdate := mkActuatorStateUpdate {
  au_node_id : string;
  au_actuator : option ActuatorSpec;
  au_status : Z;
  au_timestamp : option Timestamp
}.

Record ActuatorCommand := mkActuatorCommand {
  ac_command_id : string;
  ac_node_id : string;
  ac_actuator_id : string;
  ac_command_type : Z;
  target_position : spec_float;
  target_velocity : spec_float;
  ac_priority : Z;
  ac_issued_by : string;
  ac_issued_at : option Timestamp;
  ac_expires_at : option Timestamp
}.

Section Actuators.
Context `{FloatText}.

Definition non_negative (x : spec_float) (field : string) : validation :=
  reject (negative x) (InvalidValue (field +:+ " must be non-negative")).

Definition validate_linear_limits (l : LinearLimits) : validation :=
  all_of [reject (SFltb (position_max_m l) (position_min_m l))
            (ConstraintViolation "position_min_m must be <= position_max_m");
          non_negative (velocity_max_mps l) "velocity_max_mps";
          non_negative (force_max_n l) "force_max_n"].

Definition validate_rotary_limits (l : RotaryLimits) : validation :=
  all_of [reject (negb (continuous_rotation l) && SFltb (angle_max_deg l) (angle_min_deg l))
            (ConstraintViolation "angle_min_deg must be <= angle_max_deg for non-continuous rotation");
          non_negative (velocity_max_dps l) "velocity_max_dps";
          non_negative (torque_max_nm l) "torque_max_nm"].

Definition validate_gripper_limits (l : GripperLimits) : validation :=
  all_of [non_negative (aperture_min_m l) "aperture_min_m";
          reject (SFltb (aperture_max_m l) (aperture_min_m l))
            (ConstraintViolation "aperture_min_m must be <= aperture_max_m");
          non_negative (grip_force_max_n l) "grip_force_max_n";
          non_negative (grip_payload_max_kg l) "payload_max_kg"].

Definition validate_valve_limits (l : ValveLimits) : validation :=
  all_of [Effector.fraction (valve_position_min l) "position_min";
          Effector.fraction (valve_position_max l) "position_max";
          reject (SFltb (valve_position_max l) (valve_position_min l))
            (ConstraintViolation "position_min must be <= position_max");
          reject (not_positive (full_travel_time_s l)) (InvalidValue "full_travel_time_s must be positive")].

Definition validate_barrier_limits (l : BarrierLimits) : validation :=
  all_of [Effector.fraction (barrier_position_min l) "position_min";
          Effector.fraction (barrier_position_max l) "position_max";
          reject (not_positive (full_cycle_time_s l)) (InvalidValue "full_cycle_time_s must be positive");
          non_negative (clear_width_m l) "clear_width_m";
          non_negative (clear_height_m l) "clear_height_m"].

Definition validate_winch_limits (l : WinchLimits) : validation :=
  all_of [non_negative (cable_min_m l) "cable_min_m";
          reject (SFltb (cable_max_m l) (cable_min_m l)) (ConstraintViolation "cable_min_m must be <= cable_max_m");
          non_negative (line_speed_max_mps l) "line_speed_max_mps";
          non_negative (tension_max_n l) "tension_max_n";
          non_negative (winch_payload_max_kg l) "payload_max_kg"].

Definition validate_linear_state (s : LinearState) (limits : option LinearLimits) : validation :=
  if_some limits (fun l => within (position_m s) (position_min_m l) (position_max_m l) "position_m").

Definition validate_rotary_state (s : RotaryState) (limits : option RotaryLimits) : validation :=
  if_some limits (fun l =>
    if continuous_rotation l then Ok tt else within (angle_deg s) (angle_min_deg l) (angle_max_deg l) "angle_deg").

Definition validate_gripper_state (s : GripperState) (limits : option GripperLimits) : validation :=
  all_of [non_negative (aperture_m s) "aperture_m";
          if_some limits (fun l => within (aperture_m s) (aperture_min_m l) (aperture_max_m l) "aperture_m")].

Definition validate_valve_state (s : ValveState) : validation := Effector.fraction (valve_position s) "position".

Definition validate_barrier_state (s : BarrierState) : validation :=
  all_of [Effector.fraction (barrier_position s) "position";
          reject (is_closed s && SFltb (f32_lit 1 100) (barrier_position s))
            (ConstraintViolation "is_closed should not be true when position > 0");
          reject (is_open s && SFltb (barrier_position s) (f32_lit 99 100))
            (ConstraintViolation "is_open should not be true when position < 1")].

Definition validate_winch_state (s : WinchState) (limits : option WinchLimits) : validation :=
  all_of [non_negative (cable_out_m s) "cable_out_m";
          if_some limits (fun l =>
            reject (SFltb (cable_max_m l) (cable_out_m s))
              (ConstraintViolation ("cable_out_m " +:+ float_text (cable_out_m s) +:+ " exceeds max " +:+
                                    float_text (cable_max_m l))))].

Definition validate_lock_state (_ : LockState) : validation := Ok tt.

Definition validate_limits (l : Limits) : validation :=
  match l with
  | LLinear l => validate_linear_limits l
  | LRotary l => validate_rotary_limits l
  | LGripper l => validate_gripper_limits l
  | LValve l => validate_valve_limits l
  | LBarrier l => validate_barrier_limits l
  | LWinch l => validate_winch_limits l
  end.

(** [limits.as_ref().and_then(...)]: limits of another kind of actuator are not used. *)
Definition validate_state (s : State) (limits : option Limits) : validation :=
  match s with
  | SLinear s => validate_linear_state s (l ← limits; match l with LLinear l => Some l | _ => None end)
  | SRotary s => validate_rotary_state s (l ← limits; match l with LRotary l => Some l | _ => None end)
  | SGripper s => validate_gripper_state s (l ← limits; match l with LGripper l => Some l | _ => None end)
  | SValve s => validate_valve_state s
  | SBarrier s => validate_barrier_state s
  | SWinch s => validate_winch_state s (l ← limits; match l with LWinch l => Some l | _ => None end)
  | SLock s => validate_lock_state s
  end.

Definition validate_actuator_spec (s : ActuatorSpec) : validation :=
  all_of [present (spec_actuator_id s) "actuator_id";
          present (actuator_name s) "name";
          specified (actuator_type s) "actuator_type must be specified";
          specified (mount s) "mount must be specified";
          if_some (limits s) validate_limits;
          if_some (state s) (fun st => validate_state st (limits s))].

Definition validate_actuator_state_update (u : ActuatorStateUpdate) : validation :=
  all_of [present (au_node_id u) "node_id";
          require (au_actuator u) (MissingField "actuator") validate_actuator_spec;
          specified (au_status u) "status must be specified";
          given (au_timestamp u) "timestamp"].

Definition validate_actuator_command (c : ActuatorCommand) : validation :=
  all_of [present (ac_command_id c) "command_id";
          present (ac_node_id c) "node_id";
          present (ac_actuator_id c) "actuator_id";
          specified (ac_command_type c) "command_type must be specified";
          given (ac_issued_at c) "issued_at";
          not_before (ac_issued_at c) (ac_expires_at c) "expires_at must be after issued_at"].

(** Where limits of its own kind let a moving part stand *)
Definition stands_within (s : State) (l : Limits) : Prop :=
  match s, l with
  | SLinear s, LLinear l => between (position_min_m l) (position_max_m l) (position_m s)
  | SRotary s, LRotary l => continuous_rotation l = true \/ between (angle_min_deg l) (angle_max_deg l) (angle_deg s)
  | SGripper s, LGripper l => between (aperture_min_m l) (aperture_max_m l) (aperture_m s)
  | SWinch s, LWinch l => between f32_zero (cable_max_m l) (cable_out_m s)
  | SValve s, _ => between f32_zero f32_one (valve_position s)
  | SBarrier s, _ => between f32_zero f32_one (barrier_position s)
  | _, _ => True
  end.

Lemma validate_state_within s l : validate_state s (Some l) = Ok tt -> stands_within s l.
Proof.
  destruct s as [s|s|s|s|s|s|s], l as [l|l|l|l|l|l]; cbn [validate_state stands_within mbind option_bind]; try done.
  all: unfold validate_linear_state, validate_rotary_state, validate_gripper_state, validate_valve_state,
         validate_barrier_state, validate_winch_state; cbn [if_some]; unfold Effector.fraction, in_range, within; checks.
  all: try (intros Ho; by apply outside_between).
  all: try (intros (Ho & _); by apply outside_between).
  - destruct (continuous_rotation l); [by left|]. checks. intros Ho. right. by apply outside_between.
  - intros (_ & Ho & _). by apply outside_between.
  - unfold non_negative. checks. intros (Hn & Ho & _). apply outside_between. unfold outside.
    unfold negative in Hn. by rewrite Hn, Ho.
Qed.

(** An actuator whose update passes validation stands within the limits it declares:
    linear and rotary parts and grippers between their bounds, winches below their cable
    length, valves and barriers between closed and open. *)
Theorem actuator_within_limits u a l s :
  validate_actuator_state_update u = Ok tt -> au_actuator u = Some a -> limits a = Some l -> state a = Some s ->
  validate_limits l = Ok tt /\ stands_within s l.
Proof.
  unfold validate_actuator_state_update. checks. intros (_ & (a' & Ha' & Hok) & _) Ha Hl Hs.
  rewrite Ha in Ha'. injection Ha' as <-. revert Hok. unfold validate_actuator_spec. checks.
  intros (_ & _ & _ & _ & Hlim & Hst & _). rewrite Hl in *. split; [by apply Hlim|].
  by apply validate_state_within, Hst.
Qed.

End Actuators.

Module SampleActuator.

#[local] Instance no_text : FloatText := fun _ => EmptyString.

Definition arm_limits : LinearLimits := mkLinearLimits f32_zero f32_one f32_one f32_one (f32_of_Z 100).
Definition arm : ActuatorSpec :=
  mkActuatorSpec "a1" "arm" 1 1 1 (Some (LLinear arm_limits)) (Some (SLinear (mkLinearState (f32_lit 1 2) f32_zero f32_zero)))
    None "".
Definition report : ActuatorStateUpdate := mkActuatorStateUpdate "n1" (Some arm) 1 (timestamp_now 3).

Lemma actuator_within_limits_witness :
  validate_limits (LLinear arm_limits) = Ok tt /\
  stands_within (SLinear (mkLinearState (f32_lit 1 2) f32_zero f32_zero)) (LLinear arm_limits).
Proof. by apply (actuator_within_limits report arm); [vm_compute|..]. Defined.

(** Limits of another kind, and the limits of a valve, are not compared with the state:
    a valve limited to the lower half is accepted fully open. *)
Theorem valve_beyond_limits_accepted :
  let l := mkValveLimits f32_zero (f32_lit 1 2) f32_one f32_zero f32_zero in
  let s := mkValveState f32_one f32_zero f32_zero in
  validate_actuator_spec (mkActuatorSpec "v1" "valve" 5 1 1 (Some (LValve l)) (Some (SValve s)) None "") = Ok tt /\
  SFltb (valve_position_max l) (valve_position s) = true.
Proof. by vm_compute. Qed.

(** The bounds of a barrier may be reversed. *)
Theorem reversed_barrier_accepted :
  validate_barrier_limits (mkBarrierLimits f32_one f32_zero f32_one f32_zero f32_zero) = Ok tt.
Proof. by vm_compute. Qed.

End SampleActuator.

End Actuator.
