(* ===== verification/ProductValidation.v ===== *)
(** * Schema validation: models, products and detection tasks

    Models peat-schema/src/validation/model.rs, product.rs and tasking.rs with the messages
    of model.proto, product.proto and tasking.proto, as lists of checks ([Validation.v]).
    Bytes are lists of numbers below 256.

    The theorems say what a node can rely on: the checksum of an accepted deployment and
    the hash a node reports are 32 bytes in hexadecimal, accepted products have the shape
    their content needs, and a task is only replaced by a task that is itself valid. *)

From S2P Require Import Prelude Float Capability Node Validation.
From Stdlib Require Import SpecFloat.
From stdpp Require Import pretty.

Open Scope Z_scope.

(** ** Model deployment *)

Module Model.

Record HardwareRequirements := mkHardwareRequirements {
  min_gpu_memory_mb : Z; min_ram_mb : Z; min_storage_mb : Z; accelerator_type : Z
}.

Record ModelPerformanceMetrics := mkModelPerformanceMetrics {
  mean_ap : spec_float; inference_time_ms : spec_float; fps : spec_float; accuracy : spec_float; benchmark_hardware : string
}.

Record ModelMetadata := mkModelMetadata {
  md_format : string;
  framework : string;
  input_dimensions : string;
  classes : list string;
  min_runtime_version : string;
  hardware_requirements : option HardwareRequirements;
  performance_metrics : option ModelPerformanceMetrics;
  md_extra_json : string
}.

Record ModelDeployment := mkModelDeployment {
  deployment_id : string;
  dep_model_id : string;
  dep_model_version : string;
  dep_model_type : Z;
  model_url : string;
  checksum_sha256 : string;
  file_size_bytes : Z;
  target_nodes : list string;
  deployment_policy : Z;
  dep_priority : Z;
  deployed_at : option Timestamp;
  deployed_by : string;
  rollback_model_id : string;
  dep_metadata : option ModelMetadata
}.

Inductive DeploymentState :=
| DeploymentUnspecified | Pending | Downloading | Verifying | Installing | Complete | Failed | RolledBack.

Definition deployment_state_to_i32 (s : DeploymentState) : Z :=
  match s with
  | DeploymentUnspecified => 0 | Pending => 1 | Downloading => 2 | Verifying => 3 | Installing => 4
  | Complete => 5 | Failed => 6 | RolledBack => 7
  end.

Record ModelDeploymentStatus := mkModelDeploymentStatus {
  st_deployment_id : string;
  st_node_id : string;
  st_state : Z;
  progress_percent : Z;
  st_error_message : string;
  st_updated_at : option Timestamp;
  downloaded_hash : string;
  previous_version : string
}.

(** 64 hexadecimal characters *)
Definition hash_checks (h field : string) : list validation :=
  [reject (negb (str_len h =? 64)) (InvalidValue (field +:+ " must be 64 hex characters, got " +:+ pretty (str_len h)));
   reject (negb (str_all is_ascii_hexdigit h)) (InvalidValue (field +:+ " must contain only hex characters"))].

Definition validate_model_deployment (d : ModelDeployment) : validation :=
  all_of ([present (deployment_id d) "deployment_id";
           present (dep_model_id d) "model_id";
           present (dep_model_version d) "model_version";
           specified (dep_model_type d) "model_type must be specified";
           present (model_url d) "model_url";
           reject (negb (str_contains "://" (model_url d))) (InvalidValue "model_url must be a valid URL with scheme");
           present (checksum_sha256 d) "checksum_sha256"] ++
          hash_checks (checksum_sha256 d) "checksum_sha256" ++
          [reject (file_size_bytes d =? 0) (InvalidValue "file_size_bytes must be non-zero");
           reject (bool_decide (target_nodes d = [])) (MissingField "target_nodes (at least one required)");
           specified (deployment_policy d) "deployment_policy must be specified";
           specified (dep_priority d) "priority must be specified";
           given (deployed_at d) "deployed_at";
           present (deployed_by d) "deployed_by"]).

Definition validate_model_deployment_status (s : ModelDeploymentStatus) : validation :=
  all_of [present (st_deployment_id s) "deployment_id";
          present (st_node_id s) "node_id";
          specified (st_state s) "state must be specified";
          reject (100 <? progress_percent s)
            (InvalidValue ("progress_percent " +:+ pretty (progress_percent s) +:+ " must be between 0 and 100"));
          given (st_updated_at s) "updated_at";
          reject ((st_state s =? deployment_state_to_i32 Failed) && is_empty (st_error_message s))
            (MissingField "error_message (required when state is FAILED)");
          reject (((st_state s =? deployment_state_to_i32 Complete) || (st_state s =? deployment_state_to_i32 Verifying)) &&
                  is_empty (downloaded_hash s))
            (MissingField "downloaded_hash (required for COMPLETE or VERIFYING state)");
          if is_empty (downloaded_hash s) then Ok tt else all_of (hash_checks (downloaded_hash s) "downloaded_hash")].

(** The value of a hexadecimal digit *)
Definition hex_value (c : Ascii.ascii) : option Z :=
  let n := Z.of_N (Ascii.N_of_ascii c) in
  if (48 <=? n) && (n <=? 57) then Some (n - 48)
  else if (65 <=? n) && (n <=? 70) then Some (n - 55)
  else if (97 <=? n) && (n <=? 102) then Some (n - 87)
  else None.

(** Reference decoder: two digits a byte *)
Fixpoint hex_decode (s : string) : option (list Z) :=
  match s with
  | EmptyString => Some []
  | String a (String b rest) => x ← hex_value a; y ← hex_value b; l ← hex_decode rest; Some (16 * x + y :: l)
  | _ => None
  end.

Lemma hex_value_some c : is_ascii_hexdigit c = true <-> exists x, hex_value c = Some x /\ 0 <= x < 16.
Proof.
  unfold is_ascii_hexdigit, hex_value. set (n := Z.of_N _).
  destruct ((48 <=? n) && (n <=? 57)) eqn:E1; [split; [intros _; exists (n - 48); split; [done|lia]|done]|].
  destruct ((65 <=? n) && (n <=? 70)) eqn:E2; [split; [intros _; exists (n - 55); split; [done|lia]|done]|].
  destruct ((97 <=? n) && (n <=? 102)) eqn:E3; [split; [intros _; exists (n - 87); split; [done|lia]|done]|].
  split; [done|by intros (? & ? & _)].
Qed.

(** Text of even length in hexadecimal digits is what the decoder accepts. *)
Lemma hex_decode_spec n s :
  String.length s = (2 * n)%nat -> str_all is_ascii_hexdigit s = true ->
  exists bytes, hex_decode s = Some bytes /\ length bytes = n /\ Forall (fun b => 0 <= b < 256) bytes.
Proof.
  revert s. induction n as [|n IH]; intros s Hl Ha.
  - destruct s; [|done]. exists []. by split_and!.
  - destruct s as [|a [|b s]]; cbn in Hl; [lia|lia|]. revert Ha. unfold str_all. cbn [String.list_ascii_of_string forallb].
    rewrite !andb_true_iff, !hex_value_some. intros ((x & Hx & ?) & (y & Hy & ?) & Ha).
    destruct (IH s ltac:(lia) Ha) as (l & Hd & Hlen & Hall). exists (16 * x + y :: l). cbn [hex_decode].
    rewrite Hx, Hy. cbn. rewrite Hd. cbn. split_and!; [done|by f_equal|]. constructor; [lia|done].
Qed.

(** A SHA-256 digest in hexadecimal *)
Definition is_digest (s : string) : Prop :=
  exists bytes, hex_decode s = Some bytes /\ length bytes = 32%nat /\ Forall (fun b => 0 <= b < 256) bytes.

Lemma hash_checks_ok h field : all_of (hash_checks h field) = Ok tt -> is_digest h.
Proof.
  unfold hash_checks, str_len. checks. intros (Hl & Ha & _). apply (hex_decode_spec 32); [lia|done].
Qed.

Lemma all_of_app l k : all_of (l ++ k) = Ok tt <-> all_of l = Ok tt /\ all_of k = Ok tt.
Proof. induction l as [|c l IH]; [cbn; naive_solver|]. cbn [app]. rewrite !all_of_cons, IH. tauto. Qed.

(** An accepted deployment can be carried out: it has a URL with a scheme, a digest of
    32 bytes to compare the download with, a size and a target; and a node that reports a
    verified or complete download reports a digest of 32 bytes too, within 100 percent. *)
Theorem accepted_deployment_verifiable d s :
  validate_model_deployment d = Ok tt -> validate_model_deployment_status s = Ok tt ->
  (exists scheme rest, model_url d = scheme +:+ "://" +:+ rest) /\ is_digest (checksum_sha256 d) /\
  file_size_bytes d <> 0 /\ target_nodes d <> [] /\ progress_percent s <= 100 /\
  (st_state s = deployment_state_to_i32 Complete \/ st_state s = deployment_state_to_i32 Verifying ->
     is_digest (downloaded_hash s)) /\
  (st_state s = deployment_state_to_i32 Failed -> st_error_message s <> EmptyString).
Proof.
  unfold validate_model_deployment, validate_model_deployment_status. rewrite !all_of_app.
  intros (Hd1 & Hhash & Hd2). revert Hd1 Hd2. checks. rewrite str_contains_spec.
  intros (_ & _ & _ & _ & _ & Hurl & _) (Hsize & Htargets & _) (_ & _ & _ & Hp & _ & Hf & Hc & Hh & _).
  split_and!; [done|by eapply hash_checks_ok|done|done|done| |].
  - intros Hst. assert (is_empty (downloaded_hash s) = false) as E.
    { apply is_empty_false. destruct Hc as [[? ?]|]; [|done]. tauto. }
    rewrite E in Hh. by eapply hash_checks_ok.
  - intros Hst. destruct Hf; done.
Qed.

Module SampleModel.

Definition digest : string := "0123456789abcdef0123456789ABCDEF0123456789abcdef0123456789abcdef".
Definition rollout : ModelDeployment :=
  mkModelDeployment "d1" "yolo" "8.1" 1 "https://models/yolo" digest 1000 ["n1"] 1 2 (timestamp_now 3) "ops" "" None.
Definition done_ : ModelDeploymentStatus :=
  mkModelDeploymentStatus "d1" "n1" (deployment_state_to_i32 Complete) 100 "" (timestamp_now 9) digest "".

Lemma accepted_deployment_verifiable_witness : is_digest (downloaded_hash done_).
Proof.
  apply (accepted_deployment_verifiable rollout done_); [by vm_compute|by vm_compute|by left].
Defined.

End SampleModel.

End Model.

(** ** Products *)

Module Products.

Inductive ImageData :=
| Data (bytes : list Z)
| DataBase64 (s : string)
| Url (s : string)
| BlobHash (s : string).

Record ImageProduct := mkImageProduct {
  img_format : Z;
  img_width : Z;
  img_height : Z;
  image_data : option ImageData;
  size_bytes : Z;
  source_bbox : list Z;
  source_frame_size : list Z;
  trigger : Z;
  img_jpeg_quality : Z
}.

Record ClassScore := mkClassScore { cs_label : string; score : spec_float }.

Record ClassificationProduct := mkClassificationProduct {
  cls_label : string; cls_confidence : spec_float; top_k : list ClassScore; taxonomy : string
}.

Record DetectionProduct := mkDetectionProduct {
  det_label : string; det_confidence : spec_float; bbox : list Z; frame_size : list Z; frame_number : Z; detection_index : Z
}.

Record SummaryProduct := mkSummaryProduct {
  sum_text : string; summary_type : Z; source_ids : list string; start_time : option Timestamp;
  end_time : option Timestamp; word_count : Z
}.

Record ChatProduct := mkChatProduct {
  prompt : string; response : string; model_name : string; prompt_tokens : Z; completion_tokens : Z; total_tokens : Z;
  temperature : spec_float; top_p : spec_float; conversation_id : string; turn_number : Z; finish_reason : string
}.

Record AlertProduct := mkAlertProduct {
  alert_type : Z; severity : Z; alert_message : string; threshold : spec_float; actual_value : spec_float;
  related_ids : list string; acknowledged : bool
}.

Record EmbeddingProduct := mkEmbeddingProduct {
  vector : list spec_float; dimensions : Z; embedding_model : string; source_hash : string; normalized : bool
}.

Record SegmentationProduct := mkSegmentationProduct {
  mask_format : Z; mask_data : list Z; seg_width : Z; seg_height : Z; labels : list string; class_ids : list Z;
  instance_count : Z
}.

Record WordTimestamp := mkWordTimestamp {
  word : string; word_start_seconds : spec_float; word_end_seconds : spec_float; word_confidence : spec_float
}.

Record SpeakerSegment := mkSpeakerSegment {
  speaker_id : string; segment_start_seconds : spec_float; segment_end_seconds : spec_float; segment_text : string
}.

Record TranscriptionProduct := mkTranscriptionProduct {
  trans_text : string; language : string; trans_confidence : spec_float; duration_seconds : spec_float;
  words : list WordTimestamp; speakers : list SpeakerSegment
}.

Inductive Content :=
| Image (p : ImageProduct) | Classification (p : ClassificationProduct) | Detection (p : DetectionProduct)
| Summary (p : SummaryProduct) | Chat (p : ChatProduct) | Alert (p : AlertProduct) | Embedding (p : EmbeddingProduct)
| Segmentation (p : SegmentationProduct) | Transcription (p : TranscriptionProduct).

Record ModelSource := mkModelSource {
  ms_model_id : string; ms_model_version : string; ms_model_type : string; inference_latency_ms : spec_float
}.

Record Product := mkProduct {
  product_id : string;
  product_type : Z;
  source_node : string;
  product_timestamp : option Timestamp;
  model_source : option ModelSource;
  product_confidence : spec_float;
  product_track_id : string;
  product_position : option Position;
  content : option Content;
  product_attributes_json : string
}.

Definition confident (x : spec_float) : validation := reject (outside f32_zero f32_one x) (InvalidConfidence x).

Definition validate_image_data (d : ImageData) : validation :=
  match d with
  | Data bytes => reject (bool_decide (bytes = [])) (InvalidValue "image data must not be empty")
  | DataBase64 b64 => reject (is_empty b64) (InvalidValue "image data_base64 must not be empty")
  | Url url => all_of [reject (is_empty url) (InvalidValue "image url must not be empty");
                       reject (negb (str_contains "://" url)) (InvalidValue "image url must be a valid URL with scheme")]
  | BlobHash hash => reject (is_empty hash) (InvalidValue "image blob_hash must not be empty")
  end.

Definition validate_image_product (p : ImageProduct) : validation :=
  all_of [specified (img_format p) "image format must be specified";
          reject (img_width p =? 0) (InvalidValue "image width must be positive");
          reject (img_height p =? 0) (InvalidValue "image height must be positive");
          require (image_data p) (MissingField "image_data") validate_image_data].

Definition validate_classification_product (p : ClassificationProduct) : validation :=
  all_of [present (cls_label p) "label"; confident (cls_confidence p); each (fun s => confident (score s)) (top_k p)].

Definition validate_detection_product (p : DetectionProduct) : validation :=
  all_of [present (det_label p) "label";
          confident (det_confidence p);
          reject (negb (len (bbox p) =? 4)) (InvalidValue ("bbox must have 4 elements, got " +:+ pretty (len (bbox p))));
          reject (negb (len (frame_size p) =? 2))
            (InvalidValue ("frame_size must have 2 elements, got " +:+ pretty (len (frame_size p))))].

Definition validate_summary_product (p : SummaryProduct) : validation :=
  all_of [present (sum_text p) "text"; specified (summary_type p) "summary_type must be specified"].

Definition validate_alert_product (p : AlertProduct) : validation :=
  all_of [specified (alert_type p) "alert_type must be specified";
          specified (severity p) "severity must be specified";
          present (alert_message p) "message"].

Definition validate_embedding_product (p : EmbeddingProduct) : validation :=
  all_of [reject (bool_decide (vector p = [])) (MissingField "vector");
          reject (dimensions p =? 0) (InvalidValue "dimensions must be positive");
          reject (negb (len (vector p) =? dimensions p))
            (ConstraintViolation ("vector length " +:+ pretty (len (vector p)) +:+ " does not match dimensions " +:+
                                  pretty (dimensions p)));
          present (embedding_model p) "embedding_model"].

Definition validate_segmentation_product (p : SegmentationProduct) : validation :=
  all_of [reject (bool_decide (mask_data p = [])) (MissingField "mask_data");
          reject (seg_width p =? 0) (InvalidValue "width must be positive");
          reject (seg_height p =? 0) (InvalidValue "height must be positive")].

Definition validate_transcription_product (p : TranscriptionProduct) : validation :=
  all_of [present (trans_text p) "text";
          present (language p) "language";
          confident (trans_confidence p);
          reject (negative (duration_seconds p)) (InvalidValue "duration_seconds must be non-negative")].

Section Validate.
Context `{FloatText}.

Definition validate_chat_product (p : ChatProduct) : validation :=
  all_of [present (response p) "response";
          present (model_name p) "model_name";
          reject (negative (temperature p)) (InvalidValue "temperature must be non-negative");
          in_range f32_zero f32_one (top_p p) "top_p" "between 0.0 and 1.0"].

Definition validate_content (c : Content) : validation :=
  match c with
  | Image img => validate_image_product img
  | Classification cls => validate_classification_product cls
  | Detection det => validate_detection_product det
  | Summary sum => validate_summary_product sum
  | Chat chat => validate_chat_product chat
  | Alert alert => validate_alert_product alert
  | Embedding emb => validate_embedding_product emb
  | Segmentation seg => validate_segmentation_product seg
  | Transcription trans => validate_transcription_product trans
  end.

Definition validate_product (p : Product) : validation :=
  all_of [present (product_id p) "product_id";
          specified (product_type p) "product_type must be specified";
          present (source_node p) "source_node";
          given (product_timestamp p) "timestamp";
          confident (product_confidence p);
          if_some (model_source p) (fun s => present (ms_model_id s) "model_source.model_id");
          require (content p) (MissingField "content") validate_content].

(** The shape a consumer can rely on *)
Definition well_shaped (c : Content) : Prop :=
  match c with
  | Image p => img_width p <> 0 /\ img_height p <> 0 /\
      (forall u, image_data p = Some (Url u) -> exists scheme rest, u = scheme +:+ "://" +:+ rest)
  | Detection p => exists x y w h fw fh, bbox p = [x; y; w; h] /\ frame_size p = [fw; fh]
  | Embedding p => len (vector p) = dimensions p /\ vector p <> []
  | Segmentation p => mask_data p <> [] /\ seg_width p <> 0 /\ seg_height p <> 0
  | _ => True
  end.

Lemma len_exact {A} (l : list A) n : len l = Z.of_nat n -> length l = n.
Proof. unfold len. lia. Qed.

Lemma content_well_shaped c : validate_content c = Ok tt -> well_shaped c.
Proof.
  destruct c as [p|p|p|p|p|p|p|p|p]; cbn [validate_content well_shaped]; try done.
  - unfold validate_image_product. checks. intros (_ & Hw & Hh & (d & Hd & Hok) & _). split_and!; [done..|].
    intros u Hu. rewrite Hd in Hu. injection Hu as ->. revert Hok. cbn [validate_image_data]. checks.
    rewrite str_contains_spec. tauto.
  - unfold validate_detection_product. checks. intros (_ & _ & Hb & Hf & _).
    apply (len_exact _ 4) in Hb. apply (len_exact _ 2) in Hf.
    destruct (bbox p) as [|x [|y [|w [|h []]]]]; try done. destruct (frame_size p) as [|fw [|fh []]]; try done.
    by exists x, y, w, h, fw, fh.
  - unfold validate_embedding_product. checks. naive_solver.
  - unfold validate_segmentation_product. checks. naive_solver.
Qed.

(** An accepted product names its origin and time and carries a content of the shape
    its consumer indexes into: four numbers for a bounding box, two for the frame, as many
    components as an embedding has dimensions, an image that is not empty. *)
Theorem accepted_product_well_shaped p :
  validate_product p = Ok tt ->
  product_id p <> EmptyString /\ source_node p <> EmptyString /\ is_Some (product_timestamp p) /\
  exists c, content p = Some c /\ well_shaped c.
Proof.
  unfold validate_product. checks. intros (? & _ & ? & ? & _ & _ & (c & Hc & Hok) & _).
  split_and!; [done..|]. exists c. split; [done|]. by apply content_well_shaped.
Qed.

(** The content is documented to be valid for the product type, but any content passes
    under any type. *)
Theorem content_type_unchecked p ty :
  validate_product p = Ok tt -> ty <> 0 ->
  validate_product (mkProduct (product_id p) ty (source_node p) (product_timestamp p) (model_source p)
    (product_confidence p) (product_track_id p) (product_position p) (content p) (product_attributes_json p)) = Ok tt.
Proof. intros Hp Ht. revert Hp. unfold validate_product. checks. cbn. tauto. Qed.

End Validate.

Module SampleProduct.

#[local] Instance no_text : FloatText := fun _ => EmptyString.

Definition box : Product :=
  mkProduct "p1" 3 "n1" (timestamp_now 4) None (f32_lit 9 10) "T1" None
    (Some (Detection (mkDetectionProduct "truck" (f32_lit 8 10) [10; 20; 30; 40] [1920; 1080] 7 0))) "".

Lemma accepted_product_well_shaped_witness : exists c, content box = Some c /\ well_shaped c.
Proof. apply (accepted_product_well_shaped box). by vm_compute. Defined.

End SampleProduct.

End Products.

(** ** Detection tasks *)

Module Tasking.

Record DetectionFilter := mkDetectionFilter {
  min_confidence : spec_float; priority_classes : list string; ignore_classes : list string; min_bbox_area : Z;
  max_detections_per_frame : Z; min_report_interval_s : spec_float
}.

Record ChipoutConfig := mkChipoutConfig {
  chip_format : Z; jpeg_quality : Z; max_dimension : Z; padding_percent : spec_float; include_full_frame : bool;
  full_frame_jpeg_quality : Z; full_frame_max_dimension : Z
}.

Record TrackReportingConfig := mkTrackReportingConfig {
  mode : Z; min_position_change_m : spec_float; min_confidence_change : spec_float; max_report_interval_s : spec_float
}.

Record BatchingConfig := mkBatchingConfig {
  enabled : bool; max_batch_size : Z; max_batch_delay_s : spec_float; priority_bypasses_batch : bool
}.

Record ProductDelivery := mkProductDelivery {
  product_types : list Z;
  chipout_triggers : list Z;
  chipout_config : option ChipoutConfig;
  track_reporting : option TrackReportingConfig;
  batching : option BatchingConfig
}.

Inductive AreaOfInterest :=
| Circular (center : option Position) (radius_m : spec_float)
| Polygon (vertices : list Position)
| BoundingBox (northwest southeast : option Position).

Record RecurringSchedule := mkRecurringSchedule { interval_s : Z; active_duration_s : Z; max_recurrences : Z }.

Record TaskSchedule := mkTaskSchedule {
  sched_start : option Timestamp; sched_end : option Timestamp; duration_s : Z; recurring : option RecurringSchedule
}.

Record DetectionTask := mkDetectionTask {
  task_id : string;
  task_name : string;
  task_description : string;
  target_classes : list string;
  task_filter : option DetectionFilter;
  product_delivery : option ProductDelivery;
  area_of_interest : option (option AreaOfInterest);
  schedule : option TaskSchedule;
  task_priority : Z;
  issued_by : string;
  task_issued_at : option Timestamp;
  task_target_nodes : list string
}.

Record TaskStatistics := mkTaskStatistics {
  frames_processed : Z;
  total_detections : Z;
  reported_detections : Z;
  tracks_created : Z;
  tracks_active : Z;
  chipouts_generated : Z;
  products_sent : Z;
  avg_inference_time_ms : spec_float;
  avg_fps : spec_float;
  uptime_s : spec_float
}.

Record TaskStatus := mkTaskStatus {
  ts_task_id : string;
  ts_node_id : string;
  ts_state : Z;
  statistics : option TaskStatistics;
  ts_error_message : string;
  ts_updated_at : option Timestamp
}.

Inductive TaskControlAction := ControlUnspecified | Pause | Resume | Cancel | UpdateTask.

Definition action_to_i32 (a : TaskControlAction) : Z :=
  match a with ControlUnspecified => 0 | Pause => 1 | Resume => 2 | Cancel => 3 | UpdateTask => 4 end.

Record TaskControl := mkTaskControl {
  tc_task_id : string;
  tc_action : Z;
  updated_task : option DetectionTask;
  tc_issued_by : string;
  tc_issued_at : option Timestamp
}.

Definition validate_detection_filter (f : DetectionFilter) : validation :=
  all_of [Products.confident (min_confidence f);
          reject (negative (min_report_interval_s f)) (InvalidValue "min_report_interval_s must be non-negative")].

Definition validate_track_reporting_config (c : TrackReportingConfig) : validation :=
  all_of [specified (mode c) "track reporting mode must be specified";
          reject (negative (min_position_change_m c)) (InvalidValue "min_position_change_m must be non-negative");
          Products.confident (min_confidence_change c);
          reject (negative (max_report_interval_s c)) (InvalidValue "max_report_interval_s must be non-negative")].

Definition validate_batching_config (c : BatchingConfig) : validation :=
  reject (negative (max_batch_delay_s c)) (InvalidValue "max_batch_delay_s must be non-negative").

Definition validate_task_statistics (s : TaskStatistics) : validation :=
  all_of [reject (total_detections s <? reported_detections s)
            (ConstraintViolation "reported_detections cannot exceed total_detections");
          reject (negative (avg_inference_time_ms s)) (InvalidValue "avg_inference_time_ms must be non-negative");
          reject (negative (avg_fps s)) (InvalidValue "avg_fps must be non-negative");
          reject (negative (uptime_s s)) (InvalidValue "uptime_s must be non-negative")].

Definition validate_task_status (s : TaskStatus) : validation :=
  all_of [present (ts_task_id s) "task_id";
          present (ts_node_id s) "node_id";
          specified (ts_state s) "task state must be specified";
          given (ts_updated_at s) "updated_at";
          if_some (statistics s) validate_task_statistics].

Section Validate.
Context `{FloatText}.

Definition validate_chipout_config (c : ChipoutConfig) : validation :=
  all_of [reject (100 <? jpeg_quality c)
            (InvalidValue ("jpeg_quality " +:+ pretty (jpeg_quality c) +:+ " must be between 1 and 100"));
          in_range f32_zero f32_one (padding_percent c) "padding_percent" "between 0.0 and 1.0";
          reject (100 <? full_frame_jpeg_quality c)
            (InvalidValue ("full_frame_jpeg_quality " +:+ pretty (full_frame_jpeg_quality c) +:+
                           " must be between 1 and 100"))].

Definition validate_product_delivery (d : ProductDelivery) : validation :=
  all_of [if_some (chipout_config d) validate_chipout_config;
          if_some (track_reporting d) validate_track_reporting_config;
          if_some (batching d) validate_batching_config].

Definition validate_detection_task (t : DetectionTask) : validation :=
  all_of [present (task_id t) "task_id";
          present (task_name t) "name";
          specified (task_priority t) "priority must be specified";
          given (task_issued_at t) "issued_at";
          present (issued_by t) "issued_by";
          if_some (task_filter t) validate_detection_filter;
          if_some (product_delivery t) validate_product_delivery].

Definition validate_task_control (c : TaskControl) : validation :=
  all_of [present (tc_task_id c) "task_id";
          specified (tc_action c) "task control action must be specified";
          present (tc_issued_by c) "issued_by";
          given (tc_issued_at c) "issued_at";
          if tc_action c =? action_to_i32 UpdateTask then
            all_of [given (updated_task c) "updated_task (required for UPDATE action)";
                    if_some (updated_task c) validate_detection_task]
          else Ok tt].

(** An accepted update replaces a task by one that is itself valid, so that whatever
    controls are applied in order, the tasks in force stay valid. *)
Theorem controlled_tasks_stay_valid t controls :
  validate_detection_task t = Ok tt -> Forall (fun c => validate_task_control c = Ok tt) controls ->
  validate_detection_task
    (fold_left (fun t c => if tc_action c =? action_to_i32 UpdateTask then default t (updated_task c) else t) controls t) =
  Ok tt.
Proof.
  intros Ht Hall. revert t Ht. induction Hall as [|c controls Hc _ IH]; intros t Ht; [done|]. cbn [fold_left]. apply IH.
  revert Hc. unfold validate_task_control. checks. intros (_ & _ & _ & _ & Hu & _).
  destruct (_ =? _); [|done]. revert Hu. checks. intros ([t' Ht'] & Hok & _). rewrite Ht'. by apply Hok.
Qed.

(** The message asks for a quality between 1 and 100; 0 is accepted. *)
Theorem zero_jpeg_quality_accepted :
  validate_chipout_config (mkChipoutConfig 1 0 0 f32_zero false 0 0) = Ok tt.
Proof. done. Qed.

(** The task is documented to have a valid schedule; it is not looked at: one that ends
    before it starts is accepted. *)
Theorem reversed_schedule_accepted :
  validate_detection_task
    (mkDetectionTask "t1" "watch" "" [] None None None
       (Some (mkTaskSchedule (timestamp_now 100) (timestamp_now 50) 0 None)) 2 "ops" (timestamp_now 1) []) = Ok tt.
Proof. done. Qed.

(** A task control may name one task and update it with another. *)
Theorem update_may_rename_task :
  exists c t, validate_task_control c = Ok tt /\ updated_task c = Some t /\ task_id t <> tc_task_id c.
Proof.
  exists (mkTaskControl "t1" (action_to_i32 UpdateTask)
    (Some (mkDetectionTask "t2" "watch" "" [] None None None None 2 "ops" (timestamp_now 1) [])) "ops" (timestamp_now 1)).
  by eexists.
Qed.

End Validate.

Module SampleTasking.

#[local] Instance no_text : FloatText := fun _ => EmptyString.

Definition task (name : string) : DetectionTask :=
  mkDetectionTask "t1" name "" ["truck"]
    (Some (mkDetectionFilter (f32_lit 1 2) [] [] 0 10 f32_one)) None None None 2 "ops" (timestamp_now 1) ["n1"].
Definition controls : list TaskControl :=
  [mkTaskControl "t1" (action_to_i32 Pause) None "ops" (timestamp_now 2);
   mkTaskControl "t1" (action_to_i32 UpdateTask) (Some (task "watch the road")) "ops" (timestamp_now 3)].

Lemma controlled_tasks_stay_valid_witness :
  validate_detection_task
    (fold_left (fun t c => if tc_action c =? action_to_i32 UpdateTask then default t (updated_task c) else t) controls
       (task "watch")) = Ok tt.
Proof. apply (controlled_tasks_stay_valid (task "watch") controls); [by vm_compute|by repeat constructor]. Defined.

End SampleTasking.

End Tasking.
