(* ===== verification/Documents.v ===== *)
(** * Collaboration documents

    Models the validators of peat-schema/src/type_registry.rs (module descriptors) for the
    documents that are plain JSON: chat messages, overlay revisions, attachment offers and
    markers. Indexing a JSON object with a key it does not have panics; a computation is
    [None] when it panics, so that the absence of panics is a theorem and not a convention.
    Objects are lists of fields in the order their map iterates them.

    The theorems: no document makes a validator panic, and what accepted messages,
    revisions and offers guarantee, with attachment names that cannot leave their
    directory. *)

From S2P Require Import Prelude Float Capability Json Validation ProductValidation.
From Stdlib Require Import SpecFloat.
From stdpp Require Import pretty.

Open Scope Z_scope.

(** ** Computations that can fail or panic *)

Definition outcome (A : Type) : Type := option (result ValidationError A).

Definition ok {A} (a : A) : outcome A := Some (Ok a).
Definition err {A} (e : ValidationError) : outcome A := Some (Err e).

Definition and_then {A B} (m : outcome A) (f : A -> outcome B) : outcome B :=
  match m with Some (Ok a) => f a | Some (Err e) => Some (Err e) | None => None end.

Notation "'let!' x := m 'in' k" := (and_then m (fun x => k))
  (at level 10, x pattern, m at level 100, k at level 200) : peat_scope.

(** [o.ok_or_else(|| e)?] *)
Definition ok_or {A} (o : option A) (e : ValidationError) : outcome A :=
  match o with Some a => ok a | None => err e end.

(** [if bad { return Err(e) }] *)
Definition guard (bad : bool) (e : ValidationError) : outcome unit := if bad then err e else ok tt.

Fixpoint for_each {A} (f : A -> outcome unit) (l : list A) : outcome unit :=
  match l with [] => ok tt | x :: rest => let! _ := f x in for_each f rest end.

Abbreviation object_map := (list (string * Json)).

(** [obj[key]] *)
Definition index (obj : object_map) (key : string) : outcome Json :=
  match field key obj with Some v => ok v | None => None end.

Definition contains_key (obj : object_map) (key : string) : bool := bool_decide (is_Some (field key obj)).

(** [value.as_u64()] *)
Definition as_u64_value (v : Json) : option Z :=
  match v with JInt z => if decide (is_u64 z) then Some z else None | _ => None end.

(** [value.as_f64().filter(|n| n.is_finite())] *)
Definition finite_f64 (v : Json) : option spec_float :=
  match as_f64 v with
  | Some (S754_zero s) => Some (S754_zero s)
  | Some (S754_finite s m e) => Some (S754_finite s m e)
  | _ => None
  end.

(** [(lo..=hi).contains(&x)] *)
Definition range_contains (lo hi x : spec_float) : bool := SFleb lo x && SFleb x hi.

(** ** Limits *)

Definition MAX_ID_LEN : Z := 128.
Definition MAX_RECIPIENTS : Z := 64.
Definition MAX_RETENTION_MS : Z := 30 * 24 * 60 * 60 * 1000.
Definition MAX_FILE_BYTES : Z := 256 * 1024 * 1024.

(** ** Readers of JSON objects *)

Definition object (value : Json) (name : string) : outcome object_map :=
  match value with
  | JObject fields => ok fields
  | _ => err (InvalidValue (name +:+ " must be a JSON object"))
  end.

Definition exact_keys (obj : object_map) (required optional : list string) : outcome unit :=
  let! _ := for_each (fun f => guard (negb (contains_key obj f)) (MissingField f)) required in
  for_each (fun f => guard (negb (bool_decide (f ∈ required)) && negb (bool_decide (f ∈ optional)))
                       (InvalidValue ("unknown field " +:+ f))) obj.*1.

Definition bounded_string (obj : object_map) (f : string) (max : Z) : outcome string :=
  let! value := ok_or (field f obj) (MissingField f) in
  let! value := ok_or (as_str value) (InvalidValue (f +:+ " must be a string")) in
  let! _ := guard (is_empty value || (max <? str_len value))
              (ConstraintViolation (f +:+ " length must be between 1 and " +:+ pretty max +:+ " bytes")) in
  ok value.

Definition optional_bounded_string (obj : object_map) (f : string) (max : Z) : outcome unit :=
  if contains_key obj f then let! _ := bounded_string obj f max in ok tt else ok tt.

Definition unsigned (obj : object_map) (f : string) : outcome Z :=
  let! value := ok_or (field f obj) (MissingField f) in
  ok_or (as_u64_value value) (InvalidValue (f +:+ " must be an unsigned integer")).

Definition bounded_window (obj : object_map) (start_field end_field : string) : outcome unit :=
  let! start := unsigned obj start_field in
  let! stop := unsigned obj end_field in
  guard ((start =? 0) || (stop <=? start) || (MAX_RETENTION_MS <? stop - start))
    (ConstraintViolation (end_field +:+ " must be after " +:+ start_field +:+ " within 30 days")).

(** The loop over the recipients, with those read so far *)
Fixpoint read_recipients (seen : list string) (values : list Json) : outcome (list string) :=
  match values with
  | [] => ok seen
  | value :: rest =>
      let! recipient := ok_or (as_str value) (InvalidValue "audience recipients must be strings") in
      let! _ := guard (is_empty recipient || (MAX_ID_LEN <? str_len recipient) || bool_decide (recipient ∈ seen))
                  (ConstraintViolation "audience recipients must be unique bounded identities") in
      read_recipients (seen ++ [recipient]) rest
  end.

Definition audience (value : Json) : outcome unit :=
  let! obj := object value "audience" in
  let! _ := exact_keys obj ["kind"] ["recipients"; "group_id"]%string in
  let! kind := bounded_string obj "kind" 16 in
  let! recipients :=
    match field "recipients" obj with
    | None => ok []
    | Some (JArray values) =>
        if len values <=? MAX_RECIPIENTS then read_recipients [] values
        else err (ConstraintViolation ("audience supports at most " +:+ pretty MAX_RECIPIENTS +:+ " recipients"))
    | Some _ => err (InvalidValue "audience recipients must be an array")
    end in
  let mismatch := err (ConstraintViolation "audience fields do not match the declared kind") in
  if bool_decide (kind = "direct"%string) then
    if (len recipients =? 1) && negb (contains_key obj "group_id") then ok tt else mismatch
  else if bool_decide (kind = "group"%string) then
    if negb (bool_decide (recipients = [])) then let! _ := bounded_string obj "group_id" MAX_ID_LEN in ok tt else mismatch
  else if bool_decide (kind = "broadcast"%string) then
    if bool_decide (recipients = []) && negb (contains_key obj "group_id") then ok tt else mismatch
  else err (InvalidValue "audience kind must be direct, group, or broadcast").

Definition number (obj : object_map) (f : string) : outcome spec_float :=
  ok_or (v ← field f obj; finite_f64 v) (InvalidValue (f +:+ " must be finite")).

Definition coordinate (value : Json) : outcome unit :=
  let! obj := object value "coordinate" in
  let! _ := exact_keys obj ["latitude"; "longitude"]%string ["altitude_m"]%string in
  let! latitude := number obj "latitude" in
  let! longitude := number obj "longitude" in
  let! _ := guard (negb (range_contains (f64_neg 90) (f64_of_Z 90) latitude) ||
                   negb (range_contains (f64_neg 180) (f64_of_Z 180) longitude))
              (ConstraintViolation "coordinate is outside latitude/longitude bounds") in
  if contains_key obj "altitude_m" then let! _ := number obj "altitude_m" in ok tt else ok tt.

Definition geometry (value : Json) : outcome unit :=
  let! obj := object value "geometry" in
  let! kind := bounded_string obj "kind" 16 in
  if bool_decide (kind = "point"%string) then
    let! _ := exact_keys obj ["kind"; "point"]%string [] in
    let! point := index obj "point" in
    coordinate point
  else if bool_decide (kind ∈ ["line"; "polygon"; "route"]%string) then
    let! _ := exact_keys obj ["kind"; "points"]%string [] in
    let! points := index obj "points" in
    let! points := ok_or (as_array points) (InvalidValue "geometry points must be an array") in
    let minimum := if bool_decide (kind = "polygon"%string) then 3 else 2 in
    let! _ := guard ((len points <? minimum) || (4096 <? len points))
                (ConstraintViolation (kind +:+ " must contain " +:+ pretty minimum +:+ " to 4096 points")) in
    for_each coordinate points
  else if bool_decide (kind = "circle"%string) then
    let! _ := exact_keys obj ["kind"; "center"; "radius_m"]%string [] in
    let! center := index obj "center" in
    let! _ := coordinate center in
    let! radius := index obj "radius_m" in
    let! radius := ok_or (finite_f64 radius) (InvalidValue "radius_m must be finite") in
    guard (SFleb radius (f64_of_Z 0) || SFltb (f64_of_Z 10000000) radius)
      (ConstraintViolation "radius_m must be greater than zero and at most 10000000")
  else err (InvalidValue "geometry kind must be point, line, polygon, circle, or route").

(** [s.strip_prefix('#').unwrap_or("")] *)
Definition after_hash (s : string) : string :=
  match s with
  | String c rest => if Ascii.eqb c (Ascii.ascii_of_nat 35) then rest else EmptyString
  | EmptyString => EmptyString
  end.

Definition color (value : Json) (f : string) : outcome unit :=
  let! color := ok_or (as_str value) (InvalidValue (f +:+ " must be a string")) in
  let digits := after_hash color in
  guard (negb ((str_len digits =? 6) || (str_len digits =? 8)) || negb (str_all is_ascii_hexdigit digits))
    (InvalidValue (f +:+ " must be #RRGGBB or #AARRGGBB")).

Definition visual (value : Json) : outcome unit :=
  let! obj := object value "visual" in
  let! _ := exact_keys obj []
              ["title"; "color"; "icon_type"; "stroke_width"; "fill_color"; "remarks"; "visible"]%string in
  let! _ := optional_bounded_string obj "title" 256 in
  let! _ := optional_bounded_string obj "icon_type" 128 in
  let! _ := optional_bounded_string obj "remarks" 4096 in
  let! _ := for_each (fun f => match field f obj with Some value => color value f | None => ok tt end)
              ["color"; "fill_color"]%string in
  let! _ :=
    match field "stroke_width" obj with
    | Some value =>
        let! width := ok_or (finite_f64 value) (InvalidValue "stroke_width must be finite") in
        guard (negb (range_contains (f64_of_Z 0) (f64_of_Z 100) width))
          (ConstraintViolation "stroke_width must be between 0 and 100")
    | None => ok tt
    end in
  guard (match field "visible" obj with Some (JBool _) | None => false | Some _ => true end)
    (InvalidValue "visible must be boolean").

Definition sha256 (value : Json) (f : string) : outcome unit :=
  let! hash := ok_or (as_str value) (InvalidValue (f +:+ " must be a string")) in
  guard (negb (str_len hash =? 64) || negb (str_all is_ascii_hexdigit hash))
    (InvalidValue (f +:+ " must contain 64 hexadecimal SHA-256 characters")).

(** [byte.is_ascii_control() || byte.is_ascii_whitespace()] *)
Definition control_or_space (c : Ascii.ascii) : bool :=
  let n := Z.of_N (Ascii.N_of_ascii c) in (n <=? 32) || (n =? 127).

Definition media_type (obj : object_map) : outcome unit :=
  let! value := bounded_string obj "media_type" 127 in
  guard (negb (str_contains "/" value) || negb (str_all (fun c => negb (control_or_space c)) value))
    (InvalidValue "media_type must be a bounded type/subtype token").

(** A slash, a backslash or NUL *)
Definition separator (c : Ascii.ascii) : bool :=
  let n := Z.of_N (Ascii.N_of_ascii c) in (n =? 47) || (n =? 92) || (n =? 0).

Definition file_metadata (value : Json) (include_name : bool) : outcome Z :=
  let! obj := object value "file metadata" in
  let! _ :=
    if include_name then
      let! _ := exact_keys obj ["name"; "media_type"; "size_bytes"; "sha256"; "blob_ref"]%string [] in
      let! name := bounded_string obj "name" 255 in
      guard (bool_decide (name ∈ ["."; ".."]%string) || negb (str_all (fun c => negb (separator c)) name))
        (InvalidValue "name must be a safe basename")
    else exact_keys obj ["media_type"; "size_bytes"; "sha256"; "blob_ref"]%string [] in
  let! _ := media_type obj in
  let! size := unsigned obj "size_bytes" in
  let! _ := guard ((size =? 0) || (MAX_FILE_BYTES <? size))
              (ConstraintViolation ("size_bytes must be between 1 and " +:+ pretty MAX_FILE_BYTES)) in
  let! digest := index obj "sha256" in
  let! _ := sha256 digest "sha256" in
  let! _ := bounded_string obj "blob_ref" 512 in
  ok size.

(** ** Documents without a schema *)

Definition validate_geochat (value : Json) : outcome unit :=
  let! obj := object value "geochat document" in
  let! _ := exact_keys obj
              ["message_id"; "sender_id"; "audience"; "sent_at_ms"; "expires_at_ms"; "body"; "delivery_state"]%string
              ["thread_id"; "reply_to_id"]%string in
  let! _ := bounded_string obj "message_id" MAX_ID_LEN in
  let! _ := bounded_string obj "sender_id" MAX_ID_LEN in
  let! a := index obj "audience" in
  let! _ := audience a in
  let! _ := bounded_window obj "sent_at_ms" "expires_at_ms" in
  let! _ := bounded_string obj "body" 8192 in
  let! _ := optional_bounded_string obj "thread_id" MAX_ID_LEN in
  let! _ := optional_bounded_string obj "reply_to_id" MAX_ID_LEN in
  let! state := bounded_string obj "delivery_state" 16 in
  if bool_decide (state ∈ ["queued"; "sent"; "delivered"; "failed"; "expired"]%string) then ok tt
  else err (InvalidValue "delivery_state is not recognized").

Definition validate_overlay (value : Json) : outcome unit :=
  let! obj := object value "overlay revision" in
  let! _ := exact_keys obj
              ["overlay_id"; "revision_id"; "revision_seq"; "actor_id"; "owner_id"; "audience"; "source_time_ms";
               "deleted"]%string ["geometry"; "visual"]%string in
  let! _ := for_each (fun f => let! _ := bounded_string obj f MAX_ID_LEN in ok tt)
              ["overlay_id"; "revision_id"; "actor_id"; "owner_id"]%string in
  let! seq := unsigned obj "revision_seq" in
  let! bad := (if seq =? 0 then ok true else let! time := unsigned obj "source_time_ms" in ok (time =? 0)) in
  let! _ := guard bad (ConstraintViolation "revision_seq and source_time_ms must be positive") in
  let! a := index obj "audience" in
  let! _ := audience a in
  let! deleted := index obj "deleted" in
  let! deleted := ok_or (as_bool deleted) (InvalidValue "deleted must be boolean") in
  match deleted, field "geometry" obj, field "visual" obj with
  | false, Some geometry_value, Some visual_value =>
      let! _ := geometry geometry_value in
      visual visual_value
  | true, None, None => ok tt
  | _, _, _ =>
      err (ConstraintViolation
             "live revisions require complete geometry and visual state; tombstones omit both")
  end.

Definition validate_attachment (value : Json) : outcome unit :=
  let! obj := object value "attachment offer" in
  let! _ := exact_keys obj
              ["offer_id"; "sender_id"; "audience"; "created_at_ms"; "expires_at_ms"; "content_kind"; "relation";
               "file"]%string ["thumbnail"]%string in
  let! _ := bounded_string obj "offer_id" MAX_ID_LEN in
  let! _ := bounded_string obj "sender_id" MAX_ID_LEN in
  let! a := index obj "audience" in
  let! _ := audience a in
  let! _ := bounded_window obj "created_at_ms" "expires_at_ms" in
  let! content_kind := bounded_string obj "content_kind" 16 in
  let! _ := guard (negb (bool_decide (content_kind ∈ ["photo"; "file"]%string)))
              (InvalidValue "content_kind must be photo or file") in
  let! relation := index obj "relation" in
  let! relation := object relation "relation" in
  let! _ := exact_keys relation ["kind"]%string ["id"]%string in
  let! kind := bounded_string relation "kind" 16 in
  let! _ :=
    if bool_decide (kind = "none"%string) && negb (contains_key relation "id") then ok tt
    else if bool_decide (kind ∈ ["chat"; "overlay"]%string) then
      let! _ := bounded_string relation "id" MAX_ID_LEN in ok tt
    else err (InvalidValue "relation kind and id are inconsistent") in
  let! file := index obj "file" in
  let! file_size := file_metadata file true in
  if bool_decide (content_kind = "photo"%string) then
    match field "thumbnail" obj with
    | Some thumbnail =>
        let! thumbnail_size := file_metadata thumbnail false in
        guard (file_size <=? thumbnail_size) (ConstraintViolation "thumbnail must be smaller than the full photo")
    | None => err (MissingField "thumbnail")
    end
  else if bool_decide (content_kind = "file"%string) then
    match field "thumbnail" obj with
    | None => ok tt
    | Some _ => err (ConstraintViolation "arbitrary files do not carry photo thumbnails")
    end
  else None.

Definition validate_marker `{FloatText} (value : Json) : outcome unit :=
  let! obj := object value "marker document" in
  let! _ := for_each (fun f => guard (negb (contains_key obj f)) (MissingField f)) ["uid"; "type"; "lat"; "lon"]%string in
  let! lat := index obj "lat" in
  let! lat := ok_or (as_f64 lat) (InvalidValue "lat must be a number") in
  let! lon := index obj "lon" in
  let! lon := ok_or (as_f64 lon) (InvalidValue "lon must be a number") in
  let! _ := guard (negb (range_contains (f64_neg 90) (f64_of_Z 90) lat))
              (InvalidValue ("lat " +:+ float_text lat +:+ " must be between -90 and 90")) in
  guard (negb (range_contains (f64_neg 180) (f64_of_Z 180) lon))
    (InvalidValue ("lon " +:+ float_text lon +:+ " must be between -180 and 180")).

(** ** No panics *)

Definition total {A} (m : outcome A) : Prop := m <> None.

Lemma total_and_then {A B} (m : outcome A) (f : A -> outcome B) :
  total m -> (forall a, m = ok a -> total (f a)) -> total (and_then m f).
Proof. destruct m as [[a|e]|]; cbn; [|done|done]. intros _ Hf. by apply Hf. Qed.

Lemma total_some {A} (m : outcome A) : total m -> exists r, m = Some r.
Proof. destruct m; [by eexists|done]. Qed.

Lemma total_ok {A} (a : A) : total (ok a).
Proof. done. Qed.
Lemma total_err {A} e : total (err (A := A) e).
Proof. done. Qed.
Lemma total_ok_or {A} (o : option A) e : total (ok_or o e).
Proof. by destruct o. Qed.
Lemma total_guard b e : total (guard b e).
Proof. by destruct b. Qed.
Lemma total_for_each {A} (f : A -> outcome unit) l : (forall x, total (f x)) -> total (for_each f l).
Proof. intros Hf. induction l as [|x l IH]; [done|]. by apply total_and_then. Qed.
Lemma total_object v n : total (object v n).
Proof. by destruct v. Qed.

Create HintDb total.
#[export] Hint Resolve total_ok total_err total_ok_or total_guard total_object : total.

(** Walks through a computation; what is left are the indexing operations. *)
Ltac total_step :=
  match goal with
  | |- total (and_then _ _) => apply total_and_then; [|intros ? ?]
  | |- total (for_each _ _) => apply total_for_each; intros ?
  | |- total (if ?b then _ else _) => destruct b eqn:?
  | |- total (match ?o with Some _ => _ | None => _ end) => destruct o eqn:?
  | |- total (match ?o with JNull => _ | _ => _ end) => destruct o eqn:?
  | |- total _ => solve [auto with total]
  end.
Ltac total := repeat total_step.

Lemma guard_ok b e u : guard b e = ok u <-> b = false.
Proof. destruct b, u; cbn; unfold err, ok; naive_solver. Qed.

Lemma and_then_ok {A B} (m : outcome A) (f : A -> outcome B) b :
  and_then m f = ok b <-> exists a, m = ok a /\ f a = ok b.
Proof. unfold ok. destruct m as [[a|e]|]; cbn; naive_solver. Qed.

Lemma ok_or_ok {A} (o : option A) e a : ok_or o e = ok a <-> o = Some a.
Proof. destruct o; cbn; unfold ok, err; naive_solver. Qed.

Lemma ok_ok {A} (a b : A) : ok a = ok b <-> a = b.
Proof. unfold ok. naive_solver. Qed.

Lemma for_each_ok {A} (f : A -> outcome unit) l u : for_each f l = ok u <-> Forall (fun x => f x = ok tt) l.
Proof.
  destruct u. induction l as [|x l IH]; cbn [for_each]; [split; [constructor|done]|].
  rewrite and_then_ok, Forall_cons. setoid_rewrite IH. split; [intros ([] & ? & ?); done|intros [? ?]; by exists tt].
Qed.

Lemma contains_key_true obj k : contains_key obj k = true <-> is_Some (field k obj).
Proof. apply bool_decide_eq_true. Qed.

Lemma exact_keys_ok obj required optional u :
  exact_keys obj required optional = ok u -> forall k, k ∈ required -> is_Some (field k obj).
Proof.
  unfold exact_keys. rewrite and_then_ok. intros ([] & Hr & _) k Hk. apply for_each_ok in Hr.
  rewrite Forall_forall in Hr. specialize (Hr k Hk). by rewrite guard_ok, negb_false_iff, contains_key_true in Hr.
Qed.

Lemma total_index obj k : is_Some (field k obj) -> total (index obj k).
Proof. unfold index. by intros [v ->]. Qed.

Lemma total_exact_keys obj required optional : total (exact_keys obj required optional).
Proof. unfold exact_keys. total. Qed.
#[export] Hint Resolve total_exact_keys : total.

Lemma total_bounded_string obj f max : total (bounded_string obj f max).
Proof. unfold bounded_string. total. Qed.
#[export] Hint Resolve total_bounded_string : total.

Lemma total_optional_string obj f max : total (optional_bounded_string obj f max).
Proof. unfold optional_bounded_string. total. Qed.

Lemma total_unsigned obj f : total (unsigned obj f).
Proof. unfold unsigned. total. Qed.
#[export] Hint Resolve total_optional_string total_unsigned : total.

Lemma total_window obj s e : total (bounded_window obj s e).
Proof. unfold bounded_window. total. Qed.

Lemma total_recipients seen values : total (read_recipients seen values).
Proof. revert seen. induction values as [|v values IH]; intros seen; cbn [read_recipients]; total. Qed.
#[export] Hint Resolve total_window total_recipients : total.

Lemma total_audience v : total (audience v).
Proof. unfold audience. total. Qed.

Lemma total_coordinate v : total (coordinate v).
Proof. unfold coordinate, number. total. Qed.
#[export] Hint Resolve total_audience total_coordinate : total.

(** An indexing operation after [exact_keys] *)
Ltac indexed :=
  apply total_index;
  match goal with Hk : exact_keys ?o _ _ = ok _ |- is_Some (field _ ?o) => apply (exact_keys_ok _ _ _ _ Hk); set_solver end.

Lemma total_geometry v : total (geometry v).
Proof. unfold geometry. total; indexed. Qed.

Lemma total_visual v : total (visual v).
Proof. unfold visual, color. total. Qed.
#[export] Hint Resolve total_geometry total_visual : total.

Lemma total_file v b : total (file_metadata v b).
Proof.
  unfold file_metadata, media_type, sha256. total. apply total_index.
  destruct b; [|by eapply exact_keys_ok; [eassumption|set_solver]].
  match goal with H : and_then (exact_keys _ _ _) _ = _ |- _ => apply and_then_ok in H as (? & Hk & _) end.
  eapply exact_keys_ok; [eassumption|set_solver].
Qed.
#[export] Hint Resolve total_file : total.

(** C37: whatever JSON arrives, the validators of chat messages, overlay revisions,
    attachment offers and markers return a verdict; no indexing operation panics and no
    branch marked unreachable is reached. *)
Theorem validators_never_panic `{FloatText} v :
  (exists r, validate_geochat v = Some r) /\ (exists r, validate_overlay v = Some r) /\
  (exists r, validate_attachment v = Some r) /\ (exists r, validate_marker v = Some r).
Proof.
  enough (total (validate_geochat v) /\ total (validate_overlay v) /\ total (validate_attachment v) /\
          total (validate_marker v)) as (H1 & H2 & H3 & H4).
  { split_and!; by apply total_some. }
  split_and!.
  - unfold validate_geochat. total. indexed.
  - unfold validate_overlay. total; indexed.
  - unfold validate_attachment. total; try indexed. exfalso.
    match goal with H : guard _ _ = ok _ |- _ => rewrite guard_ok, negb_false_iff, bool_decide_eq_true in H end.
    repeat match goal with H : bool_decide _ = false |- _ => rewrite bool_decide_eq_false in H end. set_solver.
  - unfold validate_marker. total; apply total_index.
    all: match goal with H : for_each _ _ = ok _ |- _ => apply for_each_ok in H; rewrite Forall_forall in H end.
    all: match goal with H : forall x, _ |- is_Some (field ?k _) => specialize (H k ltac:(set_solver)) end.
    all: by match goal with H : guard _ _ = ok _ |- _ => rewrite guard_ok, negb_false_iff, contains_key_true in H end.
Qed.

(** ** What an accepted document guarantees *)

Create Rewrite HintDb accepted.
#[export] Hint Rewrite @and_then_ok guard_ok @ok_or_ok @ok_ok : accepted.

Definition string_at (obj : object_map) (k : string) : option string := v ← field k obj; as_str v.
Definition u64_at (obj : object_map) (k : string) : option Z := v ← field k obj; as_u64_value v.

(** Between one and [max] bytes *)
Definition bounded_text (max : Z) (s : string) : Prop := s <> EmptyString /\ str_len s <= max.

Lemma object_ok v n obj : object v n = ok obj <-> v = JObject obj.
Proof. destruct v; cbn; unfold ok, err; naive_solver. Qed.

Lemma bounded_string_ok obj f max s :
  bounded_string obj f max = ok s <-> string_at obj f = Some s /\ bounded_text max s.
Proof.
  unfold bounded_string, string_at, bounded_text. rewrite and_then_ok. setoid_rewrite ok_or_ok.
  destruct (field f obj) as [v|]; cbn; [|naive_solver].
  transitivity (as_str v = Some s /\ is_empty s || (max <? str_len s) = false).
  { split.
    - intros (w & [= <-] & Hs). apply and_then_ok in Hs as (t & Ht & Hs). rewrite ok_or_ok in Ht.
      apply and_then_ok in Hs as ([] & Hg & Hs). rewrite guard_ok in Hg. rewrite ok_ok in Hs. by subst.
    - intros [Hs Hg]. exists v. split; [done|]. rewrite Hs. cbn. by rewrite Hg. }
  rewrite orb_false_iff, is_empty_false, Z.ltb_ge. tauto.
Qed.

Lemma unsigned_ok obj f n : unsigned obj f = ok n <-> u64_at obj f = Some n.
Proof.
  unfold unsigned, u64_at. rewrite and_then_ok. setoid_rewrite ok_or_ok. destruct (field f obj); cbn; naive_solver.
Qed.

Lemma u64_at_range obj f n : u64_at obj f = Some n -> is_u64 n.
Proof.
  unfold u64_at. destruct (field f obj) as [[]|]; cbn; try done. case_decide; [|done]. by intros [= <-].
Qed.

Lemma bounded_window_ok obj s e u :
  bounded_window obj s e = ok u -> exists start stop, u64_at obj s = Some start /\ u64_at obj e = Some stop /\
    0 < start /\ start < stop <= start + MAX_RETENTION_MS.
Proof.
  unfold bounded_window. rewrite and_then_ok. intros (start & Hs & Hw). apply and_then_ok in Hw as (stop & He & Hw).
  rewrite unsigned_ok in Hs, He. rewrite guard_ok, !orb_false_iff, Z.eqb_neq, Z.leb_gt, Z.ltb_ge in Hw.
  exists start, stop. pose proof (u64_at_range _ _ _ Hs) as []. split_and!; [done|done|lia..].
Qed.

(** *** Audiences *)

Inductive Audience := Direct (recipient : string) | Group (group_id : string) (recipients : list string) | Everyone.

(** Distinct identities, at most [MAX_RECIPIENTS] *)
Definition identities (l : list string) : Prop :=
  NoDup l /\ len l <= MAX_RECIPIENTS /\ Forall (bounded_text MAX_ID_LEN) l.

Definition audience_wf (a : Audience) : Prop :=
  match a with
  | Direct r => bounded_text MAX_ID_LEN r
  | Group g l => bounded_text MAX_ID_LEN g /\ l <> [] /\ identities l
  | Everyone => True
  end.

(** Reference reading of an audience document *)
Definition audience_of (v : Json) : option Audience :=
  match v with
  | JObject obj =>
      let listed := default [] (v ← field "recipients" obj; l ← as_array v; mapM as_str l) in
      kind ← string_at obj "kind";
      if decide (kind = "direct"%string) then match listed with [r] => Some (Direct r) | _ => None end
      else if decide (kind = "group"%string) then g ← string_at obj "group_id"; Some (Group g listed)
      else if decide (kind = "broadcast"%string) then Some Everyone
      else None
  | _ => None
  end.

Lemma read_recipients_ok values seen l :
  read_recipients seen values = ok l -> NoDup seen -> Forall (bounded_text MAX_ID_LEN) seen ->
  exists new, mapM as_str values = Some new /\ l = seen ++ new /\ NoDup l /\ Forall (bounded_text MAX_ID_LEN) l.
Proof.
  revert seen. induction values as [|v values IH]; intros seen Hr Hn Hf; cbn [read_recipients] in Hr.
  { rewrite ok_ok in Hr. subst. exists []. by rewrite app_nil_r. }
  apply and_then_ok in Hr as (r & Hs & Hr). rewrite ok_or_ok in Hs. apply and_then_ok in Hr as ([] & Hg & Hr).
  rewrite guard_ok, !orb_false_iff, is_empty_false, Z.ltb_ge, bool_decide_eq_false in Hg. destruct Hg as [[He Hl] Hd].
  destruct (IH _ Hr) as (new & Hm & -> & Hn' & Hf').
  { by apply NoDup_snoc. } { apply Forall_app. split; [done|]. by repeat constructor. }
  exists (r :: new). cbn [mapM]. rewrite Hs. cbn. rewrite Hm. cbn. rewrite <- app_assoc in *. done.
Qed.

Lemma mapM_length {A B} (f : A -> option B) l k : mapM f l = Some k -> length k = length l.
Proof. intros Hm. apply mapM_Some_1, Forall2_length in Hm. done. Qed.

(** The recipients an accepted audience lists *)
Lemma listed_recipients obj l :
  match field "recipients" obj with
  | None => ok []
  | Some (JArray values) =>
      if len values <=? MAX_RECIPIENTS then read_recipients [] values
      else err (ConstraintViolation ("audience supports at most " +:+ pretty MAX_RECIPIENTS +:+ " recipients"))
  | Some _ => err (InvalidValue "audience recipients must be an array")
  end = ok l ->
  default [] (v ← field "recipients" obj; l ← as_array v; mapM as_str l) = l /\ identities l.
Proof.
  destruct (field "recipients" obj) as [[| | | | |values|]|]; try done.
  - destruct (len values <=? MAX_RECIPIENTS) eqn:E; [|done]. intros Hr.
    destruct (read_recipients_ok values [] l Hr) as (new & Hm & -> & Hn & Hf); [constructor|constructor|].
    cbn -[mapM]. rewrite Hm. split; [done|]. split_and!; [done| |done].
    unfold len in *. rewrite <- (mapM_length _ _ _ Hm) in E. cbn [app]. lia.
  - rewrite ok_ok. intros <-. split; [done|]. split_and!; [constructor| |constructor]. by vm_compute.
Qed.

Lemma audience_sound v : audience v = ok tt -> exists a, audience_of v = Some a /\ audience_wf a.
Proof.
  unfold audience. rewrite and_then_ok. intros (obj & ->%object_ok & Ha). apply and_then_ok in Ha as (_ & _ & Ha).
  apply and_then_ok in Ha as (kind & Hk & Ha). rewrite bounded_string_ok in Hk. destruct Hk as [Hk _].
  apply and_then_ok in Ha as (l & Hl & Ha). apply listed_recipients in Hl as [Hl Hid].
  unfold audience_of. rewrite Hl, Hk. cbn -[decide].
  destruct (decide (kind = "direct"%string)) as [Hd|Hd];
    [rewrite (bool_decide_eq_true_2 _ Hd) in Ha|rewrite (bool_decide_eq_false_2 _ Hd) in Ha].
  { assert (len l = 1) as E by (destruct (len l =? 1) eqn:E; [by apply Z.eqb_eq|done]). unfold len in E.
    destruct l as [|r [|r' l]]; cbn [length] in E; [lia| |lia]. exists (Direct r). split; [done|].
    destruct Hid as (_ & _ & Hid). by inversion Hid. }
  destruct (decide (kind = "group"%string)) as [Hg|Hg];
    [rewrite (bool_decide_eq_true_2 _ Hg) in Ha|rewrite (bool_decide_eq_false_2 _ Hg) in Ha].
  { destruct (decide (l = [])) as [->|Hne]; [done|]. rewrite bool_decide_eq_false_2 in Ha by done. cbn [negb] in Ha.
    apply and_then_ok in Ha as (g & Hs & _). rewrite bounded_string_ok in Hs. destruct Hs as [-> ?].
    by exists (Group g l). }
  destruct (decide (kind = "broadcast"%string)) as [Hb|Hb]; [by exists Everyone|].
  by rewrite (bool_decide_eq_false_2 _ Hb) in Ha.
Qed.

(** *** Chat messages *)

(** Steps through an accepted computation, naming what each step returned. *)
Ltac accept H :=
  repeat (apply and_then_ok in H; let Hs := fresh "Hs" in destruct H as (? & Hs & H)).

(** An accepted chat message names its sender, has a body of at most 8192 bytes and an
    audience of distinct bounded identities that fits its kind, and expires after it was
    sent and within 30 days; its delivery state is one of the five known. *)
Theorem accepted_chat_sound v :
  validate_geochat v = ok tt ->
  exists obj a aud sent expires sender body state,
    v = JObject obj /\ string_at obj "sender_id" = Some sender /\ bounded_text MAX_ID_LEN sender /\
    string_at obj "body" = Some body /\ bounded_text 8192 body /\
    field "audience" obj = Some a /\ audience_of a = Some aud /\ audience_wf aud /\
    u64_at obj "sent_at_ms" = Some sent /\ u64_at obj "expires_at_ms" = Some expires /\
    0 < sent < expires /\ expires <= sent + MAX_RETENTION_MS /\
    string_at obj "delivery_state" = Some state /\
    state ∈ ["queued"; "sent"; "delivered"; "failed"; "expired"]%string.
Proof.
  unfold validate_geochat. intros H. accept H.
  repeat match goal with
  | Hs : object _ _ = ok _ |- _ => apply object_ok in Hs
  | Hs : bounded_string _ _ _ = ok _ |- _ => apply bounded_string_ok in Hs as [??]
  | Hs : bounded_window _ _ _ = ok _ |- _ => apply bounded_window_ok in Hs as (? & ? & ? & ? & ? & ?)
  | u : unit |- _ => destruct u
  | Hs : audience _ = ok _ |- _ => apply audience_sound in Hs as (? & ? & ?)
  end.
  unfold index in *. destruct (field "audience" _) as [a|] eqn:Ea; [|done].
  match goal with Hs : ok a = ok _ |- _ => rewrite ok_ok in Hs; subst end.
  case_bool_decide; [|done]. do 8 eexists. split_and?; try eassumption; try done; lia.
Qed.

(** *** Attachments *)

Definition slash : Ascii.ascii := Ascii.ascii_of_nat 47.

(** The components of a path, on systems with slashes or backslashes *)
Fixpoint split_path (s : string) : list string :=
  match s with
  | EmptyString => [EmptyString]
  | String c rest =>
      let n := Z.of_N (Ascii.N_of_ascii c) in
      if (n =? 47) || (n =? 92) then EmptyString :: split_path rest
      else match split_path rest with p :: ps => String c p :: ps | [] => [String c EmptyString] end
  end.

Lemma split_path_cons s : exists p ps, split_path s = p :: ps.
Proof.
  destruct s as [|c s]; [by eexists _, _|]. cbn [split_path]. destruct (_ || _); [by eexists _, _|].
  destruct (split_path s); by eexists _, _.
Qed.

Lemma split_path_join dir name : split_path (dir +:+ String slash name) = split_path dir ++ split_path name.
Proof.
  induction dir as [|c dir IH]; [done|]. change (String c dir +:+ String slash name) with (String c (dir +:+ String slash name)).
  cbn [split_path]. rewrite IH. destruct (_ || _); [done|].
  destruct (split_path_cons dir) as (p & ps & ->). done.
Qed.

Lemma split_path_component name :
  str_all (fun c => negb (separator c)) name = true -> split_path name = [name].
Proof.
  unfold str_all. induction name as [|c name IH]; [done|]. cbn [String.list_ascii_of_string forallb].
  rewrite andb_true_iff, negb_true_iff. unfold separator. rewrite !orb_false_iff. intros [[[H1 H2] _] Ha].
  cbn [split_path]. by rewrite H1, H2, (IH Ha).
Qed.

Lemma sha256_ok v f u : sha256 v f = ok u -> exists h, as_str v = Some h /\ Model.is_digest h.
Proof.
  unfold sha256. rewrite and_then_ok. intros (h & Hh & Hg). rewrite ok_or_ok in Hh. rewrite guard_ok in Hg.
  rewrite orb_false_iff, !negb_false_iff, Z.eqb_eq in Hg. destruct Hg as [Hl Ha].
  exists h. split; [done|]. apply (Model.hex_decode_spec 32); [unfold str_len in Hl; lia|done].
Qed.

(** What every accepted description of a file says *)
Definition file_facts (v : Json) (size : Z) : Prop :=
  exists obj digest, v = JObject obj /\ u64_at obj "size_bytes" = Some size /\ 1 <= size <= MAX_FILE_BYTES /\
    string_at obj "sha256" = Some digest /\ Model.is_digest digest.

Lemma index_ok obj k v : index obj k = ok v <-> field k obj = Some v.
Proof. unfold index. destruct (field k obj); [|done]. rewrite ok_ok. naive_solver. Qed.

Lemma file_metadata_ok v b size : file_metadata v b = ok size -> file_facts v size.
Proof.
  unfold file_metadata. intros H. accept H. rewrite ok_ok in H. subst.
  repeat match goal with
  | Hs : object _ _ = ok _ |- _ => apply object_ok in Hs
  | Hs : unsigned _ _ = ok _ |- _ => apply unsigned_ok in Hs
  | Hs : guard _ _ = ok _ |- _ => rewrite guard_ok in Hs
  | Hs : sha256 _ _ = ok _ |- _ => apply sha256_ok in Hs as (? & ? & ?)
  | Hs : index _ _ = ok _ |- _ => apply index_ok in Hs
  end.
  match goal with Hu : u64_at _ _ = Some _ |- _ => pose proof (u64_at_range _ _ _ Hu) as [] end.
  eexists _, _. split_and?; [done|done|lia|lia| |done].
  unfold string_at. by match goal with Hf : field "sha256" _ = Some _ |- _ => rewrite Hf end.
Qed.

Lemma file_name_ok v size :
  file_metadata v true = ok size ->
  exists obj name, v = JObject obj /\ string_at obj "name" = Some name /\ bounded_text 255 name /\
    name <> "."%string /\ name <> ".."%string /\ str_all (fun c => negb (separator c)) name = true.
Proof.
  unfold file_metadata. rewrite and_then_ok. intros (obj & ->%object_ok & H). apply and_then_ok in H as (u & H & _).
  accept H. match goal with Hs : bounded_string _ _ _ = ok _ |- _ => apply bounded_string_ok in Hs as [? ?] end.
  rewrite guard_ok, orb_false_iff, negb_false_iff, bool_decide_eq_false in H. destruct H as [Hd Ha].
  eexists obj, _. split_and?; [done|done|done| | |done]; intros ->; apply Hd; set_solver.
Qed.

(** C38: an accepted attachment cannot be written outside the directory it is saved in: its
    name is one path component, not empty, not a dot nor two. Its size is between one byte
    and 256 MiB with a digest of 32 bytes; a photo has a strictly smaller thumbnail and a
    plain file none. *)
Theorem accepted_attachment_contained v dir :
  validate_attachment v = ok tt ->
  exists obj file fobj name size kind,
    v = JObject obj /\ field "file" obj = Some file /\ file = JObject fobj /\
    string_at fobj "name" = Some name /\
    split_path (dir +:+ String slash name) = split_path dir ++ [name] /\
    name <> EmptyString /\ name <> "."%string /\ name <> ".."%string /\ file_facts file size /\
    string_at obj "content_kind" = Some kind /\
    (kind = "photo"%string /\ (exists t tsize, field "thumbnail" obj = Some t /\ file_facts t tsize /\ tsize < size) \/
     kind = "file"%string /\ field "thumbnail" obj = None).
Proof.
  unfold validate_attachment. intros H. accept H.
  repeat match goal with
  | Hs : object v _ = ok _ |- _ => apply object_ok in Hs
  | Hs : bounded_string _ "content_kind" _ = ok _ |- _ => apply bounded_string_ok in Hs as [Hkind _]
  | Hs : index _ "file" = ok _ |- _ => apply index_ok in Hs
  end.
  match goal with Hm : file_metadata ?f true = ok ?n |- _ =>
    pose proof (file_metadata_ok _ _ _ Hm); apply file_name_ok in Hm as (fobj & name & Hf & Hn & [Hne _] & Hd & Hdd & Ha)
  end.
  eexists _, _, fobj, name, _, _. split_and?; [eassumption..| |done|done|done|eassumption|eassumption|].
  { by rewrite split_path_join, (split_path_component name Ha). }
  case_bool_decide as Hp; [left|right].
  - split; [done|]. destruct (field "thumbnail" _) as [t|]; [|done].
    apply and_then_ok in H as (ts & Ht%file_metadata_ok & Hg). rewrite guard_ok, Z.leb_gt in Hg. by exists t, ts.
  - case_bool_decide; [|done]. split; [done|]. by destruct (field "thumbnail" _).
Qed.

(** *** Overlay revisions *)

Lemma number_ok obj f x : number obj f = ok x -> exists v, field f obj = Some v /\ finite_f64 v = Some x.
Proof. unfold number. rewrite ok_or_ok. destruct (field f obj) as [v|]; [|done]. by exists v. Qed.

(** A coordinate with finite numbers on the globe *)
Definition on_map (v : Json) : Prop :=
  exists obj vlat lat vlon lon, v = JObject obj /\
    field "latitude" obj = Some vlat /\ finite_f64 vlat = Some lat /\ range_contains (f64_neg 90) (f64_of_Z 90) lat = true /\
    field "longitude" obj = Some vlon /\ finite_f64 vlon = Some lon /\
    range_contains (f64_neg 180) (f64_of_Z 180) lon = true.

Lemma coordinate_ok v : coordinate v = ok tt -> on_map v.
Proof.
  unfold coordinate. intros H. accept H.
  repeat match goal with
  | Hs : object _ _ = ok _ |- _ => apply object_ok in Hs
  | Hs : number _ _ = ok _ |- _ => apply number_ok in Hs as (? & ? & ?)
  | Hs : guard _ _ = ok _ |- _ => rewrite guard_ok, orb_false_iff, !negb_false_iff in Hs; destruct Hs
  end.
  do 5 eexists. split_and?; eassumption.
Qed.

(** The points of a geometry that has a list of them *)
Definition points_of (obj : object_map) : option (list Json) := v ← field "points" obj; as_array v.

Definition geometry_facts (v : Json) : Prop :=
  exists obj kind, v = JObject obj /\ string_at obj "kind" = Some kind /\
    (kind = "point"%string /\ (exists p, field "point" obj = Some p /\ on_map p) \/
     kind ∈ ["line"; "polygon"; "route"]%string /\
       (exists ps, points_of obj = Some ps /\ Forall on_map ps /\ 2 <= len ps <= 4096 /\ (kind = "polygon"%string -> 3 <= len ps)) \/
     kind = "circle"%string /\ (exists c, field "center" obj = Some c /\ on_map c)).

Lemma path_geometry_ok obj kind points :
  guard ((len points <? (if bool_decide (kind = "polygon"%string) then 3 else 2)) || (4096 <? len points))
    (ConstraintViolation (kind +:+ " must contain " +:+
       pretty (if bool_decide (kind = "polygon"%string) then 3 else 2) +:+ " to 4096 points")) = ok tt ->
  for_each coordinate points = ok tt -> points_of obj = Some points ->
  exists ps, points_of obj = Some ps /\ Forall on_map ps /\ 2 <= len ps <= 4096 /\ (kind = "polygon"%string -> 3 <= len ps).
Proof.
  rewrite guard_ok, orb_false_iff, !Z.ltb_ge, for_each_ok. intros [Hmin Hmax] Hall Hp. exists points.
  split_and!; [done| |case_bool_decide; lia|done|intros Hk; by rewrite bool_decide_eq_true_2 in Hmin].
  eapply Forall_impl; [exact Hall|]. intros x. apply coordinate_ok.
Qed.

Lemma geometry_ok v : geometry v = ok tt -> geometry_facts v.
Proof.
  unfold geometry. rewrite and_then_ok. intros (obj & ->%object_ok & H). apply and_then_ok in H as (kind & Hk & H).
  rewrite bounded_string_ok in Hk. destruct Hk as [Hk _]. exists obj, kind. split; [done|]. split; [done|].
  case_bool_decide as Hpt; [left|case_bool_decide as Hln; [right; left|right; right; case_bool_decide as Hc; [|done]]].
  - split; [done|]. apply and_then_ok in H as (_ & _ & H). apply and_then_ok in H as (p & Hp%index_ok & H).
    exists p. split; [done|]. by apply coordinate_ok.
  - split; [done|]. apply and_then_ok in H as (_ & _ & H). apply and_then_ok in H as (vp & Hp%index_ok & H).
    apply and_then_ok in H as (ps & Hps & H). rewrite ok_or_ok in Hps. apply and_then_ok in H as ([] & Hg & H).
    eapply path_geometry_ok; [exact Hg|exact H|]. unfold points_of. by rewrite Hp.
  - split; [done|]. apply and_then_ok in H as (_ & _ & H). apply and_then_ok in H as (c & Hc'%index_ok & H).
    apply and_then_ok in H as ([] & Hok & _). exists c. split; [done|]. by apply coordinate_ok.
Qed.

(** An accepted overlay revision has a positive sequence number and a readable
    audience; it is either live, with a geometry of points on the globe and a visual state,
    or a tombstone with neither. *)
Theorem accepted_overlay_sound v :
  validate_overlay v = ok tt ->
  exists obj a aud seq deleted,
    v = JObject obj /\ u64_at obj "revision_seq" = Some seq /\ 0 < seq /\
    field "audience" obj = Some a /\ audience_of a = Some aud /\ audience_wf aud /\
    field "deleted" obj = Some (JBool deleted) /\
    if (deleted : bool) then field "geometry" obj = None /\ field "visual" obj = None
    else exists g s, field "geometry" obj = Some g /\ geometry_facts g /\ field "visual" obj = Some s /\ visual s = ok tt.
Proof.
  unfold validate_overlay. rewrite and_then_ok. intros (obj & ->%object_ok & H).
  apply and_then_ok in H as (_ & _ & H). apply and_then_ok in H as (_ & _ & H).
  apply and_then_ok in H as (seq & Hseq%unsigned_ok & H). apply and_then_ok in H as (bad & Hbad & H).
  apply and_then_ok in H as ([] & Hg & H). rewrite guard_ok in Hg. subst bad.
  apply and_then_ok in H as (a & Ha%index_ok & H). apply and_then_ok in H as ([] & Haud & H).
  apply audience_sound in Haud as (aud & Hof & Hwf).
  apply and_then_ok in H as (dv & Hd%index_ok & H). apply and_then_ok in H as (deleted & Hb & H). rewrite ok_or_ok in Hb.
  exists obj, a, aud, seq, deleted. pose proof (u64_at_range _ _ _ Hseq) as [].
  split_and?; [done|done| |done|done|done|destruct dv; try discriminate Hb; by injection Hb as <-|].
  { destruct (seq =? 0) eqn:E; [done|]. apply Z.eqb_neq in E. lia. }
  destruct deleted, (field "geometry" obj) as [g|], (field "visual" obj) as [s|]; try done.
  apply and_then_ok in H as ([] & Hgeo%geometry_ok & Hv). by exists g, s.
Qed.

(** ** Examples *)

Module SampleDocuments.

Definition chat : Json :=
  JObject [("message_id", JString "m1"); ("sender_id", JString "alpha");
           ("audience", JObject [("kind", JString "direct"); ("recipients", JArray [JString "bravo"])]);
           ("sent_at_ms", JInt 1000); ("expires_at_ms", JInt 61000); ("body", JString "hold"); ("delivery_state", JString "sent")]%string.

Lemma accepted_chat_sound_witness :
  exists obj a aud sent expires sender body state,
    chat = JObject obj /\ string_at obj "sender_id" = Some sender /\ bounded_text MAX_ID_LEN sender /\
    string_at obj "body" = Some body /\ bounded_text 8192 body /\
    field "audience" obj = Some a /\ audience_of a = Some aud /\ audience_wf aud /\
    u64_at obj "sent_at_ms" = Some sent /\ u64_at obj "expires_at_ms" = Some expires /\
    0 < sent < expires /\ expires <= sent + MAX_RETENTION_MS /\
    string_at obj "delivery_state" = Some state /\
    state ∈ ["queued"; "sent"; "delivered"; "failed"; "expired"]%string.
Proof. apply (accepted_chat_sound chat). by vm_compute. Defined.

Definition digest : string := "0123456789abcdef0123456789ABCDEF0123456789abcdef0123456789abcdef".
Definition everyone : Json := JObject [("kind", JString "broadcast")]%string.
Definition document : Json :=
  JObject [("name", JString "map.pdf"); ("media_type", JString "application/pdf"); ("size_bytes", JInt 2048);
           ("sha256", JString digest); ("blob_ref", JString "blob-1")]%string.
Definition offer : Json :=
  JObject [("offer_id", JString "o1"); ("sender_id", JString "alpha"); ("audience", everyone); ("created_at_ms", JInt 1000);
           ("expires_at_ms", JInt 61000); ("content_kind", JString "file"); ("relation", JObject [("kind", JString "none")]);
           ("file", document)]%string.

Lemma accepted_attachment_contained_witness :
  exists obj file fobj name size kind,
    offer = JObject obj /\ field "file" obj = Some file /\ file = JObject fobj /\
    string_at fobj "name" = Some name /\
    split_path ("/var/peat" +:+ String slash name) = split_path "/var/peat" ++ [name] /\
    name <> EmptyString /\ name <> "."%string /\ name <> ".."%string /\ file_facts file size /\
    string_at obj "content_kind" = Some kind /\
    (kind = "photo"%string /\ (exists t tsize, field "thumbnail" obj = Some t /\ file_facts t tsize /\ tsize < size) \/
     kind = "file"%string /\ field "thumbnail" obj = None).
Proof. apply (accepted_attachment_contained offer "/var/peat"). by vm_compute. Defined.

Definition place (lat lon : Z) : Json := JObject [("latitude", JInt lat); ("longitude", JInt lon)]%string.
Definition revision : Json :=
  JObject [("overlay_id", JString "ov1"); ("revision_id", JString "r1"); ("revision_seq", JInt 3); ("actor_id", JString "alpha");
           ("owner_id", JString "alpha"); ("audience", everyone); ("source_time_ms", JInt 1000); ("deleted", JBool false);
           ("geometry", JObject [("kind", JString "polygon"); ("points", JArray [place 1 2; place 3 4; place (-5) 6])]);
           ("visual", JObject [("color", JString "#ff8800")])]%string.

Lemma accepted_overlay_sound_witness :
  exists obj a aud seq deleted,
    revision = JObject obj /\ u64_at obj "revision_seq" = Some seq /\ 0 < seq /\
    field "audience" obj = Some a /\ audience_of a = Some aud /\ audience_wf aud /\
    field "deleted" obj = Some (JBool deleted) /\
    if (deleted : bool) then field "geometry" obj = None /\ field "visual" obj = None
    else exists g s, field "geometry" obj = Some g /\ geometry_facts g /\ field "visual" obj = Some s /\ visual s = ok tt.
Proof. apply (accepted_overlay_sound revision). by vm_compute. Defined.

(** A name that climbs out of its directory is refused. *)
Example climbing_name_refused :
  file_metadata (JObject [("name", JString "../etc/passwd"); ("media_type", JString "text/plain"); ("size_bytes", JInt 1);
                          ("sha256", JString digest); ("blob_ref", JString "b")]%string) true =
  err (InvalidValue "name must be a safe basename").
Proof. by vm_compute. Qed.

(** A marker may have an empty or even a numeric identifier. *)
Example marker_identifier_unchecked :
  validate_marker (H := fun _ => EmptyString)
    (JObject [("uid", JInt 5); ("type", JNull); ("lat", JInt 0); ("lon", JInt 0)]%string) = ok tt.
Proof. by vm_compute. Qed.

End SampleDocuments.
