(* ===== verification/TypeRegistry.v ===== *)
(** * The runtime type registry

    Models peat-schema/src/type_registry.rs: the descriptors of the eleven document types
    with their fields and rendering hints, and the registry that finds them by identifier
    and by collection. The JSON form of the protobuf messages is generated by the build:
    deserializers and the JSON of the default values are the class [ProtoJson], with the
    documented round trip of a default value as its law. An iteration over a hash map has
    no fixed order; [iter] is used up to permutation.

    The theorems: every built-in type is found by its identifier and its collection, every
    reference from one descriptor to another resolves, a default document is always readable,
    and what registering over an existing type leaves behind. *)

From S2P Require Import Prelude Float Capability CellState Node Command Json Validation Documents.
From Stdlib Require Import SpecFloat.

Open Scope Z_scope.

(** ** Descriptors *)

Inductive FieldFormat :=
| Text
| Number (unit_ : option string)
| Percentage
| Boolean
| TimestampFormat
| PositionFormat
| EnumFormat (variants : list string)
| Nested (nested_type_id : string)
| List_ (item_format : FieldFormat)
| JsonString
| BlobRef.

Record FieldDescriptor := mkFieldDescriptor { fd_name : string; fd_label : string; fd_format : FieldFormat }.

Record TypeDescriptor := mkTypeDescriptor {
  td_id : string;
  td_name : string;
  td_version : string;
  canonical_collection : option string;
  validate_json : Json -> outcome unit;
  proto3_zero : Json;
  td_fields : list FieldDescriptor
}.

Definition default_proto3_zero : Json := JObject [].

(** [TypeDescriptor::new] *)
Definition descriptor_new (id name version : string) (validate : Json -> outcome unit) : TypeDescriptor :=
  mkTypeDescriptor id name version None validate default_proto3_zero [].

Definition DESERIALISE_ERROR_PREFIX : string := "could not deserialise as ".

(** Deserialise, then run the typed validator *)
Definition decoded {M} (de : Json -> result string M) (name : string) (validate : M -> validation) (value : Json)
  : outcome unit :=
  match de value with
  | Ok msg => Some (validate msg)
  | Err e => err (InvalidValue (DESERIALISE_ERROR_PREFIX +:+ name +:+ ": " +:+ e))
  end.

(** ** The registry *)

Record BuiltinRegistry := mkBuiltinRegistry {
  by_id : gmap string TypeDescriptor;
  by_collection : gmap string TypeDescriptor
}.

Definition registry_new : BuiltinRegistry := mkBuiltinRegistry ∅ ∅.

Definition register (r : BuiltinRegistry) (desc : TypeDescriptor) : BuiltinRegistry :=
  mkBuiltinRegistry (<[td_id desc := desc]> (by_id r))
    (match canonical_collection desc with
     | Some coll => <[coll := desc]> (by_collection r)
     | None => by_collection r
     end).

Definition get (r : BuiltinRegistry) (id : string) : option TypeDescriptor := by_id r !! id.
Definition for_collection (r : BuiltinRegistry) (coll : string) : option TypeDescriptor := by_collection r !! coll.
Definition iter (r : BuiltinRegistry) : list TypeDescriptor := (map_to_list (by_id r)).*2.

(** ** Built-in types *)

Class ProtoJson := {
  de_capability : Json -> result string Capability;
  de_node_config : Json -> result string NodeConfig;
  de_node_state : Json -> result string NodeState;
  de_cell_config : Json -> result string CellConfig;
  de_cell_state : Json -> result string CellState;
  de_track : Json -> result string Track;
  de_command : Json -> result string HierarchicalCommand;
  zero_capability : Json;
  zero_node_config : Json;
  zero_node_state : Json;
  zero_cell_config : Json;
  zero_cell_state : Json;
  zero_track : Json;
  zero_command : Json
}.

(** The JSON of a default value is read back as the default value. *)
Class ProtoJsonLaws `{ProtoJson} : Prop := {
  zero_capability_read : de_capability zero_capability = Ok (mkCapability "" "" 0 f32_zero "" None);
  zero_node_config_read : de_node_config zero_node_config = Ok (mkNodeConfig "" "" [] f32_zero f32_zero None None);
  zero_node_state_read : de_node_state zero_node_state = Ok (mkNodeState None 0 0 0 None None None None None);
  zero_cell_config_read : de_cell_config zero_cell_config = Ok (mkCellConfig "" 0 0 None);
  zero_cell_state_read : de_cell_state zero_cell_state = Ok (mkCellState None None [] [] None None);
  zero_track_read : de_track zero_track = Ok (mkTrack "" "" f32_zero None None 0 None "" None None 0 None None);
  zero_command_read : de_command zero_command = Ok (mkHierarchicalCommand "" "" None None 0 0 0 0 0 None None 0)
}.

Definition CAPABILITY_TYPE_VARIANTS : list string :=
  ["Unspecified"; "Sensor"; "Compute"; "Communication"; "Mobility"; "Payload"; "Emergent"]%string.
Definition HEALTH_STATUS_VARIANTS : list string :=
  ["Unspecified"; "Nominal"; "Degraded"; "Critical"; "Failed"]%string.
Definition PHASE_VARIANTS : list string := ["Unspecified"; "Discovery"; "Cell"; "Hierarchy"]%string.
Definition TRACK_STATE_VARIANTS : list string := ["Unspecified"; "Tentative"; "Confirmed"; "Lost"; "Dropped"]%string.
Definition SOURCE_TYPE_VARIANTS : list string := ["Unspecified"; "Sensor"; "AI Model"; "Human"; "Fused"]%string.
Definition PRIORITY_VARIANTS : list string := ["Unspecified"; "Routine"; "Priority"; "Immediate"; "Flash"]%string.
Definition BUFFER_POLICY_VARIANTS : list string :=
  ["Unspecified"; "Buffer and Retry"; "Drop on Partition"; "Require Immediate Delivery"]%string.
Definition CONFLICT_POLICY_VARIANTS : list string :=
  ["Unspecified"; "Last Write Wins"; "Highest Priority Wins"; "Highest Authority Wins"; "Merge Compatible"; "Reject Conflict"]%string.
Definition ACK_POLICY_VARIANTS : list string :=
  ["Unspecified"; "No Ack Required"; "Ack Required"; "Ack Majority Required"; "Ack Leader Only"]%string.

Definition marker_zero : Json :=
  JObject [("uid", JString ""); ("type", JString ""); ("lat", JFloat (S754_zero false)); ("lon", JFloat (S754_zero false));
           ("hae", JNull); ("ts", JInt 0); ("callsign", JNull); ("color", JNull); ("cell_id", JNull);
           ("deleted", JBool false)]%string.

Section Builtin.
Context `{ProtoJson, FloatText}.

Definition geochat_descriptor : TypeDescriptor :=
  mkTypeDescriptor "peat.collaboration.geochat.v1" "GeoChat" "v1" (Some "collaboration-geochat"%string)
    validate_geochat default_proto3_zero
    [mkFieldDescriptor "message_id" "Message ID" Text;
     mkFieldDescriptor "sender_id" "Sender" Text;
     mkFieldDescriptor "audience" "Audience" JsonString;
     mkFieldDescriptor "sent_at_ms" "Sent" TimestampFormat;
     mkFieldDescriptor "expires_at_ms" "Expires" TimestampFormat;
     mkFieldDescriptor "body" "Body" Text;
     mkFieldDescriptor "thread_id" "Thread" Text;
     mkFieldDescriptor "reply_to_id" "Reply To" Text;
     mkFieldDescriptor "delivery_state" "Delivery State" Text]%string.

Definition overlay_revision_descriptor : TypeDescriptor :=
  mkTypeDescriptor "peat.collaboration.overlay.revision.v1" "Overlay Revision" "v1" (Some "collaboration-overlay-revisions"%string)
    validate_overlay default_proto3_zero
    [mkFieldDescriptor "overlay_id" "Overlay ID" Text;
     mkFieldDescriptor "revision_id" "Revision ID" Text;
     mkFieldDescriptor "revision_seq" "Revision" (Number None);
     mkFieldDescriptor "actor_id" "Actor" Text;
     mkFieldDescriptor "owner_id" "Owner" Text;
     mkFieldDescriptor "audience" "Audience" JsonString;
     mkFieldDescriptor "source_time_ms" "Source Time" TimestampFormat;
     mkFieldDescriptor "deleted" "Deleted" Boolean;
     mkFieldDescriptor "geometry" "Geometry" JsonString;
     mkFieldDescriptor "visual" "Visual" JsonString]%string.

Definition attachment_offer_descriptor : TypeDescriptor :=
  mkTypeDescriptor "peat.collaboration.attachment.offer.v1" "Attachment Offer" "v1" (Some "collaboration-attachment-offers"%string)
    validate_attachment default_proto3_zero
    [mkFieldDescriptor "offer_id" "Offer ID" Text;
     mkFieldDescriptor "sender_id" "Sender" Text;
     mkFieldDescriptor "audience" "Audience" JsonString;
     mkFieldDescriptor "created_at_ms" "Created" TimestampFormat;
     mkFieldDescriptor "expires_at_ms" "Expires" TimestampFormat;
     mkFieldDescriptor "content_kind" "Content Kind" Text;
     mkFieldDescriptor "relation" "Relation" JsonString;
     mkFieldDescriptor "file" "File" BlobRef;
     mkFieldDescriptor "thumbnail" "Thumbnail" BlobRef]%string.

Definition capability_descriptor : TypeDescriptor :=
  mkTypeDescriptor "peat.capability.v1.Capability" "Capability" "v1" (Some "capabilities"%string)
    (decoded de_capability "Capability" validate_capability) zero_capability
    [mkFieldDescriptor "id" "ID" Text;
     mkFieldDescriptor "name" "Name" Text;
     mkFieldDescriptor "capability_type" "Type" (EnumFormat CAPABILITY_TYPE_VARIANTS);
     mkFieldDescriptor "confidence" "Confidence" Percentage;
     mkFieldDescriptor "metadata_json" "Metadata" JsonString;
     mkFieldDescriptor "registered_at" "Registered" TimestampFormat]%string.

Definition node_config_descriptor : TypeDescriptor :=
  mkTypeDescriptor "peat.node.v1.NodeConfig" "NodeConfig" "v1" (Some "node-configs"%string)
    (decoded de_node_config "NodeConfig" validate_node_config) zero_node_config
    [mkFieldDescriptor "id" "ID" Text;
     mkFieldDescriptor "node_type" "Node" Text;
     mkFieldDescriptor "capabilities" "Capabilities" (List_ (Nested "peat.capability.v1.Capability"));
     mkFieldDescriptor "comm_range_m" "Comm Range" (Number (Some "m"));
     mkFieldDescriptor "max_speed_mps" "Max Speed" (Number (Some "m/s"));
     mkFieldDescriptor "operator_binding" "Operator" JsonString;
     mkFieldDescriptor "created_at" "Created" TimestampFormat]%string.

Definition node_state_descriptor : TypeDescriptor :=
  mkTypeDescriptor "peat.node.v1.NodeState" "NodeState" "v1" (Some "node-states"%string)
    (decoded de_node_state "NodeState" validate_node_state) zero_node_state
    [mkFieldDescriptor "position" "Position" PositionFormat;
     mkFieldDescriptor "fuel_minutes" "Fuel" (Number (Some "min"));
     mkFieldDescriptor "health" "Health" (EnumFormat HEALTH_STATUS_VARIANTS);
     mkFieldDescriptor "phase" "Phase" (EnumFormat PHASE_VARIANTS);
     mkFieldDescriptor "cell_id" "Cell" Text;
     mkFieldDescriptor "zone_id" "Zone" Text;
     mkFieldDescriptor "timestamp" "Updated" TimestampFormat]%string.

Definition cell_config_descriptor : TypeDescriptor :=
  mkTypeDescriptor "peat.cell.v1.CellConfig" "CellConfig" "v1" (Some "cell-configs"%string)
    (decoded de_cell_config "CellConfig" validate_cell_config) zero_cell_config
    [mkFieldDescriptor "id" "ID" Text;
     mkFieldDescriptor "max_size" "Max Size" (Number None);
     mkFieldDescriptor "min_size" "Min Size" (Number None);
     mkFieldDescriptor "created_at" "Created" TimestampFormat]%string.

Definition cell_state_descriptor : TypeDescriptor :=
  mkTypeDescriptor "peat.cell.v1.CellState" "CellState" "v1" (Some "cell-states"%string)
    (decoded de_cell_state "CellState" validate_cell_state) zero_cell_state
    [mkFieldDescriptor "config" "Config" (Nested "peat.cell.v1.CellConfig");
     mkFieldDescriptor "leader_id" "Leader" Text;
     mkFieldDescriptor "members" "Members" (List_ Text);
     mkFieldDescriptor "capabilities" "Capabilities" (List_ (Nested "peat.capability.v1.Capability"));
     mkFieldDescriptor "cohort_id" "Cohort" Text;
     mkFieldDescriptor "timestamp" "Updated" TimestampFormat]%string.

Definition track_descriptor : TypeDescriptor :=
  mkTypeDescriptor "peat.track.v1.Track" "Track" "v1" (Some "tracks"%string)
    (decoded de_track "Track" validate_track) zero_track
    [mkFieldDescriptor "track_id" "Track ID" Text;
     mkFieldDescriptor "classification" "Classification" Text;
     mkFieldDescriptor "confidence" "Confidence" Percentage;
     mkFieldDescriptor "position" "Position" PositionFormat;
     mkFieldDescriptor "state" "State" (EnumFormat TRACK_STATE_VARIANTS);
     mkFieldDescriptor "source" "Source" JsonString;
     mkFieldDescriptor "source_type" "Source Type" (EnumFormat SOURCE_TYPE_VARIANTS);
     mkFieldDescriptor "attributes_json" "Attributes" JsonString;
     mkFieldDescriptor "first_seen" "First Seen" TimestampFormat;
     mkFieldDescriptor "last_seen" "Last Seen" TimestampFormat;
     mkFieldDescriptor "observation_count" "Observations" (Number None)]%string.

Definition hierarchical_command_descriptor : TypeDescriptor :=
  mkTypeDescriptor "peat.command.v1.HierarchicalCommand" "HierarchicalCommand" "v1" (Some "commands"%string)
    (decoded de_command "HierarchicalCommand" validate_hierarchical_command) zero_command
    [mkFieldDescriptor "command_id" "Command ID" Text;
     mkFieldDescriptor "originator_id" "Originator" Text;
     mkFieldDescriptor "target" "Target" JsonString;
     mkFieldDescriptor "priority" "Priority" (EnumFormat PRIORITY_VARIANTS);
     mkFieldDescriptor "buffer_policy" "Buffer Policy" (EnumFormat BUFFER_POLICY_VARIANTS);
     mkFieldDescriptor "conflict_policy" "Conflict Policy" (EnumFormat CONFLICT_POLICY_VARIANTS);
     mkFieldDescriptor "acknowledgment_policy" "Ack Policy" (EnumFormat ACK_POLICY_VARIANTS);
     mkFieldDescriptor "issued_at" "Issued" TimestampFormat;
     mkFieldDescriptor "expires_at" "Expires" TimestampFormat;
     mkFieldDescriptor "version" "Version" (Number None)]%string.

Definition marker_descriptor : TypeDescriptor :=
  mkTypeDescriptor "peat.marker.v1.Marker" "Marker" "v1" (Some "markers"%string)
    validate_marker marker_zero
    [mkFieldDescriptor "uid" "UID" Text;
     mkFieldDescriptor "type" "CoT Type" Text;
     mkFieldDescriptor "lat" "Latitude" (Number (Some "°"));
     mkFieldDescriptor "lon" "Longitude" (Number (Some "°"));
     mkFieldDescriptor "hae" "Altitude" (Number (Some "m HAE"));
     mkFieldDescriptor "ts" "Dropped" TimestampFormat;
     mkFieldDescriptor "callsign" "Callsign" Text;
     mkFieldDescriptor "cell_id" "Cell" Text]%string.

(** In the order of registration *)
Definition builtin_descriptors : list TypeDescriptor :=
  [capability_descriptor; node_config_descriptor; node_state_descriptor; cell_config_descriptor; cell_state_descriptor;
   track_descriptor; hierarchical_command_descriptor; marker_descriptor; geochat_descriptor; overlay_revision_descriptor;
   attachment_offer_descriptor].

Definition with_peat_schema_types : BuiltinRegistry := fold_left register builtin_descriptors registry_new.

(** ** Lookups *)

Lemma get_register r d k : get (register r d) k = if decide (k = td_id d) then Some d else get r k.
Proof.
  unfold get, register. cbn [by_id]. case_decide as E; [subst; apply lookup_insert_eq|by apply lookup_insert_ne].
Qed.

Lemma collection_register r d k :
  for_collection (register r d) k =
  if decide (canonical_collection d = Some k) then Some d else for_collection r k.
Proof.
  unfold for_collection, register. cbn [by_collection]. destruct (canonical_collection d) as [c|]; [|done].
  case_decide as E; [injection E as ->; apply lookup_insert_eq|]. apply lookup_insert_ne. congruence.
Qed.

Lemma find_app {A} (p : A -> bool) l k : find p (l ++ k) = match find p l with Some x => Some x | None => find p k end.
Proof. induction l as [|x l IH]; [done|]. cbn [app find]. by destruct (p x). Qed.

(** What a sequence of registrations leaves: the last one under each identifier and each
    collection *)
Lemma get_registered l r k :
  get (fold_left register l r) k = match find (fun d => bool_decide (td_id d = k)) (rev l) with Some d => Some d | None => get r k end.
Proof.
  revert r. induction l as [|d l IH]; intros r; [done|]. cbn [fold_left rev]. rewrite IH, get_register, find_app.
  destruct (find _ (rev l)); [done|]. cbn. case_bool_decide; case_decide; naive_solver.
Qed.

Lemma collection_registered l r k :
  for_collection (fold_left register l r) k =
  match find (fun d => bool_decide (canonical_collection d = Some k)) (rev l) with
  | Some d => Some d
  | None => for_collection r k
  end.
Proof.
  revert r. induction l as [|d l IH]; intros r; [done|]. cbn [fold_left rev]. rewrite IH, collection_register, find_app.
  destruct (find _ (rev l)); [done|]. cbn. case_bool_decide; case_decide; naive_solver.
Qed.

(** ** References between descriptors *)

Fixpoint nested_ids (f : FieldFormat) : list string :=
  match f with Nested i => [i] | List_ f => nested_ids f | _ => [] end.

(** The types a descriptor refers to *)
Definition references (d : TypeDescriptor) : list string := td_fields d ≫= (fun f => nested_ids (fd_format f)).

(** The built-in registry finds each of its eleven types by its identifier and by its
    collection, no two share either, every type a field refers to is in it, and no type
    lists a field twice. *)
Theorem builtin_registry_closed d :
  d ∈ builtin_descriptors ->
  get with_peat_schema_types (td_id d) = Some d /\
  (exists c, canonical_collection d = Some c /\ for_collection with_peat_schema_types c = Some d) /\
  (forall i, i ∈ references d -> exists d', d' ∈ builtin_descriptors /\ get with_peat_schema_types i = Some d') /\
  NoDup (fd_name <$> td_fields d).
Proof.
  unfold with_peat_schema_types. setoid_rewrite get_registered. setoid_rewrite collection_registered.
  assert (NoDup (fd_name <$> td_fields d) <-> bool_decide (NoDup (fd_name <$> td_fields d)) = true) as ->
    by (by rewrite bool_decide_eq_true).
  intros Hd. unfold builtin_descriptors in Hd. repeat (apply elem_of_cons in Hd as [->|Hd]); [..|by apply not_elem_of_nil in Hd].
  all: split_and!; [done|by eexists|  |by vm_compute].
  all: intros i Hi; cbn in Hi; repeat (apply elem_of_cons in Hi as [->|Hi]); try by apply not_elem_of_nil in Hi.
  all: eexists; split; [|by cbn]; set_solver.
Qed.

(** The default document of every built-in type is readable: its validator accepts it
    or asks for a field the type lists, and never reports a document it could not
    deserialise. *)
Theorem default_documents_readable `{!ProtoJsonLaws} d :
  d ∈ builtin_descriptors ->
  validate_json d (proto3_zero d) = ok tt \/
  exists f, f ∈ (fd_name <$> td_fields d) /\ validate_json d (proto3_zero d) = err (MissingField f).
Proof.
  intros Hd. unfold builtin_descriptors in Hd.
  assert (forall f, is_Some (find (String.eqb f) (fd_name <$> td_fields d)) -> f ∈ (fd_name <$> td_fields d)) as Hin.
  { intros f [g Hg]. apply find_some in Hg as [Hg ->%String.eqb_eq]. by apply list_elem_of_In. }
  repeat (apply elem_of_cons in Hd as [->|Hd]); [..|by apply not_elem_of_nil in Hd].
  all: cbn [validate_json proto3_zero td_fields capability_descriptor node_config_descriptor node_state_descriptor
            cell_config_descriptor cell_state_descriptor track_descriptor hierarchical_command_descriptor marker_descriptor
            geochat_descriptor overlay_revision_descriptor attachment_offer_descriptor]; unfold decoded.
  1: rewrite zero_capability_read. 2: rewrite zero_node_config_read. 3: rewrite zero_node_state_read.
  4: rewrite zero_cell_config_read. 5: rewrite zero_cell_state_read. 6: rewrite zero_track_read.
  7: rewrite zero_command_read.
  all: try (left; by vm_compute).
  all: right; eexists; split; [|reflexivity]; apply Hin.
  all: by eexists.
Qed.

(** ** Registering over a type *)

(** A type registered again under another collection is found there and by its identifier,
    but its old collection still leads to the descriptor it replaced. *)
Theorem replaced_descriptor_lingers r d d' c c' :
  td_id d' = td_id d -> canonical_collection d = Some c -> canonical_collection d' = Some c' -> c <> c' ->
  let r' := register (register r d) d' in
  get r' (td_id d) = Some d' /\ for_collection r' c' = Some d' /\ for_collection r' c = Some d.
Proof.
  intros Hid Hc Hc' Hne. cbn zeta. rewrite get_register, !collection_register, Hc, Hc', Hid.
  split_and!; repeat case_decide; congruence.
Qed.

End Builtin.

(** ** Examples *)

Module SampleRegistry.

#[local] Instance no_text : FloatText := fun _ => EmptyString.

(** A deserializer that reads every document as the default value *)
#[local] Instance default_reader : ProtoJson := {|
  de_capability _ := Ok (mkCapability "" "" 0 f32_zero "" None);
  de_node_config _ := Ok (mkNodeConfig "" "" [] f32_zero f32_zero None None);
  de_node_state _ := Ok (mkNodeState None 0 0 0 None None None None None);
  de_cell_config _ := Ok (mkCellConfig "" 0 0 None);
  de_cell_state _ := Ok (mkCellState None None [] [] None None);
  de_track _ := Ok (mkTrack "" "" f32_zero None None 0 None "" None None 0 None None);
  de_command _ := Ok (mkHierarchicalCommand "" "" None None 0 0 0 0 0 None None 0);
  zero_capability := JObject []; zero_node_config := JObject []; zero_node_state := JObject [];
  zero_cell_config := JObject []; zero_cell_state := JObject []; zero_track := JObject []; zero_command := JObject []
|}.

#[local] Instance default_reader_laws : ProtoJsonLaws (H := default_reader).
Proof. by split. Qed.

Lemma builtin_registry_closed_witness : get with_peat_schema_types "peat.track.v1.Track" = Some track_descriptor.
Proof. apply (builtin_registry_closed track_descriptor). do 5 right. by left. Defined.

Lemma default_documents_readable_witness :
  validate_json track_descriptor (proto3_zero track_descriptor) = ok tt \/
  exists f, f ∈ (fd_name <$> td_fields track_descriptor) /\
    validate_json track_descriptor (proto3_zero track_descriptor) = err (MissingField f).
Proof. apply (default_documents_readable track_descriptor). do 5 right. by left. Defined.

End SampleRegistry.
