(* ===== verification/PendingOrigins.v ===== *)
(** * In-flight origins

    Models peat-protocol/src/sync/pending_origins.rs: the bounded map from document keys to
    first-in-first-out queues of origins that a write leaves for the observer of its
    notification. The clock is an argument of each operation, in nanoseconds. The order a
    hash map is iterated in is the class [QueueOrder]; it decides only between entries of
    the same age.

    The theorems: the map holds at most [MAX_ENTRIES] entries and none that has outlived
    its time when an entry is stashed; what is evicted is the oldest; and a burst that fits
    the bounds is a plain queue per key, each notification recovering the origin of its own
    write. *)

From S2P Require Import Prelude.

Open Scope Z_scope.

Definition MAX_ENTRIES : Z := 1024.

(** 30 s *)
Definition DEFAULT_TTL : Z := 30 * 10 ^ 9.

Record Entry := mkEntry { origin : option string; inserted_at : Z }.

Abbreviation queues := (gmap string (list Entry)).

Record PendingOrigins := mkPendingOrigins { map_ : queues; ttl : Z }.

Definition with_ttl (ttl : Z) : PendingOrigins := mkPendingOrigins ∅ ttl.
Definition origins_new : PendingOrigins := with_ttl DEFAULT_TTL.

(** [now.saturating_duration_since(t) > ttl] *)
Definition expired (now ttl : Z) (e : Entry) : bool := ttl <? saturating_sub now (inserted_at e).

(** The loop that pops expired entries from the front *)
Fixpoint sweep_queue (now ttl : Z) (q : list Entry) : list Entry :=
  match q with
  | [] => []
  | front :: rest => if expired now ttl front then sweep_queue now ttl rest else q
  end.

(** [map.retain(...)]: queues left empty are removed. *)
Definition sweep_expired (m : queues) (now ttl : Z) : queues :=
  omap (fun q => match sweep_queue now ttl q with [] => None | q' => Some q' end) m.

(** Replace a queue, removing it when it is empty *)
Definition put_queue (k : string) (q : list Entry) (m : queues) : queues :=
  match q with [] => delete k m | _ => <[k := q]> m end.

Definition total (m : queues) : Z := Z.of_nat (length (map_to_list m ≫= snd)).

Class QueueOrder := {
  iter_queues : queues -> list (string * list Entry);
  iter_queues_perm m : iter_queues m ≡ₚ map_to_list m
}.

Section Origins.
Context `{QueueOrder}.

(** [filter_map(front).min_by_key(time)]: the first of the least *)
Fixpoint oldest_front (l : list (string * list Entry)) : option (string * Z) :=
  match l with
  | [] => None
  | (_, []) :: rest => oldest_front rest
  | (k, e :: _) :: rest =>
      match oldest_front rest with
      | Some (k', t') => if inserted_at e <=? t' then Some (k, inserted_at e) else Some (k', t')
      | None => Some (k, inserted_at e)
      end
  end.

(** The loop over the overage *)
Fixpoint evict (overage : nat) (m : queues) : queues :=
  match overage with
  | O => m
  | S n =>
      match oldest_front (iter_queues m) with
      | None => m
      | Some (k, _) =>
          match m !! k with
          | None => m
          | Some q => evict n (put_queue k (tail q) m)
          end
      end
  end.

Definition cap_total (m : queues) (max : Z) : queues :=
  if total m <=? max then m else evict (Z.to_nat (total m - max)) m.

Definition insert_origin (now : Z) (p : PendingOrigins) (doc_key : string) (o : option string) : PendingOrigins :=
  let m := sweep_expired (map_ p) now (ttl p) in
  let m := <[doc_key := default [] (m !! doc_key) ++ [mkEntry o now]]> m in
  mkPendingOrigins (cap_total m MAX_ENTRIES) (ttl p).

Definition pop (now : Z) (p : PendingOrigins) (doc_key : string) : option string * PendingOrigins :=
  match map_ p !! doc_key with
  | None => (None, p)
  | Some [] => (None, p)
  | Some (entry :: queue) =>
      let p' := mkPendingOrigins (put_queue doc_key queue (map_ p)) (ttl p) in
      if expired now (ttl p) entry then (None, p') else (origin entry, p')
  end.

(** ** Entries of a map *)

Definition entries (m : queues) : list Entry := map_to_list m ≫= snd.

Lemma entries_split m k q : m !! k = Some q -> entries m ≡ₚ q ++ entries (delete k m).
Proof. intros Hk. unfold entries. by rewrite <- (map_to_list_delete m k q Hk). Qed.

Lemma entries_insert m k q : entries (<[k := q]> m) ≡ₚ q ++ entries (delete k m).
Proof.
  rewrite (entries_split _ k q) by apply lookup_insert_eq. by rewrite delete_insert_eq.
Qed.

Lemma entries_put m k q : entries (put_queue k q m) ≡ₚ q ++ entries (delete k m).
Proof. destruct q; [done|]. apply entries_insert. Qed.

Lemma elem_of_entries m e : e ∈ entries m <-> exists k q, m !! k = Some q /\ e ∈ q.
Proof.
  unfold entries. rewrite list_elem_of_bind. split.
  - intros ([k q] & He & Hin). apply elem_of_map_to_list in Hin. by exists k, q.
  - intros (k & q & Hk & He). exists (k, q). by rewrite elem_of_map_to_list.
Qed.

Lemma total_entries m : total m = len (entries m).
Proof. done. Qed.

(** ** Well-formed maps *)

Definition by_age : Entry -> Entry -> Prop := fun a b => inserted_at a <= inserted_at b.

(** Queues are not empty and in the order of time, nothing is from the future. *)
Definition queues_wf (now : Z) (m : queues) : Prop :=
  forall k q, m !! k = Some q -> q <> [] /\ StronglySorted by_age q /\ Forall (fun e => inserted_at e <= now) q.

Lemma queues_wf_later now now' m : now <= now' -> queues_wf now m -> queues_wf now' m.
Proof.
  intros Hle Hwf k q Hk. destruct (Hwf k q Hk) as (? & ? & Hf). split_and!; [done..|].
  eapply Forall_impl; [exact Hf|]. cbn. intros. lia.
Qed.

Lemma put_wf now m k q :
  queues_wf now m -> StronglySorted by_age q -> Forall (fun e => inserted_at e <= now) q -> queues_wf now (put_queue k q m).
Proof.
  intros Hwf Hs Hf k' q'. destruct q as [|e q]; cbn [put_queue].
  - rewrite lookup_delete_Some. intros [_ Hk]. by apply (Hwf k').
  - rewrite lookup_insert_Some. intros [[<- <-]|[_ Hk]]; [by split_and!|by apply (Hwf k')].
Qed.

(** In a queue ordered by time the sweep removes exactly the expired entries. *)
Lemma sweep_queue_filter now t q :
  StronglySorted by_age q -> sweep_queue now t q = filter (fun e => expired now t e = false) q.
Proof.
  induction 1 as [|e q Hs IH Hf]; [done|]. cbn [sweep_queue]. destruct (expired now t e) eqn:E.
  - rewrite filter_cons_False by congruence. done.
  - rewrite filter_cons_True by done. f_equal. symmetry. apply list_filter_all.
    rewrite Forall_forall in Hf. intros a Ha%Hf. unfold by_age, expired, saturating_sub in *. lia.
Qed.

Lemma sweep_lookup m now t k :
  sweep_expired m now t !! k = m !! k ≫= (fun q => match sweep_queue now t q with [] => None | q' => Some q' end).
Proof. apply lookup_omap. Qed.

Lemma Forall_filter {A} (P Q : A -> Prop) `{forall x, Decision (P x)} l : Forall Q l -> Forall Q (filter P l).
Proof. rewrite !Forall_forall. intros Hq x [_ Hx]%list_elem_of_filter. by apply Hq. Qed.

Lemma StronglySorted_filter {A} (R : A -> A -> Prop) (P : A -> Prop) `{forall x, Decision (P x)} l :
  StronglySorted R l -> StronglySorted R (filter P l).
Proof.
  induction 1 as [|x l Hs IH Hf]; [constructor|]. destruct (decide (P x)).
  - rewrite filter_cons_True by done. constructor; [done|]. by apply Forall_filter.
  - by rewrite filter_cons_False.
Qed.

Lemma sweep_wf now now' t m : queues_wf now m -> queues_wf now (sweep_expired m now' t).
Proof.
  intros Hwf k q. rewrite sweep_lookup. destruct (m !! k) as [q0|] eqn:Hk; [|done]. cbn.
  destruct (Hwf k q0 Hk) as (_ & Hs & Hf). rewrite sweep_queue_filter by done.
  pose proof (StronglySorted_filter by_age (fun e => expired now' t e = false) q0 Hs) as Hs'.
  pose proof (Forall_filter (fun e => expired now' t e = false) _ q0 Hf) as Hf'.
  destruct (filter _ q0); [done|]. intros [= <-]. by split_and!.
Qed.

(** ** Eviction *)

Lemma oldest_front_spec l :
  match oldest_front l with
  | Some (k, t) => exists e q, (k, e :: q) ∈ l /\ inserted_at e = t /\
      forall k' e' q', (k', e' :: q') ∈ l -> t <= inserted_at e'
  | None => forall k q, (k, q) ∈ l -> q = []
  end.
Proof.
  induction l as [|[k [|e q]] l IH]; cbn [oldest_front].
  - intros k q []%not_elem_of_nil.
  - destruct (oldest_front l) as [[k' t]|].
    + destruct IH as (e & q & Hin & Ht & Hmin). exists e, q. split_and!; [by right|done|].
      intros k0 e0 q0 [[= ]|Hin0]%elem_of_cons. by eapply Hmin.
    + intros k0 q0 [[= -> ->]|Hin0]%elem_of_cons; [done|by eapply IH].
  - destruct (oldest_front l) as [[k' t]|].
    + destruct IH as (e' & q' & Hin & Ht & Hmin). destruct (inserted_at e <=? t) eqn:E.
      * exists e, q. split_and!; [by left|done|]. intros k0 e0 q0 [[= -> -> ->]|Hin0]%elem_of_cons; [done|].
        apply Hmin in Hin0. lia.
      * exists e', q'. split_and!; [by right|done|]. intros k0 e0 q0 [[= -> -> ->]|Hin0]%elem_of_cons; [lia|by eapply Hmin].
    + exists e, q. split_and!; [by left|done|]. intros k0 e0 q0 [[= -> -> ->]|Hin0]%elem_of_cons; [done|].
      by apply IH in Hin0.
Qed.

(** One turn of the loop takes the oldest entry of all. *)
Lemma oldest_entry now m :
  queues_wf now m -> entries m <> [] ->
  exists k e q, (exists t, oldest_front (iter_queues m) = Some (k, t)) /\ m !! k = Some (e :: q) /\
    entries m ≡ₚ e :: entries (put_queue k q m) /\ forall x, x ∈ entries m -> inserted_at e <= inserted_at x.
Proof.
  intros Hwf Hne. pose proof (oldest_front_spec (iter_queues m)) as Hspec.
  assert (forall k q, (k, q) ∈ iter_queues m <-> m !! k = Some q) as Hiter.
  { intros k q. by rewrite iter_queues_perm, elem_of_map_to_list. }
  destruct (oldest_front (iter_queues m)) as [[k t]|].
  - destruct Hspec as (e & q & Hin & <- & Hmin). apply Hiter in Hin. exists k, e, q.
    split_and!; [by exists (inserted_at e)|done| |].
    { by rewrite (entries_split m k (e :: q) Hin), entries_put. }
    intros x (k' & q' & Hk' & Hx)%elem_of_entries. destruct (Hwf k' q' Hk') as (Hn & Hs & _).
    destruct q' as [|e' q']; [done|]. specialize (Hmin k' e' q' (proj2 (Hiter _ _) Hk')).
    inversion Hs as [|? ? _ Hf]; subst. apply elem_of_cons in Hx as [->|Hx]; [done|].
    rewrite Forall_forall in Hf. specialize (Hf x Hx). unfold by_age in Hf. lia.
  - destruct Hne. destruct (entries m) as [|x l] eqn:E; [done|].
    assert (x ∈ entries m) as (k & q & Hk & Hx)%elem_of_entries by (rewrite E; by left).
    destruct (Hwf k q Hk) as [Hn _]. by destruct Hn, (Hspec k q (proj2 (Hiter _ _) Hk)).
Qed.

Lemma tail_wf now m k e q : queues_wf now m -> m !! k = Some (e :: q) -> queues_wf now (put_queue k q m).
Proof.
  intros Hwf Hk. destruct (Hwf k _ Hk) as (_ & Hs & Hf). inversion Hs; inversion Hf; subst. by apply put_wf.
Qed.

(** Evicting [n] entries removes the [n] oldest. *)
Lemma evict_spec now n m :
  queues_wf now m -> (n <= length (entries m))%nat ->
  queues_wf now (evict n m) /\
  exists removed, entries m ≡ₚ removed ++ entries (evict n m) /\ length removed = n /\
    forall r x, r ∈ removed -> x ∈ entries (evict n m) -> inserted_at r <= inserted_at x.
Proof.
  revert m. induction n as [|n IH]; intros m Hwf Hn.
  { split; [done|]. exists []. split_and!; [done|done|]. intros r x []%not_elem_of_nil. }
  destruct (oldest_entry now m Hwf) as (k & e & q & (t & Ho) & Hk & Hperm & Hmin).
  { intros E. rewrite E in Hn. cbn in Hn. lia. }
  cbn [evict]. rewrite Ho, Hk. cbn [tail].
  assert (length (entries m) = S (length (entries (put_queue k q m)))) as Hlen by by rewrite Hperm.
  destruct (IH (put_queue k q m)) as (Hwf' & removed & Hp & Hl & Hold); [by eapply tail_wf|lia|].
  split; [done|]. exists (e :: removed). split_and!; [by rewrite Hperm, Hp|by cbn; f_equal|].
  intros r x [->|Hr]%elem_of_cons Hx; [|by apply Hold]. apply Hmin. rewrite Hperm, Hp. set_solver.
Qed.

Lemma cap_total_spec now m max :
  0 <= max -> queues_wf now m ->
  queues_wf now (cap_total m max) /\ total (cap_total m max) = Z.min max (total m) /\
  exists removed, entries m ≡ₚ removed ++ entries (cap_total m max) /\
    forall r x, r ∈ removed -> x ∈ entries (cap_total m max) -> inserted_at r <= inserted_at x.
Proof.
  intros Hmax Hwf. unfold cap_total. destruct (total m <=? max) eqn:E.
  - split_and!; [done|lia|]. exists []. split; [done|]. intros r x []%not_elem_of_nil.
  - destruct (evict_spec now (Z.to_nat (total m - max)) m Hwf) as (Hwf' & removed & Hp & Hl & Hold).
    { rewrite total_entries in *. unfold len in *. lia. }
    split_and!; [done| |by exists removed]. rewrite !total_entries in *. unfold len in *.
    apply Permutation_length in Hp. rewrite length_app in Hp. lia.
Qed.

(** ** Runs *)

Inductive Op := Insert (k : string) (o : option string) | Pop (k : string).

(** One operation at a time, with what it returned *)
Definition run_op (p : PendingOrigins) (now : Z) (op : Op) : option string * PendingOrigins :=
  match op with Insert k o => (None, insert_origin now p k o) | Pop k => pop now p k end.

(** Well-formed, within the cap, at some time *)
Definition origins_wf (now : Z) (p : PendingOrigins) : Prop := queues_wf now (map_ p) /\ total (map_ p) <= MAX_ENTRIES.

Lemma push_wf now m k o :
  queues_wf now m -> queues_wf now (<[k := default [] (m !! k) ++ [mkEntry o now]]> m).
Proof.
  intros Hwf k' q'. rewrite lookup_insert_Some. intros [[<- <-]|[_ Hk]]; [|by apply (Hwf k')].
  split; [by destruct (default [] (m !! k))|].
  destruct (m !! k) as [q|] eqn:Hk; cbn [default].
  - destruct (Hwf k q Hk) as (_ & Hs & Hf). split; [|apply Forall_app; by repeat constructor].
    clear Hk. induction Hs as [|e q Hs IH Hall]; [by repeat constructor|]. inversion Hf; subst.
    cbn [app]. constructor; [by apply IH|]. apply Forall_app. split; [done|]. constructor; [|constructor]. done.
  - split; repeat constructor. done.
Qed.

Lemma insert_wf now p k o : queues_wf now (map_ p) -> origins_wf now (insert_origin now p k o).
Proof.
  intros Hwf. unfold insert_origin, origins_wf. cbn [map_].
  destruct (cap_total_spec now _ MAX_ENTRIES ltac:(done)
    (push_wf now (sweep_expired (map_ p) now (ttl p)) k o (sweep_wf now now (ttl p) _ Hwf))) as (? & -> & _).
  split; [done|lia].
Qed.

Lemma pop_wf now p k : origins_wf now p -> origins_wf now (snd (pop now p k)).
Proof.
  intros [Hwf Ht]. unfold pop. destruct (map_ p !! k) as [[|e q]|] eqn:Hk; [done| |done].
  assert (origins_wf now (mkPendingOrigins (put_queue k q (map_ p)) (ttl p))) as Hgoal; [|by destruct (expired _ _ _)].
  split; cbn [map_]; [by eapply tail_wf|]. rewrite total_entries in *. revert Ht.
  unfold len. rewrite (Permutation_length (entries_split _ _ _ Hk)), (Permutation_length (entries_put _ k q)).
  rewrite !length_app. cbn. lia.
Qed.

Inductive reachable (t0 : Z) : Z -> PendingOrigins -> Prop :=
| reach_new t : reachable t0 t0 (with_ttl t)
| reach_op now now' p op : reachable t0 now p -> now <= now' -> reachable t0 now' (snd (run_op p now' op)).

Lemma reachable_wf t0 now p : reachable t0 now p -> origins_wf now p.
Proof.
  induction 1 as [t|now now' p op _ [Hwf Ht] Hle]; [by split|].
  pose proof (queues_wf_later _ _ _ Hle Hwf) as Hwf'. destruct op as [k o|k]; cbn [run_op snd].
  - by apply insert_wf.
  - by apply pop_wf.
Qed.

Lemma elem_of_sweep now m t e :
  queues_wf now m -> e ∈ entries (sweep_expired m now t) <-> e ∈ entries m /\ expired now t e = false.
Proof.
  intros Hwf. rewrite !elem_of_entries. split.
  - intros (k & q & Hk & He). rewrite sweep_lookup in Hk. destruct (m !! k) as [q0|] eqn:E; [|done]. cbn in Hk.
    destruct (Hwf k q0 E) as (_ & Hs & _). rewrite sweep_queue_filter in Hk by done.
    assert (e ∈ filter (fun e => expired now t e = false) q0) as [Hx Hin]%list_elem_of_filter
      by (destruct (filter _ q0); [done|injection Hk as <-; done]).
    split; [by exists k, q0|done].
  - intros [(k & q0 & Hk & He) Hx]. destruct (Hwf k q0 Hk) as (_ & Hs & _).
    assert (e ∈ filter (fun e => expired now t e = false) q0) as Hin by (by apply list_elem_of_filter).
    exists k, (filter (fun e => expired now t e = false) q0). split; [|done]. rewrite sweep_lookup, Hk. cbn.
    rewrite sweep_queue_filter by done. destruct (filter _ q0); [by apply not_elem_of_nil in Hin|done].
Qed.

Lemma elem_of_push m k (o : option string) now e :
  e ∈ entries (<[k := default [] (m !! k) ++ [mkEntry o now]]> m) <-> e ∈ entries m \/ e = mkEntry o now.
Proof.
  rewrite entries_insert. destruct (m !! k) as [q|] eqn:E; cbn [default].
  - rewrite (entries_split m k q E), !elem_of_app, list_elem_of_singleton. tauto.
  - rewrite delete_id by done. rewrite !elem_of_app, list_elem_of_singleton. rewrite elem_of_nil. tauto.
Qed.

(** With a clock that does not run backwards the map never holds more than 1024
    entries, no empty queue, and each queue in the order of insertion; right after an entry
    is stashed none in the map has outlived its time, and if some were evicted they were
    the oldest. *)
Theorem origins_bounded_and_fresh t0 now p k o :
  reachable t0 now p ->
  total (map_ p) <= MAX_ENTRIES /\ queues_wf now (map_ p) /\
  (forall e, e ∈ entries (map_ (insert_origin now p k o)) -> 0 <= ttl p ->
     inserted_at e <= now <= inserted_at e + ttl p) /\
  (forall x y, x ∈ entries (map_ p) -> expired now (ttl p) x = false ->
     x ∉ entries (map_ (insert_origin now p k o)) -> y ∈ entries (map_ (insert_origin now p k o)) ->
     inserted_at x <= inserted_at y).
Proof.
  intros [Hwf Ht]%reachable_wf.
  pose proof (push_wf now (sweep_expired (map_ p) now (ttl p)) k o (sweep_wf now now (ttl p) _ Hwf)) as Hpush.
  destruct (cap_total_spec now _ MAX_ENTRIES ltac:(done) Hpush) as (_ & _ & removed & Hp & Hold).
  split_and!; [done|done| |].
  - intros e He Httl.
    assert (e ∈ entries (sweep_expired (map_ p) now (ttl p)) \/ e = mkEntry o now) as [Hin| ->].
    { rewrite <- (elem_of_push _ k), Hp. apply elem_of_app. by right. }
    + apply elem_of_sweep in Hin as [(k' & q & Hk & Hin)%elem_of_entries Hx]; [|done].
      destruct (Hwf k' q Hk) as (_ & _ & Hf). rewrite Forall_forall in Hf. specialize (Hf e Hin). cbn in Hf.
      unfold expired, saturating_sub in Hx. lia.
    + cbn. lia.
  - intros x y Hx Hlive Hgone Hy. apply (Hold x y); [|done].
    assert (x ∈ removed ++ entries (map_ (insert_origin now p k o))) as [?|?]%elem_of_app; [|done|done].
    unfold insert_origin. cbn [map_]. rewrite <- Hp. apply elem_of_push. left. by apply elem_of_sweep.
Qed.

(** ** A burst is a queue *)

(** The plain queue per key *)
Abbreviation fifo := (gmap string (list (option string))).

Definition fifo_op (f : fifo) (op : Op) : option string * fifo :=
  match op with
  | Insert k o => (None, <[k := default [] (f !! k) ++ [o]]> f)
  | Pop k => match default [] (f !! k) with [] => (None, f) | o :: rest => (o, <[k := rest]> f) end
  end.

Fixpoint run_all (p : PendingOrigins) (ops : list (Z * Op)) : list (option string) * PendingOrigins :=
  match ops with
  | [] => ([], p)
  | (now, op) :: rest => let '(r, p) := run_op p now op in let '(rs, p) := run_all p rest in (r :: rs, p)
  end.

Fixpoint fifo_all (f : fifo) (ops : list (Z * Op)) : list (option string) * fifo :=
  match ops with
  | [] => ([], f)
  | (_, op) :: rest => let '(r, f) := fifo_op f op in let '(rs, f) := fifo_all f rest in (r :: rs, f)
  end.

Definition is_insert (op : Op) : bool := match op with Insert _ _ => true | Pop _ => false end.

Definition inserts (ops : list (Z * Op)) : Z :=
  len (filter (fun x => is_insert (snd x) = true) ops).

(** The map agrees with the plain queues; all of it was stashed since [t0]. *)
Definition agrees (t0 : Z) (p : PendingOrigins) (f : fifo) : Prop :=
  (forall k, default [] (f !! k) = origin <$> default [] (map_ p !! k)) /\
  (forall k q, map_ p !! k = Some q -> q <> [] /\ Forall (fun e => t0 <= inserted_at e) q).

Lemma fresh_not_expired t0 now t e : t0 <= inserted_at e -> now <= t0 + t -> 0 <= t -> expired now t e = false.
Proof. intros. unfold expired, saturating_sub. lia. Qed.

Lemma sweep_fresh t0 now p f :
  agrees t0 p f -> now <= t0 + ttl p -> 0 <= ttl p -> sweep_expired (map_ p) now (ttl p) = map_ p.
Proof.
  intros [_ Hq] Hnow Ht. apply map_eq. intros k. rewrite sweep_lookup.
  destruct (map_ p !! k) as [[|e q]|] eqn:E; [by destruct (Hq k [] E)| |done].
  destruct (Hq k _ E) as [_ Hf]. inversion Hf; subst. cbn. by rewrite (fresh_not_expired t0).
Qed.

Lemma default_put k q (m : queues) k' :
  default [] (put_queue k q m !! k') = if decide (k' = k) then q else default [] (m !! k').
Proof.
  destruct q as [|e q]; cbn [put_queue]; case_decide as E; subst.
  - by rewrite lookup_delete_eq.
  - by rewrite lookup_delete_ne.
  - by rewrite lookup_insert_eq.
  - by rewrite lookup_insert_ne.
Qed.

Lemma default_insert {B} k (q : list B) (m : gmap string (list B)) k' :
  default [] (<[k := q]> m !! k') = if decide (k' = k) then q else default [] (m !! k').
Proof. case_decide as E; subst; [by rewrite lookup_insert_eq|by rewrite lookup_insert_ne]. Qed.

Lemma insert_agrees t0 now p f k o :
  agrees t0 p f -> t0 <= now <= t0 + ttl p -> total (map_ p) < MAX_ENTRIES ->
  agrees t0 (insert_origin now p k o) (<[k := default [] (f !! k) ++ [o]]> f) /\
  total (map_ (insert_origin now p k o)) = total (map_ p) + 1.
Proof.
  intros Ha Hnow Ht. unfold insert_origin. rewrite (sweep_fresh t0 now p f Ha) by lia. destruct Ha as [Hag Hq].
  assert (total (<[k := default [] (map_ p !! k) ++ [mkEntry o now]]> (map_ p)) = total (map_ p) + 1) as Hlen.
  { rewrite !total_entries. unfold len. rewrite (Permutation_length (entries_insert _ k _)), length_app.
    destruct (map_ p !! k) as [q|] eqn:E; cbn [default].
    - rewrite (Permutation_length (entries_split _ k q E)), !length_app. cbn. lia.
    - rewrite delete_id by done. cbn. lia. }
  unfold cap_total. rewrite (proj2 (Z.leb_le _ _)) by lia. cbn [map_]. split; [|done]. split; cbn [map_].
  - intros k'. rewrite !default_insert. case_decide; [|apply Hag]. by rewrite fmap_app, Hag.
  - intros k' q'. rewrite lookup_insert_Some. intros [[<- <-]|[_ Hk]]; [|by apply (Hq k')].
    split; [by destruct (default [] _)|]. apply Forall_app. split; [|apply Forall_singleton; cbn; lia].
    destruct (map_ p !! k) as [q|] eqn:E; [by destruct (Hq k q E)|constructor].
Qed.

Lemma pop_agrees t0 now p f k :
  agrees t0 p f -> t0 <= now <= t0 + ttl p ->
  fst (pop now p k) = fst (fifo_op f (Pop k)) /\ agrees t0 (snd (pop now p k)) (snd (fifo_op f (Pop k))) /\
  total (map_ (snd (pop now p k))) <= total (map_ p) /\ ttl (snd (pop now p k)) = ttl p.
Proof.
  intros [Hag Hq] Hnow. unfold pop, fifo_op. rewrite Hag. destruct (map_ p !! k) as [[|e q]|] eqn:E.
  - by destruct (Hq k [] E).
  - destruct (Hq k _ E) as [_ Hf]. inversion Hf; subst. rewrite (fresh_not_expired t0) by (done || lia).
    change (origin <$> default [] (Some (e :: q))) with (origin e :: (origin <$> q)). cbn [fst snd map_ ttl]. split_and!; [done| | |done].
    + split; cbn [map_].
      * intros k'. rewrite default_insert, default_put. case_decide; [done|apply Hag].
      * intros k' q'. destruct q as [|e' q]; cbn [put_queue].
        -- rewrite lookup_delete_Some. intros [_ Hk]. by apply (Hq k').
        -- rewrite lookup_insert_Some. intros [[<- <-]|[_ Hk]]; [by split|by apply (Hq k')].
    + rewrite !total_entries. unfold len.
      rewrite (Permutation_length (entries_split _ _ _ E)), (Permutation_length (entries_put _ k q)), !length_app. cbn. lia.
  - by split_and!.
Qed.

Lemma agrees_new t0 t : agrees t0 (with_ttl t) ∅.
Proof. unfold with_ttl. split; cbn [map_]; intros k; [by rewrite !lookup_empty|intros q; by rewrite lookup_empty]. Qed.

Lemma insert_ttl now p k o : ttl (insert_origin now p k o) = ttl p.
Proof. done. Qed.

Lemma run_agrees t0 p f ops :
  agrees t0 p f -> Forall (fun x => t0 <= fst x <= t0 + ttl p) ops -> total (map_ p) + inserts ops <= MAX_ENTRIES ->
  fst (run_all p ops) = fst (fifo_all f ops).
Proof.
  revert p f. induction ops as [|[now op] ops IH]; intros p f Ha Hw Hn; [done|].
  apply Forall_cons in Hw as [Hnow Hw]. cbn in Hnow. cbn [run_all fifo_all]. unfold inserts in Hn. destruct op as [k o|k]; cbn [run_op].
  - rewrite filter_cons_True in Hn by done. unfold len in Hn. cbn [length] in Hn.
    destruct (insert_agrees t0 now p f k o Ha Hnow) as [Ha' Ht']; [lia|]. cbn [fifo_op].
    specialize (IH _ _ Ha'). rewrite insert_ttl, Ht' in IH. specialize (IH Hw ltac:(unfold inserts, len; lia)).
    destruct (run_all _ ops), (fifo_all _ ops). cbn in *. by subst.
  - rewrite filter_cons_False in Hn by done. destruct (pop_agrees t0 now p f k Ha Hnow) as (Hr & Ha' & Ht' & Httl).
    specialize (IH _ _ Ha'). rewrite Httl in IH. specialize (IH Hw ltac:(unfold inserts; lia)).
    destruct (pop now p k) as [r p'], (fifo_op f (Pop k)) as [r' f']. cbn in *. subst r'.
    destruct (run_all p' ops), (fifo_all f' ops). cbn in *. by subst.
Qed.

(** C39: in a burst that spans no more than the time to live and stashes at most 1024
    origins the structure is one plain queue per key: an observation of a key is given
    the oldest origin stashed for that key that no earlier observation of it took, and none
    when there is no such origin. Nothing is expired, evicted, given twice or
    given to another key. The pairing is by key only: an observation that belongs to a
    remote change takes an origin too ([remote_notification_takes_origin]). *)
Theorem burst_is_fifo t0 t ops :
  Forall (fun x => t0 <= fst x <= t0 + t) ops -> inserts ops <= MAX_ENTRIES ->
  fst (run_all (with_ttl t) ops) = fst (fifo_all ∅ ops).
Proof.
  intros Hw Hn. apply (run_agrees t0); [apply agrees_new|done|]. unfold with_ttl, total. cbn [map_].
  by rewrite map_to_list_empty.
Qed.

End Origins.

(** An observation that belongs to a remote change takes the origin of a local write, which
    is then reported without one: the queue pairs by key and not by change. *)
Theorem remote_notification_takes_origin `{QueueOrder} :
  fst (run_all origins_new [(1, Insert "tracks:T1" (Some "ble"%string)); (2, Pop "tracks:T1"); (3, Pop "tracks:T1")]) =
  [None; Some "ble"%string; None].
Proof.
  unfold origins_new. rewrite (run_agrees 0 _ ∅); [done|apply agrees_new|by repeat constructor|by vm_compute].
Qed.

(** ** Examples *)

Module SampleOrigins.

#[local] Instance listed : QueueOrder := {| iter_queues m := map_to_list m; iter_queues_perm m := reflexivity _ |}.

Definition burst : list (Z * Op) :=
  [(1, Insert "tracks:T1" (Some "ble"%string)); (2, Insert "tracks:T1" None); (3, Pop "tracks:T1"); (4, Pop "tracks:T1")].

Lemma burst_is_fifo_witness : fst (run_all (with_ttl 30) burst) = fst (fifo_all ∅ burst).
Proof. apply (burst_is_fifo 0 30 burst); [repeat constructor; cbn; lia|by vm_compute]. Defined.

Lemma origins_bounded_and_fresh_witness :
  total (map_ (snd (run_op (with_ttl 30) 5 (Insert "k" None)))) <= MAX_ENTRIES.
Proof.
  apply (origins_bounded_and_fresh 0 5 _ "k" None). apply (reach_op 0 0); [constructor|lia].
Defined.

End SampleOrigins.
