(* ===== verification/Distribution.v ===== *)
(** * Distribution of software and models

    Models peat-protocol/src/distribution: the artifact types (types.rs), deployment
    directives and status reports (directive.rs), model manifests and local model states
    (manifest.rs) and the capability matcher (capability_matcher.rs), with the
    advertisement of cot/types.rs it reads. The clock and generated identifiers are
    arguments. A hash map of constraints is a [gmap]; only membership is asked of it.

    The theorems: the matcher decides exactly the documented constraints and is monotone;
    the identifier-only test of a directive is sound for the full one except for
    formations, where it is not; status reports never claim more progress than their state
    allows; and file names read back. *)

From S2P Require Import Prelude Float Capability Json Domain Validation.
From Stdlib Require Import SpecFloat.

Open Scope Z_scope.

(** ** types.rs *)

Inductive ModelType := Detector | Llm | Tracker | Embedder | Vlm | Whisper | CustomModel.

Definition display_name (t : ModelType) : string :=
  match t with
  | Detector => "Object Detector" | Llm => "Language Model" | Tracker => "Tracker" | Embedder => "Embedder"
  | Vlm => "Vision-Language Model" | Whisper => "Audio Transcription" | CustomModel => "Custom Model"
  end.

Definition model_capability_type (t : ModelType) : string :=
  match t with
  | Detector => "OBJECT_DETECTION" | Llm => "LLM_INFERENCE" | Tracker => "OBJECT_TRACKING"
  | Embedder => "FEATURE_EMBEDDING" | Vlm => "VISION_LANGUAGE" | Whisper => "AUDIO_TRANSCRIPTION" | CustomModel => "CUSTOM"
  end.

Inductive ModelFormat := Onnx | Gguf | TensorRT | PyTorch | SafeTensors.

Definition extension (f : ModelFormat) : string :=
  match f with
  | Onnx => "onnx" | Gguf => "gguf" | TensorRT => "engine" | PyTorch => "pt" | SafeTensors => "safetensors"
  end.

Definition mime_type (f : ModelFormat) : string :=
  match f with Onnx => "application/onnx" | _ => "application/octet-stream" end.

Inductive Quantization := F32 | F16 | BF16 | INT8 | Q4_0 | Q4_K_S | Q4_K_M | Q5_K_S | Q5_K_M | Q6_K | Q8_0.

#[export] Instance Quantization_eq_dec : EqDecision Quantization.
Proof. solve_decision. Defined.

Definition quantization_as_str (q : Quantization) : string :=
  match q with
  | F32 => "F32" | F16 => "F16" | BF16 => "BF16" | INT8 => "INT8" | Q4_0 => "Q4_0" | Q4_K_S => "Q4_K_S"
  | Q4_K_M => "Q4_K_M" | Q5_K_S => "Q5_K_S" | Q5_K_M => "Q5_K_M" | Q6_K => "Q6_K" | Q8_0 => "Q8_0"
  end.

Definition memory_factor (q : Quantization) : spec_float :=
  match q with
  | F32 => f32_of_Z 2
  | F16 | BF16 => f32_of_Z 1
  | INT8 | Q8_0 => f32_lit 5 10
  | Q6_K => f32_lit 41 100
  | Q5_K_S | Q5_K_M => f32_lit 35 100
  | Q4_0 | Q4_K_S | Q4_K_M => f32_lit 28 100
  end.

Definition from_filename (s : string) : option Quantization :=
  let lower := to_lowercase s in
  if one_of lower ["f32"; "fp32"]%string then Some F32
  else if one_of lower ["f16"; "fp16"]%string then Some F16
  else if one_of lower ["bf16"]%string then Some BF16
  else if one_of lower ["int8"]%string then Some INT8
  else if one_of lower ["q4_0"]%string then Some Q4_0
  else if one_of lower ["q4_k_s"]%string then Some Q4_K_S
  else if one_of lower ["q4_k_m"]%string then Some Q4_K_M
  else if one_of lower ["q5_k_s"]%string then Some Q5_K_S
  else if one_of lower ["q5_k_m"]%string then Some Q5_K_M
  else if one_of lower ["q6_k"]%string then Some Q6_K
  else if one_of lower ["q8_0"]%string then Some Q8_0
  else None.

(** ** Advertisements (cot/types.rs) *)

Inductive OperationalStatus := Ready | Active | Degraded | Offline | Loading.

Record CotPosition := mkCotPosition { lat : spec_float; lon : spec_float; cot_cep_m : option spec_float; hae : option spec_float }.

Record HardwareSpec := mkHardwareSpec {
  gpu_memory_mb : option Z;
  memory_mb : option Z;
  storage_mb : option Z;
  hw_custom : gmap string string
}.

Record CapabilityInfo := mkCapabilityInfo {
  ci_capability_type : string;
  ci_model_name : string;
  ci_version : string;
  precision : spec_float;
  ci_status : OperationalStatus
}.

Record Advertisement := mkAdvertisement {
  adv_node_id : string;
  adv_node_type : string;
  adv_position : CotPosition;
  adv_status : OperationalStatus;
  readiness : spec_float;
  adv_capabilities : list CapabilityInfo;
  adv_cell_id : option string;
  adv_formation_id : option string;
  hardware : option HardwareSpec;
  adv_timestamp : Z
}.

(** ** directive.rs *)

Record CapabilityFilter := mkCapabilityFilter {
  min_gpu_memory_mb : option Z;
  min_memory_mb : option Z;
  min_storage_mb : option Z;
  required_capabilities : list string;
  filter_custom : gmap string string
}.

Definition default_filter : CapabilityFilter := mkCapabilityFilter None None None [] ∅.

Definition is_unconstrained (f : CapabilityFilter) : bool :=
  bool_decide (min_gpu_memory_mb f = None) && bool_decide (min_memory_mb f = None) &&
  bool_decide (min_storage_mb f = None) && bool_decide (required_capabilities f = []) &&
  bool_decide (filter_custom f = ∅).

Inductive DeploymentScope :=
| ScopeBroadcast
| ScopeFormation (formation_id : string)
| ScopeNodes (node_ids : list string)
| ScopeCapability (filter : CapabilityFilter).

Definition scope_with_capabilities (capabilities : list string) : DeploymentScope :=
  ScopeCapability (mkCapabilityFilter None None None capabilities ∅).

Inductive ContainerRuntime := Docker | Podman | Containerd.

Record PortMapping := mkPortMapping { container_port : Z; host_port : Z; protocol : string }.

Definition default_protocol : string := "tcp".

Inductive ArtifactType :=
| OnnxModel (execution_providers : list string)
| Container (runtime : ContainerRuntime) (ports : list PortMapping) (env : gmap string string)
| NativeBinary (arch : string) (args : list string)
| ConfigPackage (target_path : string)
| WasmModule (wasi_capabilities : list string).

Definition default_artifact_type : ArtifactType := OnnxModel [].

Record ArtifactSpec := mkArtifactSpec {
  art_blob_hash : string;
  art_size_bytes : Z;
  artifact_type : ArtifactType;
  art_sha256 : option string;
  art_name : option string;
  art_version : option string
}.

Definition default_artifact : ArtifactSpec := mkArtifactSpec "" 0 default_artifact_type None None None.

Definition onnx_model (blob_hash : string) (size_bytes : Z) (execution_providers : list string) : ArtifactSpec :=
  mkArtifactSpec blob_hash size_bytes (OnnxModel execution_providers) None None None.
Definition container (blob_hash : string) (size_bytes : Z) (runtime : ContainerRuntime) : ArtifactSpec :=
  mkArtifactSpec blob_hash size_bytes (Container runtime [] ∅) None None None.
Definition native_binary (blob_hash : string) (size_bytes : Z) (arch : string) : ArtifactSpec :=
  mkArtifactSpec blob_hash size_bytes (NativeBinary arch []) None None None.
Definition artifact_with_name (a : ArtifactSpec) (name : string) : ArtifactSpec :=
  mkArtifactSpec (art_blob_hash a) (art_size_bytes a) (artifact_type a) (art_sha256 a) (Some name) (art_version a).
Definition artifact_with_version (a : ArtifactSpec) (version : string) : ArtifactSpec :=
  mkArtifactSpec (art_blob_hash a) (art_size_bytes a) (artifact_type a) (art_sha256 a) (art_name a) (Some version).
Definition artifact_with_sha256 (a : ArtifactSpec) (sha256 : string) : ArtifactSpec :=
  mkArtifactSpec (art_blob_hash a) (art_size_bytes a) (artifact_type a) (Some sha256) (art_name a) (art_version a).

Inductive DeploymentPriority := CriticalDeployment | HighDeployment | NormalDeployment | LowDeployment.

Record DeploymentOptions := mkDeploymentOptions {
  opt_priority : DeploymentPriority;
  timeout_seconds : Z;
  replace_existing : bool;
  rollback_threshold_percent : option Z;
  auto_activate : bool
}.

Definition default_timeout : Z := 300.
Definition default_options : DeploymentOptions := mkDeploymentOptions NormalDeployment default_timeout false None true.

Record DeploymentDirective := mkDirective {
  directive_id : string;
  dir_issued_at : Z;
  issuer_node_id : string;
  issuer_formation_id : option string;
  scope : DeploymentScope;
  artifact : ArtifactSpec;
  dir_capabilities : list string;
  dir_config : Json;
  options : DeploymentOptions
}.

Definition directive_new (now : Z) (directive_id : string) : DeploymentDirective :=
  mkDirective directive_id now EmptyString None ScopeBroadcast default_artifact [] JNull default_options.

Definition with_issuer (d : DeploymentDirective) (node_id : string) : DeploymentDirective :=
  mkDirective (directive_id d) (dir_issued_at d) node_id (issuer_formation_id d) (scope d) (artifact d) (dir_capabilities d)
    (dir_config d) (options d).
Definition with_formation (d : DeploymentDirective) (formation_id : string) : DeploymentDirective :=
  mkDirective (directive_id d) (dir_issued_at d) (issuer_node_id d) (Some formation_id) (scope d) (artifact d)
    (dir_capabilities d) (dir_config d) (options d).
Definition with_scope (d : DeploymentDirective) (s : DeploymentScope) : DeploymentDirective :=
  mkDirective (directive_id d) (dir_issued_at d) (issuer_node_id d) (issuer_formation_id d) s (artifact d) (dir_capabilities d)
    (dir_config d) (options d).
Definition with_artifact (d : DeploymentDirective) (a : ArtifactSpec) : DeploymentDirective :=
  mkDirective (directive_id d) (dir_issued_at d) (issuer_node_id d) (issuer_formation_id d) (scope d) a (dir_capabilities d)
    (dir_config d) (options d).
Definition directive_with_capabilities (d : DeploymentDirective) (caps : list string) : DeploymentDirective :=
  mkDirective (directive_id d) (dir_issued_at d) (issuer_node_id d) (issuer_formation_id d) (scope d) (artifact d) caps
    (dir_config d) (options d).
Definition directive_with_capability (d : DeploymentDirective) (cap : string) : DeploymentDirective :=
  directive_with_capabilities d (dir_capabilities d ++ [cap]).
Definition with_config (d : DeploymentDirective) (c : Json) : DeploymentDirective :=
  mkDirective (directive_id d) (dir_issued_at d) (issuer_node_id d) (issuer_formation_id d) (scope d) (artifact d)
    (dir_capabilities d) c (options d).
Definition with_options (d : DeploymentDirective) (o : DeploymentOptions) : DeploymentDirective :=
  mkDirective (directive_id d) (dir_issued_at d) (issuer_node_id d) (issuer_formation_id d) (scope d) (artifact d)
    (dir_capabilities d) (dir_config d) o.
Definition directive_with_priority (d : DeploymentDirective) (p : DeploymentPriority) : DeploymentDirective :=
  with_options d (mkDeploymentOptions p (timeout_seconds (options d)) (replace_existing (options d))
                    (rollback_threshold_percent (options d)) (auto_activate (options d))).

(** ** capability_matcher.rs *)

(** The encodings of the characters with the Unicode property White_Space *)
Definition byte_string (l : list nat) : string := String.string_of_list_ascii (Ascii.ascii_of_nat <$> l).
Definition whitespace : list string :=
  byte_string <$>
    ([[9]; [10]; [11]; [12]; [13]; [32]; [194; 133]; [194; 160]; [225; 154; 128]; [226; 128; 168]; [226; 128; 169];
      [226; 128; 175]; [226; 129; 159]; [227; 128; 128]]%nat ++
     ((fun n => [226; 128; 128 + n]%nat) <$> seq 0 11)).

Definition strip_prefix (p s : string) : option string :=
  if String.prefix p s then Some (String.substring (String.length p) (String.length s - String.length p) s) else None.

Fixpoint strip_any (ps : list string) (s : string) : option string :=
  match ps with
  | [] => None
  | p :: rest => match strip_prefix p s with Some s' => Some s' | None => strip_any rest s end
  end.

(** Each turn drops a character, so as many turns as bytes are enough. *)
Fixpoint trim_front (fuel : nat) (ps : list string) (s : string) : string :=
  match fuel with
  | O => s
  | S n => match strip_any ps s with Some s' => trim_front n ps s' | None => s end
  end.

Definition str_rev (s : string) : string := String.string_of_list_ascii (rev (String.list_ascii_of_string s)).

(** [s.trim()]; at the end the encodings are matched backwards. *)
Definition trim (s : string) : string :=
  let s := trim_front (String.length s) whitespace s in
  str_rev (trim_front (String.length s) (str_rev <$> whitespace) (str_rev s)).

Definition upper_ascii (c : Ascii.ascii) : Ascii.ascii :=
  let n := Ascii.nat_of_ascii c in if (97 <=? n)%nat && (n <=? 122)%nat then Ascii.ascii_of_nat (n - 32) else c.

Definition to_ascii_uppercase (s : string) : string :=
  String.string_of_list_ascii (upper_ascii <$> String.list_ascii_of_string s).

Definition eq_ignore_ascii_case (a b : string) : bool := bool_decide (to_ascii_uppercase a = to_ascii_uppercase b).

Definition normalize_capability_string (s : string) : string := to_ascii_uppercase (trim s).

Definition sensor_type_from_string (normalized : string) : option SensorType :=
  if one_of normalized ["EO"; "ELECTRO_OPTICAL"; "ELECTROOPTICAL"; "ELECTRO-OPTICAL"]%string then Some ElectroOptical
  else if one_of normalized ["IR"; "INFRARED"]%string then Some Infrared
  else if one_of normalized ["RAD"; "RADAR"]%string then Some Radar
  else if one_of normalized ["SON"; "SONAR"]%string then Some Sonar
  else if one_of normalized ["ACO"; "ACOUSTIC"]%string then Some Acoustic
  else if one_of normalized ["SIGINT"]%string then Some Sigint
  else if one_of normalized ["MAD"]%string then Some Mad
  else None.

Definition capability_matches_any (required : string) (advertised : list CapabilityInfo) : bool :=
  let req_norm := normalize_capability_string required in
  if existsb (fun c => bool_decide (normalize_capability_string (ci_capability_type c) = req_norm)) advertised then true
  else match sensor_type_from_string req_norm with
       | Some sensor => existsb (fun c => eq_ignore_ascii_case (ci_capability_type c) (sensor_code sensor)) advertised
       | None => false
       end.

Definition hardware_bound_satisfied (adv : Advertisement) (extract : HardwareSpec -> option Z) (req : Z) : bool :=
  match hardware adv ≫= extract with Some have => req <=? have | None => false end.

Definition bound_ok (adv : Advertisement) (extract : HardwareSpec -> option Z) (bound : option Z) : bool :=
  match bound with Some req => hardware_bound_satisfied adv extract req | None => true end.

Definition matches (adv : Advertisement) (f : CapabilityFilter) : bool :=
  bound_ok adv gpu_memory_mb (min_gpu_memory_mb f) &&
  bound_ok adv memory_mb (min_memory_mb f) &&
  bound_ok adv storage_mb (min_storage_mb f) &&
  forallb (fun kv => bool_decide ((hw_custom <$> hardware adv) ≫= (fun c => c !! kv.1) = Some kv.2))
    (map_to_list (filter_custom f)) &&
  forallb (fun req => capability_matches_any req (adv_capabilities adv)) (required_capabilities f).

(** ** Targeting (directive.rs) *)

Definition targets_node (d : DeploymentDirective) (node_id : string) : bool :=
  match scope d with
  | ScopeBroadcast => true
  | ScopeFormation fid => bool_decide (issuer_formation_id d = Some fid)
  | ScopeNodes ids => bool_decide (node_id ∈ ids)
  | ScopeCapability f => is_unconstrained f
  end.

Definition targets (d : DeploymentDirective) (adv : Advertisement) : bool :=
  match scope d with
  | ScopeBroadcast => true
  | ScopeFormation fid =>
      bool_decide (adv_formation_id adv = Some fid) ||
      (bool_decide (adv_formation_id adv = None) && bool_decide (issuer_formation_id d = Some fid))
  | ScopeNodes ids => bool_decide (adv_node_id adv ∈ ids)
  | ScopeCapability f => matches adv f
  end.

(** ** Status reports (directive.rs) *)

Inductive DeploymentState := Pending | Downloading | Activating | ActiveDeployment | FailedDeployment | RolledBack.

Record DeploymentStatus := mkDeploymentStatus {
  st_directive_id : string;
  st_node_id : string;
  reported_at : Z;
  st_state : DeploymentState;
  st_progress_percent : Z;
  st_error_message : option string;
  instance_id : option string
}.

Definition status_new (now : Z) (directive_id node_id : string) : DeploymentStatus :=
  mkDeploymentStatus directive_id node_id now Pending 0 None None.

Definition downloading (s : DeploymentStatus) (progress : Z) : DeploymentStatus :=
  mkDeploymentStatus (st_directive_id s) (st_node_id s) (reported_at s) Downloading (Z.min progress 99) (st_error_message s)
    (instance_id s).
Definition activating (s : DeploymentStatus) : DeploymentStatus :=
  mkDeploymentStatus (st_directive_id s) (st_node_id s) (reported_at s) Activating 100 (st_error_message s) (instance_id s).
Definition active (s : DeploymentStatus) (id : string) : DeploymentStatus :=
  mkDeploymentStatus (st_directive_id s) (st_node_id s) (reported_at s) ActiveDeployment 100 (st_error_message s) (Some id).
Definition failed (s : DeploymentStatus) (error : string) : DeploymentStatus :=
  mkDeploymentStatus (st_directive_id s) (st_node_id s) (reported_at s) FailedDeployment (st_progress_percent s) (Some error)
    (instance_id s).
Definition rolled_back (s : DeploymentStatus) : DeploymentStatus :=
  mkDeploymentStatus (st_directive_id s) (st_node_id s) (reported_at s) RolledBack (st_progress_percent s) (st_error_message s)
    (instance_id s).

(** ** manifest.rs *)

Record ModelHardware := mkModelHardware {
  min_vram_mb : Z;
  recommended_vram_mb : Z;
  mh_min_ram_mb : Z;
  execution_providers : list string;
  architectures : list string
}.

Definition both_architectures : list string := ["aarch64"; "x86_64"]%string.
Definition default_hardware : ModelHardware := mkModelHardware 0 0 2048 ["cpu"]%string both_architectures.
Definition small_llm : ModelHardware := mkModelHardware 2048 4096 4096 ["cuda"; "cpu"]%string both_architectures.
Definition medium_llm : ModelHardware := mkModelHardware 4096 8192 8192 ["cuda"; "cpu"]%string both_architectures.
Definition yolo_nano : ModelHardware := mkModelHardware 512 1024 1024 ["tensorrt"; "cuda"; "cpu"]%string both_architectures.

Definition can_run_on (h : ModelHardware) (available_vram_mb available_ram_mb : Z) (arch : string) : bool :=
  let vram_ok := (min_vram_mb h <=? available_vram_mb) || (min_vram_mb h =? 0) in
  let ram_ok := mh_min_ram_mb h <=? available_ram_mb in
  let arch_ok := bool_decide (arch ∈ architectures h) in
  vram_ok && ram_ok && arch_ok.

Definition supports_provider (h : ModelHardware) (provider : string) : bool := bool_decide (provider ∈ execution_providers h).

Record ModelManifest := mkModelManifest {
  mf_model_id : string;
  mf_name : string;
  mf_model_type : ModelType;
  mf_format : ModelFormat;
  mf_version : string;
  quantization : Quantization;
  mf_size_bytes : Z;
  mf_sha256 : string;
  mf_blob_hash : option string;
  download_url : option string;
  requirements : ModelHardware;
  features : list string;
  params_billions : option spec_float;
  context_length : option Z;
  mf_classes : option (list string);
  license : string;
  mf_source : string;
  mf_created_at : Z;
  mf_metadata : gmap string Json
}.

Definition manifest_new (now : Z) (model_id name : string) (t : ModelType) : ModelManifest :=
  mkModelManifest model_id name t Gguf "1.0.0" Q4_K_M 0 "" None None default_hardware [] None None None "Apache-2.0" "" now ∅.

(** [x as u32] of a binary32 number: truncation, saturating at the bounds *)
Definition f32_as_u32 (x : spec_float) : Z :=
  match x with
  | S754_finite false m e => Z.min (u32_modulus - 1) (if e <? 0 then Zpos m / 2 ^ (- e) else Zpos m * 2 ^ e)
  | S754_infinity false => u32_modulus - 1
  | _ => 0
  end.

Definition mul32 := SFmul 24 128.

Definition estimated_vram_mb (m : ModelManifest) : Z :=
  match params_billions m with
  | Some params =>
      let base_mb := f32_as_u32 (mul32 (mul32 params (f32_of_Z 2)) (f32_of_Z 1024)) in
      f32_as_u32 (mul32 (mul32 (f32_of_Z base_mb) (memory_factor (quantization m))) (f32_lit 12 10))
  | None => recommended_vram_mb (requirements m)
  end.

(** [s.replace('.', "_")] *)
Definition replace_dots (s : string) : string :=
  String.string_of_list_ascii
    ((fun c => if Ascii.eqb c (Ascii.ascii_of_nat 46) then Ascii.ascii_of_nat 95 else c) <$> String.list_ascii_of_string s).

Definition filename (m : ModelManifest) : string :=
  mf_model_id m +:+ "-" +:+ replace_dots (mf_version m) +:+ "-" +:+ to_lowercase (quantization_as_str (quantization m)) +:+
  "." +:+ extension (mf_format m).

Inductive ModelStatus := Available | ModelDownloading | ModelReady | Loaded | ModelFailed.

Record LocalModelState := mkLocalModelState {
  lm_model_id : string;
  lm_status : ModelStatus;
  local_path : option string;
  download_progress : spec_float;
  verified_at : option Z;
  lm_error : option string
}.

Definition available (model_id : string) : LocalModelState := mkLocalModelState model_id Available None f32_zero None None.
Definition model_downloading (s : LocalModelState) (progress : spec_float) : LocalModelState :=
  mkLocalModelState (lm_model_id s) ModelDownloading (local_path s) (f32_clamp progress f32_zero f32_one) (verified_at s)
    (lm_error s).
Definition model_ready (now : Z) (s : LocalModelState) (path : string) : LocalModelState :=
  mkLocalModelState (lm_model_id s) ModelReady (Some path) f32_one (Some now) (lm_error s).
Definition model_loaded (s : LocalModelState) : LocalModelState :=
  mkLocalModelState (lm_model_id s) Loaded (local_path s) (download_progress s) (verified_at s) (lm_error s).
Definition model_failed (s : LocalModelState) (error : string) : LocalModelState :=
  mkLocalModelState (lm_model_id s) ModelFailed (local_path s) (download_progress s) (verified_at s) (Some error).

Record ModelUpdateCommand := mkModelUpdateCommand {
  mu_command_id : string;
  manifest : ModelManifest;
  mu_target_nodes : list string;
  mu_priority : Z;
  auto_load : bool;
  mu_rollback_model_id : option string;
  mu_timestamp : Z
}.

Definition update_command_new (uuid : string) (now : Z) (m : ModelManifest) : ModelUpdateCommand :=
  mkModelUpdateCommand uuid m [] 3 true None now.
Definition with_targets (c : ModelUpdateCommand) (nodes : list string) : ModelUpdateCommand :=
  mkModelUpdateCommand (mu_command_id c) (manifest c) nodes (mu_priority c) (auto_load c) (mu_rollback_model_id c) (mu_timestamp c).
(** [priority.clamp(1, 5)] *)
Definition update_with_priority (c : ModelUpdateCommand) (priority : Z) : ModelUpdateCommand :=
  mkModelUpdateCommand (mu_command_id c) (manifest c) (mu_target_nodes c) (Z.max 1 (Z.min 5 priority)) (auto_load c)
    (mu_rollback_model_id c) (mu_timestamp c).
Definition with_rollback (c : ModelUpdateCommand) (model_id : string) : ModelUpdateCommand :=
  mkModelUpdateCommand (mu_command_id c) (manifest c) (mu_target_nodes c) (mu_priority c) (auto_load c) (Some model_id)
    (mu_timestamp c).
Definition without_auto_load (c : ModelUpdateCommand) : ModelUpdateCommand :=
  mkModelUpdateCommand (mu_command_id c) (manifest c) (mu_target_nodes c) (mu_priority c) false (mu_rollback_model_id c)
    (mu_timestamp c).
Definition update_targets_node (c : ModelUpdateCommand) (node_id : string) : bool :=
  bool_decide (mu_target_nodes c = []) || bool_decide (node_id ∈ mu_target_nodes c).

(** ** Matching *)

(** An advertised bound is present and high enough. *)
Definition offers (adv : Advertisement) (extract : HardwareSpec -> option Z) (bound : option Z) : Prop :=
  forall req, bound = Some req -> exists hw have, hardware adv = Some hw /\ extract hw = Some have /\ req <= have.

Lemma bound_ok_spec adv extract bound : bound_ok adv extract bound = true <-> offers adv extract bound.
Proof.
  unfold bound_ok, offers, hardware_bound_satisfied. destruct bound as [req|]; [|naive_solver].
  destruct (hardware adv) as [hw|]; cbn; [|naive_solver]. destruct (extract hw) as [have|] eqn:E; [|naive_solver].
  rewrite Z.leb_le. naive_solver.
Qed.

(** A capability of the advertisement answers a required string: the same string up to
    case and surrounding space, or the code of the sensor the string names. *)
Definition answers (req : string) (c : CapabilityInfo) : Prop :=
  normalize_capability_string (ci_capability_type c) = normalize_capability_string req \/
  exists sensor, sensor_type_from_string (normalize_capability_string req) = Some sensor /\
    to_ascii_uppercase (ci_capability_type c) = to_ascii_uppercase (sensor_code sensor).

Lemma capability_matches_any_spec req caps :
  capability_matches_any req caps = true <-> exists c, c ∈ caps /\ answers req c.
Proof.
  unfold capability_matches_any, answers.
  destruct (existsb _ caps) eqn:E.
  - split; [intros _|done]. apply existsb_exists in E as (c & Hin%list_elem_of_In & Hc%bool_decide_eq_true). exists c. auto.
  - assert (forall c, c ∈ caps -> normalize_capability_string (ci_capability_type c) <> normalize_capability_string req) as Hno.
    { intros c Hin Hc. apply not_true_iff_false in E. apply E, existsb_exists. exists c.
      rewrite <- list_elem_of_In. by rewrite bool_decide_eq_true. }
    destruct (sensor_type_from_string _) as [sensor|].
    + unfold eq_ignore_ascii_case. rewrite existsb_exists. split.
      * intros (c & Hin%list_elem_of_In & Hc%bool_decide_eq_true). exists c. split; [done|]. right. by exists sensor.
      * intros (c & Hin & [Hc|(s & [= <-] & Hc)]); [by destruct (Hno c Hin)|]. exists c.
        rewrite <- list_elem_of_In. by rewrite bool_decide_eq_true.
    + split; [done|]. intros (c & Hin & [Hc|(s & ? & _)]); [by destruct (Hno c Hin)|done].
Qed.

(** What a filter asks *)
Definition satisfies (adv : Advertisement) (f : CapabilityFilter) : Prop :=
  offers adv gpu_memory_mb (min_gpu_memory_mb f) /\ offers adv memory_mb (min_memory_mb f) /\
  offers adv storage_mb (min_storage_mb f) /\
  (forall k v, filter_custom f !! k = Some v -> exists hw, hardware adv = Some hw /\ hw_custom hw !! k = Some v) /\
  (forall req, req ∈ required_capabilities f -> exists c, c ∈ adv_capabilities adv /\ answers req c).

Lemma matches_spec adv f : matches adv f = true <-> satisfies adv f.
Proof.
  unfold matches, satisfies. rewrite !andb_true_iff, !bound_ok_spec, !forallb_forall.
  setoid_rewrite <- list_elem_of_In. setoid_rewrite capability_matches_any_spec.
  assert ((forall x, x ∈ map_to_list (filter_custom f) ->
            bool_decide ((hw_custom <$> hardware adv) ≫= (fun c => c !! x.1) = Some x.2) = true) <->
          (forall k v, filter_custom f !! k = Some v -> exists hw, hardware adv = Some hw /\ hw_custom hw !! k = Some v)) as ->.
  { split.
    - intros Hall k v Hk. specialize (Hall (k, v)). rewrite elem_of_map_to_list, bool_decide_eq_true in Hall.
      specialize (Hall Hk). destruct (hardware adv) as [hw|]; [|done]. by exists hw.
    - intros Hall [k v] Hin%elem_of_map_to_list. rewrite bool_decide_eq_true. destruct (Hall k v Hin) as (hw & -> & Hv). done. }
  tauto.
Qed.

(** A filter that asks at least what [f] does *)
Definition bound_le (a b : option Z) : Prop := forall x, a = Some x -> exists y, b = Some y /\ x <= y.

Definition at_least (f g : CapabilityFilter) : Prop :=
  bound_le (min_gpu_memory_mb f) (min_gpu_memory_mb g) /\ bound_le (min_memory_mb f) (min_memory_mb g) /\
  bound_le (min_storage_mb f) (min_storage_mb g) /\ filter_custom f ⊆ filter_custom g /\
  required_capabilities f ⊆ required_capabilities g.

Lemma offers_mono adv extract a b : bound_le a b -> offers adv extract b -> offers adv extract a.
Proof.
  intros Hab Hb x Hx. destruct (Hab x Hx) as (y & Hy & Hle). destruct (Hb y Hy) as (hw & have & ? & ? & ?).
  exists hw, have. split_and!; [done..|lia].
Qed.

(** C40: the matcher accepts a node exactly when it advertises every hardware bound, every
    custom label and every required capability of the filter, what is missing counting
    against it; so tightening a filter never selects more nodes. *)
Theorem matcher_decides_filter adv f g :
  (matches adv f = true <-> satisfies adv f) /\ (at_least f g -> matches adv g = true -> matches adv f = true).
Proof.
  split; [apply matches_spec|]. rewrite !matches_spec. intros (H1 & H2 & H3 & H4 & H5) (G1 & G2 & G3 & G4 & G5).
  split_and!; [by eapply offers_mono..| |].
  - intros k v Hk. apply G4. by eapply lookup_weaken.
  - intros req Hreq. apply G5. by apply H5.
Qed.

Lemma unconstrained_matches adv f : is_unconstrained f = true -> matches adv f = true.
Proof.
  unfold is_unconstrained. rewrite !andb_true_iff, !bool_decide_eq_true. intros ((((H1 & H2) & H3) & H4) & H5).
  apply matches_spec. unfold satisfies, offers. rewrite H1, H2, H3, H4, H5. split_and!; try done.
  intros req Hreq. by apply not_elem_of_nil in Hreq.
Qed.

(** The test that sees only the identifier of a node never selects a node the full test
    refuses, unless the directive is for a formation and the node says it is in another. *)
Theorem id_targeting_sound d adv :
  targets_node d (adv_node_id adv) = true ->
  targets d adv = true \/
  exists fid other, scope d = ScopeFormation fid /\ adv_formation_id adv = Some other /\ other <> fid.
Proof.
  unfold targets_node, targets. destruct (scope d) as [|fid|ids|f]; [by left| |by left|by left; apply unconstrained_matches].
  rewrite bool_decide_eq_true. intros Hi. destruct (adv_formation_id adv) as [other|] eqn:E.
  - destruct (decide (other = fid)) as [->|Hne]; [left|right; by exists fid, other].
    by rewrite bool_decide_eq_true_2.
  - left. rewrite (bool_decide_eq_true_2 _ Hi). by rewrite orb_true_r || done.
Qed.

(** ** Status reports *)

Inductive status_step : DeploymentStatus -> DeploymentStatus -> Prop :=
| step_downloading s p : 0 <= p < 256 -> status_step s (downloading s p)
| step_activating s : status_step s (activating s)
| step_active s i : status_step s (active s i)
| step_failed s e : status_step s (failed s e)
| step_rolled_back s : status_step s (rolled_back s).

Definition status_wf (s : DeploymentStatus) : Prop :=
  0 <= st_progress_percent s <= 100 /\
  (st_state s = Pending -> st_progress_percent s = 0) /\
  (st_state s = Downloading -> st_progress_percent s < 100) /\
  (st_state s = Activating \/ st_state s = ActiveDeployment -> st_progress_percent s = 100) /\
  (st_state s = ActiveDeployment -> is_Some (instance_id s)) /\
  (st_state s = FailedDeployment -> is_Some (st_error_message s)).

Lemma status_step_wf s s' : status_step s s' -> status_wf s -> status_wf s'.
Proof.
  intros Hs (Hp & _). destruct Hs; unfold status_wf; cbn; split_and!; try done; try lia.
  all: try (by intros [?|?]). all: by eexists.
Qed.

(** A status report built by the methods in any order never claims more than its state:
    a download stays below 100 percent, only activating and active reports are at 100, an
    active one names its instance and a failed one its error. *)
Theorem status_reports_consistent now d n s : rtc status_step (status_new now d n) s -> status_wf s.
Proof.
  intros Hrun. assert (status_wf (status_new now d n)) as H0 by (unfold status_wf; cbn; naive_solver lia).
  induction Hrun; eauto using status_step_wf.
Qed.

(** The error of a failed attempt is still reported by a later active one. *)
Theorem recovered_deployment_keeps_error s e i :
  st_state (active (failed s e) i) = ActiveDeployment /\ st_error_message (active (failed s e) i) = Some e.
Proof. done. Qed.

(** ** Names *)

(** The quantization read from the part of a file name it was written to is the one of the
    manifest. *)
Theorem quantization_roundtrip q :
  from_filename (to_lowercase (quantization_as_str q)) = Some q /\ from_filename (quantization_as_str q) = Some q.
Proof. by destruct q. Qed.

(** ** Vocabulary *)

(** A filter for "EO" and one for "ELECTRO_OPTICAL" are documented to select the same
    nodes, but a node that advertises the long form is selected by the second only. *)
Theorem aliases_select_different_nodes m v p s :
  let long := mkCapabilityInfo "ELECTRO_OPTICAL" m v p s in
  capability_matches_any "ELECTRO_OPTICAL" [long] = true /\ capability_matches_any "EO" [long] = false.
Proof. by vm_compute. Qed.

(** The code of a signals-intelligence sensor is "SIG", not the "SIGINT" the vocabulary
    lists: a filter for the code does not select a node that advertises the word. *)
Theorem sigint_code_not_recognised m v p s :
  sensor_code Sigint = "SIG"%string /\ sensor_type_from_string "SIG" = None /\
  capability_matches_any "SIG" [mkCapabilityInfo "SIGINT" m v p s] = false.
Proof. by vm_compute. Qed.

(** Space around an advertised code defeats the bridge though not the direct comparison. *)
Theorem padded_code_matches_only_directly m v p s :
  let padded := mkCapabilityInfo " EO" m v p s in
  capability_matches_any "EO" [padded] = true /\ capability_matches_any "ELECTRO_OPTICAL" [padded] = false.
Proof. by vm_compute. Qed.

(** Two versions that differ in a dot share a file name. *)
Theorem versions_share_filename now :
  let m v := mkModelManifest "yolo" "" Detector Onnx v F16 0 "" None None default_hardware [] None None None "" "" now ∅ in
  filename (m "1.0"%string) = filename (m "1_0"%string).
Proof. by vm_compute. Qed.

(** ** Examples *)

Module SampleDeployment.

Definition camera : CapabilityInfo := mkCapabilityInfo "eo" "cam" "1" f32_one Ready.
Definition gpu : HardwareSpec := mkHardwareSpec (Some 8192) (Some 16384) None {["site" := "alpha"]}%string.
Definition node : Advertisement :=
  mkAdvertisement "n1" "UGV" (mkCotPosition f32_zero f32_zero None None) Ready f32_one [camera] None (Some "f1"%string)
    (Some gpu) 0.
Definition strict : CapabilityFilter :=
  mkCapabilityFilter (Some 4096) None None ["ELECTRO_OPTICAL"]%string {["site" := "alpha"]}%string.

Lemma matcher_decides_filter_witness : matches node default_filter = true.
Proof.
  apply (matcher_decides_filter node default_filter strict); [|by vm_compute].
  split_and!; try (intros ? [=]); [apply map_empty_subseteq|intros ? []%not_elem_of_nil].
Defined.

Definition order : DeploymentDirective := with_scope (directive_new 0 "d1") (ScopeNodes ["n1"]%string).

Lemma id_targeting_sound_witness :
  targets order node = true \/
  exists fid other, scope order = ScopeFormation fid /\ adv_formation_id node = Some other /\ other <> fid.
Proof. apply (id_targeting_sound order node). by vm_compute. Defined.

Lemma status_reports_consistent_witness : status_wf (active (downloading (status_new 0 "d1" "n1") 255) "i1").
Proof.
  apply (status_reports_consistent 0 "d1" "n1"). eapply rtc_l; [apply (step_downloading _ 255); lia|].
  eapply rtc_l; [apply step_active|]. apply rtc_refl.
Defined.

(** A node of another formation is selected by its identifier alone. *)
Example foreign_formation_selected :
  let d := with_formation (with_scope (directive_new 0 "d1") (ScopeFormation "f2")) "f2" in
  targets_node d "n1" = true /\ targets d node = false.
Proof. by vm_compute. Qed.

End SampleDeployment.
